(* ===== verification/_CoqProject ===== *)
-Q . S2P
Prelude.v
Kv.v
Visibility.v
TxnManager.v
Roaring.v
Arrow.v
DeltaTypes.v
DeltaMerge.v
DeltaApply.v
DelMask.v
UpdMask.v
Wal.v
GroupCommit.v
WalRecovery.v
MemStore.v
Frozen.v
LayerStack.v
ShadowColumns.v
PkIndex.v
Bloom.v
ZoneMap.v
Filter.v
FilterEval.v
SparseIndex.v
DiskStore.v
DiskMerge.v
FlushEngine.v
Disk.v
Vortex.v
VisFile.v
SegMeta.v
BloomCache.v
WalUtils.v
Cdc.v
Checkpoint.v
Db.v
Insert.v
AccessTracker.v
Compaction.v
PdtMerge.v
TimeTravel.v
AsOf.v
PointGet.v
ScanSegment.v
Scan.v
HeatTracker.v
QueryFeedback.v
Ecotune.v
Adaptive.v
IoScheduler.v
NonBlocking.v
RouteCost.v
Routing.v
FileHeader.v
MappedFiles.v
