(* ===== verification/Prelude.v ===== *)
(** * RockDuck: a verification library

    RockDuck (src/) is an HTAP storage engine in Rust: rows live in immutable
    columnar segments, updates live in delta layers (L1 in memory, L2 and L3 on
    disk), transactions are validated by SSI and made durable by a write-ahead
    log, and readers reconstruct a snapshot by filtering rows and merging deltas.
    This library models the parts that decide what a reader sees and what
    survives a crash.

    ** How the parts interact

    A transaction begins in [VisibilityManager] (mvcc/visibility.rs), which keeps
    the active set, mirrors it in the key-value store (metadata/kv_store.rs) and
    records read and written keys.  Commit runs SSI conflict detection, stamps the
    transaction with the clock, records it in a bounded history and returns a
    snapshot.  A reader filters rows through the [VisFilter] contract, directly,
    through a [SegmentOverlay] (segment/overlay.rs), or in the batch filter over
    the two shadow columns (mvcc/shadow_columns.rs).  Deleted rows of a segment
    are an [AdaptiveDelMask], in-place updates an [UpdMask] (segment/).  Updates
    are [DeltaCell]s: [DeltaMemStore] buffers them, logs them through [WalWriter]
    (write/durability_wal.rs) and hands them to a flush; reads merge the layers
    with [k_way_merge] and apply the result to record batches
    (storage/delta/merge.rs).  After a crash [replay_committed_ops]
    (write/wal_recovery.rs) replays the committed transactions of the log and
    returns the state that the manager is rebuilt from.  A primary key is found
    through the index records of metadata/pk_skiplist.rs, redirected by segment
    aliases after compaction.  The write path (write/insert.rs) puts a row into
    column files, visibility file, zone map, index, log and caches; the point read
    and the scan (read/) put them together again, the scan under a plan that the
    query router (query/routing/) chooses and learns from.  Compaction
    (compaction/) picks segments by debt and access, admits them to an I/O
    scheduler, rewrites them and moves their keys.  The facade (db.rs) ties
    transactions, log, checkpoints and change capture (cdc/) together.

    ** Files

    - [Prelude]: integers with wrap-around and saturation, [f64] by the standard
      library's binary64 model, [RockDuckError] (src/error.rs) and the result
      monad, bytes and UTF-8, ordered maps as sorted association lists (BTreeMap,
      BTreeSet), stable sort, loops, panics ([outcome]), the iteration order of
      hash maps as a class ([HashIter]: any permutation), tactics and hints.
    - [Kv]: metadata/kv_engine.rs and codec.rs as the interfaces [KVEngine] and
      [Codec] with their laws and instances that evaluate; the MVCC and alias
      records of metadata/kv_store.rs.
    - [Visibility]: mvcc/visibility.rs (contract, three filters, snapshots,
      contexts) and segment/overlay.rs.
    - [TxnManager]: mvcc/visibility.rs (begin, record, SSI commit, abort, pruning,
      recovery), with the step relation [reachable] over its operations.
    - [Roaring], [Arrow]: the third-party bitmap and array libraries as interfaces
      with the documented behaviour that the sources rely on, and list instances.
    - [DeltaTypes], [DeltaMerge], [DeltaApply]: storage/delta/types.rs and merge.rs.
    - [DelMask], [UpdMask]: segment/adaptive_del_mask.rs and upd_mask.rs.
    - [Wal], [WalRecovery]: write/durability_wal.rs with group_commit.rs, and
      write/wal_recovery.rs.
    - [GroupCommit]: the strict append of write/durability_wal.rs by several
      callers and the flusher, as a step relation on the shared writer.
    - [MemStore], [Frozen], [LayerStack]: storage/delta/mem_store.rs (L1),
      frozen_store.rs with sparsity.rs (L3), and mod.rs, where L2 is the interface
      [DeltaDisk].
    - [ShadowColumns]: mvcc/shadow_columns.rs.
    - [PkIndex]: metadata/pk_skiplist.rs and seg_alias.rs.
    - [Bloom], [ZoneMap]: metadata/block_zone_map.rs, block_stats.rs, zone_map.rs.
    - [Filter], [FilterEval]: query/filter_expr.rs (tokenizer and parser; zone-map
      predicates and evaluation) and the two stages of read/scan.rs that use them.
    - [SparseIndex]: segment/sparse_index.rs.
    - [DiskStore], [DiskMerge]: storage/delta/disk_store.rs (L2), over a directory
      that is a map from paths to bytes.
    - [FlushEngine]: storage/delta/flush_engine.rs, which moves cells from L1 to L2
      and patches from L2 to L3.
    - [Disk]: the file system as a map from paths to bytes with failures, and the
      monad of calls that may fail or panic; [Vortex]: storage/vortex.rs;
      [VisFile]: write/vis_file.rs; [SegMeta]: segment/meta.rs, layout.rs and
      metadata/seg_meta.rs; [BloomCache], [WalUtils]: the caches and the row
      encoding of the write path.
    - [Cdc]: cdc/log.rs and stream.rs; [Checkpoint]: write/checkpoint.rs; [Db]: the
      transaction, snapshot, checkpoint and recovery calls of db.rs; [Insert]:
      write/insert.rs and the replay callback of db.rs.
    - [AccessTracker], [Compaction], [PdtMerge], [Ecotune], [Adaptive],
      [IoScheduler], [NonBlocking]: the files of compaction/ (the phases, the queue
      and the strategies are in [Compaction]).  The queue is written against a
      class of binary heaps, the worker against a class of executors.
    - [TimeTravel], [AsOf]: query/time_travel_impl.rs and time_travel.rs;
      [PointGet]: read/point_get.rs; [ScanSegment], [Scan]: read/scan.rs, one
      segment and the whole scan, against the router interface [ScanRouter].
    - [HeatTracker]: write/heat_tracker.rs; [QueryFeedback]: query/feedback.rs.
    - [RouteCost], [Routing]: query/routing/, without and with its feedback;
      [live_scan_router] is the instance of [ScanRouter].
    - [FileHeader]: codec/serialize.rs; [MappedFiles]: storage/mmap_file.rs,
      granule_zone_map_mmap.rs and file_manager.rs.

    A definition keeps the name of the Rust item it translates, with the type in
    front where Rust distinguishes by type ([TxnSnapshot_is_row_visible]).  State
    is passed explicitly; a call that reads the clock takes the reading as an
    argument; a lock held for a whole call is sequential execution; a panic is the
    value [Panic]; an error is a value of [RockDuckError] with the message the
    source formats.

    ** What the theorems show

    - Visibility: the manager's filter is the four documented rules; the filters
      of snapshot, manager and online overlay agree; the current snapshot's rows
      are characterised; time travel is monotone; the compaction overlay and the
      active-only snapshot hide every row.
    - Transactions: conflict detection is sound and complete for every hash order;
      both outcomes of a commit; invariants of every state that the operations, a
      recovery included, reach; the stored active set is the manager's; rolled-back
      work is invisible unless a restart had recorded it as committed; pruning
      bounds the history and evicts what lies below the replay watermark; commit
      visibility compares a clock reading with a transaction id; recovery restores
      history and active set.
    - Log: group commit keeps order and loses nothing, over any sequence of calls
      and over every interleaving of callers and flusher, with failing flushes,
      and at most one thread leads; a race on the size counter reports a commit
      whose record is only queued; when a strict append returns [Ok] with a clear success
      flag its record is durable, and with a stale flag it is not; recovery equals
      a two-phase specification and replays exactly the committed operations; what
      it calls active are the committed transactions.
    - Deltas: the merge returns one latest visible version per key in order, is
      incremental and independent of layer order; patch files round-trip and
      truncated ones are rejected, with one prefix that panics; patch application
      leaves every value as it was; the memstore shows what was put and loses its
      log buffer on an error; the change query over all layers returns the latest
      cells, the batched query loses versions that the single one returns; frozen
      patches are replaced atomically, and sparse ones are not visible again;
      rebuilding L1 from the log keeps keys and loses values.
    - Segments: delete masks refine sets through all representations, unions and
      range filters; the update mask's byte counter is exact and bounded, its
      application and persistence are characterised; the shadow-column filter
      keeps exactly the rows of a stated rule.
    - Index: insert, lookup and delete agree; the sparse index finds exactly the
      sampled keys.
    - Filters: the parser returns on every input and reads back every printed
      expression; comparisons evaluate as in SQL; a segment that is skipped by its
      zone maps holds no row the filter accepts, for point filters whose literals
      have the columns' types, and block
      statistics enclose the values they summarise; a Bloom filter never denies an
      inserted key.
    - L2: reading a guard file ends on every file, and what [append_patch] writes
      is never read back; a merge plan holds each row once, with a decode cache
      that changes nothing; a flushed sparse patch holds the latest value of each
      row, a dense one may move it.

    - Files and facade: a checkpoint is atomic under every failure and restores the
      manager; a commit that returned is known after a restart, which hides its rows;
      the metadata cache agrees with the store; an insert leaves its row in both index
      records, in the log and in the pending changes, and after a failed log append the
      record by key stays while the one by segment goes.
    - Headers and mapped files: the reader accepts exactly the files of a valid
      header (of version 1, or 3 or 0 with its checksum) and its payload, no proper prefix of a written one, and agrees with
      the mapped reader; what is written is read back; a mapped zone map hides no
      value with short bounds, and hides a maximum that is longer than 32 bytes;
      the count of a cached handle never reaches zero.
    - Reads: a point read returns the indexed row with the newest patch visible to
      the session's snapshot, unless the log of deletions or the visibility file hides
      the row; the scan's visibility filter is the row-by-row rule,
      whatever the batch boundaries; a bounded scan returns a prefix of the
      unbounded one; the iterator yields the batches of every live segment and ends;
      historical reads through
      the version index are right and agree with historical scans; a live scan
      with a router panics.
    - Compaction: cleanup only follows the commit of the same segments, in this run or
      in a restored state; a waiting
      task is served after boundedly many takes; the token bucket keeps its rate
      and the worker drains its queues, unless one task is larger than the bucket;
      the marks of running merges are exact on every path of a trigger; a segment with keys is
      never compacted, and a rewrite leaves out the rows it counts.
    - Routing: a rule decides before the model; no rule-free decision costs more than
      another path; the model without authority changes no decision; a checkpoint restores what was observed;
      a router without a checkpoint keeps no history, and choosing a path counts
      as running it in no time.

    ** Bounds

    The only loop with a bound of its own is the flush retry, whose three attempts
    are the source's [MAX_FLUSH_RETRIES].  Fuel is the size of the input: the length
    of the text and of the tokens in the parser ([parse_total] shows it is enough),
    the size of the file in the reader of a guard file ([l2_read_terminates]), the
    number of queued tasks, segments or rows elsewhere.  All other loops are
    structural over their input.  A strict wait that finds another leader spins: the
    model returns [None] there, and [strict_append_durable] shows that it does not
    happen when no other caller leads; [GroupCommit] has the spin as a step.  The
    worker loop of the I/O scheduler, which never ends, is a step function.
    Thresholds, costs and averages are computed in binary64 (binary32 in the linear
    model) as in the source; logarithms, whose rounding the language leaves open,
    are parameters.

    ** Not modelled

    Threads other than those of group commit and the compaction worker (every other
    call runs to its end).  Third-party formats and libraries are interfaces: the
    embedded store behind metadata/mace_adapter.rs, Arrow, Vortex, Roaring, codecs.
    Left out are the bindings to DuckDB (query/vtab_quack.rs, duckdb_ext.rs), the
    Iceberg export (iceberg/) and the change sinks (cdc/sink.rs), which are I/O in
    foreign formats; the mapped Bloom filter and the format wrappers of storage/
    that the modelled paths do not call; the encoding pickers of codec/, which enter as
    an argument; report texts, digests and configuration builders. *)

From Stdlib Require Import Floats.SpecFloat.
From stdpp Require Import base gmap strings list pretty sorting.

Declare Scope rd_scope.
Delimit Scope rd_scope with rd.
Open Scope rd_scope.
Local Open Scope Z_scope.

(** * Machine integers *)

(** A [u64], [u32] or [usize] is a [Z] in range; the operations that can leave
    the range write their wrap-around or saturation out. *)
Definition u64_max : Z := 18446744073709551615.
Definition u32_max : Z := 4294967295.

Definition is_u64 (z : Z) : Prop := 0 ≤ z ≤ u64_max.
Definition is_u32 (z : Z) : Prop := 0 ≤ z ≤ u32_max.

(** [x as u32], [x as i64], [x as u64] *)
Definition wrap32 (z : Z) : Z := z `mod` 2 ^ 32.
Definition wrap64 (z : Z) : Z := z `mod` 2 ^ 64.
Definition as_i64 (z : Z) : Z :=
  let w := wrap64 z in if w <? 2 ^ 63 then w else w - 2 ^ 64.
Definition as_u64 (z : Z) : Z := wrap64 z.

(** [x as i8] and the like, from the unsigned value at a width of [w] bits. *)
Definition as_signed (w z : Z) : Z := if z <? 2 ^ (w - 1) then z else z - 2 ^ w.

(** [a.saturating_sub(b)] on an unsigned type, and [saturating_add] on [u64] *)
Definition saturating_sub (a b : Z) : Z := if b <=? a then a - b else 0.
Definition saturating_add64 (a b : Z) : Z := if a + b <=? u64_max then a + b else u64_max.

#[export] Instance is_u64_dec z : Decision (is_u64 z).
Proof. unfold is_u64. apply _. Defined.
#[export] Instance is_u32_dec z : Decision (is_u32 z).
Proof. unfold is_u32. apply _. Defined.

(** * Floating point *)

(** An [f64] is an IEEE 754 binary64 datum; [x as f64] and [/] round to nearest. *)
Abbreviation f64 := spec_float.
Definition f64_of_Z (z : Z) : f64 := binary_normalize 53 1024 z 0 false.
Definition f64_div (x y : f64) : f64 := SFdiv 53 1024 x y.
Definition f64_add (x y : f64) : f64 := SFadd 53 1024 x y.
Definition f64_sub (x y : f64) : f64 := SFsub 53 1024 x y.
Definition f64_mul (x y : f64) : f64 := SFmul 53 1024 x y.
Definition f64_ltb (x y : f64) : bool := SFltb x y.
(** [x.max(y)] and [x.min(y)]: a NaN is ignored. *)
Definition f64_max (x y : f64) : f64 :=
  match x, y with
  | S754_nan, _ => y
  | _, S754_nan => x
  | _, _ => if SFltb x y then y else x
  end.
Definition f64_min (x y : f64) : f64 :=
  match x, y with
  | S754_nan, _ => y
  | _, S754_nan => x
  | _, _ => if SFltb y x then y else x
  end.
(** The literal [n / d] of the source, the double nearest to it. *)
Definition f64_lit (n d : Z) : f64 := f64_div (f64_of_Z n) (f64_of_Z d).

Create HintDb rd.
Create Rewrite HintDb zlen.

(** * Errors and the result type *)

(** [error.rs]: the variants carry their message; [Io] carries the kind of the
    [std::io::Error] and its text. *)
Inductive IoErrorKind := AlreadyExists | PermissionDenied | NotFound | UnexpectedEof | InvalidData | OtherKind.

Inductive RockDuckError :=
  | EStorage (msg : string)
  | EMetadata (msg : string)
  | ESegmentNotFound (msg : string)
  | EColumnNotFound (msg : string)
  | ECodec (msg : string)
  | EIo (kind : IoErrorKind) (msg : string)
  | ESerialization (msg : string)
  | EInternal (msg : string)
  | ECompaction (msg : string)
  | EDelta (msg : string)
  | EReadPath (msg : string)
  | EWrite (msg : string)
  | EQuery (msg : string)
  | EConfig (msg : string)
  | EDuckDB (msg : string)
  | EKafka (msg : string)
  | EMvccConflict (msg : string)
  | EInvalidParameter (msg : string)
  | EKeyNotFound (msg : string)
  | EDeserialize (msg : string)
  | EUnimplemented (msg : string)
  | ESecurity (msg : string)
  | EVisDataUnavailable (seg_id reason : string).

#[export] Instance IoErrorKind_eq_dec : EqDecision IoErrorKind.
Proof. solve_decision. Defined.
#[export] Instance RockDuckError_eq_dec : EqDecision RockDuckError.
Proof. solve_decision. Defined.

(** The [Display] text that [thiserror] derives from the [#[error(..)]]
    attributes. *)
Definition error_display (e : RockDuckError) : string :=
  match e with
  | EStorage m => "Storage error: " +:+ m
  | EMetadata m => "Metadata error: " +:+ m
  | ESegmentNotFound m => "Segment not found: " +:+ m
  | EColumnNotFound m => "Column not found: " +:+ m
  | ECodec m => "Codec error: " +:+ m
  | EIo _ m => "IO error: " +:+ m
  | ESerialization m => "Serialization error: " +:+ m
  | EInternal m => "Internal error: " +:+ m
  | ECompaction m => "Compaction error: " +:+ m
  | EDelta m => "Delta error: " +:+ m
  | EReadPath m => "Read path error: " +:+ m
  | EWrite m => "Write error: " +:+ m
  | EQuery m => "Query error: " +:+ m
  | EConfig m => "Config error: " +:+ m
  | EDuckDB m => "DuckDB error: " +:+ m
  | EKafka m => "Kafka error: " +:+ m
  | EMvccConflict m => "MVCC conflict: " +:+ m
  | EInvalidParameter m => "Invalid parameter: " +:+ m
  | EKeyNotFound m => "Key not found: " +:+ m
  | EDeserialize m => "Deserialization error: " +:+ m
  | EUnimplemented m => "Unimplemented: " +:+ m
  | ESecurity m => "Security: " +:+ m
  | EVisDataUnavailable s r =>
      "Visibility data unavailable for segment " +:+ s +:+ ": " +:+ r
  end.

(** [Result<T, E>] *)
Inductive result (E A : Type) :=
  | Ok (a : A)
  | Err (e : E).
Arguments Ok {E A} a.
Arguments Err {E A} e.

(** [Result<T>] of error.rs *)
Abbreviation Result := (result RockDuckError).

Definition is_ok {E A} (r : result E A) : bool :=
  match r with Ok _ => true | Err _ => false end.

Definition result_bind {E A B} (r : result E A) (f : A → result E B) : result E B :=
  match r with Ok a => f a | Err e => Err e end.

(** [r.map_err(f)] *)
Definition map_err {E E' A} (f : E → E') (r : result E A) : result E' A :=
  match r with Ok a => Ok a | Err e => Err (f e) end.

(** [r.unwrap_or(d)] *)
Definition unwrap_or {E A} (d : A) (r : result E A) : A :=
  match r with Ok a => a | Err _ => d end.

(** The [?] operator. *)
Notation "x <-? c ; k" := (result_bind c (λ x, k))
  (at level 100, c at next level, right associativity) : rd_scope.
Notation "' x <-? c ; k" := (result_bind c (λ x : _, k))
  (at level 20, x pattern, c at level 100, k at level 200, only parsing) : rd_scope.

(** * Bytes *)

Abbreviation bytes := (list Z).

Definition is_byte (b : Z) : Prop := 0 ≤ b < 256.

(** [x.to_le_bytes()] at a width of [n] bytes, and [from_le_bytes]. *)
Fixpoint to_le_bytes (n : nat) (x : Z) : bytes :=
  match n with
  | O => []
  | S n' => x `mod` 256 :: to_le_bytes n' (x `div` 256)
  end.

Fixpoint from_le_bytes (bs : bytes) : Z :=
  match bs with
  | [] => 0
  | b :: bs' => b + 256 * from_le_bytes bs'
  end.

Lemma to_le_bytes_length n x : length (to_le_bytes n x) = n.
Proof. revert x; induction n as [|n IH]; intros x; simpl; [done|by rewrite IH]. Qed.

Lemma to_le_bytes_bytes n x : Forall is_byte (to_le_bytes n x).
Proof.
  revert x; induction n as [|n IH]; intros x; simpl; constructor; [|apply IH].
  unfold is_byte. apply Z.mod_pos_bound; lia.
Qed.

Lemma from_to_le_bytes n x :
  0 ≤ x < 256 ^ Z.of_nat n → from_le_bytes (to_le_bytes n x) = x.
Proof.
  revert x; induction n as [|n IH]; intros x Hx; cbn [to_le_bytes from_le_bytes].
  - change (256 ^ Z.of_nat 0) with 1 in Hx. lia.
  - rewrite Nat2Z.inj_succ, Z.pow_succ_r in Hx by lia.
    rewrite IH; [pose proof (Z.div_mod x 256); lia|].
    split; [apply Z.div_pos; lia|apply Z.div_lt_upper_bound; lia].
Qed.

(** Of any integer: its value at the width. *)
Lemma from_to_le_bytes_mod n x : from_le_bytes (to_le_bytes n x) = x `mod` 256 ^ Z.of_nat n.
Proof.
  revert x; induction n as [|n IH]; intros x; cbn [to_le_bytes from_le_bytes].
  - by rewrite Z.mod_1_r.
  - rewrite IH, Nat2Z.inj_succ, Z.pow_succ_r by lia. symmetry. apply Z.rem_mul_r; lia.
Qed.

Lemma as_signed_mod w z : 0 < w → - 2 ^ (w - 1) ≤ z < 2 ^ (w - 1) → as_signed w (z `mod` 2 ^ w) = z.
Proof.
  intros Hw Hz. unfold as_signed. assert (2 ^ w = 2 * 2 ^ (w - 1)) as E by (rewrite <- Z.pow_succ_r by lia; f_equal; lia).
  destruct (decide (0 ≤ z)).
  - rewrite Z.mod_small by lia. rewrite (proj2 (Z.ltb_lt _ _)) by lia. done.
  - rewrite <- (Z.mod_add z 1), Z.mod_small by lia. rewrite (proj2 (Z.ltb_ge _ _)) by lia. lia.
Qed.

Lemma to_from_le_bytes bs :
  Forall is_byte bs → to_le_bytes (length bs) (from_le_bytes bs) = bs.
Proof.
  induction 1 as [|b bs Hb _ IH]; cbn [to_le_bytes from_le_bytes length]; [done|].
  unfold is_byte in Hb. rewrite (Z.mul_comm 256). f_equal.
  - rewrite Z.mod_add by lia. apply Z.mod_small; lia.
  - rewrite Z.div_add, Z.div_small by lia. exact IH.
Qed.

Lemma from_le_bytes_bound bs :
  Forall is_byte bs → 0 ≤ from_le_bytes bs < 256 ^ Z.of_nat (length bs).
Proof.
  induction 1 as [|b bs Hb _ IH]; [done|].
  cbn [from_le_bytes length]. unfold is_byte in Hb.
  rewrite Nat2Z.inj_succ, Z.pow_succ_r by lia. lia.
Qed.

Lemma to_le_bytes_inj n x y :
  0 ≤ x < 256 ^ Z.of_nat n → 0 ≤ y < 256 ^ Z.of_nat n →
  to_le_bytes n x = to_le_bytes n y → x = y.
Proof. intros Hx Hy H. rewrite <- (from_to_le_bytes n x), <- (from_to_le_bytes n y), H; done. Qed.

Arguments to_le_bytes : simpl never.
Arguments from_le_bytes : simpl never.

(** The bytes of a string, [s.as_bytes()]. *)
Fixpoint as_bytes (s : string) : bytes :=
  match s with
  | EmptyString => []
  | String c s' => Z.of_N (Ascii.N_of_ascii c) :: as_bytes s'
  end.

Lemma as_bytes_inj s1 s2 : as_bytes s1 = as_bytes s2 → s1 = s2.
Proof.
  revert s2; induction s1 as [|c s1 IH]; intros [|c' s2] H; simplify_eq/=; [done|].
  match goal with H : Ascii.N_of_ascii _ = _ |- _ =>
    apply (f_equal Ascii.ascii_of_N) in H; rewrite !Ascii.ascii_N_embedding in H end.
  subst. f_equal. by apply IH.
Qed.

Lemma as_bytes_length s : length (as_bytes s) = String.length s.
Proof. induction s; simpl; congruence. Qed.

(** The last character. *)
Fixpoint str_last (s : string) : option Ascii.ascii :=
  match s with
  | "" => None
  | String c s' => match str_last s' with Some d => Some d | None => Some c end
  end.

Lemma str_last_app a b d : str_last b = Some d → str_last (a +:+ b) = Some d.
Proof.
  intros Hd. induction a as [|c a IH]; [done|].
  change (str_last (String c a +:+ b)) with (match str_last (a +:+ b) with Some d => Some d | None => Some c end).
  by rewrite IH.
Qed.

(** [String::from_utf8] and [str::from_utf8]: the well-formed byte sequences of
    the Unicode standard. *)
Definition in_range (lo hi b : Z) : bool := (lo <=? b) && (b <=? hi).
Definition utf8_cont : Z → bool := in_range 128 191.

Fixpoint utf8_valid (bs : bytes) : bool :=
  match bs with
  | [] => true
  | b0 :: t0 =>
      if in_range 0 127 b0 then utf8_valid t0 else
      match t0 with
      | [] => false
      | b1 :: t1 =>
          if in_range 194 223 b0 then utf8_cont b1 && utf8_valid t1 else
          match t1 with
          | [] => false
          | b2 :: t2 =>
              if in_range 224 239 b0 then
                in_range (if b0 =? 224 then 160 else 128) (if b0 =? 237 then 159 else 191) b1
                && utf8_cont b2 && utf8_valid t2
              else
              match t2 with
              | [] => false
              | b3 :: t3 =>
                  in_range 240 244 b0
                  && in_range (if b0 =? 240 then 144 else 128) (if b0 =? 244 then 143 else 191) b1
                  && utf8_cont b2 && utf8_cont b3 && utf8_valid t3
              end
          end
      end
  end.

Fixpoint string_of_bytes (bs : bytes) : string :=
  match bs with
  | [] => EmptyString
  | b :: bs' => String (Ascii.ascii_of_N (Z.to_N b)) (string_of_bytes bs')
  end.

Definition from_utf8 (bs : bytes) : option string :=
  if utf8_valid bs then Some (string_of_bytes bs) else None.

Lemma string_of_as_bytes s : string_of_bytes (as_bytes s) = s.
Proof.
  induction s as [|c s IH]; simpl; [done|]. by rewrite N2Z.id, Ascii.ascii_N_embedding, IH.
Qed.

Lemma from_utf8_as_bytes s : utf8_valid (as_bytes s) = true → from_utf8 (as_bytes s) = Some s.
Proof. unfold from_utf8. intros ->. by rewrite string_of_as_bytes. Qed.

Lemma ascii_utf8 bs : Forall (λ b, 0 ≤ b < 128) bs → utf8_valid bs = true.
Proof.
  induction bs as [|b bs IH]; intros Hb; [done|]. apply Forall_cons in Hb as [Hb Hbs]. specialize (IH Hbs).
  cbn [utf8_valid]. by replace (in_range 0 127 b) with true by (unfold in_range; lia).
Qed.

Lemma as_string_of_bytes bs : Forall is_byte bs → as_bytes (string_of_bytes bs) = bs.
Proof.
  induction 1 as [|b bs Hb _ IH]; simpl; [done|].
  rewrite Ascii.N_ascii_embedding, IH by (unfold is_byte in Hb; lia). f_equal. unfold is_byte in Hb. lia.
Qed.

Lemma from_utf8_ascii bs :
  Forall (λ b, 0 ≤ b < 128) bs → ∃ s, from_utf8 bs = Some s ∧ as_bytes s = bs.
Proof.
  intros Hb. exists (string_of_bytes bs). unfold from_utf8. rewrite ascii_utf8 by done. split; [done|].
  apply as_string_of_bytes. eapply Forall_impl; [done|]. unfold is_byte. intros; simpl in *; lia.
Qed.

(** [String::from_utf8_lossy]: a maximal invalid sequence becomes U+FFFD.  The
    length of the sequence at the head, and whether it is a character. *)
Definition utf8_step (bs : bytes) : nat * bool :=
  match bs with
  | [] => (0%nat, true)
  | b0 :: t0 =>
      if in_range 0 127 b0 then (1%nat, true)
      else if in_range 194 223 b0 then
        match t0 with b1 :: _ => if utf8_cont b1 then (2%nat, true) else (1%nat, false) | [] => (1%nat, false) end
      else if in_range 224 239 b0 then
        match t0 with
        | b1 :: t1 =>
            if in_range (if b0 =? 224 then 160 else 128) (if b0 =? 237 then 159 else 191) b1 then
              match t1 with b2 :: _ => if utf8_cont b2 then (3%nat, true) else (2%nat, false) | [] => (2%nat, false) end
            else (1%nat, false)
        | [] => (1%nat, false)
        end
      else if in_range 240 244 b0 then
        match t0 with
        | b1 :: t1 =>
            if in_range (if b0 =? 240 then 144 else 128) (if b0 =? 244 then 143 else 191) b1 then
              match t1 with
              | b2 :: t2 =>
                  if utf8_cont b2 then
                    match t2 with b3 :: _ => if utf8_cont b3 then (4%nat, true) else (3%nat, false) | [] => (3%nat, false) end
                  else (2%nat, false)
              | [] => (2%nat, false)
              end
            else (1%nat, false)
        | [] => (1%nat, false)
        end
      else (1%nat, false)
  end.

Fixpoint utf8_lossy (fuel : nat) (bs : bytes) : bytes :=
  match fuel, bs with
  | O, _ | _, [] => []
  | S fuel', _ =>
      let '(n, ok) := utf8_step bs in
      (if ok then take n bs else [239; 191; 189]) ++ utf8_lossy fuel' (drop n bs)
  end.

(** A step consumes at least a byte, so the length is enough fuel. *)
Definition from_utf8_lossy (bs : bytes) : string := string_of_bytes (utf8_lossy (length bs) bs).

(** On a well-formed sequence the head is a character and the rest is well formed. *)
Lemma utf8_step_valid bs : utf8_valid bs = true → bs ≠ [] →
  ∃ n, utf8_step bs = (S n, true) ∧ (S n ≤ length bs)%nat ∧ utf8_valid (drop (S n) bs) = true.
Proof.
  destruct bs as [|b0 t0]; [done|]. intros Hv _. cbn [utf8_valid utf8_step] in *.
  destruct (in_range 0 127 b0); [exists 0%nat; cbn; split_and!; [done|lia|done]|].
  destruct t0 as [|b1 t1]; [done|].
  destruct (in_range 194 223 b0).
  { apply andb_true_iff in Hv as [-> Hv]. exists 1%nat. cbn. split_and!; [done|lia|done]. }
  destruct t1 as [|b2 t2]; [done|].
  destruct (in_range 224 239 b0).
  { rewrite !andb_true_iff in Hv. destruct Hv as [[-> ->] Hv]. exists 2%nat. cbn. split_and!; [done|lia|done]. }
  destruct t2 as [|b3 t3]; [done|]. rewrite !andb_true_iff in Hv.
  destruct Hv as [[[[-> ->] ->] ->] Hv]. exists 3%nat. cbn. split_and!; [done|lia|done].
Qed.

Lemma utf8_lossy_valid fuel bs : (length bs ≤ fuel)%nat → utf8_valid bs = true → utf8_lossy fuel bs = bs.
Proof.
  revert bs. induction fuel as [|fuel IH]; intros bs Hl Hv; [by destruct bs; [|cbn in Hl; lia]|].
  destruct bs as [|b bs]; [done|]. cbn [utf8_lossy].
  destruct (utf8_step_valid (b :: bs) Hv ltac:(done)) as (n & -> & Hn & Hv').
  rewrite IH; [apply take_drop|rewrite length_drop; lia|done].
Qed.

Lemma from_utf8_lossy_as_bytes s : utf8_valid (as_bytes s) = true → from_utf8_lossy (as_bytes s) = s.
Proof. intros Hv. unfold from_utf8_lossy. by rewrite utf8_lossy_valid, string_of_as_bytes. Qed.

(** * Hash maps: the iteration order is unspecified *)

(** Iterating over a Rust [HashMap] or [HashSet] visits every entry once in an unspecified
    order.  A definition that iterates takes the order from this class, and a
    theorem about it holds for every order. *)
Class HashIter := {
  hash_iter : ∀ {K} `{Countable K} {A}, gmap K A → list (K * A);
  hash_iter_perm : ∀ {K} `{Countable K} {A} (m : gmap K A), hash_iter m ≡ₚ map_to_list m;
  hash_iter_set : ∀ {K} `{Countable K}, gset K → list K;
  hash_iter_set_perm : ∀ {K} `{Countable K} (s : gset K), hash_iter_set s ≡ₚ elements s
}.

(** One order, used where a concrete run is evaluated. *)
#[export] Instance canonical_hash_iter : HashIter | 100 := {
  hash_iter := λ K _ _ A m, map_to_list m;
  hash_iter_perm := λ K _ _ A m, Permutation_refl _;
  hash_iter_set := λ K _ _ s, elements s;
  hash_iter_set_perm := λ K _ _ s, Permutation_refl _
}.

Section hash_iter.
Context `{HI : HashIter} `{Countable K} {A : Type}.
Implicit Types m : gmap K A.

Lemma elem_of_hash_iter m k a : (k, a) ∈ hash_iter m ↔ m !! k = Some a.
Proof. rewrite hash_iter_perm. apply elem_of_map_to_list. Qed.

Lemma hash_iter_length m : length (hash_iter m) = size m.
Proof. rewrite hash_iter_perm. apply length_map_to_list. Qed.

Lemma hash_iter_NoDup_fst m : NoDup (hash_iter m).*1.
Proof. rewrite hash_iter_perm. apply NoDup_fst_map_to_list. Qed.

Lemma elem_of_hash_iter_set (s : gset K) k : k ∈ hash_iter_set s ↔ k ∈ s.
Proof. rewrite hash_iter_set_perm. apply elem_of_elements. Qed.
End hash_iter.

(** * Ordered keys and B-tree maps *)

(** [Ord] as a three-way comparison, with the laws of a total order. *)
Class Cmp (K : Type) := cmp : K → K → comparison.
Class CmpLaws (K : Type) `{Cmp K} := {
  cmp_eq : ∀ x y : K, cmp x y = Eq ↔ x = y;
  cmp_opp : ∀ x y : K, cmp x y = CompOpp (cmp y x);
  cmp_lt_trans : ∀ x y z : K, cmp x y = Lt → cmp y z = Lt → cmp x z = Lt
}.
#[global] Hint Mode Cmp ! : typeclass_instances.
#[global] Hint Mode CmpLaws ! - : typeclass_instances.

#[export] Instance Z_cmp : Cmp Z := Z.compare.
#[export] Instance string_cmp : Cmp string := String.compare.
#[export] Instance prod_cmp `{Cmp A, Cmp B} : Cmp (A * B) :=
  λ x y, match cmp x.1 y.1 with Eq => cmp x.2 y.2 | c => c end.

(** Slices compare lexicographically. *)
Fixpoint list_compare {A} `{Cmp A} (xs ys : list A) : comparison :=
  match xs, ys with
  | [], [] => Eq
  | [], _ :: _ => Lt
  | _ :: _, [] => Gt
  | x :: xs', y :: ys' => match cmp x y with Eq => list_compare xs' ys' | c => c end
  end.
#[export] Instance list_cmp `{Cmp A} : Cmp (list A) := list_compare.

(** [a < b] on values with a comparison *)
Definition ltb {A} `{Cmp A} (x y : A) : bool := match cmp x y with Lt => true | _ => false end.

#[export] Instance Z_cmp_laws : CmpLaws Z.
Proof.
  split; unfold cmp, Z_cmp; intros.
  - apply Z.compare_eq_iff.
  - apply Z.compare_antisym.
  - rewrite Z.compare_lt_iff in *; lia.
Qed.

Lemma string_compare_refl s : String.compare s s = Eq.
Proof.
  induction s as [|c s IH]; [done|]; cbn.
  unfold Ascii.compare. by rewrite N.compare_refl.
Qed.

Lemma string_compare_lt_trans x y z :
  String.compare x y = Lt → String.compare y z = Lt → String.compare x z = Lt.
Proof.
  revert y z; induction x as [|a x IH]; intros [|b y] [|c z]; cbn; try done.
  unfold Ascii.compare.
  destruct (N.compare_spec (Ascii.N_of_ascii a) (Ascii.N_of_ascii b)) as [E1| |]; try done;
  destruct (N.compare_spec (Ascii.N_of_ascii b) (Ascii.N_of_ascii c)) as [E2| |]; try done;
  intros; destruct (N.compare_spec (Ascii.N_of_ascii a) (Ascii.N_of_ascii c)); eauto; try lia.
Qed.

#[export] Instance string_cmp_laws : CmpLaws string.
Proof.
  split; unfold cmp, string_cmp.
  - intros x y; split; [apply String.compare_eq_iff|intros ->; apply string_compare_refl].
  - intros x y; apply String.compare_antisym.
  - apply string_compare_lt_trans.
Qed.

#[export] Instance prod_cmp_laws `{CmpLaws A, CmpLaws B} : CmpLaws (A * B).
Proof.
  split; unfold cmp, prod_cmp.
  - intros [x1 x2] [y1 y2]; simpl. destruct (cmp x1 y1) eqn:E.
    + apply cmp_eq in E as ->. rewrite cmp_eq. split; congruence.
    + split; [done|]. intros [= -> ->]. by rewrite (proj2 (cmp_eq y1 y1)) in E.
    + split; [done|]. intros [= -> ->]. by rewrite (proj2 (cmp_eq y1 y1)) in E.
  - intros [x1 x2] [y1 y2]; simpl. rewrite (cmp_opp x1 y1).
    destruct (cmp y1 x1); simpl; [apply cmp_opp|done|done].
  - intros [x1 x2] [y1 y2] [z1 z2]; simpl.
    destruct (cmp x1 y1) eqn:E1, (cmp y1 z1) eqn:E2; try done; intros H1' H2'.
    + apply cmp_eq in E1 as ->. rewrite E2. eauto using cmp_lt_trans.
    + apply cmp_eq in E1 as ->. by rewrite E2.
    + apply cmp_eq in E2 as ->. by rewrite E1.
    + by rewrite (cmp_lt_trans _ _ _ E1 E2).
Qed.

#[export] Instance list_cmp_laws `{CmpLaws A} : CmpLaws (list A).
Proof.
  split; unfold cmp, list_cmp.
  - intros xs; induction xs as [|x xs IH]; intros [|y ys]; cbn; [done..|].
    destruct (cmp x y) eqn:E.
    + apply cmp_eq in E as ->. rewrite IH. split; [by intros ->|by intros [= ->]].
    + split; [done|]. intros [= -> _]. by rewrite (proj2 (cmp_eq y y)) in E.
    + split; [done|]. intros [= -> _]. by rewrite (proj2 (cmp_eq y y)) in E.
  - intros xs; induction xs as [|x xs IH]; intros [|y ys]; cbn; [done..|].
    rewrite (cmp_opp x y). destruct (cmp y x); cbn; [apply IH|done|done].
  - intros xs; induction xs as [|x xs IH]; intros [|y ys] [|z zs]; cbn; try done.
    destruct (cmp x y) eqn:E1, (cmp y z) eqn:E2; try done; intros H1 H2.
    + apply cmp_eq in E1 as ->. rewrite E2. by eapply IH.
    + apply cmp_eq in E1 as ->. by rewrite E2.
    + apply cmp_eq in E2 as ->. by rewrite E1.
    + by rewrite (cmp_lt_trans _ _ _ E1 E2).
Qed.

Section cmp.
Context `{CmpLaws K}.
Implicit Types x y z : K.

Lemma ltb_lt x y : ltb x y = true ↔ cmp x y = Lt.
Proof. unfold ltb. by destruct (cmp x y). Qed.

Lemma ltb_irrefl x : ltb x x = false.
Proof. unfold ltb. by rewrite (proj2 (cmp_eq x x)). Qed.

(** Between two values whose first is smaller, any third is on one side. *)
Lemma ltb_split x y z : ltb x y = true → ltb x z = true ∨ ltb z y = true.
Proof.
  rewrite !ltb_lt. intros Hxy. destruct (cmp x z) eqn:E; [|by left|].
  - apply cmp_eq in E as ->. by right.
  - right. eapply cmp_lt_trans; [|exact Hxy]. by rewrite cmp_opp, E.
Qed.

Lemma cmp_refl x : cmp x x = Eq.
Proof. by apply cmp_eq. Qed.

Lemma cmp_gt_lt x y : cmp x y = Gt ↔ cmp y x = Lt.
Proof. rewrite (cmp_opp x y). by destruct (cmp y x). Qed.

Lemma cmp_lt_irrefl x : cmp x x ≠ Lt.
Proof. by rewrite cmp_refl. Qed.

Lemma cmp_lt_ne x y : cmp x y = Lt → x ≠ y.
Proof. intros Hlt ->. by apply (cmp_lt_irrefl y). Qed.
End cmp.

(** The doubles other than NaN in their order, as a key; [partial_cmp] compares the keys. *)
Definition f64_rank (x : f64) : Z * (Z * Z) :=
  match x with
  | S754_infinity true => (-2, (0, 0))
  | S754_finite true m e => (-1, (- e, Z.neg m))
  | S754_zero _ => (0, (0, 0))
  | S754_finite false m e => (1, (e, Z.pos m))
  | S754_infinity false => (2, (0, 0))
  | S754_nan => (3, (0, 0))
  end.

Lemma SFcompare_rank x y : x ≠ S754_nan → y ≠ S754_nan →
  SFcompare x y = Some (cmp (f64_rank x) (f64_rank y)).
Proof.
  destruct x as [[]|[]| |[] m e], y as [[]|[]| |[] m' e']; try done; intros _ _; cbn;
    unfold prod_cmp, cmp, Z_cmp; cbn; f_equal.
  rewrite Z.compare_opp, (Z.compare_antisym e e'). by destruct (e ?= e').
Qed.

(** A [BTreeMap<K, V>] is its entry list in ascending key order. *)
Abbreviation btree K A := (list (K * A)).

Fixpoint bt_insert {K A} `{Cmp K} (k : K) (a : A) (m : btree K A) : btree K A :=
  match m with
  | [] => [(k, a)]
  | (k', a') :: m' =>
      match cmp k k' with
      | Lt => (k, a) :: m
      | Eq => (k, a) :: m'
      | Gt => (k', a') :: bt_insert k a m'
      end
  end.

Fixpoint bt_get {K A} `{Cmp K} (k : K) (m : btree K A) : option A :=
  match m with
  | [] => None
  | (k', a') :: m' =>
      match cmp k k' with
      | Lt => None
      | Eq => Some a'
      | Gt => bt_get k m'
      end
  end.

Fixpoint bt_remove {K A} `{Cmp K} (k : K) (m : btree K A) : btree K A :=
  match m with
  | [] => []
  | (k', a') :: m' =>
      match cmp k k' with
      | Lt => m
      | Eq => m'
      | Gt => (k', a') :: bt_remove k m'
      end
  end.

(** Ascending keys: the representation invariant. *)
Inductive bt_sorted {K A} `{Cmp K} : btree K A → Prop :=
  | bt_sorted_nil : bt_sorted []
  | bt_sorted_cons k a m :
      Forall (λ e, cmp k e.1 = Lt) m → bt_sorted m → bt_sorted ((k, a) :: m).

Section btree.
Context `{CmpLaws K} {A : Type}.
Implicit Types m : btree K A.

Lemma bt_insert_Forall (P : K * A → Prop) k a m :
  P (k, a) → Forall P m → Forall P (bt_insert k a m).
Proof.
  intros HP. induction 1 as [|[k' a'] m Hm1 Hm IH]; simpl; [by repeat constructor|].
  destruct (cmp k k'); repeat constructor; done.
Qed.

Lemma bt_insert_sorted k a m : bt_sorted m → bt_sorted (bt_insert k a m).
Proof.
  induction 1 as [|k' a' m Hlt Hs IH]; simpl; [by repeat constructor|].
  destruct (cmp k k') eqn:E.
  - apply cmp_eq in E as ->. by constructor.
  - constructor; [|by constructor]. constructor; [done|].
    eapply Forall_impl; [exact Hlt|]. intros e He. eapply cmp_lt_trans; eauto.
  - constructor; [|done]. apply bt_insert_Forall; [|done]. by apply cmp_gt_lt.
Qed.

Lemma bt_get_lt k m : Forall (λ e, cmp k e.1 = Lt) m → bt_get k m = None.
Proof. by destruct 1 as [|[k' a'] m E]; simpl in *; [|rewrite E]. Qed.

Lemma bt_get_insert k k' a m : bt_sorted m →
  bt_get k' (bt_insert k a m) = match cmp k' k with Eq => Some a | _ => bt_get k' m end.
Proof.
  induction 1 as [|k0 a0 m Hlt Hs IH]; simpl; [by destruct (cmp k' k)|].
  destruct (cmp k k0) eqn:E; simpl.
  - apply cmp_eq in E as ->. by destruct (cmp k' k0).
  - destruct (cmp k' k) eqn:E'; [done| |done]. by rewrite (cmp_lt_trans _ _ _ E' E).
  - rewrite IH. destruct (cmp k' k0) eqn:E', (cmp k' k) eqn:E''; try done.
    + apply cmp_eq in E', E''. subst. by rewrite cmp_refl in E.
    + apply cmp_eq in E''. subst. congruence.
Qed.

Lemma bt_get_insert_eq k a m : bt_sorted m → bt_get k (bt_insert k a m) = Some a.
Proof. intros. by rewrite bt_get_insert, cmp_refl. Qed.

Lemma bt_get_insert_ne k k' a m :
  bt_sorted m → k' ≠ k → bt_get k' (bt_insert k a m) = bt_get k' m.
Proof.
  intros. rewrite bt_get_insert by done. destruct (cmp k' k) eqn:E; [by apply cmp_eq in E|done|done].
Qed.

Lemma elem_of_bt_get k a m : bt_sorted m → (k, a) ∈ m ↔ bt_get k m = Some a.
Proof.
  induction 1 as [|k' a' m Hlt Hs IH]; simpl.
  - rewrite elem_of_nil. naive_solver.
  - rewrite elem_of_cons, IH. destruct (cmp k k') eqn:E.
    + apply cmp_eq in E as ->. rewrite bt_get_lt by done. naive_solver.
    + rewrite bt_get_lt.
      * apply cmp_lt_ne in E. naive_solver.
      * eapply Forall_impl; [exact Hlt|]. intros; eapply cmp_lt_trans; eauto.
    + apply cmp_gt_lt, cmp_lt_ne in E. naive_solver.
Qed.

Lemma bt_sorted_NoDup_fst m : bt_sorted m → NoDup m.*1.
Proof.
  induction 1 as [|k a m Hlt Hs IH]; simpl; constructor; [|done].
  rewrite list_elem_of_fmap. intros ([k' a'] & -> & Hin).
  rewrite Forall_forall in Hlt. apply Hlt in Hin. by apply cmp_lt_irrefl in Hin.
Qed.

Lemma bt_remove_Forall (P : K * A → Prop) k m : Forall P m → Forall P (bt_remove k m).
Proof.
  induction 1 as [|[k' a'] m Hm1 Hm IH]; simpl; [constructor|].
  destruct (cmp k k'); [done|by constructor|by constructor].
Qed.

Lemma bt_remove_sorted k m : bt_sorted m → bt_sorted (bt_remove k m).
Proof.
  induction 1 as [|k' a' m Hlt Hs IH]; simpl; [constructor|].
  destruct (cmp k k'); [done|by constructor|constructor; [by apply bt_remove_Forall|done]].
Qed.

Lemma bt_get_remove k k' m : bt_sorted m →
  bt_get k' (bt_remove k m) = match cmp k' k with Eq => None | _ => bt_get k' m end.
Proof.
  induction 1 as [|k0 a0 m Hlt Hs IH]; simpl; [by destruct (cmp k' k)|].
  destruct (cmp k k0) eqn:E; simpl.
  - apply cmp_eq in E as ->. destruct (cmp k' k0) eqn:E'; [| |done].
    + apply cmp_eq in E' as ->. by apply bt_get_lt.
    + apply bt_get_lt. eapply Forall_impl; [exact Hlt|]. intros; eapply cmp_lt_trans; eauto.
  - destruct (cmp k' k) eqn:E'; [|done..]. apply cmp_eq in E' as ->. by rewrite E.
  - rewrite IH. destruct (cmp k' k0) eqn:E', (cmp k' k) eqn:E''; try done.
    apply cmp_eq in E', E''. subst. by rewrite cmp_refl in E.
Qed.

(** A key above all the others goes to the end. *)
Lemma bt_insert_last k a m : Forall (λ e, cmp e.1 k = Lt) m → bt_insert k a m = m ++ [(k, a)].
Proof.
  induction 1 as [|[k' a'] m Hk _ IH]; cbn; [done|].
  cbn in Hk. by rewrite (proj2 (cmp_gt_lt k k') Hk), IH.
Qed.

Lemma bt_get_last k m : Forall (λ e, cmp e.1 k = Lt) m → bt_get k m = None.
Proof.
  induction 1 as [|[k' a'] m Hk _ IH]; cbn; [done|].
  cbn in Hk. by rewrite (proj2 (cmp_gt_lt k k') Hk), IH.
Qed.

(** Two maps with the same entries are the same list. *)
Lemma bt_sorted_ext m1 m2 : bt_sorted m1 → bt_sorted m2 →
  (∀ k, bt_get k m1 = bt_get k m2) → m1 = m2.
Proof.
  intros Hs1. revert m2. induction Hs1 as [|k1 a1 m1 Hlt1 Hs1 IH]; intros m2 Hs2 Heq.
  - destruct m2 as [|[k a] m2]; [done|]. specialize (Heq k). cbn in Heq. by rewrite cmp_refl in Heq.
  - destruct Hs2 as [|k2 a2 m2 Hlt2 Hs2].
    { specialize (Heq k1). cbn in Heq. by rewrite cmp_refl in Heq. }
    assert (k1 = k2 ∧ a1 = a2) as [-> ->].
    { pose proof (Heq k1) as E1. pose proof (Heq k2) as E2. cbn in E1, E2.
      rewrite cmp_refl in E1, E2. rewrite (cmp_opp k2 k1) in E2.
      destruct (cmp k1 k2) eqn:E; cbn in E2; [|done|done].
      apply cmp_eq in E as ->. by simplify_eq. }
    f_equal. apply IH; [done|]. intros k. specialize (Heq k). cbn in Heq.
    destruct (cmp k k2) eqn:E; [| |done].
    + apply cmp_eq in E as ->. by rewrite !bt_get_lt.
    + rewrite !bt_get_lt; [done|eapply Forall_impl; [exact Hlt2|]|eapply Forall_impl; [exact Hlt1|]];
        intros; eapply cmp_lt_trans; eauto.
Qed.
End btree.

#[export] Hint Resolve bt_sorted_nil bt_insert_sorted bt_remove_sorted : rd.

(** A [BTreeSet<u32>] is the ascending list of its members. *)
Fixpoint bs_insert (x : Z) (l : list Z) : list Z :=
  match l with
  | [] => [x]
  | y :: l' => if x <? y then x :: l else if x =? y then l else y :: bs_insert x l'
  end.

Lemma bs_insert_elem x l y : y ∈ bs_insert x l ↔ y = x ∨ y ∈ l.
Proof.
  induction l as [|z l IH]; cbn; [set_solver|].
  destruct (Z.ltb_spec x z); [set_solver|]. destruct (Z.eqb_spec x z); set_solver.
Qed.

Lemma bs_insert_sorted x l : StronglySorted Z.lt l → StronglySorted Z.lt (bs_insert x l).
Proof.
  induction 1 as [|y l Hs IH Hy]; cbn; [by repeat constructor|].
  destruct (Z.ltb_spec x y).
  - constructor; [by constructor|]. constructor; [done|]. eapply Forall_impl; [exact Hy|]. cbn; lia.
  - destruct (Z.eqb_spec x y); [by constructor|]. constructor; [done|].
    rewrite Forall_forall in *. intros z [->|Hz]%bs_insert_elem; [lia|by apply Hy].
Qed.

Lemma bs_filter_sorted (P : Z → Prop) `{∀ x, Decision (P x)} l :
  StronglySorted Z.lt l → StronglySorted Z.lt (filter P l).
Proof.
  induction 1 as [|y l Hs IH Hy]; [constructor|]. rewrite filter_cons. case_decide; [|done].
  constructor; [done|]. rewrite Forall_forall in *. intros z [_ Hz]%list_elem_of_filter. by apply Hy.
Qed.

Lemma bs_sorted_NoDup l : StronglySorted Z.lt l → NoDup l.
Proof.
  induction 1 as [|x l Hs IH Hx]; constructor; [|done].
  intros Hin. rewrite Forall_forall in Hx. apply Hx in Hin. lia.
Qed.

(** * Stable sorting *)

(** [v.sort_by(..)] and [sort_by_key]: a stable sort, as insertion sort. *)
Fixpoint sort_insert {A} (le : A → A → bool) (x : A) (l : list A) : list A :=
  match l with
  | [] => [x]
  | y :: l' => if le x y then x :: l else y :: sort_insert le x l'
  end.

Fixpoint sort_by {A} (le : A → A → bool) (l : list A) : list A :=
  match l with
  | [] => []
  | x :: l' => sort_insert le x (sort_by le l')
  end.

Section sort_by.
Context {A : Type} (le : A → A → bool).

Lemma sort_insert_perm x l : sort_insert le x l ≡ₚ x :: l.
Proof.
  induction l as [|y l IH]; simpl; [done|]. destruct (le x y); [done|].
  rewrite IH. constructor.
Qed.

Lemma sort_by_perm l : sort_by le l ≡ₚ l.
Proof. induction l as [|x l IH]; simpl; [done|]. by rewrite sort_insert_perm, IH. Qed.

(** Sorting a list that is already in order changes nothing. *)
Lemma sort_by_id l :
  StronglySorted (λ x y, le x y = true) l → sort_by le l = l.
Proof.
  induction 1 as [|x l Hs IH Hx]; simpl; [done|]. rewrite IH.
  destruct Hx as [|y l Hy]; simpl; [done|]. by rewrite Hy.
Qed.

Lemma sort_insert_sorted x l :
  (∀ a b, le a b = true ∨ le b a = true) →
  (∀ a b c, le a b = true → le b c = true → le a c = true) →
  StronglySorted (λ x y, le x y = true) l →
  StronglySorted (λ x y, le x y = true) (sort_insert le x l).
Proof.
  intros Htot Htr. induction 1 as [|y l Hs IH Hy]; simpl; [by repeat constructor|].
  destruct (le x y) eqn:E.
  - constructor; [by constructor|]. constructor; [done|].
    eapply Forall_impl; [exact Hy|]. eauto.
  - constructor; [done|]. rewrite sort_insert_perm. constructor; [|done].
    destruct (Htot x y); congruence.
Qed.

Lemma sort_by_sorted l :
  (∀ a b, le a b = true ∨ le b a = true) →
  (∀ a b c, le a b = true → le b c = true → le a c = true) →
  StronglySorted (λ x y, le x y = true) (sort_by le l).
Proof. intros Htot Htr. induction l; simpl; [constructor|by apply sort_insert_sorted]. Qed.
End sort_by.

(** Two comparisons that agree on the elements give the same result. *)
Lemma sort_insert_ext {A} (le le' : A → A → bool) x l :
  Forall (λ y, le x y = le' x y) l → sort_insert le x l = sort_insert le' x l.
Proof. induction 1 as [|y l Hy _ IH]; simpl; [done|]. by rewrite Hy, IH. Qed.

Lemma sort_by_ext {A} (le le' : A → A → bool) (P : A → Prop) l :
  (∀ x y, P x → P y → le x y = le' x y) → Forall P l → sort_by le l = sort_by le' l.
Proof.
  intros Hle. induction 1 as [|x l Hx Hl IH]; simpl; [done|]. rewrite IH.
  apply sort_insert_ext. rewrite sort_by_perm. eapply Forall_impl; [exact Hl|]. auto.
Qed.

Lemma StronglySorted_weaken {A} (R S : A → A → Prop) l :
  (∀ x y, R x y → S x y) → StronglySorted R l → StronglySorted S l.
Proof.
  intros HRS. induction 1 as [|x l Hs IH Hx]; constructor; [done|].
  eapply Forall_impl; [exact Hx|]. auto.
Qed.

Lemma list_filter_id {A} (P : A → Prop) `{∀ x, Decision (P x)} l : Forall P l → filter P l = l.
Proof. induction 1 as [|x l Hx _ IH]; [done|]. rewrite filter_cons, decide_True by done. by f_equal. Qed.

Lemma list_filter_iff' {A} (P Q : A → Prop) `{∀ x, Decision (P x)} `{∀ x, Decision (Q x)} (l : list A) :
  (∀ x, x ∈ l → P x ↔ Q x) → filter P l = filter Q l.
Proof.
  induction l as [|x l IH]; intros HPQ; [done|]. rewrite !filter_cons.
  rewrite IH by (intros y Hy; apply HPQ; by right). pose proof (HPQ x ltac:(by left)).
  repeat case_decide; tauto || done.
Qed.

Lemma list_filter_none {A} (P : A → Prop) `{∀ x, Decision (P x)} (l : list A) :
  (∀ x, x ∈ l → ¬ P x) → filter P l = [].
Proof.
  induction l as [|x l IH]; intros HP; [done|]. rewrite filter_cons, decide_False by (apply HP; by left).
  apply IH. intros y Hy. apply HP. by right.
Qed.

(** * Folding over lists *)

(** A [for] loop that threads a state. *)
Definition for_each {A S} (xs : list A) (s : S) (body : S → A → S) : S := foldl body s xs.

Lemma for_each_inv {A S} (P : S → Prop) (body : S → A → S) xs s :
  P s → (∀ s x, x ∈ xs → P s → P (body s x)) → P (for_each xs s body).
Proof.
  unfold for_each. revert s. induction xs as [|x xs IH]; intros s Hs Hb; simpl; [done|].
  apply IH; [apply Hb; [left|done]|]. intros s' x' Hin. apply Hb. by right.
Qed.

(** The largest element of a list by a key, the last one among equals:
    [iter().max_by_key(f)]. *)
Definition max_by_key {A} (f : A → Z) (l : list A) : option A :=
  foldl (λ acc x, match acc with
                  | None => Some x
                  | Some y => if f y <=? f x then Some x else Some y
                  end) None l.

Lemma max_by_key_foldl {A} (f : A → Z) l acc :
  foldl (λ acc x, match acc with
                  | None => Some x
                  | Some y => if f y <=? f x then Some x else Some y
                  end) (Some acc) l =
  match max_by_key f l with
  | None => Some acc
  | Some y => if f acc <=? f y then Some y else Some acc
  end.
Proof.
  unfold max_by_key. revert acc. induction l as [|x l IH]; intros acc; simpl; [done|].
  rewrite (IH x). destruct (Z.leb_spec (f acc) (f x)); rewrite IH.
  - destruct (foldl _ None l) as [y|] eqn:E; [|by rewrite (proj2 (Z.leb_le _ _))].
    destruct (Z.leb_spec (f x) (f y)); [by rewrite (proj2 (Z.leb_le _ _)) by lia|].
    by rewrite (proj2 (Z.leb_le _ _)) by lia.
  - destruct (foldl _ None l) as [y|] eqn:E; [|by rewrite (proj2 (Z.leb_gt _ _))].
    destruct (Z.leb_spec (f x) (f y)); [done|].
    rewrite !(proj2 (Z.leb_gt _ _)) by lia. done.
Qed.

Lemma max_by_key_spec {A} (f : A → Z) l :
  match max_by_key f l with
  | None => l = []
  | Some m => m ∈ l ∧ ∀ x, x ∈ l → f x ≤ f m
  end.
Proof.
  induction l as [|x l IH]; [done|].
  change (max_by_key f (x :: l)) with
    (foldl (λ acc x, match acc with
                  | None => Some x
                  | Some y => if f y <=? f x then Some x else Some y
                  end) (Some x) l).
  rewrite max_by_key_foldl. destruct (max_by_key f l) as [y|].
  - destruct IH as [Hin Hmax]. destruct (Z.leb_spec (f x) (f y)).
    + split; [by right|]. intros z [->|Hz]%elem_of_cons; [lia|by apply Hmax].
    + split; [by left|]. intros z [->|Hz]%elem_of_cons; [lia|apply Hmax in Hz; lia].
  - subst. split; [by left|]. intros z ->%list_elem_of_singleton. lia.
Qed.

(** Case analysis on the boolean integer tests of the goal. *)
Ltac zcase :=
  repeat match goal with
  | |- context [?a <? ?b] => destruct (Z.ltb_spec a b)
  | |- context [?a <=? ?b] => destruct (Z.leb_spec a b)
  | |- context [?a =? ?b] => destruct (Z.eqb_spec a b)
  end.

(** * Slices and panics *)

(** [xs.len()] and [&xs[a..b]] for [0 <= a <= b <= len]. *)
Definition zlen {A} (xs : list A) : Z := Z.of_nat (length xs).
Definition zslice {A} (xs : list A) (a b : Z) : list A :=
  take (Z.to_nat (b - a)) (drop (Z.to_nat a) xs).

Lemma zlen_nonneg {A} (xs : list A) : 0 ≤ zlen xs.
Proof. unfold zlen. lia. Qed.
Lemma zlen_app {A} (xs ys : list A) : zlen (xs ++ ys) = zlen xs + zlen ys.
Proof. unfold zlen. rewrite length_app. lia. Qed.
Lemma zlen_cons {A} (x : A) xs : zlen (x :: xs) = 1 + zlen xs.
Proof. unfold zlen. rewrite length_cons. lia. Qed.
Lemma zlen_nil {A} : zlen (A := A) [] = 0.
Proof. done. Qed.
Lemma zlen_to_le_bytes n x : zlen (to_le_bytes n x) = Z.of_nat n.
Proof. unfold zlen. by rewrite to_le_bytes_length. Qed.
Lemma zlen_take {A} n (xs : list A) : zlen (take n xs) = Z.min (Z.of_nat n) (zlen xs).
Proof. unfold zlen. rewrite length_take. lia. Qed.

#[export] Hint Rewrite @zlen_app @zlen_cons @zlen_nil @zlen_to_le_bytes @zlen_take : zlen.

(** The slice of a concatenation that is exactly its middle part. *)
Lemma zslice_mid {A} (xs ys zs : list A) a b :
  a = zlen xs → b = zlen xs + zlen ys → zslice (xs ++ ys ++ zs) a b = ys.
Proof.
  intros -> ->. unfold zslice, zlen.
  replace (Z.to_nat (_ - _)) with (length ys) by lia. rewrite Nat2Z.id.
  by rewrite drop_app_length, take_app_length.
Qed.

Lemma zslice_suffix {A} (xs ys : list A) a b :
  a = zlen xs → b = zlen xs + zlen ys → zslice (xs ++ ys) a b = ys.
Proof. intros. rewrite <- (app_nil_r ys) at 1. by apply zslice_mid. Qed.

Lemma zslice_take {A} (xs : list A) n a b :
  0 ≤ a → b ≤ Z.of_nat n → zslice (take n xs) a b = zslice xs a b.
Proof. intros Ha Hb. unfold zslice. rewrite skipn_firstn_comm, take_take. f_equal. lia. Qed.

(** A computation that returns or panics. *)
Inductive outcome (A : Type) :=
  | Done (a : A)
  | Panic.
Arguments Done {A} a.
Arguments Panic {A}.

#[export] Instance outcome_ret : MRet outcome := λ A, Done.
#[export] Instance outcome_bind : MBind outcome := λ A B f o,
  match o with Done a => f a | Panic => Panic end.
