(* ===== verification/Kv.v ===== *)
(** The key-value layer: the [KVEngine] trait (metadata/kv_engine.rs) as an
    interface with the behaviour its documentation promises, the [postcard]
    codec as a parameter, and the metadata records that kv_store.rs and
    seg_alias.rs keep in it: committed and active transactions, table
    statistics and segment aliases. *)

From stdpp Require Import base gmap strings list pretty.
From S2P Require Import Prelude.

Local Open Scope Z_scope.

(** db.rs: [pub type TxnId = u64]. *)
Abbreviation TxnId := Z.

(** * The codec *)

(** codec.rs [CodecError], and its [Display]. *)
Inductive CodecError := CEncode (msg : string) | CDecode (msg : string).

Definition codec_error_display (e : CodecError) : string :=
  match e with
  | CEncode m => "Encoding error: " +:+ m
  | CDecode m => "Decoding error: " +:+ m
  end.

(** [codec::encode] and [codec::decode] at a type: postcard is a library. *)
Class Codec (A : Type) := {
  encode : A → result CodecError bytes;
  decode : bytes → result CodecError A
}.
Class CodecLaws (A : Type) `{Codec A} :=
  decode_encode : ∀ (x : A) b, encode x = Ok b → decode b = Ok x.
#[global] Hint Mode Codec ! : typeclass_instances.
#[global] Hint Mode CodecLaws ! - : typeclass_instances.

(** [.map_err(|e| RockDuckError::Codec(e.to_string()))] *)
Definition codec_err {A} (r : result CodecError A) : Result A :=
  map_err (λ e, ECodec (codec_error_display e)) r.

(** * The engine interface *)

(** kv_engine.rs [KVOp] *)
Inductive KVOp :=
  | KPut (key value : bytes)
  | KDelete (key : bytes).

(** kv_engine.rs [trait KVEngine]: the store is threaded, an operation that can
    fail returns its [Result]; [kv_prefix] is the run of [prefix_iter]'s
    iterator as the list of (key, value) it yields. *)
Class KVEngine (KV : Type) := {
  kv_get : KV → string → bytes → Result (option bytes);
  kv_put : KV → string → bytes → bytes → KV * Result unit;
  kv_delete : KV → string → bytes → KV * Result unit;
  kv_prefix : KV → string → bytes → Result (list (bytes * bytes));
  kv_write_batch : KV → string → list KVOp → KV * Result unit;
  kv_atomic_increment : KV → string → bytes → Z → KV * Result Z
}.
#[global] Hint Mode KVEngine ! : typeclass_instances.

(** The content of a store: one finite map per bucket. *)
Definition kv_apply (ops : list KVOp) (m : gmap bytes bytes) : gmap bytes bytes :=
  foldl (λ m op, match op with
                 | KPut k v => <[k := v]> m
                 | KDelete k => delete k m
                 end) m ops.

(** What the trait documents: a read sees the content; a write that returns
    [Ok] is applied to its bucket and to no other; a write that returns an error
    leaves the content as it was. *)
Class KVEngineLaws (KV : Type) `{KVEngine KV} := {
  kv_abs : KV → string → gmap bytes bytes;
  kv_get_spec : ∀ kv b k v, kv_get kv b k = Ok v → v = kv_abs kv b !! k;
  kv_put_spec : ∀ kv b k v b',
    kv_abs (kv_put kv b k v).1 b' =
      if is_ok (kv_put kv b k v).2 && bool_decide (b' = b)
      then <[k := v]> (kv_abs kv b') else kv_abs kv b';
  kv_delete_spec : ∀ kv b k b',
    kv_abs (kv_delete kv b k).1 b' =
      if is_ok (kv_delete kv b k).2 && bool_decide (b' = b)
      then delete k (kv_abs kv b') else kv_abs kv b';
  kv_write_batch_spec : ∀ kv b ops b',
    kv_abs (kv_write_batch kv b ops).1 b' =
      if is_ok (kv_write_batch kv b ops).2 && bool_decide (b' = b)
      then kv_apply ops (kv_abs kv b') else kv_abs kv b';
  kv_prefix_spec : ∀ kv b p l, kv_prefix kv b p = Ok l →
    l ≡ₚ filter (λ e, p `prefix_of` e.1) (map_to_list (kv_abs kv b))
}.
#[global] Hint Mode KVEngineLaws ! - : typeclass_instances.

(** ** An in-memory engine, the interface's concrete instance *)

Record MemKV := { mem_buckets : gmap string (gmap bytes bytes); mem_readonly : bool }.

Definition mem_bucket (kv : MemKV) (b : string) : gmap bytes bytes :=
  default ∅ (mem_buckets kv !! b).

(** A write to a read-only engine fails. *)
Definition mem_write (kv : MemKV) (b : string) (f : gmap bytes bytes → gmap bytes bytes)
    : MemKV * Result unit :=
  if mem_readonly kv then (kv, Err (EStorage "read-only"))
  else ({| mem_buckets := <[b := f (mem_bucket kv b)]> (mem_buckets kv);
           mem_readonly := false |}, Ok tt).

(** A counter is stored as the eight bytes of its [i64]; [i64::saturating_add]. *)
Definition sat_i64 (z : Z) : Z := Z.max (- 2 ^ 63) (Z.min (2 ^ 63 - 1) z).
Definition mem_counter (v : option bytes) : Z := match v with Some bs => as_i64 (from_le_bytes bs) | None => 0 end.
Definition mem_increment (kv : MemKV) (b : string) (k : bytes) (d : Z) : MemKV * Result Z :=
  let v := sat_i64 (mem_counter (mem_bucket kv b !! k) + d) in
  let '(kv', r) := mem_write kv b (insert k (to_le_bytes 8 (wrap64 v))) in
  (kv', match r with Ok _ => Ok v | Err e => Err e end).

#[export] Instance MemKV_engine : KVEngine MemKV := {
  kv_get kv b k := Ok (mem_bucket kv b !! k);
  kv_put kv b k v := mem_write kv b (insert k v);
  kv_delete kv b k := mem_write kv b (delete k);
  kv_prefix kv b p := Ok (filter (λ e, p `prefix_of` e.1) (map_to_list (mem_bucket kv b)));
  kv_write_batch kv b ops := mem_write kv b (kv_apply ops);
  kv_atomic_increment := mem_increment
}.

Lemma mem_write_spec kv b f b' :
  mem_bucket (mem_write kv b f).1 b' =
    if is_ok (mem_write kv b f).2 && bool_decide (b' = b)
    then f (mem_bucket kv b') else mem_bucket kv b'.
Proof.
  unfold mem_write, mem_bucket. destruct (mem_readonly kv); simpl; [done|].
  case_bool_decide; [subst; by rewrite lookup_insert_eq|by rewrite lookup_insert_ne].
Qed.

#[export] Instance MemKV_laws : KVEngineLaws MemKV.
Proof.
  refine {| kv_abs := mem_bucket |}; cbn; intros;
    first [by simplify_eq | apply mem_write_spec].
Defined.

(** [atomic_increment]: the new value is the old one, zero for an absent key, plus
    the increment, saturating; it is stored under its key only. *)
Class KVCounterLaws (KV : Type) `{KVEngineLaws KV} := {
  kv_counter : option bytes → Z;
  kv_increment_ok : ∀ (kv : KV) b k d kv' v, kv_atomic_increment kv b k d = (kv', Ok v) →
    v = sat_i64 (kv_counter (kv_abs kv b !! k) + d) ∧
    ∃ bs, kv_counter (Some bs) = v ∧
      ∀ b', kv_abs kv' b' = if bool_decide (b' = b) then <[k := bs]> (kv_abs kv b') else kv_abs kv b';
  kv_increment_err : ∀ (kv : KV) b k d kv' e, kv_atomic_increment kv b k d = (kv', Err e) →
    ∀ b', kv_abs kv' b' = kv_abs kv b';
  kv_counter_absent : kv_counter None = 0
}.
#[global] Hint Mode KVCounterLaws ! - - : typeclass_instances.

Lemma as_i64_wrap64 z : - 2 ^ 63 ≤ z < 2 ^ 63 → as_i64 (wrap64 z) = z.
Proof.
  intros Hz. unfold as_i64, wrap64. rewrite Z.mod_mod by done.
  destruct (decide (0 ≤ z)).
  - rewrite Z.mod_small by lia. rewrite (proj2 (Z.ltb_lt _ _)) by lia. done.
  - rewrite <- (Z.mod_add z 1) by done. rewrite Z.mod_small by lia. rewrite (proj2 (Z.ltb_ge _ _)) by lia. lia.
Qed.

#[export] Instance MemKV_counters : KVCounterLaws MemKV.
Proof.
  refine {| kv_counter := mem_counter |}; cbn -[to_le_bytes]; [| |done].
  - intros kv b k d kv' v. unfold mem_increment, mem_write.
    destruct (mem_readonly kv); [by intros [=]|]. intros [= <- <-]. split; [done|].
    eexists. split; [|intros b'; unfold mem_bucket; cbn -[to_le_bytes]; case_bool_decide;
      [subst; by rewrite lookup_insert_eq|by rewrite lookup_insert_ne]].
    unfold mem_counter at 1. rewrite from_to_le_bytes.
    + apply as_i64_wrap64. unfold sat_i64. lia.
    + unfold wrap64. change (256 ^ Z.of_nat 8) with (2 ^ 64). by apply Z.mod_pos_bound.
  - intros kv b k d kv' e. unfold mem_increment, mem_write. destruct (mem_readonly kv); by intros [= <- _] b'.
Defined.

Definition mem_empty : MemKV := {| mem_buckets := ∅; mem_readonly := false |}.

(** Pairs of [u64]s and plain [u64]s as fixed-width little-endian bytes: a
    concrete codec for evaluating the definitions. *)
Definition u64_bytes (x : Z) : result CodecError bytes :=
  if bool_decide (is_u64 x) then Ok (to_le_bytes 8 x) else Err (CEncode "range").

#[export] Instance u64_codec : Codec Z := {
  encode x := u64_bytes x;
  decode b := if bool_decide (length b = 8%nat) then Ok (from_le_bytes b) else Err (CDecode "eof")
}.
#[export] Instance u64_pair_codec : Codec (Z * Z) := {
  encode p := a <-? u64_bytes p.1; b <-? u64_bytes p.2; Ok (a ++ b);
  decode b := if bool_decide (length b = 16%nat)
              then Ok (from_le_bytes (take 8 b), from_le_bytes (drop 8 b))
              else Err (CDecode "eof")
}.

Lemma u64_bytes_Ok x b : u64_bytes x = Ok b → length b = 8%nat ∧ from_le_bytes b = x.
Proof.
  unfold u64_bytes. case_bool_decide as Hx; intros Hb; [|done].
  assert (b = to_le_bytes 8 x) as -> by congruence.
  split; [apply to_le_bytes_length|apply from_to_le_bytes].
  unfold is_u64, u64_max in Hx. simpl. lia.
Qed.

#[export] Instance u64_codec_laws : CodecLaws Z.
Proof. intros x b (Hl & <-)%u64_bytes_Ok. unfold decode; simpl. by rewrite bool_decide_true. Qed.

#[export] Instance u64_pair_codec_laws : CodecLaws (Z * Z).
Proof.
  intros [x y] b. unfold encode, decode; simpl.
  destruct (u64_bytes x) as [bx|] eqn:Ex; simpl; [|done].
  destruct (u64_bytes y) as [by'|] eqn:Ey; simpl; [|done]. intros [= <-].
  apply u64_bytes_Ok in Ex as [Hx <-]; apply u64_bytes_Ok in Ey as [Hy <-].
  rewrite bool_decide_true by (rewrite length_app; lia).
  by rewrite <- Hx, take_app_length, drop_app_length.
Qed.

(** A concrete codec for any countable type, one bit of its code per byte. *)
Fixpoint pos_bits (p : positive) : bytes :=
  match p with
  | xH => []
  | xO p' => 0 :: pos_bits p'
  | xI p' => 1 :: pos_bits p'
  end.
Fixpoint bits_pos (b : bytes) : positive :=
  match b with
  | [] => xH
  | 0 :: b' => xO (bits_pos b')
  | _ :: b' => xI (bits_pos b')
  end.

Lemma bits_pos_bits p : bits_pos (pos_bits p) = p.
Proof. induction p; cbn; congruence. Qed.

Definition countable_codec (A : Type) `{Countable A} : Codec A :=
  {| encode x := Ok (pos_bits (countable.encode x));
     decode b := match countable.decode (bits_pos b) with
                 | Some x => Ok x
                 | None => Err (CDecode "code")
                 end |}.

Lemma countable_codec_laws (A : Type) `{Countable A} : @CodecLaws A (countable_codec A).
Proof.
  intros x b [= <-]. cbn. by rewrite bits_pos_bits, countable.decode_encode.
Qed.

(** The codec of a finite set of values: a value's position. *)
Fixpoint position {A} `{EqDecision A} (x : A) (l : list A) : option nat :=
  match l with
  | [] => None
  | y :: l' => if decide (x = y) then Some 0%nat else S <$> position x l'
  end.
Lemma position_lookup {A} `{EqDecision A} (x : A) l i : position x l = Some i → l !! i = Some x.
Proof.
  revert i. induction l as [|y l IH]; intros i; cbn; [done|]. case_decide; [by intros [= <-]; subst|].
  destruct (position x l); cbn; [|done]. intros [= <-]. by apply IH.
Qed.
Definition table_codec {A} `{EqDecision A} (l : list A) : Codec A := {|
  encode x := match position x l with Some i => Ok [Z.of_nat i] | None => Err (CEncode "unknown") end;
  decode b := match b with
              | [z] => match l !! Z.to_nat z with Some x => Ok x | None => Err (CDecode "unknown") end
              | _ => Err (CDecode "length")
              end |}.
Lemma table_codec_laws {A} `{EqDecision A} (l : list A) : @CodecLaws A (table_codec l).
Proof.
  intros x b. cbn. destruct (position x l) eqn:E; [|done]. intros [= <-]. by rewrite Nat2Z.id, (position_lookup _ _ _ E).
Qed.

(** * Transaction records (kv_store.rs) *)

Definition CF_MVCC : string := "mvcc".
Definition CF_STAT : string := "stat".
Definition CF_SEG_ALIAS : string := "seg_alias".
Definition CF_PK_IDX : string := "pk_idx".

Definition KEY_SEG_ALIAS : bytes := as_bytes "seg_alias:".
Definition KEY_COMMITTED_TXN : bytes := as_bytes "committed_txn".
Definition KEY_COMMITTED_TXN_HISTORY : bytes := as_bytes "committed:".
Definition KEY_TABLE_STATS : bytes := as_bytes "table_stats:".
Definition KEY_ACTIVE_TXNS : bytes := as_bytes "active_txns:".

Definition active_txn_key (txn_id : TxnId) : bytes := KEY_ACTIVE_TXNS ++ to_le_bytes 8 txn_id.
Definition committed_txn_key (txn_id : TxnId) : bytes :=
  KEY_COMMITTED_TXN_HISTORY ++ to_le_bytes 8 txn_id.
Definition table_stats_key (table : string) : bytes := KEY_TABLE_STATS ++ as_bytes table.
Definition table_row_count_key (table : string) : bytes :=
  KEY_TABLE_STATS ++ as_bytes table ++ as_bytes ":row_count".
Definition seg_alias_key_impl (old_seg_id : string) : bytes := KEY_SEG_ALIAS ++ as_bytes old_seg_id.

Section kv_store.
Context `{KVEngine KV} `{Codec Z} `{Codec (Z * Z)}.

(** A write after an encoding that may fail: [let value = encode(..)?; kv.put(..)]. *)
Definition put_encoded {A} `{Codec A} (kv : KV) (bucket : string) (key : bytes) (x : A)
    : KV * Result unit :=
  match codec_err (encode x) with
  | Ok value => kv_put kv bucket key value
  | Err e => (kv, Err e)
  end.

Definition put_committed_txn (kv : KV) (txn_id : TxnId) : KV * Result unit :=
  put_encoded kv CF_MVCC KEY_COMMITTED_TXN txn_id.

Definition get_committed_txn (kv : KV) : Result TxnId :=
  v <-? kv_get kv CF_MVCC KEY_COMMITTED_TXN;
  match v with
  | Some value => codec_err (decode value)
  | None => Ok 0
  end.

Definition add_active_txn (kv : KV) (txn_id : TxnId) (begin_ts : Z) : KV * Result unit :=
  put_encoded kv CF_MVCC (active_txn_key txn_id) (txn_id, begin_ts).

Definition remove_active_txn (kv : KV) (txn_id : TxnId) : KV * Result unit :=
  kv_delete kv CF_MVCC (active_txn_key txn_id).

(** The [while iter.next()] loop of [get_active_txns]: the first value that does
    not decode ends the call with its error. *)
Fixpoint decode_active (l : list (bytes * bytes)) : Result (list (TxnId * Z)) :=
  match l with
  | [] => Ok []
  | (_, value) :: l' =>
      txn <-? codec_err (decode value);
      rest <-? decode_active l';
      Ok (txn :: rest)
  end.

Definition get_active_txns (kv : KV) : Result (list (TxnId * Z)) :=
  l <-? kv_prefix kv CF_MVCC KEY_ACTIVE_TXNS;
  decode_active l.

Definition commit_txn_record (kv : KV) (txn_id : TxnId) (commit_ts : Z) : KV * Result unit :=
  put_encoded kv CF_MVCC (committed_txn_key txn_id) (txn_id, commit_ts).

(** Values that do not decode are skipped; a later entry overwrites. *)
Definition get_committed_txns (kv : KV) : Result (gmap TxnId Z) :=
  l <-? kv_prefix kv CF_MVCC KEY_COMMITTED_TXN_HISTORY;
  Ok (foldl (λ (history : gmap TxnId Z) e,
               match decode (A := Z * Z) e.2 with
               | Ok (txn_id, commit_ts) => <[txn_id := commit_ts]> history
               | Err _ => history
               end) ∅ l).

(** ** Segment aliases *)

Definition put_segment_alias (kv : KV) (old_seg_id new_seg_id : string) : KV * Result unit :=
  kv_put kv CF_SEG_ALIAS (seg_alias_key_impl old_seg_id) (as_bytes new_seg_id).

Definition resolve_segment_alias (kv : KV) (seg_id : string) : Result (option string) :=
  v <-? kv_get kv CF_SEG_ALIAS (seg_alias_key_impl seg_id);
  match v with
  | Some v =>
      match from_utf8 v with
      | Some s => Ok (Some s)
      | None => Err (EInternal "seg_alias value is not UTF-8")
      end
  | None => Ok None
  end.

Definition resolve_seg_id (kv : KV) (seg_id : string) : Result (string * bool) :=
  r <-? resolve_segment_alias kv seg_id;
  match r with
  | Some redirected_id => Ok (redirected_id, true)
  | None => Ok (seg_id, false)
  end.
End kv_store.

(** * Refinement of the transaction records to finite maps *)

Section kv_refinement.
Context `{KVEngineLaws KV} `{CodecLaws Z} `{CodecLaws (Z * Z)}.
Implicit Types (kv : KV) (m : gmap TxnId Z).

(** The entries under a key prefix [pre] hold exactly the pairs of the map [m],
    each under the key built from its transaction id. *)
Definition records (pre : bytes) (kv : KV) (m : gmap TxnId Z) : Prop :=
  map_Forall (λ t x, is_u64 t ∧ is_ok (encode (t, x)) = true) m ∧
  ∀ k v, (kv_abs kv CF_MVCC !! k = Some v ∧ pre `prefix_of` k) ↔
    ∃ t x, m !! t = Some x ∧ k = pre ++ to_le_bytes 8 t ∧ encode (t, x) = Ok v.

Lemma txn_key_inj pre t t' : is_u64 t → is_u64 t' →
  pre ++ to_le_bytes 8 t = pre ++ to_le_bytes 8 t' → t = t'.
Proof.
  unfold is_u64, u64_max. intros ?? Heq%app_inv_head.
  eapply to_le_bytes_inj; [| |exact Heq]; simpl; lia.
Qed.

Lemma put_encoded_Ok {A} `{Codec A} kv b k (x : A) kv' :
  put_encoded kv b k x = (kv', Ok tt) →
  ∃ v, encode x = Ok v ∧ ∀ b', kv_abs kv' b' =
    if bool_decide (b' = b) then <[k := v]> (kv_abs kv b') else kv_abs kv b'.
Proof.
  unfold put_encoded. destruct (encode x) as [v|e]; simpl; [|done]. intros Hp.
  exists v; split; [done|]. intros b'. pose proof (kv_put_spec kv b k v b') as Hs.
  rewrite Hp in Hs; simpl in Hs. exact Hs.
Qed.

Lemma put_encoded_Err {A} `{Codec A} kv b k (x : A) kv' e :
  put_encoded kv b k x = (kv', Err e) → ∀ b', kv_abs kv' b' = kv_abs kv b'.
Proof.
  unfold put_encoded. destruct (encode x) as [v|e']; simpl; [|by intros [= <- _]].
  intros Hp b'. pose proof (kv_put_spec kv b k v b') as Hs.
  rewrite Hp in Hs; simpl in Hs. exact Hs.
Qed.

Lemma records_insert pre kv m t x kv' : is_u64 t →
  put_encoded kv CF_MVCC (pre ++ to_le_bytes 8 t) (t, x) = (kv', Ok tt) →
  records pre kv m → records pre kv' (<[t := x]> m).
Proof.
  intros Ht (v & Hv & Habs)%put_encoded_Ok [Hall Hrec]. split.
  { apply map_Forall_insert_2; [by rewrite Hv|done]. }
  intros k w. rewrite Habs, bool_decide_true by done. split.
  - intros [[[<- <-]|[Hne Hk]]%lookup_insert_Some Hpre].
    + exists t, x. by rewrite lookup_insert_eq.
    + destruct (proj1 (Hrec k w)) as (t' & x' & Hm & -> & He); [done|].
      exists t', x'. rewrite lookup_insert_ne by congruence. done.
  - intros (t' & x' & [[<- <-]|[Hne Hm]]%lookup_insert_Some & -> & He).
    + rewrite lookup_insert_eq. split; [congruence|by eexists].
    + rewrite lookup_insert_ne; [apply Hrec; eauto 10|].
      intros Heq%txn_key_inj; [done|done|by apply Hall in Hm as []].
Qed.

Lemma records_delete pre kv m t kv' : is_u64 t →
  kv_delete kv CF_MVCC (pre ++ to_le_bytes 8 t) = (kv', Ok tt) →
  records pre kv m → records pre kv' (delete t m).
Proof.
  intros Ht Hd [Hall Hrec]. split; [by apply map_Forall_delete|]. intros k w.
  pose proof (kv_delete_spec kv CF_MVCC (pre ++ to_le_bytes 8 t) CF_MVCC) as Hs.
  rewrite Hd in Hs; simpl in Hs. rewrite Hs. split.
  - intros [[Hne Hk]%lookup_delete_Some Hpre].
    destruct (proj1 (Hrec k w)) as (t' & x' & Hm & -> & He); [done|].
    exists t', x'. rewrite lookup_delete_ne by congruence. done.
  - intros (t' & x' & [Hne Hm]%lookup_delete_Some & -> & He).
    rewrite lookup_delete_ne; [apply Hrec; eauto 10|].
    intros Heq%txn_key_inj; [done|done|by apply Hall in Hm as []].
Qed.

Lemma records_unchanged pre kv kv' m :
  kv_abs kv' CF_MVCC = kv_abs kv CF_MVCC → records pre kv m → records pre kv' m.
Proof. intros Heq [Hall Hrec]. split; [done|]. intros k v. rewrite Heq. apply Hrec. Qed.

Lemma kv_delete_Err kv b k kv' e :
  kv_delete kv b k = (kv', Err e) → ∀ b', kv_abs kv' b' = kv_abs kv b'.
Proof.
  intros Hd b'. pose proof (kv_delete_spec kv b k b') as Hs.
  rewrite Hd in Hs; simpl in Hs. exact Hs.
Qed.

(** Writing a key that does not start with [pre] leaves the records under it. *)
Lemma records_put_other {A} `{Codec A} pre kv m b k (x : A) kv' r :
  ¬ pre `prefix_of` k → put_encoded kv b k x = (kv', r) → records pre kv m → records pre kv' m.
Proof.
  intros Hk Hp [Hall Hrec]. destruct r as [[]|e].
  - apply put_encoded_Ok in Hp as (v & _ & Habs). split; [done|].
    intros k' w. rewrite Habs, <- Hrec. case_bool_decide; [|done].
    destruct (decide (k = k')) as [<-|Hne]; [by split; intros []|].
    by rewrite lookup_insert_ne.
  - eapply records_unchanged; [by eapply put_encoded_Err|by split].
Qed.

Lemma records_entries pre kv m l :
  records pre kv m → kv_prefix kv CF_MVCC pre = Ok l →
  ∀ k v, (k, v) ∈ l ↔ ∃ t x, m !! t = Some x ∧ k = pre ++ to_le_bytes 8 t ∧ encode (t, x) = Ok v.
Proof.
  intros [_ Hrec] Hl k v. rewrite <- (Hrec k v).
  rewrite (kv_prefix_spec _ _ _ _ Hl), list_elem_of_filter, elem_of_map_to_list. simpl. tauto.
Qed.

Lemma decode_active_spec l :
  Forall (λ e, ∃ p : Z * Z, encode p = Ok e.2) l →
  ∃ ps, decode_active l = Ok ps ∧ Forall2 (λ e p, encode p = Ok e.2) l ps.
Proof.
  induction 1 as [|[k v] l [p Hp] _ (ps & IH & Hps)]; simpl; [by exists []|].
  simpl in Hp. rewrite (decode_encode _ _ Hp); simpl. rewrite IH; simpl.
  exists (p :: ps). split; [done|]. by constructor.
Qed.

(** [get_active_txns] returns exactly the recorded transactions. *)
Lemma get_active_txns_records kv m l :
  records KEY_ACTIVE_TXNS kv m → kv_prefix kv CF_MVCC KEY_ACTIVE_TXNS = Ok l →
  ∃ ps, get_active_txns kv = Ok ps ∧ ∀ t x, (t, x) ∈ ps ↔ m !! t = Some x.
Proof.
  intros Hr Hl. pose proof (records_entries _ _ _ _ Hr Hl) as Hin. destruct Hr as [Hall _].
  destruct (decode_active_spec l) as (ps & Hps & Hpair).
  { apply Forall_forall. intros [k v] (t & x & _ & _ & He)%Hin. by exists (t, x). }
  exists ps. unfold get_active_txns. rewrite Hl; simpl. split; [done|]. intros t x. split.
  - intros (i & Hi)%list_elem_of_lookup.
    destruct (Forall2_lookup_r _ _ _ _ _ Hpair Hi) as ([k v] & Hli & He); simpl in He.
    apply list_elem_of_lookup_2, Hin in Hli as (t' & x' & Hm & -> & He').
    apply decode_encode in He, He'. rewrite He in He'. by injection He' as -> ->.
  - intros Hm. pose proof (Hall _ _ Hm) as [_ Hok]; simpl in Hok.
    destruct (encode (t, x)) as [v|e] eqn:He; [|done].
    assert ((KEY_ACTIVE_TXNS ++ to_le_bytes 8 t, v) ∈ l) as (i & Hi)%list_elem_of_lookup
      by (apply Hin; eauto 10).
    destruct (Forall2_lookup_l _ _ _ _ _ Hpair Hi) as ([t' x'] & Hpi & He'); simpl in He'.
    apply decode_encode in He, He'. rewrite He in He'. injection He' as -> ->.
    by eapply list_elem_of_lookup_2.
Qed.
End kv_refinement.
