(* ===== verification/Visibility.v ===== *)
(** MVCC visibility (mvcc/visibility.rs, segment/overlay.rs): the transaction
    and snapshot records, the [VisFilter] trait with its implementations, the
    projections ([VisibilityContext], [SegmentOverlay]) and the snapshots that
    [VisibilityManager] takes.  The mutating operations of the manager are in
    TxnManager. *)

From stdpp Require Import base gmap strings list pretty.
From S2P Require Import Prelude Kv.

Local Open Scope Z_scope.

(** * Data *)

Inductive VisibilityError :=
  | LengthMismatch (mask_len batch_rows : Z)
  | VisFilterFailed (msg : string).

Definition VisibilityError_display (e : VisibilityError) : string :=
  match e with
  | LengthMismatch mask_len batch_rows =>
      "visibility mask length " +:+ pretty mask_len +:+ " != batch rows " +:+ pretty batch_rows
  | VisFilterFailed msg => "arrow filter failed: " +:+ msg
  end.

Inductive VisibilityProjection := Online | Historical | CompactionRewrite | Vtab.

Inductive IsolationLevel := ReadCommitted | RepeatableRead | Snapshot.

Record TxnSnapshot := {
  snapshot_id : TxnId;
  snap_active_txns : gset TxnId;
  isolation : IsolationLevel;
  snap_commit_ts_map : gmap TxnId Z
}.

Record VisibilityContext := {
  ctx_projection : VisibilityProjection;
  ctx_snapshot_id : TxnId;
  ctx_active_txns : gset TxnId;
  ctx_commit_ts_map : gmap TxnId Z
}.

(** [TxnSnapshot::new] *)
Definition TxnSnapshot_new (id : TxnId) (active : gset TxnId) (iso : IsolationLevel) : TxnSnapshot :=
  {| snapshot_id := id; snap_active_txns := active; isolation := iso; snap_commit_ts_map := ∅ |}.

Inductive TxnStatus := Active | Committed | Aborted.

Record TxnMeta := {
  begin_ts : Z;
  commit_ts : option Z;
  status : TxnStatus;
  read_keys : gset bytes;
  written_keys : gset bytes;
  is_recovered : bool
}.

Definition TxnMeta_new (b : Z) : TxnMeta :=
  {| begin_ts := b; commit_ts := None; status := Active;
     read_keys := ∅; written_keys := ∅; is_recovered := false |}.

Definition TxnMeta_record_read (m : TxnMeta) (key : bytes) : TxnMeta :=
  {| begin_ts := begin_ts m; commit_ts := commit_ts m; status := status m;
     read_keys := {[key]} ∪ read_keys m; written_keys := written_keys m;
     is_recovered := is_recovered m |}.

Definition TxnMeta_record_write (m : TxnMeta) (key : bytes) : TxnMeta :=
  {| begin_ts := begin_ts m; commit_ts := commit_ts m; status := status m;
     read_keys := read_keys m; written_keys := {[key]} ∪ written_keys m;
     is_recovered := is_recovered m |}.

Definition TxnMeta_commit (m : TxnMeta) (ts : Z) : TxnMeta :=
  {| begin_ts := begin_ts m; commit_ts := Some ts; status := Committed;
     read_keys := read_keys m; written_keys := written_keys m;
     is_recovered := is_recovered m |}.

Record VisibilityConfig := { max_history_entries : Z; history_ttl_secs : Z }.

Definition VisibilityConfig_default : VisibilityConfig :=
  {| max_history_entries := 100000; history_ttl_secs := 3600 |}.

Record VisibilityManager := {
  committed_txn : Z;
  replay_watermark : Z;
  active_txns : gmap TxnId TxnMeta;
  committed_history : gmap TxnId (Z * Z);
  config : VisibilityConfig;
  recovered_txns : gset TxnId
}.

Definition VisibilityManager_new_with_config (cfg : VisibilityConfig) : VisibilityManager :=
  {| committed_txn := 0; replay_watermark := 0; active_txns := ∅;
     committed_history := ∅; config := cfg; recovered_txns := ∅ |}.

Definition VisibilityManager_new : VisibilityManager :=
  VisibilityManager_new_with_config VisibilityConfig_default.

(** * The visibility filter *)

(** [trait VisFilter] *)
Class VisFilter (F : Type) :=
  is_row_visible : F → TxnId → TxnId → option TxnId → gset TxnId → gmap TxnId Z → bool.
#[global] Hint Mode VisFilter ! : typeclass_instances.

(** [impl VisFilter for TxnSnapshot] *)
Definition TxnSnapshot_is_row_visible (_ : TxnSnapshot) (snapshot_id created_txn : TxnId)
    (deleted_txn : option TxnId) (active : gset TxnId) (commit_ts_map : gmap TxnId Z) : bool :=
  if snapshot_id <? created_txn then false else
  if bool_decide (created_txn ∈ active) then false else
  if negb (bool_decide (is_Some (commit_ts_map !! created_txn))) then false else
  if (match commit_ts_map !! created_txn with
      | Some commit_ts => snapshot_id <? commit_ts
      | None => false
      end) then false else
  match deleted_txn with
  | Some del =>
      if bool_decide (del ∈ active) then true else
      match commit_ts_map !! del with
      | Some del_commit_ts => if del_commit_ts <=? snapshot_id then false else true
      | None => true
      end
  | None => true
  end.

(** [impl VisFilter for VisibilityManager] *)
Definition VisibilityManager_is_row_visible (_ : VisibilityManager) (snapshot_id created_txn : TxnId)
    (deleted_txn : option TxnId) (active : gset TxnId) (commit_ts_map : gmap TxnId Z) : bool :=
  if snapshot_id <? created_txn then false else
  if bool_decide (created_txn ∈ active) then false else
  match commit_ts_map !! created_txn with
  | None => false
  | Some commit_ts =>
      if snapshot_id <? commit_ts then false else
      match deleted_txn with
      | Some del =>
          if bool_decide (del ∈ active) then true else
          match commit_ts_map !! del with
          | Some del_commit_ts => if del_commit_ts <=? snapshot_id then false else true
          | None => true
          end
      | None => true
      end
  end.

(** [impl VisFilter for NoopVisFilter] *)
Inductive NoopVisFilter := Noop.
Definition NoopVisFilter_is_row_visible (_ : NoopVisFilter) (_ _ : TxnId) (_ : option TxnId)
    (_ : gset TxnId) (_ : gmap TxnId Z) : bool := true.

#[export] Instance TxnSnapshot_VisFilter : VisFilter TxnSnapshot := TxnSnapshot_is_row_visible.
#[export] Instance VisibilityManager_VisFilter : VisFilter VisibilityManager :=
  VisibilityManager_is_row_visible.
#[export] Instance NoopVisFilter_VisFilter : VisFilter NoopVisFilter := NoopVisFilter_is_row_visible.

(** ** What the trait promises *)

(** The four rules of the trait's documentation, as a proposition: [t] is
    committed at the snapshot when its commit timestamp is known and not later
    than the snapshot. *)
Definition committed_at (sid : TxnId) (cts : gmap TxnId Z) (t : TxnId) : Prop :=
  ∃ ts, cts !! t = Some ts ∧ ts ≤ sid.

Definition row_visible (sid c : TxnId) (d : option TxnId) (active : gset TxnId)
    (cts : gmap TxnId Z) : Prop :=
  c ≤ sid ∧ (c ∉ active) ∧ committed_at sid cts c ∧
  (∀ t, d = Some t → t ∉ active → ¬ committed_at sid cts t).

(** A filter keeps the contract when it decides [row_visible]. *)
Class VisFilterLaws (F : Type) `{VisFilter F} :=
  is_row_visible_iff : ∀ (f : F) sid c d active cts,
    is_row_visible f sid c d active cts = true ↔ row_visible sid c d active cts.
#[global] Hint Mode VisFilterLaws ! - : typeclass_instances.

(** * Projections (overlay.rs) *)

Definition COMPACTION_SNAPSHOT_ID : TxnId := u64_max.

Definition VisibilityContext_from_snapshot (s : TxnSnapshot) (p : VisibilityProjection)
    : VisibilityContext :=
  {| ctx_projection := p; ctx_snapshot_id := snapshot_id s;
     ctx_active_txns := snap_active_txns s; ctx_commit_ts_map := snap_commit_ts_map s |}.

Definition VisibilityContext_historical (target_txn : TxnId) (cts : gmap TxnId Z)
    : VisibilityContext :=
  {| ctx_projection := Historical; ctx_snapshot_id := target_txn;
     ctx_active_txns := ∅; ctx_commit_ts_map := cts |}.

Definition VisibilityContext_compaction_rewrite : VisibilityContext :=
  {| ctx_projection := CompactionRewrite; ctx_snapshot_id := COMPACTION_SNAPSHOT_ID;
     ctx_active_txns := ∅; ctx_commit_ts_map := ∅ |}.

Record SegmentOverlay := {
  ov_projection : VisibilityProjection;
  ov_snapshot_id : TxnId;
  ov_active_txns : gset TxnId;
  ov_commit_ts_map : gmap TxnId Z
}.

Definition SegmentOverlay_from_context (c : VisibilityContext) : SegmentOverlay :=
  {| ov_projection := ctx_projection c; ov_snapshot_id := ctx_snapshot_id c;
     ov_active_txns := ctx_active_txns c; ov_commit_ts_map := ctx_commit_ts_map c |}.

Definition SegmentOverlay_from_snapshot (s : TxnSnapshot) : SegmentOverlay :=
  SegmentOverlay_from_context (VisibilityContext_from_snapshot s Online).

Definition for_compaction_all_visible : SegmentOverlay :=
  SegmentOverlay_from_context VisibilityContext_compaction_rewrite.

Definition SegmentOverlay_is_row_visible {F} `{VisFilter F} (o : SegmentOverlay) (filter : F)
    (created_txn : TxnId) (deleted_txn : option TxnId) : bool :=
  is_row_visible filter (ov_snapshot_id o) created_txn deleted_txn
    (ov_active_txns o) (ov_commit_ts_map o).

Definition as_snapshot (o : SegmentOverlay) : TxnSnapshot :=
  {| snapshot_id := ov_snapshot_id o; snap_active_txns := ov_active_txns o;
     isolation := Snapshot; snap_commit_ts_map := ov_commit_ts_map o |}.

Definition as_context (o : SegmentOverlay) : VisibilityContext :=
  {| ctx_projection := ov_projection o; ctx_snapshot_id := ov_snapshot_id o;
     ctx_active_txns := ov_active_txns o; ctx_commit_ts_map := ov_commit_ts_map o |}.

Definition compaction_overlay_filter : SegmentOverlay * VisibilityManager :=
  (for_compaction_all_visible, VisibilityManager_new).

(** * Snapshots of the manager *)

(** The commit timestamps of the history entries committed at or before [id]:
    the [iter().filter(..).map(..).collect()] of the three snapshot builders. *)
Definition commit_ts_upto (id : TxnId) (history : gmap TxnId (Z * Z)) : gmap TxnId Z :=
  fst <$> filter (λ e, e.2.1 ≤ id) history.

Definition snapshot_with_active_only (m : VisibilityManager) (iso : IsolationLevel) : TxnSnapshot :=
  TxnSnapshot_new (committed_txn m) (dom (active_txns m)) iso.

Definition snapshot_with_commit_ts_map (m : VisibilityManager) (iso : IsolationLevel) : TxnSnapshot :=
  {| snapshot_id := committed_txn m; snap_active_txns := dom (active_txns m); isolation := iso;
     snap_commit_ts_map := commit_ts_upto (committed_txn m) (committed_history m) |}.

Definition snapshot (m : VisibilityManager) (iso : IsolationLevel) : TxnSnapshot :=
  snapshot_with_commit_ts_map m iso.

Definition snapshot_at (m : VisibilityManager) (txn_id : TxnId) (iso : IsolationLevel) : TxnSnapshot :=
  {| snapshot_id := txn_id;
     snap_active_txns := dom (filter (λ e, begin_ts e.2 ≤ txn_id) (active_txns m));
     isolation := iso;
     snap_commit_ts_map := commit_ts_upto txn_id (committed_history m) |}.

Definition is_visible (m : VisibilityManager) (s : TxnSnapshot) (created_txn : TxnId)
    (deleted_txn : option TxnId) : bool :=
  is_row_visible m (snapshot_id s) created_txn deleted_txn
    (snap_active_txns s) (snap_commit_ts_map s).

Definition get_begin_ts (m : VisibilityManager) (txn_id : TxnId) : option Z :=
  begin_ts <$> active_txns m !! txn_id.

Definition get_commit_ts (m : VisibilityManager) (txn_id : TxnId) : option Z :=
  fst <$> committed_history m !! txn_id.

(** [entries.sort_by_key(|&(txn_id, _)| txn_id)] *)
Definition fst_le (a b : Z * Z) : bool := a.1 <=? b.1.

Definition committed_history_entries `{HashIter} (m : VisibilityManager) : list (TxnId * Z) :=
  sort_by fst_le ((λ e, (e.1, e.2.1)) <$> hash_iter (committed_history m)).

Definition active_txn_entries `{HashIter} (m : VisibilityManager) : list (TxnId * Z) :=
  sort_by fst_le ((λ e, (e.1, begin_ts e.2)) <$> hash_iter (active_txns m)).

(** * The filters keep the contract *)

#[export] Instance committed_at_dec sid cts t : Decision (committed_at sid cts t).
Proof.
  refine (match cts !! t as o return cts !! t = o → _ with
          | Some ts => λ E, cast_if (decide (ts ≤ sid))
          | None => λ E, right _
          end eq_refl); unfold committed_at; naive_solver.
Defined.

(** The two formulations of Rules 3 and 4 in the implementations. *)
Lemma commit_ts_after_iff sid cts t :
  match cts !! t with Some ts => negb (sid <? ts) | None => false end = true ↔
  committed_at sid cts t.
Proof.
  unfold committed_at. destruct (cts !! t) as [ts|].
  - rewrite negb_true_iff, Z.ltb_ge. naive_solver.
  - naive_solver.
Qed.

Lemma deletion_rule_iff sid (d : option TxnId) (active : gset TxnId) (cts : gmap TxnId Z) :
  match d with
  | Some del =>
      if bool_decide (del ∈ active) then true else
      match cts !! del with
      | Some del_commit_ts => if del_commit_ts <=? sid then false else true
      | None => true
      end
  | None => true
  end = true ↔ ∀ t, d = Some t → t ∉ active → ¬ committed_at sid cts t.
Proof.
  unfold committed_at. destruct d as [t|]; [|naive_solver].
  case_bool_decide; [naive_solver|]. destruct (cts !! t) as [ts|] eqn:E.
  - destruct (Z.leb_spec ts sid); split; try done.
    + intros Hn. exfalso. eapply (Hn t); eauto.
    + intros _ t' [= <-] _ (ts' & ? & ?). simplify_eq. lia.
  - split; [|done]. intros _ t' [= <-] _ (ts' & ? & ?). congruence.
Qed.

#[export] Instance VisibilityManager_laws : VisFilterLaws VisibilityManager.
Proof.
  intros m sid c d active cts.
  unfold is_row_visible, VisibilityManager_VisFilter, VisibilityManager_is_row_visible, row_visible.
  rewrite <- deletion_rule_iff, <- (commit_ts_after_iff _ _ c).
  destruct (Z.ltb_spec sid c); [split; [done|lia]|].
  case_bool_decide; [naive_solver|].
  destruct (cts !! c) as [ts|]; [|naive_solver].
  destruct (Z.ltb_spec sid ts); simpl; naive_solver lia.
Qed.

#[export] Instance TxnSnapshot_laws : VisFilterLaws TxnSnapshot.
Proof.
  intros m sid c d active cts.
  unfold is_row_visible, TxnSnapshot_VisFilter, TxnSnapshot_is_row_visible, row_visible.
  rewrite <- deletion_rule_iff, <- (commit_ts_after_iff _ _ c).
  destruct (Z.ltb_spec sid c); [split; [done|lia]|].
  case_bool_decide; [naive_solver|].
  destruct (cts !! c) as [ts|]; simpl; [|naive_solver].
  destruct (Z.ltb_spec sid ts); simpl; naive_solver lia.
Qed.

Lemma lawful_filters_agree {F G} `{VisFilterLaws F} `{VisFilterLaws G} (f : F) (g : G)
    sid c d active cts :
  is_row_visible f sid c d active cts = is_row_visible g sid c d active cts.
Proof. apply eq_true_iff_eq. by rewrite !is_row_visible_iff. Qed.

Lemma lawful_filter_eq {F} `{VisFilterLaws F} (f : F) sid c d active cts b :
  (row_visible sid c d active cts ↔ b = true) → is_row_visible f sid c d active cts = b.
Proof. intros Hb. apply eq_true_iff_eq. by rewrite is_row_visible_iff. Qed.

(** ** Commit timestamps of a snapshot *)

Lemma lookup_commit_ts_upto id history t ts :
  commit_ts_upto id history !! t = Some ts ↔ ∃ ia, history !! t = Some (ts, ia) ∧ ts ≤ id.
Proof.
  unfold commit_ts_upto. rewrite lookup_fmap_Some. split.
  - intros ([ts' ia] & <- & [Hl Hle]%map_lookup_filter_Some). eauto.
  - intros (ia & Hl & Hle). exists (ts, ia). split; [done|]. by apply map_lookup_filter_Some.
Qed.

Lemma committed_at_upto id history t :
  committed_at id (commit_ts_upto id history) t ↔ ∃ ts ia, history !! t = Some (ts, ia) ∧ ts ≤ id.
Proof. unfold committed_at. setoid_rewrite lookup_commit_ts_upto. naive_solver. Qed.

Lemma elem_of_dom_filter (P : TxnId * TxnMeta → Prop) `{∀ x, Decision (P x)}
    (act : gmap TxnId TxnMeta) t :
  t ∈ dom (filter P act) ↔ ∃ x, act !! t = Some x ∧ P (t, x).
Proof. rewrite elem_of_dom. unfold is_Some. by setoid_rewrite map_lookup_filter_Some. Qed.

(** * Properties *)

(** C1: [VisibilityManager]'s filter decides exactly the four rules of the
    trait's documentation: the creator is not in the future of the snapshot, not
    active, has a commit timestamp at or before the snapshot, and the deleter, if
    any, is active or has no commit timestamp at or before the snapshot. *)
Theorem manager_visibility_rules m sid c d active cts :
  VisibilityManager_is_row_visible m sid c d active cts = true ↔ row_visible sid c d active cts.
Proof. apply (is_row_visible_iff m). Qed.

(** The filter of [TxnSnapshot] (used by the VTab scan) and the filter of
    [VisibilityManager] (used by scan and point reads) agree on every input. *)
Theorem snapshot_manager_filters_agree s m sid c d active cts :
  TxnSnapshot_is_row_visible s sid c d active cts =
  VisibilityManager_is_row_visible m sid c d active cts.
Proof. apply (lawful_filters_agree s m). Qed.

(** An overlay built from an online snapshot decides visibility exactly as
    the manager does for that snapshot, whatever filter that keeps the trait's
    contract it is given. *)
Theorem overlay_refines_online_snapshot {F} `{VisFilterLaws F} (f : F) m s c d :
  SegmentOverlay_is_row_visible (SegmentOverlay_from_snapshot s) f c d = is_visible m s c d.
Proof. apply (lawful_filters_agree f m). Qed.

Lemma overlay_refines_online_snapshot_witness :
  SegmentOverlay_is_row_visible
    (SegmentOverlay_from_snapshot
       {| snapshot_id := 10; snap_active_txns := {[9]}; isolation := Snapshot;
          snap_commit_ts_map := {[8 := 8]} |}) VisibilityManager_new 8 (Some 9) = true.
Proof. rewrite (overlay_refines_online_snapshot _ VisibilityManager_new). reflexivity. Defined.

(** Under the compaction overlay no row is visible, for any filter that
    keeps the trait's contract: its commit-timestamp map is empty, and Rule 3
    hides every row whose creator has no timestamp. *)
Theorem compaction_overlay_hides_all {F} `{VisFilterLaws F} (f : F) c d :
  SegmentOverlay_is_row_visible for_compaction_all_visible f c d = false.
Proof.
  unfold SegmentOverlay_is_row_visible. apply lawful_filter_eq. split; [|done]. intros (_ & _ & (ts & Hts & _) & _).
  simpl in Hts. by rewrite lookup_empty in Hts.
Qed.

Lemma compaction_overlay_hides_all_witness :
  SegmentOverlay_is_row_visible (fst compaction_overlay_filter) (snd compaction_overlay_filter) 1 None
  = false.
Proof. apply compaction_overlay_hides_all. Defined.

(** A row is visible in the manager's current snapshot exactly when its
    creator is not later than [committed_txn], is not active, is in the
    committed history with a commit timestamp at or before [committed_txn], and
    its deleter is not a committed transaction of that kind. *)
Theorem current_snapshot_visible_iff m iso c d :
  is_visible m (snapshot m iso) c d = true ↔
    c ≤ committed_txn m ∧ active_txns m !! c = None ∧
    (∃ ts ia, committed_history m !! c = Some (ts, ia) ∧ ts ≤ committed_txn m) ∧
    (∀ t, d = Some t → active_txns m !! t = None →
       ¬ ∃ ts ia, committed_history m !! t = Some (ts, ia) ∧ ts ≤ committed_txn m).
Proof.
  unfold is_visible. rewrite is_row_visible_iff. unfold row_visible; simpl.
  rewrite committed_at_upto, not_elem_of_dom.
  setoid_rewrite committed_at_upto. by setoid_rewrite not_elem_of_dom.
Qed.

(** The lazy snapshot of the OLTP path carries no commit timestamps, so no
    row at all is visible in it. *)
Theorem active_only_snapshot_hides_all m iso c d :
  is_visible m (snapshot_with_active_only m iso) c d = false.
Proof.
  unfold is_visible. apply lawful_filter_eq. split; [|done]. intros (_ & _ & (ts & Hts & _) & _).
  simpl in Hts. by rewrite lookup_empty in Hts.
Qed.

(** Time travel is monotone: in a manager whose history and active set are
    disjoint, a row that is never deleted and visible as of [t1] is visible as of
    every later [t2]. *)
Theorem snapshot_at_monotone m iso c t1 t2 :
  dom (committed_history m) ## dom (active_txns m) → t1 ≤ t2 →
  is_visible m (snapshot_at m t1 iso) c None = true →
  is_visible m (snapshot_at m t2 iso) c None = true.
Proof.
  intros Hdisj Hle. unfold is_visible. rewrite !is_row_visible_iff. unfold row_visible; simpl.
  rewrite !committed_at_upto.
  intros (Hc & Hna & (ts & ia & Hh & Hts) & _). split_and!; [lia| |exists ts, ia; split; [done|lia]|done].
  intros (x & Hx & _)%elem_of_dom_filter.
  apply (Hdisj c); apply elem_of_dom; eauto.
Qed.

Lemma snapshot_at_monotone_witness :
  is_visible
    {| committed_txn := 5; replay_watermark := 0; active_txns := ∅;
       committed_history := {[3 := (3, 0)]}; config := VisibilityConfig_default;
       recovered_txns := ∅ |}
    (snapshot_at
      {| committed_txn := 5; replay_watermark := 0; active_txns := ∅;
         committed_history := {[3 := (3, 0)]}; config := VisibilityConfig_default;
         recovered_txns := ∅ |} 9 Snapshot) 3 None = true.
Proof. apply (snapshot_at_monotone _ _ _ 4 9); [|lia|reflexivity]. simpl. set_solver. Defined.
