(* ===== verification/TxnManager.v ===== *)
(** The mutating operations of [VisibilityManager] (mvcc/visibility.rs): begin,
    read and write tracking, commit with SSI conflict detection, rollback, the
    pruning of the committed history and the recovery of the state, with the
    records they keep in the key-value store. *)

From stdpp Require Import base gmap strings list pretty sorting.
From S2P Require Import Prelude Kv Visibility.

Local Open Scope Z_scope.

(** Field updates of the manager. *)
Definition set_committed_txn (m : VisibilityManager) (t : TxnId) : VisibilityManager :=
  {| committed_txn := t; replay_watermark := replay_watermark m; active_txns := active_txns m;
     committed_history := committed_history m; config := config m;
     recovered_txns := recovered_txns m |}.

Definition set_replay_watermark (m : VisibilityManager) (w : Z) : VisibilityManager :=
  {| committed_txn := committed_txn m; replay_watermark := w; active_txns := active_txns m;
     committed_history := committed_history m; config := config m;
     recovered_txns := recovered_txns m |}.

Definition with_active (m : VisibilityManager) (a : gmap TxnId TxnMeta) : VisibilityManager :=
  {| committed_txn := committed_txn m; replay_watermark := replay_watermark m; active_txns := a;
     committed_history := committed_history m; config := config m;
     recovered_txns := recovered_txns m |}.

Definition with_history (m : VisibilityManager) (h : gmap TxnId (Z * Z)) : VisibilityManager :=
  {| committed_txn := committed_txn m; replay_watermark := replay_watermark m;
     active_txns := active_txns m; committed_history := h; config := config m;
     recovered_txns := recovered_txns m |}.

Definition with_config (m : VisibilityManager) (c : VisibilityConfig) : VisibilityManager :=
  {| committed_txn := committed_txn m; replay_watermark := replay_watermark m;
     active_txns := active_txns m; committed_history := committed_history m; config := c;
     recovered_txns := recovered_txns m |}.

Definition with_recovered (m : VisibilityManager) (r : gset TxnId) : VisibilityManager :=
  {| committed_txn := committed_txn m; replay_watermark := replay_watermark m;
     active_txns := active_txns m; committed_history := committed_history m; config := config m;
     recovered_txns := r |}.

(** * Conflict detection *)

Section txn_manager.
Context `{HashIter}.

(** [for key in keys { index.entry(key).or_default().push(id) }] *)
Definition push_keys (id : TxnId) (keys : list bytes) (index : gmap bytes (list TxnId))
    : gmap bytes (list TxnId) :=
  foldl (λ ix key, <[key := default [] (ix !! key) ++ [id]]> ix) index keys.

(** Phase 1: the key to writers and key to readers index over the other
    transactions that were not recovered. *)
Definition build_key_index (txn_id : TxnId) (others : list (TxnId * TxnMeta))
    : gmap bytes (list TxnId) * gmap bytes (list TxnId) :=
  foldl (λ ix other,
           if other.1 =? txn_id then ix else
           if is_recovered other.2 then ix else
           (push_keys other.1 (hash_iter_set (written_keys other.2)) ix.1,
            push_keys other.1 (hash_iter_set (read_keys other.2)) ix.2))
        (∅, ∅) others.

(** [index.get(k)] when it holds a non-empty vector: its first element. *)
Definition first_holder (index : gmap bytes (list TxnId)) (k : bytes) : option TxnId :=
  match index !! k with
  | Some (t :: _) => Some t
  | _ => None
  end.

(** Phase 2: the first read key that another transaction wrote. *)
Fixpoint read_conflict (key_writers : gmap bytes (list TxnId)) (reads : list bytes)
    : option TxnId :=
  match reads with
  | [] => None
  | k :: reads' =>
      match first_holder key_writers k with
      | Some t => Some t
      | None => read_conflict key_writers reads'
      end
  end.

(** Phase 3: the first written key that another transaction read or wrote. *)
Fixpoint write_conflict (key_writers key_readers : gmap bytes (list TxnId)) (writes : list bytes)
    : option TxnId :=
  match writes with
  | [] => None
  | k :: writes' =>
      match first_holder key_readers k with
      | Some t => Some t
      | None =>
          match first_holder key_writers k with
          | Some t => Some t
          | None => write_conflict key_writers key_readers writes'
          end
      end
  end.

(** The outcome of the three phases: read-write flag, write-write flag and the
    transaction the conflict is reported with. *)
Definition detect_conflict (m : VisibilityManager) (txn_id : TxnId) (meta : TxnMeta)
    : bool * bool * TxnId :=
  let ix := build_key_index txn_id (hash_iter (active_txns m)) in
  match read_conflict ix.1 (hash_iter_set (read_keys meta)) with
  | Some t => (true, false, t)
  | None =>
      match write_conflict ix.1 ix.2 (hash_iter_set (written_keys meta)) with
      | Some t => (false, true, t)
      | None => (false, false, 0)
      end
  end.

(** * Pruning the history *)

(** Strategy 1: over the limit, evict the oldest entries by [inserted_at] until
    four fifths of the limit are left. *)
Definition prune_by_count (cfg : VisibilityConfig) (h : gmap TxnId (Z * Z)) : gmap TxnId (Z * Z) :=
  if max_history_entries cfg <? Z.of_nat (size h) then
    let items := sort_by fst_le ((λ e, (e.2.2, e.1)) <$> hash_iter h) in
    let keep_count := wrap64 (max_history_entries cfg * 4) `div` 5 in
    let evict_count := saturating_sub (Z.of_nat (length items)) keep_count in
    foldl (λ h item, delete item.2 h) h (take (Z.to_nat evict_count) items)
  else h.

(** The time cutoff of strategy 2. *)
Definition prune_cutoff (cfg : VisibilityConfig) (watermark now_ms : Z) : Z :=
  let ttl_ms := wrap64 (history_ttl_secs cfg * 1000) in
  Z.max (saturating_sub now_ms ttl_ms) watermark.

(** [prune_history], with the wall clock it reads as [now_ms]. *)
Definition prune_history (m : VisibilityManager) (now_ms : Z) : VisibilityManager :=
  let h := prune_by_count (config m) (committed_history m) in
  let cutoff := prune_cutoff (config m) (replay_watermark m) now_ms in
  with_history m (filter (λ e, cutoff ≤ e.2.2) h).

(** * Transactions *)

Context `{KVEngine KV} `{Codec (Z * Z)}.

Definition begin_txn (m : VisibilityManager) (txn_id : TxnId) (kv : KV)
    : VisibilityManager * KV * Result unit :=
  if bool_decide (is_Some (active_txns m !! txn_id)) then
    (m, kv, Err (EMvccConflict ("transaction " +:+ pretty txn_id +:+ " already active")))
  else if txn_id <=? committed_txn m then
    (m, kv, Err (EMvccConflict ("transaction " +:+ pretty txn_id +:+ " already committed")))
  else
    let m' := with_active m (<[txn_id := TxnMeta_new txn_id]> (active_txns m)) in
    let '(kv', r) := add_active_txn kv txn_id txn_id in
    (m', kv', r).

(** A transaction that is not active is only logged. *)
Definition record_read (m : VisibilityManager) (txn_id : TxnId) (key : bytes) : VisibilityManager :=
  match active_txns m !! txn_id with
  | Some meta => with_active m (<[txn_id := TxnMeta_record_read meta key]> (active_txns m))
  | None => m
  end.

Definition record_write (m : VisibilityManager) (txn_id : TxnId) (key : bytes) : VisibilityManager :=
  match active_txns m !! txn_id with
  | Some meta => with_active m (<[txn_id := TxnMeta_record_write meta key]> (active_txns m))
  | None => m
  end.

(** [self.active_txns.remove(..); self.recovered_txns.remove(..)] *)
Definition forget_txn (m : VisibilityManager) (txn_id : TxnId) : VisibilityManager :=
  with_recovered (with_active m (delete txn_id (active_txns m)))
                 (recovered_txns m ∖ {[txn_id]}).

Definition abort_txn (m : VisibilityManager) (txn_id : TxnId) (kv : KV)
    : VisibilityManager * KV * Result unit :=
  let '(kv', r) := remove_active_txn kv txn_id in
  (forget_txn m txn_id, kv', r).

Definition rollback_txn (m : VisibilityManager) (txn_id : TxnId) (kv : KV)
    : VisibilityManager * KV * Result unit := abort_txn m txn_id kv.

Definition bool_display (b : bool) : string := if b then "true" else "false".

(** The state [commit_txn] leaves after a commit without conflict: [ts] is the
    clock read for the commit timestamp, [now_ms] the one read in
    [prune_history]. *)
Definition apply_commit (m : VisibilityManager) (txn_id : TxnId) (inserted_at ts now_ms : Z)
    : VisibilityManager :=
  let m1 := if committed_txn m <? txn_id then set_committed_txn m txn_id else m in
  let m2 := match active_txns m1 !! txn_id with
            | Some meta => with_active m1 (<[txn_id := TxnMeta_commit meta ts]> (active_txns m1))
            | None => m1
            end in
  let m3 := with_history m2 (<[txn_id := (ts, inserted_at)]> (committed_history m2)) in
  forget_txn (prune_history m3 now_ms) txn_id.

Definition commit_txn (m : VisibilityManager) (txn_id : TxnId) (kv : KV)
    (inserted_at ts now_ms : Z) : VisibilityManager * KV * Result TxnSnapshot :=
  match active_txns m !! txn_id with
  | None => (m, kv, Err (EMvccConflict ("transaction " +:+ pretty txn_id +:+ " not active")))
  | Some txn_meta =>
      let '(rw, ww, conflicting_txn) := detect_conflict m txn_id txn_meta in
      if rw || ww then
        let '(m', kv', r) := abort_txn m txn_id kv in
        match r with
        | Err e => (m', kv', Err e)
        | Ok _ =>
            (m', kv', Err (EMvccConflict
               ("SSI conflict: txn " +:+ pretty txn_id +:+ " conflicts with active txn "
                +:+ pretty conflicting_txn +:+ " (rw=" +:+ bool_display rw
                +:+ ", ww=" +:+ bool_display ww +:+ ")")))
        end
      else
        let m' := apply_commit m txn_id inserted_at ts now_ms in
        let '(kv', r) := remove_active_txn kv txn_id in
        match r with
        | Err e => (m', kv', Err e)
        | Ok _ => (m', kv', Ok (snapshot m' Snapshot))
        end
  end.

(** * Recovery *)

(** [now] is the clock read once before the loop. *)
Definition recover_committed_history_with_config (m : VisibilityManager)
    (history : list (TxnId * Z)) (config_override : option VisibilityConfig)
    (wal_inserted_at : gmap TxnId Z) (now : Z) : VisibilityManager :=
  let m0 := match config_override with Some cfg => with_config m cfg | None => m end in
  for_each history (with_history m0 ∅) (λ m e,
    let inserted_at := default now (wal_inserted_at !! e.1) in
    let m := with_history m (<[e.1 := (e.2, inserted_at)]> (committed_history m)) in
    if committed_txn m <? e.1 then set_committed_txn m e.1 else m).

Definition recover_committed_history (m : VisibilityManager) (history : list (TxnId * Z)) (now : Z)
    : VisibilityManager :=
  recover_committed_history_with_config m history None ∅ now.

Definition recovered_meta (b : Z) : TxnMeta :=
  {| begin_ts := b; commit_ts := None; status := Active;
     read_keys := ∅; written_keys := ∅; is_recovered := true |}.

Definition recover_active_txns (m : VisibilityManager) (active : list (TxnId * Z))
    : VisibilityManager :=
  for_each active (with_recovered (with_active m ∅) ∅) (λ m e,
    with_recovered (with_active m (<[e.1 := recovered_meta e.2]> (active_txns m)))
                   ({[e.1]} ∪ recovered_txns m)).
End txn_manager.

(** * Conflict detection is exact *)

(** The pairwise definition that the key index computes: [other] is another
    active transaction with known read and write sets, and it wrote a key that
    [meta] read, or read or wrote a key that [meta] wrote. *)
Definition conflicts_with (m : VisibilityManager) (txn_id : TxnId) (meta : TxnMeta) (other : TxnId)
    : Prop :=
  ∃ om, active_txns m !! other = Some om ∧ other ≠ txn_id ∧ is_recovered om = false ∧
    ((∃ k, k ∈ read_keys meta ∧ k ∈ written_keys om) ∨
     (∃ k, k ∈ written_keys meta ∧ (k ∈ read_keys om ∨ k ∈ written_keys om))).

Definition holders (index : gmap bytes (list TxnId)) (k : bytes) : list TxnId :=
  default [] (index !! k).

Lemma first_holder_Some index k t : first_holder index k = Some t → t ∈ holders index k.
Proof.
  unfold first_holder, holders. destruct (index !! k) as [[|t' l]|]; intros [= ->]. simpl. set_solver.
Qed.

Lemma first_holder_None index k t : first_holder index k = None → t ∉ holders index k.
Proof.
  unfold first_holder, holders. destruct (index !! k) as [[|t' l]|]; simpl; set_solver.
Qed.

Lemma holders_push_keys id keys index k t :
  t ∈ holders (push_keys id keys index) k ↔ t ∈ holders index k ∨ (t = id ∧ k ∈ keys).
Proof.
  unfold push_keys. revert index. induction keys as [|k' keys IH]; intros index; simpl.
  - set_solver.
  - rewrite IH, elem_of_cons. unfold holders. destruct (decide (k' = k)) as [->|Hk].
    + rewrite lookup_insert_eq; simpl. rewrite elem_of_app, list_elem_of_singleton. naive_solver.
    + rewrite lookup_insert_ne by done. naive_solver.
Qed.

Lemma read_conflict_spec kw reads :
  match read_conflict kw reads with
  | Some t => ∃ k, k ∈ reads ∧ t ∈ holders kw k
  | None => ∀ k t, k ∈ reads → t ∉ holders kw k
  end.
Proof.
  induction reads as [|k reads IH]; simpl; [set_solver|].
  destruct (first_holder kw k) as [t|] eqn:E.
  - exists k. split; [set_solver|]. by apply first_holder_Some.
  - destruct (read_conflict kw reads) as [t|]; [set_solver|].
    intros k' t [->|Hk]%elem_of_cons; [by apply first_holder_None|by apply IH].
Qed.

Lemma write_conflict_spec kw kr writes :
  match write_conflict kw kr writes with
  | Some t => ∃ k, k ∈ writes ∧ (t ∈ holders kr k ∨ t ∈ holders kw k)
  | None => ∀ k t, k ∈ writes → (t ∉ holders kr k) ∧ (t ∉ holders kw k)
  end.
Proof.
  induction writes as [|k writes IH]; simpl; [set_solver|].
  destruct (first_holder kr k) as [t|] eqn:E.
  { exists k. split; [set_solver|]. left. by apply first_holder_Some. }
  destruct (first_holder kw k) as [t|] eqn:E'.
  { exists k. split; [set_solver|]. right. by apply first_holder_Some. }
  destruct (write_conflict kw kr writes) as [t|]; [set_solver|].
  intros k' t [->|Hk]%elem_of_cons; [by split; apply first_holder_None|by apply IH].
Qed.

Section conflict_proofs.
Context `{HashIter}.

(** [t] is an indexed transaction of [others] with [k] in its key set [f]. *)
Definition indexed (txn_id : TxnId) (f : TxnMeta → gset bytes) (others : list (TxnId * TxnMeta))
    (k : bytes) (t : TxnId) : Prop :=
  ∃ om, (t, om) ∈ others ∧ t ≠ txn_id ∧ is_recovered om = false ∧ k ∈ f om.

Lemma indexed_snoc txn_id f others o om k t :
  indexed txn_id f (others ++ [(o, om)]) k t ↔
  indexed txn_id f others k t ∨ (t = o ∧ o ≠ txn_id ∧ is_recovered om = false ∧ k ∈ f om).
Proof.
  unfold indexed. split.
  - intros (om' & [Hin|Heq%list_elem_of_singleton]%elem_of_app & Hrest); [left; eauto|].
    right. by simplify_eq.
  - intros [(om' & Hin & Hrest)|(-> & Hrest)].
    + exists om'. rewrite elem_of_app. tauto.
    + exists om. rewrite elem_of_app, list_elem_of_singleton. tauto.
Qed.

Lemma build_key_index_spec txn_id others k t :
  (t ∈ holders (build_key_index txn_id others).1 k ↔ indexed txn_id written_keys others k t) ∧
  (t ∈ holders (build_key_index txn_id others).2 k ↔ indexed txn_id read_keys others k t).
Proof.
  unfold build_key_index. induction others as [|[o om] others IH] using rev_ind; simpl.
  - unfold holders, indexed. rewrite lookup_empty; simpl.
    split; (split; [by intros ?%elem_of_nil|by intros (om & ?%elem_of_nil & _)]).
  - rewrite foldl_snoc, !indexed_snoc; simpl. destruct IH as [IH1 IH2].
    destruct (Z.eqb_spec o txn_id) as [->|Hne]; [rewrite IH1, IH2; tauto|].
    destruct (is_recovered om) eqn:Er; simpl.
    + rewrite IH1, IH2. intuition discriminate.
    + rewrite !holders_push_keys, IH1, IH2, !elem_of_hash_iter_set. tauto.
Qed.

Lemma conflicts_with_indexed m txn_id meta o :
  conflicts_with m txn_id meta o ↔
  (∃ k, k ∈ read_keys meta ∧ indexed txn_id written_keys (hash_iter (active_txns m)) k o) ∨
  (∃ k, k ∈ written_keys meta ∧ (indexed txn_id read_keys (hash_iter (active_txns m)) k o ∨
                                 indexed txn_id written_keys (hash_iter (active_txns m)) k o)).
Proof.
  unfold conflicts_with, indexed. split.
  - intros (om & Hin%elem_of_hash_iter & ? & ? & [(k & ? & ?)|(k & ? & [?|?])]); eauto 12.
  - intros [(k & ? & om & Hin%elem_of_hash_iter & ? & ? & ?)
           |(k & ? & [(om & Hin%elem_of_hash_iter & ? & ? & ?)
                     |(om & Hin%elem_of_hash_iter & ? & ? & ?)])];
      exists om; eauto 12.
Qed.

Lemma detect_conflict_spec m txn_id meta rw ww t :
  detect_conflict m txn_id meta = (rw, ww, t) →
  (rw || ww = true → conflicts_with m txn_id meta t) ∧
  (rw || ww = false → ∀ o, ¬ conflicts_with m txn_id meta o).
Proof.
  unfold detect_conflict. setoid_rewrite conflicts_with_indexed.
  set (others := hash_iter (active_txns m)).
  pose proof (read_conflict_spec (build_key_index txn_id others).1
                (hash_iter_set (read_keys meta))) as Hr.
  pose proof (write_conflict_spec (build_key_index txn_id others).1
                (build_key_index txn_id others).2 (hash_iter_set (written_keys meta))) as Hw.
  destruct (read_conflict _ _) as [t'|]; [|destruct (write_conflict _ _ _) as [t'|]];
    intros [= <- <- <-]; split; intros Hc; try done.
  - destruct Hr as (k & Hk%elem_of_hash_iter_set & Ht%build_key_index_spec). eauto.
  - destruct Hw as (k & Hk%elem_of_hash_iter_set & Ht). right. exists k. split; [done|].
    destruct Ht as [Ht|Ht]; apply build_key_index_spec in Ht; auto.
  - intros o [(k & Hk & Ho)|(k & Hk & Ho)]; rewrite <- elem_of_hash_iter_set in Hk.
    + by apply (Hr k o Hk), build_key_index_spec.
    + destruct (Hw k o Hk) as [Hw1 Hw2].
      destruct Ho; [apply Hw1|apply Hw2]; by apply build_key_index_spec.
Qed.
End conflict_proofs.

(** * The history stays bounded *)

Section prune_proofs.
Context `{HashIter}.
Implicit Types h : gmap TxnId (Z * Z).

Lemma foldl_delete_lookup (l : list (Z * TxnId)) h k :
  foldl (λ h item, delete item.2 h) h l !! k =
  if bool_decide (k ∈ l.*2) then None else h !! k.
Proof.
  revert h. induction l as [|[ia t] l IH]; intros h; [done|].
  rewrite fmap_cons. cbn [foldl snd]. rewrite IH. destruct (decide (k = t)) as [->|Hne].
  - rewrite lookup_delete_eq, (bool_decide_true (t ∈ t :: _)) by set_solver.
    by case_bool_decide.
  - rewrite lookup_delete_ne by done. erewrite bool_decide_ext; [done|]. set_solver.
Qed.

Lemma foldl_delete_size (l : list (Z * TxnId)) h :
  NoDup l.*2 → Forall (λ item, is_Some (h !! item.2)) l →
  (size (foldl (λ h item, delete item.2 h) h l) + length l = size h)%nat.
Proof.
  revert h. induction l as [|[ia t] l IH]; intros h; cbn [foldl length]; [lia|].
  rewrite fmap_cons, NoDup_cons, Forall_cons; cbn [snd]. intros [Hnin Hnd] [[v Hv] Hall].
  rewrite Nat.add_succ_r, IH; [|done|].
  - rewrite map_size_delete_Some by eauto.
    assert (size h ≠ 0%nat); [|lia].
    intros Hz%map_size_empty_inv. by rewrite Hz, lookup_empty in Hv.
  - rewrite Forall_forall in Hall |- *. intros [ia' t'] Hin. cbn [snd].
    rewrite lookup_delete_ne; [by apply (Hall _ Hin)|].
    intros ->. apply Hnin. apply list_elem_of_fmap. by exists (ia', t').
Qed.

(** The entries in the order strategy 1 evicts them. *)
Definition eviction_order h : list (Z * TxnId) :=
  sort_by fst_le ((λ e, (e.2.2, e.1)) <$> hash_iter h).

Lemma eviction_order_sorted h : StronglySorted (λ a b, fst_le a b = true) (eviction_order h).
Proof. apply sort_by_sorted; unfold fst_le; intros; lia. Qed.

Lemma elem_of_eviction_order h ia t :
  (ia, t) ∈ eviction_order h ↔ ∃ ts, h !! t = Some (ts, ia).
Proof.
  unfold eviction_order. rewrite sort_by_perm, list_elem_of_fmap. split.
  - intros ([t' [ts ia']] & [= -> ->] & Hin%elem_of_hash_iter). eauto.
  - intros (ts & Hl). exists (t, (ts, ia)). split; [done|]. by apply elem_of_hash_iter.
Qed.

Lemma eviction_order_NoDup h : NoDup (eviction_order h).*2.
Proof.
  unfold eviction_order. rewrite sort_by_perm, <- list_fmap_compose.
  replace (snd ∘ _) with (fst : TxnId * (Z * Z) → TxnId) by done. apply hash_iter_NoDup_fst.
Qed.

Lemma eviction_order_length h : length (eviction_order h) = size h.
Proof. unfold eviction_order. by rewrite sort_by_perm, length_fmap, hash_iter_length. Qed.

Lemma eviction_order_in_dom h : Forall (λ item, is_Some (h !! item.2)) (eviction_order h).
Proof. apply Forall_forall. intros [ia t] (ts & Hl)%elem_of_eviction_order. by eexists. Qed.

(** How many entries strategy 1 keeps when it evicts. *)
Definition keep_count (cfg : VisibilityConfig) : Z := wrap64 (max_history_entries cfg * 4) `div` 5.

Lemma keep_count_bound cfg : 0 ≤ max_history_entries cfg →
  0 ≤ keep_count cfg ≤ max_history_entries cfg.
Proof.
  intros Hm. unfold keep_count, wrap64.
  pose proof (Z.mod_le (max_history_entries cfg * 4) (2 ^ 64)).
  pose proof (Z.mod_pos_bound (max_history_entries cfg * 4) (2 ^ 64)).
  split; [apply Z.div_pos; lia|]. apply Z.div_le_upper_bound; lia.
Qed.

Lemma prune_by_count_evict cfg h : 0 ≤ max_history_entries cfg →
  max_history_entries cfg < Z.of_nat (size h) →
  prune_by_count cfg h =
  foldl (λ h item, delete item.2 h) h
    (take (size h - Z.to_nat (keep_count cfg)) (eviction_order h)).
Proof.
  intros H0 Hlt. unfold prune_by_count. rewrite (proj2 (Z.ltb_lt _ _) Hlt).
  fold (eviction_order h) (keep_count cfg). rewrite eviction_order_length.
  pose proof (keep_count_bound cfg H0). unfold saturating_sub.
  rewrite (proj2 (Z.leb_le _ _)) by lia. do 2 f_equal. lia.
Qed.

Lemma prune_by_count_id cfg h : Z.of_nat (size h) ≤ max_history_entries cfg → prune_by_count cfg h = h.
Proof. intros Hle. unfold prune_by_count. by rewrite (proj2 (Z.ltb_ge _ _)). Qed.

Lemma prune_by_count_size cfg h : 0 ≤ max_history_entries cfg →
  Z.of_nat (size (prune_by_count cfg h)) =
  if max_history_entries cfg <? Z.of_nat (size h) then keep_count cfg else Z.of_nat (size h).
Proof.
  intros H0. destruct (Z.ltb_spec (max_history_entries cfg) (Z.of_nat (size h))) as [Hlt|Hle].
  - rewrite prune_by_count_evict by done.
    pose proof (keep_count_bound cfg H0).
    set (n := (size h - Z.to_nat (keep_count cfg))%nat).
    assert (NoDup (take n (eviction_order h)).*2) as Hnd.
    { rewrite fmap_take. eapply sublist_NoDup; [apply eviction_order_NoDup|apply sublist_take]. }
    pose proof (foldl_delete_size _ h Hnd (Forall_take _ n _ (eviction_order_in_dom h))) as Hsz.
    rewrite length_take, eviction_order_length in Hsz. lia.
  - by rewrite prune_by_count_id.
Qed.

Lemma prune_by_count_subseteq cfg h : 0 ≤ max_history_entries cfg → prune_by_count cfg h ⊆ h.
Proof.
  intros H0. destruct (Z.lt_ge_cases (max_history_entries cfg) (Z.of_nat (size h))) as [Hlt|Hle].
  - rewrite prune_by_count_evict by done. apply map_subseteq_spec. intros k v.
    rewrite foldl_delete_lookup. by case_bool_decide.
  - by rewrite prune_by_count_id.
Qed.

(** An entry that strategy 1 evicts is not newer than one it keeps. *)
Lemma prune_by_count_fifo cfg h t v t' v' : 0 ≤ max_history_entries cfg →
  h !! t = Some v → prune_by_count cfg h !! t = None → prune_by_count cfg h !! t' = Some v' →
  v.2 ≤ v'.2.
Proof.
  intros H0 Ht Hnone Hsome.
  destruct (Z.lt_ge_cases (max_history_entries cfg) (Z.of_nat (size h))) as [Hlt|Hle];
    [|rewrite prune_by_count_id in Hnone by done; congruence].
  rewrite prune_by_count_evict, foldl_delete_lookup in Hnone, Hsome by done.
  set (n := (size h - Z.to_nat (keep_count cfg))%nat) in *.
  destruct (decide (t ∈ (take n (eviction_order h)).*2)) as [Hin|];
    [|rewrite bool_decide_false in Hnone by done; congruence].
  destruct (decide (t' ∈ (take n (eviction_order h)).*2)) as [|Hnin];
    [rewrite bool_decide_true in Hsome by done; congruence|].
  rewrite bool_decide_false in Hsome by done.
  apply list_elem_of_fmap in Hin as ([ia t0] & -> & Hin); cbn [snd] in *.
  assert ((ia, t0) ∈ eviction_order h) as (ts & Hl)%elem_of_eviction_order
    by (eapply elem_of_take in Hin as (i & Hi & _); by eapply list_elem_of_lookup_2).
  destruct v' as [ts' ia'], v as [ts0 ia0]; simplify_eq; cbn [snd].
  assert ((ia', t') ∈ drop n (eviction_order h)) as Hdrop.
  { assert ((ia', t') ∈ eviction_order h) as Hall by (apply elem_of_eviction_order; eauto).
    rewrite <- (take_drop n (eviction_order h)) in Hall.
    apply elem_of_app in Hall as [Hall|Hall]; [|done].
    exfalso. apply Hnin, list_elem_of_fmap. by exists (ia', t'). }
  pose proof (eviction_order_sorted h) as Hs. rewrite <- (take_drop n) in Hs.
  pose proof (StronglySorted_app_1_elem_of _ _ _ _ _ Hs Hin Hdrop) as Hle.
  unfold fst_le in Hle; cbn [fst] in Hle. lia.
Qed.
End prune_proofs.

(** * Recovery from the recorded entries *)

Section recovery_proofs.
Context `{HashIter}.
Implicit Types m : VisibilityManager.

Lemma recover_history_lookup m hist ov wal now t :
  committed_history (recover_committed_history_with_config m hist ov wal now) !! t =
  (λ ts, (ts, default now (wal !! t))) <$> (list_to_map (reverse hist) : gmap TxnId Z) !! t.
Proof.
  unfold recover_committed_history_with_config, for_each.
  induction hist as [|[t' ts] hist IH] using rev_ind.
  { by destruct ov; cbn; rewrite !lookup_empty. }
  rewrite foldl_app, reverse_snoc. cbn [foldl list_to_map foldr uncurry]. cbn [fst snd].
  set (m' := foldl _ _ hist) in *.
  transitivity (<[t':=(ts, default now (wal !! t'))]> (committed_history m') !! t).
  { destruct (_ <? _); done. }
  destruct (decide (t' = t)) as [->|Hne].
  - by rewrite !lookup_insert_eq.
  - by rewrite !lookup_insert_ne.
Qed.

Lemma recover_history_committed m hist ov wal now :
  committed_txn (recover_committed_history_with_config m hist ov wal now) =
  foldl Z.max (committed_txn m) hist.*1.
Proof.
  unfold recover_committed_history_with_config, for_each.
  induction hist as [|[t' ts] hist IH] using rev_ind; [by destruct ov|].
  rewrite foldl_app, fmap_app, foldl_app. cbn [foldl fmap list_fmap fst]. rewrite <- IH.
  set (m' := foldl _ _ hist). cbn [fst snd committed_txn with_history].
  destruct (Z.ltb_spec (committed_txn m') t'); cbn [committed_txn set_committed_txn with_history]; lia.
Qed.

Lemma recover_active_lookup m active t :
  active_txns (recover_active_txns m active) !! t =
  recovered_meta <$> (list_to_map (reverse active) : gmap TxnId Z) !! t.
Proof.
  unfold recover_active_txns, for_each.
  induction active as [|[t' b] active IH] using rev_ind; [by cbn; rewrite !lookup_empty|].
  rewrite foldl_app, reverse_snoc. cbn [foldl list_to_map foldr uncurry fst snd].
  cbn [active_txns with_active with_recovered]. destruct (decide (t' = t)) as [->|Hne].
  - by rewrite !lookup_insert_eq.
  - by rewrite !lookup_insert_ne.
Qed.

Lemma recover_active_recovered m active :
  recovered_txns (recover_active_txns m active) = list_to_set active.*1.
Proof.
  unfold recover_active_txns, for_each.
  induction active as [|[t' b] active IH] using rev_ind; [done|].
  rewrite foldl_app, fmap_app, list_to_set_app_L. cbn [foldl fmap list_fmap fst snd].
  cbn [recovered_txns with_recovered with_active list_to_set]. set_solver.
Qed.

(** The list of (transaction, value) entries of a map, in any order, is read
    back as the map of the values. *)
Lemma list_to_map_sorted_entries {A} (f : A → Z) (h : gmap TxnId A) t :
  (list_to_map (reverse (sort_by fst_le ((λ e, (e.1, f e.2)) <$> hash_iter h))) : gmap TxnId Z) !! t
  = f <$> h !! t.
Proof.
  rewrite <- lookup_fmap. f_equal. rewrite <- (list_to_map_to_list (f <$> h)).
  assert (reverse (sort_by fst_le ((λ e, (e.1, f e.2)) <$> hash_iter h))
          ≡ₚ map_to_list (f <$> h)) as Hp.
  { rewrite reverse_Permutation, sort_by_perm, hash_iter_perm, map_to_list_fmap.
    apply (reflexivity (R := Permutation)). }
  apply list_to_map_proper; [|done]. rewrite Hp. apply NoDup_fst_map_to_list.
Qed.
End recovery_proofs.

(** * The invariant of the manager *)

(** What holds of the active transactions after any operation. *)
Record active_inv (m : VisibilityManager) : Prop := {
  inv_recovered : recovered_txns m ⊆ dom (active_txns m);
  inv_active : ∀ t meta, active_txns m !! t = Some meta →
    status meta = Active ∧ commit_ts meta = None ∧ (is_recovered meta = true ↔ t ∈ recovered_txns m)
}.

(** What also holds of the history while recoveries are consistent. *)
Record history_inv (m : VisibilityManager) : Prop := {
  inv_history_committed : ∀ t v, committed_history m !! t = Some v → t ≤ committed_txn m;
  inv_disjoint : ∀ t v, committed_history m !! t = Some v → active_txns m !! t = None;
  inv_bounded : Z.of_nat (size (committed_history m)) ≤ max_history_entries (config m)
}.

(** The operations a database issues on its manager, those of a restart included. *)
Inductive mvcc_op :=
  | OpBegin (t : TxnId)
  | OpRead (t : TxnId) (key : bytes)
  | OpWrite (t : TxnId) (key : bytes)
  | OpCommit (t : TxnId) (inserted_at ts now_ms : Z)
  | OpRollback (t : TxnId)
  | OpSetCommitted (t : TxnId)
  | OpSetWatermark (w : Z)
  | OpRecoverHistory (history : list (TxnId * Z)) (ov : option VisibilityConfig) (wal : gmap TxnId Z) (now_ms : Z)
  | OpRecoverActive (active : list (TxnId * Z)).

Section mvcc_proofs.
Context `{HashIter} `{KVEngine KV} `{Codec (Z * Z)}.
Implicit Types (m : VisibilityManager) (kv : KV) (t : TxnId).

Definition exec_op (s : VisibilityManager * KV) (op : mvcc_op) : VisibilityManager * KV :=
  match op with
  | OpBegin t => (begin_txn s.1 t s.2).1
  | OpRead t key => (record_read s.1 t key, s.2)
  | OpWrite t key => (record_write s.1 t key, s.2)
  | OpCommit t ia ts now => (commit_txn s.1 t s.2 ia ts now).1
  | OpRollback t => (rollback_txn s.1 t s.2).1
  | OpSetCommitted t => (set_committed_txn s.1 t, s.2)
  | OpSetWatermark w => (set_replay_watermark s.1 w, s.2)
  | OpRecoverHistory hist ov wal now => (recover_committed_history_with_config s.1 hist ov wal now, s.2)
  | OpRecoverActive active => (recover_active_txns s.1 active, s.2)
  end.

(** The states that operations which satisfy [ok] lead to. *)
Inductive reachable (ok : VisibilityManager * KV → mvcc_op → Prop) (s0 : VisibilityManager * KV) : VisibilityManager * KV → Prop :=
  | reachable_init : reachable ok s0 s0
  | reachable_step s op : reachable ok s0 s → ok s op → reachable ok s0 (exec_op s op).

(** A limit that an operation brings along is a [usize]. *)
Definition op_typed (op : mvcc_op) : Prop :=
  match op with OpRecoverHistory _ (Some cfg) _ _ => 0 ≤ max_history_entries cfg | _ => True end.
(** A restart that is consistent: the committed transaction is set to one that is not
    before the history, and history and active transactions have nothing in common. *)
Definition op_consistent (s : VisibilityManager * KV) (op : mvcc_op) : Prop :=
  op_typed op ∧
  match op with
  | OpSetCommitted t => ∀ t', is_Some (committed_history s.1 !! t') → t' ≤ t
  | OpRecoverHistory hist ov wal now =>
      Z.of_nat (length hist) ≤ max_history_entries (default (config s.1) ov) ∧ ∀ t, t ∈ hist.*1 → active_txns s.1 !! t = None
  | OpRecoverActive active => ∀ t, t ∈ active.*1 → committed_history s.1 !! t = None
  | _ => True
  end.

(** ** What each operation does to the manager *)

Lemma lookup_prune_history m now t v :
  0 ≤ max_history_entries (config m) →
  committed_history (prune_history m now) !! t = Some v →
  committed_history m !! t = Some v ∧
  prune_cutoff (config m) (replay_watermark m) now ≤ v.2.
Proof.
  intros H0' [Hl Hc]%map_lookup_filter_Some. split; [|done].
  eapply map_subseteq_spec; [by apply prune_by_count_subseteq|done].
Qed.

Lemma prune_history_size m now : 0 ≤ max_history_entries (config m) →
  Z.of_nat (size (committed_history (prune_history m now))) ≤ max_history_entries (config m).
Proof.
  intros Hm. unfold prune_history; cbn [committed_history with_history].
  set (h := prune_by_count (config m) (committed_history m)).
  assert (Z.of_nat (size h) ≤ max_history_entries (config m)).
  { unfold h. rewrite prune_by_count_size by done.
    pose proof (keep_count_bound _ Hm). zcase; lia. }
  etrans; [|eassumption]. apply Nat2Z.inj_le, map_subseteq_size, map_filter_subseteq.
Qed.

Lemma apply_commit_fields m t ia ts now :
  active_txns (apply_commit m t ia ts now) = delete t (active_txns m) ∧
  recovered_txns (apply_commit m t ia ts now) = recovered_txns m ∖ {[t]} ∧
  config (apply_commit m t ia ts now) = config m ∧
  replay_watermark (apply_commit m t ia ts now) = replay_watermark m ∧
  committed_txn (apply_commit m t ia ts now) = Z.max (committed_txn m) t ∧
  committed_history (apply_commit m t ia ts now) =
    committed_history (prune_history (with_history m (<[t := (ts, ia)]> (committed_history m))) now).
Proof.
  unfold apply_commit. destruct (Z.ltb_spec (committed_txn m) t);
    cbn [active_txns set_committed_txn with_active with_history prune_history forget_txn
         with_recovered committed_txn recovered_txns config replay_watermark committed_history];
    destruct (active_txns m !! t) eqn:E; cbn; rewrite ?delete_insert_eq;
    (split_and!; [done|done|done|done|lia|done]).
Qed.

(** A commit either leaves the manager as it was, or aborts the transaction, or
    applies it, according to whether the transaction is active and in conflict. *)
Lemma commit_txn_cases m t kv ia ts now :
  match active_txns m !! t with
  | None => (commit_txn m t kv ia ts now).1 = (m, kv) ∧ is_ok (commit_txn m t kv ia ts now).2 = false
  | Some meta =>
      (commit_txn m t kv ia ts now).1.2 = (remove_active_txn kv t).1 ∧
      ((∃ o, conflicts_with m t meta o) ∧ (commit_txn m t kv ia ts now).1.1 = forget_txn m t ∧
         is_ok (commit_txn m t kv ia ts now).2 = false
       ∨ (∀ o, ¬ conflicts_with m t meta o) ∧
         (commit_txn m t kv ia ts now).1.1 = apply_commit m t ia ts now ∧
         (commit_txn m t kv ia ts now).2 =
           result_bind (remove_active_txn kv t).2
             (λ _, Ok (snapshot (apply_commit m t ia ts now) Snapshot)))
  end.
Proof.
  unfold commit_txn. destruct (active_txns m !! t) as [meta|] eqn:E; [|done].
  destruct (detect_conflict m t meta) as [[rw ww] o] eqn:Ed.
  apply detect_conflict_spec in Ed as [Hc Hn].
  unfold abort_txn. destruct (remove_active_txn kv t) as [kv' r]; cbn [fst snd].
  destruct (rw || ww).
  - destruct r as [[]|e]; cbn; (split; [done|]); left; eauto.
  - destruct r as [[]|e]; cbn; (split; [done|]); right; eauto.
Qed.

(** ** Preservation of the invariants *)

Lemma active_inv_forget m t : active_inv m → active_inv (forget_txn m t).
Proof.
  intros [H3 H4]. split; cbn; [rewrite dom_delete_L; set_solver|].
  intros t' meta [Hne Hl]%lookup_delete_Some. destruct (H4 _ _ Hl) as (? & ? & Hr).
  split_and!; [done|done|]. rewrite Hr. set_solver.
Qed.
Lemma history_inv_forget m t : history_inv m → history_inv (forget_txn m t).
Proof.
  intros [H1' H2 H5]. split; cbn; [exact H1'| |exact H5].
  intros t' v Hv. apply lookup_delete_None. right. by eapply H2.
Qed.

Lemma active_inv_begin m t kv : active_inv m → active_inv (begin_txn m t kv).1.1.
Proof.
  intros Hinv. unfold begin_txn. case_bool_decide as Hact; [done|]. destruct (t <=? committed_txn m); [done|].
  apply eq_None_not_Some in Hact. destruct (add_active_txn kv t t) as [kv' r]; cbn [fst]. destruct Hinv as [H3 H4].
  split; cbn; [rewrite dom_insert_L; set_solver|].
  intros t' meta [[<- <-]|[Hne Hl]]%lookup_insert_Some; [|by apply H4]. cbn.
  split_and!; [done|done|]. split; [done|]. intros Hin%H3. by apply not_elem_of_dom in Hact.
Qed.
Lemma history_inv_begin m t kv : history_inv m → history_inv (begin_txn m t kv).1.1.
Proof.
  intros Hinv. unfold begin_txn. case_bool_decide as Hact; [done|].
  destruct (Z.leb_spec t (committed_txn m)) as [|Hlt]; [done|].
  destruct (add_active_txn kv t t) as [kv' r]; cbn [fst]. destruct Hinv as [H1' H2 H5]. split; cbn; [exact H1'| |exact H5].
  intros t' v Hv. rewrite lookup_insert_ne; [by eapply H2|]. intros ->. apply H1' in Hv. lia.
Qed.

(** Replacing an entry of [active_txns] by one with the same commit state. *)
Lemma active_inv_update m t meta meta' : active_txns m !! t = Some meta →
  status meta' = status meta → commit_ts meta' = commit_ts meta →
  is_recovered meta' = is_recovered meta → active_inv m →
  active_inv (with_active m (<[t := meta']> (active_txns m))).
Proof.
  intros Ht Hs Hc Hr [H3 H4]. split; cbn; [rewrite dom_insert_L; set_solver|].
  intros t' meta0 [[<- <-]|[Hne Hl]]%lookup_insert_Some; [|by apply H4].
  rewrite Hs, Hc, Hr. by apply H4.
Qed.
Lemma history_inv_update m t meta meta' : active_txns m !! t = Some meta → history_inv m →
  history_inv (with_active m (<[t := meta']> (active_txns m))).
Proof.
  intros Ht [H1' H2 H5]. split; cbn; [exact H1'| |exact H5].
  intros t' v Hv. rewrite lookup_insert_ne; [by eapply H2|]. intros ->. apply H2 in Hv. congruence.
Qed.

Lemma active_inv_apply_commit m t ia ts now : active_inv m → active_inv (apply_commit m t ia ts now).
Proof.
  intros [H3 H4]. destruct (apply_commit_fields m t ia ts now) as (Ea & Er & _). split.
  - rewrite Ea, Er, dom_delete_L. set_solver.
  - intros t' meta. rewrite Ea, Er. intros [Hne Hl]%lookup_delete_Some.
    destruct (H4 _ _ Hl) as (? & ? & Hr). split_and!; [done|done|]. rewrite Hr. set_solver.
Qed.
Lemma apply_commit_bounded m t ia ts now : 0 ≤ max_history_entries (config m) →
  Z.of_nat (size (committed_history (apply_commit m t ia ts now))) ≤ max_history_entries (config (apply_commit m t ia ts now)).
Proof.
  intros H0'. destruct (apply_commit_fields m t ia ts now) as (_ & _ & -> & _ & _ & ->).
  by apply (prune_history_size (with_history m (<[t := (ts, ia)]> (committed_history m)))).
Qed.
Lemma history_inv_apply_commit m t ia ts now : 0 ≤ max_history_entries (config m) →
  history_inv m → history_inv (apply_commit m t ia ts now).
Proof.
  intros H0' [H1' H2 H5].
  destruct (apply_commit_fields m t ia ts now) as (Ea & _ & _ & _ & Et & Eh).
  assert (∀ t' v, committed_history (apply_commit m t ia ts now) !! t' = Some v →
                  t' = t ∨ committed_history m !! t' = Some v) as Hh.
  { intros t' v. rewrite Eh. intros [Hl _]%lookup_prune_history; [|done].
    cbn in Hl. apply lookup_insert_Some in Hl as [[<- _]|[_ Hl]]; auto. }
  split; [| |by apply apply_commit_bounded].
  - intros t' v [->|Hv%H1']%Hh; rewrite Et; lia.
  - intros t' v Hv%Hh. rewrite Ea, lookup_delete_None.
    destruct Hv as [->|Hv]; [by left|right; by eapply H2].
Qed.

(** A commit that returns leaves the history within its limit, whatever it was. *)
Lemma commit_bounds_history m t kv ia ts now : 0 ≤ max_history_entries (config m) →
  is_ok (commit_txn m t kv ia ts now).2 = true →
  let m' := (commit_txn m t kv ia ts now).1.1 in
  Z.of_nat (size (committed_history m')) ≤ max_history_entries (config m').
Proof.
  intros H0' Hok. pose proof (commit_txn_cases m t kv ia ts now) as Hc. destruct (active_txns m !! t) as [meta|].
  - destruct Hc as [_ [(_ & _ & Hr)|(_ & -> & _)]]; [congruence|by apply apply_commit_bounded].
  - destruct Hc as [_ Hr]. congruence.
Qed.

(** *** A restart *)

Lemma recover_history_fields m hist ov wal now :
  let m' := recover_committed_history_with_config m hist ov wal now in
  active_txns m' = active_txns m ∧ recovered_txns m' = recovered_txns m ∧ config m' = default (config m) ov ∧
  replay_watermark m' = replay_watermark m.
Proof.
  cbn. unfold recover_committed_history_with_config.
  apply (for_each_inv (λ m', active_txns m' = active_txns m ∧ recovered_txns m' = recovered_txns m ∧ config m' = default (config m) ov ∧
    replay_watermark m' = replay_watermark m)); [by destruct ov|]. intros m' [t ts] Hm. cbn. by destruct (_ <? _).
Qed.
Lemma recover_active_fields m l :
  committed_history (recover_active_txns m l) = committed_history m ∧
  committed_txn (recover_active_txns m l) = committed_txn m ∧ config (recover_active_txns m l) = config m.
Proof.
  apply (for_each_inv (λ m', committed_history m' = committed_history m ∧ committed_txn m' = committed_txn m ∧ config m' = config m)); [done|].
  by intros m' [t b] _.
Qed.

Lemma active_inv_recover m active : active_inv (recover_active_txns m active).
Proof.
  split.
  - rewrite recover_active_recovered. intros t Ht. apply elem_of_dom. rewrite recover_active_lookup. apply fmap_is_Some.
    destruct (list_to_map (reverse active) !! t) eqn:E; [done|]. apply not_elem_of_list_to_map_2 in E. destruct E.
    rewrite fmap_reverse, elem_of_reverse. by apply elem_of_list_to_set in Ht.
  - intros t meta. rewrite recover_active_lookup, recover_active_recovered. intros (b & Hb & ->)%fmap_Some. cbn.
    split_and!; [done|done|]. split; [intros _|done]. apply elem_of_list_to_set.
    apply elem_of_list_to_map_2, (list_elem_of_fmap_2 fst) in Hb. cbn in Hb. by rewrite fmap_reverse, elem_of_reverse in Hb.
Qed.

Lemma foldl_max_ge l x : x ≤ foldl Z.max x l ∧ ∀ y, y ∈ l → y ≤ foldl Z.max x l.
Proof.
  revert x. induction l as [|z l IH]; intros x; cbn; [split; [lia|set_solver]|].
  destruct (IH (Z.max x z)) as [H1' H2]. split; [lia|]. intros y [->|Hy]%elem_of_cons; [lia|auto].
Qed.
Lemma recover_history_elem m hist ov wal now t v :
  committed_history (recover_committed_history_with_config m hist ov wal now) !! t = Some v → t ∈ hist.*1.
Proof.
  rewrite recover_history_lookup. intros (ts & Hl & _)%fmap_Some.
  apply elem_of_list_to_map_2, (list_elem_of_fmap_2 fst) in Hl. cbn in Hl. by rewrite fmap_reverse, elem_of_reverse in Hl.
Qed.
Lemma size_list_to_set_le (l : list TxnId) : (size (list_to_set l : gset TxnId) ≤ length l)%nat.
Proof.
  induction l as [|x l IH]; cbn; [done|]. rewrite size_union_alt, size_singleton. apply le_n_S. etrans; [|exact IH].
  apply subseteq_size. set_solver.
Qed.
Lemma history_inv_recover m hist ov wal now :
  Z.of_nat (length hist) ≤ max_history_entries (default (config m) ov) → (∀ t, t ∈ hist.*1 → active_txns m !! t = None) →
  history_inv (recover_committed_history_with_config m hist ov wal now).
Proof.
  intros Hl Ha. destruct (recover_history_fields m hist ov wal now) as (Ea & _ & Ec & _). split.
  - intros t v Hv%recover_history_elem. rewrite recover_history_committed. by apply foldl_max_ge.
  - intros t v Hv%recover_history_elem. rewrite Ea. auto.
  - rewrite Ec. etrans; [|exact Hl]. apply Nat2Z.inj_le.
    rewrite <- size_dom, <- (length_fmap fst hist). etrans; [|apply size_list_to_set_le].
    apply subseteq_size. intros t [v Hv]%elem_of_dom. apply elem_of_list_to_set. by eapply recover_history_elem.
Qed.

(** *** Every operation *)

Lemma exec_op_config s op : config (exec_op s op).1 =
  match op with OpRecoverHistory _ ov _ _ => default (config s.1) ov | _ => config s.1 end.
Proof.
  destruct s as [m kv], op as [t|t k|t k|t ia ts now|t|t|w|hist ov wal now|active]; cbn.
  - unfold begin_txn. case_bool_decide; [done|]. destruct (t <=? committed_txn m); [done|].
    by destruct (add_active_txn kv t t).
  - unfold record_read. by destruct (active_txns m !! t).
  - unfold record_write. by destruct (active_txns m !! t).
  - pose proof (commit_txn_cases m t kv ia ts now) as Hc.
    destruct (active_txns m !! t) as [meta|].
    + destruct Hc as [_ [(_ & -> & _)|(_ & -> & _)]]; [done|apply apply_commit_fields].
    + by destruct Hc as [-> _].
  - unfold rollback_txn, abort_txn. by destruct (remove_active_txn kv t).
  - done.
  - done.
  - apply recover_history_fields.
  - apply recover_active_fields.
Qed.
Lemma exec_op_limit s op : op_typed op → 0 ≤ max_history_entries (config s.1) →
  0 ≤ max_history_entries (config (exec_op s op).1).
Proof. intros Ht H0'. rewrite exec_op_config. destruct op as [| | | | | | |hist [cfg|] wal now|]; done. Qed.

Lemma exec_op_active_inv s op : active_inv s.1 → active_inv (exec_op s op).1.
Proof.
  destruct s as [m kv], op as [t|t k|t k|t ia ts now|t|t|w|hist ov wal now|active]; cbn; intros Hinv.
  - by apply active_inv_begin.
  - unfold record_read. destruct (active_txns m !! t) eqn:E; [|done]. by eapply active_inv_update.
  - unfold record_write. destruct (active_txns m !! t) eqn:E; [|done]. by eapply active_inv_update.
  - pose proof (commit_txn_cases m t kv ia ts now) as Hc. destruct (active_txns m !! t); [|by destruct Hc as [-> _]].
    destruct Hc as [_ [(_ & -> & _)|(_ & -> & _)]]; [by apply active_inv_forget|by apply active_inv_apply_commit].
  - unfold rollback_txn, abort_txn. destruct (remove_active_txn kv t). by apply active_inv_forget.
  - by destruct Hinv; split.
  - by destruct Hinv; split.
  - destruct (recover_history_fields m hist ov wal now) as (Ea & Er & _). destruct Hinv. split; by rewrite Ea, Er.
  - apply active_inv_recover.
Qed.

Lemma exec_op_history_inv s op : 0 ≤ max_history_entries (config s.1) → op_consistent s op →
  history_inv s.1 → history_inv (exec_op s op).1.
Proof.
  intros H0' [_ Hop]. destruct s as [m kv], op as [t|t k|t k|t ia ts now|t|t|w|hist ov wal now|active]; cbn in *; intros Hinv.
  - by apply history_inv_begin.
  - unfold record_read. destruct (active_txns m !! t) eqn:E; [|done]. by eapply history_inv_update.
  - unfold record_write. destruct (active_txns m !! t) eqn:E; [|done]. by eapply history_inv_update.
  - pose proof (commit_txn_cases m t kv ia ts now) as Hc. destruct (active_txns m !! t); [|by destruct Hc as [-> _]].
    destruct Hc as [_ [(_ & -> & _)|(_ & -> & _)]]; [by apply history_inv_forget|by apply history_inv_apply_commit].
  - unfold rollback_txn, abort_txn. destruct (remove_active_txn kv t). by apply history_inv_forget.
  - destruct Hinv. split; cbn; [|done|done]. eauto.
  - by destruct Hinv; split.
  - destruct Hop. by apply history_inv_recover.
  - destruct Hinv as [H1' H2 H5], (recover_active_fields m active) as (Eh & Et & Ec). split; [by rewrite Eh, Et| |by rewrite Eh, Ec].
    intros t v. rewrite Eh. intros Hv. rewrite recover_active_lookup. apply fmap_None.
    apply not_elem_of_list_to_map_1. rewrite fmap_reverse, elem_of_reverse. intros Ht%Hop. congruence.
Qed.

Lemma new_invs cfg : 0 ≤ max_history_entries cfg →
  active_inv (VisibilityManager_new_with_config cfg) ∧ history_inv (VisibilityManager_new_with_config cfg).
Proof.
  intros. split; split; cbn; try done; intros ?? Hl; by rewrite lookup_empty in Hl.
Qed.

Lemma reachable_active_inv cfg kv s : 0 ≤ max_history_entries cfg →
  reachable (λ _, op_typed) (VisibilityManager_new_with_config cfg, kv) s → active_inv s.1 ∧ 0 ≤ max_history_entries (config s.1).
Proof.
  intros H0'. induction 1 as [|s op Hr [IH Hc] Ht]; [split; [by apply new_invs|done]|].
  split; [by apply exec_op_active_inv|by apply exec_op_limit].
Qed.
Lemma reachable_history_inv cfg kv s : 0 ≤ max_history_entries cfg →
  reachable op_consistent (VisibilityManager_new_with_config cfg, kv) s → history_inv s.1 ∧ 0 ≤ max_history_entries (config s.1).
Proof.
  intros H0'. induction 1 as [|s op Hr [IH Hc] Ht]; [split; [by apply new_invs|done]|].
  split; [by apply exec_op_history_inv|by apply exec_op_limit, Hc; apply Ht].
Qed.

(** ** Aborted transactions *)

(** The operations that make a transaction known again: its begin, and a restart that
    finds it among the committed or the active ones. *)
Definition brings_back (t : TxnId) (op : mvcc_op) : Prop :=
  match op with
  | OpBegin t' => t' = t
  | OpRecoverHistory hist _ _ _ => t ∈ hist.*1
  | OpRecoverActive active => t ∈ active.*1
  | _ => False
  end.

(** A transaction that is neither active nor in the history stays so until it is
    brought back. *)
Definition absent (t : TxnId) (m : VisibilityManager) : Prop :=
  active_txns m !! t = None ∧ committed_history m !! t = None.

Lemma exec_op_absent s op t : 0 ≤ max_history_entries (config s.1) →
  ¬ brings_back t op → absent t s.1 → absent t (exec_op s op).1.
Proof.
  unfold absent, brings_back. intros H0' Hop [Ha Hh].
  destruct s as [m kv], op as [t'|t' k|t' k|t' ia ts now|t'|t'|w|hist ov wal now|active]; cbn in *.
  - unfold begin_txn. case_bool_decide; [done|]. destruct (t' <=? committed_txn m); [done|].
    destruct (add_active_txn kv t' t'); cbn. by rewrite lookup_insert_ne.
  - unfold record_read. destruct (active_txns m !! t') eqn:E; [|done]. cbn.
    rewrite lookup_insert_ne by congruence. done.
  - unfold record_write. destruct (active_txns m !! t') eqn:E; [|done]. cbn.
    rewrite lookup_insert_ne by congruence. done.
  - pose proof (commit_txn_cases m t' kv ia ts now) as Hc.
    destruct (active_txns m !! t') as [meta|] eqn:E; [|by destruct Hc as [-> _]].
    destruct Hc as [_ [(_ & -> & _)|(_ & -> & _)]].
    + cbn. by rewrite lookup_delete_None, Ha, Hh; auto.
    + destruct (apply_commit_fields m t' ia ts now) as (-> & _ & _ & _ & _ & ->).
      split; [rewrite lookup_delete_None; auto|].
      apply eq_None_not_Some. intros [v [Hl _]%lookup_prune_history]; [|done].
      cbn in Hl. rewrite lookup_insert_ne in Hl by congruence. congruence.
  - unfold rollback_txn, abort_txn. destruct (remove_active_txn kv t'); cbn.
    rewrite lookup_delete_None. auto.
  - done.
  - done.
  - destruct (recover_history_fields m hist ov wal now) as (-> & _). split; [done|].
    apply eq_None_not_Some. by intros [v Hv%recover_history_elem].
  - destruct (recover_active_fields m active) as (-> & _). split; [|done]. rewrite recover_active_lookup. apply fmap_None.
    apply not_elem_of_list_to_map_1. by rewrite fmap_reverse, elem_of_reverse.
Qed.

Lemma exec_ops_absent ops s t : 0 ≤ max_history_entries (config s.1) →
  Forall (λ op, op_typed op ∧ ¬ brings_back t op) ops → absent t s.1 → absent t (foldl exec_op s ops).1.
Proof.
  revert s. induction ops as [|op ops IH]; intros s H0' Hops Ha; [done|].
  apply Forall_cons in Hops as [[Ht Hop] Hops]. cbn. apply IH; [by apply exec_op_limit|done|].
  by apply exec_op_absent.
Qed.

Lemma absent_invisible t m m' sid iso d :
  absent t m → is_visible m' (snapshot_at m sid iso) t d = false.
Proof.
  intros [_ Hh]. unfold is_visible. apply lawful_filter_eq. split; [|done].
  intros (_ & _ & Hc & _). cbn in Hc. apply committed_at_upto in Hc as (ts & ia & Hl & _). congruence.
Qed.
End mvcc_proofs.

(** * The persistent set of active transactions *)

Section mirror.
Context `{HashIter} `{KVEngineLaws KV} `{CodecLaws (Z * Z)}.
Implicit Types (m : VisibilityManager) (kv : KV).

(** The store's records of active transactions are the manager's. *)
Definition mirrored (s : VisibilityManager * KV) : Prop :=
  records KEY_ACTIVE_TXNS s.2 (begin_ts <$> active_txns s.1).

(** Whether the store writes that an operation issues succeed, on transaction
    ids in the range of their type; replacing the active set writes nothing. *)
Definition op_persists (s : VisibilityManager * KV) (op : mvcc_op) : bool :=
  match op with
  | OpBegin t => bool_decide (is_u64 t) && is_ok (add_active_txn s.2 t t).2
  | OpRead _ _ | OpWrite _ _ => true
  | OpCommit t _ _ _ | OpRollback t => bool_decide (is_u64 t) && is_ok (remove_active_txn s.2 t).2
  | OpSetCommitted _ | OpSetWatermark _ | OpRecoverHistory _ _ _ _ => true
  | OpRecoverActive _ => false
  end.

Fixpoint all_persist (s : VisibilityManager * KV) (ops : list mvcc_op) : bool :=
  match ops with
  | [] => true
  | op :: ops' => op_persists s op && all_persist (exec_op s op) ops'
  end.

Lemma mirrored_update m kv t meta meta' : active_txns m !! t = Some meta →
  begin_ts meta' = begin_ts meta → mirrored (m, kv) →
  mirrored (with_active m (<[t := meta']> (active_txns m)), kv).
Proof.
  unfold mirrored; cbn. intros Ht Hb. rewrite fmap_insert, Hb, insert_id; [done|].
  by rewrite lookup_fmap, Ht.
Qed.

Lemma mirrored_remove m kv m' t : is_u64 t → active_txns m' = delete t (active_txns m) →
  is_ok (remove_active_txn kv t).2 = true → mirrored (m, kv) →
  mirrored (m', (remove_active_txn kv t).1).
Proof.
  unfold mirrored; cbn. intros Ht -> Hok Hm. rewrite fmap_delete.
  destruct (remove_active_txn kv t) as [kv' [[]|e]] eqn:E; [|done].
  by eapply records_delete.
Qed.

Lemma exec_op_mirrored s op : op_persists s op = true → mirrored s → mirrored (exec_op s op).
Proof.
  destruct s as [m kv], op as [t|t k|t k|t ia ts now|t|t|w|hist ov wal now|active]; cbn [op_persists exec_op fst snd].
  - intros [Ht%bool_decide_eq_true Hok]%andb_true_iff Hm.
    unfold begin_txn. case_bool_decide; [done|]. destruct (t <=? committed_txn m); [done|].
    destruct (add_active_txn kv t t) as [kv' [[]|e]] eqn:E; [|done].
    unfold mirrored in *; cbn in *. rewrite fmap_insert. by eapply records_insert.
  - intros _ Hm. unfold record_read. destruct (active_txns m !! t) eqn:E; [|done].
    by eapply mirrored_update.
  - intros _ Hm. unfold record_write. destruct (active_txns m !! t) eqn:E; [|done].
    by eapply mirrored_update.
  - intros [Ht%bool_decide_eq_true Hok]%andb_true_iff Hm.
    pose proof (commit_txn_cases m t kv ia ts now) as Hc.
    destruct (commit_txn m t kv ia ts now) as [[m' kv'] r]; cbn [fst snd] in *.
    destruct (active_txns m !! t) as [meta|]; [|destruct Hc as [[= -> ->] _]; done].
    destruct Hc as [-> [(_ & -> & _)|(_ & -> & _)]];
      (eapply mirrored_remove; [done| |done|done]); [done|apply apply_commit_fields].
  - intros [Ht%bool_decide_eq_true Hok]%andb_true_iff Hm.
    unfold rollback_txn, abort_txn.
    pose proof (mirrored_remove m kv (forget_txn m t) t Ht eq_refl Hok Hm) as Hr.
    by destruct (remove_active_txn kv t).
  - done.
  - done.
  - intros _ Hm. unfold mirrored in *. cbn in *. by destruct (recover_history_fields m hist ov wal now) as (-> & _).
  - done.
Qed.

Lemma exec_ops_mirrored ops s :
  all_persist s ops = true → mirrored s → mirrored (foldl exec_op s ops).
Proof.
  revert s. induction ops as [|op ops IH]; intros s; cbn; [done|].
  intros [H1' H2']%andb_true_iff Hm. apply IH; [done|]. by apply exec_op_mirrored.
Qed.
End mirror.

(** * Properties *)

(** C2: SSI conflict detection is sound and complete for every iteration order
    of the hash maps: it raises a flag exactly when some other active,
    non-recovered transaction wrote a key this one read, or read or wrote a key
    this one wrote; and the transaction it reports is such a transaction. *)
Theorem ssi_detection_exact `{HashIter} m t meta :
  ((detect_conflict m t meta).1.1 || (detect_conflict m t meta).1.2 = true ↔
     ∃ o, conflicts_with m t meta o) ∧
  ((detect_conflict m t meta).1.1 || (detect_conflict m t meta).1.2 = true →
     conflicts_with m t meta (detect_conflict m t meta).2).
Proof.
  destruct (detect_conflict m t meta) as [[rw ww] o] eqn:E; cbn [fst snd].
  apply detect_conflict_spec in E as [Hc Hn]. split; [|done]. split; [eauto|].
  intros [o' Ho']. destruct (rw || ww); [done|]. by destruct (Hn eq_refl o').
Qed.

(** C3: [commit_txn] of an active transaction has exactly two outcomes: in
    conflict, the transaction is dropped from the active and recovered sets, the
    history is untouched and the call fails; otherwise it leaves the active set,
    [committed_txn] becomes the maximum and the call returns the snapshot of the
    new state unless the store's delete fails.  A transaction that is not active
    changes nothing and fails. *)
Theorem commit_txn_outcome `{HashIter} `{KVEngine KV} `{Codec (Z * Z)} m t (kv : KV) ia ts now :
  match active_txns m !! t with
  | None => (commit_txn m t kv ia ts now).1 = (m, kv) ∧ is_ok (commit_txn m t kv ia ts now).2 = false
  | Some meta =>
      let m' := (commit_txn m t kv ia ts now).1.1 in
      (commit_txn m t kv ia ts now).1.2 = (remove_active_txn kv t).1 ∧
      active_txns m' = delete t (active_txns m) ∧
      recovered_txns m' = recovered_txns m ∖ {[t]} ∧
      ((∃ o, conflicts_with m t meta o) ∧ committed_history m' = committed_history m ∧
         committed_txn m' = committed_txn m ∧ is_ok (commit_txn m t kv ia ts now).2 = false
       ∨ (∀ o, ¬ conflicts_with m t meta o) ∧ committed_txn m' = Z.max (committed_txn m) t ∧
         (commit_txn m t kv ia ts now).2 =
           result_bind (remove_active_txn kv t).2 (λ _, Ok (snapshot m' Snapshot)))
  end.
Proof.
  pose proof (commit_txn_cases m t kv ia ts now) as Hc.
  destruct (active_txns m !! t) as [meta|] eqn:E; [|done].
  destruct Hc as [Hkv [(Ho & -> & Hr)|(Ho & Hm & Hr)]]; cbn zeta.
  - split_and!; [done|done|done|]. left. split_and!; done.
  - rewrite Hm. destruct (apply_commit_fields m t ia ts now) as (-> & -> & _ & _ & -> & _).
    split_and!; [done|done|done|]. right. split_and!; done.
Qed.

(** C4: in every state that any operations lead to from a new manager, those of a
    restart included and whether the store fails or not, the recovered transactions
    are active and are exactly the ones so flagged, and every active transaction is in
    state [Active] with no commit timestamp; from every such state a commit that
    returns [Ok] leaves the history within its configured limit, also when a recovery
    had filled it beyond.  When the restarts were consistent (the committed transaction
    is not set before the history, a recovered history is within the limit and has no
    transaction in common with the active ones), every transaction of the history is
    at most [committed_txn] and not active, and the history is within its limit. *)
Theorem reachable_mvcc_inv `{HashIter} `{KVEngine KV} `{Codec (Z * Z)} cfg (kv : KV) s :
  0 ≤ max_history_entries cfg →
  (reachable (λ _, op_typed) (VisibilityManager_new_with_config cfg, kv) s →
     active_inv s.1 ∧
     ∀ t ia ts now, is_ok (commit_txn s.1 t s.2 ia ts now).2 = true →
       let m' := (commit_txn s.1 t s.2 ia ts now).1.1 in
       Z.of_nat (size (committed_history m')) ≤ max_history_entries (config m')) ∧
  (reachable op_consistent (VisibilityManager_new_with_config cfg, kv) s → history_inv s.1).
Proof.
  intros H0'. split.
  - intros [Ha Hc]%reachable_active_inv; [|done]. split; [done|]. intros t ia ts now. by apply commit_bounds_history.
  - intros Hr. by eapply reachable_history_inv.
Qed.

(** A restart that recovers transaction 5 as active and more history than the limit,
    and a commit afterwards. *)
Definition restarted : VisibilityManager * MemKV :=
  exec_op (exec_op (exec_op (VisibilityManager_new_with_config {| max_history_entries := 2; history_ttl_secs := 3600 |}, mem_empty)
    (OpRecoverHistory [(1, 1); (2, 2); (3, 3)] None ∅ 5)) (OpRecoverActive [(5, 5)])) (OpBegin 7).
Lemma reachable_mvcc_inv_witness :
  (active_inv restarted.1 ∧ Z.of_nat (size (committed_history restarted.1)) = 3 ∧
   let m' := (commit_txn restarted.1 7 restarted.2 5 6 8).1.1 in
   Z.of_nat (size (committed_history m')) ≤ max_history_entries (config m')) ∧
  history_inv (exec_op (exec_op (VisibilityManager_new, mem_empty) (OpBegin 7)) (OpCommit 7 5 6 8)).1.
Proof.
  split.
  - destruct (proj1 (reachable_mvcc_inv {| max_history_entries := 2; history_ttl_secs := 3600 |} mem_empty restarted ltac:(done))) as [Ha Hb];
      [by repeat (apply reachable_step; [|done]); apply reachable_init|].
    assert (is_ok (commit_txn restarted.1 7 restarted.2 5 6 8).2 = true) as Hok by (vm_compute; reflexivity).
    split_and!; [exact Ha|vm_compute; reflexivity|exact (Hb 7 5 6 8 Hok)].
  - apply (proj2 (reachable_mvcc_inv VisibilityConfig_default mem_empty _ ltac:(done))).
    by repeat (apply reachable_step; [|done]); apply reachable_init.
Defined.

(** C5: after any sequence of operations on a new manager and a store without
    active records in which the store's writes succeed and which does not recover an
    active set, [get_active_txns] on the store returns exactly the manager's active
    transactions with their begin timestamps: the list that a restart reads. *)
Theorem active_set_persisted `{HashIter} `{KVEngineLaws KV} `{CodecLaws (Z * Z)}
    cfg (kv : KV) ops l :
  (∀ k v, kv_abs kv CF_MVCC !! k = Some v → ¬ KEY_ACTIVE_TXNS `prefix_of` k) →
  all_persist (VisibilityManager_new_with_config cfg, kv) ops = true →
  kv_prefix (foldl exec_op (VisibilityManager_new_with_config cfg, kv) ops).2
    CF_MVCC KEY_ACTIVE_TXNS = Ok l →
  ∃ ps, get_active_txns (foldl exec_op (VisibilityManager_new_with_config cfg, kv) ops).2 = Ok ps ∧
    ∀ t b, (t, b) ∈ ps ↔
      get_begin_ts (foldl exec_op (VisibilityManager_new_with_config cfg, kv) ops).1 t = Some b.
Proof.
  intros Hnone Hp Hl. unfold get_begin_ts. setoid_rewrite <- lookup_fmap.
  eapply get_active_txns_records; [|exact Hl]. apply exec_ops_mirrored; [done|].
  split; cbn; rewrite fmap_empty; [apply map_Forall_empty|].
  intros k v. split; [intros [Hk Hpre]; by destruct (Hnone _ _ Hk)|].
  intros (t & x & Hx & _). by rewrite lookup_empty in Hx.
Qed.

Lemma active_set_persisted_witness :
  ∃ ps, get_active_txns (foldl exec_op (VisibilityManager_new, mem_empty)
          [OpBegin 7; OpBegin 9; OpWrite 9 [1]; OpCommit 7 5 6 8]).2 = Ok ps ∧
    ∀ t b, (t, b) ∈ ps ↔ get_begin_ts (foldl exec_op (VisibilityManager_new, mem_empty)
          [OpBegin 7; OpBegin 9; OpWrite 9 [1]; OpCommit 7 5 6 8]).1 t = Some b.
Proof.
  eapply (active_set_persisted VisibilityConfig_default mem_empty).
  - intros k v Hk. change ((∅ : gmap bytes bytes) !! k = Some v) in Hk. by rewrite lookup_empty in Hk.
  - vm_compute. reflexivity.
  - vm_compute. reflexivity.
Defined.



(** Pruning keeps the history within its limit and only drops entries: what
    it keeps was in the history and was inserted at or after the cutoff; and an
    entry at or after the cutoff that it drops is not newer than any it keeps. *)
Theorem prune_history_spec `{HashIter} m now :
  0 ≤ max_history_entries (config m) →
  Z.of_nat (size (committed_history (prune_history m now))) ≤ max_history_entries (config m) ∧
  (∀ t v, committed_history (prune_history m now) !! t = Some v →
     committed_history m !! t = Some v ∧ prune_cutoff (config m) (replay_watermark m) now ≤ v.2) ∧
  (∀ t v t' v', committed_history m !! t = Some v →
     prune_cutoff (config m) (replay_watermark m) now ≤ v.2 →
     committed_history (prune_history m now) !! t = None →
     committed_history (prune_history m now) !! t' = Some v' → v.2 ≤ v'.2).
Proof.
  intros H0'. split_and!; [by apply prune_history_size|by intros; apply lookup_prune_history|].
  intros t v t' v' Ht Hcut Hnone [Hkept _]%map_lookup_filter_Some.
  eapply (prune_by_count_fifo (config m)); [done|exact Ht| |exact Hkept].
  apply eq_None_not_Some. intros [w Hw].
  assert (w = v) as ->.
  { eapply map_subseteq_spec in Hw; [|by apply prune_by_count_subseteq]. congruence. }
  apply (eq_None_not_Some (committed_history (prune_history m now) !! t)); [done|].
  exists v. by apply map_lookup_filter_Some.
Qed.

Lemma prune_history_spec_witness :
  Z.of_nat (size (committed_history (prune_history
    (with_history (VisibilityManager_new_with_config
       {| max_history_entries := 2; history_ttl_secs := 3600 |})
       {[1 := (1, 10); 2 := (2, 20); 3 := (3, 30)]}) 40))) ≤ 2.
Proof. apply prune_history_spec. done. Defined.

(** Pruning removes every entry inserted before the replay watermark. *)
Theorem prune_evicts_below_watermark `{HashIter} m now t v :
  0 ≤ max_history_entries (config m) →
  committed_history m !! t = Some v → v.2 < replay_watermark m →
  committed_history (prune_history m now) !! t = None.
Proof.
  intros H0' Ht Hw. apply eq_None_not_Some. intros [v' Hv'].
  apply lookup_prune_history in Hv' as [Ht' Hc]; [|done]. simplify_eq.
  unfold prune_cutoff in Hc. lia.
Qed.

Lemma prune_evicts_below_watermark_witness :
  committed_history (prune_history (set_replay_watermark
    (with_history VisibilityManager_new {[1 := (1, 10)]}) 11) 12) !! 1 = None.
Proof.
  apply (prune_evicts_below_watermark _ _ _ (1, 10)); [done|reflexivity|done].
Defined.

(** What a commit makes visible.  For an active transaction without
    conflict, below the history limit and not older than the pruning cutoff, the
    transaction's rows are visible in the snapshot the commit returns exactly
    when the clock reading used as its commit timestamp is at most the largest
    committed transaction id: the comparison mixes the two units. *)
Theorem commit_visible_iff_clock `{HashIter} `{KVEngine KV} `{Codec (Z * Z)}
    m t (kv : KV) ia ts now meta :
  Z.of_nat (size (committed_history m)) < max_history_entries (config m) →
  prune_cutoff (config m) (replay_watermark m) now ≤ ia →
  active_txns m !! t = Some meta → (∀ o, ¬ conflicts_with m t meta o) →
  is_ok (remove_active_txn kv t).2 = true →
  ∃ snap, (commit_txn m t kv ia ts now).2 = Ok snap ∧
    is_visible m snap t None = (ts <=? Z.max (committed_txn m) t).
Proof.
  intros Hsz Hcut Hact Hno Hok. pose proof (commit_txn_cases m t kv ia ts now) as Hc.
  rewrite Hact in Hc. destruct Hc as [_ [([o Ho] & _)|(_ & _ & Hr)]]; [by destruct (Hno o)|].
  destruct (remove_active_txn kv t) as [kv' [[]|e]]; [|done]. cbn in Hr.
  exists (snapshot (apply_commit m t ia ts now) Snapshot). split; [done|].
  destruct (apply_commit_fields m t ia ts now) as (Ea & _ & _ & _ & Et & Eh).
  unfold is_visible. apply lawful_filter_eq. unfold row_visible, snapshot, snapshot_with_commit_ts_map.
  cbn [snapshot_id snap_active_txns snap_commit_ts_map].
  rewrite committed_at_upto, Ea, Et, Eh, dom_delete_L, Z.leb_le.
  unfold prune_history; cbn [committed_history with_history config replay_watermark].
  rewrite prune_by_count_id.
  2:{ rewrite map_size_insert. destruct (committed_history m !! t); cbn; lia. }
  split.
  - intros (_ & _ & (ts' & ia' & [Hl _]%map_lookup_filter_Some & Hts) & _).
    rewrite lookup_insert_eq in Hl. simplify_eq. done.
  - intros Hts. split_and!; [lia|set_solver| |done]. exists ts, ia. split; [|done].
    apply map_lookup_filter_Some. by rewrite lookup_insert_eq.
Qed.

Lemma commit_visible_iff_clock_witness :
  ∃ snap, (commit_txn (begin_txn VisibilityManager_new 7 mem_empty).1.1 7
             (begin_txn VisibilityManager_new 7 mem_empty).1.2
             1700000000000 1700000000000 1700000000000).2 = Ok snap ∧
    is_visible (begin_txn VisibilityManager_new 7 mem_empty).1.1 snap 7 None = false.
Proof.
  eapply commit_visible_iff_clock.
  - vm_compute. reflexivity.
  - vm_compute. discriminate.
  - vm_compute. reflexivity.
  - intros o (om & Ho & Hne & _). vm_compute in Ho.
    change (({[7 := TxnMeta_new 7]} : gmap Z TxnMeta) !! o = Some om) in Ho.
    apply lookup_singleton_Some in Ho as [<- _]. done.
  - vm_compute. reflexivity.
Defined.

(** Recovery restores what the manager recorded: replaying
    [committed_history_entries] into any manager gives the same commit timestamp
    for every transaction and a [committed_txn] at least as large as each of
    them, and replaying [active_txn_entries] gives the same active set with the
    same begin timestamps, every entry marked recovered. *)
Theorem recovery_roundtrip `{HashIter} m m0 now :
  (∀ t, get_commit_ts (recover_committed_history m (committed_history_entries m0) now) t
        = get_commit_ts m0 t) ∧
  committed_txn (recover_committed_history m (committed_history_entries m0) now)
    = foldl Z.max (committed_txn m) (committed_history_entries m0).*1 ∧
  (∀ t, get_begin_ts (recover_active_txns m (active_txn_entries m0)) t = get_begin_ts m0 t) ∧
  recovered_txns (recover_active_txns m (active_txn_entries m0)) = dom (active_txns m0).
Proof.
  unfold get_commit_ts, get_begin_ts, recover_committed_history,
    committed_history_entries, active_txn_entries. split_and!.
  - intros t. rewrite recover_history_lookup, (list_to_map_sorted_entries fst).
    by destruct (committed_history m0 !! t).
  - apply recover_history_committed.
  - intros t. rewrite recover_active_lookup, (list_to_map_sorted_entries begin_ts).
    by destruct (active_txns m0 !! t).
  - rewrite recover_active_recovered. apply set_eq. intros t.
    rewrite elem_of_list_to_set, sort_by_perm, <- list_fmap_compose, elem_of_dom.
    rewrite list_elem_of_fmap. split.
    + intros ([t' meta] & -> & Hin%elem_of_hash_iter). by eexists.
    + intros [meta Hl]. exists (t, meta). split; [done|]. by apply elem_of_hash_iter.
Qed.
