(* ===== verification/Roaring.v ===== *)
(** The compressed bitmaps of the [croaring] library, as an interface: the
    operations the sources call, with their documented behaviour, and a concrete
    instance for evaluation. *)

From stdpp Require Import base gmap list sorting.
From S2P Require Import Prelude.

Local Open Scope Z_scope.

(** [croaring::Bitmap], a set of [u32]: [bm_iter] yields the members in
    ascending order; [bm_deserialize] is total ([Bitmap::deserialize] returns an
    empty bitmap on bytes it cannot read). *)
Class Roaring (B : Type) := {
  bm_new : B;
  bm_add : Z → B → B;
  bm_remove : Z → B → B;
  bm_contains : Z → B → bool;
  bm_cardinality : B → Z;
  bm_range_cardinality : B → Z → Z → Z;
  bm_or : B → B → B;
  bm_iter : B → list Z;
  bm_serialize : B → bytes;
  bm_deserialize : bytes → B
}.
#[global] Hint Mode Roaring ! : typeclass_instances.

(** The members as a finite set. *)
Definition bm_set {B} `{Roaring B} (b : B) : gset Z := list_to_set (bm_iter b).

Class RoaringLaws (B : Type) `{Roaring B} := {
  bm_iter_sorted : ∀ b : B, StronglySorted Z.lt (bm_iter b);
  bm_new_set : bm_set (bm_new (B := B)) = ∅;
  bm_add_set : ∀ x (b : B), bm_set (bm_add x b) = {[x]} ∪ bm_set b;
  bm_remove_set : ∀ x (b : B), bm_set (bm_remove x b) = bm_set b ∖ {[x]};
  bm_contains_set : ∀ x (b : B), bm_contains x b = bool_decide (x ∈ bm_set b);
  bm_cardinality_set : ∀ b : B, bm_cardinality b = Z.of_nat (size (bm_set b));
  bm_range_cardinality_iter : ∀ (b : B) lo hi,
    bm_range_cardinality b lo hi = zlen (filter (λ x, lo ≤ x < hi) (bm_iter b));
  bm_or_set : ∀ a b : B, bm_set (bm_or a b) = bm_set a ∪ bm_set b;
  bm_roundtrip : ∀ b : B, (∀ x, x ∈ bm_set b → is_u32 x) →
    bm_set (bm_deserialize (B := B) (bm_serialize b)) = bm_set b
}.
#[global] Hint Mode RoaringLaws ! - : typeclass_instances.

(** [Bitmap::from_iter]. *)
Definition bm_from_iter {B} `{Roaring B} (xs : list Z) : B :=
  foldl (λ b x, bm_add x b) bm_new xs.

Section roaring.
Context `{RoaringLaws B}.
Implicit Types b : B.

Lemma elem_of_bm_iter b x : x ∈ bm_iter b ↔ x ∈ bm_set b.
Proof. unfold bm_set. by rewrite elem_of_list_to_set. Qed.

Lemma bm_iter_NoDup b : NoDup (bm_iter b).
Proof. apply bs_sorted_NoDup, bm_iter_sorted. Qed.

Lemma bm_cardinality_iter b : bm_cardinality b = zlen (bm_iter b).
Proof.
  rewrite bm_cardinality_set. unfold bm_set, zlen. rewrite size_list_to_set; [done|apply bm_iter_NoDup].
Qed.

Lemma bm_from_iter_set xs : bm_set (bm_from_iter (B := B) xs) = list_to_set xs.
Proof.
  unfold bm_from_iter. rewrite <- (right_id_L ∅ (∪) (list_to_set xs)).
  rewrite <- (bm_new_set (B := B)). generalize (bm_new (B := B)).
  induction xs as [|x xs IH]; intros b; cbn [foldl list_to_set]; [set_solver|].
  rewrite IH, bm_add_set. set_solver.
Qed.

(** Two ascending lists with the same members are equal: iteration order and
    content are determined by the set. *)
Lemma bm_iter_from_singleton x : bm_iter (bm_from_iter (B := B) [x]) = [x].
Proof.
  pose proof (bm_from_iter_set [x]) as Hs. pose proof (bm_iter_sorted (bm_from_iter (B := B) [x])) as Hst.
  assert (∀ y, y ∈ bm_iter (bm_from_iter (B := B) [x]) ↔ y = x) as Hin.
  { intros y. rewrite elem_of_bm_iter, Hs. set_solver. }
  destruct (bm_iter _) as [|a [|a' l]].
  - exfalso. by apply (not_elem_of_nil x), Hin.
  - f_equal. apply Hin. set_solver.
  - inversion Hst as [|? ? _ Hlt]; subst. apply Forall_cons in Hlt as [Hlt _].
    assert (a = x) by (apply Hin; set_solver). assert (a' = x) by (apply Hin; set_solver). lia.
Qed.
End roaring.

(** ** Sorted lists as bitmaps *)

Fixpoint sl_words (n : nat) (bs : bytes) : list Z :=
  match n with
  | O => []
  | S n' => from_le_bytes (take 4 bs) :: sl_words n' (drop 4 bs)
  end.

(** A sorted list of members, kept sorted by construction. *)
Record SortedBitmap := { sb_list : list Z; sb_sorted : StronglySorted Z.lt sb_list }.

Definition sb_new : SortedBitmap := {| sb_list := []; sb_sorted := SSorted_nil _ |}.
Definition sb_add (x : Z) (b : SortedBitmap) : SortedBitmap :=
  {| sb_list := bs_insert x (sb_list b); sb_sorted := bs_insert_sorted x _ (sb_sorted b) |}.
Definition sb_remove (x : Z) (b : SortedBitmap) : SortedBitmap :=
  {| sb_list := filter (λ y, y ≠ x) (sb_list b); sb_sorted := bs_filter_sorted _ _ (sb_sorted b) |}.

#[export] Instance SortedBitmap_roaring : Roaring SortedBitmap := {
  bm_new := sb_new;
  bm_add := sb_add;
  bm_remove := sb_remove;
  bm_contains x b := bool_decide (x ∈ sb_list b);
  bm_cardinality b := zlen (sb_list b);
  bm_range_cardinality b lo hi := zlen (filter (λ x, lo ≤ x < hi) (sb_list b));
  bm_or a b := foldl (λ b x, sb_add x b) a (sb_list b);
  bm_iter := sb_list;
  bm_serialize b := concat (to_le_bytes 4 <$> sb_list b);
  bm_deserialize bs := foldl (λ b x, sb_add x b) sb_new (sl_words (length bs / 4) bs)
}.

Lemma sl_words_concat l : Forall is_u32 l →
  sl_words (length (concat (to_le_bytes 4 <$> l)) / 4) (concat (to_le_bytes 4 <$> l)) = l.
Proof.
  assert (length (concat (to_le_bytes 4 <$> l)) = length l * 4)%nat as ->.
  { induction l as [|x l IH]; [done|].
    rewrite fmap_cons. cbn [concat length]. rewrite length_app, IH, to_le_bytes_length. lia. }
  rewrite Nat.div_mul by done.
  induction 1 as [|x l Hx _ IH]; [done|]. rewrite fmap_cons. cbn [length concat sl_words].
  assert (length (to_le_bytes 4 x) = 4)%nat as Hl by apply to_le_bytes_length.
  rewrite take_app_length' by done. rewrite drop_app_length' by done.
  rewrite IH, from_to_le_bytes; [done|]. unfold is_u32, u32_max in Hx. cbn. lia.
Qed.

#[export] Instance SortedBitmap_laws : RoaringLaws SortedBitmap.
Proof.
  assert (∀ l b y, y ∈ sb_list (foldl (λ b x, sb_add x b) b l) ↔ y ∈ l ∨ y ∈ sb_list b) as Hfold.
  { induction l as [|x l IH]; intros b y; cbn [foldl]; [set_solver|].
    rewrite IH. cbn [sb_list sb_add]. rewrite bs_insert_elem. set_solver. }
  split; unfold bm_set; cbn -[sl_words Nat.div to_le_bytes concat].
  - apply sb_sorted.
  - done.
  - intros x b. apply set_eq. intros y. rewrite !elem_of_list_to_set, bs_insert_elem. set_solver.
  - intros x b. apply set_eq. intros y.
    rewrite elem_of_difference, !elem_of_list_to_set, list_elem_of_filter. set_solver.
  - intros x b. apply bool_decide_ext. by rewrite elem_of_list_to_set.
  - intros b. unfold zlen. rewrite size_list_to_set; [done|].
    apply bs_sorted_NoDup, sb_sorted.
  - done.
  - intros a b. apply set_eq. intros y. rewrite elem_of_union, !elem_of_list_to_set, Hfold. tauto.
  - intros b Hb. apply set_eq. intros y. rewrite !elem_of_list_to_set, Hfold, sl_words_concat.
    + cbn. set_solver.
    + apply Forall_forall. intros x Hx. apply Hb. by rewrite elem_of_list_to_set.
Qed.
