(* ===== verification/Arrow.v ===== *)
(** Columnar arrays of the [arrow] crates, as an interface: the types the sources
    distinguish, slot values, the kernels they call with their documented
    behaviour, and a concrete instance for evaluation. *)

From stdpp Require Import base gmap strings list.
From S2P Require Import Prelude.

Local Open Scope Z_scope.

(** The Arrow types that the sources' type switches distinguish. *)
Inductive DataType :=
  | Int8 | Int16 | Int32 | Int64 | UInt8 | UInt16 | UInt32 | UInt64
  | Float16 | Float32 | Float64 | Boolean
  | Utf8 | LargeUtf8 | Utf8View | Binary | LargeBinary | BinaryView
  | FixedSizeBinary (size : Z)
  | Decimal32 | Decimal64 | Decimal128 | Decimal256
  | Date32 | Date64 | Timestamp (unit : string) | Time32 | Time64
  | Interval | Duration
  | Dictionary (key : DataType)
  | Null | OtherType (name : string).

#[export] Instance DataType_eq_dec : EqDecision DataType.
Proof. solve_decision. Defined.

(** A slot's value: an integer, the bit pattern of a float, a boolean, a string
    or a byte string. *)
Inductive Value :=
  | VInt (z : Z)
  | VFloat (bits : Z)
  | VBool (b : bool)
  | VStr (s : string)
  | VBin (bs : bytes).

#[export] Instance Value_eq_dec : EqDecision Value.
Proof. solve_decision. Defined.

(** The operations the sources call, at an array type [Arr]: [arr_value] is
    [value(i)] of the typed array, [arr_take] the [take] kernel (without bounds
    checks an index out of range panics), [arr_build] a typed builder given a
    value or a null for every slot, [arr_null] an array of nulls, and [arr_ipc]
    the first column of an IPC file. *)
Class Arrow (Arr : Type) := {
  arr_len : Arr → Z;
  arr_type : Arr → DataType;
  arr_value : Arr → Z → Value;
  arr_is_null : Arr → Z → bool;
  arr_take : Arr → list Z → outcome (result string Arr);
  arr_build : DataType → list (option Value) → Arr;
  arr_null : DataType → Z → Arr;
  arr_ipc : bytes → Result (option Arr)
}.
#[global] Hint Mode Arrow ! : typeclass_instances.

(** What a reader sees in slot [i]. *)
Definition arr_slot {Arr} `{Arrow Arr} (a : Arr) (i : Z) : option Value :=
  if arr_is_null a i then None else Some (arr_value a i).

Class ArrowLaws (Arr : Type) `{Arrow Arr} := {
  arr_len_nonneg : ∀ a : Arr, 0 ≤ arr_len a;
  arr_take_in_range : ∀ (a : Arr) idx, Forall (λ i, 0 ≤ i < arr_len a) idx →
    ∃ r, arr_take a idx = Done (Ok r) ∧ arr_len r = zlen idx ∧ arr_type r = arr_type a ∧
      ∀ k i, idx !! k = Some i →
        arr_value r (Z.of_nat k) = arr_value a i ∧ arr_is_null r (Z.of_nat k) = arr_is_null a i;
  arr_build_len : ∀ t vs, arr_len (arr_build (Arr := Arr) t vs) = zlen vs;
  arr_build_type : ∀ t vs, arr_type (arr_build (Arr := Arr) t vs) = t;
  arr_build_slot : ∀ t vs k v, vs !! k = Some v →
    arr_slot (arr_build (Arr := Arr) t vs) (Z.of_nat k) = v
}.
#[global] Hint Mode ArrowLaws ! - : typeclass_instances.

(** ** Record batches *)

Record Field := { f_name : string; f_type : DataType; f_nullable : bool }.

Record RecordBatch (Arr : Type) := { rb_fields : list Field; rb_columns : list Arr; rb_rows : Z }.
Arguments Build_RecordBatch {_} _ _ _.
Arguments rb_fields {_} _.
Arguments rb_columns {_} _.
Arguments rb_rows {_} _.

(** [RecordBatch::try_new] and the kernel [filter_record_batch]. *)
Class Batches (Arr : Type) := {
  try_new : list Field → list Arr → result string (RecordBatch Arr);
  filter_record_batch : RecordBatch Arr → list bool → result string (RecordBatch Arr)
}.
#[global] Hint Mode Batches ! : typeclass_instances.

(** All slots of an array. *)
Definition slots {Arr} `{Arrow Arr} (a : Arr) : list (option Value) := arr_slot a <$> seqZ 0 (arr_len a).

Lemma zlen_slots `{ArrowLaws Arr} (a : Arr) : zlen (slots a) = arr_len a.
Proof. unfold slots, zlen. rewrite length_fmap, length_seqZ. pose proof (arr_len_nonneg a). lia. Qed.

(** A column of [n] rows that its field admits. *)
Definition fits {Arr} `{Arrow Arr} (n : Z) (f : Field) (c : Arr) : Prop :=
  arr_len c = n ∧ arr_type c = f_type f ∧ (f_nullable f = false → None ∉ slots c).

Definition batch_wf {Arr} `{Arrow Arr} (b : RecordBatch Arr) : Prop :=
  Forall2 (fits (rb_rows b)) (rb_fields b) (rb_columns b).

(** The elements whose flag is set. *)
Fixpoint mask_filter {A} (mask : list bool) (l : list A) : list A :=
  match mask, l with
  | true :: mask', x :: l' => x :: mask_filter mask' l'
  | false :: mask', _ :: l' => mask_filter mask' l'
  | _, _ => []
  end.

(** [try_new] accepts columns that fit their fields and refuses columns of other
    types; the filter kernel keeps, in
    every column, the rows whose flag is set, and refuses a mask that is longer
    than the batch. *)
Class BatchesLaws (Arr : Type) `{Arrow Arr, Batches Arr} := {
  try_new_ok : ∀ fs (cs : list Arr) n, cs ≠ [] → Forall2 (fits n) fs cs →
    try_new fs cs = Ok (Build_RecordBatch fs cs n);
  try_new_types : ∀ fs (cs : list Arr) b, try_new fs cs = Ok b → f_type <$> fs = arr_type <$> cs;
  filter_record_batch_ok : ∀ (b : RecordBatch Arr) mask, batch_wf b → zlen mask = rb_rows b →
    ∃ b', filter_record_batch b mask = Ok b' ∧ rb_fields b' = rb_fields b ∧
      Forall2 (λ c' c, arr_len c' = rb_rows b' ∧ arr_type c' = arr_type c ∧
                       slots c' = mask_filter mask (slots c)) (rb_columns b') (rb_columns b);
  filter_record_batch_long : ∀ (b : RecordBatch Arr) mask, batch_wf b → rb_columns b ≠ [] → rb_rows b < zlen mask →
    ∃ e, filter_record_batch b mask = Err e
}.
#[global] Hint Mode BatchesLaws ! - - : typeclass_instances.

Lemma elem_of_mask_filter {A} (x : A) mask l : x ∈ mask_filter mask l → x ∈ l.
Proof.
  revert l. induction mask as [|[] mask IH]; intros [|y l]; cbn; rewrite ?elem_of_nil, ?elem_of_cons; naive_solver.
Qed.

(** ** Arrays of optional values *)

(** A null slot reads as zero; an IPC file of one column of integers is the byte
    1 followed by the values, one of byte strings the byte 2 followed by the
    strings, each behind its length. *)
Record ListArray := { la_type : DataType; la_slots : list (option Value) }.

Definition la_take (a : ListArray) (idx : list Z) : outcome (result string ListArray) :=
  match mapM (λ i, if i <? 0 then None else la_slots a !! Z.to_nat i) idx with
  | Some slots => Done (Ok {| la_type := la_type a; la_slots := slots |})
  | None => Panic
  end.

Definition frame (vs : list bytes) : bytes := vs ≫= (λ v, zlen v :: v).
Fixpoint unframe (fuel : nat) (bs : bytes) : list bytes :=
  match fuel, bs with
  | S fuel', n :: bs' => take (Z.to_nat n) bs' :: unframe fuel' (drop (Z.to_nat n) bs')
  | _, _ => []
  end.

Lemma unframe_frame vs fuel : (length (frame vs) ≤ fuel)%nat → unframe fuel (frame vs) = vs.
Proof.
  revert fuel. induction vs as [|v vs IH]; intros fuel Hf; [by destruct fuel|].
  unfold frame in *. cbn in *. destruct fuel as [|fuel]; [lia|]. cbn [unframe]. unfold zlen. rewrite Nat2Z.id.
  rewrite take_app_length, drop_app_length, IH; [done|]. rewrite length_app in Hf. lia.
Qed.

#[export] Instance ListArray_arrow : Arrow ListArray := {
  arr_len a := zlen (la_slots a);
  arr_type := la_type;
  arr_value a i := default (VInt 0) (mjoin (la_slots a !! Z.to_nat i));
  arr_is_null a i := bool_decide (mjoin (la_slots a !! Z.to_nat i) = None);
  arr_take := la_take;
  arr_build t vs := {| la_type := t; la_slots := vs |};
  arr_null t n := {| la_type := t; la_slots := replicate (Z.to_nat n) None |};
  arr_ipc bs := match bs with
                | 1 :: vs => Ok (Some {| la_type := Int64; la_slots := (λ z, Some (VInt z)) <$> vs |})
                | 2 :: vs => Ok (Some {| la_type := Binary;
                                         la_slots := (λ v, Some (VBin v)) <$> unframe (length vs) vs |})
                | _ => Err (ECodec "IPC read error")
                end
}.

Definition int_array (zs : list (option Z)) : ListArray :=
  {| la_type := Int64; la_slots := (λ z : option Z, VInt <$> z) <$> zs |}.

#[export] Instance ListArray_laws : ArrowLaws ListArray.
Proof.
  split; cbn.
  - intros a. apply zlen_nonneg.
  - intros a idx Hidx. unfold la_take.
    assert (∃ slots, mapM (λ i, if i <? 0 then None else la_slots a !! Z.to_nat i) idx = Some slots ∧
              Forall2 (λ i s, la_slots a !! Z.to_nat i = Some s) idx slots) as (slots & Hm & Hf).
    { induction Hidx as [|i idx Hi _ (slots & Hm & Hf)]; [by exists []|].
      unfold zlen in Hi. destruct (lookup_lt_is_Some_2 (la_slots a) (Z.to_nat i)) as [s Hs]; [lia|].
      exists (s :: slots). split; [|by constructor]. cbn. rewrite (proj2 (Z.ltb_ge _ _)) by lia.
      rewrite Hs; cbn. by rewrite Hm. }
    rewrite Hm. eexists. split; [done|]. cbn. split_and!.
    + unfold zlen. by rewrite (Forall2_length _ _ _ Hf).
    + done.
    + intros k i Hk. rewrite Nat2Z.id.
      destruct (Forall2_lookup_l _ _ _ _ _ Hf Hk) as (s & Hs & Hi). by rewrite Hs, Hi.
  - done.
  - done.
  - intros t vs k v Hk. unfold arr_slot; cbn. rewrite Nat2Z.id, Hk. by destruct v.
Qed.

Lemma slots_la (a : ListArray) : slots a = la_slots a.
Proof.
  unfold slots. cbn. apply list_eq. intros i. rewrite list_lookup_fmap.
  destruct (decide (i < length (la_slots a))%nat) as [Hi|Hi].
  - rewrite (proj2 (lookup_seqZ 0 _ i (Z.of_nat i))) by (unfold zlen; lia). unfold arr_slot; cbn.
    rewrite Nat2Z.id. destruct (lookup_lt_is_Some_2 _ _ Hi) as [s ->]. by destruct s.
  - rewrite !lookup_ge_None_2; [done|lia|]. rewrite length_seqZ. unfold zlen. lia.
Qed.

(** Batches of such arrays; a batch without columns is refused, as the library
    does without an explicit row count. *)
#[export] Instance ListArray_batches : Batches ListArray := {
  try_new fs cs := match cs with
                   | [] => Err "must either specify a row count or at least one column"
                   | c :: _ =>
                       if bool_decide (f_type <$> fs = la_type <$> cs) then Ok (Build_RecordBatch fs cs (arr_len c))
                       else Err "column types must match schema types"
                   end;
  filter_record_batch b mask :=
    if existsb (λ c, zlen (la_slots c) <? zlen mask) (rb_columns b)
    then Err "Filter predicate is larger than target array" else
    Ok {| rb_fields := rb_fields b;
          rb_columns := (λ c, {| la_type := la_type c; la_slots := mask_filter mask (la_slots c) |}) <$> rb_columns b;
          rb_rows := zlen (mask_filter mask mask) |}
}.

Lemma mask_filter_length {A} mask (l : list A) :
  length l = length mask → length (mask_filter mask l) = length (mask_filter mask mask).
Proof.
  revert l. enough (∀ A B (l : list A) (k : list B), length l = length mask → length k = length mask →
    length (mask_filter mask l) = length (mask_filter mask k)) as Hall by (intros; by apply Hall).
  induction mask as [|[] mask IH]; intros A' B' [|x l] [|y k]; cbn; intros; try done.
  - f_equal. apply IH; lia.
  - apply IH; lia.
Qed.

#[export] Instance ListArray_batches_laws : BatchesLaws ListArray.
Proof.
  split.
  - intros fs [|c cs] n Hne Hf; [done|].
    assert (f_type <$> fs = la_type <$> c :: cs) as Ht by (clear Hne; induction Hf as [|f0 c0 ?? (_ & Ht & _)]; [done|]; cbn in *; by f_equal).
    apply Forall2_cons_inv_r in Hf as (f & fs' & (Hl & _) & _ & ->). unfold try_new, ListArray_batches.
    rewrite bool_decide_true by done. by rewrite Hl.
  - intros fs [|c cs] b; [done|]. unfold try_new, ListArray_batches. by case_bool_decide.
  - intros b mask Hwf Hm. cbn. replace (existsb _ _) with false.
    2: { symmetry. apply not_true_iff_false. intros (c & [i Hi]%list_elem_of_In%list_elem_of_lookup_1 & Hc)%existsb_exists.
         destruct (Forall2_lookup_r _ _ _ _ _ Hwf Hi) as (f & _ & Hl & _). cbn in Hl. lia. }
    eexists. split; [done|]. split; [done|]. cbn [rb_columns rb_rows]. apply Forall2_fmap_l.
    apply Forall_Forall2_diag, Forall_forall. intros c [i Hi]%list_elem_of_lookup_1.
    destruct (Forall2_lookup_r _ _ _ _ _ Hwf Hi) as (f & _ & Hl & _). cbn in Hl.
    unfold compose. rewrite !slots_la. cbn. split; [|done]. unfold zlen. rewrite mask_filter_length; [done|].
    unfold zlen in *. lia.
  - intros b mask Hwf Hne Hlt. cbn. unfold batch_wf in Hwf. destruct (rb_columns b) as [|c cs]; [done|].
    apply Forall2_cons_inv_r in Hwf as (f & fs & (Hl & _) & _ & _). cbn in Hl |- *.
    rewrite (proj2 (Z.ltb_lt _ _)) by lia. by eexists.
Qed.
