(* ===== verification/DeltaTypes.v ===== *)
(** The delta storage types (storage/delta/types.rs): the point-update cell with
    its visibility test, and the patch format with its byte encoding. *)

From stdpp Require Import base gmap strings list.
From S2P Require Import Prelude Kv Visibility Roaring.

Local Open Scope Z_scope.

(** * Cells *)

Record DeltaCell := {
  seg_id : string;
  row_offset : Z;
  column : string;
  txn_id : TxnId;
  before : option bytes;
  after : option bytes;
  committed : bool;
  ts : Z
}.

#[export] Instance DeltaCell_eq_dec : EqDecision DeltaCell.
Proof. solve_decision. Defined.

Definition is_visible_at_commit (c : DeltaCell) (snapshot_txn : TxnId)
    (commit_ts_by_txn : gmap TxnId Z) (active : gset TxnId) : bool :=
  if snapshot_txn <? txn_id c then false else
  if bool_decide (txn_id c ∈ active) then false else
  match commit_ts_by_txn !! txn_id c with
  | Some commit_ts => commit_ts <=? snapshot_txn
  | None => false
  end.

Definition is_insert (c : DeltaCell) : bool :=
  bool_decide (before c = None) && bool_decide (is_Some (after c)).
Definition is_delete (c : DeltaCell) : bool :=
  bool_decide (is_Some (before c)) && bool_decide (after c = None).
Definition is_update (c : DeltaCell) : bool :=
  bool_decide (is_Some (before c)) && bool_decide (is_Some (after c)).

(** * Patches *)

Record ZoneMap := {
  min_txn : Z;
  max_txn : Z;
  affected_rows : Z;
  min_value : option bytes;
  max_value : option bytes
}.

Inductive DeltaPatchFormat :=
  | Sparse (positions values : bytes) (affected : Z)
  | Dense (values : bytes) (total_rows : Z) (patch_txn : TxnId).

Record DeltaPatch := {
  patch_seg_id : string;
  patch_column : string;
  patch_id : Z;
  txn_range : Z * Z;
  patch_format : DeltaPatchFormat;
  zone_map : ZoneMap
}.

Section format.
Context `{Roaring B}.

Definition sparse (positions : B) (values : bytes) : DeltaPatchFormat :=
  Sparse (bm_serialize positions) values (bm_cardinality positions).

Definition dense (values : bytes) (total_rows : Z) (t : TxnId) : DeltaPatchFormat :=
  Dense values total_rows t.

Definition affected_count (f : DeltaPatchFormat) : Z :=
  match f with
  | Sparse _ _ n => n
  | Dense _ n _ => n
  end.

Definition is_sparse (f : DeltaPatchFormat) : bool :=
  match f with Sparse _ _ _ => true | Dense _ _ _ => false end.
Definition is_dense (f : DeltaPatchFormat) : bool := negb (is_sparse f).

(** [b"RDELTA"] *)
Definition PATCH_MAGIC : bytes := as_bytes "RDELTA".

(** The payload, without the magic header: the form of the older files. *)
Definition patch_payload (f : DeltaPatchFormat) : bytes :=
  match f with
  | Sparse positions values _ =>
      [0] ++ to_le_bytes 4 (wrap32 (zlen positions)) ++ positions
          ++ to_le_bytes 4 (wrap32 (zlen values)) ++ values
  | Dense values total_rows t =>
      [1] ++ to_le_bytes 8 t ++ to_le_bytes 8 total_rows
          ++ to_le_bytes 4 (wrap32 (zlen values)) ++ values
  end.

Definition to_bytes (f : DeltaPatchFormat) : bytes := PATCH_MAGIC ++ [0] ++ patch_payload f.

Definition parse_sparse (bs : bytes) (fs : Z) : option DeltaPatchFormat :=
  if zlen bs <? fs + 9 then None else
  let pos_len := from_le_bytes (zslice bs (fs + 1) (fs + 5)) in
  if zlen bs <? fs + 5 + pos_len + 4 then None else
  let positions := zslice bs (fs + 5) (fs + 5 + pos_len) in
  let val_len_offset := fs + 5 + pos_len in
  let val_len := from_le_bytes (zslice bs val_len_offset (val_len_offset + 4)) in
  let values_offset := val_len_offset + 4 in
  if zlen bs <? values_offset + val_len then None else
  let values := zslice bs values_offset (values_offset + val_len) in
  Some (Sparse positions values (bm_cardinality (bm_deserialize (B := B) positions))).

Definition parse_dense (bs : bytes) (fs : Z) : option DeltaPatchFormat :=
  if zlen bs <? fs + 21 then None else
  let t := from_le_bytes (zslice bs (fs + 1) (fs + 9)) in
  let total_rows := from_le_bytes (zslice bs (fs + 9) (fs + 17)) in
  let val_len := from_le_bytes (zslice bs (fs + 17) (fs + 21)) in
  if zlen bs <? fs + 21 + val_len then None else
  Some (Dense (zslice bs (fs + 21) (fs + 21 + val_len)) total_rows t).

(** [bytes[offset]] panics when the file is the seven header bytes alone. *)
Definition from_bytes (bs : bytes) : outcome (option DeltaPatchFormat) :=
  match bs with
  | [] => Done None
  | _ =>
      let fs := if (7 <=? zlen bs) && bool_decide (take 6 bs = PATCH_MAGIC) then 7 else 0 in
      match bs !! Z.to_nat fs with
      | None => Panic
      | Some b =>
          if b =? 0 then Done (parse_sparse bs fs) else
          if b =? 1 then Done (parse_dense bs fs) else Done None
      end
  end.
End format.

(** * Proofs *)

Lemma is_visible_at_commit_row c sid cts active :
  is_visible_at_commit c sid cts active = true ↔ row_visible sid (txn_id c) None active cts.
Proof.
  unfold is_visible_at_commit, row_visible, committed_at.
  destruct (Z.ltb_spec sid (txn_id c)); [split; [done|lia]|].
  case_bool_decide; [naive_solver|].
  destruct (cts !! txn_id c) as [x|]; [rewrite Z.leb_le|]; naive_solver.
Qed.

Section format_proofs.
Context `{RoaringLaws B}.
Implicit Types f : DeltaPatchFormat.

(** What the constructors guarantee: byte lengths that fit their [u32] fields,
    [u64] numbers, and a cached count that is the bitmap's. *)
Definition wf_format (f : DeltaPatchFormat) : Prop :=
  match f with
  | Sparse positions values n =>
      is_u32 (zlen positions) ∧ is_u32 (zlen values) ∧
      n = bm_cardinality (bm_deserialize (B := B) positions)
  | Dense values total_rows t => is_u32 (zlen values) ∧ is_u64 total_rows ∧ is_u64 t
  end.

Lemma from_le_wrap32 x : is_u32 x → from_le_bytes (to_le_bytes 4 (wrap32 x)) = x.
Proof.
  unfold is_u32, u32_max, wrap32. intros Hx. rewrite Z.mod_small by lia.
  apply from_to_le_bytes. cbn. lia.
Qed.

Lemma from_le_u64 x : is_u64 x → from_le_bytes (to_le_bytes 8 x) = x.
Proof. unfold is_u64, u64_max. intros Hx. apply from_to_le_bytes. cbn. lia. Qed.

(** The slice of [bs] that starts after [pre] and is [ys]. *)
Lemma zslice_at (bs pre ys zs : bytes) n a b : bs = pre ++ ys ++ zs →
  a = zlen pre → b = zlen pre + zlen ys → b ≤ Z.of_nat n → zslice (take n bs) a b = ys.
Proof.
  intros -> -> -> Hn. pose proof (zlen_nonneg pre).
  rewrite zslice_take by lia. by apply zslice_mid.
Qed.

(** Side conditions of [zslice_at]: the text split around the slice, and its bounds. *)
Ltac slice_side :=
  match goal with
  | |- @eq (list _) ?bs _ => unfold bs, patch_payload; rewrite ?app_nil_r, <- ?app_assoc; reflexivity
  | |- _ => autorewrite with zlen; lia
  end.

(** Parsing a prefix of [pre ++ patch_payload f] from the end of [pre]: the whole
    text gives [f] back, a shorter one is rejected. *)
Lemma parse_sparse_prefix pre pos vals k n :
  wf_format (Sparse pos vals k) →
  (parse_sparse (B := B) (take n (pre ++ patch_payload (Sparse pos vals k))) (zlen pre) =
   if Z.of_nat n <? zlen (pre ++ patch_payload (Sparse pos vals k)) then None
   else Some (Sparse pos vals k)).
Proof.
  intros (Hp & Hv & ->). set (bs := pre ++ _).
  assert (zlen bs = zlen pre + 9 + zlen pos + zlen vals) as Hlen.
  { unfold bs, patch_payload. autorewrite with zlen. lia. }
  pose proof (zlen_nonneg pre); pose proof (zlen_nonneg pos); pose proof (zlen_nonneg vals).
  unfold parse_sparse. rewrite !zlen_take, Hlen.
  destruct (Z.ltb_spec (Z.min (Z.of_nat n) (zlen pre + 9 + zlen pos + zlen vals)) (zlen pre + 9));
    [zcase; done || lia|].
  rewrite (zslice_at bs (pre ++ [0]) (to_le_bytes 4 (wrap32 (zlen pos)))
             (pos ++ to_le_bytes 4 (wrap32 (zlen vals)) ++ vals)) by slice_side.
  rewrite from_le_wrap32 by done.
  destruct (Z.ltb_spec (Z.min (Z.of_nat n) (zlen pre + 9 + zlen pos + zlen vals))
              (zlen pre + 5 + zlen pos + 4)); [zcase; done || lia|].
  rewrite (zslice_at bs (pre ++ [0] ++ to_le_bytes 4 (wrap32 (zlen pos)) ++ pos)
             (to_le_bytes 4 (wrap32 (zlen vals))) vals) by slice_side.
  rewrite from_le_wrap32 by done.
  destruct (Z.ltb_spec (Z.min (Z.of_nat n) (zlen pre + 9 + zlen pos + zlen vals))
              (zlen pre + 5 + zlen pos + 4 + zlen vals)); [zcase; done || lia|].
  rewrite (zslice_at bs (pre ++ [0] ++ to_le_bytes 4 (wrap32 (zlen pos))) pos
             (to_le_bytes 4 (wrap32 (zlen vals)) ++ vals)) by slice_side.
  rewrite (zslice_at bs (pre ++ [0] ++ to_le_bytes 4 (wrap32 (zlen pos)) ++ pos
             ++ to_le_bytes 4 (wrap32 (zlen vals))) vals []) by slice_side.
  by rewrite (proj2 (Z.ltb_ge _ _)) by lia.
Qed.

Lemma parse_dense_prefix pre vals rows t n :
  wf_format (Dense vals rows t) →
  (parse_dense (take n (pre ++ patch_payload (Dense vals rows t))) (zlen pre) =
   if Z.of_nat n <? zlen (pre ++ patch_payload (Dense vals rows t)) then None
   else Some (Dense vals rows t)).
Proof.
  intros (Hv & Hr & Ht). set (bs := pre ++ _).
  assert (zlen bs = zlen pre + 21 + zlen vals) as Hlen.
  { unfold bs, patch_payload. autorewrite with zlen. lia. }
  pose proof (zlen_nonneg pre); pose proof (zlen_nonneg vals).
  unfold parse_dense. rewrite !zlen_take, Hlen.
  destruct (Z.ltb_spec (Z.min (Z.of_nat n) (zlen pre + 21 + zlen vals)) (zlen pre + 21));
    [zcase; done || lia|].
  rewrite (zslice_at bs (pre ++ [1] ++ to_le_bytes 8 t ++ to_le_bytes 8 rows)
             (to_le_bytes 4 (wrap32 (zlen vals))) vals) by slice_side.
  rewrite from_le_wrap32 by done.
  destruct (Z.ltb_spec (Z.min (Z.of_nat n) (zlen pre + 21 + zlen vals)) (zlen pre + 21 + zlen vals));
    [zcase; done || lia|].
  rewrite (zslice_at bs (pre ++ [1] ++ to_le_bytes 8 t ++ to_le_bytes 8 rows
             ++ to_le_bytes 4 (wrap32 (zlen vals))) vals []) by slice_side.
  rewrite (zslice_at bs (pre ++ [1] ++ to_le_bytes 8 t) (to_le_bytes 8 rows)
             (to_le_bytes 4 (wrap32 (zlen vals)) ++ vals)) by slice_side.
  rewrite (zslice_at bs (pre ++ [1]) (to_le_bytes 8 t)
             (to_le_bytes 8 rows ++ to_le_bytes 4 (wrap32 (zlen vals)) ++ vals)) by slice_side.
  rewrite !from_le_u64 by done. by rewrite (proj2 (Z.ltb_ge _ _)) by lia.
Qed.

(** Reading a prefix of a text whose format byte is at [zlen pre]. *)
Lemma from_bytes_prefix pre f n :
  wf_format f → (length pre < n)%nat →
  (if (7 <=? zlen (take n (pre ++ patch_payload f))) &&
      bool_decide (take 6 (take n (pre ++ patch_payload f)) = PATCH_MAGIC) then 7 else 0) = zlen pre →
  from_bytes (B := B) (take n (pre ++ patch_payload f)) =
  Done (if Z.of_nat n <? zlen (pre ++ patch_payload f) then None else Some f).
Proof.
  intros Hwf Hn Hfs. unfold from_bytes.
  assert (take n (pre ++ patch_payload f) !! length pre =
          Some (if is_sparse f then 0 else 1)) as Hb.
  { rewrite lookup_take_lt by done. rewrite lookup_app_r, Nat.sub_diag by done. by destruct f. }
  destruct (take n _) as [|b0 bs0] eqn:E; [done|]. rewrite Hfs, <- E in *.
  unfold zlen at 1. rewrite Nat2Z.id, Hb. destruct f as [pos vals k|vals rows t]; cbn [is_sparse].
  - cbn [Z.eqb]. by rewrite parse_sparse_prefix.
  - cbn [Z.eqb Pos.eqb]. by rewrite parse_dense_prefix.
Qed.

Lemma to_bytes_prefix f n : wf_format f → (7 < n)%nat →
  from_bytes (B := B) (take n (to_bytes f)) =
  Done (if Z.of_nat n <? zlen (to_bytes f) then None else Some f).
Proof.
  intros Hwf Hn.
  change (to_bytes f) with ((PATCH_MAGIC ++ [0]) ++ patch_payload f).
  apply from_bytes_prefix; [done|done|].
  assert (1 ≤ zlen (patch_payload f)).
  { destruct f as [pos vals k|vals rows t]; unfold patch_payload; autorewrite with zlen;
      [pose proof (zlen_nonneg pos)|]; pose proof (zlen_nonneg vals); lia. }
  rewrite take_take, Nat.min_l by lia. rewrite bool_decide_true by done.
  rewrite (proj2 (Z.leb_le _ _)); [done|]. autorewrite with zlen. change (zlen PATCH_MAGIC) with 6. lia.
Qed.

Lemma payload_prefix f : wf_format f →
  from_bytes (B := B) (patch_payload f) = Done (Some f).
Proof.
  intros Hwf. pose proof (from_bytes_prefix [] f (S (length (patch_payload f))) Hwf) as Hp.
  cbn [app] in Hp. rewrite firstn_all2 in Hp by lia. rewrite Hp.
  - rewrite (proj2 (Z.ltb_ge _ _)); [done|]. unfold zlen. lia.
  - cbn. lia.
  - rewrite bool_decide_false; [by rewrite andb_false_r|].
    destruct f; intros [= ?]; discriminate.
Qed.
Lemma from_to_bytes f : wf_format f → from_bytes (B := B) (to_bytes f) = Done (Some f).
Proof.
  intros Hwf. rewrite <- (firstn_all2 (to_bytes f) (n := S (7 + length (to_bytes f)))) by lia.
  rewrite to_bytes_prefix by (done || lia). rewrite (proj2 (Z.ltb_ge _ _)); [done|]. unfold zlen. lia.
Qed.
End format_proofs.

(** * Properties *)

(** A delta cell is visible exactly when the row contract of [VisFilter]
    makes a row created by the cell's transaction visible: not in the future, not
    active, and with a commit timestamp at or before the snapshot. *)
Theorem cell_visibility_is_row_visibility c sid cts active :
  is_visible_at_commit c sid cts active =
  VisibilityManager_is_row_visible VisibilityManager_new sid (txn_id c) None active cts.
Proof.
  symmetry. apply (lawful_filter_eq VisibilityManager_new). symmetry. apply is_visible_at_commit_row.
Qed.

(** C13: a patch round-trips through its file format, and so does the older form
    without the magic header. *)
Theorem patch_bytes_roundtrip `{RoaringLaws B} f :
  wf_format (B := B) f →
  from_bytes (B := B) (to_bytes f) = Done (Some f) ∧
  from_bytes (B := B) (patch_payload f) = Done (Some f).
Proof.
  intros Hwf. split; [by apply from_to_bytes|by apply payload_prefix].
Qed.

Lemma patch_bytes_roundtrip_witness :
  from_bytes (B := SortedBitmap)
    (to_bytes (sparse (bm_from_iter (B := SortedBitmap) [3; 70000]) [1; 2; 3]))
  = Done (Some (Sparse [3; 0; 0; 0; 112; 17; 1; 0] [1; 2; 3] 2)).
Proof.
  assert (sparse (bm_from_iter (B := SortedBitmap) [3; 70000]) [1; 2; 3] =
          Sparse [3; 0; 0; 0; 112; 17; 1; 0] [1; 2; 3] 2) as -> by reflexivity.
  apply patch_bytes_roundtrip. vm_compute. intuition discriminate.
Defined.

(** A partial write is detected: every strict prefix of a patch file is
    rejected without a panic, except the one that ends after the seven header
    bytes, on which reading the format byte panics. *)
Theorem patch_truncation_rejected `{RoaringLaws B} f n :
  wf_format (B := B) f → (n < length (to_bytes f))%nat →
  from_bytes (B := B) (take n (to_bytes f)) = if bool_decide (n = 7%nat) then Panic else Done None.
Proof.
  intros Hwf Hn. case_bool_decide as H7; [by subst|].
  destruct (Nat.lt_ge_cases 7 n) as [Hlt|Hge].
  - rewrite to_bytes_prefix by done. rewrite (proj2 (Z.ltb_lt _ _)); [done|]. unfold zlen. lia.
  - do 7 (destruct n as [|n]; [reflexivity|]). lia.
Qed.

Lemma patch_truncation_rejected_witness :
  from_bytes (B := SortedBitmap) (take 20 (to_bytes (dense [9; 9] 4 11))) = Done None.
Proof. apply patch_truncation_rejected; vm_compute; [intuition discriminate|lia]. Defined.
