(* ===== verification/DeltaMerge.v ===== *)
(** K-way merge of delta layers (storage/delta/merge.rs): the visible cells of
    all layers, one per (segment, column, row), the highest transaction winning,
    in key order. *)

From stdpp Require Import base gmap strings list sorting.
From S2P Require Import Prelude Kv Visibility Roaring DeltaTypes.

Local Open Scope Z_scope.

(** * The merge *)

(** [(String, String, u64)] *)
Abbreviation DeltaKey := (string * string * Z)%type.

Definition cell_key (c : DeltaCell) : DeltaKey := (seg_id c, column c, row_offset c).

(** The body of the inner loop, for a visible cell. *)
Definition dedup_step (dedup : btree DeltaKey (TxnId * DeltaCell)) (delta : DeltaCell)
    : btree DeltaKey (TxnId * DeltaCell) :=
  match bt_get (cell_key delta) dedup with
  | Some (existing_txn, _) =>
      if existing_txn <? txn_id delta
      then bt_insert (cell_key delta) (txn_id delta, delta) dedup else dedup
  | None => bt_insert (cell_key delta) (txn_id delta, delta) dedup
  end.

(** The comparator of the final sort: segment, column, row, transaction. *)
Definition cell_le (a b : DeltaCell) : bool :=
  match cmp (seg_id a, column a, row_offset a, txn_id a)
            (seg_id b, column b, row_offset b, txn_id b) with
  | Gt => false
  | _ => true
  end.

Definition k_way_merge (layers : list (list DeltaCell)) (snapshot_txn : TxnId)
    (commit_ts_by_txn : gmap TxnId Z) (active : gset TxnId) : list DeltaCell :=
  match layers with
  | [] => []
  | _ =>
      let dedup := for_each layers [] (λ dedup layer,
        for_each layer dedup (λ dedup delta,
          if negb (is_visible_at_commit delta snapshot_txn commit_ts_by_txn active) then dedup
          else dedup_step dedup delta)) in
      sort_by cell_le ((λ e, e.2.2) <$> dedup)
  end.

(** * Proofs *)

(** Folding [dedup_step] over the visible cells of the concatenated layers. *)
Lemma k_way_merge_fold layers sid cts active :
  k_way_merge layers sid cts active =
  sort_by cell_le ((λ e, e.2.2) <$>
    foldl dedup_step [] (filter (λ c, is_visible_at_commit c sid cts active = true) (concat layers))).
Proof.
  unfold k_way_merge, for_each.
  assert (∀ ls d,
    foldl (λ dedup layer, foldl (λ dedup delta,
        if negb (is_visible_at_commit delta sid cts active) then dedup
        else dedup_step dedup delta) dedup layer) d ls =
    foldl dedup_step d (filter (λ c, is_visible_at_commit c sid cts active = true) (concat ls))) as Hf.
  { induction ls as [|l ls IH]; intros d; cbn [foldl concat]; [done|].
    rewrite filter_app, foldl_app, <- IH. f_equal. clear IH. revert d.
    induction l as [|c l IH]; intros d; [done|]. rewrite filter_cons. cbn [foldl].
    destruct (is_visible_at_commit c sid cts active) eqn:E; cbn [negb].
    - rewrite decide_True by done. apply IH.
    - rewrite decide_False by done. apply IH. }
  destruct layers as [|l ls]; [done|]. by rewrite Hf.
Qed.

(** The contents of the dedup map after the cells [seen]: sorted, each entry one
    of them under its own key with its own transaction, and at least as recent as
    every cell seen with that key. *)
Record dedup_inv (seen : list DeltaCell) (d : btree DeltaKey (TxnId * DeltaCell)) : Prop := {
  dedup_sorted : bt_sorted d;
  dedup_entry : ∀ k t c, bt_get k d = Some (t, c) → k = cell_key c ∧ t = txn_id c ∧ c ∈ seen;
  dedup_max : ∀ c, c ∈ seen → ∃ c', bt_get (cell_key c) d = Some (txn_id c', c') ∧ txn_id c ≤ txn_id c'
}.

Lemma dedup_inv_insert seen d c :
  (∀ t c', bt_get (cell_key c) d = Some (t, c') → t < txn_id c) →
  dedup_inv seen d → dedup_inv (seen ++ [c]) (bt_insert (cell_key c) (txn_id c, c) d).
Proof.
  intros Hlt [Hs He Hm]. split.
  - by apply bt_insert_sorted.
  - intros k t c'. destruct (decide (k = cell_key c)) as [->|Hne].
    + rewrite bt_get_insert_eq by done. intros [= <- <-]. set_solver.
    + rewrite bt_get_insert_ne by done. intros (? & ? & ?)%He. set_solver.
  - intros c0 Hc0. destruct (decide (cell_key c0 = cell_key c)) as [Heq|Hne].
    + exists c. rewrite Heq, bt_get_insert_eq by done. split; [done|].
      apply elem_of_app in Hc0 as [Hc0| ->%list_elem_of_singleton]; [|done].
      destruct (Hm _ Hc0) as (c' & Hg & Hle). rewrite Heq in Hg. apply Hlt in Hg. lia.
    + rewrite bt_get_insert_ne by done. apply Hm. set_solver.
Qed.

Lemma dedup_inv_step seen d c : dedup_inv seen d → dedup_inv (seen ++ [c]) (dedup_step d c).
Proof.
  intros Hinv. unfold dedup_step. destruct (bt_get (cell_key c) d) as [[t c']|] eqn:E.
  - destruct (Z.ltb_spec t (txn_id c)).
    + apply dedup_inv_insert; [|done]. intros t' c0. rewrite E. by intros [= <- <-].
    + destruct Hinv as [Hs He Hm]. split; [done| |].
      * intros k t' c0 (? & ? & ?)%He. set_solver.
      * intros c0 [Hc0| ->%list_elem_of_singleton]%elem_of_app; [by apply Hm|].
        destruct (He _ _ _ E) as (_ & -> & _). by exists c'.
  - apply dedup_inv_insert; [|done]. intros t' c0. by rewrite E.
Qed.

Lemma dedup_inv_foldl cells : dedup_inv cells (foldl dedup_step [] cells).
Proof.
  induction cells as [|c cells IH] using rev_ind.
  - split; [constructor|done|]. intros c Hc. by apply elem_of_nil in Hc.
  - rewrite foldl_app. by apply dedup_inv_step.
Qed.

(** The lexicographic order of keys as a relation on cells. *)
Definition key_lt (a b : DeltaCell) : Prop := cmp (cell_key a) (cell_key b) = Lt.

Lemma cell_le_key_lt a b : key_lt a b → cell_le a b = true.
Proof.
  unfold key_lt, cell_le, cell_key. intros Hlt.
  change (cmp (seg_id a, column a, row_offset a, txn_id a) (seg_id b, column b, row_offset b, txn_id b))
    with (match cmp (seg_id a, column a, row_offset a) (seg_id b, column b, row_offset b) with
          | Eq => cmp (txn_id a) (txn_id b) | c => c end).
  by rewrite Hlt.
Qed.

(** Cells read from a sorted map under their own keys are in strict key order. *)
Lemma bt_values_sorted d :
  bt_sorted d → (∀ k t c, (k, (t, c)) ∈ d → k = cell_key c) →
  StronglySorted key_lt ((λ e : DeltaKey * (TxnId * DeltaCell), e.2.2) <$> d).
Proof.
  induction 1 as [|k [t c] d Hlt Hs IH]; intros Hk; [constructor|].
  rewrite fmap_cons. constructor; [apply IH; set_solver|].
  apply Forall_fmap, Forall_forall. intros [k' [t' c']] Hin. unfold key_lt; cbn.
  rewrite <- (Hk k t c), <- (Hk k' t' c'); [|set_solver|set_solver].
  rewrite Forall_forall in Hlt. by apply (Hlt _ Hin).
Qed.

Lemma elem_of_dedup cells c :
  c ∈ (λ e : DeltaKey * (TxnId * DeltaCell), e.2.2) <$> foldl dedup_step [] cells ↔
  bt_get (cell_key c) (foldl dedup_step [] cells) = Some (txn_id c, c).
Proof.
  destruct (dedup_inv_foldl cells) as [Hs He _]. rewrite list_elem_of_fmap. split.
  - intros ([k [t c']] & -> & Hin%elem_of_bt_get); [|done]. cbn. by destruct (He _ _ _ Hin) as (<- & <- & _).
  - intros Hg. exists (cell_key c, (txn_id c, c)). split; [done|]. by apply elem_of_bt_get.
Qed.

(** One step, read at a key. *)
Lemma bt_get_dedup_step k d c : bt_sorted d →
  bt_get k (dedup_step d c) =
  if decide (cell_key c = k) then
    match bt_get k d with
    | Some (t, e) => if t <? txn_id c then Some (txn_id c, c) else Some (t, e)
    | None => Some (txn_id c, c)
    end
  else bt_get k d.
Proof.
  intros Hs. unfold dedup_step. case_decide as Hk.
  - subst k. destruct (bt_get (cell_key c) d) as [[t e]|] eqn:E; [|by rewrite bt_get_insert_eq].
    destruct (t <? txn_id c); [by rewrite bt_get_insert_eq|done].
  - destruct (bt_get (cell_key c) d) as [[t e]|]; [destruct (t <? txn_id c)|];
      rewrite ?bt_get_insert_ne by congruence; done.
Qed.

(** Deduplicating before or after a filter on transactions gives the same cell
    where the latest version passes the filter. *)
Lemma dedup_filter_max (P : DeltaCell → Prop) `{∀ c, Decision (P c)} cells c :
  (∀ a b, txn_id a = txn_id b → P a → P b) →
  bt_get (cell_key c) (foldl dedup_step [] (filter P cells)) = Some (txn_id c, c) →
  (∀ c', c' ∈ cells → cell_key c' = cell_key c → txn_id c' ≤ txn_id c) →
  bt_get (cell_key c) (foldl dedup_step [] cells) = Some (txn_id c, c).
Proof.
  intros HP. induction cells as [|x cells IH] using rev_ind; [done|].
  destruct (dedup_inv_foldl cells) as [Hs He _], (dedup_inv_foldl (filter P cells)) as [Hsf _ Hmf].
  rewrite filter_app, !foldl_app. cbn [foldl]. rewrite (bt_get_dedup_step _ _ _ Hs). intros Hg Hmax.
  assert (∀ c', c' ∈ cells → cell_key c' = cell_key c → txn_id c' ≤ txn_id c) as Hmax'
    by (intros c' Hc'; apply Hmax, elem_of_app; by left).
  specialize (λ Hg, IH Hg Hmax'). 
  assert (cell_key x = cell_key c → txn_id x ≤ txn_id c) as Hx
    by (apply Hmax, elem_of_app; right; by apply list_elem_of_singleton).
  rewrite filter_cons, filter_nil in Hg. destruct (decide (P x)) as [Px|Px]; cbn [foldl] in Hg.
  - rewrite (bt_get_dedup_step _ _ _ Hsf) in Hg. case_decide as Hk; [|by apply IH].
    assert (∀ t e, bt_get (cell_key c) (foldl dedup_step [] cells) = Some (t, e) → txn_id x ≤ t →
      c = x → ∃ c2, bt_get (cell_key c) (foldl dedup_step [] (filter P cells)) = Some (txn_id c2, c2) ∧
                    txn_id x ≤ txn_id c2) as Hold.
    { intros t e Hge Hle ->. destruct (He _ _ _ Hge) as (Hke & -> & Hin).
      specialize (Hmax' _ Hin (eq_sym Hke)). rewrite Hke. destruct (Hmf e) as (c2 & Hc2 & Hle2).
      - apply list_elem_of_filter. split; [eapply HP; [|exact Px]; lia|done].
      - exists c2. split; [done|lia]. }
    destruct (bt_get (cell_key c) (foldl dedup_step [] (filter P cells))) as [[t e]|] eqn:Ef.
    + destruct (Z.ltb_spec t (txn_id x)) as [Hlt|Hge]; injection Hg as ? ?; subst.
      * destruct (bt_get (cell_key c) (foldl dedup_step [] cells)) as [[t' e']|] eqn:Ec; [|done].
        destruct (Z.ltb_spec t' (txn_id c)); [done|].
        destruct (Hold _ _ eq_refl) as (c2 & [= -> ->] & ?); [lia|done|lia].
      * rewrite IH by done. by rewrite (proj2 (Z.ltb_ge _ _)) by lia.
    + injection Hg as ?. subst x. destruct (bt_get (cell_key c) (foldl dedup_step [] cells)) as [[t' e']|] eqn:Ec; [|done].
      destruct (Z.ltb_spec t' (txn_id c)); [done|]. by destruct (Hold _ _ eq_refl) as (c2 & ? & ?).
  - rewrite IH by done. case_decide; [|done]. by rewrite (proj2 (Z.ltb_ge _ _)) by auto.
Qed.

Section merge_spec.
Context (layers : list (list DeltaCell)) (sid : TxnId) (cts : gmap TxnId Z) (active : gset TxnId).

(** The visible cells of the layers. *)
Definition visible_cells : list DeltaCell :=
  filter (λ c, is_visible_at_commit c sid cts active = true) (concat layers).

Lemma elem_of_visible_cells c :
  c ∈ visible_cells ↔ (∃ l, l ∈ layers ∧ c ∈ l) ∧ is_visible_at_commit c sid cts active = true.
Proof.
  unfold visible_cells. rewrite list_elem_of_filter, list_elem_of_In, in_concat.
  setoid_rewrite list_elem_of_In. firstorder.
Qed.

Lemma k_way_merge_values :
  k_way_merge layers sid cts active = (λ e, e.2.2) <$> foldl dedup_step [] visible_cells ∧
  StronglySorted key_lt (k_way_merge layers sid cts active).
Proof.
  rewrite k_way_merge_fold. fold visible_cells.
  destruct (dedup_inv_foldl visible_cells) as [Hs He _].
  assert (StronglySorted key_lt ((λ e, e.2.2) <$> foldl dedup_step [] visible_cells)) as Hsorted.
  { apply bt_values_sorted; [done|]. intros k t c Hin%elem_of_bt_get; [|done]. by apply He in Hin as []. }
  rewrite sort_by_id; [done|].
  eapply StronglySorted_weaken; [|exact Hsorted]. intros a b. apply cell_le_key_lt.
Qed.

Lemma elem_of_merge c :
  c ∈ k_way_merge layers sid cts active ↔
  bt_get (cell_key c) (foldl dedup_step [] visible_cells) = Some (txn_id c, c).
Proof. rewrite (proj1 k_way_merge_values). apply elem_of_dedup. Qed.
End merge_spec.

(** Deduplicating cells that are already in strict key order keeps them all. *)
Lemma dedup_sorted_id cells :
  StronglySorted key_lt cells →
  foldl dedup_step [] cells = (λ c, (cell_key c, (txn_id c, c))) <$> cells.
Proof.
  induction cells as [|c cells IH] using rev_ind; [done|]. intros Hs.
  assert (StronglySorted key_lt cells) as Hs' by (by eapply StronglySorted_app_1_l).
  rewrite foldl_app, fmap_app, IH by done. cbn [foldl fmap list_fmap].
  assert (Forall (λ e : DeltaKey * (TxnId * DeltaCell), cmp e.1 (cell_key c) = Lt)
            ((λ c, (cell_key c, (txn_id c, c))) <$> cells)) as Hlast.
  { apply Forall_fmap, Forall_forall. intros c' Hin. cbn.
    eapply (StronglySorted_app_1_elem_of key_lt); [exact Hs|exact Hin|set_solver]. }
  unfold dedup_step. by rewrite bt_get_last, bt_insert_last by done.
Qed.

Lemma dedup_values_entries (d : btree DeltaKey (TxnId * DeltaCell)) :
  (∀ k t c, (k, (t, c)) ∈ d → k = cell_key c ∧ t = txn_id c) →
  (λ c, (cell_key c, (txn_id c, c))) <$> ((λ e : DeltaKey * (TxnId * DeltaCell), e.2.2) <$> d) = d.
Proof.
  induction d as [|[k [t c]] d IH]; intros Hd; [done|]. rewrite !fmap_cons, IH; [|set_solver].
  destruct (Hd k t c) as [-> ->]; [set_solver|done].
Qed.

(** * Properties *)

(** C11: the merge returns, in strictly ascending (segment, column, row) order
    and therefore once per key, exactly one latest visible version: every
    returned cell is a visible cell of some layer, none of the visible cells with
    its key is newer, and every visible cell's key is represented. *)
Theorem k_way_merge_spec layers sid cts active :
  StronglySorted key_lt (k_way_merge layers sid cts active) ∧
  (∀ c, c ∈ k_way_merge layers sid cts active →
     c ∈ visible_cells layers sid cts active ∧
     ∀ c', c' ∈ visible_cells layers sid cts active → cell_key c' = cell_key c →
       txn_id c' ≤ txn_id c) ∧
  (∀ c, c ∈ visible_cells layers sid cts active →
     ∃ c', c' ∈ k_way_merge layers sid cts active ∧ cell_key c' = cell_key c).
Proof.
  destruct (dedup_inv_foldl (visible_cells layers sid cts active)) as [_ He Hm].
  split_and!; [apply k_way_merge_values| |].
  - intros c Hc%elem_of_merge. split; [by apply He in Hc as (_ & _ & ?)|].
    intros c' Hc' Hk. destruct (Hm _ Hc') as (c2 & Hg & Hle). rewrite Hk in Hg. by simplify_eq.
  - intros c Hc. destruct (Hm _ Hc) as (c' & Hg & _). exists c'.
    destruct (He _ _ _ Hg) as (Hk & _ & _). split; [|done]. rewrite elem_of_merge. by rewrite <- Hk.
Qed.

(** Merging is incremental: replacing some layers by their own merge at the
    same snapshot does not change the result, so flushing or compacting merged
    layers is transparent to readers at that snapshot. *)
Theorem k_way_merge_incremental old new sid cts active :
  k_way_merge (k_way_merge old sid cts active :: new) sid cts active =
  k_way_merge (old ++ new) sid cts active.
Proof.
  rewrite (k_way_merge_fold (_ :: _)), (k_way_merge_fold (_ ++ _)). cbn [concat].
  rewrite concat_app, !filter_app, !foldl_app. do 3 f_equal.
  fold (visible_cells old sid cts active).
  destruct (k_way_merge_values old sid cts active) as [Hv Hs].
  assert (filter (λ c, is_visible_at_commit c sid cts active = true) (k_way_merge old sid cts active)
          = k_way_merge old sid cts active) as ->.
  { apply list_filter_id, Forall_forall. intros c Hc%elem_of_merge.
    destruct (dedup_inv_foldl (visible_cells old sid cts active)) as [_ He _].
    apply He in Hc as (_ & _ & Hc). by apply elem_of_visible_cells in Hc as []. }
  rewrite dedup_sorted_id by done. rewrite Hv. apply dedup_values_entries.
  destruct (dedup_inv_foldl (visible_cells old sid cts active)) as [Hsd He _].
  intros k t c Hin%elem_of_bt_get; [|done]. by destruct (He _ _ _ Hin) as (? & ? & _).
Qed.

(** When no two distinct visible cells share a key and a transaction, the
    result does not depend on the order of the layers or of the cells in them. *)
Theorem k_way_merge_order_independent layers layers' sid cts active :
  concat layers ≡ₚ concat layers' →
  (∀ c c', c ∈ visible_cells layers sid cts active → c' ∈ visible_cells layers sid cts active →
     cell_key c = cell_key c' → txn_id c = txn_id c' → c = c') →
  k_way_merge layers sid cts active = k_way_merge layers' sid cts active.
Proof.
  intros Hperm Huniq.
  rewrite (proj1 (k_way_merge_values layers _ _ _)), (proj1 (k_way_merge_values layers' _ _ _)).
  f_equal. assert (∀ c, c ∈ visible_cells layers sid cts active ↔
                        c ∈ visible_cells layers' sid cts active) as Hin.
  { intros c. unfold visible_cells. by rewrite Hperm. }
  destruct (dedup_inv_foldl (visible_cells layers sid cts active)) as [Hs1 He1 Hm1].
  destruct (dedup_inv_foldl (visible_cells layers' sid cts active)) as [Hs2 He2 Hm2].
  apply bt_sorted_ext; [done|done|]. intros k.
  assert (∀ t c, bt_get k (foldl dedup_step [] (visible_cells layers sid cts active)) = Some (t, c) →
                 bt_get k (foldl dedup_step [] (visible_cells layers' sid cts active)) = Some (t, c)) as H12.
  { intros t c Hg. destruct (He1 _ _ _ Hg) as (-> & -> & Hc).
    destruct (Hm2 c) as (c2 & Hg2 & Hle2); [by apply Hin|].
    destruct (He2 _ _ _ Hg2) as (Hk2 & _ & Hc2). apply Hin in Hc2.
    destruct (Hm1 _ Hc2) as (c3 & Hg3 & Hle3). rewrite <- Hk2, Hg in Hg3.
    assert (c3 = c) as -> by congruence. rewrite Hg2.
    assert (c2 = c) as -> by (apply Huniq; [done|done|done|lia]). done. }
  destruct (bt_get k (foldl dedup_step [] (visible_cells layers _ _ _))) as [[t c]|] eqn:E1.
  { symmetry. by apply H12. }
  destruct (bt_get k (foldl dedup_step [] (visible_cells layers' _ _ _))) as [[t c]|] eqn:E2; [|done].
  destruct (He2 _ _ _ E2) as (-> & _ & Hc%Hin). destruct (Hm1 _ Hc) as (c' & Hg & _). congruence.
Qed.

Definition demo_cell (row t : Z) (v : bytes) : DeltaCell :=
  {| seg_id := "s"; row_offset := row; column := "v"; txn_id := t; before := None;
     after := Some v; committed := true; ts := 0 |}.

Lemma k_way_merge_order_independent_witness :
  k_way_merge [[demo_cell 1 2 [20]; demo_cell 0 3 [30]]; [demo_cell 1 4 [40]]] 5
    {[2 := 2; 3 := 3; 4 := 4]} ∅ =
  k_way_merge [[demo_cell 1 4 [40]]; [demo_cell 0 3 [30]; demo_cell 1 2 [20]]] 5
    {[2 := 2; 3 := 3; 4 := 4]} ∅.
Proof.
  apply k_way_merge_order_independent.
  - cbn. rewrite (Permutation_swap (demo_cell 0 3 [30])).
    apply (Permutation_app_comm [demo_cell 0 3 [30]; demo_cell 1 2 [20]] [demo_cell 1 4 [40]]).
  - vm_compute. intros c c' Hc Hc' Hk Ht.
    repeat (apply elem_of_cons in Hc as [-> |Hc]; [|]); try (by apply elem_of_nil in Hc);
    repeat (apply elem_of_cons in Hc' as [-> |Hc']; [|]); try (by apply elem_of_nil in Hc');
    done.
Defined.
