(* ===== verification/DeltaApply.v ===== *)
(** Patch application (storage/delta/merge.rs, [DeltaMerger]'s vectorized
    paths): sparse patches on a column, and the deltas of a record batch. *)

From stdpp Require Import base gmap strings list sorting.
From S2P Require Import Prelude Kv Visibility Roaring Arrow DeltaTypes.

Local Open Scope Z_scope.

Section apply.
Context `{Arrow Arr} `{Batches Arr} `{Roaring B}.
Implicit Types base patch : Arr.

(** write/wal_utils.rs [decode_ipc_column] *)
Definition decode_ipc_column (bs : bytes) : Result Arr :=
  if bool_decide (bs = []) then Ok (arr_null Boolean 0) else
  c <-? arr_ipc bs;
  match c with
  | Some a => Ok a
  | None => Err (ECodec "Empty Arrow IPC payload")
  end.

(** The types with a blend branch of their own. *)
Definition blendable (t : DataType) : bool :=
  match t with
  | Int8 | Int16 | Int32 | Int64 | UInt8 | UInt16 | UInt32 | UInt64 | Float32 | Float64
  | Boolean | Utf8 | LargeUtf8 | Binary | LargeBinary => true
  | _ => false
  end.

(** [pos_to_patch_idx]: for each row the index of its patch value, the last one
    among equal positions. *)
Definition pos_to_patch_idx (total : Z) (positions : list Z) : list (option Z) :=
  (for_each positions (replicate (Z.to_nat total) None, 0) (λ st row,
     (if row <? total then <[Z.to_nat row := Some st.2]> st.1 else st.1, st.2 + 1))).1.

(** The value that every typed branch appends for row [i]. *)
Definition blend_value base patch (m : list (option Z)) (i : Z) : Value :=
  match m !! Z.to_nat i with
  | Some (Some idx) => if idx <? arr_len patch then arr_value patch idx else arr_value base i
  | _ => arr_value base i
  end.

(** A typed branch downcasts the patch to the type of the base and panics when
    it has another; the other types copy the base. *)
Definition blend_arrays base patch (positions : list Z) : outcome (Result Arr) :=
  let total := arr_len base in
  let m := pos_to_patch_idx total positions in
  if blendable (arr_type base) then
    if bool_decide (arr_type patch = arr_type base)
    then Done (Ok (arr_build (arr_type base)
             ((λ i, Some (blend_value base patch m i)) <$> seqZ 0 total)))
    else Panic
  else
    match arr_take base (seqZ 0 (wrap32 total)) with
    | Panic => Panic
    | Done (Ok r) => Done (Ok r)
    | Done (Err e) => Done (Err (EInternal ("Arrow take: " +:+ e)))
    end.

Definition take_or_error base (idx : list Z) : outcome (Result Arr) :=
  match arr_take base idx with
  | Panic => Panic
  | Done r => Done (map_err (λ e, EInternal ("Arrow take error: " +:+ e)) r)
  end.

Definition apply_sparse_filter base (positions : B) : outcome (Result Arr) :=
  let indices := bm_iter positions in
  if bool_decide (indices = []) then Done (Ok (arr_null Null (arr_len base)))
  else take_or_error base indices.

Definition apply_sparse_take base (positions : B) (patch_values : bytes) : outcome (Result Arr) :=
  match decode_ipc_column patch_values with
  | Err e => Done (Err e)
  | Ok _patch_arr =>
      let positions_list := bm_iter positions in
      if bool_decide (positions_list = []) then Done (Ok (arr_null Boolean (arr_len base)))
      else
        match take_or_error base positions_list with
        | Panic => Panic
        | Done (Err e) => Done (Err e)
        | Done (Ok projected) => blend_arrays base projected positions_list
        end
  end.

(** [cardinality as f64 / total_rows as f64 < 0.01] *)
Definition low_selectivity (cardinality total_rows : Z) : bool :=
  f64_ltb (f64_div (f64_of_Z cardinality) (f64_of_Z total_rows)) (f64_lit 1 100).

Definition apply_sparse_patch_vectorized base (positions : B) (patch_values : bytes)
    : outcome (Result Arr) :=
  let total_rows := wrap32 (arr_len base) in
  if total_rows =? 0 then Done (Ok (arr_null Boolean 0)) else
  if low_selectivity (bm_cardinality positions) total_rows
  then apply_sparse_filter base positions
  else apply_sparse_take base positions patch_values.

(** ** Record batches *)

Definition rebuild_error (e : string) : RockDuckError := EInternal ("Failed to rebuild batch: " +:+ e).

(** [schema.index_of(name)]: the first field with the name. *)
Definition index_of (fields : list Field) (name : string) : option nat :=
  fst <$> list_find (λ f, f_name f = name) fields.

(** The deltas of one column, in transaction order, applied to the column; an
    error of a single delta is ignored. *)
Definition apply_column_deltas (base_col : Arr) (col_deltas : list DeltaCell) : outcome Arr :=
  for_each (sort_by (λ a b, txn_id a <=? txn_id b) col_deltas) (Done base_col) (λ cur delta,
    match cur with
    | Panic => Panic
    | Done current =>
        match after delta with
        | None => Done current
        | Some img =>
            match apply_sparse_patch_vectorized current
                    (bm_from_iter [wrap32 (row_offset delta)]) img with
            | Panic => Panic
            | Done (Ok m) => Done m
            | Done (Err _) => Done current
            end
        end
    end).

(** [by_column]: the deltas of each column in their given order. *)
Definition group_by_column (deltas : list DeltaCell) : btree string (list DeltaCell) :=
  for_each deltas [] (λ bc delta,
    bt_insert (column delta) (default [] (bt_get (column delta) bc) ++ [delta]) bc).

(** The patched columns by name; a column the batch does not have is skipped. *)
Fixpoint patched_columns (batch : RecordBatch Arr) (bc : btree string (list DeltaCell))
    : outcome (gmap string Arr) :=
  match bc with
  | [] => Done ∅
  | (name, col_deltas) :: bc' =>
      match index_of (rb_fields batch) name with
      | None => patched_columns batch bc'
      | Some i =>
          match rb_columns batch !! i with
          | None => Panic
          | Some base_col =>
              match apply_column_deltas base_col col_deltas, patched_columns batch bc' with
              | Done arr, Done m => Done (<[name := arr]> m)
              | _, _ => Panic
              end
          end
      end
  end.

Definition apply_deltas_to_batch (batch : RecordBatch Arr) (deltas : list DeltaCell)
    : outcome (Result (RecordBatch Arr)) :=
  match deltas with
  | [] => Done (Ok batch)
  | _ =>
      match patched_columns batch (group_by_column deltas) with
      | Panic => Panic
      | Done m =>
          let new_cols := zip_with (λ f col, default col (m !! f_name f))
                            (rb_fields batch) (rb_columns batch) in
          Done (map_err rebuild_error (try_new (rb_fields batch) new_cols))
      end
  end.

(** The batch with one column replaced; [batch.column] and the assignment panic
    on an index the batch does not have. *)
Definition apply_sparse_patch_to_batch (batch : RecordBatch Arr) (column_name : string) (positions : B)
    (patch_values : bytes) : outcome (Result (RecordBatch Arr)) :=
  match index_of (rb_fields batch) column_name with
  | None => Done (Err (EInternal ("Column not found: " +:+ column_name)))
  | Some col_idx =>
      match rb_columns batch !! col_idx with
      | None => Panic
      | Some base_col =>
          match apply_sparse_patch_vectorized base_col positions patch_values with
          | Panic => Panic
          | Done (Err e) => Done (Err e)
          | Done (Ok patched_col) =>
              Done (map_err rebuild_error
                      (try_new (rb_fields batch) (<[col_idx := patched_col]> (rb_columns batch))))
          end
      end
  end.

Definition apply_dense_patch_to_batch (batch : RecordBatch Arr) (column_name : string)
    (dense_values : bytes) : outcome (Result (RecordBatch Arr)) :=
  match index_of (rb_fields batch) column_name with
  | None => Done (Err (EInternal ("Column not found: " +:+ column_name)))
  | Some col_idx =>
      match decode_ipc_column dense_values with
      | Err e => Done (Err e)
      | Ok patched_arr =>
          if (col_idx <? length (rb_columns batch))%nat
          then Done (map_err rebuild_error
                       (try_new (rb_fields batch) (<[col_idx := patched_arr]> (rb_columns batch))))
          else Panic
      end
  end.

(** The rows that the mask does not contain. *)
Definition delete_keep_flags (num_rows : Z) (mask : B) : list bool :=
  (λ i, negb (bm_contains i mask)) <$> seqZ 0 (wrap32 num_rows).

Definition apply_delete_mask (batch : RecordBatch Arr) (mask : B) : Result (RecordBatch Arr) :=
  map_err (λ e, EInternal ("Filter error: " +:+ e))
    (filter_record_batch batch (delete_keep_flags (rb_rows batch) mask)).
End apply.

(** * Proofs *)

(** Grouping keeps to the given deltas. *)
Lemma group_by_column_sub deltas :
  Forall (λ e, ∀ d, d ∈ e.2 → d ∈ deltas) (group_by_column deltas).
Proof.
  unfold group_by_column.
  enough (bt_sorted (for_each deltas [] (λ bc delta,
    bt_insert (column delta) (default [] (bt_get (column delta) bc) ++ [delta]) bc)) ∧
    Forall (λ e, ∀ d, d ∈ e.2 → d ∈ deltas) (for_each deltas [] (λ bc delta,
    bt_insert (column delta) (default [] (bt_get (column delta) bc) ++ [delta]) bc))) as [_ ?] by done.
  apply (for_each_inv (λ bc, bt_sorted bc ∧ Forall (λ e, ∀ d, d ∈ e.2 → d ∈ deltas) bc)).
  - split; constructor.
  - intros bc delta Hd [Hs Hf]. split; [by apply bt_insert_sorted|].
    apply bt_insert_Forall; [|done]. cbn. intros d [Hin|Hin]%elem_of_app; [|set_solver].
    destruct (bt_get (column delta) bc) as [ds|] eqn:E; cbn in Hin; [|set_solver].
    apply elem_of_bt_get in E; [|done]. rewrite Forall_forall in Hf. by apply (Hf _ E).
Qed.

Section apply_proofs.
Context `{ArrowLaws Arr} `{RoaringLaws B}.
Implicit Types (base patch r : Arr) (positions : B).

Lemma pos_to_patch_idx_spec total (positions : list Z) i idx :
  Forall (λ p, 0 ≤ p) positions →
  pos_to_patch_idx total positions !! i = Some (Some idx) →
  0 ≤ idx ∧ positions !! Z.to_nat idx = Some (Z.of_nat i).
Proof.
  unfold pos_to_patch_idx, for_each. intros Hpos.
  set (f := λ st row, _).
  enough (∀ st, st = foldl f (replicate (Z.to_nat total) None, 0) positions →
    st.2 = zlen positions ∧
    ∀ i idx, st.1 !! i = Some (Some idx) → 0 ≤ idx ∧ positions !! Z.to_nat idx = Some (Z.of_nat i))
    as Hall by (intros Hl; by destruct (Hall _ eq_refl) as [_ ?]; auto).
  clear i idx. intros st ->. induction positions as [|p positions IH] using rev_ind.
  - cbn. split; [done|]. intros i idx [? _]%lookup_replicate. done.
  - apply Forall_app in Hpos as [Hpos Hp]. rewrite Forall_singleton in Hp. destruct (IH Hpos) as [Hn Hl].
    rewrite foldl_app. cbn [foldl]. set (st := foldl f _ positions) in *.
    unfold f; cbn [fst snd]. rewrite Hn. split; [unfold zlen; rewrite length_app; cbn; lia|].
    intros i idx Hi.
    assert (st.1 !! i = Some (Some idx) ∨ (i = Z.to_nat p ∧ idx = zlen positions)) as [Hold|[-> ->]].
    { destruct (p <? total); [|by left].
      apply list_lookup_insert_Some in Hi. naive_solver. }
    + destruct (Hl _ _ Hold) as [H0' Hk]. split; [done|]. by apply lookup_app_l_Some.
    + split; [apply zlen_nonneg|]. unfold zlen. rewrite Nat2Z.id, Z2Nat.id by done.
      by rewrite list_lookup_middle.
Qed.

(** Same length, type and underlying values; null flags may have been cleared. *)
Definition same_values (a b : Arr) : Prop :=
  arr_len a = arr_len b ∧ arr_type a = arr_type b ∧
  ∀ i, 0 ≤ i < arr_len b →
    arr_value a i = arr_value b i ∧ (arr_is_null a i = true → arr_is_null b i = true).

(** Blending an array with values taken from itself changes no value. *)
Lemma blend_own_values base patch (positions : list Z) :
  blendable (arr_type base) = true → Forall (λ i, 0 ≤ i) positions →
  arr_type patch = arr_type base →
  (∀ k i, positions !! k = Some i → arr_value patch (Z.of_nat k) = arr_value base i) →
  ∃ r, blend_arrays base patch positions = Done (Ok r) ∧ same_values r base ∧
    ∀ i, 0 ≤ i < arr_len base → arr_is_null r i = false.
Proof.
  intros Hb Hpos Ht Hv. unfold blend_arrays. rewrite Hb, bool_decide_true by done.
  eexists. split; [done|]. pose proof (arr_len_nonneg base) as Hlen.
  set (vs := _ <$> seqZ 0 (arr_len base)).
  assert (∀ i, 0 ≤ i < arr_len base →
    arr_slot (arr_build (Arr := Arr) (arr_type base) vs) i = Some (arr_value base i)) as Hvs.
  { intros i Hi. rewrite <- (Z2Nat.id i) at 1 by lia. apply arr_build_slot. unfold vs.
    rewrite list_lookup_fmap, (proj2 (lookup_seqZ 0 (arr_len base) (Z.to_nat i) i)) by lia. cbn.
    do 2 f_equal. unfold blend_value. destruct (_ !! Z.to_nat i) as [[idx|]|] eqn:E; [|done|done].
    apply pos_to_patch_idx_spec in E as [Hidx Hk]; [|done]. destruct (_ <? _); [|done].
    specialize (Hv _ _ Hk). rewrite !Z2Nat.id in Hv by lia. done. }
  split; [split_and!|].
  - rewrite arr_build_len. unfold vs, zlen. rewrite length_fmap, length_seqZ. lia.
  - apply arr_build_type.
  - intros i Hi%Hvs. unfold arr_slot in Hi. destruct (arr_is_null _ _); by simplify_eq.
  - intros i Hi%Hvs. unfold arr_slot in Hi. by destruct (arr_is_null _ _).
Qed.

(** The taking path either fails to decode the patch or returns the base. *)
Lemma apply_sparse_take_spec base positions pv :
  blendable (arr_type base) = true → bm_iter positions ≠ [] →
  (∀ x, x ∈ bm_set positions → 0 ≤ x < arr_len base) →
  match decode_ipc_column (Arr := Arr) pv with
  | Err e => apply_sparse_take base positions pv = Done (Err e)
  | Ok _ => ∃ r, apply_sparse_take base positions pv = Done (Ok r) ∧ same_values r base ∧
              ∀ i, 0 ≤ i < arr_len base → arr_is_null r i = false
  end.
Proof.
  intros Hb Hne Hin. unfold apply_sparse_take. destruct (decode_ipc_column (Arr := Arr) pv) as [pa|e]; [|done].
  rewrite bool_decide_false by done.
  assert (Forall (λ i, 0 ≤ i < arr_len base) (bm_iter positions)) as Hr.
  { apply Forall_forall. intros x Hx. by apply Hin, elem_of_bm_iter. }
  destruct (arr_take_in_range base _ Hr) as (p & Hp & _ & Ht & Hv).
  unfold take_or_error. rewrite Hp. cbn.
  apply blend_own_values; [done| |done|by intros k i Hk; apply Hv].
  eapply Forall_impl; [exact Hr|]. cbn. lia.
Qed.

Lemma bm_iter_nonempty positions : bm_cardinality positions ≠ 0 → bm_iter positions ≠ [].
Proof. rewrite bm_cardinality_iter. intros Hne Hnil. by rewrite Hnil in Hne. Qed.

(** One row out of at most a hundred is never below one per cent. *)
Lemma single_row_selectivity n : 1 ≤ n ≤ 100 → low_selectivity 1 n = false.
Proof.
  intros Hn.
  assert (forallb (λ k, negb (low_selectivity 1 k)) (seqZ 1 100) = true) as Hf by (vm_compute; reflexivity).
  rewrite forallb_forall in Hf. apply negb_true_iff, Hf, list_elem_of_In, elem_of_seqZ. lia.
Qed.
(** The deltas of one column of at most a hundred rows leave its values. *)
Lemma apply_column_deltas_keeps base ds :
  1 ≤ arr_len base ≤ 100 → blendable (arr_type base) = true →
  (∀ d, d ∈ ds → 0 ≤ row_offset d < arr_len base) →
  ∃ r, apply_column_deltas (B := B) base ds = Done r ∧ same_values r base.
Proof.
  intros Hlen Hb Hds. unfold apply_column_deltas.
  apply (for_each_inv (λ cur, ∃ r, cur = Done r ∧ same_values r base)); [by exists base|].
  intros cur d Hd (r & -> & Hl & Ht & Hv). rewrite sort_by_perm in Hd. apply Hds in Hd.
  destruct (after d) as [img|]; [|by exists r].
  assert (wrap32 (row_offset d) = row_offset d) as Hw by (unfold wrap32; apply Z.mod_small; lia).
  pose proof (bm_iter_from_singleton (B := B) (row_offset d)) as Hit.
  unfold apply_sparse_patch_vectorized. rewrite Hw, bm_cardinality_iter, Hit, Hl.
  unfold wrap32 at 1 2. rewrite Z.mod_small by lia. rewrite (proj2 (Z.eqb_neq _ _)) by lia.
  change (zlen [row_offset d]) with 1. rewrite single_row_selectivity by lia.
  pose proof (apply_sparse_take_spec r (bm_from_iter (B := B) [row_offset d]) img) as Hs.
  rewrite Ht, Hit, Hl in Hs. specialize (Hs Hb ltac:(done)).
  assert (∀ x, x ∈ bm_set (bm_from_iter (B := B) [row_offset d]) → 0 ≤ x < arr_len base) as Hin.
  { intros x. rewrite bm_from_iter_set. set_solver by lia. }
  specialize (Hs Hin). destruct (decode_ipc_column (Arr := Arr) img) as [pa|e].
  - destruct Hs as (r' & -> & (Hl' & Ht' & Hv') & _). exists r'. split; [done|].
    rewrite Hl in Hv', Hl'. split_and!; [done|congruence|]. intros i Hi. destruct (Hv' _ Hi), (Hv _ Hi). split; [congruence|auto].
  - rewrite Hs. by exists r.
Qed.

Lemma same_values_fits n f a b : same_values a b → fits n f b → fits n f a.
Proof.
  intros (Hl & Ht & Hv) (Hn & Hf & Hnull). split_and!; [congruence|congruence|].
  intros Hfn Hin. apply (Hnull Hfn). unfold slots in *.
  apply list_elem_of_fmap in Hin as (i & Hi & Hr). apply elem_of_seqZ in Hr. apply list_elem_of_fmap.
  exists i. split; [|apply elem_of_seqZ; lia]. unfold arr_slot in *.
  destruct (Hv i ltac:(lia)) as [_ Hnu]. destruct (arr_is_null a i); [by rewrite Hnu|done].
Qed.

Lemma patched_columns_keep (batch : RecordBatch Arr) bc :
  batch_wf batch →
  (∀ name ds col, (name, ds) ∈ bc → col ∈ rb_columns batch →
     ∃ r, apply_column_deltas (B := B) col ds = Done r ∧ same_values r col) →
  ∃ m, patched_columns (B := B) batch bc = Done m ∧
    ∀ name r, m !! name = Some r →
      ∃ i f col, rb_fields batch !! i = Some f ∧ f_name f = name ∧
        rb_columns batch !! i = Some col ∧ same_values r col.
Proof.
  intros Hwf. induction bc as [|[name ds] bc IH]; intros Hbc; [by exists ∅|].
  destruct IH as (m & Hm & Hs); [intros; eapply Hbc; [by right|done]|].
  cbn. unfold index_of.
  destruct (list_find (λ f, f_name f = name) (rb_fields batch)) as [[i f]|] eqn:E; cbn; [|by exists m].
  apply list_find_Some in E as (Hi & Hname & _).
  destruct (Forall2_lookup_l _ _ _ _ _ Hwf Hi) as (col & Hcol & _).
  rewrite Hcol. destruct (Hbc name ds col) as (r & -> & Hr); [by left|by eapply list_elem_of_lookup_2|].
  rewrite Hm. eexists. split; [done|]. intros name' r' [(<- & <-)|(_ & Hm')]%lookup_insert_Some.
  - by exists i, f, col.
  - by apply Hs.
Qed.
End apply_proofs.

(** * Properties *)

(** Applying a sparse patch never applies the patch's values.  For a
    non-empty set of in-range positions: below one per cent selectivity the
    result is the selected base rows alone, as many as there are positions; at or
    above it, an undecodable patch is an error and otherwise every row of the
    result has the value it had in the base, with its null flag cleared. *)
Theorem sparse_patch_keeps_base `{ArrowLaws Arr} `{RoaringLaws B} (base : Arr) (positions : B) pv :
  0 < arr_len base ≤ u32_max → blendable (arr_type base) = true →
  bm_cardinality positions ≠ 0 → (∀ x, x ∈ bm_set positions → 0 ≤ x < arr_len base) →
  if low_selectivity (bm_cardinality positions) (arr_len base) then
    ∃ r, apply_sparse_patch_vectorized base positions pv = Done (Ok r) ∧
      arr_len r = bm_cardinality positions
  else
    match decode_ipc_column (Arr := Arr) pv with
    | Err e => apply_sparse_patch_vectorized base positions pv = Done (Err e)
    | Ok _ => ∃ r, apply_sparse_patch_vectorized base positions pv = Done (Ok r) ∧
                same_values r base ∧ ∀ i, 0 ≤ i < arr_len base → arr_is_null r i = false
    end.
Proof.
  intros Hlen Hb Hne Hin. unfold u32_max in Hlen. unfold apply_sparse_patch_vectorized, wrap32.
  rewrite Z.mod_small by lia. rewrite (proj2 (Z.eqb_neq _ _)) by lia.
  apply bm_iter_nonempty in Hne. destruct (low_selectivity _ _); [|by apply apply_sparse_take_spec].
  unfold apply_sparse_filter, take_or_error. rewrite bool_decide_false by done.
  assert (Forall (λ i, 0 ≤ i < arr_len base) (bm_iter positions)) as Hr.
  { apply Forall_forall. intros x Hx. by apply Hin, elem_of_bm_iter. }
  destruct (arr_take_in_range base _ Hr) as (r & -> & Hl & _). exists r. cbn.
  by rewrite bm_cardinality_iter.
Qed.

Lemma sparse_patch_keeps_base_witness :
  ∃ r, apply_sparse_patch_vectorized (B := SortedBitmap)
         (int_array [Some 10; None; Some 30]) (bm_from_iter [1; 2]) [1; 7; 8]
       = Done (Ok r) ∧ same_values r (int_array [Some 10; None; Some 30]) ∧
       ∀ i, 0 ≤ i < 3 → arr_is_null r i = false.
Proof.
  pose proof (sparse_patch_keeps_base (int_array [Some 10; None; Some 30])
                (bm_from_iter (B := SortedBitmap) [1; 2]) [1; 7; 8]) as Hw.
  replace (low_selectivity _ _) with false in Hw by (vm_compute; reflexivity).
  apply Hw; [done|reflexivity|done|].
  intros x. rewrite bm_from_iter_set. cbn. set_solver by lia.
Defined.

(** [apply_deltas_to_batch] never applies an update.  On a well-formed batch
    of distinct columns with at most a hundred rows, whatever the deltas (with row
    offsets inside the batch), the call succeeds and every column of the result
    has the values it had: no cell's after-image reaches the result. *)
Theorem batch_deltas_not_applied `{ArrowLaws Arr} `{!Batches Arr} `{!BatchesLaws Arr} `{RoaringLaws B}
    (batch : RecordBatch Arr) deltas :
  NoDup (f_name <$> rb_fields batch) → batch_wf batch → rb_columns batch ≠ [] →
  1 ≤ rb_rows batch ≤ 100 → Forall (λ c, blendable (arr_type c) = true) (rb_columns batch) →
  Forall (λ d, 0 ≤ row_offset d < rb_rows batch) deltas →
  ∃ batch', apply_deltas_to_batch (B := B) batch deltas = Done (Ok batch') ∧
    rb_fields batch' = rb_fields batch ∧ Forall2 same_values (rb_columns batch') (rb_columns batch).
Proof.
  intros Hnd Hwf Hne Hrows Hcols Hdeltas. rewrite Forall_forall in Hcols. rewrite Forall_forall in Hdeltas.
  destruct (patched_columns_keep (B := B) batch (group_by_column deltas)) as (m & Hm & Hs); [done| |].
  { intros name ds col Hin Hcol.
    destruct (list_elem_of_lookup_1 _ _ Hcol) as [i Hi].
    destruct (Forall2_lookup_r _ _ _ _ _ Hwf Hi) as (f & _ & Hl & _).
    apply apply_column_deltas_keeps; [lia|by apply Hcols|]. intros d Hd'. rewrite Hl. apply Hdeltas.
    pose proof (group_by_column_sub deltas) as Hg. rewrite Forall_forall in Hg. by apply (Hg _ Hin). }
  unfold apply_deltas_to_batch. destruct deltas as [|d0 deltas].
  { exists batch. split_and!; [done|done|]. by apply Forall_Forall2_diag, Forall_forall. }
  rewrite Hm. set (cols := zip_with _ _ _).
  assert (Forall2 same_values cols (rb_columns batch)) as Hsame.
  { apply Forall2_same_length_lookup. unfold cols. split.
    - rewrite length_zip_with, (Forall2_length _ _ _ Hwf). lia.
    - intros i a col Ha Hcol. apply lookup_zip_with_Some in Ha as (f & col0 & -> & Hf & ?). simplify_eq.
      destruct (m !! f_name f) as [r|] eqn:Er; cbn; [|done].
      destruct (Hs _ _ Er) as (j & f' & col' & Hj & Hname & Hcol' & Hr).
      assert (i = j) as ->; [|by simplify_eq].
      apply (NoDup_lookup (f_name <$> rb_fields batch) i j (f_name f)); [done| |];
        rewrite list_lookup_fmap; [by rewrite Hf|rewrite Hj; cbn; congruence]. }
  exists (Build_RecordBatch (rb_fields batch) cols (rb_rows batch)). split; [|done].
  rewrite (try_new_ok _ _ (rb_rows batch)); [done| |].
  - intros Hnil. rewrite Hnil in Hsame. by apply Forall2_nil_inv_l in Hsame.
  - apply Forall2_same_length_lookup. split; [by rewrite (Forall2_length _ _ _ Hwf), (Forall2_length _ _ _ Hsame)|].
    intros i f a Hf Ha. destruct (Forall2_lookup_l _ _ _ _ _ Hsame Ha) as (col & Hcol & Hv).
    eapply same_values_fits; [done|]. destruct (Forall2_lookup_l _ _ _ _ _ Hwf Hf) as (? & ? & ?). by simplify_eq.
Qed.

Definition demo_batch : RecordBatch ListArray :=
  {| rb_fields := [{| f_name := "k"; f_type := Int64; f_nullable := false |};
                   {| f_name := "v"; f_type := Int64; f_nullable := true |}];
     rb_columns := [int_array [Some 1; Some 2]; int_array [Some 10; None]];
     rb_rows := 2 |}.
Definition demo_deltas : list DeltaCell :=
  [{| seg_id := "s"; row_offset := 1; column := "v"; txn_id := 5; before := None;
      after := Some [1; 99]; committed := true; ts := 0 |}].

Lemma batch_deltas_not_applied_witness :
  ∃ batch', apply_deltas_to_batch (B := SortedBitmap) demo_batch demo_deltas = Done (Ok batch') ∧
    rb_fields batch' = rb_fields demo_batch ∧ Forall2 same_values (rb_columns batch') (rb_columns demo_batch).
Proof.
  apply (batch_deltas_not_applied (B := SortedBitmap) demo_batch demo_deltas).
  - apply (bool_decide_unpack _). vm_compute. exact I.
  - repeat constructor; cbn; [apply (bool_decide_unpack _); vm_compute; exact I|discriminate].
  - done.
  - done.
  - repeat constructor.
  - repeat constructor; cbn; lia.
Defined.
