(* ===== verification/DelMask.v ===== *)
(** The adaptive delete mask (segment/adaptive_del_mask.rs): a set of deleted
    rows in one of three representations, switched by deletion rate. *)

From stdpp Require Import base gmap list sorting.
From S2P Require Import Prelude Roaring.

Local Open Scope Z_scope.

(** * Bit vectors *)

(** [bv.resize(n, false)] to a larger length. *)
Definition bv_grow (n : Z) (bv : list bool) : list bool :=
  bv ++ replicate (Z.to_nat (n - zlen bv)) false.

(** [if idx >= bv.len() { bv.resize(idx + 1, false) }; bv.set(idx, true)] *)
Definition bv_mark (row : Z) (bv : list bool) : list bool :=
  let bv := if zlen bv <=? row then bv_grow (row + 1) bv else bv in
  <[Z.to_nat row := true]> bv.

(** The indices of the set bits from offset [i] on: [iter_ones]. *)
Fixpoint bv_ones (i : Z) (bv : list bool) : list Z :=
  match bv with
  | [] => []
  | b :: bv' => if b then i :: bv_ones (i + 1) bv' else bv_ones (i + 1) bv'
  end.

(** * The mask *)

Inductive Representation := RSparse | RRoaring | RDense.

#[export] Instance Representation_eq_dec : EqDecision Representation.
Proof. solve_decision. Defined.

(** [SPARSE_THRESHOLD] and [DENSE_THRESHOLD] *)
Definition SPARSE_THRESHOLD : f64 := f64_lit 1 100.
Definition DENSE_THRESHOLD : f64 := f64_lit 3 10.

Definition from_rate (rate : f64) : Representation :=
  if f64_ltb rate SPARSE_THRESHOLD then RSparse
  else if f64_ltb rate DENSE_THRESHOLD then RRoaring else RDense.

(** [if total == 0 { 0.0 } else { n as f64 / total as f64 }] *)
Definition deletion_rate (n total_rows : Z) : f64 :=
  if total_rows =? 0 then f64_of_Z 0 else f64_div (f64_of_Z n) (f64_of_Z total_rows).

Inductive AdaptiveDelMask (B : Type) :=
  | Sparse (set : list Z)
  | Roaring (bm : B)
  | Dense (bv : list bool).
Arguments Sparse {B} set.
Arguments Roaring {B} bm.
Arguments Dense {B} bv.

Section del_mask.
Context `{RB : Roaring.Roaring B}.
Implicit Types m : AdaptiveDelMask B.

Definition del_mask_new : AdaptiveDelMask B := Sparse [].

Definition with_representation (rep : Representation) : AdaptiveDelMask B :=
  match rep with
  | RSparse => Sparse []
  | RRoaring => Roaring bm_new
  | RDense => Dense []
  end.

Definition delete_inner m (row : Z) : AdaptiveDelMask B :=
  match m with
  | Sparse set => Sparse (bs_insert row set)
  | Roaring bm => Roaring (bm_add row bm)
  | Dense bv => Dense (bv_mark row bv)
  end.

Definition mask_delete m (row : Z) : AdaptiveDelMask B := delete_inner m row.

Definition with_capacity (total_rows : Z) (deleted_rows : list Z) : AdaptiveDelMask B :=
  let rate := deletion_rate (zlen deleted_rows) total_rows in
  for_each deleted_rows (with_representation (from_rate rate)) mask_delete.

Definition representation m : Representation :=
  match m with
  | Sparse _ => RSparse
  | Roaring _ => RRoaring
  | Dense _ => RDense
  end.

Definition is_deleted m (row : Z) : bool :=
  match m with
  | Sparse set => bool_decide (row ∈ set)
  | Roaring bm => bm_contains row bm
  | Dense bv => default false (bv !! Z.to_nat row)
  end.

Definition deleted_count m : Z :=
  match m with
  | Sparse set => zlen set
  | Roaring bm => bm_cardinality bm
  | Dense bv => zlen (bv_ones 0 bv)
  end.

Definition mask_iter m : list Z :=
  match m with
  | Sparse set => set
  | Roaring bm => bm_iter bm
  | Dense bv => wrap32 <$> bv_ones 0 bv
  end.

Definition to_vec m : list Z := mask_iter m.

Definition convert_to m (target : Representation) : AdaptiveDelMask B :=
  match m, target with
  | Sparse set, RSparse => Sparse set
  | Sparse set, RRoaring => Roaring (for_each set bm_new (λ bm row, bm_add row bm))
  | Sparse set, RDense => Dense (for_each set [] (λ bv row, bv_mark row bv))
  | Roaring bm, RSparse => Sparse (for_each (bm_iter bm) [] (λ s row, bs_insert row s))
  | Roaring bm, RRoaring => Roaring bm
  | Roaring bm, RDense => Dense (for_each (bm_iter bm) [] (λ bv row, bv_mark row bv))
  | Dense bv, RSparse => Sparse (for_each (wrap32 <$> bv_ones 0 bv) [] (λ s row, bs_insert row s))
  | Dense bv, RRoaring => Roaring (for_each (wrap32 <$> bv_ones 0 bv) bm_new (λ bm row, bm_add row bm))
  | Dense bv, RDense => Dense bv
  end.

Definition switch_if_needed m (total_rows : Z) : AdaptiveDelMask B :=
  let target := from_rate (deletion_rate (deleted_count m) total_rows) in
  if bool_decide (representation m = target) then m else convert_to m target.

Definition mask_is_empty m : bool := deleted_count m =? 0.

(** ** Filtering a range *)

(** [while cur < del { push(cur) }; cur = del + 1] over the deleted rows, then the
    rest of the range. *)
Fixpoint gaps (cur stop : Z) (dels : list Z) : list Z :=
  match dels with
  | [] => seqZ cur (stop - cur)
  | del :: dels' => seqZ cur (del - cur) ++ gaps (del + 1) stop dels'
  end.

(** The same over the whole bitmap: rows before the range are skipped, the first
    one after it stops the loop. *)
Fixpoint gaps_scan (start stop cur : Z) (dels : list Z) : list Z :=
  match dels with
  | [] => seqZ cur (stop - cur)
  | del :: dels' =>
      if del <? start then gaps_scan start stop cur dels'
      else if stop <=? del then seqZ cur (stop - cur)
      else seqZ cur (del - cur) ++ gaps_scan start stop (del + 1) dels'
  end.

(** [range.filter(|&r| !self.is_deleted(r)).collect()] *)
Definition keep_range m (start stop : Z) : list Z :=
  filter (λ r, is_deleted m r = false) (seqZ start (stop - start)).

(** [del * 3 < size * 10] on [u32] *)
Definition few_deleted (del_in_range range_size : Z) : bool :=
  wrap32 (del_in_range * 3) <? wrap32 (range_size * 10).

(** Slicing the bit vector beyond its end panics. *)
Definition filter_not_deleted m (start stop : Z) : outcome (list Z) :=
  let range_size := saturating_sub stop start in
  if range_size =? 0 then Done [] else
  match m with
  | Sparse set =>
      let in_range := filter (λ x, start ≤ x < stop) set in
      Done (if few_deleted (wrap32 (zlen in_range)) range_size
            then gaps start stop in_range else keep_range m start stop)
  | Roaring bm =>
      Done (if few_deleted (wrap32 (bm_range_cardinality bm start stop)) range_size
            then gaps_scan start stop start (bm_iter bm) else keep_range m start stop)
  | Dense bv =>
      if zlen bv <? stop then Panic else Done (keep_range m start stop)
  end.

(** ** Union *)

Definition merge_cross m other : AdaptiveDelMask B :=
  let new_self := for_each (mask_iter m) (with_representation (representation other)) delete_inner in
  for_each (mask_iter other) new_self delete_inner.

(** The bitwise or of two vectors, at the longer length. *)
Definition bv_or (a b : list bool) : list bool :=
  (λ i, default false (a !! i) || default false (b !! i)) <$> seq 0 (max (length a) (length b)).

Definition mask_merge m other : AdaptiveDelMask B :=
  match m, other with
  | Sparse a, Sparse b => Sparse (for_each b a (λ s row, bs_insert row s))
  | Sparse a, Roaring b =>
      if bool_decide (a = []) then Sparse (for_each (bm_iter b) [] (λ s row, bs_insert row s))
      else if bm_cardinality b =? 0 then Sparse a
      else Roaring (bm_or (for_each a bm_new (λ bm row, bm_add row bm)) b)
  | Roaring a, Sparse b => Roaring (for_each b a (λ bm row, bm_add row bm))
  | Roaring a, Roaring b => Roaring (bm_or a b)
  | Dense a, Dense b => Dense (bv_or a b)
  | _, _ => merge_cross m other
  end.
End del_mask.

(** * Proofs *)

Lemma elem_of_bv_ones i bv x : x ∈ bv_ones i bv ↔ i ≤ x ∧ bv !! Z.to_nat (x - i) = Some true.
Proof.
  revert i. induction bv as [|b bv IH]; intros i; cbn [bv_ones].
  - rewrite lookup_nil. split; [by intros ?%elem_of_nil|naive_solver].
  - assert (x ∈ bv_ones (i + 1) bv ↔ i < x ∧ (b :: bv) !! Z.to_nat (x - i) = Some true) as IH'.
    { rewrite IH. destruct (Z.lt_ge_cases i x); [|intuition lia].
      replace (Z.to_nat (x - i)) with (S (Z.to_nat (x - (i + 1)))) by lia. cbn. intuition lia. }
    assert (x = i → (b :: bv) !! Z.to_nat (x - i) = Some b) as Hi.
    { intros ->. by rewrite Z.sub_diag. }
    destruct b; [rewrite elem_of_cons|]; rewrite IH'; destruct (Z.eq_dec x i) as [->|];
      rewrite ?Z.sub_diag in *; cbn in *; intuition (lia || congruence).
Qed.

Lemma bv_ones_sorted i bv : StronglySorted Z.lt (bv_ones i bv).
Proof.
  revert i. induction bv as [|[] bv IH]; intros i; cbn; [constructor| |apply IH].
  constructor; [apply IH|]. apply Forall_forall. intros x [Hx _]%elem_of_bv_ones. lia.
Qed.

Lemma bv_mark_length row bv : 0 ≤ row → zlen (bv_mark row bv) = Z.max (zlen bv) (row + 1).
Proof.
  intros Hr. unfold bv_mark. pose proof (zlen_nonneg bv). destruct (Z.leb_spec (zlen bv) row);
    unfold zlen in *; rewrite length_insert; unfold bv_grow, zlen;
    rewrite ?length_app, ?length_replicate; lia.
Qed.

Lemma bv_mark_lookup row bv k : 0 ≤ row →
  bv_mark row bv !! k = Some true ↔ k = Z.to_nat row ∨ bv !! k = Some true.
Proof.
  intros Hr. unfold bv_mark. set (bv' := if zlen bv <=? row then bv_grow (row + 1) bv else bv).
  assert (Z.to_nat row < length bv')%nat as Hlen.
  { unfold bv'. destruct (Z.leb_spec (zlen bv) row); unfold bv_grow, zlen in *;
      rewrite ?length_app, ?length_replicate; lia. }
  assert (bv' !! k = Some true ↔ bv !! k = Some true) as Hk.
  { unfold bv'. destruct (zlen bv <=? row); [|done]. unfold bv_grow. rewrite lookup_app.
    destruct (bv !! k); [done|]. rewrite lookup_replicate. naive_solver. }
  rewrite list_lookup_insert_Some, Hk. destruct (decide (k = Z.to_nat row)) as [->|]; naive_solver.
Qed.

Section mask_proofs.
Context `{RL : RoaringLaws B}.
Implicit Types m : AdaptiveDelMask B.

(** The abstract value: the set of deleted rows. *)
Definition mask_set m : gset Z :=
  match m with
  | Sparse set => list_to_set set
  | Roaring bm => bm_set bm
  | Dense bv => list_to_set (bv_ones 0 bv)
  end.

(** Rows are [u32]s, the sparse list is an ordered set, and the bit vector is no
    longer than the row space. *)
Definition mask_wf m : Prop :=
  match m with
  | Sparse set => StronglySorted Z.lt set ∧ ∀ x, x ∈ set → is_u32 x
  | Roaring bm => ∀ x, x ∈ bm_set bm → is_u32 x
  | Dense bv => zlen bv ≤ u32_max + 1
  end.

Lemma elem_of_mask_dense bv x : x ∈ mask_set (Dense bv) ↔ 0 ≤ x ∧ bv !! Z.to_nat x = Some true.
Proof. cbn. rewrite elem_of_list_to_set, elem_of_bv_ones. by rewrite Z.sub_0_r. Qed.

Lemma mask_set_u32 m x : mask_wf m → x ∈ mask_set m → is_u32 x.
Proof.
  destruct m as [set|bm|bv]; cbn [mask_wf].
  - intros [_ Hu] Hx. apply Hu. by apply elem_of_list_to_set in Hx.
  - auto.
  - intros Hl [H0 Hx%lookup_lt_Some]%elem_of_mask_dense. unfold is_u32, zlen in *. lia.
Qed.

Lemma mask_iter_spec m : mask_wf m → StronglySorted Z.lt (mask_iter m) ∧ list_to_set (mask_iter m) = mask_set m.
Proof.
  intros Hwf. destruct m as [set|bm|bv]; cbn [mask_iter mask_set].
  - by destruct Hwf.
  - split; [apply bm_iter_sorted|done].
  - assert (wrap32 <$> bv_ones 0 bv = bv_ones 0 bv) as ->; [|split; [apply bv_ones_sorted|done]].
    rewrite <- (list_fmap_id (bv_ones 0 bv)) at 2. apply list_fmap_ext. intros i x Hx.
    apply list_elem_of_lookup_2 in Hx. assert (is_u32 x) as Hu.
    { apply (mask_set_u32 (Dense bv)); [done|]. cbn. by apply elem_of_list_to_set. }
    change (wrap32 x = x). unfold wrap32, is_u32, u32_max in *. apply Z.mod_small. lia.
Qed.

Lemma elem_of_mask_iter m x : mask_wf m → x ∈ mask_iter m ↔ x ∈ mask_set m.
Proof. intros Hwf. destruct (mask_iter_spec m Hwf) as [_ <-]. by rewrite elem_of_list_to_set. Qed.

Lemma delete_inner_spec m row : is_u32 row → mask_wf m →
  mask_wf (delete_inner m row) ∧ mask_set (delete_inner m row) = {[row]} ∪ mask_set m.
Proof.
  intros Hr Hwf. destruct m as [set|bm|bv]; cbn [delete_inner mask_set].
  - destruct Hwf as [Hs Hu]. split.
    + split; [by apply bs_insert_sorted|]. intros x [->|Hx]%bs_insert_elem; auto.
    + apply set_eq. intros x. rewrite elem_of_union, !elem_of_list_to_set, bs_insert_elem. set_solver.
  - rewrite bm_add_set. split; [|done]. cbn. rewrite bm_add_set. cbn in Hwf. set_solver.
  - unfold is_u32 in Hr. split.
    + cbn in *. rewrite bv_mark_length by lia. unfold u32_max in *. lia.
    + apply set_eq. intros x. rewrite elem_of_union, elem_of_singleton.
      change (list_to_set (bv_ones 0 bv)) with (mask_set (Dense bv)).
      change (list_to_set (bv_ones 0 (bv_mark row bv))) with (mask_set (Dense (bv_mark row bv))).
      rewrite !elem_of_mask_dense, bv_mark_lookup by lia.
      split; [intros [? [?|?]]; [left; lia|auto]|intros [->|[? ?]]; [split; [lia|auto]|auto]].
Qed.

(** Marking a list of rows. *)
Lemma delete_all_spec rows m : (∀ x, x ∈ rows → is_u32 x) → mask_wf m →
  mask_wf (for_each rows m delete_inner) ∧
  mask_set (for_each rows m delete_inner) = list_to_set rows ∪ mask_set m.
Proof.
  unfold for_each. revert m. induction rows as [|row rows IH]; intros m Hr Hwf; cbn [foldl list_to_set].
  { split; [done|]. set_solver. }
  destruct (delete_inner_spec m row) as [Hwf' Hs]; [apply Hr; by left|done|].
  destruct (IH (delete_inner m row)) as [Hwf'' Hs']; [intros; apply Hr; by right|done|].
  split; [done|]. rewrite Hs', Hs. set_solver.
Qed.

Lemma with_representation_spec rep :
  mask_wf (with_representation (B := B) rep) ∧ mask_set (with_representation (B := B) rep) = ∅.
Proof.
  destruct rep; cbn; [| |done].
  - split; [split; [constructor|by intros ? ?%elem_of_nil]|done].
  - rewrite bm_new_set. split; [set_solver|done].
Qed.

(** A conversion is marking the mask's rows in an empty mask of the target form. *)
Lemma convert_to_delete m rep : representation m ≠ rep →
  convert_to m rep = for_each (mask_iter m) (with_representation rep) delete_inner.
Proof.
  assert (∀ rows bv, foldl delete_inner (Dense bv) rows =
            Dense (B := B) (foldl (λ bv row, bv_mark row bv) bv rows)) as HD.
  { induction rows; intros; cbn; auto. }
  assert (∀ rows s, foldl delete_inner (Sparse s) rows =
            Sparse (B := B) (foldl (λ s row, bs_insert row s) s rows)) as HS.
  { induction rows; intros; cbn; auto. }
  assert (∀ rows (bm : B), foldl delete_inner (Roaring bm) rows =
            Roaring (foldl (λ (bm : B) row, bm_add row bm) bm rows)) as HR.
  { induction rows; intros; cbn; auto. }
  unfold for_each.
  destruct m, rep; cbn [representation convert_to mask_iter with_representation]; try done;
    intros _; rewrite ?HD, ?HS, ?HR; done.
Qed.

Lemma convert_to_spec m rep : mask_wf m →
  mask_wf (convert_to m rep) ∧ mask_set (convert_to m rep) = mask_set m ∧
  representation (convert_to m rep) = rep.
Proof.
  intros Hwf. split; [|split; [|by destruct m, rep]]; destruct (decide (representation m = rep)) as [<-|Hne].
  1,3: by destruct m.
  all: rewrite convert_to_delete by done;
    destruct (with_representation_spec rep) as [Hw Hs];
    destruct (mask_iter_spec m Hwf) as [_ Hi];
    destruct (delete_all_spec (mask_iter m) (with_representation rep)) as [Hwf' Hs'];
    [intros x Hx; apply (mask_set_u32 m); [done|]; by apply elem_of_mask_iter|done|].
  - done.
  - rewrite Hs', Hs, Hi. set_solver.
Qed.

(** ** Filtering *)

Lemma gaps_spec stop dels cur :
  StronglySorted Z.lt dels → (∀ d, d ∈ dels → cur ≤ d < stop) →
  gaps cur stop dels = filter (λ r, r ∉ dels) (seqZ cur (stop - cur)).
Proof.
  intros Hs. revert cur. induction Hs as [|d dels Hs IH Hd]; intros cur Hr; cbn [gaps].
  { symmetry. apply list_filter_id, Forall_forall. set_solver. }
  destruct (Hr d ltac:(by left)) as [Hcd Hds]. rewrite Forall_forall in Hd.
  replace (stop - cur) with ((d - cur) + (1 + (stop - (d + 1)))) by lia.
  rewrite (seqZ_app cur (d - cur)) by lia. rewrite filter_app. f_equal.
  { symmetry. apply list_filter_id, Forall_forall. intros x [Hx1 Hx2]%elem_of_seqZ.
    intros [->|Hin]%elem_of_cons; [lia|]. apply Hd in Hin. lia. }
  replace (cur + (d - cur)) with d by lia.
  rewrite (seqZ_app d 1) by lia. rewrite filter_app.
  change (seqZ d 1) with [0 + d]. rewrite Z.add_0_l. rewrite filter_cons, decide_False by set_solver. cbn.
  rewrite IH; [|intros d' Hd'; specialize (Hr d' ltac:(by right)); apply Hd in Hd'; lia].
  apply list_filter_iff'. intros x Hx%elem_of_seqZ. rewrite not_elem_of_cons. intuition lia.
Qed.

Lemma gaps_scan_filter start stop dels cur :
  StronglySorted Z.lt dels →
  gaps_scan start stop cur dels = gaps cur stop (filter (λ x, start ≤ x < stop) dels).
Proof.
  intros Hs. revert cur. induction Hs as [|d dels Hs IH Hd]; intros cur; cbn [gaps_scan]; [done|].
  rewrite filter_cons. destruct (Z.ltb_spec d start).
  { rewrite decide_False by lia. apply IH. }
  destruct (Z.leb_spec stop d).
  - rewrite decide_False by lia. replace (filter _ dels) with (@nil Z); [done|].
    symmetry. apply list_filter_none. intros x Hx. rewrite Forall_forall in Hd. apply Hd in Hx. lia.
  - rewrite decide_True by lia. cbn [gaps]. by rewrite IH.
Qed.

Lemma is_deleted_spec m row : 0 ≤ row → is_deleted m row = bool_decide (row ∈ mask_set m).
Proof.
  intros Hr. destruct m as [set|bm|bv].
  - cbn. apply bool_decide_ext. by rewrite elem_of_list_to_set.
  - apply bm_contains_set.
  - apply eq_true_iff_eq. rewrite bool_decide_eq_true, elem_of_mask_dense. cbn.
    destruct (bv !! Z.to_nat row) as [[]|]; naive_solver.
Qed.

Lemma keep_range_spec m start stop : 0 ≤ start →
  keep_range m start stop = filter (λ r, r ∉ mask_set m) (seqZ start (stop - start)).
Proof.
  intros Hs. apply list_filter_iff'. intros x Hx%elem_of_seqZ.
  rewrite is_deleted_spec by lia. by rewrite bool_decide_eq_false.
Qed.

Lemma filter_gaps_spec m dels start stop :
  StronglySorted Z.lt dels → (∀ x, x ∈ dels ↔ x ∈ mask_set m ∧ start ≤ x < stop) →
  gaps start stop dels = filter (λ r, r ∉ mask_set m) (seqZ start (stop - start)).
Proof.
  intros Hs Hin. rewrite gaps_spec; [|done|intros d Hd; by apply Hin in Hd as [_ ?]].
  apply list_filter_iff'. intros x Hx%elem_of_seqZ. rewrite Hin. intuition lia.
Qed.

(** ** Union *)

Lemma merge_cross_spec m o : mask_wf m → mask_wf o →
  mask_wf (merge_cross m o) ∧ mask_set (merge_cross m o) = mask_set m ∪ mask_set o.
Proof.
  intros Hm Ho. unfold merge_cross. destruct (with_representation_spec (representation o)) as [Hw Hs].
  destruct (mask_iter_spec m Hm) as [_ Hi], (mask_iter_spec o Ho) as [_ Hi'].
  destruct (delete_all_spec (mask_iter m) (with_representation (representation o))) as [Hw1 Hs1];
    [intros x Hx%elem_of_mask_iter; [by apply (mask_set_u32 m)|done]|done|].
  edestruct (delete_all_spec (mask_iter o)) as [Hw2 Hs2];
    [intros x Hx%elem_of_mask_iter; [by apply (mask_set_u32 o)|done]|exact Hw1|].
  split; [done|]. rewrite Hs2, Hs1, Hs, Hi, Hi'. set_solver.
Qed.

Lemma bv_or_lookup a b k : bv_or a b !! k = Some true ↔ a !! k = Some true ∨ b !! k = Some true.
Proof.
  unfold bv_or. rewrite list_lookup_fmap. destruct (decide (k < max (length a) (length b))%nat) as [Hk|Hk].
  - rewrite lookup_seq_lt by done. cbn.
    destruct (a !! k) as [[]|], (b !! k) as [[]|]; cbn; naive_solver.
  - rewrite lookup_seq_ge by lia. rewrite !lookup_ge_None_2 by lia. naive_solver.
Qed.

Lemma merge_spec m o : mask_wf m → mask_wf o →
  mask_wf (mask_merge m o) ∧ mask_set (mask_merge m o) = mask_set m ∪ mask_set o.
Proof.
  intros Hm Ho.
  assert (∀ rows x, (∀ y, y ∈ rows → is_u32 y) → mask_wf x →
    mask_wf (for_each rows x delete_inner) ∧
    mask_set (for_each rows x delete_inner) = mask_set x ∪ list_to_set rows) as Hall.
  { intros rows x Hr Hx. destruct (delete_all_spec rows x Hr Hx) as [? ->]. split; [done|set_solver]. }
  destruct m as [a|a|a], o as [b|b|b]; cbn [mask_merge]; try by apply merge_cross_spec.
  - destruct Ho as [_ Hb]. destruct (Hall b (Sparse a) Hb Hm) as [Hw Hs].
    assert (for_each b (Sparse a) delete_inner = Sparse (B := B) (for_each b a (λ s row, bs_insert row s))) as Heq.
    { unfold for_each. clear. revert a. induction b; intros; cbn; auto. }
    by rewrite Heq in Hw, Hs.
  - case_bool_decide as Ha.
    { subst. destruct (convert_to_spec (Roaring b) RSparse Ho) as (Hw & Hs & _).
      cbn [convert_to] in Hw, Hs. split; [done|]. rewrite Hs. set_solver. }
    destruct (Z.eqb_spec (bm_cardinality b) 0) as [Hz|Hz].
    { split; [done|]. rewrite bm_cardinality_set in Hz. cbn.
      assert (bm_set b = ∅) as -> by (apply leibniz_equiv, size_empty_inv; lia). set_solver. }
    change (for_each a bm_new _) with (bm_from_iter (B := B) a). cbn [mask_wf mask_set]. rewrite bm_or_set, bm_from_iter_set.
    split; [|done]. destruct Hm as [_ Hu]. cbn in Ho. set_solver.
  - destruct Ho as [_ Hb]. destruct (Hall b (Roaring a) Hb Hm) as [Hw Hs].
    assert (for_each b (Roaring a) delete_inner =
            Roaring (for_each b a (λ (bm : B) row, bm_add row bm))) as Heq.
    { unfold for_each. clear. revert a. induction b; intros; cbn; auto. }
    by rewrite Heq in Hw, Hs.
  - cbn. rewrite bm_or_set. split; [|done]. cbn in *. set_solver.
  - split.
    + cbn in *. unfold bv_or, zlen in *. rewrite length_fmap, length_seq. lia.
    + apply set_eq. intros x. rewrite elem_of_union, !elem_of_mask_dense, bv_or_lookup. tauto.
Qed.
End mask_proofs.

(** * Properties *)

(** C12: the mask is a set of rows whatever its representation: on a well-formed
    mask, deleting a row adds it, [is_deleted] decides membership,
    [deleted_count] is the cardinality, [to_vec] lists the members in ascending
    order, and switching representation changes none of this and reaches the
    representation of the deletion rate. *)
Theorem del_mask_refines_set `{RoaringLaws B} (m : AdaptiveDelMask B) row total :
  mask_wf m → is_u32 row →
  mask_wf (mask_delete m row) ∧ mask_set (mask_delete m row) = {[row]} ∪ mask_set m ∧
  is_deleted m row = bool_decide (row ∈ mask_set m) ∧
  deleted_count m = Z.of_nat (size (mask_set m)) ∧
  StronglySorted Z.lt (to_vec m) ∧ list_to_set (to_vec m) = mask_set m ∧
  mask_wf (switch_if_needed m total) ∧ mask_set (switch_if_needed m total) = mask_set m ∧
  representation (switch_if_needed m total) = from_rate (deletion_rate (deleted_count m) total).
Proof.
  intros Hwf Hr. destruct (delete_inner_spec m row Hr Hwf) as [Hw Hs].
  destruct (mask_iter_spec m Hwf) as [Hi Hi'].
  split_and!; [done|done|unfold is_u32 in Hr; apply is_deleted_spec; lia| |done|done| | |].
  - destruct m as [set|bm|bv]; cbn; [|apply bm_cardinality_set|];
      unfold zlen; rewrite size_list_to_set; [done|by apply bs_sorted_NoDup; destruct Hwf
      |done|apply bs_sorted_NoDup, bv_ones_sorted].
  - unfold switch_if_needed. case_bool_decide; [done|]. by apply convert_to_spec.
  - unfold switch_if_needed. case_bool_decide; [done|]. by apply convert_to_spec.
  - unfold switch_if_needed. case_bool_decide; [done|]. by apply convert_to_spec.
Qed.

Lemma del_mask_refines_set_witness :
  mask_set (mask_delete (B := SortedBitmap) (Dense [true; false; true]) 5) = {[5]} ∪ {[0; 2]}.
Proof.
  rewrite (proj1 (proj2 (del_mask_refines_set (B := SortedBitmap) (Dense [true; false; true]) 5 10
    ltac:(vm_compute; discriminate) ltac:(vm_compute; intuition discriminate)))).
  reflexivity.
Defined.

(** Merging two masks is set union for all nine combinations of
    representations, and the result is well formed. *)
Theorem del_mask_merge_union `{RoaringLaws B} (m o : AdaptiveDelMask B) :
  mask_wf m → mask_wf o →
  mask_wf (mask_merge m o) ∧ mask_set (mask_merge m o) = mask_set m ∪ mask_set o.
Proof. apply merge_spec. Qed.

Lemma del_mask_merge_union_witness :
  mask_set (mask_merge (B := SortedBitmap) (Sparse [1; 4]) (Dense [true; false; true]))
  = {[1; 4]} ∪ {[0; 2]}.
Proof.
  rewrite (proj2 (del_mask_merge_union (B := SortedBitmap) (Sparse [1; 4]) (Dense [true; false; true])
    ltac:(split; [repeat constructor; lia|intros x; rewrite !elem_of_cons, elem_of_nil; unfold is_u32, u32_max; lia])
    ltac:(vm_compute; discriminate))).
  reflexivity.
Defined.

(** Filtering a range returns exactly the rows of the range that are not
    deleted, in ascending order, by whichever algorithm is selected; the one
    exception is a dense mask shorter than the range, which panics. *)
Theorem filter_not_deleted_exact `{RoaringLaws B} (m : AdaptiveDelMask B) start stop :
  mask_wf m → is_u32 start → is_u32 stop →
  filter_not_deleted m start stop =
  match m with
  | Dense bv => if (start <? stop) && (zlen bv <? stop) then Panic
                else Done (filter (λ r, r ∉ mask_set m) (seqZ start (stop - start)))
  | _ => Done (filter (λ r, r ∉ mask_set m) (seqZ start (stop - start)))
  end.
Proof.
  intros Hwf Hs He. unfold is_u32 in *. unfold filter_not_deleted, saturating_sub.
  destruct (Z.lt_ge_cases start stop) as [Hlt|Hge].
  - rewrite (proj2 (Z.leb_le _ _)), (proj2 (Z.eqb_neq _ _)) by lia.
    destruct m as [set|bm|bv].
    + f_equal. rewrite <- keep_range_spec by lia. destruct (few_deleted _ _); [|done].
      destruct Hwf as [Hst _]. rewrite keep_range_spec by lia. apply filter_gaps_spec.
      * by apply bs_filter_sorted.
      * intros x. rewrite list_elem_of_filter. cbn. rewrite elem_of_list_to_set. tauto.
    + f_equal. rewrite <- keep_range_spec by lia. destruct (few_deleted _ _); [|done].
      rewrite keep_range_spec by lia. rewrite gaps_scan_filter by apply bm_iter_sorted.
      apply filter_gaps_spec; [apply bs_filter_sorted, bm_iter_sorted|].
      intros x. rewrite list_elem_of_filter, elem_of_bm_iter. cbn. tauto.
    + rewrite (proj2 (Z.ltb_lt start stop) Hlt). cbn [andb]. destruct (zlen bv <? stop); [done|].
      f_equal. apply keep_range_spec. lia.
  - assert ((if start <=? stop then stop - start else 0) = 0) as -> by (zcase; lia).
    rewrite Z.eqb_refl, (proj2 (Z.ltb_ge start stop) Hge). cbn [andb].
    replace (seqZ start (stop - start)) with (@nil Z); [by destruct m|].
    symmetry. apply seqZ_nil. lia.
Qed.

Lemma filter_not_deleted_exact_witness :
  filter_not_deleted (B := SortedBitmap) (Dense [true; false; true; false]) 1 4 = Done [1; 3] ∧
  filter_not_deleted (B := SortedBitmap) (Dense [true; false; true; false]) 1 5 = Panic.
Proof.
  split.
  - rewrite filter_not_deleted_exact; vm_compute; [reflexivity|discriminate| |]; intuition discriminate.
  - rewrite filter_not_deleted_exact; vm_compute; [reflexivity|discriminate| |]; intuition discriminate.
Defined.
