(* ===== verification/UpdMask.v ===== *)
(** Update masks (segment/upd_mask.rs): per column, position to new value, with a
    byte budget maintained incrementally, and their application to a column. *)

From stdpp Require Import base gmap strings list.
From S2P Require Import Prelude Kv Arrow.

Local Open Scope Z_scope.

Definition MAX_UPDATES_BYTES : Z := 64 * 1024 * 1024.

(** * Reading values *)

(** [if b.len() < n { None } else { Some(from_le_bytes(b[..n])) }] *)
Definition read_le (n : nat) (b : bytes) : option Z :=
  if zlen b <? Z.of_nat n then None else Some (from_le_bytes (take n b)).

Definition bytes_to_i64 (b : bytes) : option Value := VInt ∘ as_signed 64 <$> read_le 8 b.
Definition bytes_to_i32 (b : bytes) : option Value := VInt ∘ as_signed 32 <$> read_le 4 b.
Definition bytes_to_i16 (b : bytes) : option Value :=
  match b with
  | [] => None
  | [b0] => Some (VInt b0)
  | b0 :: b1 :: _ => Some (VInt (as_signed 16 (from_le_bytes [b0; b1])))
  end.
Definition bytes_to_i8 (b : bytes) : option Value := VInt ∘ as_signed 8 <$> head b.
Definition bytes_to_u64 (b : bytes) : option Value := VInt <$> read_le 8 b.
Definition bytes_to_u32 (b : bytes) : option Value := VInt <$> read_le 4 b.
Definition bytes_to_u16 (b : bytes) : option Value := VInt <$> read_le 2 b.
Definition bytes_to_u8 (b : bytes) : option Value := VInt <$> head b.
Definition bytes_to_f64 (b : bytes) : option Value := VFloat <$> read_le 8 b.
Definition bytes_to_f32 (b : bytes) : option Value := VFloat <$> read_le 4 b.

(** * The mask *)

Record UpdMask := {
  total_rows : Z;
  updates : gmap string (gmap Z bytes);
  current_bytes : Z
}.

Definition UpdMask_new (n : Z) : UpdMask := {| total_rows := n; updates := ∅; current_bytes := 0 |}.

(** [size_of::<String>() + col.len() + size_of::<u64>() + size_of::<Vec<u8>>() + value.len()] *)
Definition entry_size (col : string) (value : bytes) : Z :=
  24 + Z.of_nat (String.length col) + 8 + 24 + zlen value.

Definition upd_get (m : UpdMask) (col : string) (pos : Z) : option bytes :=
  updates m !! col ≫= λ u, u !! pos.

(** [set], with the process-wide counter of discarded updates. *)
Definition upd_set (m : UpdMask) (col : string) (pos : Z) (value : bytes) (discarded : Z)
    : UpdMask * Z * bool :=
  if MAX_UPDATES_BYTES <? current_bytes m + entry_size col value
  then (m, wrap64 (discarded + 1), false)
  else
    let old_entry_size := match upd_get m col pos with Some v => entry_size col v | None => 0 end in
    ({| total_rows := total_rows m;
        updates := <[col := <[pos := value]> (default ∅ (updates m !! col))]> (updates m);
        current_bytes := current_bytes m + entry_size col value - old_entry_size |},
     discarded, true).

Section upd_mask.
Context `{HashIter}.

Definition has_updates (m : UpdMask) : bool :=
  existsb (λ e, negb (bool_decide (e.2 = ∅))) (hash_iter (updates m)).

Definition update_count (m : UpdMask) (col : string) : Z :=
  match updates m !! col with Some u => Z.of_nat (size u) | None => 0 end.

Definition zsum (l : list Z) : Z := foldr Z.add 0 l.

Definition total_updates (m : UpdMask) : Z :=
  zsum ((λ e, Z.of_nat (size e.2)) <$> hash_iter (updates m)).

(** The sum that [recompute_bytes] stores. *)
Definition column_bytes (col : string) (u : gmap Z bytes) : Z :=
  zsum ((λ e, entry_size col e.2) <$> hash_iter u).
Definition all_bytes (u : gmap string (gmap Z bytes)) : Z :=
  zsum ((λ e, column_bytes e.1 e.2) <$> hash_iter u).

Definition recompute_bytes (m : UpdMask) : UpdMask :=
  {| total_rows := total_rows m; updates := updates m; current_bytes := all_bytes (updates m) |}.

(** [current_bytes] is not serialized: the file holds the other two fields. *)
Context `{Codec (Z * gmap string (gmap Z bytes))}.

Definition upd_save (m : UpdMask) : Result bytes := codec_err (encode (total_rows m, updates m)).

Definition upd_load (data : bytes) : Result UpdMask :=
  p <-? codec_err (decode data);
  Ok (recompute_bytes {| total_rows := p.1; updates := p.2; current_bytes := 0 |}).
End upd_mask.

(** ** Application *)

Section upd_apply.
Context `{Arrow Arr}.

(** What a typed branch appends for a position with an update: [Some] with the
    slot, or [None] to fall back to the original slot. *)
Definition decode_update (t : DataType) (b : bytes) : option (option Value) :=
  match t with
  | Int64 => Some <$> bytes_to_i64 b
  | Float64 => Some <$> bytes_to_f64 b
  | Float32 => Some <$> bytes_to_f32 b
  | Int32 => Some <$> bytes_to_i32 b
  | Int16 => Some <$> bytes_to_i16 b
  | Int8 => Some <$> bytes_to_i8 b
  | UInt64 => Some <$> bytes_to_u64 b
  | UInt32 => Some <$> bytes_to_u32 b
  | UInt16 => Some <$> bytes_to_u16 b
  | UInt8 => Some <$> bytes_to_u8 b
  | Boolean => Some (Some (VBool (match b with b0 :: _ => negb (b0 =? 0) | [] => false end)))
  | Utf8 | LargeUtf8 => Some (VStr <$> from_utf8 b)
  | Binary | LargeBinary => Some (Some (VBin b))
  | _ => None
  end.

Definition typed (t : DataType) : bool :=
  match t with
  | Int64 | Float64 | Float32 | Int32 | Int16 | Int8 | UInt64 | UInt32 | UInt16 | UInt8
  | Boolean | Utf8 | LargeUtf8 | Binary | LargeBinary => true
  | _ => false
  end.

Definition upd_apply (m : UpdMask) (col : string) (original : Arr) : option Arr :=
  match updates m !! col with
  | None => None
  | Some col_updates =>
      if bool_decide (col_updates = ∅) then None else
      Some (if typed (arr_type original) then
              arr_build (arr_type original)
                ((λ i, match col_updates !! i with
                       | Some b => default (arr_slot original i) (decode_update (arr_type original) b)
                       | None => arr_slot original i
                       end) <$> seqZ 0 (arr_len original))
            else original)
  end.
End upd_apply.

(** * The manager *)

Definition UpdMaskManager := gmap string UpdMask.

Definition get_or_create (masks : UpdMaskManager) (seg_id : string) (n : Z) : UpdMaskManager * UpdMask :=
  match masks !! seg_id with
  | Some m => (masks, m)
  | None => (<[seg_id := UpdMask_new n]> masks, UpdMask_new n)
  end.

Definition manager_remove (masks : UpdMaskManager) (seg_id : string) : UpdMaskManager :=
  delete seg_id masks.

(** * Proofs *)

#[export] Instance zsum_proper : Proper (Permutation ==> eq) zsum.
Proof. unfold zsum. induction 1; cbn; lia. Qed.

Lemma zsum_app l1 l2 : zsum (l1 ++ l2) = zsum l1 + zsum l2.
Proof. unfold zsum. induction l1; cbn; lia. Qed.

Section upd_proofs.
Context `{HashIter}.

(** A sum over the entries of a map, when one entry changes. *)
Lemma map_zsum_insert `{Countable K} {A} (f : K → A → Z) (u : gmap K A) k a :
  zsum ((λ e, f e.1 e.2) <$> hash_iter (<[k := a]> u)) =
  zsum ((λ e, f e.1 e.2) <$> hash_iter u) + f k a - from_option (f k) 0 (u !! k).
Proof.
  rewrite !hash_iter_perm. destruct (u !! k) as [a'|] eqn:E; cbn.
  - rewrite <- (insert_delete_id u k a' E) at 2. rewrite <- (insert_delete_eq u k a).
    rewrite !map_to_list_insert by apply lookup_delete_eq. unfold zsum; cbn. lia.
  - rewrite map_to_list_insert by done. unfold zsum; cbn. lia.
Qed.

Lemma map_zsum_empty `{Countable K} {A} (f : K → A → Z) :
  zsum ((λ e, f e.1 e.2) <$> hash_iter (∅ : gmap K A)) = 0.
Proof. rewrite hash_iter_perm, map_to_list_empty. done. Qed.

Lemma all_bytes_set u col pos value :
  all_bytes (<[col := <[pos := value]> (default ∅ (u !! col))]> u) =
  all_bytes u + entry_size col value
  - match u !! col ≫= λ c, c !! pos with Some v => entry_size col v | None => 0 end.
Proof.
  unfold all_bytes. rewrite (map_zsum_insert (λ c m, column_bytes c m)).
  unfold column_bytes at 2. rewrite (map_zsum_insert (λ _ v, entry_size col v)).
  destruct (u !! col) as [c|] eqn:E; cbn.
  - fold (column_bytes col c). destruct (c !! pos); cbn; lia.
  - rewrite (map_zsum_empty (λ _ v, entry_size col v)), lookup_empty. cbn. lia.
Qed.

(** The counter is the size of the content and within the budget. *)
Definition upd_inv (m : UpdMask) : Prop :=
  current_bytes m = all_bytes (updates m) ∧ current_bytes m ≤ MAX_UPDATES_BYTES.

Lemma entry_size_pos col v : 0 ≤ entry_size col v.
Proof. unfold entry_size. pose proof (zlen_nonneg v). lia. Qed.

Lemma upd_set_inv m col pos v d : upd_inv m → upd_inv (upd_set m col pos v d).1.1.
Proof.
  intros [Hc Hb]. unfold upd_set. zcase; cbn; [done|]. split; cbn.
  - rewrite all_bytes_set, Hc. unfold upd_get. lia.
  - destruct (upd_get m col pos) as [v'|]; [pose proof (entry_size_pos col v')|]; lia.
Qed.

Lemma upd_new_inv n : upd_inv (UpdMask_new n).
Proof.
  split; cbn; [|done]. unfold all_bytes. by rewrite (map_zsum_empty (λ c m, column_bytes c m)).
Qed.
End upd_proofs.

(** * Properties *)

(** Over any sequence of [set] calls on a new mask, the incremental byte
    counter equals the recomputed size of the content and stays within the
    budget, whatever the iteration order of the hash maps. *)
Theorem upd_mask_budget `{HashIter} n (calls : list (string * Z * bytes)) d :
  upd_inv (foldl (λ st c, (upd_set st.1 c.1.1 c.1.2 c.2 st.2).1) (UpdMask_new n, d) calls).1.
Proof.
  assert (∀ st, upd_inv st.1 →
    upd_inv (foldl (λ st c, (upd_set st.1 c.1.1 c.1.2 c.2 st.2).1) st calls).1) as Hall.
  { induction calls as [|c calls IH]; intros st Hst; cbn; [done|]. by apply IH, upd_set_inv. }
  apply Hall, upd_new_inv.
Qed.

(** A [set] that reports success is visible at its position and changes no
    other; one that reports failure happens exactly when the budget would be
    exceeded, leaves the mask as it was and counts the discarded update. *)
Theorem upd_set_get m col pos v d :
  let '(m', d', ok) := upd_set m col pos v d in
  (ok = true → d' = d ∧ ∀ col' pos', upd_get m' col' pos' =
     if bool_decide (col' = col ∧ pos' = pos) then Some v else upd_get m col' pos') ∧
  (ok = false → m' = m ∧ d' = wrap64 (d + 1)) ∧
  (ok = false ↔ MAX_UPDATES_BYTES < current_bytes m + entry_size col v).
Proof.
  unfold upd_set. destruct (Z.ltb_spec MAX_UPDATES_BYTES (current_bytes m + entry_size col v));
    cbn; (split_and!; [|done|split; done || lia]); [done|].
  intros _. split; [done|]. intros col' pos'. unfold upd_get; cbn.
  destruct (decide (col' = col)) as [->|Hc].
  - rewrite lookup_insert_eq; cbn. destruct (decide (pos' = pos)) as [->|Hp].
    + by rewrite lookup_insert_eq, bool_decide_true.
    + rewrite lookup_insert_ne, bool_decide_false by naive_solver. by destruct (updates m !! col).
  - rewrite lookup_insert_ne, bool_decide_false by naive_solver. done.
Qed.

(** Applying a mask to a typed column keeps its length and type; a position
    with an update shows the decoded value (the original one when the bytes are
    too short for a numeric type, null when they are not UTF-8 for a string
    type), every other position its original slot; a column without updates is
    left to the caller. *)
Theorem upd_apply_spec `{ArrowLaws Arr} m col (original : Arr) :
  match upd_apply m col original with
  | None => ∀ pos, upd_get m col pos = None
  | Some r =>
      typed (arr_type original) = true →
      arr_len r = arr_len original ∧ arr_type r = arr_type original ∧
      ∀ i, 0 ≤ i < arr_len original → arr_slot r i =
        match upd_get m col i with
        | Some b => default (arr_slot original i) (decode_update (arr_type original) b)
        | None => arr_slot original i
        end
  end.
Proof.
  unfold upd_apply, upd_get. destruct (updates m !! col) as [u|]; cbn; [|done].
  case_bool_decide as Hu; [intros pos; subst; apply lookup_empty|]. intros Ht. rewrite Ht.
  pose proof (arr_len_nonneg original). split_and!.
  - rewrite arr_build_len. unfold zlen. rewrite length_fmap, length_seqZ. lia.
  - apply arr_build_type.
  - intros i Hi. rewrite <- (Z2Nat.id i) at 1 by lia. apply arr_build_slot.
    rewrite list_lookup_fmap, (proj2 (lookup_seqZ 0 (arr_len original) (Z.to_nat i) i)) by lia. done.
Qed.

Lemma upd_apply_spec_witness :
  match upd_apply (upd_set (UpdMask_new 2) "v" 1 [5; 0; 0; 0; 0; 0; 0; 0] 0).1.1 "v"
          (int_array [Some 10; None]) with
  | None => False
  | Some r => arr_slot r 1 = Some (VInt 5)
  end.
Proof.
  refine (proj2 (proj2 (upd_apply_spec
    (upd_set (UpdMask_new 2) "v" 1 [5; 0; 0; 0; 0; 0; 0; 0] 0).1.1 "v" (int_array [Some 10; None])
    eq_refl)) 1 _). done.
Defined.

(** A mask that satisfies its counter invariant survives saving and loading:
    the counter, which is not stored, is restored by [recompute_bytes]. *)
Theorem upd_mask_save_load `{HashIter} `{CodecLaws (Z * gmap string (gmap Z bytes))} m data :
  upd_inv m → upd_save m = Ok data → upd_load data = Ok m.
Proof.
  intros [Hc _]. unfold upd_save, upd_load. destruct (encode _) as [b|e] eqn:E; cbn; [|done].
  intros [= <-]. rewrite (decode_encode _ _ E). cbn. unfold recompute_bytes; cbn.
  rewrite <- Hc. by destruct m.
Qed.

Lemma upd_mask_save_load_witness :
  @upd_load _ (countable_codec _)
    (pos_bits (countable.encode (2, ({["v" := {[1 := [5]]}]} : gmap string (gmap Z bytes)))))
  = Ok (upd_set (UpdMask_new 2) "v" 1 [5] 0).1.1.
Proof.
  eapply (@upd_mask_save_load _ _ (countable_codec_laws _)).
  - apply upd_set_inv, upd_new_inv.
  - reflexivity.
Defined.
