(* ===== verification/Wal.v ===== *)
(** The write-ahead log writer (write/durability_wal.rs): records, sync policies
    and the group-commit queue with its flush protocol, each call run to its end
    without interference.  The log file format is the [durability] library's,
    here an interface. *)

From stdpp Require Import base gmap strings list.
From S2P Require Import Prelude Kv.

Local Open Scope Z_scope.

(** * Records *)

Inductive OpType :=
  | OBegin | OInsert | ODelete | OUpdate | OCheckpoint | OCompaction | OCommit | ORollback.

#[export] Instance OpType_eq_dec : EqDecision OpType.
Proof. solve_decision. Defined.

(** The discriminants. *)
Definition OpType_u8 (t : OpType) : Z :=
  match t with
  | OBegin => 1 | OInsert => 2 | ODelete => 3 | OUpdate => 4 | OCheckpoint => 5
  | OCompaction => 6 | OCommit => 16 | ORollback => 17
  end.

Definition OpType_from_u8 (v : Z) : option OpType :=
  if v =? 1 then Some OBegin else if v =? 2 then Some OInsert else
  if v =? 3 then Some ODelete else if v =? 4 then Some OUpdate else
  if v =? 5 then Some OCheckpoint else if v =? 6 then Some OCompaction else
  if v =? 16 then Some OCommit else if v =? 17 then Some ORollback else None.

Inductive OpPayload :=
  | PBegin
  | PInsert (table : string) (pk : bytes) (columns : list string) (wal_batch schema_bytes : bytes)
      (seg_id : string) (granule_id : Z) (offset : Z)
  | PDelete (table : string) (pk : bytes) (before_row : list (string * bytes))
      (seg_id : string) (granule_id : Z) (offset : Z)
  | PUpdate (table : string) (pk : bytes) (columns : list string) (wal_batch schema_bytes : bytes)
      (old_columns : list (string * bytes)) (old_seg_id : string) (old_granule_id old_offset : Z)
      (new_seg_id : string) (new_granule_id offset : Z)
  | PCheckpoint (checkpoint_id : Z)
  | PCompaction (old_seg_id new_seg_id : string) (pk_entries : bytes) (commit : bool)
  | PCommit (begin_ts : Z) (inserted_at : option Z)
  | PRollback.

Record WalOp := { op_type : OpType; op_txn_id : TxnId; payload : OpPayload }.

#[export] Instance OpPayload_eq_dec : EqDecision OpPayload.
Proof. solve_decision. Defined.
#[export] Instance WalOp_eq_dec : EqDecision WalOp.
Proof. solve_decision. Defined.

Inductive SyncPolicy := SyncEach | GroupCommitStrict | FlushOnly.

Record GroupCommitConfig := { max_batch_size : Z; max_wait_ms : Z; policy : SyncPolicy }.

Definition GroupCommitConfig_default : GroupCommitConfig :=
  {| max_batch_size := 100; max_wait_ms := 50; policy := GroupCommitStrict |}.

Record WalConfig := {
  wal_dir : string;
  max_file_size : Z;
  enabled : bool;
  group_commit : option GroupCommitConfig
}.

Definition WalConfig_default : WalConfig :=
  {| wal_dir := "wal"; max_file_size := 128 * 1024 * 1024; enabled := true;
     group_commit := Some GroupCommitConfig_default |}.

Definition sync_policy (c : WalConfig) : SyncPolicy :=
  match group_commit c with Some g => policy g | None => GroupCommitStrict end.

(** * The log *)

(** [durability::walog::WalWriter]: appends and a flush with fsync. *)
Class WalLog (W : Type) := {
  wl_append_batch : W → list WalOp → W * result string unit;
  wl_append : W → WalOp → W * result string unit;
  wl_flush_and_sync : W → W * result string unit
}.
#[global] Hint Mode WalLog ! : typeclass_instances.

(** An append that succeeds adds to the buffered records, a flush that succeeds
    makes them durable in order, and nothing durable is ever lost. *)
Class WalLogLaws (W : Type) `{WalLog W} := {
  wl_durable : W → list WalOp;
  wl_pending : W → list WalOp;
  wl_append_batch_ok : ∀ w ops w', wl_append_batch w ops = (w', Ok tt) →
    wl_durable w' = wl_durable w ∧ wl_pending w' = wl_pending w ++ ops;
  wl_append_ok : ∀ w op w', wl_append w op = (w', Ok tt) →
    wl_durable w' = wl_durable w ∧ wl_pending w' = wl_pending w ++ [op];
  wl_flush_ok : ∀ w w', wl_flush_and_sync w = (w', Ok tt) →
    wl_durable w' = wl_durable w ++ wl_pending w ∧ wl_pending w' = [];
  wl_append_batch_mono : ∀ w ops, wl_durable w `prefix_of` wl_durable (wl_append_batch w ops).1;
  wl_append_mono : ∀ w op, wl_durable w `prefix_of` wl_durable (wl_append w op).1;
  wl_flush_mono : ∀ w, wl_durable w `prefix_of` wl_durable (wl_flush_and_sync w).1
}.
#[global] Hint Mode WalLogLaws ! - : typeclass_instances.

(** An in-memory log with a script of flushes that fail. *)
Record MemLog := { ml_durable : list WalOp; ml_pending : list WalOp; ml_fail : list bool }.

Definition ml_flush (w : MemLog) : MemLog * result string unit :=
  match ml_fail w with
  | true :: rest =>
      ({| ml_durable := ml_durable w; ml_pending := ml_pending w; ml_fail := rest |}, Err "disk full")
  | rest =>
      ({| ml_durable := ml_durable w ++ ml_pending w; ml_pending := []; ml_fail := tail rest |}, Ok tt)
  end.

#[export] Instance MemLog_log : WalLog MemLog := {
  wl_append_batch w ops :=
    ({| ml_durable := ml_durable w; ml_pending := ml_pending w ++ ops; ml_fail := ml_fail w |}, Ok tt);
  wl_append w op :=
    ({| ml_durable := ml_durable w; ml_pending := ml_pending w ++ [op]; ml_fail := ml_fail w |}, Ok tt);
  wl_flush_and_sync := ml_flush
}.

#[export] Instance MemLog_laws : WalLogLaws MemLog.
Proof.
  refine {| wl_durable := ml_durable; wl_pending := ml_pending |}; cbn.
  - by intros w ops w' [= <-].
  - by intros w op w' [= <-].
  - intros w w'. unfold ml_flush. destruct (ml_fail w) as [|[] fl]; by intros [= <-].
  - done.
  - done.
  - intros w. unfold ml_flush. destruct (ml_fail w) as [|[] fl]; cbn; [by eexists|done|by eexists].
Defined.

(** * The writer *)

(** [group_commit_last_sync] is only written by the code and is left out, as are
    the thread handle and the shutdown channel. *)
Record WalWriter (W : Type) := {
  writer : W;
  wal_config : WalConfig;
  wal_committed_txn : Z;
  queue : list WalOp;
  queue_size : Z;
  flush_needed : bool;
  flush_success : bool;
  flush_retries : Z;
  leader_active : bool;
  waiter_count : Z
}.
Arguments writer {W} _.
Arguments wal_config {W} _.
Arguments wal_committed_txn {W} _.
Arguments queue {W} _.
Arguments queue_size {W} _.
Arguments flush_needed {W} _.
Arguments flush_success {W} _.
Arguments flush_retries {W} _.
Arguments leader_active {W} _.
Arguments waiter_count {W} _.

Definition MAX_FLUSH_RETRIES : nat := 3.

Section wal_writer.
Context `{WalLog W}.
Implicit Types (s : WalWriter W) (op : WalOp) (w : W).

(** The state updates of the calls below. *)
Definition set_writer s (w : W) : WalWriter W :=
  {| writer := w; wal_config := wal_config s; wal_committed_txn := wal_committed_txn s;
     queue := queue s; queue_size := queue_size s; flush_needed := flush_needed s;
     flush_success := flush_success s; flush_retries := flush_retries s;
     leader_active := leader_active s; waiter_count := waiter_count s |}.
Definition set_queue s (q : list WalOp) : WalWriter W :=
  {| writer := writer s; wal_config := wal_config s; wal_committed_txn := wal_committed_txn s;
     queue := q; queue_size := queue_size s; flush_needed := flush_needed s;
     flush_success := flush_success s; flush_retries := flush_retries s;
     leader_active := leader_active s; waiter_count := waiter_count s |}.
Definition set_queue_size s (n : Z) : WalWriter W :=
  {| writer := writer s; wal_config := wal_config s; wal_committed_txn := wal_committed_txn s;
     queue := queue s; queue_size := n; flush_needed := flush_needed s;
     flush_success := flush_success s; flush_retries := flush_retries s;
     leader_active := leader_active s; waiter_count := waiter_count s |}.
Definition set_flags s (needed success : bool) : WalWriter W :=
  {| writer := writer s; wal_config := wal_config s; wal_committed_txn := wal_committed_txn s;
     queue := queue s; queue_size := queue_size s; flush_needed := needed;
     flush_success := success; flush_retries := flush_retries s;
     leader_active := leader_active s; waiter_count := waiter_count s |}.
Definition set_retries s (n : Z) : WalWriter W :=
  {| writer := writer s; wal_config := wal_config s; wal_committed_txn := wal_committed_txn s;
     queue := queue s; queue_size := queue_size s; flush_needed := flush_needed s;
     flush_success := flush_success s; flush_retries := n;
     leader_active := leader_active s; waiter_count := waiter_count s |}.
Definition set_leader s (b : bool) : WalWriter W :=
  {| writer := writer s; wal_config := wal_config s; wal_committed_txn := wal_committed_txn s;
     queue := queue s; queue_size := queue_size s; flush_needed := flush_needed s;
     flush_success := flush_success s; flush_retries := flush_retries s;
     leader_active := b; waiter_count := waiter_count s |}.
Definition set_waiters s (n : Z) : WalWriter W :=
  {| writer := writer s; wal_config := wal_config s; wal_committed_txn := wal_committed_txn s;
     queue := queue s; queue_size := queue_size s; flush_needed := flush_needed s;
     flush_success := flush_success s; flush_retries := flush_retries s;
     leader_active := leader_active s; waiter_count := n |}.
Definition set_committed s (t : Z) : WalWriter W :=
  {| writer := writer s; wal_config := wal_config s; wal_committed_txn := t;
     queue := queue s; queue_size := queue_size s; flush_needed := flush_needed s;
     flush_success := flush_success s; flush_retries := flush_retries s;
     leader_active := leader_active s; waiter_count := waiter_count s |}.

(** group_commit.rs [CasLeaderElection] *)
Definition add_waiter s : WalWriter W := set_waiters s (wrap64 (waiter_count s + 1)).
Definition remove_waiter s : WalWriter W := set_waiters s (wrap64 (waiter_count s - 1)).
Definition try_claim_leader s : WalWriter W * bool :=
  if leader_active s then (s, false) else (set_leader s true, true).
Definition release_leadership s : WalWriter W := set_leader s false.

(** [recovered_committed] in [open]: the largest committed transaction of the
    records read back. *)
Definition recovered_committed (records : list WalOp) : Z :=
  for_each records 0 (λ acc r, if bool_decide (op_type r = OCommit) then Z.max acc (op_txn_id r) else acc).

Definition open (w : W) (cfg : WalConfig) (records : list WalOp) : WalWriter W :=
  {| writer := w; wal_config := cfg; wal_committed_txn := recovered_committed records;
     queue := []; queue_size := 0; flush_needed := false; flush_success := false;
     flush_retries := 0; leader_active := false; waiter_count := 0 |}.

(** [append_batch(..)?; flush_and_sync()] on the locked writer, with the prefix
    each error is reported under. *)
Definition append_and_sync (w : W) (ops : list WalOp) : W * Result unit :=
  match wl_append_batch w ops with
  | (w', Err e) => (w', Err (EWrite ("WAL append_batch: " +:+ e)))
  | (w', Ok _) =>
      match wl_flush_and_sync w' with
      | (w'', Err e) => (w'', Err (EWrite ("WAL flush_and_sync: " +:+ e)))
      | (w'', Ok _) => (w'', Ok tt)
      end
  end.

Definition append_one_and_sync (w : W) (op : WalOp) : W * Result unit :=
  match wl_append w op with
  | (w', Err e) => (w', Err (EWrite ("WAL append: " +:+ e)))
  | (w', Ok _) =>
      match wl_flush_and_sync w' with
      | (w'', Err e) => (w'', Err (EWrite ("WAL flush_and_sync: " +:+ e)))
      | (w'', Ok _) => (w'', Ok tt)
      end
  end.

(** Put a batch back at the head: [for op in ops.rev() { queue.push_front(op) }]. *)
Definition requeue (ops q : list WalOp) : list WalOp := foldl (λ q op, op :: q) q (rev ops).

Definition flush_batch s : WalWriter W :=
  let s := set_flags s (flush_needed s) false in
  let ops := queue s in
  let s := set_queue s [] in
  match ops with
  | [] => set_flags s (flush_needed s) true
  | _ =>
      let '(w', r) := append_and_sync (writer s) ops in
      let s := set_writer s w' in
      match r with
      | Err _ =>
          let s := set_retries s (wrap64 (flush_retries s + 1)) in
          let s := set_queue s (requeue ops (queue s)) in
          let s := set_queue_size s (zlen (queue s)) in
          set_flags s true false
      | Ok _ =>
          let s := set_retries s 0 in
          let s := set_queue_size s 0 in
          set_flags s false true
      end
  end.

(** The attempts of [flush_batch_with_retry] that are left. *)
Fixpoint flush_attempts (n : nat) s : WalWriter W :=
  match n with
  | O => s
  | S n' =>
      if flush_success s then s else
      let s := flush_batch s in
      if flush_success s then s else flush_attempts n' s
  end.

Definition flush_batch_with_retry s : WalWriter W := flush_attempts MAX_FLUSH_RETRIES s.

Definition queue_commit_for_batch s op : WalWriter W :=
  let s := set_queue s (queue s ++ [op]) in
  let s := set_queue_size s (zlen (queue s)) in
  set_flags s true (flush_success s).

(** The wait, run alone: it returns in the first round unless another thread
    holds the leadership, in which case the caller spins ([None]). *)
Definition wait_for_batch_flush_strict s : option (WalWriter W * Result unit) :=
  let s := add_waiter s in
  if (queue_size s =? 0) && flush_success s then Some (remove_waiter s, Ok tt) else
  match try_claim_leader s with
  | (s, true) =>
      let s := flush_batch_with_retry s in
      let s := release_leadership s in
      if flush_success s then Some (remove_waiter s, Ok tt)
      else Some (remove_waiter s,
                 Err (EWrite "GroupCommitStrict: WAL flush failed, data may not be durable"))
  | (_, false) => None
  end.

(** [committed_txn.fetch_update(|c| Some(c.max(txn_id)))] for a commit record. *)
Definition note_commit s (t : OpType) (txn_id : TxnId) : WalWriter W :=
  if bool_decide (t = OCommit) then set_committed s (Z.max (wal_committed_txn s) txn_id) else s.

Definition append s (t : OpType) (txn_id : TxnId) (p : OpPayload) : WalWriter W * Result unit :=
  if negb (enabled (wal_config s)) then (s, Ok tt) else
  match wl_append (writer s) {| op_type := t; op_txn_id := txn_id; payload := p |} with
  | (w', Err e) => (set_writer s w', Err (EWrite ("WAL append: " +:+ e)))
  | (w', Ok _) => (note_commit (set_writer s w') t txn_id, Ok tt)
  end.

Definition append_durable s (t : OpType) (txn_id : TxnId) (p : OpPayload)
    : option (WalWriter W * Result unit) :=
  if negb (enabled (wal_config s)) && negb (bool_decide (t = OCommit)) then Some (s, Ok tt) else
  let op := {| op_type := t; op_txn_id := txn_id; payload := p |} in
  let finish (sr : WalWriter W * Result unit) :=
    match sr with
    | (s, Err e) => (s, Err e)
    | (s, Ok _) => (note_commit s t txn_id, Ok tt)
    end in
  match sync_policy (wal_config s) with
  | SyncEach | FlushOnly =>
      let '(w', r) := append_one_and_sync (writer s) op in
      Some (finish (set_writer s w', r))
  | GroupCommitStrict =>
      finish <$> wait_for_batch_flush_strict (queue_commit_for_batch s op)
  end.

(** One wake-up of the background flusher thread after a timeout; [writer_free]
    is whether its [try_lock] on the writer succeeds. *)
Definition flusher_tick s (writer_free : bool) : WalWriter W :=
  let s := add_waiter s in
  match try_claim_leader s with
  | (s, false) => remove_waiter s
  | (s, true) =>
      let ops := queue s in
      let s := set_queue s [] in
      let requeued s :=
        let s := set_flags s true false in
        let s := set_queue s (requeue ops (queue s)) in
        set_queue_size s (zlen (queue s)) in
      let s :=
        match ops with
        | [] => set_flags (set_queue_size s 0) (flush_needed s) true
        | _ =>
            if writer_free then
              let '(w', r) := append_and_sync (writer s) ops in
              let s := set_writer s w' in
              match r with
              | Ok _ => set_flags (set_queue_size s 0) false true
              | Err _ => requeued s
              end
            else requeued s
        end in
      remove_waiter (release_leadership s)
  end.

(** [Drop]: what is left in the queue is written as a last resort. *)
Definition drop_writer s (writer_free : bool) : WalWriter W :=
  let pending := queue s in
  let s := set_queue s [] in
  match pending with
  | [] => s
  | _ => if writer_free then set_writer s (append_and_sync (writer s) pending).1 else s
  end.

Definition saturating_mul64 (a b : Z) : Z := if a * b <=? u64_max then a * b else u64_max.

(** [estimated_size] from the writer's current segment id and its bytes. *)
Definition estimated_size s (current_segment_id current_segment_bytes : Z) : Z :=
  saturating_add64
    (saturating_mul64 (saturating_sub current_segment_id 1) (max_file_size (wal_config s)))
    current_segment_bytes.
End wal_writer.

(** * Proofs *)

Section wal_proofs.
Context `{WalLogLaws W}.
Implicit Types (s : WalWriter W) (op : WalOp) (w : W).

Lemma requeue_app ops q : requeue ops q = ops ++ q.
Proof.
  unfold requeue. revert q. induction ops as [|op ops IH]; intros q; [done|].
  cbn [rev]. rewrite foldl_app, IH. done.
Qed.

Lemma append_and_sync_spec w ops :
  wl_durable w `prefix_of` wl_durable (append_and_sync w ops).1 ∧
  ((append_and_sync w ops).2 = Ok tt →
     wl_durable (append_and_sync w ops).1 = wl_durable w ++ wl_pending w ++ ops ∧
     wl_pending (append_and_sync w ops).1 = []).
Proof.
  unfold append_and_sync. pose proof (wl_append_batch_mono w ops) as Hm.
  destruct (wl_append_batch w ops) as [w1 [[]|e]] eqn:E1; [|done].
  apply wl_append_batch_ok in E1 as [Hd Hp].
  pose proof (wl_flush_mono w1) as Hm'.
  destruct (wl_flush_and_sync w1) as [w2 [[]|e]] eqn:E2; cbn in *.
  - apply wl_flush_ok in E2 as [Hd' Hp']. rewrite Hd', Hd, Hp.
    split; [by apply prefix_app_r|done].
  - split; [by etrans|done].
Qed.

Lemma append_one_and_sync_spec w op :
  (append_one_and_sync w op).2 = Ok tt →
  wl_durable (append_one_and_sync w op).1 = wl_durable w ++ wl_pending w ++ [op] ∧
  wl_pending (append_one_and_sync w op).1 = [].
Proof.
  unfold append_one_and_sync. destruct (wl_append w op) as [w1 [[]|e]] eqn:E1; [|done].
  apply wl_append_ok in E1 as [Hd Hp].
  destruct (wl_flush_and_sync w1) as [w2 [[]|e]] eqn:E2; cbn; [|done].
  apply wl_flush_ok in E2 as [-> ->]. by rewrite Hd, Hp.
Qed.

(** The fields that no flush touches. *)
Definition same_frame s s' : Prop :=
  wal_config s' = wal_config s ∧ wal_committed_txn s' = wal_committed_txn s ∧
  leader_active s' = leader_active s ∧ waiter_count s' = waiter_count s.

(** A flush either makes the whole queue durable, in order, and empties it, or
    leaves the queue as it was; the flag tells which. *)
Definition flushed s s' : Prop :=
  same_frame s s' ∧ wl_durable (writer s) `prefix_of` wl_durable (writer s') ∧
  if flush_success s'
  then queue s' = [] ∧ (queue s ≠ [] → queue_size s' = 0) ∧
       (queue s = [] → queue_size s' = queue_size s) ∧
       (queue s ≠ [] → wl_pending (writer s') = [] ∧
          ∃ pre, wl_durable (writer s') = wl_durable (writer s) ++ pre ++ queue s)
  else queue s ≠ [] ∧ queue s' = queue s ∧ queue_size s' = zlen (queue s) ∧ flush_needed s' = true.

Lemma flush_batch_spec s : flushed s (flush_batch s).
Proof.
  unfold flushed, flush_batch, same_frame. cbn [queue set_flags set_queue writer].
  destruct (queue s) as [|op q] eqn:Eq; [by cbn|].
  pose proof (append_and_sync_spec (writer s) (op :: q)) as [Hm Hok].
  destruct (append_and_sync (writer s) (op :: q)) as [w' [[]|e]]; cbn -[requeue] in *.
  - split_and!; try done. intros _. destruct Hok as [-> ->]; [done|]. split; [done|]. eauto.
  - rewrite requeue_app, app_nil_r. split_and!; done.
Qed.

Lemma flush_attempts_spec n s :
  flush_success s = false → (0 < n)%nat → flushed s (flush_attempts n s).
Proof.
  revert s. induction n as [|n IH]; intros s Hs Hn; [lia|]. cbn. rewrite Hs.
  pose proof (flush_batch_spec s) as Hf. destruct (flush_success (flush_batch s)) eqn:E; [done|].
  destruct n as [|n]; [done|]. specialize (IH _ E ltac:(lia)).
  destruct Hf as ((Hc & Ht & Hl & Hw) & Hd & Hq). rewrite E in Hq. destruct Hq as (Hne & Hq & Hsz & _).
  destruct IH as ((Hc' & Ht' & Hl' & Hw') & Hd' & Hq').
  split; [unfold same_frame; split_and!; congruence|]. split; [by etrans|].
  destruct (flush_success (flush_attempts (S n) (flush_batch s))); rewrite Hq in Hq'; [|done].
  destruct Hq' as (? & ? & _ & Hdur). split_and!; [done|done| |].
  - done.
  - intros _. destruct (Hdur Hne) as [? (pre & Hpre)]. split; [done|].
    destruct Hd as [k Hk]. exists (k ++ pre). by rewrite Hpre, Hk, <- !app_assoc.
Qed.

Lemma flush_batch_with_retry_stale s :
  flush_success s = true → flush_batch_with_retry s = s.
Proof. unfold flush_batch_with_retry, MAX_FLUSH_RETRIES. cbn. by intros ->. Qed.

(** ** Sequences of calls *)

(** What a database does with its log: appends, durable appends, and the
    wake-ups of the flusher thread. *)
Inductive wal_call :=
  | CAppend (t : OpType) (id : TxnId) (p : OpPayload)
  | CDurable (t : OpType) (id : TxnId) (p : OpPayload)
  | CTick (writer_free : bool).

Definition exec_call s (c : wal_call) : WalWriter W :=
  match c with
  | CAppend t id p => (append s t id p).1
  | CDurable t id p => default s (fst <$> append_durable s t id p)
  | CTick b => flusher_tick s b
  end.

(** The records a call puts in the group-commit queue. *)
Definition accepted (c : wal_call) : list WalOp :=
  match c with
  | CDurable t id p => [{| op_type := t; op_txn_id := id; payload := p |}]
  | _ => []
  end.

(** Between calls: nobody leads or waits, and the size counter is the queue's. *)
Record idle s : Prop := {
  idle_leader : leader_active s = false;
  idle_waiters : waiter_count s = 0;
  idle_size : queue_size s = zlen (queue s)
}.

(** The queue discipline from [s] to [s'] when [new] is queued in between: what
    left the queue is durable, in order, and the rest is still queued in order. *)
Definition fifo s s' (new : list WalOp) : Prop :=
  wl_durable (writer s) `prefix_of` wl_durable (writer s') ∧
  ∃ out, queue s ++ new = out ++ queue s' ∧
    (out = [] ∨ ∃ pre, wl_durable (writer s') = wl_durable (writer s) ++ pre ++ out).

Lemma fifo_refl s : fifo s s [].
Proof. split; [done|]. exists []. rewrite app_nil_r. auto. Qed.

Lemma fifo_flushed s s' : flushed s s' → fifo s s' [].
Proof.
  intros (_ & Hp & Hq). split; [done|]. rewrite app_nil_r. destruct (flush_success s').
  - destruct Hq as (Hq & _ & _ & Hd). exists (queue s). rewrite Hq, app_nil_r. split; [done|].
    destruct (decide (queue s = [])) as [|Hne]; [by left|]. right. by apply Hd.
  - destruct Hq as (_ & Hq & _). exists []. auto.
Qed.

(** The result of a strict wait on a writer whose success flag is clear. *)
Lemma strict_wait_spec s :
  leader_active s = false → flush_success s = false →
  ∃ s', wait_for_batch_flush_strict s = Some (s', if flush_success s' then Ok tt else
      Err (EWrite "GroupCommitStrict: WAL flush failed, data may not be durable")) ∧
    waiter_count s' = wrap64 (wrap64 (waiter_count s + 1) - 1) ∧
    leader_active s' = false ∧ wal_config s' = wal_config s ∧
    wal_committed_txn s' = wal_committed_txn s ∧
    wl_durable (writer s) `prefix_of` wl_durable (writer s') ∧
    if flush_success s'
    then queue s' = [] ∧ (queue s ≠ [] → queue_size s' = 0) ∧
         (queue s ≠ [] → ∃ pre, wl_durable (writer s') = wl_durable (writer s) ++ pre ++ queue s)
    else queue s' = queue s ∧ queue_size s' = zlen (queue s).
Proof.
  intros Hl Hs. unfold wait_for_batch_flush_strict, try_claim_leader.
  cbn [queue_size flush_success add_waiter set_waiters leader_active]. rewrite Hs, andb_false_r, Hl.
  set (s1 := set_leader (add_waiter s) true).
  pose proof (flush_attempts_spec MAX_FLUSH_RETRIES s1 Hs ltac:(unfold MAX_FLUSH_RETRIES; lia))
    as ((Hc & Ht & _ & Hw) & Hd & Hq).
  fold (flush_batch_with_retry s1) in *. set (s2 := flush_batch_with_retry s1) in *.
  exists (remove_waiter (release_leadership s2)).
  cbn [remove_waiter release_leadership set_leader set_waiters flush_success leader_active wal_config
       wal_committed_txn waiter_count queue queue_size writer].
  split; [by destruct (flush_success s2)|]. split_and!; [by rewrite Hw|done|done|done|done|].
  destruct (flush_success s2).
  - destruct Hq as (? & ? & _ & Hdur). split_and!; [done|done|]. intros Hne. by apply Hdur.
  - by destruct Hq as (_ & ? & ? & _).
Qed.

Lemma strict_wait_stale s :
  leader_active s = false → flush_success s = true →
  ∃ s', wait_for_batch_flush_strict s = Some (s', Ok tt) ∧ writer s' = writer s ∧
    queue s' = queue s ∧ queue_size s' = queue_size s ∧
    waiter_count s' = wrap64 (wrap64 (waiter_count s + 1) - 1) ∧
    leader_active s' = false ∧ wal_config s' = wal_config s ∧
    wal_committed_txn s' = wal_committed_txn s.
Proof.
  intros Hl Hs. unfold wait_for_batch_flush_strict, try_claim_leader.
  cbn [queue_size flush_success add_waiter set_waiters leader_active]. rewrite Hs, andb_true_r, Hl.
  destruct (queue_size s =? 0); [by eexists|].
  rewrite flush_batch_with_retry_stale by done. cbn. rewrite Hs. by eexists.
Qed.

Lemma note_commit_fields s t id :
  writer (note_commit s t id) = writer s ∧ queue (note_commit s t id) = queue s ∧
  queue_size (note_commit s t id) = queue_size s ∧ leader_active (note_commit s t id) = leader_active s ∧
  waiter_count (note_commit s t id) = waiter_count s ∧ wal_config (note_commit s t id) = wal_config s ∧
  flush_success (note_commit s t id) = flush_success s.
Proof. unfold note_commit. by case_bool_decide. Qed.

(** A strict durable append, by the state of the success flag. *)
Lemma append_durable_strict s t id p :
  enabled (wal_config s) = true → sync_policy (wal_config s) = GroupCommitStrict →
  append_durable s t id p =
  (λ sr : WalWriter W * Result unit,
     match sr with (s, Err e) => (s, Err e) | (s, Ok _) => (note_commit s t id, Ok tt) end) <$>
  wait_for_batch_flush_strict
    (queue_commit_for_batch s {| op_type := t; op_txn_id := id; payload := p |}).
Proof. unfold append_durable. by intros -> ->. Qed.

Lemma durable_call_fifo s t id p :
  enabled (wal_config s) = true → sync_policy (wal_config s) = GroupCommitStrict → idle s →
  idle (exec_call s (CDurable t id p)) ∧
  wal_config (exec_call s (CDurable t id p)) = wal_config s ∧
  fifo s (exec_call s (CDurable t id p)) [{| op_type := t; op_txn_id := id; payload := p |}].
Proof.
  intros He Hpol [Hl Hw Hsz]. cbn [exec_call]. rewrite append_durable_strict by done.
  set (op := {| op_type := t |}). set (s1 := queue_commit_for_batch s op).
  assert (queue s1 ≠ []) as Hne by (cbn; by destruct (queue s)).
  assert (wrap64 (wrap64 (waiter_count s1 + 1) - 1) = 0) as Hw1
    by (change (waiter_count s1) with (waiter_count s); by rewrite Hw).
  destruct (flush_success s) eqn:Hs.
  - destruct (strict_wait_stale s1 Hl Hs) as (s' & -> & Hwr & Hq & Hqs & Hwc & Hla & Hcf & _). cbn.
    destruct (note_commit_fields s' t id) as (E1 & E2 & E3 & E4 & E5 & E6 & _).
    split; [split; rewrite ?E2, ?E3, ?E4, ?E5, ?Hwc, ?Hqs, ?Hq; done|].
    split; [by rewrite E6, Hcf|]. unfold fifo. rewrite E1, E2, Hwr, Hq. split; [done|].
    exists []. auto.
  - destruct (strict_wait_spec s1 Hl Hs) as (s' & -> & Hwc & Hla & Hcf & _ & Hd & Hq).
    destruct (note_commit_fields s' t id) as (E1 & E2 & E3 & E4 & E5 & E6 & _).
    destruct (flush_success s') eqn:Hs'; cbn [fmap option_fmap option_map default fst from_option Datatypes.id].
    + destruct Hq as (Hq & Hz & Hdur).
      split; [split; rewrite ?E2, ?E3, ?E4, ?E5, ?Hwc, ?Hq, ?Hz by done; done|].
      split; [by rewrite E6, Hcf|]. unfold fifo. rewrite E1, E2, Hq. split; [done|].
      exists (queue s1). rewrite app_nil_r. split; [done|]. right. by apply Hdur.
    + destruct Hq as (Hq & Hz).
      split; [split; rewrite ?Hwc, ?Hz, ?Hq; done|].
      split; [done|]. split; [done|]. exists []. rewrite Hq. auto.
Qed.

Lemma tick_fifo s b : idle s →
  idle (flusher_tick s b) ∧ wal_config (flusher_tick s b) = wal_config s ∧ fifo s (flusher_tick s b) [].
Proof.
  intros [Hl Hw Hsz].
  assert (wrap64 (wrap64 (waiter_count s + 1) - 1) = 0) as Hw1 by (by rewrite Hw).
  unfold flusher_tick, try_claim_leader.
  cbn [leader_active add_waiter set_waiters]. rewrite Hl. cbn [queue set_leader set_queue add_waiter set_waiters writer].
  destruct (queue s) as [|op q] eqn:Eq.
  { split; [by split|]. split; [done|]. split; [done|]. exists []. cbn.
    rewrite Eq. auto. }
  assert (∀ w', wl_durable (writer s) `prefix_of` wl_durable w' →
    let s' := remove_waiter (release_leadership (set_queue_size
       (set_queue (set_flags (set_writer (set_queue (set_leader (add_waiter s) true) []) w') true false)
          (requeue (op :: q) [])) (zlen (requeue (op :: q) [])))) in
    idle s' ∧ wal_config s' = wal_config s ∧ fifo s s' []) as Hre.
  { intros w' Hd. rewrite requeue_app, app_nil_r. cbn zeta. split; [by split|].
    split; [done|]. split; [done|]. exists []. cbn. rewrite Eq, app_nil_r. auto. }
  destruct b; [|apply (Hre (writer s)); done].
  pose proof (append_and_sync_spec (writer s) (op :: q)) as [Hm Hok].
  destruct (append_and_sync (writer s) (op :: q)) as [w' [[]|e]]; [|apply (Hre w'); done].
  destruct Hok as [Hd Hp]; [done|]. cbn in Hm, Hd.
  split; [by split|]. split; [done|]. split; [done|].
  exists (op :: q). split; [by rewrite Eq|]. right. eauto.
Qed.

Lemma append_fifo s t id p : idle s →
  idle (append s t id p).1 ∧ wal_config (append s t id p).1 = wal_config s ∧ fifo s (append s t id p).1 [].
Proof.
  intros [Hl Hw Hsz]. unfold append. destruct (negb _); [by split; [|split; [|apply fifo_refl]]|].
  pose proof (wl_append_mono (writer s) {| op_type := t; op_txn_id := id; payload := p |}) as Hm.
  destruct (wl_append _ _) as [w' [[]|e]]; cbn [fst] in *.
  - destruct (note_commit_fields (set_writer s w') t id) as (E1 & E2 & E3 & E4 & E5 & E6 & _).
    split; [split; by rewrite ?E2, ?E3, ?E4, ?E5|]. split; [by rewrite E6|].
    unfold fifo. rewrite E1, E2. split; [done|]. exists []. cbn. rewrite app_nil_r. auto.
  - split; [by split|]. split; [done|]. split; [done|]. exists []. cbn. rewrite app_nil_r. auto.
Qed.

Lemma exec_call_fifo s c :
  enabled (wal_config s) = true → sync_policy (wal_config s) = GroupCommitStrict → idle s →
  idle (exec_call s c) ∧ wal_config (exec_call s c) = wal_config s ∧ fifo s (exec_call s c) (accepted c).
Proof.
  intros. destruct c; [by apply append_fifo|by apply durable_call_fifo|by apply tick_fifo].
Qed.

(** Over a sequence of calls: what was accepted is what has been flushed, in
    order, followed by what is queued. *)
Lemma exec_calls_fifo calls s done_ :
  enabled (wal_config s) = true → sync_policy (wal_config s) = GroupCommitStrict → idle s →
  done_ `sublist_of` wl_durable (writer s) →
  idle (foldl exec_call s calls) ∧
  ∃ out, (done_ ++ queue s) ++ concat (accepted <$> calls) = out ++ queue (foldl exec_call s calls) ∧
    out `sublist_of` wl_durable (writer (foldl exec_call s calls)).
Proof.
  revert s done_. induction calls as [|c calls IH]; intros s done_ He Hp Hi Hdone.
  - cbn. split; [done|]. exists done_. by rewrite app_nil_r.
  - destruct (exec_call_fifo s c He Hp Hi) as (Hi' & Hc & Hpre & out & Hq & Hout).
    cbn [foldl]. destruct (IH (exec_call s c) (done_ ++ out)) as (Hi'' & out' & Hq' & Hs');
      [by rewrite Hc|by rewrite Hc|done| |].
    + destruct Hpre as [k Hk]. destruct Hout as [->|(pre & Hpre)].
      * rewrite app_nil_r, Hk. by apply sublist_inserts_r.
      * rewrite Hpre. apply sublist_app; [done|]. by apply sublist_inserts_l.
    + split; [done|]. exists out'. split; [|done]. rewrite <- Hq', fmap_cons. cbn [concat].
      rewrite <- !app_assoc. f_equal. rewrite !app_assoc. f_equal. exact Hq.
Qed.
End wal_proofs.

(** * Properties *)

(** Group commit neither loses nor reorders records: after any sequence of
    appends, durable appends and flusher wake-ups under the strict policy, with
    flushes that may fail, the records accepted for group commit are, in order,
    those already durable in the log followed by those still in the queue. *)
Theorem group_commit_fifo `{WalLogLaws W} (w : W) cfg records calls :
  enabled cfg = true → sync_policy cfg = GroupCommitStrict →
  ∃ out, concat (accepted <$> calls) = out ++ queue (foldl exec_call (open w cfg records) calls) ∧
    out `sublist_of` wl_durable (writer (foldl exec_call (open w cfg records) calls)).
Proof.
  intros He Hp. destruct (exec_calls_fifo calls (open w cfg records) []) as (_ & out & Hq & Hs);
    [done|done|by split|by apply sublist_nil_l|]. by exists out.
Qed.

Definition demo_commit (t : TxnId) : wal_call := CDurable OCommit t (PCommit t None).
Definition demo_log (fails : list bool) : MemLog := {| ml_durable := []; ml_pending := []; ml_fail := fails |}.

Lemma group_commit_fifo_witness :
  ∃ out, concat (accepted <$> [demo_commit 1; demo_commit 2; CTick true]) =
      out ++ queue (foldl exec_call (open (demo_log [true; true; true; true]) WalConfig_default [])
                      [demo_commit 1; demo_commit 2; CTick true]) ∧
    out `sublist_of` wl_durable (writer (foldl exec_call
      (open (demo_log [true; true; true; true]) WalConfig_default [])
      [demo_commit 1; demo_commit 2; CTick true])).
Proof. apply group_commit_fifo; reflexivity. Defined.

(** C10: with the success flag clear and no other leader, a strict durable
    append always returns: [Ok] only when its record and everything queued before
    it are durable in order and the queue is empty, with the committed
    transaction raised; an error leaves the record at the end of the queue. *)
Theorem strict_append_durable `{WalLogLaws W} (s : WalWriter W) t id p :
  enabled (wal_config s) = true → sync_policy (wal_config s) = GroupCommitStrict →
  leader_active s = false → flush_success s = false →
  ∃ s' r, append_durable s t id p = Some (s', r) ∧
    match r with
    | Ok _ => queue s' = [] ∧
        (∃ pre, wl_durable (writer s') = wl_durable (writer s) ++ pre ++
                  queue s ++ [{| op_type := t; op_txn_id := id; payload := p |}]) ∧
        wal_committed_txn s' =
          (if bool_decide (t = OCommit) then Z.max (wal_committed_txn s) id else wal_committed_txn s)
    | Err _ => queue s' = queue s ++ [{| op_type := t; op_txn_id := id; payload := p |}] ∧
        wal_committed_txn s' = wal_committed_txn s
    end.
Proof.
  intros He Hpol Hl Hs. rewrite append_durable_strict by done.
  set (op := {| op_type := t |}). set (s1 := queue_commit_for_batch s op).
  destruct (strict_wait_spec s1 Hl Hs) as (s' & -> & _ & _ & _ & Hc & _ & Hq). cbn.
  destruct (note_commit_fields s' t id) as (E1 & E2 & _).
  destruct (flush_success s').
  - exists (note_commit s' t id), (Ok tt). split; [done|]. rewrite E1, E2.
    destruct Hq as (Hq & _ & Hd). split_and!; [done|apply Hd; cbn; by destruct (queue s)|].
    unfold note_commit. case_bool_decide; cbn; by rewrite Hc.
  - destruct Hq as [Hq _]. eexists s', (Err _). split; [done|]. by rewrite Hq.
Qed.

Lemma strict_append_durable_witness :
  ∃ s' r, append_durable (open (demo_log [true]) WalConfig_default []) OCommit 5 (PCommit 5 None)
          = Some (s', r) ∧
    match r with
    | Ok _ => queue s' = [] ∧
        (∃ pre, wl_durable (writer s') = [] ++ pre ++
                  [] ++ [{| op_type := OCommit; op_txn_id := 5; payload := PCommit 5 None |}]) ∧
        wal_committed_txn s' = 5
    | Err _ => queue s' = [] ++ [{| op_type := OCommit; op_txn_id := 5; payload := PCommit 5 None |}] ∧
        wal_committed_txn s' = 0
    end.
Proof.
  exact (strict_append_durable (open (demo_log [true]) WalConfig_default []) OCommit 5 (PCommit 5 None)
           eq_refl eq_refl eq_refl eq_refl).
Defined.

(** With the success flag still set from an earlier flush, a strict durable
    append returns [Ok] without touching the log: its record is only in the
    queue when the caller is told the commit is durable. *)
Theorem strict_append_stale_flag `{WalLog W} (s : WalWriter W) t id p :
  enabled (wal_config s) = true → sync_policy (wal_config s) = GroupCommitStrict →
  leader_active s = false → flush_success s = true →
  ∃ s', append_durable s t id p = Some (s', Ok tt) ∧ writer s' = writer s ∧
    queue s' = queue s ++ [{| op_type := t; op_txn_id := id; payload := p |}].
Proof.
  intros He Hpol Hl Hs. rewrite append_durable_strict by done.
  destruct (strict_wait_stale (queue_commit_for_batch s
     {| op_type := t; op_txn_id := id; payload := p |}) Hl Hs) as (s' & -> & Hw & Hq & _). cbn.
  destruct (note_commit_fields s' t id) as (E1 & E2 & _). eexists. split; [done|]. by rewrite E1, E2.
Qed.

(** The second of two commits on a log that never fails. *)
Lemma strict_append_stale_flag_witness :
  ∃ s', append_durable (exec_call (open (demo_log []) WalConfig_default []) (demo_commit 1))
          OCommit 2 (PCommit 2 None) = Some (s', Ok tt) ∧
    writer s' = {| ml_durable := [{| op_type := OCommit; op_txn_id := 1; payload := PCommit 1 None |}];
                   ml_pending := []; ml_fail := [] |} ∧
    queue s' = [] ++ [{| op_type := OCommit; op_txn_id := 2; payload := PCommit 2 None |}].
Proof.
  exact (strict_append_stale_flag (exec_call (open (demo_log []) WalConfig_default []) (demo_commit 1))
           OCommit 2 (PCommit 2 None) eq_refl eq_refl eq_refl eq_refl).
Defined.

(** Under [SyncEach] and [FlushOnly] an append that returns [Ok] is durable. *)
Theorem sync_each_durable `{WalLogLaws W} (s : WalWriter W) t id p s' :
  enabled (wal_config s) = true → sync_policy (wal_config s) ≠ GroupCommitStrict →
  append_durable s t id p = Some (s', Ok tt) →
  wl_durable (writer s') = wl_durable (writer s) ++ wl_pending (writer s) ++
    [{| op_type := t; op_txn_id := id; payload := p |}] ∧
  wl_pending (writer s') = [] ∧ queue s' = queue s.
Proof.
  unfold append_durable. intros -> Hpol. cbn [negb andb].
  pose proof (append_one_and_sync_spec (writer s) {| op_type := t; op_txn_id := id; payload := p |}) as Hs.
  destruct (sync_policy (wal_config s)); [|done|];
    destruct (append_one_and_sync _ _) as [w' [[]|e]]; try done; cbn in *;
    intros [= <-];
    destruct (note_commit_fields (set_writer s w') t id) as (-> & -> & _); cbn; by destruct Hs.
Qed.

Definition demo_sync_config : WalConfig :=
  {| wal_dir := "wal"; max_file_size := 1; enabled := true;
     group_commit := Some {| max_batch_size := 1; max_wait_ms := 1; policy := SyncEach |} |}.

Lemma sync_each_durable_witness :
  wl_durable (writer (exec_call (open (demo_log []) demo_sync_config []) (CDurable OBegin 3 PBegin)))
  = [] ++ [] ++ [{| op_type := OBegin; op_txn_id := 3; payload := PBegin |}].
Proof.
  exact (proj1 (sync_each_durable (open (demo_log []) demo_sync_config [])
    OBegin 3 PBegin _ eq_refl ltac:(done) eq_refl)).
Defined.
