(* ===== verification/GroupCommit.v ===== *)
(** Group commit with several callers (write/durability_wal.rs): the strict
    durable append and the background flusher as threads whose steps interleave
    on the shared state of [WalWriter].  A step is one atomic access or one change
    under a lock; the size that a caller stores while it still holds the queue's
    lock is a step of its own, which only adds interleavings. *)

From stdpp Require Import base strings list relations.
From S2P Require Import Prelude Kv Wal.

Local Open Scope Z_scope.

(** * Program counters *)

(** [flush_batch_with_retry] and the [flush_batch] it calls, by the leader; [n]
    is the number of attempts left after the current one. *)
Inductive leader_pc :=
  | LCheck (n : nat)                          (* head of the retry loop *)
  | LClear (n : nat)                          (* flush_success := false *)
  | LDrain (n : nat)                          (* drain the queue *)
  | LEmpty (n : nat)                          (* nothing drained: flush_success := true *)
  | LWrite (n : nat) (ops : list WalOp)       (* append_batch and flush_and_sync *)
  | LFailRetries (n : nat) (ops : list WalOp) (* flush_retries += 1 *)
  | LRequeue (n : nat) (ops : list WalOp)     (* push the batch back in front *)
  | LFailSize (n : nat) (len : Z)             (* queue_size := queue_len *)
  | LFailFlag (n : nat)                       (* flush_success := false *)
  | LFailNeeded (n : nat)                     (* flush_needed := true *)
  | LOkRetries (n : nat)                      (* flush_retries := 0 *)
  | LOkFlag (n : nat)                         (* flush_success := true *)
  | LOkSize (n : nat)                         (* queue_size := 0 *)
  | LOkNeeded (n : nat)                       (* flush_needed := false *)
  | LAfter (n : nat)                          (* flush_success after the attempt *)
  | LRelease.                                 (* release_leadership *)

Inductive pc :=
  (* a caller in append_durable under GroupCommitStrict *)
  | CPush (op : WalOp)                        (* queue.push_back *)
  | CSize (len : Z)                           (* queue_size := queue.len() *)
  | CNeeded                                   (* flush_needed := true *)
  | CAddWaiter
  | CReadSize                                 (* head of the wait loop *)
  | CReadFlag
  | CClaim
  | CLead (l : leader_pc)
  | CAfterLead                                (* flush_success after leading *)
  | CSpin                                     (* wait_for_sync *)
  | CAfterSpin                                (* flush_success after the spin *)
  | CRemove (ok : bool)                       (* remove_waiter *)
  | CReturn (ok : bool)
  (* the background flusher *)
  | FIdle                                     (* recv_timeout *)
  | FClaim
  | FDrain
  | FEmptySize
  | FEmptyFlag
  | FWrite (ops : list WalOp)
  | FOkSize
  | FOkFlag
  | FOkNeeded
  | FFailFlag (ops : list WalOp)
  | FFailNeeded (ops : list WalOp)
  | FRequeue (ops : list WalOp)
  | FFailSize (len : Z)
  | FRelease
  | FRemove.

(** * Steps *)

Section steps.
Context `{WalLog W}.
Implicit Types s : WalWriter W.

(** One step of the leader inside [flush_batch_with_retry]; [None] when the
    leadership has been released. *)
Definition leader_step s (l : leader_pc) : WalWriter W * option leader_pc :=
  match l with
  | LCheck O => (s, Some LRelease)
  | LCheck (S n) => (s, Some (if flush_success s then LRelease else LClear n))
  | LClear n => (set_flags s (flush_needed s) false, Some (LDrain n))
  | LDrain n =>
      (set_queue s [], Some (match queue s with [] => LEmpty n | ops => LWrite n ops end))
  | LEmpty n => (set_flags s (flush_needed s) true, Some (LAfter n))
  | LWrite n ops =>
      let '(w', r) := append_and_sync (writer s) ops in
      (set_writer s w', Some (match r with Ok _ => LOkRetries n | Err _ => LFailRetries n ops end))
  | LFailRetries n ops => (set_retries s (wrap64 (flush_retries s + 1)), Some (LRequeue n ops))
  | LRequeue n ops =>
      let q := requeue ops (queue s) in (set_queue s q, Some (LFailSize n (zlen q)))
  | LFailSize n len => (set_queue_size s len, Some (LFailFlag n))
  | LFailFlag n => (set_flags s (flush_needed s) false, Some (LFailNeeded n))
  | LFailNeeded n => (set_flags s true (flush_success s), Some (LAfter n))
  | LOkRetries n => (set_retries s 0, Some (LOkFlag n))
  | LOkFlag n => (set_flags s (flush_needed s) true, Some (LOkSize n))
  | LOkSize n => (set_queue_size s 0, Some (LOkNeeded n))
  | LOkNeeded n => (set_flags s false (flush_success s), Some (LAfter n))
  | LAfter n => (s, Some (if flush_success s then LRelease else LCheck n))
  | LRelease => (release_leadership s, None)
  end.

(** One step of a caller: [queue_commit_for_batch], then
    [wait_for_batch_flush_strict]. *)
Definition caller_step s (p : pc) : WalWriter W * pc :=
  match p with
  | CPush op => let q := queue s ++ [op] in (set_queue s q, CSize (zlen q))
  | CSize len => (set_queue_size s len, CNeeded)
  | CNeeded => (set_flags s true (flush_success s), CAddWaiter)
  | CAddWaiter => (add_waiter s, CReadSize)
  | CReadSize => (s, if queue_size s =? 0 then CReadFlag else CClaim)
  | CReadFlag => (s, if flush_success s then CRemove true else CClaim)
  | CClaim =>
      let '(s', claimed) := try_claim_leader s in
      (s', if claimed then CLead (LCheck MAX_FLUSH_RETRIES) else CSpin)
  | CLead l =>
      let '(s', l') := leader_step s l in
      (s', match l' with Some l' => CLead l' | None => CAfterLead end)
  | CAfterLead => (s, CRemove (flush_success s))
  | CSpin => (s, if leader_active s then CSpin else CAfterSpin)
  | CAfterSpin => (s, if flush_success s then CRemove true else CReadSize)
  | CRemove ok => (remove_waiter s, CReturn ok)
  | _ => (s, p)
  end.

(** One step of the flusher; [free] is whether its [try_lock] on the writer
    succeeds. *)
Definition flusher_step (free : bool) s (p : pc) : WalWriter W * pc :=
  match p with
  | FIdle => (add_waiter s, FClaim)
  | FClaim =>
      let '(s', claimed) := try_claim_leader s in (s', if claimed then FDrain else FRemove)
  | FDrain => (set_queue s [], match queue s with [] => FEmptySize | ops => FWrite ops end)
  | FEmptySize => (set_queue_size s 0, FEmptyFlag)
  | FEmptyFlag => (set_flags s (flush_needed s) true, FRelease)
  | FWrite ops =>
      if free then
        let '(w', r) := append_and_sync (writer s) ops in
        (set_writer s w', match r with Ok _ => FOkSize | Err _ => FFailFlag ops end)
      else (s, FFailFlag ops)
  | FOkSize => (set_queue_size s 0, FOkFlag)
  | FOkFlag => (set_flags s (flush_needed s) true, FOkNeeded)
  | FOkNeeded => (set_flags s false (flush_success s), FRelease)
  | FFailFlag ops => (set_flags s (flush_needed s) false, FFailNeeded ops)
  | FFailNeeded ops => (set_flags s true (flush_success s), FRequeue ops)
  | FRequeue ops => let q := requeue ops (queue s) in (set_queue s q, FFailSize (zlen q))
  | FFailSize len => (set_queue_size s len, FRelease)
  | FRelease => (release_leadership s, FRemove)
  | FRemove => (remove_waiter s, FIdle)
  | _ => (s, p)
  end.

Definition is_flusher (p : pc) : bool :=
  match p with
  | FIdle | FClaim | FDrain | FEmptySize | FEmptyFlag | FWrite _ | FOkSize | FOkFlag | FOkNeeded
  | FFailFlag _ | FFailNeeded _ | FRequeue _ | FFailSize _ | FRelease | FRemove => true
  | _ => false
  end.

Definition thread_step (free : bool) s (p : pc) : WalWriter W * pc :=
  if is_flusher p then flusher_step free s p else caller_step s p.

(** The record a step queues. *)
Definition pushed (p : pc) : list WalOp := match p with CPush op => [op] | _ => [] end.

(** The shared writer, the threads, and the records queued so far in order. *)
Record Sys := { shared : WalWriter W; threads : list pc; log : list WalOp }.

(** A thread takes a step, a caller arrives, or some thread appends a record
    outside the queue. *)
Inductive step : Sys → Sys → Prop :=
  | step_thread free s l1 p l2 lg :
      step {| shared := s; threads := l1 ++ p :: l2; log := lg |}
           {| shared := (thread_step free s p).1; threads := l1 ++ (thread_step free s p).2 :: l2;
              log := lg ++ pushed p |}
  | step_arrive s ts lg op :
      step {| shared := s; threads := ts; log := lg |}
           {| shared := s; threads := ts ++ [CPush op]; log := lg |}
  | step_append s ts lg t id p :
      step {| shared := s; threads := ts; log := lg |}
           {| shared := (append s t id p).1; threads := ts; log := lg |}.

(** A writer just opened, with its flusher. *)
Definition sys_init (w : W) (cfg : WalConfig) (records : list WalOp) : Sys :=
  {| shared := open w cfg records; threads := [FIdle]; log := [] |}.

(** Run a schedule: thread index and outcome of a [try_lock]. *)
Definition run_thread (st : Sys) (c : nat * bool) : Sys :=
  match threads st !! c.1 with
  | Some p =>
      {| shared := (thread_step c.2 (shared st) p).1;
         threads := <[c.1 := (thread_step c.2 (shared st) p).2]> (threads st);
         log := log st ++ pushed p |}
  | None => st
  end.
Definition run_schedule (st : Sys) (cs : list (nat * bool)) : Sys := foldl run_thread st cs.
Definition arrive (st : Sys) (op : WalOp) : Sys :=
  {| shared := shared st; threads := threads st ++ [CPush op]; log := log st |}.
End steps.
Arguments Sys : clear implicits.

(** * Leadership and batches in flight *)

Definition leads (p : pc) : bool :=
  match p with
  | CLead _ | FDrain | FEmptySize | FEmptyFlag | FWrite _ | FOkSize | FOkFlag | FOkNeeded
  | FFailFlag _ | FFailNeeded _ | FRequeue _ | FFailSize _ | FRelease => true
  | _ => false
  end.

(** The batch a thread has drained and not yet written or put back. *)
Definition in_flight (p : pc) : list WalOp :=
  match p with
  | CLead (LWrite _ ops) | CLead (LFailRetries _ ops) | CLead (LRequeue _ ops)
  | FWrite ops | FFailFlag ops | FFailNeeded ops | FRequeue ops => ops
  | _ => []
  end.

Definition leaders (ts : list pc) : list pc := filter (λ p, leads p = true) ts.
Definition batches (ts : list pc) : list WalOp := concat (in_flight <$> ts).

Lemma in_flight_leads p : leads p = false → in_flight p = [].
Proof. by destruct p. Qed.

Lemma no_leaders_no_batches ts : leaders ts = [] → batches ts = [].
Proof.
  unfold leaders, batches. induction ts as [|p ts IH]; [done|]. rewrite filter_cons.
  case_decide as Hp; [done|]. intros Hl. cbn.
  rewrite IH, in_flight_leads by (done || by destruct (leads p)). done.
Qed.

Arguments leaders : simpl never.
Arguments batches : simpl never.

(** What is in the durable log stays in it. *)
Lemma sublist_prefix {A} (l k k' : list A) : l `sublist_of` k → k `prefix_of` k' → l `sublist_of` k'.
Proof. intros Hl [x ->]. by apply sublist_inserts_r. Qed.

Lemma leaders_app ts1 ts2 : leaders (ts1 ++ ts2) = leaders ts1 ++ leaders ts2.
Proof. apply filter_app. Qed.
Lemma batches_app ts1 ts2 : batches (ts1 ++ ts2) = batches ts1 ++ batches ts2.
Proof. unfold batches. by rewrite fmap_app, concat_app. Qed.
Lemma leaders_cons p ts : leaders (p :: ts) = (if leads p then [p] else []) ++ leaders ts.
Proof. unfold leaders. rewrite filter_cons. case_decide as Hp; [by rewrite Hp|by destruct (leads p)]. Qed.
Lemma batches_cons p ts : batches (p :: ts) = in_flight p ++ batches ts.
Proof. done. Qed.

(** * The invariant *)

Section proofs.
Context `{WalLogLaws W}.
Implicit Types s : WalWriter W.

(** What one step does to the leadership. *)
Inductive lead_change (a a' l l' : bool) : Prop :=
  | lead_keep : a' = a → l' = l → lead_change a a' l l'
  | lead_claim : a = false → a' = true → l = false → l' = true → lead_change a a' l l'
  | lead_release : l = true → a' = false → l' = false → lead_change a a' l l'.

(** What it does to the records: they move between the thread's batch and the
    queue in order, or the batch becomes durable. *)
Definition records_kept s s' (p p' : pc) : Prop :=
  wl_durable (writer s) `prefix_of` wl_durable (writer s') ∧
  (in_flight p ++ queue s ++ pushed p = in_flight p' ++ queue s' ∨
   (pushed p = [] ∧ in_flight p' = [] ∧ queue s' = queue s ∧
    ∃ pre, wl_durable (writer s') = wl_durable (writer s) ++ pre ++ in_flight p)).

Lemma write_kept s s' p p' ops :
  in_flight p = ops → pushed p = [] → queue s' = queue s →
  writer s' = (append_and_sync (writer s) ops).1 →
  in_flight p' = match (append_and_sync (writer s) ops).2 with Ok _ => [] | Err _ => ops end →
  records_kept s s' p p'.
Proof.
  intros Hf Hp Hq Hw Hf'. pose proof (append_and_sync_spec (writer s) ops) as [Hm Hd].
  unfold records_kept. rewrite Hw, Hp, Hq, Hf', Hf. split; [done|].
  destruct (append_and_sync (writer s) ops).2 as [[]|e]; [right|left; by rewrite app_nil_r].
  split_and!; [done..|]. exists (wl_pending (writer s)). by apply Hd.
Qed.

(** A step that touches neither the records nor the leadership. *)
Lemma records_frame s s' p p' :
  pushed p = [] → in_flight p' = in_flight p → queue s' = queue s → writer s' = writer s →
  records_kept s s' p p'.
Proof. intros Hp Hf Hq Hw. unfold records_kept. rewrite Hp, Hf, Hq, Hw, app_nil_r. auto. Qed.

Ltac thread_cases :=
  repeat match goal with
         | |- context [if ?b then _ else _] => destruct b eqn:?
         | |- context [match ?q with [] => _ | _ :: _ => _ end] => destruct q eqn:?
         end.

Lemma leader_step_kept s l :
  let r := leader_step s l in
  let p' := match r.2 with Some l' => CLead l' | None => CAfterLead end in
  lead_change (leader_active s) (leader_active r.1) true (leads p') ∧ records_kept s r.1 (CLead l) p'.
Proof.
  destruct l as [[|n]|n|n|n|n ops|n ops|n ops|n len|n|n|n|n|n|n|n|]; cbn.
  6:{ destruct (append_and_sync (writer s) ops) as [w' [[]|e]] eqn:E; cbn;
        (split; [by apply lead_keep|apply (write_kept _ _ _ _ ops); cbn; by rewrite ?E]). }
  7:{ split; [by apply lead_keep|]. split; [done|left]. cbn. by rewrite requeue_app, app_nil_r. }
  4:{ split; [destruct (queue s); by apply lead_keep|]. split; [done|left].
      cbn. destruct (queue s); cbn; by rewrite ?app_nil_r. }
  all: thread_cases; (split; [by constructor|by apply records_frame]).
Qed.

Lemma thread_step_kept free s p :
  let r := thread_step free s p in
  lead_change (leader_active s) (leader_active r.1) (leads p) (leads r.2) ∧ records_kept s r.1 p r.2.
Proof.
  destruct p as [op|len| | | | | |l| | | |ok|ok| | | | | |ops| | | |ops|ops|ops|len| |]; cbn;
    unfold try_claim_leader; cbn;
    try (thread_cases; cbn; (split; [by constructor|by apply records_frame])).
  - split; [by constructor|]. by split; [|left].
  - pose proof (leader_step_kept s l) as Hl. cbn in Hl. by destruct (leader_step s l) as [s' [l'|]].
  - split; [destruct (queue s); by constructor|]. split; [done|left].
    cbn. destruct (queue s); cbn; by rewrite ?app_nil_r.
  - destruct free; [|split; [by constructor|by apply records_frame]].
    destruct (append_and_sync (writer s) ops) as [w' [[]|e]] eqn:E; cbn;
      (split; [by constructor|apply (write_kept _ _ _ _ ops); cbn; by rewrite ?E]).
  - split; [by constructor|]. split; [done|left]. cbn. by rewrite requeue_app, app_nil_r.
Qed.

(** The leader flag counts the leading threads, and the records queued so far are
    those written out, then the batch in flight, then the queue. *)
Record sys_inv (st : Sys W) : Prop := {
  inv_leader : length (leaders (threads st)) = (if leader_active (shared st) then 1 else 0)%nat;
  inv_records : ∃ out, log st = out ++ batches (threads st) ++ queue (shared st) ∧
                  out `sublist_of` wl_durable (writer (shared st))
}.

Lemma leader_count l1 p p' l2 a a' :
  length (leaders (l1 ++ p :: l2)) = (if a : bool then 1 else 0)%nat →
  lead_change a a' (leads p) (leads p') →
  length (leaders (l1 ++ p' :: l2)) = (if a' : bool then 1 else 0)%nat ∧
  (leads p = true ∨ leads p' = true → batches l1 = [] ∧ batches l2 = []).
Proof.
  rewrite !leaders_app, !leaders_cons, !length_app. intros Hn Hc.
  assert (∀ ts, length (leaders ts) = 0%nat → batches ts = []) as Hb.
  { intros ts Hz. by apply no_leaders_no_batches, nil_length_inv. }
  destruct Hc as [-> -> | -> -> Hp Hp' | Hp -> Hp'].
  - destruct (leads p); cbn in *; (split; [done|]); [|naive_solver].
    intros _. destruct a; (split; apply Hb; lia).
  - rewrite Hp in Hn. rewrite Hp'. cbn in *. split; [lia|]. intros _. split; apply Hb; lia.
  - rewrite Hp in Hn. rewrite Hp'. cbn in *. destruct a; [|lia]. split; [lia|]. intros _. split; apply Hb; lia.
Qed.

Lemma append_queue s t id p :
  queue (append s t id p).1 = queue s ∧ leader_active (append s t id p).1 = leader_active s ∧
  wl_durable (writer s) `prefix_of` wl_durable (writer (append s t id p).1).
Proof.
  unfold append. destruct (enabled (wal_config s)); cbn; [|done].
  pose proof (wl_append_mono (writer s) {| op_type := t; op_txn_id := id; payload := p |}) as Hm.
  destruct (wl_append _ _) as [w' [[]|e]]; cbn; [|done].
  unfold note_commit. by case_bool_decide.
Qed.

Lemma records_step s s' l1 p p' l2 lg out :
  records_kept s s' p p' →
  (leads p = true ∨ leads p' = true → batches l1 = [] ∧ batches l2 = []) →
  lg = out ++ batches (l1 ++ p :: l2) ++ queue s → out `sublist_of` wl_durable (writer s) →
  ∃ out', lg ++ pushed p = out' ++ batches (l1 ++ p' :: l2) ++ queue s' ∧
    out' `sublist_of` wl_durable (writer s').
Proof.
  intros [Hpre Hrec] Hlead -> Hout. rewrite !batches_app, !batches_cons.
  destruct (leads p || leads p') eqn:El.
  - apply orb_true_iff in El. destruct (Hlead El) as [-> ->]. rewrite !app_nil_r. cbn [app].
    destruct Hrec as [Hmove|(Hp & Hf & Hq & pre & Hd)].
    + exists out. rewrite <- Hmove, <- !app_assoc. split; [done|]. by eapply sublist_prefix.
    + exists (out ++ in_flight p). rewrite Hp, Hf, Hq, Hd, app_nil_r. cbn. rewrite <- app_assoc. split; [done|].
      apply sublist_app; [done|]. by apply sublist_inserts_l.
  - apply orb_false_iff in El as [Ep%in_flight_leads Ep'%in_flight_leads].
    rewrite Ep, Ep' in *. cbn [app] in *. exists out. rewrite <- !app_assoc. split.
    + destruct Hrec as [<-|(-> & _ & -> & _)]; [done|by rewrite app_nil_r].
    + by eapply sublist_prefix.
Qed.

Lemma step_inv st st' : step st st' → sys_inv st → sys_inv st'.
Proof.
  intros [free s l1 p l2 lg|s ts lg op|s ts lg t id p] [Hl (out & Hlog & Hout)]; cbn in *.
  - destruct (thread_step_kept free s p) as [Hc Hr].
    destruct (leader_count l1 p _ l2 _ _ Hl Hc) as [Hl' Hb].
    split; cbn; [done|]. by apply (records_step s _ l1 p _ l2 lg out).
  - split; cbn.
    + by rewrite leaders_app, app_nil_r.
    + exists out. by rewrite batches_app, app_nil_r.
  - destruct (append_queue s t id p) as (Hq & Ha & Hd). split; cbn; [by rewrite Ha|].
    exists out. rewrite Hq. split; [done|]. by eapply sublist_prefix.
Qed.

Lemma init_inv w cfg records : sys_inv (sys_init w cfg records).
Proof. split; cbn; [done|]. exists []. split; [done|]. apply sublist_nil_l. Qed.

Lemma reachable_inv st st' : rtc step st st' → sys_inv st → sys_inv st'.
Proof. induction 1; eauto using step_inv. Qed.

Lemma run_schedule_reachable (st : Sys W) cs : rtc step st (run_schedule st cs).
Proof.
  revert st. induction cs as [|c cs IH]; intros st; [done|]. cbn. etrans; [|apply IH].
  unfold run_thread. destruct (threads st !! c.1) as [p|] eqn:E; [|done]. apply rtc_once.
  destruct st as [s ts lg]; cbn in *. rewrite <- (take_drop_middle _ _ _ E) at 1.
  rewrite (insert_take_drop _ _ _ (lookup_lt_Some _ _ _ E)). apply step_thread.
Qed.
End proofs.

Lemma unique_leader ts i j p q :
  (length (leaders ts) ≤ 1)%nat → ts !! i = Some p → ts !! j = Some q →
  leads p = true → leads q = true → i = j.
Proof.
  intros Hn Hi Hj Hp Hq. destruct (decide (i = j)) as [|Hne]; [done|]. exfalso.
  rewrite <- (take_drop_middle _ _ _ Hi) in Hn. rewrite leaders_app, leaders_cons, Hp, !length_app in Hn. cbn in Hn.
  assert (leaders (take i ts) = [] ∧ leaders (drop (S i) ts) = []) as [Ht Hd].
  { split; apply nil_length_inv; lia. }
  assert (∀ l, q ∈ l → leaders l ≠ []) as Hin.
  { intros l Hl Hnil. assert (q ∈ leaders l) as Hx by (by apply list_elem_of_filter).
    rewrite Hnil in Hx. by apply elem_of_nil in Hx. }
  destruct (decide (j < i)%nat).
  - apply (Hin (take i ts)); [|done]. apply list_elem_of_lookup. exists j. by rewrite lookup_take_lt.
  - apply (Hin (drop (S i) ts)); [|done]. apply list_elem_of_lookup. exists (j - S i)%nat.
    rewrite lookup_drop. by replace (S i + (j - S i))%nat with j by lia.
Qed.

Lemma leader_exists ts : length (leaders ts) ≠ 0%nat ↔ ∃ p, p ∈ ts ∧ leads p = true.
Proof.
  unfold leaders. destruct (filter (λ p, leads p = true) ts) as [|p l] eqn:E; cbn; split.
  - done.
  - intros (p & Hin & Hp). assert (p ∈ filter (λ p, leads p = true) ts) as Hx by (by apply list_elem_of_filter).
    rewrite E in Hx. by apply elem_of_nil in Hx.
  - intros _. exists p. assert (p ∈ filter (λ p, leads p = true) ts) as Hx by (rewrite E; by left).
    apply list_elem_of_filter in Hx. naive_solver.
  - done.
Qed.

(** * Properties *)

(** C9: group commit under every interleaving of any number of strict appends, the
    background flusher and plain appends, with flushes that may fail: at most one
    thread leads, the leader flag says whether one does, and the records queued so
    far are, in order, records in the durable log, then the batch the leader has
    in flight, then the queue: none is lost or reordered. *)
Theorem group_commit_interleaved `{WalLogLaws W} (w : W) cfg records st :
  rtc step (sys_init w cfg records) st →
  (∀ i j p q, threads st !! i = Some p → threads st !! j = Some q →
     leads p = true → leads q = true → i = j) ∧
  (leader_active (shared st) = true ↔ ∃ p, p ∈ threads st ∧ leads p = true) ∧
  ∃ out, log st = out ++ batches (threads st) ++ queue (shared st) ∧
    out `sublist_of` wl_durable (writer (shared st)).
Proof.
  intros Hr. destruct (reachable_inv _ _ Hr (init_inv w cfg records)) as [Hl Hrec]. split_and!; [| |done].
  - intros i j p q. apply unique_leader. rewrite Hl. by destruct (leader_active _); lia.
  - rewrite <- leader_exists, Hl. by destruct (leader_active _).
Qed.

Definition demo_record (t : TxnId) : WalOp :=
  {| op_type := OCommit; op_txn_id := t; payload := PCommit t None |}.

(** Two callers; the second queues its record after the first has drained the
    queue and before it resets the size counter. *)
Definition demo_race : Sys MemLog :=
  run_schedule (arrive (arrive (sys_init (demo_log []) WalConfig_default []) (demo_record 1)) (demo_record 2))
    ((λ i, (i, true)) <$> (replicate 9 1%nat ++ replicate 4 2%nat ++ replicate 5 1%nat ++ replicate 4 2%nat)).

Lemma demo_race_reachable : rtc step (sys_init (demo_log []) WalConfig_default []) demo_race.
Proof.
  unfold demo_race. etrans; [|apply run_schedule_reachable]. unfold arrive, sys_init.
  eapply rtc_l; [apply (step_arrive _ _ _ (demo_record 1))|].
  eapply rtc_l; [apply (step_arrive _ _ _ (demo_record 2))|]. apply rtc_refl.
Qed.

Lemma group_commit_interleaved_witness :
  leader_active (shared demo_race) = true ↔ ∃ p, p ∈ threads demo_race ∧ leads p = true.
Proof.
  exact (proj1 (proj2 (group_commit_interleaved (demo_log []) WalConfig_default [] demo_race
    demo_race_reachable))).
Defined.

(** A strict append can be told that its record is durable while the record
    is only queued, without any flush failing: the leader that flushed an earlier
    batch resets the size counter outside the queue's lock, and a caller that
    queued in between reads an empty queue and a successful flush. *)
Theorem group_commit_size_race :
  ∃ st : Sys MemLog, rtc step (sys_init (demo_log []) WalConfig_default []) st ∧
    threads st !! 2%nat = Some (CReturn true) ∧
    queue (shared st) = [demo_record 2] ∧ wl_durable (writer (shared st)) = [demo_record 1].
Proof. exists demo_race. split; [apply demo_race_reachable|by vm_compute]. Qed.
