(* ===== verification/WalRecovery.v ===== *)
(** WAL recovery (write/wal_recovery.rs): one pass over the records that groups
    operations by transaction and replays those of the committed ones through a
    callback, classifying the callback's errors. *)

From stdpp Require Import base gmap strings list pretty.
From S2P Require Import Prelude Kv Wal.

Local Open Scope Z_scope.

(** * Error classification *)

Inductive ReplayErrorKind :=
  | Recoverable (msg : string)
  | Ambiguous (msg : string)
  | Corruption (msg : string)
  | Fatal (msg : string).

Definition ReplayErrorKind_display (k : ReplayErrorKind) : string :=
  match k with
  | Recoverable m => "recoverable: " +:+ m
  | Ambiguous m => "ambiguous: " +:+ m
  | Corruption m => "corruption: " +:+ m
  | Fatal m => "fatal: " +:+ m
  end.

Record ReplayError := { re_kind : ReplayErrorKind; re_txn_id : TxnId }.

Definition ReplayError_display (e : ReplayError) : string :=
  "WAL replay error (" +:+ ReplayErrorKind_display (re_kind e) +:+ "): " +:+ pretty (re_txn_id e).

(** [haystack.contains(needle)] *)
Definition str_contains (haystack needle : string) : bool :=
  match String.index 0 needle haystack with Some _ => true | None => false end.

Definition contains_any (haystack : string) (needles : list string) : bool :=
  existsb (str_contains haystack) needles.

Definition classify_apply_error (err : RockDuckError) (txn_id : TxnId) : ReplayErrorKind :=
  let msg := error_display err in
  let corrupt := Corruption ("Arrow IPC parse error for txn " +:+ pretty txn_id +:+ ": " +:+ msg) in
  let unclear := Ambiguous ("apply classification unclear for txn " +:+ pretty txn_id +:+ ": " +:+ msg) in
  match err with
  | ECodec _ | EDeserialize _ => corrupt
  | EIo kind _ =>
      if (match kind with AlreadyExists | PermissionDenied => true | _ => false end)
         || contains_any msg ["exists"; "already"]
      then Recoverable ("IO conflict for txn " +:+ pretty txn_id +:+ " (likely already applied): " +:+ msg)
      else unclear
  | EInternal inner =>
      if contains_any inner ["Arrow"; "IPC"; "decode"; "parse"; "execute_arrow"] then corrupt else unclear
  | _ => unclear
  end.

(** [s.replace(c, r)] for a character. *)
Fixpoint str_replace (c : Ascii.ascii) (r s : string) : string :=
  match s with
  | EmptyString => EmptyString
  | String d s' => if Ascii.eqb d c then r +:+ str_replace c r s' else String d (str_replace c r s')
  end.

Definition backslash : Ascii.ascii := Ascii.ascii_of_nat 92.
Definition dquote : Ascii.ascii := Ascii.ascii_of_nat 34.
Definition quoted (s : string) : string := String dquote s +:+ String dquote EmptyString.

(** The line that [write_replay_failure] appends. *)
Definition replay_failure_line (txn_id : TxnId) (reason : string) : string :=
  let escaped :=
    str_replace dquote (String backslash (String dquote EmptyString))
      (str_replace backslash (String backslash (String backslash EmptyString)) reason) in
  "{" +:+ quoted "txn_id" +:+ ": " +:+ pretty txn_id +:+ ", " +:+ quoted "reason" +:+ ": "
  +:+ quoted escaped +:+ "}".

(** * Replay *)

(** The state of the closure that [replay_each] runs on every record; [applied]
    is the state of the caller's [apply], [failure_file] the lines written. *)
Record Replay (S : Type) := {
  pending : gmap TxnId (list WalOp);
  begin_records : gmap TxnId Z;
  seen_begins : gset TxnId;
  last_committed : Z;
  max_seen_committed : Z;
  committed_count : Z;
  r_active_txns : list (TxnId * Z);
  r_commit_ts_map : gmap TxnId Z;
  r_inserted_at_map : gmap TxnId Z;
  max_inserted_at : Z;
  committed_ops : list WalOp;
  failed_count : Z;
  corruption_count : Z;
  failure_file : list string;
  fatal_error : option ReplayError;
  applied : S
}.
Arguments pending {S} _. Arguments begin_records {S} _. Arguments seen_begins {S} _.
Arguments last_committed {S} _. Arguments max_seen_committed {S} _. Arguments committed_count {S} _.
Arguments r_active_txns {S} _. Arguments r_commit_ts_map {S} _. Arguments r_inserted_at_map {S} _.
Arguments max_inserted_at {S} _. Arguments committed_ops {S} _. Arguments failed_count {S} _.
Arguments corruption_count {S} _. Arguments failure_file {S} _. Arguments fatal_error {S} _.
Arguments applied {S} _.

Record RecoveryResult := {
  rr_last_committed_txn : Z;
  rr_max_seen_committed_txn : Z;
  rr_committed_count : Z;
  rr_discarded_count : Z;
  rr_active_txns : list (TxnId * Z);
  rr_commit_ts_map : gmap TxnId Z;
  rr_inserted_at_map : gmap TxnId Z;
  rr_committed_ops : list WalOp;
  rr_replay_watermark : Z
}.

Section replay.
Context {S : Type} (apply : S → WalOp → S * Result unit).
Implicit Types st : Replay S.

Definition Replay_init (a : S) : Replay S :=
  {| pending := ∅; begin_records := ∅; seen_begins := ∅; last_committed := 0;
     max_seen_committed := 0; committed_count := 0; r_active_txns := []; r_commit_ts_map := ∅;
     r_inserted_at_map := ∅; max_inserted_at := 0; committed_ops := []; failed_count := 0;
     corruption_count := 0; failure_file := []; fatal_error := None; applied := a |}.

Definition set_pending st (p : gmap TxnId (list WalOp)) : Replay S :=
  {| pending := p; begin_records := begin_records st; seen_begins := seen_begins st;
     last_committed := last_committed st; max_seen_committed := max_seen_committed st;
     committed_count := committed_count st; r_active_txns := r_active_txns st;
     r_commit_ts_map := r_commit_ts_map st; r_inserted_at_map := r_inserted_at_map st;
     max_inserted_at := max_inserted_at st; committed_ops := committed_ops st;
     failed_count := failed_count st; corruption_count := corruption_count st;
     failure_file := failure_file st; fatal_error := fatal_error st; applied := applied st |}.

(** The loop over a committed transaction's operations: it stops at the first
    error, with its classification. *)
Fixpoint apply_ops (txn_id : TxnId) (ops : list WalOp) (a : S) : S * option ReplayErrorKind :=
  match ops with
  | [] => (a, None)
  | op :: ops' =>
      match apply a op with
      | (a', Ok _) => apply_ops txn_id ops' a'
      | (a', Err e) => (a', Some (classify_apply_error e txn_id))
      end
  end.

(** The bookkeeping of a commit record before its operations are replayed: the
    transaction leaves the pending state, its timestamps are recorded and it is
    listed in [active_txns]. *)
Definition note_commit_record st (op : WalOp) : Replay S :=
  let t := op_txn_id op in
  let '(begin_ts, commit_ts, ia) :=
    match payload op with
    | PCommit b ia => (b, b, ia)
    | _ => (t, t, None)
    end in
  {| pending := delete t (pending st); begin_records := delete t (begin_records st);
     seen_begins := seen_begins st ∖ {[t]};
     last_committed := last_committed st;
     max_seen_committed := if max_seen_committed st <? t then t else max_seen_committed st;
     committed_count := committed_count st;
     r_active_txns := r_active_txns st ++ [(t, begin_ts)];
     r_commit_ts_map := <[t := commit_ts]> (r_commit_ts_map st);
     r_inserted_at_map := match ia with
                          | Some x => <[t := x]> (r_inserted_at_map st)
                          | None => r_inserted_at_map st
                          end;
     max_inserted_at := match ia with
                        | Some x => if max_inserted_at st <? x then x else max_inserted_at st
                        | None => max_inserted_at st
                        end;
     committed_ops := committed_ops st; failed_count := failed_count st;
     corruption_count := corruption_count st; failure_file := failure_file st;
     fatal_error := fatal_error st; applied := applied st |}.

(** The outcome of replaying the operations [ops] of transaction [t]; a fatal
    error leaves the counters alone. *)
Definition finish_commit st (t : TxnId) (ops : list WalOp) (a : S) (err : option ReplayErrorKind)
    : Replay S :=
  {| pending := pending st; begin_records := begin_records st; seen_begins := seen_begins st;
     last_committed := match err with
                       | None => if last_committed st <? t then t else last_committed st
                       | Some _ => last_committed st
                       end;
     max_seen_committed := max_seen_committed st;
     committed_count := match err with
                        | None => committed_count st + 1
                        | Some _ => committed_count st
                        end;
     r_active_txns := r_active_txns st; r_commit_ts_map := r_commit_ts_map st;
     r_inserted_at_map := r_inserted_at_map st; max_inserted_at := max_inserted_at st;
     committed_ops := match err with
                      | None => committed_ops st ++ ops
                      | Some _ => committed_ops st
                      end;
     failed_count := match err with
                     | None | Some (Fatal _) => failed_count st
                     | Some _ => failed_count st + 1
                     end;
     corruption_count := match err with
                         | Some (Corruption _) => corruption_count st + 1
                         | _ => corruption_count st
                         end;
     failure_file := match err with
                     | Some (Corruption msg) => failure_file st ++ [replay_failure_line t msg]
                     | _ => failure_file st
                     end;
     fatal_error := match err with
                    | Some (Fatal msg) => Some {| re_kind := Fatal msg; re_txn_id := t |}
                    | _ => fatal_error st
                    end;
     applied := a |}.

(** The closure on one record. *)
Definition replay_record st (op : WalOp) : Replay S :=
  let t := op_txn_id op in
  match op_type op with
  | OInsert | ODelete | OUpdate =>
      set_pending st (<[t := default [] (pending st !! t) ++ [op]]> (pending st))
  | OBegin =>
      {| pending := <[t := default [] (pending st !! t)]> (pending st);
         begin_records := <[t := t]> (begin_records st); seen_begins := {[t]} ∪ seen_begins st;
         last_committed := last_committed st; max_seen_committed := max_seen_committed st;
         committed_count := committed_count st; r_active_txns := r_active_txns st;
         r_commit_ts_map := r_commit_ts_map st; r_inserted_at_map := r_inserted_at_map st;
         max_inserted_at := max_inserted_at st; committed_ops := committed_ops st;
         failed_count := failed_count st; corruption_count := corruption_count st;
         failure_file := failure_file st; fatal_error := fatal_error st; applied := applied st |}
  | OCommit =>
      let ops := default [] (pending st !! t) in
      let st := note_commit_record st op in
      match ops with
      | [] => st
      | _ => let '(a, err) := apply_ops t ops (applied st) in finish_commit st t ops a err
      end
  | ORollback => set_pending st (delete t (pending st))
  | OCheckpoint | OCompaction => st
  end.

(** [replay_committed_ops]: [records] are what the log reader yields and
    [reader_error] the error it ends with, if any.  A log directory that cannot be
    opened ends the call before this, with a fatal error and nothing applied. *)
Definition replay_committed_ops (records : list WalOp) (reader_error : option string) (a : S)
    : S * result ReplayError RecoveryResult :=
  let st := for_each records (Replay_init a) replay_record in
  (applied st,
   match reader_error with
   | Some e => Err {| re_kind := Fatal ("WAL reader error: " +:+ e); re_txn_id := 0 |}
   | None =>
       match fatal_error st with
       | Some e => Err e
       | None =>
           Ok {| rr_last_committed_txn := last_committed st;
                 rr_max_seen_committed_txn := max_seen_committed st;
                 rr_committed_count := committed_count st;
                 rr_discarded_count := Z.of_nat (size (pending st));
                 rr_active_txns := r_active_txns st;
                 rr_commit_ts_map := r_commit_ts_map st;
                 rr_inserted_at_map := r_inserted_at_map st;
                 rr_committed_ops := committed_ops st;
                 rr_replay_watermark := max_inserted_at st |}
       end
   end).
End replay.

(** * The two-phase specification *)

Definition is_data (op : WalOp) : bool :=
  match op_type op with OInsert | ODelete | OUpdate => true | _ => false end.

(** A record that ends transaction [t]: its commit or its rollback. *)
Definition ends (t : TxnId) (op : WalOp) : bool :=
  (op_txn_id op =? t) && match op_type op with OCommit | ORollback => true | _ => false end.

(** The data operations of [t] since its last end, read backwards from the
    newest record. *)
Fixpoint open_rev (t : TxnId) (newest_first : list WalOp) : list WalOp :=
  match newest_first with
  | [] => []
  | op :: l =>
      if ends t op then []
      else if is_data op && (op_txn_id op =? t) then op :: open_rev t l else open_rev t l
  end.

Definition open_ops (t : TxnId) (log : list WalOp) : list WalOp := reverse (open_rev t (reverse log)).

(** Every commit record of a log with the operations it commits, in log order. *)
Fixpoint commit_groups_from (pre rest : list WalOp) : list (WalOp * list WalOp) :=
  match rest with
  | [] => []
  | op :: rest' =>
      (if bool_decide (op_type op = OCommit) then [(op, open_ops (op_txn_id op) pre)] else [])
      ++ commit_groups_from (pre ++ [op]) rest'
  end.

Definition commit_groups (log : list WalOp) : list (WalOp * list WalOp) := commit_groups_from [] log.

(** Phase two: the groups applied in commit order; a group whose replay fails is
    not counted and its operations are not reported. *)
Definition apply_group {S} (apply : S → WalOp → S * Result unit)
    (acc : S * list WalOp * Z * Z) (g : WalOp * list WalOp) : S * list WalOp * Z * Z :=
  let '(a, ops, last, count) := acc in
  match g.2 with
  | [] => acc
  | _ =>
      match apply_ops apply (op_txn_id g.1) g.2 a with
      | (a', None) => (a', ops ++ g.2, Z.max last (op_txn_id g.1), count + 1)
      | (a', Some _) => (a', ops, last, count)
      end
  end.

Definition commit_begin_ts (op : WalOp) : Z :=
  match payload op with PCommit b _ => b | _ => op_txn_id op end.

(** * Proofs *)

Lemma open_ops_snoc t log op :
  open_ops t (log ++ [op]) =
  if ends t op then []
  else if is_data op && (op_txn_id op =? t) then open_ops t log ++ [op] else open_ops t log.
Proof.
  unfold open_ops. rewrite reverse_snoc. cbn [open_rev].
  destruct (ends t op); [done|]. destruct (_ && _); [by rewrite reverse_cons|done].
Qed.

Lemma commit_groups_from_app pre l1 l2 :
  commit_groups_from pre (l1 ++ l2) = commit_groups_from pre l1 ++ commit_groups_from (pre ++ l1) l2.
Proof.
  revert pre. induction l1 as [|op l1 IH]; intros pre; cbn; [by rewrite app_nil_r|].
  rewrite IH, <- !app_assoc. done.
Qed.

Lemma commit_groups_snoc log op :
  commit_groups (log ++ [op]) =
  commit_groups log ++ (if bool_decide (op_type op = OCommit) then [(op, open_ops (op_txn_id op) log)] else []).
Proof. unfold commit_groups. rewrite commit_groups_from_app. cbn. by rewrite app_nil_r. Qed.

(** An operation is open in a log exactly when it is there, belongs to [t], and
    no later record ends [t]. *)
Lemma elem_of_open_ops t log op :
  op ∈ open_ops t log ↔
  ∃ l1 l2, log = l1 ++ op :: l2 ∧ is_data op = true ∧ op_txn_id op = t ∧
    Forall (λ x, ends t x = false) l2.
Proof.
  induction log as [|x log IH] using rev_ind.
  - split; [by intros ?%elem_of_nil|]. intros (l1 & l2 & Heq & _). by destruct l1.
  - rewrite open_ops_snoc. destruct (ends t x) eqn:Ex.
    + split; [by intros ?%elem_of_nil|]. intros (l1 & l2 & Heq & Hd & Ht & Hall).
      destruct l2 as [|y l2 _] using rev_ind.
      * apply app_inj_tail in Heq as [_ ->]. unfold ends, is_data in *.
        destruct (op_type op); rewrite ?andb_false_r in Ex; done.
      * rewrite app_comm_cons, app_assoc in Heq. apply app_inj_tail in Heq as [_ ->].
        apply Forall_app in Hall as [_ Hall]. rewrite Forall_singleton in Hall. congruence.
    + assert (op ∈ open_ops t log ↔ ∃ l1 l2, log ++ [x] = l1 ++ op :: l2 ++ [x] ∧ is_data op = true ∧
                op_txn_id op = t ∧ Forall (λ y, ends t y = false) (l2 ++ [x])) as IH'.
      { rewrite IH. split; intros (l1 & l2 & Heq & Hd & Ht & Hall); exists l1, l2.
        - rewrite Heq, Forall_app, Forall_singleton, <- app_assoc. done.
        - rewrite app_comm_cons, app_assoc in Heq. apply app_inj_tail in Heq as [-> _].
          apply Forall_app in Hall as [Hall _]. done. }
      destruct (is_data x && (op_txn_id x =? t)) eqn:Edx.
      * apply andb_true_iff in Edx as [Hdx Htx%Z.eqb_eq].
        rewrite elem_of_app, list_elem_of_singleton, IH'. split.
        -- intros [(l1 & l2 & Heq & Hrest)| ->]; [by exists l1, (l2 ++ [x])|]. by exists log, [].
        -- intros (l1 & l2 & Heq & Hd & Ht & Hall). destruct l2 as [|y l2 _] using rev_ind.
           { right. by apply app_inj_tail in Heq as [_ ->]. }
           left. exists l1, l2.
           assert (y = x) as -> by (rewrite app_comm_cons, app_assoc in Heq; by apply app_inj_tail in Heq as [_ ->]).
           done.
      * rewrite IH'. split.
        -- intros (l1 & l2 & Heq & Hrest). by exists l1, (l2 ++ [x]).
        -- intros (l1 & l2 & Heq & Hd & Ht & Hall). destruct l2 as [|y l2 _] using rev_ind.
           { apply app_inj_tail in Heq as [_ ->]. rewrite Hd, Ht, Z.eqb_refl in Edx. done. }
           exists l1, l2.
           assert (y = x) as -> by (rewrite app_comm_cons, app_assoc in Heq; by apply app_inj_tail in Heq as [_ ->]).
           done.
Qed.

Lemma elem_of_commit_groups log c ops :
  (c, ops) ∈ commit_groups log ↔
  ∃ l1 l2, log = l1 ++ c :: l2 ∧ op_type c = OCommit ∧ ops = open_ops (op_txn_id c) l1.
Proof.
  induction log as [|x log IH] using rev_ind.
  - split; [by intros ?%elem_of_nil|]. intros (l1 & l2 & Heq & _). by destruct l1.
  - rewrite commit_groups_snoc, elem_of_app, IH. split.
    + intros [(l1 & l2 & -> & Hc & ->)|Hin].
      * exists l1, (l2 ++ [x]). by rewrite <- app_assoc.
      * case_bool_decide; [|by apply elem_of_nil in Hin].
        apply list_elem_of_singleton in Hin as [= -> ->]. by exists log, [].
    + intros (l1 & l2 & Heq & Hc & ->). destruct l2 as [|y l2 _] using rev_ind.
      * apply app_inj_tail in Heq as [-> ->]. right. rewrite bool_decide_true by done. set_solver.
      * rewrite app_comm_cons, app_assoc in Heq. apply app_inj_tail in Heq as [-> ->]. left. eauto.
Qed.

Section replay_proofs.
Context {S : Type} (apply : S → WalOp → S * Result unit).

(** The state after a log is the two-phase result on it. *)
Record replay_inv (a : S) (log : list WalOp) (st : Replay S) : Prop := {
  ri_pending : ∀ t, default [] (pending st !! t) = open_ops t log;
  ri_groups : (applied st, committed_ops st, last_committed st, committed_count st) =
              foldl (apply_group apply) (a, [], 0, 0) (commit_groups log);
  ri_active : r_active_txns st = (λ g, (op_txn_id g.1, commit_begin_ts g.1)) <$> commit_groups log;
  ri_max_seen : max_seen_committed st = foldl Z.max 0 ((λ g, op_txn_id g.1) <$> commit_groups log);
  ri_commit_ts : r_commit_ts_map st =
    foldl (λ m g, <[op_txn_id g.1 := commit_begin_ts g.1]> m) ∅ (commit_groups log)
}.

Lemma open_ops_other t log op : is_data op = false → op_type op ≠ OCommit → op_type op ≠ ORollback →
  open_ops t (log ++ [op]) = open_ops t log.
Proof.
  intros Hd Hc Hr. rewrite open_ops_snoc, Hd. unfold ends. by destruct (op_type op); rewrite ?andb_false_r.
Qed.

Lemma replay_inv_commit a log st op : op_type op = OCommit →
  replay_inv a log st → replay_inv a (log ++ [op]) (replay_record apply st op).
Proof.
  intros Hop [Hp Hg Ha Hm Hc]. unfold replay_record. rewrite Hop, Hp.
  assert (commit_groups (log ++ [op]) = commit_groups log ++ [(op, open_ops (op_txn_id op) log)]) as Hgs.
  { rewrite commit_groups_snoc, bool_decide_true by done. done. }
  set (st1 := note_commit_record st op).
  assert (r_active_txns st1 = r_active_txns st ++ [(op_txn_id op, commit_begin_ts op)] ∧
          r_commit_ts_map st1 = <[op_txn_id op := commit_begin_ts op]> (r_commit_ts_map st) ∧
          max_seen_committed st1 = Z.max (max_seen_committed st) (op_txn_id op) ∧
          pending st1 = delete (op_txn_id op) (pending st)) as (E1 & E2 & E3 & E4).
  { unfold st1, note_commit_record, commit_begin_ts.
    destruct (payload op); cbn; (split_and!; [done|done| |done]); zcase; lia. }
  assert (∀ t, default [] (delete (op_txn_id op) (pending st) !! t) = open_ops t (log ++ [op])) as Hp'.
  { intros t. rewrite open_ops_snoc. unfold ends. rewrite Hop. destruct (Z.eqb_spec (op_txn_id op) t) as [<-|Hne].
    - by rewrite lookup_delete_eq.
    - rewrite lookup_delete_ne by done. unfold is_data. by rewrite Hop, Hp. }
  assert (applied st1 = applied st ∧ committed_ops st1 = committed_ops st ∧
          last_committed st1 = last_committed st ∧ committed_count st1 = committed_count st)
    as (E5 & E6 & E7 & E8).
  { unfold st1, note_commit_record. by destruct (payload op). }
  destruct (open_ops (op_txn_id op) log) as [|o ops] eqn:Eo.
  - split; rewrite ?Hgs, ?foldl_app, ?fmap_app, ?E1, ?E2, ?E3, ?E4, ?E5, ?E6, ?E7, ?E8, ?Ha, ?Hc, ?Hm;
      [exact Hp'| |done|by rewrite foldl_app|done].
    cbn [foldl]. rewrite <- Hg. done.
  - rewrite E5. destruct (apply_ops apply (op_txn_id op) (o :: ops) (applied st)) as [a' err] eqn:Ea.
    split; cbn [pending r_active_txns max_seen_committed r_commit_ts_map finish_commit
                applied committed_ops last_committed committed_count];
      rewrite ?Hgs, ?foldl_app, ?fmap_app, ?E1, ?E2, ?E3, ?E4, ?E6, ?E7, ?E8, ?Ha, ?Hc, ?Hm;
      [exact Hp'| |done|by rewrite foldl_app|done].
    cbn [foldl]. rewrite <- Hg. unfold apply_group. cbn [fst snd]. rewrite Ea.
    destruct err; [done|]. repeat f_equal. zcase; lia.
Qed.

Lemma replay_inv_step a log st op :
  replay_inv a log st → replay_inv a (log ++ [op]) (replay_record apply st op).
Proof.
  intros Hinv. destruct (decide (op_type op = OCommit)) as [Hc|Hc]; [by apply replay_inv_commit|].
  destruct Hinv as [Hp Hg Ha Hm Hcm].
  assert (commit_groups (log ++ [op]) = commit_groups log) as Hgs.
  { rewrite commit_groups_snoc, bool_decide_false by done. apply app_nil_r. }
  assert (is_data op = true → ∀ t, default []
    (<[op_txn_id op := default [] (pending st !! op_txn_id op) ++ [op]]> (pending st) !! t)
    = open_ops t (log ++ [op])) as Hdata.
  { intros Hd t. rewrite open_ops_snoc, Hd. unfold ends. unfold is_data in Hd.
    destruct (Z.eqb_spec (op_txn_id op) t) as [<-|Hne].
    - rewrite lookup_insert_eq, <- Hp. by destruct (op_type op).
    - rewrite lookup_insert_ne by done. cbn. apply Hp. }
  unfold replay_record. destruct (op_type op) eqn:Eop; try done;
    split; cbn [set_pending pending applied committed_ops last_committed committed_count r_active_txns
                max_seen_committed r_commit_ts_map]; rewrite ?Hgs; try done.
  - intros t. rewrite open_ops_other; [|by unfold is_data; rewrite Eop|by rewrite Eop|by rewrite Eop].
    destruct (decide (op_txn_id op = t)) as [<-|Hne];
      [rewrite lookup_insert_eq; apply Hp|by rewrite lookup_insert_ne].
  - apply Hdata. unfold is_data. by rewrite Eop.
  - apply Hdata. unfold is_data. by rewrite Eop.
  - apply Hdata. unfold is_data. by rewrite Eop.
  - intros t. rewrite open_ops_other; [apply Hp|by unfold is_data; rewrite Eop|by rewrite Eop|by rewrite Eop].
  - intros t. rewrite open_ops_other; [apply Hp|by unfold is_data; rewrite Eop|by rewrite Eop|by rewrite Eop].
  - intros t. rewrite open_ops_snoc. unfold ends, is_data. rewrite Eop.
    destruct (Z.eqb_spec (op_txn_id op) t) as [<-|Hne]; [by rewrite lookup_delete_eq|].
    rewrite lookup_delete_ne by done. apply Hp.
Qed.

Lemma replay_inv_all a log : replay_inv a log (for_each log (Replay_init a) (replay_record apply)).
Proof.
  unfold for_each. induction log as [|op log IH] using rev_ind.
  - split; cbn; [|done|done|done|done]. intros t. by rewrite lookup_empty.
  - rewrite foldl_app. by apply replay_inv_step.
Qed.

(** No error of the callback is classified as fatal. *)
Lemma classify_not_fatal e t msg : classify_apply_error e t ≠ Fatal msg.
Proof. destruct e; cbn; try done; by case_match. Qed.

Lemma apply_ops_not_fatal t ops a a' msg : apply_ops apply t ops a ≠ (a', Some (Fatal msg)).
Proof.
  revert a. induction ops as [|op ops IH]; intros a; cbn; [done|].
  destruct (apply a op) as [a1 [[]|e]]; [apply IH|]. intros [= _ He]. by apply classify_not_fatal in He.
Qed.

Lemma replay_no_fatal a log : fatal_error (for_each log (Replay_init a) (replay_record apply)) = None.
Proof.
  apply (for_each_inv (λ st, fatal_error st = None)); [done|]. intros st op _ Hf.
  unfold replay_record. destruct (op_type op); try done.
  assert (fatal_error (note_commit_record st op) = None) as Hf'.
  { unfold note_commit_record. by destruct (payload op). }
  destruct (default [] _) as [|o ops]; [done|].
  destruct (apply_ops _ _ _ _) as [a' [k|]] eqn:Ea; cbn; [|done].
  destruct k; try done. by apply apply_ops_not_fatal in Ea.
Qed.

(** A callback that never fails: every group is applied. *)
Lemma apply_groups_infallible a gs ops last count :
  (∀ a op, (apply a op).2 = Ok tt) →
  (foldl (apply_group apply) (a, ops, last, count) gs).1.1 =
  (foldl (λ a op, (apply a op).1) a (concat gs.*2), ops ++ concat gs.*2).
Proof.
  intros Hok. revert a ops last count. induction gs as [|[c g] gs IH]; intros a ops last count.
  - cbn. by rewrite app_nil_r.
  - rewrite fmap_cons. cbn [foldl concat snd]. rewrite foldl_app.
    assert (∀ g a t, apply_ops apply t g a = (foldl (λ a op, (apply a op).1) a g, None)) as Hg.
    { clear -Hok. induction g as [|op g IH]; intros a t; cbn; [done|].
      specialize (Hok a op). destruct (apply a op) as [a' r]; cbn in *. subst. apply IH. }
    destruct g as [|o g]; cbn [apply_group snd fst]; [apply IH|].
    rewrite Hg, IH. by rewrite <- app_assoc.
Qed.
End replay_proofs.

(** * Properties *)

(** C7: one pass of recovery equals the two-phase specification: collect, for
    every commit record, the data operations of its transaction since that
    transaction's previous commit or rollback, then apply the groups in commit
    order, reporting and counting only those whose operations all succeed.  No
    callback error aborts recovery; only a reader error does. *)
Theorem replay_two_phase {S} (apply : S → WalOp → S * Result unit) log rerr a :
  let '(a', ops, last, count) := foldl (apply_group apply) (a, [], 0, 0) (commit_groups log) in
  (replay_committed_ops apply log rerr a).1 = a' ∧
  match (replay_committed_ops apply log rerr a).2 with
  | Ok r => rerr = None ∧ rr_committed_ops r = ops ∧ rr_last_committed_txn r = last ∧
      rr_committed_count r = count ∧
      rr_max_seen_committed_txn r = foldl Z.max 0 ((λ g, op_txn_id g.1) <$> commit_groups log)
  | Err e => ∃ m, rerr = Some m ∧ e = {| re_kind := Fatal ("WAL reader error: " +:+ m); re_txn_id := 0 |}
  end.
Proof.
  destruct (replay_inv_all apply a log) as [_ Hg _ Hm _].
  destruct (foldl (apply_group apply) _ _) as [[[a' ops] last] count]. injection Hg as E1 E2 E3 E4.
  unfold replay_committed_ops. cbn [fst snd]. split; [done|].
  destruct rerr as [m|]; [eauto|]. rewrite replay_no_fatal. done.
Qed.

(** C8: with a callback that does not fail, an operation is replayed and
    reported exactly when the log commits it: it is a data record and a later
    commit record of its transaction follows with no commit or rollback of that
    transaction in between.  Uncommitted and rolled-back work never is. *)
Theorem replay_exactly_committed {S} (apply : S → WalOp → S * Result unit) log a r :
  (∀ a op, (apply a op).2 = Ok tt) →
  (replay_committed_ops apply log None a).2 = Ok r →
  (replay_committed_ops apply log None a).1 = foldl (λ a op, (apply a op).1) a (rr_committed_ops r) ∧
  ∀ op, op ∈ rr_committed_ops r ↔
    is_data op = true ∧ ∃ l1 l2 c l3, log = l1 ++ op :: l2 ++ c :: l3 ∧ op_type c = OCommit ∧
      op_txn_id c = op_txn_id op ∧ Forall (λ x, ends (op_txn_id op) x = false) l2.
Proof.
  intros Hok Hr. destruct (replay_inv_all apply a log) as [_ Hg _ _ _].
  pose proof (apply_groups_infallible apply a (commit_groups log) [] 0 0 Hok) as Hi.
  unfold replay_committed_ops in *. cbn [fst snd] in *. rewrite replay_no_fatal in Hr.
  injection Hr as <-. cbn [rr_committed_ops]. rewrite <- Hg in Hi. cbn [fst] in Hi.
  injection Hi as -> ->. split; [done|]. intros op.
  rewrite list_elem_of_In, in_concat. setoid_rewrite <- list_elem_of_In. split.
  - intros (ops & ([c ops'] & -> & Hin)%list_elem_of_fmap & Hop). cbn in Hop.
    apply elem_of_commit_groups in Hin as (l1 & l2 & -> & Hc & ->).
    apply elem_of_open_ops in Hop as (k1 & k2 & -> & Hd & Ht & Hall). split; [done|].
    exists k1, k2, c, l2. rewrite <- app_assoc, Ht. done.
  - intros (Hd & l1 & l2 & c & l3 & -> & Hc & Ht & Hall).
    exists (open_ops (op_txn_id c) (l1 ++ op :: l2)). split.
    + apply list_elem_of_fmap. exists (c, open_ops (op_txn_id c) (l1 ++ op :: l2)). split; [done|].
      apply elem_of_commit_groups. exists (l1 ++ op :: l2), l3. by rewrite <- app_assoc.
    + apply elem_of_open_ops. rewrite Ht. eauto 10.
Qed.

Definition demo_delete (t : TxnId) : WalOp :=
  {| op_type := ODelete; op_txn_id := t; payload := PDelete "t" [1] [] "s" 0 0 |}.
Definition demo_log_commit (t : TxnId) : WalOp :=
  {| op_type := OCommit; op_txn_id := t; payload := PCommit t (Some 100) |}.
(** A callback that records the operations it is given. *)
Definition recording (seen : list WalOp) (op : WalOp) : list WalOp * Result unit := (seen ++ [op], Ok tt).

Lemma replay_exactly_committed_witness :
  (replay_committed_ops recording [demo_delete 1; demo_delete 2; demo_log_commit 1] None []).1
  = foldl (λ a op, (recording a op).1) [] [demo_delete 1].
Proof.
  exact (proj1 (replay_exactly_committed recording
    [demo_delete 1; demo_delete 2; demo_log_commit 1] [] _ (λ _ _, eq_refl) eq_refl)).
Defined.

(** Recovery reports as active exactly the transactions whose commit it read
    from the log, each with the begin timestamp of its commit record, in commit
    order; the commit timestamp it records for a transaction is that begin
    timestamp. *)
Theorem recovered_active_are_committed {S} (apply : S → WalOp → S * Result unit) log a r :
  (replay_committed_ops apply log None a).2 = Ok r →
  rr_active_txns r = (λ g, (op_txn_id g.1, commit_begin_ts g.1)) <$> commit_groups log ∧
  rr_commit_ts_map r = foldl (λ m e, <[e.1 := e.2]> m) ∅ (rr_active_txns r).
Proof.
  intros Hr. destruct (replay_inv_all apply a log) as [_ _ Ha _ Hc].
  unfold replay_committed_ops in Hr. cbn [fst snd] in Hr. rewrite replay_no_fatal in Hr.
  injection Hr as <-. cbn [rr_active_txns rr_commit_ts_map]. split; [done|].
  rewrite Hc, Ha. generalize (∅ : gmap TxnId Z). generalize (commit_groups log).
  induction l as [|g gs IH]; intros m; cbn; [done|]. apply IH.
Qed.

Lemma recovered_active_are_committed_witness :
  [(1, 1)] = (λ g, (op_txn_id g.1, commit_begin_ts g.1)) <$>
             commit_groups [demo_delete 1; demo_delete 2; demo_log_commit 1].
Proof.
  exact (proj1 (recovered_active_are_committed recording
    [demo_delete 1; demo_delete 2; demo_log_commit 1] [] _ eq_refl)).
Defined.
