(* ===== verification/MemStore.v ===== *)
(** L1, the in-memory delta store (storage/delta/mem_store.rs): ping-pong
    buffers, the read snapshot and the result cache, the WAL buffer and the
    column heat tracker's sample windows. *)

From stdpp Require Import base gmap strings list pretty.
From S2P Require Import Prelude Kv Visibility Roaring DeltaTypes Wal.

Local Open Scope Z_scope.

(** storage/delta/mod.rs [SyncLevel] *)
Inductive SyncLevel := Immediate | Batch (ms max_pending : Z) | Async.

Definition DEFAULT_BATCH_FLUSH_MS : Z := 100.
Definition DEFAULT_BATCH_MAX_PENDING : Z := 1000.

(** [(seg_id, row_offset, column, txn_id)] *)
Abbreviation MemKey := (string * Z * string * TxnId)%type.

Definition delta_key (d : DeltaCell) : MemKey := (seg_id d, row_offset d, column d, txn_id d).

Definition image_len (o : option bytes) : Z := match o with Some v => zlen v | None => 0 end.

Definition estimate_size (d : DeltaCell) : Z :=
  Z.of_nat (String.length (column d)) + image_len (before d) + image_len (after d)
  + Z.of_nat (String.length (seg_id d)) + 32.

(** * Column heat *)

Record ColumnHeatTracker := { heat_records : gmap string (list Z); heat_window : Z }.

Definition ColumnHeatTracker_default : ColumnHeatTracker :=
  {| heat_records := ∅; heat_window := 256 |}.

(** [deque.push_back(txn_id); if len > window { pop_front() }] *)
Definition record_write (h : ColumnHeatTracker) (col : string) (t : TxnId) : ColumnHeatTracker :=
  let deque := default [] (heat_records h !! col) ++ [t] in
  {| heat_records := <[col := if heat_window h <? zlen deque then tail deque else deque]> (heat_records h);
     heat_window := heat_window h |}.

(** * The store *)

Section mem_store.
Context `{WalLog W}.

(** The flush thread's handle and the clock are left out; a decision that reads
    the clock takes its outcome as an argument. *)
Record DeltaMemStore := {
  hot : btree MemKey DeltaCell;
  cold : btree MemKey DeltaCell;
  mem_snapshot : btree MemKey DeltaCell;
  hot_size_bytes : Z;
  flush_threshold : Z;
  sync_level : SyncLevel;
  wal_buffer : list DeltaCell;
  batch_max_pending : Z;
  column_heat : ColumnHeatTracker;
  shutdown : bool;
  wal_writer : option (WalWriter W);
  visible_cache : list (string * TxnId * list DeltaCell)
}.

Definition with_wal (threshold : Z) (lvl : SyncLevel) (wal : option (WalWriter W)) : DeltaMemStore :=
  {| hot := []; cold := []; mem_snapshot := []; hot_size_bytes := 0; flush_threshold := threshold;
     sync_level := lvl; wal_buffer := [];
     batch_max_pending := match lvl with Batch _ n => n | _ => DEFAULT_BATCH_MAX_PENDING end;
     column_heat := ColumnHeatTracker_default; shutdown := false; wal_writer := wal;
     visible_cache := [] |}.

Implicit Types (s : DeltaMemStore) (d : DeltaCell).

Definition set_bufs s (h c sn : btree MemKey DeltaCell) (size : Z) : DeltaMemStore :=
  {| hot := h; cold := c; mem_snapshot := sn; hot_size_bytes := size;
     flush_threshold := flush_threshold s; sync_level := sync_level s; wal_buffer := wal_buffer s;
     batch_max_pending := batch_max_pending s; column_heat := column_heat s; shutdown := shutdown s;
     wal_writer := wal_writer s; visible_cache := visible_cache s |}.
Definition set_wal s (buf : list DeltaCell) (wal : option (WalWriter W)) : DeltaMemStore :=
  {| hot := hot s; cold := cold s; mem_snapshot := mem_snapshot s; hot_size_bytes := hot_size_bytes s;
     flush_threshold := flush_threshold s; sync_level := sync_level s; wal_buffer := buf;
     batch_max_pending := batch_max_pending s; column_heat := column_heat s; shutdown := shutdown s;
     wal_writer := wal; visible_cache := visible_cache s |}.
Definition set_heat s (h : ColumnHeatTracker) : DeltaMemStore :=
  {| hot := hot s; cold := cold s; mem_snapshot := mem_snapshot s; hot_size_bytes := hot_size_bytes s;
     flush_threshold := flush_threshold s; sync_level := sync_level s; wal_buffer := wal_buffer s;
     batch_max_pending := batch_max_pending s; column_heat := h; shutdown := shutdown s;
     wal_writer := wal_writer s; visible_cache := visible_cache s |}.
Definition set_cache s (c : list (string * TxnId * list DeltaCell)) : DeltaMemStore :=
  {| hot := hot s; cold := cold s; mem_snapshot := mem_snapshot s; hot_size_bytes := hot_size_bytes s;
     flush_threshold := flush_threshold s; sync_level := sync_level s; wal_buffer := wal_buffer s;
     batch_max_pending := batch_max_pending s; column_heat := column_heat s; shutdown := shutdown s;
     wal_writer := wal_writer s; visible_cache := c |}.

(** ** WAL records *)

(** The payloads of a cell: [GranuleId::zero()], an empty table name, the row
    offset as the key. *)
Definition insert_payload d : OpPayload :=
  PInsert "" (to_le_bytes 8 (row_offset d)) [column d] (default [] (after d)) [] (seg_id d) 0 (row_offset d).
Definition update_payload d : OpPayload :=
  PUpdate "" (to_le_bytes 8 (row_offset d)) [column d] (default [] (after d)) []
    [(column d, default [] (before d))] (seg_id d) 0 (row_offset d) (seg_id d) 0 (row_offset d).
Definition delete_payload d : OpPayload :=
  PDelete "" (to_le_bytes 8 (row_offset d)) [(column d, default [] (before d))] (seg_id d) 0 (row_offset d).

(** [write_wal_sync] and [write_wal_async] choose the payload by the cell's kind;
    a cell with neither image is not logged. *)
Definition sync_payload d : option OpPayload :=
  if is_update d then Some (update_payload d)
  else if is_insert d then Some (insert_payload d)
  else if is_delete d then Some (delete_payload d) else None.

(** The record type is [OpType::Insert] for every kind.  [None]: the caller spins
    on another leader. *)
Definition write_wal_sync s d : option (DeltaMemStore * Result unit) :=
  match wal_writer s, sync_payload d with
  | None, _ | _, None => Some (s, Ok tt)
  | Some w, Some p =>
      (λ wr, (set_wal s (wal_buffer s) (Some wr.1),
              map_err (λ e, EWrite ("WAL sync for txn " +:+ pretty (txn_id d) +:+ ": "
                                     +:+ error_display e)) wr.2))
      <$> append_durable w OInsert (txn_id d) p
  end.

Definition write_wal_async s d : DeltaMemStore * Result unit :=
  match wal_writer s, sync_payload d with
  | None, _ | _, None => (s, Ok tt)
  | Some w, Some p =>
      let '(w', r) := append w OInsert (txn_id d) p in
      (set_wal s (wal_buffer s) (Some w'),
       map_err (λ e, EWrite ("WAL async write for txn " +:+ pretty (txn_id d) +:+ ": "
                              +:+ error_display e)) r)
  end.

(** The type and payload of a buffered cell: what is neither an update nor an
    insert is logged as a delete. *)
Definition buffered_op d : OpType * OpPayload :=
  if is_update d then (OUpdate, update_payload d)
  else if is_insert d then (OInsert, insert_payload d) else (ODelete, delete_payload d).

(** The loop over the drained buffer, up to the first error. *)
Fixpoint append_cells (what : string) (w : WalWriter W) (ds : list DeltaCell)
    : option (WalWriter W * Result unit) :=
  match ds with
  | [] => Some (w, Ok tt)
  | d :: ds' =>
      match append_durable w (buffered_op d).1 (txn_id d) (buffered_op d).2 with
      | None => None
      | Some (w', Ok _) => append_cells what w' ds'
      | Some (w', Err e) =>
          Some (w', Err (EWrite (what +:+ pretty (txn_id d) +:+ ": " +:+ error_display e)))
      end
  end.

(** Drain the buffer and log its cells. *)
Definition drain_wal_buffer (what : string) s : option (DeltaMemStore * Result Z) :=
  let deltas := wal_buffer s in
  match deltas, wal_writer s with
  | [], _ => Some (s, Ok 0)
  | _, None => Some (set_wal s [] None, Ok (zlen deltas))
  | _, Some w =>
      (λ wr, (set_wal s [] (Some wr.1), result_bind wr.2 (λ _, Ok (zlen deltas))))
      <$> append_cells what w deltas
  end.

Definition sync_wal_before_flush s : option (DeltaMemStore * Result Z) :=
  drain_wal_buffer "WAL pre-flush for txn " s.

(** [overdue]: the time since the last flush exceeds the batch interval. *)
Definition flush_wal_buffer_if_needed s (overdue : bool) : option (DeltaMemStore * Result Z) :=
  match sync_level s with
  | Batch _ _ =>
      let n := zlen (wal_buffer s) in
      if (batch_max_pending s <=? n) || (negb (n =? 0) && overdue)
      then drain_wal_buffer "WAL batch flush for txn " s
      else Some (s, Ok 0)
  | _ => Some (s, Ok 0)
  end.

(** ** Writes *)

(** [hot.insert(key, delta); hot_size_bytes.fetch_add(est_size)] *)
Definition insert_hot s d : DeltaMemStore :=
  set_bufs s (bt_insert (delta_key d) d (hot s)) (cold s) (mem_snapshot s)
    (wrap64 (hot_size_bytes s + estimate_size d)).

Definition put s d (overdue : bool) : option (DeltaMemStore * Result unit) :=
  if shutdown s then Some (s, Ok tt) else
  let s := set_heat s (record_write (column_heat s) (column d) (txn_id d)) in
  match sync_level s with
  | Immediate =>
      match write_wal_sync s d with
      | None => None
      | Some (s, Err e) => Some (s, Err e)
      | Some (s, Ok _) => Some (insert_hot s d, Ok tt)
      end
  | Batch _ _ =>
      match flush_wal_buffer_if_needed (set_wal s (wal_buffer s ++ [d]) (wal_writer s)) overdue with
      | None => None
      | Some (s, _) => Some (insert_hot s d, Ok tt)
      end
  | Async =>
      match write_wal_async s d with
      | (s, Err e) => Some (s, Err e)
      | (s, Ok _) => Some (insert_hot s d, Ok tt)
      end
  end.

Definition replay_into s d : DeltaMemStore := if shutdown s then s else insert_hot s d.

(** ** Flush *)

Definition should_flush s : bool := flush_threshold s <? hot_size_bytes s.

(** The old hot buffer becomes the cold one and the snapshot; the old cold buffer,
    whose cells are returned, becomes the hot one. *)
Definition swap_and_drain s : DeltaMemStore * list DeltaCell :=
  (set_bufs s (cold s) (hot s) (hot s) 0, (cold s).*2).

Definition drain_cold s : DeltaMemStore * list DeltaCell :=
  (set_bufs s (hot s) [] (mem_snapshot s) (hot_size_bytes s), (cold s).*2).

Definition drain_after_swap s : DeltaMemStore * list DeltaCell :=
  let '(s, swapped) := swap_and_drain s in
  let '(s, cold) := drain_cold s in
  (s, swapped ++ cold).

Definition try_flush s : DeltaMemStore * option (list DeltaCell) :=
  if should_flush s then let '(s, ds) := swap_and_drain s in (s, Some ds) else (s, None).

(** ** Reads *)

Definition mem_visible (snapshot_txn : TxnId) d : bool := (txn_id d <=? snapshot_txn) && committed d.

Definition visible_of (snapshot_txn : TxnId) (m : btree MemKey DeltaCell) : list DeltaCell :=
  filter (λ d, mem_visible snapshot_txn d = true) m.*2.

(** The snapshot's visible cells, each key once. *)
Definition snapshot_cells (snapshot_txn : TxnId) (m : btree MemKey DeltaCell) : list DeltaCell :=
  (for_each m.*2 ([], ∅ : gset MemKey) (λ st cell,
     if mem_visible snapshot_txn cell then
       if bool_decide (delta_key cell ∈ st.2) then st
       else (st.1 ++ [cell], {[delta_key cell]} ∪ st.2)
     else st)).1.

Definition cached s (seg : string) (snapshot_txn : TxnId) : option (list DeltaCell) :=
  snd <$> head (filter (λ e : string * TxnId * list DeltaCell, e.1.1 = seg ∧ e.1.2 = snapshot_txn)
                  (visible_cache s)).

Definition get_visible s (seg : string) (snapshot_txn : TxnId) : DeltaMemStore * list DeltaCell :=
  match cached s seg snapshot_txn with
  | Some result => (s, result)
  | None =>
      let result := visible_of snapshot_txn (hot s) ++ visible_of snapshot_txn (cold s)
                    ++ snapshot_cells snapshot_txn (mem_snapshot s) in
      let cache := if 16 <=? zlen (visible_cache s) then tail (visible_cache s) else visible_cache s in
      (set_cache s (cache ++ [(seg, snapshot_txn, result)]), result)
  end.

Definition get_cell s (seg : string) (row : Z) (col : string) (snapshot_txn : TxnId)
    : DeltaMemStore * option DeltaCell :=
  let '(s, candidates) := get_visible s seg snapshot_txn in
  (s, max_by_key txn_id (filter (λ d, row_offset d = row ∧ column d = col) candidates)).

Definition get_patches s (seg : string) (snapshot_txn : TxnId) : DeltaMemStore * list DeltaCell :=
  get_visible s seg snapshot_txn.

(** The distinct segments of both buffers, in the order of a hash set. *)
Definition get_segment_ids `{HashIter} s : list string :=
  hash_iter_set (list_to_set ((λ e : MemKey * DeltaCell, e.1.1.1.1) <$> hot s)
                 ∪ list_to_set ((λ e : MemKey * DeltaCell, e.1.1.1.1) <$> cold s)).
End mem_store.
Arguments DeltaMemStore : clear implicits.

(** * Proofs *)

Section mem_proofs.
Context `{WalLog W}.
Implicit Types (s : DeltaMemStore W) (d : DeltaCell).

(** A buffer keeps every cell under its own key, in key order. *)
Definition buf_wf (m : btree MemKey DeltaCell) : Prop :=
  bt_sorted m ∧ Forall (λ e, e.1 = delta_key e.2) m.

Record mem_inv s : Prop := {
  inv_hot : buf_wf (hot s);
  inv_cold : buf_wf (cold s);
  inv_snapshot : buf_wf (mem_snapshot s)
}.

Lemma buf_wf_insert d m : buf_wf m → buf_wf (bt_insert (delta_key d) d m).
Proof. intros [Hs Hk]. split; [by apply bt_insert_sorted|by apply bt_insert_Forall]. Qed.

Lemma buf_wf_nil : buf_wf [].
Proof. split; constructor. Qed.

Lemma mem_inv_insert s d : mem_inv s → mem_inv (insert_hot s d).
Proof. intros [Hh Hc Hs]. split; cbn; [by apply buf_wf_insert|done|done]. Qed.

(** What the WAL and heat bookkeeping leave alone. *)
Definition same_data s s' : Prop :=
  hot s' = hot s ∧ cold s' = cold s ∧ mem_snapshot s' = mem_snapshot s ∧
  hot_size_bytes s' = hot_size_bytes s ∧ visible_cache s' = visible_cache s ∧
  sync_level s' = sync_level s.

Lemma write_wal_sync_data s d s' r : write_wal_sync s d = Some (s', r) → same_data s s'.
Proof.
  unfold write_wal_sync. destruct (wal_writer s) as [w|]; [|by intros [= <- _]].
  destruct (sync_payload d) as [p|]; [|by intros [= <- _]].
  destruct (append_durable w OInsert (txn_id d) p) as [[w' r']|]; cbn; [|done]. by intros [= <- _].
Qed.

Lemma write_wal_async_data s d : same_data s (write_wal_async s d).1.
Proof.
  unfold write_wal_async. destruct (wal_writer s) as [w|]; [|done].
  destruct (sync_payload d) as [p|]; [|done]. by destruct (append w OInsert (txn_id d) p).
Qed.

Lemma drain_wal_buffer_data what s s' r : drain_wal_buffer what s = Some (s', r) →
  same_data s s' ∧ wal_buffer s' = [].
Proof.
  unfold drain_wal_buffer. destruct (wal_buffer s) as [|d0 ds] eqn:E; [by intros [= <- _]|].
  destruct (wal_writer s) as [w|]; [|by intros [= <- _]].
  destruct (append_cells what w (d0 :: ds)) as [[w' r']|]; cbn; [|done]. by intros [= <- _].
Qed.

Lemma flush_wal_buffer_data s b s' r : flush_wal_buffer_if_needed s b = Some (s', r) → same_data s s'.
Proof.
  unfold flush_wal_buffer_if_needed. destruct (sync_level s); [by intros [= <- _]| |by intros [= <- _]].
  destruct (_ || _); [|by intros [= <- _]]. by intros [? _]%drain_wal_buffer_data.
Qed.

(** A [put] that succeeds inserts its cell in the hot buffer; one that fails
    leaves the buffers alone; neither touches the result cache. *)
Lemma put_data s d b s' r : shutdown s = false → put s d b = Some (s', r) →
  visible_cache s' = visible_cache s ∧ cold s' = cold s ∧ mem_snapshot s' = mem_snapshot s ∧
  match r with
  | Ok _ => hot s' = bt_insert (delta_key d) d (hot s)
  | Err _ => hot s' = hot s
  end.
Proof.
  unfold put. intros ->. set (s1 := set_heat s _).
  assert (same_data s s1) as (H1 & H2 & H3 & H4 & H5 & H6) by done.
  destruct (sync_level s1) as [|ms mp|] eqn:Esl.
  - destruct (write_wal_sync s1 d) as [[s2 [[]|e]]|] eqn:E; [| |done];
      apply write_wal_sync_data in E as (E1 & E2 & E3 & _ & E5 & _); intros [= <- <-]; cbn;
      split_and!; congruence.
  - destruct (flush_wal_buffer_if_needed _ b) as [[s2 r2]|] eqn:E; [|done].
    apply flush_wal_buffer_data in E as (E1 & E2 & E3 & _ & E5 & _). intros [= <- <-]; cbn.
    split_and!; cbn in *; congruence.
  - pose proof (write_wal_async_data s1 d) as (E1 & E2 & E3 & _ & E5 & _).
    destruct (write_wal_async s1 d) as [s2 [[]|e]]; cbn in *; intros [= <- <-]; cbn;
      split_and!; congruence.
Qed.

(** Deduplicating a well-formed buffer removes nothing. *)
Lemma snapshot_cells_visible t m : buf_wf m → snapshot_cells t m = visible_of t m.
Proof.
  intros [Hs Hk]. unfold snapshot_cells, visible_of, for_each.
  set (f := λ st cell, _).
  enough (∀ l acc seen, NoDup (delta_key <$> l) →
    (∀ d, d ∈ l → delta_key d ∉ seen) →
    (foldl f (acc, seen) l).1 = acc ++ filter (λ d, mem_visible t d = true) l) as Hgen.
  { rewrite Hgen; [done| |set_solver]. apply bt_sorted_NoDup_fst in Hs.
    assert (delta_key <$> m.*2 = m.*1) as ->; [|done].
    clear -Hk. induction Hk as [|[k d] m Hkd _ IH]; [done|]. cbn in *. by rewrite IH, Hkd. }
  induction l as [|d l IH]; intros acc seen Hnd Hseen; cbn [foldl]; [by rewrite app_nil_r|].
  rewrite fmap_cons in Hnd. apply NoDup_cons in Hnd as [Hnin Hnd].
  rewrite filter_cons. unfold f at 2; cbn [fst snd]. destruct (mem_visible t d) eqn:E.
  - rewrite bool_decide_false by (apply Hseen; by left). rewrite decide_True by done.
    rewrite IH; [by rewrite <- app_assoc|done|].
    intros d' Hd'. rewrite not_elem_of_union, not_elem_of_singleton. split; [|apply Hseen; by right].
    intros Heq. apply Hnin. rewrite <- Heq. by apply list_elem_of_fmap_2.
  - rewrite decide_False by done. apply IH; [done|]. intros d' Hd'. apply Hseen. by right.
Qed.

Lemma elem_of_visible_of t m d : d ∈ visible_of t m ↔ d ∈ m.*2 ∧ mem_visible t d = true.
Proof. unfold visible_of. rewrite list_elem_of_filter. tauto. Qed.

Lemma elem_of_bt_insert_value k d m : bt_sorted m → d ∈ (bt_insert (K := MemKey) k d m).*2.
Proof.
  intros Hs. apply list_elem_of_fmap. exists (k, d). split; [done|].
  apply elem_of_bt_get; [by apply bt_insert_sorted|]. by apply bt_get_insert_eq.
Qed.

(** The result a read leaves in the cache is the one a second read returns. *)
Lemma get_visible_cached s seg t :
  cached (get_visible s seg t).1 seg t = Some (get_visible s seg t).2.
Proof.
  unfold get_visible. destruct (cached s seg t) as [r|] eqn:E; [done|]. cbn [fst snd].
  unfold cached; cbn [visible_cache set_cache]. rewrite filter_app.
  assert (filter (λ e : string * TxnId * list DeltaCell, e.1.1 = seg ∧ e.1.2 = t) (visible_cache s) = []) as Hnil.
  { unfold cached in E. by destruct (filter _ _). }
  assert (filter (λ e : string * TxnId * list DeltaCell, e.1.1 = seg ∧ e.1.2 = t)
    (if 16 <=? zlen (visible_cache s) then tail (visible_cache s) else visible_cache s) = []) as ->.
  { destruct (_ <=? _); [|done]. destruct (visible_cache s) as [|e l]; [done|]. cbn [tail].
    rewrite filter_cons in Hnil. by destruct (decide _). }
  rewrite filter_cons, decide_True by done. done.
Qed.

Lemma get_visible_uncached s seg t : mem_inv s → cached s seg t = None →
  (get_visible s seg t).2 = visible_of t (hot s) ++ visible_of t (cold s) ++ visible_of t (mem_snapshot s).
Proof. intros [_ _ Hs] Hc. unfold get_visible. rewrite Hc. cbn. by rewrite snapshot_cells_visible. Qed.

(** ** Sequences of operations *)

Inductive mem_op :=
  | MPut (d : DeltaCell) (overdue : bool)
  | MReplay (d : DeltaCell)
  | MSwap
  | MDrainCold
  | MDrainAfterSwap
  | MRead (seg : string) (t : TxnId)
  | MSyncWal.

Definition exec_mem s (op : mem_op) : DeltaMemStore W :=
  match op with
  | MPut d b => default s (fst <$> put s d b)
  | MReplay d => replay_into s d
  | MSwap => (swap_and_drain s).1
  | MDrainCold => (drain_cold s).1
  | MDrainAfterSwap => (drain_after_swap s).1
  | MRead seg t => (get_visible s seg t).1
  | MSyncWal => default s (fst <$> sync_wal_before_flush s)
  end.

Lemma exec_mem_inv s op : mem_inv s → mem_inv (exec_mem s op).
Proof.
  intros Hinv. destruct Hinv as [Hh Hc Hs] eqn:E. destruct op as [d b|d| | | |seg t|]; cbn [exec_mem].
  - destruct (shutdown s) eqn:Esh; [unfold put; by rewrite Esh|].
    destruct (put s d b) as [[s' r]|] eqn:Ep; [|done]. cbn.
    destruct (put_data _ _ _ _ _ Esh Ep) as (_ & E2 & E3 & E4).
    destruct r; split; rewrite ?E2, ?E3, ?E4; auto using buf_wf_insert.
  - unfold replay_into. destruct (shutdown s); [done|]. by apply mem_inv_insert.
  - by split.
  - split; cbn; [done|apply buf_wf_nil|done].
  - split; cbn; [done|apply buf_wf_nil|done].
  - unfold get_visible. by destruct (cached s seg t); [|split].
  - destruct (sync_wal_before_flush s) as [[s' r]|] eqn:Ew; [|done]. cbn.
    apply drain_wal_buffer_data in Ew as [(E1 & E2 & E3 & _) _]. split; by rewrite ?E1, ?E2, ?E3.
Qed.

Lemma exec_mems_inv ops s : mem_inv s → mem_inv (foldl exec_mem s ops).
Proof. revert s. induction ops as [|op ops IH]; intros s Hs; cbn; [done|]. by apply IH, exec_mem_inv. Qed.

Lemma with_wal_inv n lvl wal : mem_inv (with_wal n lvl wal).
Proof. split; apply buf_wf_nil. Qed.
End mem_proofs.

(** * Properties *)

(** A cell written with [put] is returned by the next read at a snapshot
    that admits it, provided that read is not answered from the result cache; and
    so is every cell still in the buffers, wherever a flush has moved it: right
    after [drain_after_swap] the swapped cells are still readable through the
    snapshot. *)
Theorem put_then_visible `{WalLog W} n lvl (wal : option (WalWriter W)) ops s' d b seg t :
  shutdown (foldl exec_mem (with_wal n lvl wal) ops) = false →
  put (foldl exec_mem (with_wal n lvl wal) ops) d b = Some (s', Ok tt) →
  mem_visible t d = true → cached s' seg t = None →
  d ∈ (get_visible s' seg t).2 ∧ d ∈ (get_visible (drain_after_swap s').1 seg t).2.
Proof.
  intros Hsh Hp Hv Hc.
  assert (mem_inv (foldl exec_mem (with_wal n lvl wal) ops)) as [Hh Hco Hsn]
    by (apply exec_mems_inv, with_wal_inv).
  destruct (put_data _ _ _ _ _ Hsh Hp) as (_ & E2 & E3 & E4).
  assert (mem_inv s') as Hinv.
  { split; rewrite ?E2, ?E3, ?E4; [by apply buf_wf_insert|done|done]. }
  assert (d ∈ (hot s').*2) as Hd by (rewrite E4; apply elem_of_bt_insert_value; by destruct Hh).
  split.
  - rewrite get_visible_uncached by done. rewrite !elem_of_app, !elem_of_visible_of. auto.
  - rewrite get_visible_uncached; [|apply (exec_mem_inv s' MDrainAfterSwap Hinv)|done].
    rewrite !elem_of_app, !elem_of_visible_of. auto.
Qed.

Definition demo_mem : DeltaMemStore MemLog := with_wal 1000 Async None.
Definition demo_delta (seg : string) (row t : Z) : DeltaCell :=
  {| seg_id := seg; row_offset := row; column := "v"; txn_id := t; before := None;
     after := Some [7]; committed := true; ts := 0 |}.

Lemma put_then_visible_witness :
  demo_delta "a" 1 5 ∈ (get_visible (default demo_mem (fst <$> put demo_mem (demo_delta "a" 1 5) false)) "a" 9).2
  ∧ demo_delta "a" 1 5 ∈ (get_visible (drain_after_swap
      (default demo_mem (fst <$> put demo_mem (demo_delta "a" 1 5) false))).1 "a" 9).2.
Proof.
  eapply (put_then_visible 1000 Async None [] _ _ false); reflexivity.
Defined.

(** A flush takes everything: [drain_after_swap] returns the cells of the
    cold buffer followed by those of the hot one and empties the cold buffer.
    The old cold cells also become the new hot buffer, so when the cold buffer
    was not empty they are returned again by the next flush. *)
Theorem drain_after_swap_returns_all `{WalLog W} (s : DeltaMemStore W) :
  (drain_after_swap s).2 = (cold s).*2 ++ (hot s).*2 ∧
  cold (drain_after_swap s).1 = [] ∧ hot (drain_after_swap s).1 = cold s ∧
  (drain_after_swap (drain_after_swap s).1).2 = (cold s).*2.
Proof. by unfold drain_after_swap, swap_and_drain, drain_cold. Qed.

(** A read does not depend on the segment it asks for: on two segments that
    are not in the result cache the same cells are returned. *)
Theorem get_visible_ignores_segment `{WalLog W} (s : DeltaMemStore W) seg seg' t :
  cached s seg t = None → cached s seg' t = None →
  (get_visible s seg t).2 = (get_visible s seg' t).2.
Proof. unfold get_visible. by intros -> ->. Qed.

Lemma get_visible_ignores_segment_witness :
  (get_visible (exec_mem demo_mem (MPut (demo_delta "a" 1 5) false)) "a" 9).2 =
  (get_visible (exec_mem demo_mem (MPut (demo_delta "a" 1 5) false)) "b" 9).2.
Proof. apply get_visible_ignores_segment; reflexivity. Defined.

(** The result cache is not invalidated by writes: after a read of a segment
    at a snapshot, the same read returns the same cells whatever is [put] in
    between. *)
Theorem get_visible_stale_after_put `{WalLog W} (s : DeltaMemStore W) seg t d b s' r :
  shutdown s = false → put (get_visible s seg t).1 d b = Some (s', r) →
  (get_visible s' seg t).2 = (get_visible s seg t).2.
Proof.
  intros Hsh Hp.
  assert (shutdown (get_visible s seg t).1 = false) as Hsh'.
  { unfold get_visible. by destruct (cached s seg t). }
  destruct (put_data _ _ _ _ _ Hsh' Hp) as (Hc & _).
  pose proof (get_visible_cached s seg t) as Hg.
  assert (cached s' seg t = cached (get_visible s seg t).1 seg t) as Hcc by (unfold cached; by rewrite Hc).
  unfold get_visible at 1. by rewrite Hcc, Hg.
Qed.

Lemma get_visible_stale_after_put_witness :
  (get_visible (exec_mem (get_visible demo_mem "a" 9).1 (MPut (demo_delta "a" 1 5) false)) "a" 9).2
  = (get_visible demo_mem "a" 9).2.
Proof.
  eapply (get_visible_stale_after_put demo_mem "a" 9 (demo_delta "a" 1 5) false); reflexivity.
Defined.

(** When logging the buffered cells before a flush fails, the buffer has
    already been emptied: a retry reports success with nothing left to log. *)
Theorem wal_buffer_lost_on_error `{WalLog W} (s s' : DeltaMemStore W) e :
  sync_wal_before_flush s = Some (s', Err e) → sync_wal_before_flush s' = Some (s', Ok 0).
Proof.
  intros [_ Hb]%drain_wal_buffer_data. unfold sync_wal_before_flush, drain_wal_buffer. by rewrite Hb.
Qed.

Definition demo_failing_mem : DeltaMemStore MemLog :=
  set_wal (with_wal 1000 (Batch 100 1000) None) [demo_delta "a" 1 5]
    (Some (open (demo_log [true; true; true]) WalConfig_default [])).

Lemma wal_buffer_lost_on_error_witness :
  sync_wal_before_flush (default demo_failing_mem (fst <$> sync_wal_before_flush demo_failing_mem))
  = Some (default demo_failing_mem (fst <$> sync_wal_before_flush demo_failing_mem), Ok 0).
Proof. eapply (wal_buffer_lost_on_error demo_failing_mem). vm_compute. reflexivity. Defined.
