(* ===== verification/Frozen.v ===== *)
(** L3, the frozen patches (storage/delta/frozen_store.rs), with the format
    selection of storage/delta/sparsity.rs: an index from segment and column to
    the latest patch file, files written atomically, and their reading as cells. *)

From stdpp Require Import base gmap strings list pretty.
From S2P Require Import Prelude Kv Visibility Roaring Arrow DeltaTypes DeltaMerge DeltaApply.

Local Open Scope Z_scope.

(** * Format selection *)

(** [SparsitySelector] with its defaults, a threshold of [0.01] and [1_000_000]. *)
Definition dense_force_rows : Z := 1000000.

Definition should_use_sparse (total_rows affected : Z) : bool :=
  if (total_rows =? 0) || (affected =? 0) then false else
  if dense_force_rows <? total_rows then false else
  if dense_force_rows <=? affected then false else
  f64_ltb (f64_div (f64_of_Z affected) (f64_of_Z total_rows)) (f64_lit 1 100) || (affected <? 1000).

Section sparsity.
Context `{Roaring B}.

(** [values] are the encoded column values of the positions. *)
Definition build_format (positions : list Z) (values : bytes) (total_rows : Z) (t : TxnId)
    : DeltaPatchFormat :=
  if should_use_sparse total_rows (zlen positions)
  then sparse (bm_from_iter (B := B) positions) values
  else dense values total_rows t.
End sparsity.

(** Both zone maps of a patch carry its transactions and row count only. *)
Definition build_zone_map (txn_range : TxnId * TxnId) (affected : Z) : ZoneMap :=
  {| min_txn := txn_range.1; max_txn := txn_range.2; affected_rows := affected;
     min_value := None; max_value := None |}.

(** * The store *)

(** The files of the store's directory by path, and the index. *)
Record DeltaL3Frozen := {
  l3_root : string;
  l3_index : gmap (string * string) string;
  l3_files : gmap string bytes
}.

Definition DeltaL3Frozen_new (root : string) (files : gmap string bytes) : DeltaL3Frozen :=
  {| l3_root := root; l3_index := ∅; l3_files := files |}.

Definition patch_dir (s : DeltaL3Frozen) (seg : string) : string :=
  l3_root s +:+ "/" +:+ seg +:+ "/l3".
Definition patch_path (s : DeltaL3Frozen) (seg col : string) (version : Z) : string :=
  patch_dir s seg +:+ "/" +:+ col +:+ ".patch." +:+ pretty version.
(** [p.set_extension("patch.tmp")] replaces the version. *)
Definition tmp_path (s : DeltaL3Frozen) (seg col : string) : string :=
  patch_dir s seg +:+ "/" +:+ col +:+ ".patch.patch.tmp".

Definition set_files (s : DeltaL3Frozen) (fs : gmap string bytes) : DeltaL3Frozen :=
  {| l3_root := l3_root s; l3_index := l3_index s; l3_files := fs |}.

(** [write_compacted]: create the directory, write the temporary file, open and
    sync it, rename it over the patch, open and sync the directory, update the
    index.  [io k] is the error of the [k]-th of these file operations, if it
    fails, and [partial] what a failed write leaves in the temporary file.  The
    zone map of the source is put in a record that is not stored. *)
Definition write_compacted (io : nat → option RockDuckError) (partial : bytes) (s : DeltaL3Frozen)
    (seg col : string) (version : Z) (format : DeltaPatchFormat) : DeltaL3Frozen * Result string :=
  let path := patch_path s seg col version in
  let tmp := tmp_path s seg col in
  match io 0%nat with Some e => (s, Err e) | None =>
  match io 1%nat with Some e => (set_files s (<[tmp := partial]> (l3_files s)), Err e) | None =>
  let s := set_files s (<[tmp := to_bytes format]> (l3_files s)) in
  match io 2%nat with Some e => (s, Err e) | None =>
  match io 3%nat with Some e => (s, Err e) | None =>
  match io 4%nat with Some e => (s, Err e) | None =>
  let s := set_files s (<[path := to_bytes format]> (delete tmp (l3_files s))) in
  match io 5%nat with Some e => (s, Err e) | None =>
  match io 6%nat with Some e => (s, Err e) | None =>
  ({| l3_root := l3_root s; l3_index := <[(seg, col) := path]> (l3_index s); l3_files := l3_files s |},
   Ok path)
  end end end end end end end.

Section frozen.
Context `{Arrow Arr} `{Roaring B} `{HashIter}.

(** sparsity.rs [extract_value_at]: only binary columns yield a value. *)
Definition extract_value_at (values : bytes) (i : Z) : Result (option bytes) :=
  arr <-? decode_ipc_column (Arr := Arr) values;
  if arr_len arr <=? i then Ok None else
  match arr_type arr, arr_slot arr i with
  | Binary, Some (VBin b) => Ok (Some b)
  | _, _ => Ok None
  end.

Definition frozen_cell (seg col : string) (row : Z) (t : TxnId) (img : option bytes) : DeltaCell :=
  {| seg_id := seg; row_offset := row; column := col; txn_id := t; before := None; after := img;
     committed := true; ts := 0 |}.

Fixpoint dense_cells (seg col : string) (t : TxnId) (values : bytes) (rows : list Z)
    : Result (list DeltaCell) :=
  match rows with
  | [] => Ok []
  | row :: rows' =>
      img <-? extract_value_at values row;
      rest <-? dense_cells seg col t values rows';
      Ok (frozen_cell seg col row t img :: rest)
  end.

(** The cells of a patch: a sparse one yields its positions with transaction 0
    and without a value. *)
Definition patch_format_to_deltas (seg col : string) (f : DeltaPatchFormat) : Result (list DeltaCell) :=
  match f with
  | Sparse positions _ _ =>
      Ok ((λ row, frozen_cell seg col row 0 None) <$> bm_iter (bm_deserialize (B := B) positions))
  | Dense values total_rows t =>
      arr <-? decode_ipc_column (Arr := Arr) values;
      dense_cells seg col t values (seqZ 0 (Z.max total_rows (arr_len arr)))
  end.

(** Reading an indexed patch.  The zone map that would prune is never found
    ([get_zone_map_from_patch] returns [None]). *)
Definition load_patch (s : DeltaL3Frozen) (seg col path : string) : outcome (Result (list DeltaCell)) :=
  match l3_files s !! path with
  | None => Done (Ok [])
  | Some bs =>
      match from_bytes (B := B) bs with
      | Panic => Panic
      | Done None => Done (Err (EInternal "Invalid patch format"))
      | Done (Some f) => Done (patch_format_to_deltas seg col f)
      end
  end.

Fixpoint load_columns (s : DeltaL3Frozen) (seg : string) (cols : list (string * string))
    : outcome (Result (list DeltaCell)) :=
  match cols with
  | [] => Done (Ok [])
  | (col, path) :: cols' =>
      match load_patch s seg col path with
      | Panic => Panic
      | Done (Err e) => Done (Err e)
      | Done (Ok ds) =>
          match load_columns s seg cols' with
          | Panic => Panic
          | Done r => Done (rest <-? r; Ok (ds ++ rest))
          end
      end
  end.

Definition indexed_columns (s : DeltaL3Frozen) (seg : string) : list (string * string) :=
  (λ e : string * string * string, (e.1.2, e.2)) <$>
    filter (λ e : string * string * string, e.1.1 = seg) (hash_iter (l3_index s)).

(** The snapshot transaction is only used by the pruning that never happens. *)
Definition frozen_get_visible (s : DeltaL3Frozen) (seg : string) : outcome (Result (list DeltaCell)) :=
  load_columns s seg (indexed_columns s seg).

Definition frozen_get_cell (s : DeltaL3Frozen) (seg : string) (row : Z) (col : string)
    : outcome (Result (option DeltaCell)) :=
  match frozen_get_visible s seg with
  | Panic => Panic
  | Done r =>
      Done (ds <-? r; Ok (max_by_key txn_id (filter (λ d, row_offset d = row ∧ column d = col) ds)))
  end.

Definition frozen_segment_ids (s : DeltaL3Frozen) : list string :=
  hash_iter_set (list_to_set ((λ e : string * string * string, e.1.1) <$> hash_iter (l3_index s))).

Definition num_frozen (s : DeltaL3Frozen) : Z := Z.of_nat (size (l3_index s)).

(** [io]: the error of removing the file. *)
Definition delete_patch (io : option RockDuckError) (s : DeltaL3Frozen) (seg col : string)
    : DeltaL3Frozen * Result unit :=
  match l3_index s !! (seg, col) with
  | None => (s, Ok tt)
  | Some path =>
      let s := {| l3_root := l3_root s; l3_index := delete (seg, col) (l3_index s);
                  l3_files := l3_files s |} in
      if bool_decide (is_Some (l3_files s !! path)) then
        match io with
        | Some e => (s, Err e)
        | None => (set_files s (delete path (l3_files s)), Ok tt)
        end
      else (s, Ok tt)
  end.
End frozen.

(** * Proofs *)

Local Arguments to_bytes : simpl never.
Local Arguments from_bytes : simpl never.

Lemma is_visible_at_commit_none c sid cts active :
  cts !! txn_id c = None → is_visible_at_commit c sid cts active = false.
Proof.
  intros Hn. apply not_true_iff_false. rewrite is_visible_at_commit_row. unfold row_visible, committed_at.
  rewrite Hn. naive_solver.
Qed.

(** A version number is not the extension of the temporary file. *)
Lemma pretty_N_go_ne_p x s s' : s ≠ "p" +:+ s' → pretty_N_go x s ≠ "p" +:+ s'.
Proof.
  revert s. induction (N.lt_wf_0 x) as [x _ IH]; intros s Hs.
  destruct (decide (x = 0%N)) as [->|Hx]; [by rewrite pretty_N_go_0|].
  rewrite pretty_N_go_step by lia. apply IH; [apply N.div_lt; lia|].
  unfold pretty_N_char. by repeat case_match.
Qed.

Lemma pretty_Z_ne_p (z : Z) s' : pretty z ≠ "p" +:+ s'.
Proof.
  destruct z as [|p|p]; [done| |done]. unfold pretty, pretty_Z, pretty, pretty_positive, pretty, pretty_N.
  case_decide; [done|]. by apply pretty_N_go_ne_p.
Qed.

Lemma tmp_path_ne s seg col version : tmp_path s seg col ≠ patch_path s seg col version.
Proof.
  unfold tmp_path, patch_path. intros Heq%(inj _)%(inj _)%(inj _).
  change (".patch.patch.tmp") with (".patch." +:+ "patch.tmp") in Heq. apply (inj _) in Heq.
  by apply (pretty_Z_ne_p version "atch.tmp").
Qed.

(** The only indexed column of a segment. *)
Lemma indexed_columns_single `{HashIter} s seg col path :
  l3_index s !! (seg, col) = Some path →
  (∀ col', is_Some (l3_index s !! (seg, col')) → col' = col) →
  indexed_columns s seg = [(col, path)].
Proof.
  intros Hk Hone. unfold indexed_columns.
  assert (filter (λ e : string * string * string, e.1.1 = seg) (hash_iter (l3_index s))
          ≡ₚ [((seg, col), path)]) as Hp.
  { rewrite hash_iter_perm. apply NoDup_Permutation.
    - apply NoDup_filter, NoDup_map_to_list.
    - apply NoDup_singleton.
    - intros [[seg' col'] path']. rewrite list_elem_of_filter, elem_of_map_to_list, list_elem_of_singleton. cbn.
      split; [|intros [= -> -> ->]; done]. intros [-> Hl]. assert (col' = col) as -> by eauto. naive_solver. }
  by apply Permutation_singleton_r in Hp as ->.
Qed.

(** * Properties *)

(** A compacted patch is replaced atomically: whichever file operation fails,
    the patch file holds its previous content or the complete new patch, no other
    file but the temporary one changes, and the index refers to the new patch
    exactly when the call succeeds. *)
Theorem write_compacted_atomic io partial s seg col version format :
  let '(s', r) := write_compacted io partial s seg col version format in
  let path := patch_path s seg col version in
  (l3_files s' !! path = l3_files s !! path ∨ l3_files s' !! path = Some (to_bytes format)) ∧
  (∀ q, q ≠ path → q ≠ tmp_path s seg col → l3_files s' !! q = l3_files s !! q) ∧
  match r with
  | Ok p => p = path ∧ l3_files s' !! path = Some (to_bytes format) ∧
      l3_index s' = <[(seg, col) := path]> (l3_index s)
  | Err _ => l3_index s' = l3_index s
  end.
Proof.
  unfold write_compacted. set (tmp := tmp_path s seg col). set (path := patch_path s seg col version).
  assert (tmp ≠ path) as Hne by apply tmp_path_ne.
  assert (∀ v, let m := <[tmp := v]> (l3_files s) in
    m !! path = l3_files s !! path ∧ ∀ q, q ≠ path → q ≠ tmp → m !! q = l3_files s !! q) as Hins.
  { intros v. cbn. split; [by rewrite lookup_insert_ne|by intros; rewrite lookup_insert_ne]. }
  assert (∀ v, let m := <[path := v]> (delete tmp (<[tmp := v]> (l3_files s))) in
    m !! path = Some v ∧ ∀ q, q ≠ path → q ≠ tmp → m !! q = l3_files s !! q) as Hren.
  { intros v. cbn. split; [by rewrite lookup_insert_eq|]. intros q Hq Hqt.
    by rewrite lookup_insert_ne, lookup_delete_ne, lookup_insert_ne by done. }
  destruct (Hins (to_bytes format)), (Hins partial), (Hren (to_bytes format)).
  destruct (io 0%nat), (io 1%nat), (io 2%nat), (io 3%nat), (io 4%nat), (io 5%nat), (io 6%nat);
    cbn; split_and!; auto.
Qed.

(** A sparse patch that is compacted into L3 is lost to readers: reading the
    segment back yields one cell for every position of the patch, but without its
    value and under transaction 0, which no reader sees unless its commit history
    has a transaction 0. *)
Theorem frozen_sparse_invisible `{Arrow Arr} `{RoaringLaws B} `{HashIter} s seg col version
    (positions : B) values sid cts active :
  is_u32 (zlen (bm_serialize positions)) → is_u32 (zlen values) →
  (∀ x, x ∈ bm_set positions → is_u32 x) →
  (∀ col', is_Some (l3_index s !! (seg, col')) → col' = col) → cts !! 0 = None →
  ∃ s' path ds, write_compacted (λ _, None) [] s seg col version (sparse positions values) = (s', Ok path) ∧
    frozen_get_visible (Arr := Arr) (B := B) s' seg = Done (Ok ds) ∧
    (list_to_set (row_offset <$> ds) : gset Z) = bm_set positions ∧
    Forall (λ c, seg_id c = seg ∧ column c = col ∧ after c = None ∧
                 is_visible_at_commit c sid cts active = false) ds.
Proof.
  intros Hp Hv Hpos Hone Hcts. eexists _, _, _. split; [done|].
  assert (bm_set (bm_deserialize (B := B) (bm_serialize positions)) = bm_set positions) as Hrt
    by (by apply bm_roundtrip).
  unfold frozen_get_visible. erewrite indexed_columns_single; cbn.
  2: by rewrite lookup_insert_eq.
  2:{ intros col' Hs. destruct (decide (col' = col)); [done|]. apply Hone.
      by rewrite lookup_insert_ne in Hs by congruence. }
  unfold load_patch; cbn. rewrite lookup_insert_eq, from_to_bytes.
  - cbn. rewrite app_nil_r. split_and!; [done| |].
    + rewrite <- list_fmap_compose. unfold compose; cbn. rewrite list_fmap_id. by rewrite <- Hrt.
    + apply Forall_fmap, Forall_forall. intros row _. cbn. split_and!; [done..|].
      by apply is_visible_at_commit_none.
  - cbn. split_and!; [done|done|]. rewrite !bm_cardinality_set. by rewrite Hrt.
Qed.

Lemma frozen_sparse_invisible_witness :
  ∃ s' path ds, write_compacted (λ _, None) [] (DeltaL3Frozen_new "l3" ∅) "seg" "price" 1
      (sparse (bm_from_iter (B := SortedBitmap) [3; 70000]) [1; 9]) = (s', Ok path) ∧
    frozen_get_visible (Arr := ListArray) (B := SortedBitmap) s' "seg" = Done (Ok ds) ∧
    (list_to_set (row_offset <$> ds) : gset Z) = bm_set (bm_from_iter (B := SortedBitmap) [3; 70000]) ∧
    Forall (λ c, seg_id c = "seg" ∧ column c = "price" ∧ after c = None ∧
                 is_visible_at_commit c 10 {[ 5 := 6 ]} ∅ = false) ds.
Proof.
  apply (frozen_sparse_invisible (DeltaL3Frozen_new "l3" ∅) "seg" "price" 1
    (bm_from_iter (B := SortedBitmap) [3; 70000]) [1; 9] 10 {[ 5 := 6 ]} ∅).
  - vm_compute; intuition discriminate.
  - vm_compute; intuition discriminate.
  - intros x. rewrite bm_from_iter_set. cbn. intros Hx. unfold is_u32, u32_max. set_solver by lia.
  - intros col'. cbn. rewrite lookup_empty. by intros [].
  - reflexivity.
Defined.
