(* ===== verification/LayerStack.v ===== *)
(** The three delta layers together (storage/delta/mod.rs, [DeltaLayerStack]):
    L1 in memory, L2 on disk as an interface, L3 frozen, and the cache of the
    flush in progress; the single and the batched query over them, and the
    rebuilding of L1 from replayed log records. *)

From stdpp Require Import base gmap strings list sorting.
From S2P Require Import Prelude Kv Visibility Roaring Arrow DeltaTypes DeltaMerge Wal MemStore Frozen.

Local Open Scope Z_scope.

(** What the stack calls of L2 ([DeltaL2Disk]). *)
Class DeltaDisk (D : Type) := {
  l2_get_visible : D → string → TxnId → Result (list DeltaCell);
  l2_get_visible_batch : D → list string → TxnId → Result (gmap string (list DeltaCell));
  l2_segment_ids : D → list string
}.
#[global] Hint Mode DeltaDisk ! : typeclass_instances.

(** * Deduplication *)

(** The loop over all cells: the latest transaction wins, the first cell among
    equal ones. *)
Definition dedup_latest_step (deduped : btree DeltaKey DeltaCell) (delta : DeltaCell)
    : btree DeltaKey DeltaCell :=
  match bt_get (cell_key delta) deduped with
  | Some existing =>
      if txn_id existing <? txn_id delta then bt_insert (cell_key delta) delta deduped else deduped
  | None => bt_insert (cell_key delta) delta deduped
  end.

Definition dedup_latest (all_deltas : list DeltaCell) : list DeltaCell :=
  (for_each all_deltas [] dedup_latest_step).*2.

(** [txn_id > since && txn_id <= committed && d.committed] *)
Definition in_window (since upto : TxnId) (d : DeltaCell) : bool :=
  (since <? txn_id d) && (txn_id d <=? upto) && committed d.

(** * The stack *)

Section stack.
Context `{WalLog W} `{DeltaDisk D} `{Arrow Arr} `{Roaring B} `{HashIter}.

(** The configuration is left out: it only sizes L1 and names the directories. *)
Record DeltaLayerStack := {
  l1 : DeltaMemStore W;
  l2 : D;
  l3 : DeltaL3Frozen;
  l2_patch_count : Z;
  l3_patch_count : Z;
  recent_flush : btree DeltaKey DeltaCell;
  flush_epoch : Z
}.
Implicit Types st : DeltaLayerStack.

Definition set_l1 st (m : DeltaMemStore W) : DeltaLayerStack :=
  {| l1 := m; l2 := l2 st; l3 := l3 st; l2_patch_count := l2_patch_count st;
     l3_patch_count := l3_patch_count st; recent_flush := recent_flush st; flush_epoch := flush_epoch st |}.
Definition set_recent st (r : btree DeltaKey DeltaCell) (epoch : Z) : DeltaLayerStack :=
  {| l1 := l1 st; l2 := l2 st; l3 := l3 st; l2_patch_count := l2_patch_count st;
     l3_patch_count := l3_patch_count st; recent_flush := r; flush_epoch := epoch |}.
Definition set_counts st (n2 n3 : Z) : DeltaLayerStack :=
  {| l1 := l1 st; l2 := l2 st; l3 := l3 st; l2_patch_count := n2; l3_patch_count := n3;
     recent_flush := recent_flush st; flush_epoch := flush_epoch st |}.

Definition get_all_segment_ids st : list string :=
  hash_iter_set (list_to_set (get_segment_ids (l1 st)) ∪ list_to_set (l2_segment_ids (l2 st))
                 ∪ list_to_set (frozen_segment_ids (l3 st))).

Definition get_segment_ids_for_table st (table_segment_ids : gset string) : list string :=
  filter (λ s, s ∈ table_segment_ids) (get_all_segment_ids st).

(** ** Recovery *)

(** The cell that [recover_from_wal] builds of a record: no images are taken
    over. *)
Definition op_to_cell (op : WalOp) : option DeltaCell :=
  let cell seg row col :=
    Some {| seg_id := seg; row_offset := row; column := col; txn_id := op_txn_id op;
            before := None; after := None; committed := true; ts := 0 |} in
  match payload op with
  | PInsert _ _ columns _ _ seg _ offset => cell seg offset (default EmptyString (head columns))
  | PUpdate _ _ columns _ _ _ _ _ _ new_seg _ offset => cell new_seg offset (default EmptyString (head columns))
  | PDelete _ _ before_row seg _ offset => cell seg offset (default EmptyString (fst <$> head before_row))
  | _ => None
  end.

Definition recover_from_wal st (ops : list WalOp) : DeltaLayerStack :=
  for_each ops st (λ st op,
    match op_to_cell op with
    | Some delta => set_l1 st (replay_into (l1 st) delta)
    | None => st
    end).

(** ** The flush cache and the counters *)

Definition cache_recent_flush st (deltas : list DeltaCell) : DeltaLayerStack :=
  set_recent st (for_each deltas [] (λ r d, bt_insert (cell_key d) d r)) (flush_epoch st).

Definition clear_recent_flush st : DeltaLayerStack := set_recent st [] (wrap64 (flush_epoch st + 1)).

Definition stack_put st (d : DeltaCell) (overdue : bool) : option (DeltaLayerStack * Result unit) :=
  (λ r, (set_l1 st r.1, r.2)) <$> put (l1 st) d overdue.

Definition record_l2_patch st : DeltaLayerStack :=
  set_counts st (wrap64 (l2_patch_count st + 1)) (l3_patch_count st).

Definition record_l2_to_l3_compaction st (removed : Z) : DeltaLayerStack :=
  set_counts st (saturating_sub (l2_patch_count st) removed) (wrap64 (l3_patch_count st + removed)).

(** ** Queries *)

Definition query_all st (seg : string) (sid : TxnId) (cts : gmap TxnId Z) (active : gset TxnId)
    : DeltaLayerStack * outcome (Result (list DeltaCell)) :=
  let '(m, l1_deltas) := get_visible (l1 st) seg sid in
  (set_l1 st m,
   match l2_get_visible (l2 st) seg sid with
   | Err e => Done (Err e)
   | Ok l2_deltas =>
       match frozen_get_visible (Arr := Arr) (B := B) (l3 st) seg with
       | Panic => Panic
       | Done (Err e) => Done (Err e)
       | Done (Ok l3_deltas) =>
           Done (Ok (k_way_merge [l1_deltas; l2_deltas; l3_deltas] sid cts active))
       end
   end).

Definition query_cell st (seg : string) (row : Z) (col : string) (sid : TxnId) (cts : gmap TxnId Z)
    (active : gset TxnId) : DeltaLayerStack * outcome (Result (option DeltaCell)) :=
  let '(st', r) := query_all st seg sid cts active in
  (st', match r with
        | Panic => Panic
        | Done r =>
            Done (ds <-? r; Ok (max_by_key txn_id (filter (λ d, row_offset d = row ∧ column d = col) ds)))
        end).

(** The cells of the flush in progress. *)
Definition recent_cells st (seg : string) : list DeltaCell :=
  filter (λ d, seg_id d = seg) (recent_flush st).*2.

(** Errors of L2 and L3 are ignored here. *)
Definition query_all_layers st (seg : string) (upto since : TxnId)
    : DeltaLayerStack * outcome (list DeltaCell) :=
  let '(m, l1_deltas) := get_visible (l1 st) seg upto in
  let window := filter (λ d, in_window since upto d = true) in
  let l2_deltas := match l2_get_visible (l2 st) seg upto with Ok ds => window ds | Err _ => [] end in
  (set_l1 st m,
   match frozen_get_visible (Arr := Arr) (B := B) (l3 st) seg with
   | Panic => Panic
   | Done r =>
       let l3_deltas := match r with Ok ds => window ds | Err _ => [] end in
       Done (dedup_latest (window l1_deltas ++ window (recent_cells st seg) ++ l2_deltas ++ l3_deltas))
   end).

(** One segment of [get_visible_batch], from the cells L2 returned for it. *)
Definition batch_segment st (seg : string) (sid : TxnId) (l2_deltas : list DeltaCell)
    : DeltaLayerStack * outcome (list DeltaCell) :=
  let '(m, l1_deltas) := get_visible (l1 st) seg sid in
  let seen := filter (λ d, mem_visible sid d = true) in
  (set_l1 st m,
   match frozen_get_visible (Arr := Arr) (B := B) (l3 st) seg with
   | Panic => Panic
   | Done r =>
       let l3_deltas := match r with Ok ds => ds | Err _ => [] end in
       Done (dedup_latest (seen l1_deltas ++ seen (recent_cells st seg) ++ l2_deltas ++ l3_deltas))
   end).

Fixpoint batch_segments st (segs : list string) (sid : TxnId) (l2_results results : gmap string (list DeltaCell))
    : DeltaLayerStack * outcome (gmap string (list DeltaCell)) :=
  match segs with
  | [] => (st, Done results)
  | seg :: segs' =>
      match batch_segment st seg sid (default [] (l2_results !! seg)) with
      | (st, Panic) => (st, Panic)
      | (st, Done ds) => batch_segments st segs' sid l2_results (<[seg := ds]> results)
      end
  end.

Definition get_visible_batch st (segs : list string) (sid : TxnId)
    : DeltaLayerStack * outcome (Result (gmap string (list DeltaCell))) :=
  match l2_get_visible_batch (l2 st) segs sid with
  | Err e => (st, Done (Err e))
  | Ok l2_results =>
      let results := list_to_map ((λ s, (s, [])) <$> segs) in
      match batch_segments st segs sid l2_results results with
      | (st, Panic) => (st, Panic)
      | (st, Done m) => (st, Done (Ok m))
      end
  end.

(** The filter of [query_batch], applied after the deduplication. *)
Definition batch_visible (sid : TxnId) (cts : gmap TxnId Z) (active : gset TxnId) (d : DeltaCell) : bool :=
  if negb (committed d) then false else
  if bool_decide (txn_id d ∈ active) then false else
  if bool_decide (cts = ∅) then false else
  match cts !! txn_id d with
  | None => false
  | Some commit_ts => commit_ts <=? sid
  end.

Definition query_batch st (segs : list string) (sid : TxnId) (cts : gmap TxnId Z) (active : gset TxnId)
    : DeltaLayerStack * outcome (Result (gmap string (list DeltaCell))) :=
  match get_visible_batch st segs sid with
  | (st, Panic) => (st, Panic)
  | (st, Done r) =>
      (st, Done (batch <-? r;
                 Ok ((λ ds, filter (λ d, batch_visible sid cts active d = true) ds) <$> batch)))
  end.
End stack.
Arguments DeltaLayerStack : clear implicits.

(** * Proofs *)

(** The deduplication is that of the merge, without the transaction beside the
    cell. *)
Definition drop_txn (d : btree DeltaKey (TxnId * DeltaCell)) : btree DeltaKey DeltaCell :=
  (λ e, (e.1, e.2.2)) <$> d.

Lemma bt_get_drop_txn k d : bt_get k (drop_txn d) = snd <$> bt_get k d.
Proof.
  unfold drop_txn. induction d as [|[k' [t c]] d IH]; cbn; [done|]. by destruct (cmp k k').
Qed.

Lemma bt_insert_drop_txn k t c d : bt_insert k c (drop_txn d) = drop_txn (bt_insert k (t, c) d).
Proof.
  unfold drop_txn. induction d as [|[k' [t' c']] d IH]; cbn; [done|].
  destruct (cmp k k'); [done|done|]. by rewrite IH.
Qed.

Lemma dedup_latest_drop cells : for_each cells [] dedup_latest_step = drop_txn (foldl dedup_step [] cells).
Proof.
  unfold for_each. induction cells as [|c cells IH] using rev_ind; [done|].
  rewrite !foldl_app. cbn [foldl]. rewrite IH.
  destruct (dedup_inv_foldl cells) as [_ He _]. set (d := foldl dedup_step [] cells) in *.
  unfold dedup_latest_step, dedup_step. rewrite bt_get_drop_txn.
  destruct (bt_get (cell_key c) d) as [[t e]|] eqn:E; cbn.
  - destruct (He _ _ _ E) as (_ & -> & _). destruct (txn_id e <? txn_id c); [apply bt_insert_drop_txn|done].
  - apply bt_insert_drop_txn.
Qed.

Lemma dedup_latest_values cells :
  dedup_latest cells = (λ e : DeltaKey * (TxnId * DeltaCell), e.2.2) <$> foldl dedup_step [] cells.
Proof.
  unfold dedup_latest. rewrite dedup_latest_drop. unfold drop_txn. by rewrite <- list_fmap_compose.
Qed.

Lemma elem_of_dedup_latest cells c :
  c ∈ dedup_latest cells ↔ bt_get (cell_key c) (foldl dedup_step [] cells) = Some (txn_id c, c).
Proof. rewrite dedup_latest_values. apply elem_of_dedup. Qed.

Lemma dedup_latest_spec cells :
  StronglySorted key_lt (dedup_latest cells) ∧
  (∀ c, c ∈ dedup_latest cells →
     c ∈ cells ∧ ∀ c', c' ∈ cells → cell_key c' = cell_key c → txn_id c' ≤ txn_id c) ∧
  (∀ c, c ∈ cells → ∃ c', c' ∈ dedup_latest cells ∧ cell_key c' = cell_key c).
Proof.
  destruct (dedup_inv_foldl cells) as [Hs He Hm]. split_and!.
  - rewrite dedup_latest_values. apply bt_values_sorted; [done|].
    intros k t c Hin%elem_of_bt_get; [|done]. by apply He in Hin as [].
  - intros c Hc%elem_of_dedup_latest. split; [by apply He in Hc as (_ & _ & ?)|].
    intros c' Hc' Hk. destruct (Hm _ Hc') as (c2 & Hg & Hle). rewrite Hk in Hg. by simplify_eq.
  - intros c Hc. destruct (Hm _ Hc) as (c' & Hg & _). exists c'.
    destruct (He _ _ _ Hg) as (Hk & _ & _). split; [|done]. rewrite elem_of_dedup_latest. by rewrite <- Hk.
Qed.

(** Visibility in a merge and in the batch filter. *)
Lemma batch_visible_iff sid cts active d : txn_id d ≤ sid →
  batch_visible sid cts active d = true ↔
  committed d = true ∧ is_visible_at_commit d sid cts active = true.
Proof.
  intros Hle. rewrite is_visible_at_commit_row. unfold batch_visible, row_visible, committed_at.
  destruct (committed d); cbn; [|naive_solver]. case_bool_decide; [naive_solver|].
  case_bool_decide as Hc; [subst; rewrite lookup_empty; naive_solver|].
  destruct (cts !! txn_id d) as [x|]; [rewrite Z.leb_le|]; naive_solver.
Qed.

Lemma visible_by_txn sid cts active a b : txn_id a = txn_id b →
  is_visible_at_commit a sid cts active = true → is_visible_at_commit b sid cts active = true.
Proof. intros Heq. rewrite !is_visible_at_commit_row. by rewrite Heq. Qed.

(** The exact relation between filtering after and before deduplication. *)
Lemma batch_filter_spec all layers sid cts active c :
  concat layers = all → Forall (λ d, txn_id d ≤ sid) all →
  c ∈ filter (λ d, batch_visible sid cts active d = true) (dedup_latest all) ↔
  c ∈ k_way_merge layers sid cts active ∧ committed c = true ∧
    ∀ c', c' ∈ all → cell_key c' = cell_key c → txn_id c' ≤ txn_id c.
Proof.
  intros <- Hle. rewrite list_elem_of_filter, elem_of_dedup_latest, elem_of_merge.
  set (all := concat layers) in *. rewrite Forall_forall in Hle. fold (visible_cells layers sid cts active).
  destruct (dedup_inv_foldl all) as [_ He Hm].
  destruct (dedup_inv_foldl (visible_cells layers sid cts active)) as [_ Hev Hmv].
  assert (∀ d, d ∈ visible_cells layers sid cts active ↔ is_visible_at_commit d sid cts active = true ∧ d ∈ all)
    as Hin by (intros d; unfold visible_cells; by rewrite list_elem_of_filter).
  split.
  - intros [Hv Hg]. destruct (He _ _ _ Hg) as (_ & _ & Hc). apply batch_visible_iff in Hv as [Hcom Hv]; [|by apply Hle].
    assert (∀ c', c' ∈ all → cell_key c' = cell_key c → txn_id c' ≤ txn_id c) as Hmax.
    { intros c' Hc' Hk. destruct (Hm _ Hc') as (c2 & Hg2 & ?). rewrite Hk in Hg2. by simplify_eq. }
    split; [|done]. destruct (Hmv c) as (c2 & Hg2 & Hle2); [by apply Hin|].
    destruct (Hev _ _ _ Hg2) as (Hk2 & _ & Hc2). apply Hin in Hc2 as [_ Hc2].
    assert (txn_id c2 ≤ txn_id c) by (by apply Hmax).
    enough (c2 = c) as -> by done.
    enough (bt_get (cell_key c2) (foldl dedup_step [] all) = Some (txn_id c2, c2)) as Hg3
      by (rewrite Hk2 in Hg; naive_solver).
    apply (dedup_filter_max (λ d, is_visible_at_commit d sid cts active = true)).
    + apply visible_by_txn.
    + by rewrite <- Hk2.
    + intros c' Hc' Hk. etrans; [apply Hmax; [done|congruence]|done].
  - intros (Hg & Hcom & Hmax). destruct (Hev _ _ _ Hg) as (_ & _ & Hc). apply Hin in Hc as [Hv Hc].
    split; [apply batch_visible_iff; [by apply Hle|done]|].
    apply (dedup_filter_max (λ d, is_visible_at_commit d sid cts active = true)); [|done|done].
    apply visible_by_txn.
Qed.

Section stack_proofs.
Context `{WalLog W} `{DeltaDisk D} `{Arrow Arr} `{Roaring B} `{HashIter}.
Implicit Types st : DeltaLayerStack W D.

Lemma get_visible_seen (m : DeltaMemStore W) seg sid : mem_inv m → cached m seg sid = None →
  filter (λ d, mem_visible sid d = true) (get_visible m seg sid).2 = (get_visible m seg sid).2 ∧
  Forall (λ d, txn_id d ≤ sid) (get_visible m seg sid).2.
Proof.
  intros Hinv Hc. rewrite get_visible_uncached by done.
  assert (Forall (λ d, mem_visible sid d = true)
    (visible_of sid (hot m) ++ visible_of sid (cold m) ++ visible_of sid (mem_snapshot m))) as Hf.
  { apply Forall_forall. intros d. rewrite !elem_of_app, !elem_of_visible_of. naive_solver. }
  split; [by apply list_filter_id|]. eapply Forall_impl; [exact Hf|]. unfold mem_visible.
  intros d [Hd _]%andb_true_iff. lia.
Qed.

(** The batched query of one segment without a flush in progress. *)
Lemma query_batch_single st seg sid cts active l2d l3d :
  mem_inv (l1 st) → cached (l1 st) seg sid = None → recent_flush st = [] →
  l2_get_visible_batch (l2 st) [seg] sid = Ok {[seg := l2d]} →
  frozen_get_visible (Arr := Arr) (B := B) (l3 st) seg = Done (Ok l3d) →
  (query_batch (Arr := Arr) (B := B) st [seg] sid cts active).2 = Done (Ok {[seg :=
    filter (λ d, batch_visible sid cts active d = true)
      (dedup_latest ((get_visible (l1 st) seg sid).2 ++ l2d ++ l3d))]}).
Proof.
  intros Hinv Hc Hr Hl2 Hl3. destruct (get_visible_seen _ seg _ Hinv Hc) as [Hseen _].
  unfold query_batch, get_visible_batch. rewrite Hl2. cbn [batch_segments]. unfold batch_segment.
  destruct (get_visible (l1 st) seg sid) as [m l1d]. cbn [snd] in Hseen |- *. rewrite Hl3.
  unfold recent_cells. rewrite Hr, Hseen, lookup_singleton_eq. cbn.
  by rewrite insert_insert_eq, insert_empty, map_fmap_singleton.
Qed.

(** Replaying a record into L1 sets the cell under its key. *)
Lemma replay_hot st d : shutdown (l1 st) = false →
  hot (l1 (set_l1 st (replay_into (l1 st) d))) = bt_insert (delta_key d) d (hot (l1 st)) ∧
  shutdown (l1 (set_l1 st (replay_into (l1 st) d))) = false.
Proof. intros Hs. unfold replay_into. by rewrite Hs. Qed.
End stack_proofs.

(** The record that [put] writes for a cell, and the cell without its images. *)
Definition cell_record (d : DeltaCell) (p : OpPayload) : WalOp :=
  {| op_type := OInsert; op_txn_id := txn_id d; payload := p |}.
Definition blank (d : DeltaCell) : DeltaCell :=
  {| seg_id := seg_id d; row_offset := row_offset d; column := column d; txn_id := txn_id d;
     before := None; after := None; committed := true; ts := 0 |}.

Lemma op_to_cell_record d p : sync_payload d = Some p → op_to_cell (cell_record d p) = Some (blank d).
Proof.
  unfold sync_payload. destruct (is_update d), (is_insert d), (is_delete d); intros [= <-]; done.
Qed.

Lemma recover_from_wal_hot `{WalLog W} {D} (st : DeltaLayerStack W D) ds :
  shutdown (l1 st) = false → bt_sorted (hot (l1 st)) →
  let ops := (λ dp : DeltaCell * OpPayload, cell_record dp.1 dp.2) <$> ds in
  Forall (λ dp, sync_payload dp.1 = Some dp.2) ds →
  ∀ d p, (d, p) ∈ ds → bt_get (delta_key d) (hot (l1 (recover_from_wal st ops))) = Some (blank d).
Proof.
  intros Hsh Hs ops. subst ops. unfold recover_from_wal, for_each.
  enough (Forall (λ dp, sync_payload dp.1 = Some dp.2) ds →
    let st' := foldl (λ st op, match op_to_cell op with
                               | Some delta => set_l1 st (replay_into (l1 st) delta) | None => st end)
                 st ((λ dp, cell_record dp.1 dp.2) <$> ds) in
    shutdown (l1 st') = false ∧ bt_sorted (hot (l1 st')) ∧
    ∀ d p, (d, p) ∈ ds → bt_get (delta_key d) (hot (l1 st')) = Some (blank d)) as Hall
    by (intros Hf; by apply Hall).
  induction ds as [|[d p] ds IH] using rev_ind; intros Hf; [split_and!; [done..|]; set_solver|].
  apply Forall_app in Hf as [Hf Hp]. rewrite Forall_singleton in Hp. destruct (IH Hf) as (Hsh' & Hs' & Hget).
  rewrite fmap_app, foldl_app. cbn [foldl fmap list_fmap]. set (st' := foldl _ st _) in *.
  cbn in Hp. cbn [fst snd]. rewrite (op_to_cell_record _ _ Hp).
  destruct (replay_hot st' (blank d) Hsh') as [-> ->].
  split_and!; [done|by apply bt_insert_sorted|]. intros d0 p0 Hin. rewrite bt_get_insert by done.
  destruct (cmp (delta_key d0) (delta_key (blank d))) eqn:E.
  - apply cmp_eq in E. injection E as E1 E2 E3 E4. unfold blank. congruence.
  - apply Hget with p0. apply elem_of_app in Hin as [?|[= -> ->]%list_elem_of_singleton]; [done|].
    change (delta_key (blank d)) with (delta_key d) in E. by rewrite cmp_refl in E.
  - apply Hget with p0. apply elem_of_app in Hin as [?|[= -> ->]%list_elem_of_singleton]; [done|].
    change (delta_key (blank d)) with (delta_key d) in E. by rewrite cmp_refl in E.
Qed.

(** * Properties *)

(** The batched query is not the single query: of the cells the single query
    returns it keeps exactly those whose commit flag is set and whose key has no
    newer cell in any layer, visible or not.  A newer version that the snapshot
    does not see hides the version it should see. *)
Theorem query_batch_vs_query `{WalLog W} `{DeltaDisk D} `{Arrow Arr} `{Roaring B} `{HashIter}
    (st : DeltaLayerStack W D) seg sid cts active l2d l3d :
  mem_inv (l1 st) → cached (l1 st) seg sid = None → recent_flush st = [] →
  l2_get_visible (l2 st) seg sid = Ok l2d →
  l2_get_visible_batch (l2 st) [seg] sid = Ok {[seg := l2d]} →
  frozen_get_visible (Arr := Arr) (B := B) (l3 st) seg = Done (Ok l3d) →
  Forall (λ d, txn_id d ≤ sid) (l2d ++ l3d) →
  ∃ single batch,
    (query_all (Arr := Arr) (B := B) st seg sid cts active).2 = Done (Ok single) ∧
    (query_batch (Arr := Arr) (B := B) st [seg] sid cts active).2 = Done (Ok {[seg := batch]}) ∧
    ∀ c, c ∈ batch ↔ c ∈ single ∧ committed c = true ∧
      ∀ c', c' ∈ (get_visible (l1 st) seg sid).2 ++ l2d ++ l3d → cell_key c' = cell_key c →
        txn_id c' ≤ txn_id c.
Proof.
  intros Hinv Hc Hr Hl2 Hl2b Hl3 Hle. exists (k_way_merge [(get_visible (l1 st) seg sid).2; l2d; l3d] sid cts active).
  eexists. split; [|split; [by apply query_batch_single|]].
  - unfold query_all. destruct (get_visible (l1 st) seg sid) as [m l1d]. cbn [snd]. by rewrite Hl2, Hl3.
  - intros c. destruct (get_visible_seen _ seg _ Hinv Hc) as [_ Hle1].
    destruct (get_visible (l1 st) seg sid) as [m l1d]; cbn [snd] in *. apply batch_filter_spec.
    + cbn. by rewrite app_nil_r.
    + by apply Forall_app.
Qed.

(** A disk layer that holds a list of cells. *)
Record ListDisk := { ld_cells : list DeltaCell }.
#[export] Instance ListDisk_disk : DeltaDisk ListDisk := {
  l2_get_visible d seg sid := Ok (filter (λ c, seg_id c = seg ∧ txn_id c ≤ sid) (ld_cells d));
  l2_get_visible_batch d segs sid :=
    Ok (list_to_map ((λ s, (s, filter (λ c, seg_id c = s ∧ txn_id c ≤ sid) (ld_cells d))) <$> segs));
  l2_segment_ids d := seg_id <$> ld_cells d
}.

(** Two versions of a cell in L2: transaction 5 committed at 6, transaction 8
    still active. *)
Definition demo_stack : DeltaLayerStack MemLog ListDisk :=
  {| l1 := demo_mem; l2 := {| ld_cells := [demo_delta "a" 1 5; demo_delta "a" 1 8] |};
     l3 := DeltaL3Frozen_new "l3" ∅; l2_patch_count := 0; l3_patch_count := 0;
     recent_flush := []; flush_epoch := 0 |}.

Lemma query_batch_vs_query_witness :
  ∃ single batch,
    (query_all (Arr := ListArray) (B := SortedBitmap) demo_stack "a" 9 {[5 := 6]} {[8]}).2 = Done (Ok single) ∧
    (query_batch (Arr := ListArray) (B := SortedBitmap) demo_stack ["a"] 9 {[5 := 6]} {[8]}).2
      = Done (Ok {["a" := batch]}) ∧
    ∀ c, c ∈ batch ↔ c ∈ single ∧ committed c = true ∧
      ∀ c', c' ∈ (get_visible (l1 demo_stack) "a" 9).2 ++ [demo_delta "a" 1 5; demo_delta "a" 1 8] ++ [] →
        cell_key c' = cell_key c → txn_id c' ≤ txn_id c.
Proof.
  apply (query_batch_vs_query (Arr := ListArray) (B := SortedBitmap) demo_stack "a" 9 {[5 := 6]} {[8]});
    [apply with_wal_inv|reflexivity|reflexivity|reflexivity|reflexivity|reflexivity|].
  repeat constructor; cbn; lia.
Defined.

(** On that stack the single query returns the committed version and the
    batched query of the same segment returns nothing. *)
Theorem query_batch_hides_older :
  (query_all (Arr := ListArray) (B := SortedBitmap) demo_stack "a" 9 {[5 := 6]} {[8]}).2
    = Done (Ok [demo_delta "a" 1 5]) ∧
  (query_batch (Arr := ListArray) (B := SortedBitmap) demo_stack ["a"] 9 {[5 := 6]} {[8]}).2
    = Done (Ok {["a" := []]}).
Proof. split; vm_compute; reflexivity. Qed.

(** Rebuilding L1 from the log loses the data: for every cell whose [put]
    wrote a record, [recover_from_wal] on the records restores a cell under its
    key and transaction without before and after image, which is neither an
    insert nor an update nor a delete. *)
Theorem recovered_l1_has_no_images `{WalLog W} {D} (st : DeltaLayerStack W D) ds d p :
  shutdown (l1 st) = false → bt_sorted (hot (l1 st)) →
  Forall (λ dp, sync_payload dp.1 = Some dp.2) ds → (d, p) ∈ ds →
  bt_get (delta_key d)
    (hot (l1 (recover_from_wal st ((λ dp : DeltaCell * OpPayload, cell_record dp.1 dp.2) <$> ds))))
    = Some (blank d) ∧
  is_insert (blank d) = false ∧ is_update (blank d) = false ∧ is_delete (blank d) = false.
Proof.
  intros Hsh Hs Hf Hin. split; [|done]. by eapply recover_from_wal_hot.
Qed.

Lemma recovered_l1_has_no_images_witness :
  bt_get ("a", 1, "v", 5)
    (hot (l1 (recover_from_wal demo_stack [cell_record (demo_delta "a" 1 5) (insert_payload (demo_delta "a" 1 5))])))
    = Some (blank (demo_delta "a" 1 5)) ∧
  is_insert (blank (demo_delta "a" 1 5)) = false ∧ is_update (blank (demo_delta "a" 1 5)) = false ∧
  is_delete (blank (demo_delta "a" 1 5)) = false.
Proof.
  apply (recovered_l1_has_no_images demo_stack
    [(demo_delta "a" 1 5, insert_payload (demo_delta "a" 1 5))] (demo_delta "a" 1 5)
    (insert_payload (demo_delta "a" 1 5)));
    [reflexivity|constructor|by repeat constructor|by left].
Defined.

(** The change query returns, once per key and in key order, the latest
    committed cell of the window over L1, the flush in progress, L2 and L3: each
    returned cell is in the window and no cell of the window with its key is
    newer, and every cell of the window has its key represented. *)
Theorem query_all_layers_latest `{WalLog W} `{DeltaDisk D} `{Arrow Arr} `{Roaring B} `{HashIter}
    (st : DeltaLayerStack W D) seg upto since l2d l3d :
  l2_get_visible (l2 st) seg upto = Ok l2d →
  frozen_get_visible (Arr := Arr) (B := B) (l3 st) seg = Done (Ok l3d) →
  let window := filter (λ d, in_window since upto d = true)
    ((get_visible (l1 st) seg upto).2 ++ recent_cells st seg ++ l2d ++ l3d) in
  ∃ out, (query_all_layers (Arr := Arr) (B := B) st seg upto since).2 = Done out ∧
    StronglySorted key_lt out ∧
    (∀ c, c ∈ out → c ∈ window ∧ ∀ c', c' ∈ window → cell_key c' = cell_key c → txn_id c' ≤ txn_id c) ∧
    (∀ c, c ∈ window → ∃ c', c' ∈ out ∧ cell_key c' = cell_key c).
Proof.
  intros Hl2 Hl3 window. exists (dedup_latest window). split.
  { unfold query_all_layers, window. destruct (get_visible (l1 st) seg upto) as [m l1d]. cbn [snd].
    rewrite Hl2, Hl3. by rewrite !filter_app. }
  apply dedup_latest_spec.
Qed.

Lemma query_all_layers_latest_witness :
  let window := filter (λ d, in_window 0 9 d = true)
    ((get_visible (l1 demo_stack) "a" 9).2 ++ recent_cells demo_stack "a"
     ++ [demo_delta "a" 1 5; demo_delta "a" 1 8] ++ []) in
  ∃ out, (query_all_layers (Arr := ListArray) (B := SortedBitmap) demo_stack "a" 9 0).2 = Done out ∧
    StronglySorted key_lt out ∧
    (∀ c, c ∈ out → c ∈ window ∧ ∀ c', c' ∈ window → cell_key c' = cell_key c → txn_id c' ≤ txn_id c) ∧
    (∀ c, c ∈ window → ∃ c', c' ∈ out ∧ cell_key c' = cell_key c).
Proof.
  apply (query_all_layers_latest (Arr := ListArray) (B := SortedBitmap) demo_stack "a" 9 0); reflexivity.
Defined.
