(* ===== verification/ShadowColumns.v ===== *)
(** The visibility columns of a segment (mvcc/shadow_columns.rs): two hidden
    [Int64] columns with the creating and the deleting transaction of each row,
    and the scan-time filter over them. *)

From stdpp Require Import base gmap strings list.
From S2P Require Import Prelude Kv Visibility Arrow.

Local Open Scope Z_scope.

Definition NOT_DELETED : Z := u64_max.
Definition CREATED_TXN_COL : string := "__created_txn".
Definition DELETED_TXN_COL : string := "__deleted_txn".

(** * One row *)

(** The inlined check of [filter_by_visibility]: [active_txns_set] is the copy of
    the active set that is made from five transactions on. *)
Definition active_txns_set (s : TxnSnapshot) : gset TxnId :=
  if (5 <=? size (snap_active_txns s))%nat then snap_active_txns s else ∅.

Definition shadow_row_visible (s : TxnSnapshot) (c : TxnId) (d : option TxnId) : bool :=
  let sid := snapshot_id s in
  let active t := bool_decide (t ∈ snap_active_txns s) || bool_decide (t ∈ active_txns_set s) in
  let cts := snap_commit_ts_map s in
  if (sid <? c) || active c || bool_decide (cts !! c = None)
     || match cts !! c with Some ts => sid <? ts | None => false end
  then false
  else match d with
       | Some del => negb (active del || match cts !! del with Some ts => ts <=? sid | None => false end)
       | None => true
       end.

(** The row's transactions from the stored [i64]s. *)
Definition row_deleter (d_raw : Z) : option TxnId := if d_raw =? NOT_DELETED then None else Some d_raw.

(** * Batches *)

(** [expect] *)
Definition expect {E A} (r : result E A) : outcome A :=
  match r with Ok a => Done a | Err _ => Panic end.

Definition int64_field (name : string) : Field := {| f_name := name; f_type := Int64; f_nullable := false |}.

Section shadow.
Context `{Arrow Arr} `{Batches Arr}.

(** [Int64Array::from_iter_values] *)
Definition int64_array (zs : list Z) : Arr := arr_build Int64 ((λ z, Some (VInt z)) <$> zs).

(** [array.value(i)] of an [Int64Array], and as a [u64]. *)
Definition value_i64 (a : Arr) (i : Z) : Z := match arr_value a i with VInt z => z | _ => 0 end.
Definition value_u64 (a : Arr) (i : Z) : Z := as_u64 (value_i64 a i).

Definition append_visibility_columns (b : RecordBatch Arr) (created deleted : TxnId)
    : outcome (RecordBatch Arr) :=
  let n := Z.to_nat (rb_rows b) in
  expect (try_new (rb_fields b ++ [int64_field CREATED_TXN_COL; int64_field DELETED_TXN_COL])
                  (rb_columns b ++ [int64_array (replicate n (as_i64 created));
                                    int64_array (replicate n (as_i64 deleted))])).

(** The columns before the last two, and the last two. *)
Definition vis_columns (cols : list Arr) : option (list Arr * Arr * Arr) :=
  match reverse cols with
  | d :: c :: rest => Some (reverse rest, c, d)
  | _ => None
  end.

(** [as_primitive::<Int64Type>] of both columns panics on another type. *)
Definition both_int64 (c d : Arr) : bool :=
  bool_decide (arr_type c = Int64) && bool_decide (arr_type d = Int64).

(** The new deleted column of [mark_rows_deleted]. *)
Definition mark_deleted_values (old : Arr) (flags : list bool) (deleted : TxnId) : list Z :=
  imap (λ i (is_deleted : bool), if is_deleted then as_i64 deleted else value_i64 old (Z.of_nat i)) flags.

(** The assertion on the lengths panics, and so does a missing column. *)
Definition mark_rows_deleted (b : RecordBatch Arr) (flags : list bool) (deleted : TxnId)
    : outcome (RecordBatch Arr) :=
  if rb_rows b =? zlen flags then
    match vis_columns (rb_columns b) with
    | None => Panic
    | Some (data, c, d) =>
        if both_int64 c d
        then expect (try_new (rb_fields b) (data ++ [c; int64_array (mark_deleted_values d flags deleted)]))
        else Panic
    end
  else Panic.

(** The mask that [filter_by_visibility] hands to the filter kernel. *)
Definition visibility_mask (s : TxnSnapshot) (c d : Arr) (n : Z) : list bool :=
  (λ i, shadow_row_visible s (value_u64 c i) (row_deleter (value_u64 d i))) <$> seqZ 0 n.

Definition filter_by_visibility (b : RecordBatch Arr) (s : TxnSnapshot) : outcome (Result (RecordBatch Arr)) :=
  match vis_columns (rb_columns b) with
  | None => Done (Ok b)
  | Some (_, c, d) =>
      if both_int64 c d then Done (
        filtered <-? map_err (λ e, ECodec ("filter_by_visibility: schema mismatch: " +:+ e))
                       (filter_record_batch b (visibility_mask s c d (rb_rows b)));
        let num_data_cols := (length (rb_columns b) - 2)%nat in
        map_err (λ e, ECodec ("filter_by_visibility: output schema mismatch: " +:+ e))
          (try_new (take num_data_cols (rb_fields b)) (take num_data_cols (rb_columns filtered))))
      else Panic
  end.

Definition has_visibility_columns (fields : list Field) : bool :=
  match reverse fields with
  | f2 :: f1 :: _ =>
      bool_decide (f_name f1 = CREATED_TXN_COL) && bool_decide (f_type f1 = Int64)
      && bool_decide (f_name f2 = DELETED_TXN_COL) && bool_decide (f_type f2 = Int64)
  | _ => false
  end.

Definition extract_visibility_columns (b : RecordBatch Arr) : outcome (Arr * Arr) :=
  match vis_columns (rb_columns b) with
  | Some (_, c, d) => Done (c, d)
  | None => Panic
  end.

Definition visibility_schema : list Field := [int64_field CREATED_TXN_COL; int64_field DELETED_TXN_COL].

Definition make_vis_batch (created deleted : TxnId) : outcome (RecordBatch Arr) :=
  expect (try_new visibility_schema [int64_array [as_i64 created]; int64_array [as_i64 deleted]]).
End shadow.

(** * Proofs *)

Lemma as_u64_as_i64 x : is_u64 x → as_u64 (as_i64 x) = x.
Proof.
  unfold is_u64, u64_max, as_u64, as_i64, wrap64. intros Hx. rewrite (Z.mod_small x) by lia.
  destruct (Z.ltb_spec x (2 ^ 63)); [by rewrite Z.mod_small by lia|].
  rewrite <- (Z.mod_add (x - 2 ^ 64) 1 (2 ^ 64)) by lia. rewrite Z.mod_small by lia. lia.
Qed.

(** Whether the deleter of a row is one of the snapshot's active transactions. *)
Definition deleter_active (s : TxnSnapshot) (d : option TxnId) : bool :=
  match d with Some t => bool_decide (t ∈ snap_active_txns s) | None => false end.

Lemma shadow_row_visible_spec s c d :
  shadow_row_visible s c d =
  TxnSnapshot_is_row_visible s (snapshot_id s) c d (snap_active_txns s) (snap_commit_ts_map s)
  && negb (deleter_active s d).
Proof.
  unfold shadow_row_visible, TxnSnapshot_is_row_visible, deleter_active.
  assert (∀ t, bool_decide (t ∈ snap_active_txns s) || bool_decide (t ∈ active_txns_set s)
               = bool_decide (t ∈ snap_active_txns s)) as Ha.
  { intros t. unfold active_txns_set. destruct (_ <=? _)%nat; [apply orb_diag|].
    rewrite (bool_decide_false (t ∈ ∅)) by set_solver. apply orb_false_r. }
  rewrite Ha. destruct (snapshot_id s <? c); [done|]. destruct (bool_decide (c ∈ _)); [done|].
  destruct (snap_commit_ts_map s !! c) as [ts|]; cbn; [|done].
  destruct (snapshot_id s <? ts); [done|]. destruct d as [t|]; [|done]. rewrite Ha.
  destruct (bool_decide (t ∈ _)); [done|].
  destruct (snap_commit_ts_map s !! t) as [ts'|]; [|done]. by destruct (ts' <=? snapshot_id s).
Qed.

Section shadow_proofs.
Context `{ArrowLaws Arr} `{!Batches Arr} `{!BatchesLaws Arr}.

Lemma value_u64_int64 zs i z : zs !! i = Some z → value_u64 (int64_array (Arr := Arr) zs) (Z.of_nat i) = as_u64 z.
Proof.
  intros Hi. unfold value_u64, value_i64, int64_array.
  assert (arr_slot (arr_build (Arr := Arr) Int64 ((λ z, Some (VInt z)) <$> zs)) (Z.of_nat i) = Some (VInt z)) as Hs.
  { apply arr_build_slot. by rewrite list_lookup_fmap, Hi. }
  unfold arr_slot in Hs. destruct (arr_is_null _ _); [done|]. injection Hs as ->. done.
Qed.

Lemma vis_columns_app (data : list Arr) c d : vis_columns (data ++ [c; d]) = Some (data, c, d).
Proof.
  unfold vis_columns. replace (data ++ [c; d]) with ((data ++ [c]) ++ [d]) by (by rewrite <- app_assoc).
  rewrite !reverse_snoc. by rewrite reverse_involutive.
Qed.

Lemma visibility_mask_lookup s (c d : Arr) n i : 0 ≤ i < n →
  visibility_mask s c d n !! Z.to_nat i =
  Some (shadow_row_visible s (value_u64 c i) (row_deleter (value_u64 d i))).
Proof.
  intros Hi. unfold visibility_mask. rewrite list_lookup_fmap.
  rewrite (proj2 (lookup_seqZ 0 n (Z.to_nat i) i)) by lia. done.
Qed.

(** The mask over columns filled with one creator and one deleter. *)
Lemma visibility_mask_constant s n created deleted :
  is_u64 created → is_u64 deleted →
  visibility_mask s (int64_array (Arr := Arr) (replicate (Z.to_nat n) (as_i64 created)))
    (int64_array (replicate (Z.to_nat n) (as_i64 deleted))) n
  = replicate (Z.to_nat n) (shadow_row_visible s created (row_deleter deleted)).
Proof.
  intros Hc Hd. apply list_eq. intros i. destruct (decide (i < Z.to_nat n)%nat) as [Hi|Hi].
  - rewrite lookup_replicate_2 by done. rewrite <- (Nat2Z.id i) at 1.
    rewrite visibility_mask_lookup by lia.
    erewrite !value_u64_int64 by (apply lookup_replicate_2; done).
    by rewrite !as_u64_as_i64.
  - rewrite !lookup_ge_None_2; [done|rewrite length_replicate; lia|].
    unfold visibility_mask. rewrite length_fmap, length_seqZ. lia.
Qed.

Lemma int64_array_fits zs name : fits (zlen zs) (int64_field name) (int64_array (Arr := Arr) zs).
Proof.
  unfold int64_array. split_and!.
  - rewrite arr_build_len. unfold zlen. by rewrite length_fmap.
  - apply arr_build_type.
  - intros _ Hin. apply list_elem_of_fmap in Hin as (i & Hs & Hi). apply elem_of_seqZ in Hi.
    rewrite arr_build_len in Hi. unfold zlen in Hi. rewrite length_fmap in Hi.
    destruct (lookup_lt_is_Some_2 zs (Z.to_nat i)) as [z Hz]; [lia|].
    rewrite <- (Z2Nat.id i) in Hs by lia. erewrite arr_build_slot in Hs; [|by rewrite list_lookup_fmap, Hz]. done.
Qed.

Lemma zlen_replicate {A} n (x : A) : 0 ≤ n → zlen (replicate (Z.to_nat n) x) = n.
Proof. intros. unfold zlen. rewrite length_replicate. lia. Qed.

Lemma visibility_mask_length s (c d : Arr) n : 0 ≤ n → zlen (visibility_mask s c d n) = n.
Proof. intros. unfold visibility_mask, zlen. rewrite length_fmap, length_seqZ. lia. Qed.

(** The filter as a whole: it succeeds on a well-formed batch and keeps, in every
    data column, the rows of the mask. *)
Lemma filter_by_visibility_keeps (b : RecordBatch Arr) data c d s :
  batch_wf b → rb_columns b = data ++ [c; d] → data ≠ [] → arr_type c = Int64 → arr_type d = Int64 →
  ∃ b', filter_by_visibility b s = Done (Ok b') ∧ rb_fields b' = take (length data) (rb_fields b) ∧
    Forall2 (λ col' col, slots col' = mask_filter (visibility_mask s c d (rb_rows b)) (slots col))
      (rb_columns b') data.
Proof.
  intros Hwf Hcols Hne Hc Hd. unfold filter_by_visibility. rewrite Hcols, vis_columns_app. unfold both_int64.
  rewrite !bool_decide_true by done. cbn [andb].
  assert (0 ≤ rb_rows b) as Hn.
  { unfold batch_wf in Hwf. rewrite Hcols in Hwf. destruct data as [|x data]; [done|].
    apply Forall2_cons_inv_r in Hwf as (f & fs & (<- & _) & _). apply arr_len_nonneg. }
  destruct (filter_record_batch_ok b (visibility_mask s c d (rb_rows b))) as (fb & -> & Hfields & Hf);
    [done|by apply visibility_mask_length|]. cbn [result_bind map_err].
  rewrite length_app. cbn [length]. replace (length data + 2 - 2)%nat with (length data) by lia.
  rewrite Hcols in Hf. apply Forall2_app_inv_r in Hf as (dcols & vcols & Hdc & _ & Hfb).
  assert (take (length data) (rb_columns fb) = dcols) as ->.
  { rewrite Hfb. apply take_app_length'. by apply Forall2_length in Hdc. }
  exists (Build_RecordBatch (take (length data) (rb_fields b)) dcols (rb_rows fb)).
  rewrite (try_new_ok _ _ (rb_rows fb)).
  - split_and!; [done|done|]. cbn. eapply Forall2_impl; [exact Hdc|]. naive_solver.
  - intros ->. by apply Forall2_nil_inv_l in Hdc.
  - unfold batch_wf in Hwf. rewrite Hcols in Hwf.
    apply Forall2_app_inv_r in Hwf as (dfs & vfs & Hdf & _ & ->).
    rewrite take_app_length' by (by apply Forall2_length in Hdf).
    apply Forall2_same_length_lookup. split.
    { by rewrite (Forall2_length _ _ _ Hdf), (Forall2_length _ _ _ Hdc). }
    intros i f col' Hfi Hci. destruct (Forall2_lookup_l _ _ _ _ _ Hdc Hci) as (col & Hcol & Hl & Ht & Hs).
    destruct (Forall2_lookup_lr _ _ _ _ _ _ Hdf Hfi Hcol) as (_ & Hft & Hnull).
    split_and!; [done|congruence|]. intros Hfn Hin. apply (Hnull Hfn).
    rewrite Hs in Hin. by eapply elem_of_mask_filter.
Qed.

Lemma mask_filter_replicate {A} (keep : bool) n (l : list A) :
  length l = n → mask_filter (replicate n keep) l = if keep then l else [].
Proof.
  intros <-. induction l as [|x l IH]; cbn; destruct keep; [done..| |done]; by rewrite IH.
Qed.

(** The batch that [append_visibility_columns] returns. *)
Lemma append_visibility_columns_ok (b : RecordBatch Arr) created deleted :
  batch_wf b → 0 ≤ rb_rows b →
  append_visibility_columns b created deleted = Done (Build_RecordBatch
    (rb_fields b ++ [int64_field CREATED_TXN_COL; int64_field DELETED_TXN_COL])
    (rb_columns b ++ [int64_array (replicate (Z.to_nat (rb_rows b)) (as_i64 created));
                      int64_array (replicate (Z.to_nat (rb_rows b)) (as_i64 deleted))]) (rb_rows b)) ∧
  Forall2 (fits (rb_rows b)) (rb_fields b ++ [int64_field CREATED_TXN_COL; int64_field DELETED_TXN_COL])
    (rb_columns b ++ [int64_array (replicate (Z.to_nat (rb_rows b)) (as_i64 created));
                      int64_array (replicate (Z.to_nat (rb_rows b)) (as_i64 deleted))]).
Proof.
  intros Hwf Hn. unfold append_visibility_columns.
  set (fs := rb_fields b ++ _). set (cs := rb_columns b ++ _).
  assert (Forall2 (fits (rb_rows b)) fs cs) as Hf.
  { apply Forall2_app; [done|].
    assert (∀ z name, fits (rb_rows b) (int64_field name)
              (int64_array (Arr := Arr) (replicate (Z.to_nat (rb_rows b)) z))) as Hz.
    { intros z name. rewrite <- (zlen_replicate (rb_rows b) z) at 1 by done. apply int64_array_fits. }
    constructor; [apply Hz|]. constructor; [apply Hz|constructor]. }
  split; [|exact Hf]. rewrite (try_new_ok _ _ (rb_rows b)); [done| |exact Hf].
  unfold cs. by destruct (rb_columns b).
Qed.
End shadow_proofs.

(** * Properties *)

(** The inlined filter of the scan path agrees with [VisFilter] for
    [TxnSnapshot] on every row, except that it also hides the rows whose deleting
    transaction is still active. *)
Lemma shadow_filter_vs_contract s c d :
  shadow_row_visible s c d = true ↔
  row_visible (snapshot_id s) c d (snap_active_txns s) (snap_commit_ts_map s) ∧
  (∀ t, d = Some t → t ∉ snap_active_txns s).
Proof.
  rewrite shadow_row_visible_spec, andb_true_iff.
  assert (TxnSnapshot_is_row_visible s (snapshot_id s) c d (snap_active_txns s) (snap_commit_ts_map s) = true
          ↔ row_visible (snapshot_id s) c d (snap_active_txns s) (snap_commit_ts_map s)) as ->
    by apply (is_row_visible_iff s).
  apply and_iff_compat_l. unfold deleter_active. destruct d as [t|]; [|naive_solver].
  rewrite negb_true_iff, bool_decide_eq_false. naive_solver.
Qed.

Definition demo_snapshot : TxnSnapshot :=
  {| snapshot_id := 10; snap_active_txns := {[9]}; isolation := Snapshot;
     snap_commit_ts_map := {[8 := 8]} |}.

(** Filtering a batch that carries visibility columns succeeds and keeps, in
    every data column, exactly the rows whose flag is set, without the visibility
    columns; the flag of a row is set exactly when the visibility contract admits
    its two transactions and its deleter, if any, is not active: a row whose
    delete has not committed is hidden although the contract keeps it visible. *)
Theorem filter_by_visibility_spec `{ArrowLaws Arr} `{!Batches Arr} `{!BatchesLaws Arr}
    (b : RecordBatch Arr) data c d s :
  batch_wf b → rb_columns b = data ++ [c; d] → data ≠ [] → arr_type c = Int64 → arr_type d = Int64 →
  ∃ b' mask, filter_by_visibility b s = Done (Ok b') ∧ rb_fields b' = take (length data) (rb_fields b) ∧
    Forall2 (λ col' col, slots col' = mask_filter mask (slots col)) (rb_columns b') data ∧
    ∀ i, 0 ≤ i < rb_rows b → ∃ flag, mask !! Z.to_nat i = Some flag ∧
      (flag = true ↔
         row_visible (snapshot_id s) (value_u64 c i) (row_deleter (value_u64 d i))
           (snap_active_txns s) (snap_commit_ts_map s) ∧
         ∀ t, row_deleter (value_u64 d i) = Some t → t ∉ snap_active_txns s).
Proof.
  intros Hwf Hcols Hne Hc Hd.
  destruct (filter_by_visibility_keeps b data c d s) as (b' & Hb' & Hf & Hs); [done..|].
  exists b', (visibility_mask s c d (rb_rows b)). split_and!; [done..|]. intros i Hi.
  eexists. split; [by apply visibility_mask_lookup|apply shadow_filter_vs_contract].
Qed.

Definition demo_vis_batch : RecordBatch ListArray :=
  {| rb_fields := {| f_name := "v"; f_type := Int64; f_nullable := true |} :: visibility_schema;
     rb_columns := [int_array [Some 1; None]] ++ [int_array [Some 8; Some 9]; int_array [Some (-1); Some (-1)]];
     rb_rows := 2 |}.

Lemma demo_vis_batch_wf : batch_wf demo_vis_batch.
Proof. repeat constructor; cbn; intros; try discriminate; apply (bool_decide_unpack _); vm_compute; exact I. Qed.

Lemma filter_by_visibility_spec_witness :
  ∃ b' mask, filter_by_visibility demo_vis_batch demo_snapshot = Done (Ok b') ∧
    rb_fields b' = take 1 (rb_fields demo_vis_batch) ∧
    Forall2 (λ col' col, slots col' = mask_filter mask (slots col)) (rb_columns b') [int_array [Some 1; None]] ∧
    ∀ i, 0 ≤ i < 2 → ∃ flag, mask !! Z.to_nat i = Some flag ∧
      (flag = true ↔
         row_visible 10 (value_u64 (int_array [Some 8; Some 9]) i)
           (row_deleter (value_u64 (int_array [Some (-1); Some (-1)]) i)) {[9]} {[8 := 8]} ∧
         ∀ t, row_deleter (value_u64 (int_array [Some (-1); Some (-1)]) i) = Some t → t ∉ ({[9]} : gset TxnId)).
Proof.
  apply (filter_by_visibility_spec demo_vis_batch [int_array [Some 1; None]]
    (int_array [Some 8; Some 9]) (int_array [Some (-1); Some (-1)]) demo_snapshot);
    [apply demo_vis_batch_wf|reflexivity|discriminate|reflexivity|reflexivity].
Defined.

(** Appended visibility columns are read back: on a well-formed batch with
    data columns [append_visibility_columns] succeeds, its schema is recognised as
    carrying visibility columns, and filtering the result returns the whole batch
    or no row of it, by the row check on the given transactions. *)
Theorem append_then_filter `{ArrowLaws Arr} `{!Batches Arr} `{!BatchesLaws Arr}
    (b : RecordBatch Arr) s created deleted :
  batch_wf b → rb_columns b ≠ [] → is_u64 created → is_u64 deleted →
  ∃ b1 b2, append_visibility_columns b created deleted = Done b1 ∧
    has_visibility_columns (rb_fields b1) = true ∧
    filter_by_visibility b1 s = Done (Ok b2) ∧ rb_fields b2 = rb_fields b ∧
    Forall2 (λ col' col, slots col' = if shadow_row_visible s created (row_deleter deleted)
                                      then slots col else []) (rb_columns b2) (rb_columns b).
Proof.
  intros Hwf Hne Hc Hd.
  assert (∀ c, c ∈ rb_columns b → arr_len c = rb_rows b) as Hlen.
  { intros c [i Hi]%list_elem_of_lookup_1. by destruct (Forall2_lookup_r _ _ _ _ _ Hwf Hi) as (f & _ & ? & _). }
  assert (0 ≤ rb_rows b) as Hn.
  { destruct (rb_columns b) as [|c cs]; [done|]. rewrite <- (Hlen c) by (by left). apply arr_len_nonneg. }
  destruct (append_visibility_columns_ok b created deleted Hwf Hn) as [Ha Hwf1].
  match type of Ha with _ = Done ?b1 => destruct (filter_by_visibility_keeps b1 (rb_columns b) _ _ s Hwf1 eq_refl)
    as (b2 & Hb2 & Hf2 & Hs2); [done|apply arr_build_type|apply arr_build_type|]; exists b1, b2 end.
  split_and!; [done| |done| |].
  - unfold has_visibility_columns; cbn [rb_fields].
    replace (rb_fields b ++ _) with ((rb_fields b ++ [int64_field CREATED_TXN_COL]) ++ [int64_field DELETED_TXN_COL])
      by (by rewrite <- app_assoc).
    rewrite !reverse_snoc. reflexivity.
  - rewrite Hf2. cbn [rb_fields]. apply take_app_length'. by apply Forall2_length in Hwf.
  - cbn [rb_rows] in Hs2. rewrite visibility_mask_constant in Hs2 by done.
    apply Forall2_same_length_lookup. split; [by apply Forall2_length in Hs2|].
    intros i c' c Hc' Hci. rewrite (Forall2_lookup_lr _ _ _ _ _ _ Hs2 Hc' Hci). apply mask_filter_replicate.
    unfold slots. rewrite length_fmap, length_seqZ. rewrite (Hlen c) by (by eapply list_elem_of_lookup_2). lia.
Qed.

Definition demo_data_batch : RecordBatch ListArray :=
  {| rb_fields := [{| f_name := "v"; f_type := Int64; f_nullable := true |}];
     rb_columns := [int_array [Some 1; None]]; rb_rows := 2 |}.

Lemma append_then_filter_witness :
  ∃ b1 b2, append_visibility_columns demo_data_batch 8 NOT_DELETED = Done b1 ∧
    has_visibility_columns (rb_fields b1) = true ∧
    filter_by_visibility b1 demo_snapshot = Done (Ok b2) ∧ rb_fields b2 = rb_fields demo_data_batch ∧
    Forall2 (λ col' col, slots col' = if shadow_row_visible demo_snapshot 8 (row_deleter NOT_DELETED)
                                      then slots col else []) (rb_columns b2) (rb_columns demo_data_batch).
Proof.
  apply (append_then_filter demo_data_batch demo_snapshot 8 NOT_DELETED).
  - repeat constructor; cbn; discriminate.
  - discriminate.
  - vm_compute; intuition discriminate.
  - vm_compute; intuition discriminate.
Defined.

(** [mark_rows_deleted] on a visibility batch whose flags match its rows
    succeeds, sets the deleter of exactly the flagged rows and keeps every other
    row's transactions. *)
Theorem mark_rows_deleted_spec `{ArrowLaws Arr} `{!Batches Arr} `{!BatchesLaws Arr}
    (b : RecordBatch Arr) c d flags del :
  is_u64 del → rb_rows b = zlen flags → rb_fields b = visibility_schema → batch_wf b → rb_columns b = [c; d] →
  ∃ d', mark_rows_deleted b flags del = Done (Build_RecordBatch visibility_schema [c; d'] (rb_rows b)) ∧
    ∀ i (flag : bool), flags !! i = Some flag →
      value_u64 d' (Z.of_nat i) = if flag then del else value_u64 d (Z.of_nat i).
Proof.
  intros Hdel Hn Hfs Hwf Hcols. unfold batch_wf in Hwf. rewrite Hfs, Hcols in Hwf.
  inversion_clear Hwf as [|? ? ? ? Hc Hwf']. inversion_clear Hwf' as [|? ? ? ? Hd _].
  assert (zlen (mark_deleted_values d flags del) = rb_rows b) as Hl.
  { rewrite Hn. unfold mark_deleted_values, zlen. by rewrite length_imap. }
  eexists. unfold mark_rows_deleted. rewrite (proj2 (Z.eqb_eq _ _) Hn), Hcols.
  change (vis_columns [c; d]) with (Some ([] : list Arr, c, d)). cbn [app]. unfold both_int64.
  destruct Hc as (Hcl & Hct & Hcn), Hd as (Hdl & Hdt & Hdn). rewrite !bool_decide_true by done. cbn [andb app].
  rewrite Hfs, (try_new_ok _ _ (rb_rows b)).
  - split; [done|]. intros i flag Hi.
    erewrite value_u64_int64; [|unfold mark_deleted_values; rewrite list_lookup_imap, Hi; done].
    destruct flag; [by apply as_u64_as_i64|done].
  - done.
  - constructor; [by split_and!|]. constructor; [|constructor]. rewrite <- Hl at 1. apply int64_array_fits.
Qed.

Lemma mark_rows_deleted_spec_witness :
  ∃ d' : ListArray, mark_rows_deleted
      {| rb_fields := visibility_schema;
         rb_columns := [int_array [Some 3; Some 4]; int_array [Some (-1); Some (-1)]]; rb_rows := 2 |}
      [false; true] 9 =
    Done (Build_RecordBatch visibility_schema [int_array [Some 3; Some 4]; d'] 2) ∧
    ∀ i (flag : bool), [false; true] !! i = Some flag →
      value_u64 d' (Z.of_nat i) = if flag then 9 else value_u64 (int_array [Some (-1); Some (-1)]) (Z.of_nat i).
Proof.
  apply (mark_rows_deleted_spec {| rb_fields := visibility_schema;
         rb_columns := [int_array [Some 3; Some 4]; int_array [Some (-1); Some (-1)]]; rb_rows := 2 |});
    [vm_compute; intuition discriminate|reflexivity|reflexivity| |reflexivity].
  repeat constructor; cbn; intros _; apply (bool_decide_unpack _); vm_compute; exact I.
Defined.
