(* ===== verification/PkIndex.v ===== *)
(** The primary-key index (metadata/pk_skiplist.rs) and the segment aliases it
    follows (metadata/seg_alias.rs): two records per key in the store, one under
    segment and granule, one under the key alone. *)

From stdpp Require Import base gmap strings list.
From S2P Require Import Prelude Kv.

Local Open Scope Z_scope.

(** * Keys *)

(** [b':'] *)
Definition colon : Z := 58.

(** A [GranuleId] is its [u32]. *)
Definition pk_skiplist_key (seg_id : string) (granule_id : Z) : bytes :=
  as_bytes "pk_idx:" ++ as_bytes seg_id ++ [colon] ++ to_le_bytes 4 granule_id.

Definition pk_index_key (seg_id : string) (granule_id : Z) (pk : bytes) : bytes :=
  as_bytes "pk_idx:" ++ as_bytes seg_id ++ [colon] ++ to_le_bytes 4 granule_id ++ [colon] ++ pk.

Definition pk_lookup_key (pk : bytes) : bytes := as_bytes "pk_lookup:" ++ pk.

(** [haystack.iter().position(|&b| b == byte)] *)
Fixpoint find_byte (haystack : bytes) (byte : Z) : option nat :=
  match haystack with
  | [] => None
  | b :: rest => if b =? byte then Some 0%nat else S <$> find_byte rest byte
  end.

Definition parse_pk_index_key (key : bytes) : option (string * Z * bytes) :=
  if negb (bool_decide (as_bytes "pk_idx:" `prefix_of` key)) then None else
  let rest := drop 7 key in
  first_colon ← find_byte rest colon;
  let seg_id := from_utf8_lossy (take first_colon rest) in
  let after_seg := drop (S first_colon) rest in
  if zlen after_seg <? 4 then None
  else Some (seg_id, from_le_bytes (take 4 after_seg), drop 4 after_seg).

(** * Entries *)

Record SkiplistEntry := {
  entry_pk : bytes;
  entry_seg_id : string;
  entry_granule_id : Z;
  entry_row_offset : Z
}.

Section pk_index.
Context `{KVEngine KV} `{Codec (string * Z * Z)} `{Codec (string * Z * Z * bytes)}.

Definition put_pk_index_double (kv : KV) (pk : bytes) (seg_id : string) (granule_id row_offset : Z)
    : KV * Result unit :=
  let idx_key := pk_index_key seg_id granule_id pk in
  match codec_err (encode (seg_id, granule_id, row_offset)) with
  | Err e => (kv, Err e)
  | Ok value =>
      match codec_err (encode (seg_id, granule_id, row_offset, idx_key)) with
      | Err e => (kv, Err e)
      | Ok lookup_value =>
          kv_write_batch kv CF_PK_IDX [KPut idx_key value; KPut (pk_lookup_key pk) lookup_value]
      end
  end.

(** Two deletes in turn; the second is not issued when the first fails. *)
Definition delete_pk_index_double (kv : KV) (pk : bytes) (seg_id : string) (granule_id : Z)
    : KV * Result unit :=
  match kv_delete kv CF_PK_IDX (pk_index_key seg_id granule_id pk) with
  | (kv, Err e) => (kv, Err e)
  | (kv, Ok _) => kv_delete kv CF_PK_IDX (pk_lookup_key pk)
  end.

Definition get_pk_index (kv : KV) (pk : bytes) (seg_id : string) (granule_id : Z)
    : Result (option (string * Z * Z)) :=
  v <-? kv_get kv CF_PK_IDX (pk_index_key seg_id granule_id pk);
  match v with
  | Some value => entry <-? codec_err (decode value); Ok (Some entry)
  | None => Ok None
  end.

Definition get_pk_index_by_pk (kv : KV) (pk : bytes) : Result (option (string * Z * Z)) :=
  v <-? kv_get kv CF_PK_IDX (pk_lookup_key pk);
  match v with
  | None => Ok None
  | Some value =>
      e <-? codec_err (decode (A := string * Z * Z * bytes) value);
      let '(seg_id, granule_raw, row_offset, idx_key) := e in
      r <-? resolve_seg_id kv seg_id;
      if negb r.2 then Ok (Some (seg_id, granule_raw, row_offset)) else
      v' <-? kv_get kv CF_PK_IDX idx_key;
      match v' with
      | Some v' =>
          ne <-? codec_err (decode (A := string * Z * Z) v');
          Ok (Some (r.1, ne.1.2, ne.2))
      | None => Ok None
      end
  end.

Definition resolve_pk_entry_seg_id (kv : KV) (seg_id : string) (granule_id row_offset : Z)
    : Result (string * Z * Z) :=
  r <-? resolve_seg_id kv seg_id; Ok (r.1, granule_id, row_offset).

(** The loop of [list_skiplist_entries]: a malformed key is skipped, a value that
    does not decode as a four-field record ends the call. *)
Fixpoint collect_entries (l : list (bytes * bytes)) : Result (list SkiplistEntry) :=
  match l with
  | [] => Ok []
  | (key, value) :: l' =>
      match parse_pk_index_key key with
      | None => collect_entries l'
      | Some (_, _, pk) =>
          e <-? codec_err (decode (A := string * Z * Z * bytes) value);
          rest <-? collect_entries l';
          let '(seg, g, row, _) := e in
          Ok ({| entry_pk := pk; entry_seg_id := seg; entry_granule_id := g; entry_row_offset := row |} :: rest)
      end
  end.

Definition list_skiplist_entries (kv : KV) (seg_id : string) : Result (list SkiplistEntry) :=
  l <-? kv_prefix kv CF_PK_IDX (pk_skiplist_key seg_id 0);
  collect_entries l.

(** seg_alias.rs *)
Definition write_alias (kv : KV) (old_seg_id new_seg_id : string) : KV * Result unit :=
  put_segment_alias kv old_seg_id new_seg_id.

Definition is_redirected (kv : KV) (seg_id : string) : Result bool :=
  r <-? resolve_segment_alias kv seg_id; Ok (bool_decide (is_Some r)).
End pk_index.

(** * Proofs *)

Lemma pk_keys_differ seg g pk pk' : pk_index_key seg g pk ≠ pk_lookup_key pk'.
Proof. intros Heq. apply (f_equal (lookup 3%nat)) in Heq. vm_compute in Heq. discriminate. Qed.

Lemma find_byte_app l1 l2 b : Forall (λ x, x ≠ b) l1 → find_byte (l1 ++ b :: l2) b = Some (length l1).
Proof.
  induction 1 as [|x l1 Hx _ IH]; cbn; [by rewrite Z.eqb_refl|].
  rewrite (proj2 (Z.eqb_neq _ _)) by done. by rewrite IH.
Qed.

Lemma seg_alias_key_inj a b : seg_alias_key_impl a = seg_alias_key_impl b → a = b.
Proof. intros Heq%app_inv_head%as_bytes_inj. done. Qed.

Section pk_proofs.
Context `{KVEngineLaws KV} `{CodecLaws (string * Z * Z)} `{CodecLaws (string * Z * Z * bytes)}.
Implicit Types kv : KV.

(** The content after a successful insert. *)
Lemma put_pk_index_abs kv pk seg g row kv' :
  put_pk_index_double kv pk seg g row = (kv', Ok tt) →
  ∃ v lv, encode (seg, g, row) = Ok v ∧ encode (seg, g, row, pk_index_key seg g pk) = Ok lv ∧
    ∀ b, kv_abs kv' b = if bool_decide (b = CF_PK_IDX)
      then <[pk_lookup_key pk := lv]> (<[pk_index_key seg g pk := v]> (kv_abs kv b)) else kv_abs kv b.
Proof.
  unfold put_pk_index_double. destruct (encode (seg, g, row)) as [v|] eqn:E1; cbn [codec_err map_err]; [|done].
  destruct (encode (seg, g, row, _)) as [lv|] eqn:E2; cbn [codec_err map_err]; [|done]. intros Hw.
  exists v, lv. split_and!; [done|done|]. intros b.
  pose proof (kv_write_batch_spec kv CF_PK_IDX
    [KPut (pk_index_key seg g pk) v; KPut (pk_lookup_key pk) lv] b) as Hs.
  rewrite Hw in Hs. exact Hs.
Qed.

Lemma delete_pk_index_abs kv pk seg g kv' :
  delete_pk_index_double kv pk seg g = (kv', Ok tt) →
  ∀ b, kv_abs kv' b = if bool_decide (b = CF_PK_IDX)
    then delete (pk_lookup_key pk) (delete (pk_index_key seg g pk) (kv_abs kv b)) else kv_abs kv b.
Proof.
  unfold delete_pk_index_double. intros Hd b.
  pose proof (kv_delete_spec kv CF_PK_IDX (pk_index_key seg g pk) b) as H1'.
  destruct (kv_delete kv CF_PK_IDX (pk_index_key seg g pk)) as [kv1 [[]|e]]; [|done]. cbn in H1'.
  pose proof (kv_delete_spec kv1 CF_PK_IDX (pk_lookup_key pk) b) as H2'. rewrite Hd in H2'. cbn in H2'.
  rewrite H2', H1'. by case_bool_decide.
Qed.

(** Reading a key whose content is known, through a read that succeeds. *)
Lemma kv_get_known kv b k v r : kv_abs kv b !! k = v → kv_get kv b k = Ok r → r = v.
Proof. intros <- Hr%kv_get_spec. done. Qed.

Lemma resolve_alias_known kv seg r :
  resolve_segment_alias kv seg = Ok r →
  r = kv_abs kv CF_SEG_ALIAS !! seg_alias_key_impl seg ≫= from_utf8.
Proof.
  unfold resolve_segment_alias. destruct (kv_get kv CF_SEG_ALIAS _) as [v|] eqn:E; cbn; [|done].
  apply kv_get_spec in E. subst. destruct (kv_abs kv CF_SEG_ALIAS !! _) as [v|]; cbn; [|by intros [= <-]].
  destruct (from_utf8 v); [by intros [= <-]|done].
Qed.
(** Both lookups find an inserted entry. *)
Lemma pk_index_put_lookup kv kv' pk seg g row r r' :
  put_pk_index_double kv pk seg g row = (kv', Ok tt) →
  get_pk_index kv' pk seg g = Ok r →
  kv_abs kv CF_SEG_ALIAS !! seg_alias_key_impl seg = None →
  get_pk_index_by_pk kv' pk = Ok r' →
  r = Some (seg, g, row) ∧ r' = Some (seg, g, row).
Proof.
  intros (v & lv & Hv & Hlv & Habs)%put_pk_index_abs Hr Hal Hr'.
  assert (kv_abs kv' CF_PK_IDX !! pk_index_key seg g pk = Some v) as Hk1.
  { rewrite Habs, bool_decide_true by done.
    rewrite lookup_insert_ne by (apply not_eq_sym, pk_keys_differ). by rewrite lookup_insert_eq. }
  assert (kv_abs kv' CF_PK_IDX !! pk_lookup_key pk = Some lv) as Hk2.
  { rewrite Habs, bool_decide_true by done. by rewrite lookup_insert_eq. }
  split.
  - unfold get_pk_index in Hr. destruct (kv_get _ _ _) as [o|] eqn:E; cbn in Hr; [|done].
    rewrite (kv_get_known _ _ _ _ _ Hk1 E), (decode_encode _ _ Hv) in Hr. by simplify_eq/=.
  - unfold get_pk_index_by_pk in Hr'. destruct (kv_get _ _ _) as [o|] eqn:E; cbn in Hr'; [|done].
    rewrite (kv_get_known _ _ _ _ _ Hk2 E), (decode_encode _ _ Hlv) in Hr'. cbn in Hr'.
    unfold resolve_seg_id in Hr'. destruct (resolve_segment_alias kv' seg) as [ra|] eqn:Er; cbn in Hr'; [|done].
    apply resolve_alias_known in Er. rewrite Habs, bool_decide_false, Hal in Er by done. subst ra.
    cbn in Hr'. by simplify_eq.
Qed.

(** Neither lookup finds a deleted entry. *)
Lemma pk_index_delete_lookup kv kv' pk seg g r r' :
  delete_pk_index_double kv pk seg g = (kv', Ok tt) →
  get_pk_index kv' pk seg g = Ok r → get_pk_index_by_pk kv' pk = Ok r' → r = None ∧ r' = None.
Proof.
  intros Habs Hr Hr'. pose proof (delete_pk_index_abs _ _ _ _ _ Habs CF_PK_IDX) as Hk.
  rewrite bool_decide_true in Hk by done. split.
  - unfold get_pk_index in Hr. destruct (kv_get _ _ _) as [o|] eqn:E; cbn in Hr; [|done].
    apply kv_get_spec in E. rewrite Hk, lookup_delete_ne, lookup_delete_eq in E
      by (apply not_eq_sym, pk_keys_differ). subst o. by simplify_eq.
  - unfold get_pk_index_by_pk in Hr'. destruct (kv_get _ _ _) as [o|] eqn:E; cbn in Hr'; [|done].
    apply kv_get_spec in E. rewrite Hk, lookup_delete_eq in E. subst o. by simplify_eq.
Qed.
End pk_proofs.

(** Codecs for the two record types, for evaluation. *)
Definition pk_codec3 : Codec (string * Z * Z) := countable_codec (string * Z * Z).
Definition pk_codec4 : Codec (string * Z * Z * bytes) := countable_codec (string * Z * Z * bytes).

(** * Properties *)

(** The index keeps its two records in step.  After a successful insert, both
    lookups that do not fail return the entry: the one by segment, granule and key,
    and, while the segment is not aliased, the one by key alone.  After a
    successful delete of the entry neither lookup that does not fail finds it. *)
Theorem pk_index_put_delete `{KVEngineLaws KV} `{CodecLaws (string * Z * Z)}
    `{CodecLaws (string * Z * Z * bytes)} (kv kv1 : KV) pk seg g row :
  kv_abs kv CF_SEG_ALIAS !! seg_alias_key_impl seg = None →
  put_pk_index_double kv pk seg g row = (kv1, Ok tt) →
  (∀ r r', get_pk_index kv1 pk seg g = Ok r → get_pk_index_by_pk kv1 pk = Ok r' →
     r = Some (seg, g, row) ∧ r' = Some (seg, g, row)) ∧
  (∀ kv2 r r', delete_pk_index_double kv1 pk seg g = (kv2, Ok tt) →
     get_pk_index kv2 pk seg g = Ok r → get_pk_index_by_pk kv2 pk = Ok r' → r = None ∧ r' = None).
Proof.
  intros Hal Hput. split.
  - intros r r' Hr Hr'. by apply (pk_index_put_lookup kv kv1 pk seg g row).
  - intros kv2 r r' Hd Hr Hr'. by apply (pk_index_delete_lookup kv1 kv2 pk seg g).
Qed.

Lemma pk_index_put_delete_witness :
  let kv1 := (@put_pk_index_double _ _ pk_codec3 pk_codec4 mem_empty [1; 2] "seg" 3 44).1 in
  (@get_pk_index _ _ pk_codec3 kv1 [1; 2] "seg" 3 = Ok (Some ("seg", 3, 44))) ∧
  (∀ r r', @get_pk_index _ _ pk_codec3 kv1 [1; 2] "seg" 3 = Ok r →
     @get_pk_index_by_pk _ _ pk_codec3 pk_codec4 kv1 [1; 2] = Ok r' →
     r = Some ("seg", 3, 44) ∧ r' = Some ("seg", 3, 44)) ∧
  (∀ kv2 r r', delete_pk_index_double kv1 [1; 2] "seg" 3 = (kv2, Ok tt) →
     @get_pk_index _ _ pk_codec3 kv2 [1; 2] "seg" 3 = Ok r →
     @get_pk_index_by_pk _ _ pk_codec3 pk_codec4 kv2 [1; 2] = Ok r' → r = None ∧ r' = None).
Proof.
  intros kv1. split; [vm_compute; reflexivity|].
  apply (@pk_index_put_delete _ _ _ pk_codec3 (countable_codec_laws _) pk_codec4 (countable_codec_laws _)
    mem_empty kv1 [1; 2] "seg" 3 44); vm_compute; reflexivity.
Defined.

(** A key of the index parses back to its segment and granule, but the
    parsed primary key keeps the separator byte in front. *)
Theorem parse_pk_index_key_keeps_separator seg g pk :
  utf8_valid (as_bytes seg) = true → Forall (λ b, b ≠ colon) (as_bytes seg) → is_u32 g →
  parse_pk_index_key (pk_index_key seg g pk) = Some (seg, g, colon :: pk).
Proof.
  intros Hv Hc Hg. unfold parse_pk_index_key.
  assert (as_bytes "pk_idx:" `prefix_of` pk_index_key seg g pk) as Hp by (by eexists).
  rewrite bool_decide_true by done. cbn [negb].
  change (drop 7 (pk_index_key seg g pk)) with (as_bytes seg ++ colon :: (to_le_bytes 4 g ++ [colon] ++ pk)).
  rewrite find_byte_app by done. cbn [mbind option_bind].
  rewrite take_app_length, from_utf8_lossy_as_bytes by done.
  replace (drop (S (length (as_bytes seg))) _) with (to_le_bytes 4 g ++ [colon] ++ pk).
  2:{ rewrite (drop_app_ge _ _ (S (length (as_bytes seg)))) by lia.
      by replace (S (length (as_bytes seg)) - length (as_bytes seg))%nat with 1%nat by lia. }
  assert (length (to_le_bytes 4 g) = 4)%nat as Hl by apply to_le_bytes_length.
  rewrite (proj2 (Z.ltb_ge _ _)).
  2:{ autorewrite with zlen. pose proof (zlen_nonneg pk). lia. }
  rewrite take_app_length', drop_app_length' by done.
  rewrite from_to_le_bytes; [done|]. unfold is_u32, u32_max in Hg. cbn. lia.
Qed.

Lemma parse_pk_index_key_keeps_separator_witness :
  parse_pk_index_key (pk_index_key "seg-1" 7 [10; 20]) = Some ("seg-1", 7, [colon; 10; 20]).
Proof.
  apply parse_pk_index_key_keeps_separator; [reflexivity| |vm_compute; intuition discriminate].
  vm_compute. repeat constructor; discriminate.
Defined.

(** The prefix that [list_skiplist_entries] scans matches an index key of
    the segment only when its granule is 0: the entries of other granules are not
    listed. *)
Theorem skiplist_prefix_granule_zero seg g pk :
  is_u32 g → (pk_skiplist_key seg 0 `prefix_of` pk_index_key seg g pk ↔ g = 0).
Proof.
  intros Hg. unfold pk_skiplist_key, pk_index_key.
  assert (∀ (l a b : bytes), l ++ a `prefix_of` l ++ b ↔ a `prefix_of` b) as Hpre.
  { intros l a b. split; [apply prefix_app_inv|apply prefix_app]. }
  rewrite !Hpre. split.
  - intros [k Hk]. apply (f_equal (take 4)) in Hk.
    rewrite !take_app_length' in Hk by (by rewrite to_le_bytes_length).
    unfold is_u32, u32_max in Hg. apply (to_le_bytes_inj 4) in Hk; [done|cbn; lia|cbn; lia].
  - intros ->. by eexists.
Qed.

Lemma skiplist_prefix_granule_zero_witness :
  pk_skiplist_key "s" 0 `prefix_of` pk_index_key "s" 5 [1] ↔ 5 = 0.
Proof. apply skiplist_prefix_granule_zero. vm_compute. intuition discriminate. Defined.

(** Resolving a segment follows one alias only: after aliasing [a] to [b]
    and [b] to [c], a resolution of [a] that does not fail answers [b], which is
    itself redirected. *)
Theorem alias_one_hop `{KVEngineLaws KV} (kv kv1 kv2 : KV) a b c r :
  utf8_valid (as_bytes b) = true → a ≠ b →
  put_segment_alias kv a b = (kv1, Ok tt) → put_segment_alias kv1 b c = (kv2, Ok tt) →
  resolve_seg_id kv2 a = Ok r → r = (b, true).
Proof.
  intros Hv Hab Hp1 Hp2 Hr. unfold resolve_seg_id in Hr.
  destruct (resolve_segment_alias kv2 a) as [ra|] eqn:Er; cbn in Hr; [|done].
  apply resolve_alias_known in Er. unfold put_segment_alias in Hp1, Hp2.
  pose proof (kv_put_spec kv CF_SEG_ALIAS (seg_alias_key_impl a) (as_bytes b) CF_SEG_ALIAS) as H1'.
  pose proof (kv_put_spec kv1 CF_SEG_ALIAS (seg_alias_key_impl b) (as_bytes c) CF_SEG_ALIAS) as H2'.
  rewrite Hp1 in H1'. rewrite Hp2 in H2'. cbn in H1', H2'.
  rewrite bool_decide_true in H1', H2' by done. rewrite H2', lookup_insert_ne, H1', lookup_insert_eq in Er.
  - cbn in Er. rewrite from_utf8_as_bytes in Er by done. subst ra. by simplify_eq.
  - intros Heq%seg_alias_key_inj. done.
Qed.

Lemma alias_one_hop_witness :
  resolve_seg_id (put_segment_alias (put_segment_alias mem_empty "a" "b").1 "b" "c").1 "a" = Ok ("b", true).
Proof.
  destruct (resolve_seg_id (put_segment_alias (put_segment_alias mem_empty "a" "b").1 "b" "c").1 "a")
    as [r|e] eqn:E; [|vm_compute in E; discriminate].
  f_equal. eapply (alias_one_hop mem_empty _ _ "a" "b" "c"); [reflexivity|discriminate|reflexivity|reflexivity|exact E].
Defined.
