(* ===== verification/Bloom.v ===== *)
(** The split-block Bloom filter of a granule and the manager that builds one per
    granule during compaction (metadata/block_zone_map.rs, [SbbFilter] and
    [GranuleBloomFilterManager]).  The hash is xxh3's 128-bit hash and the encoding
    bincode's, both library code; the logarithm that sizes a filter is the
    platform's. *)

From Stdlib Require Import Floats.SpecFloat.
From stdpp Require Import base gmap strings list pretty.
From S2P Require Import Prelude Kv Arrow.

Local Open Scope Z_scope.

(** * The filter *)

(** [f64::ln] and [powi(2)] have no specified precision; [xxh3_128_with_seed] at
    the source's seed is a [u128]. *)
Class BloomEnv := {
  f64_ln : f64 → f64;
  f64_powi2 : f64 → f64;
  xxh3_128 : bytes → Z
}.

Definition DEFAULT_BLOCK_SIZE : Z := 8192.
Definition DEFAULT_GRANULE_SIZE : Z := 8.
Definition DEFAULT_BF_FPP : f64 := f64_lit 1 100.

Definition SALT : list Z :=
  [1203067463; 2390111315; 849908277; 2139298169; 1804405433; 1301579683; 494153203; 2704234429].

Record SbbFilter := { entries : Z; num_blocks : Z; bits : list Z }.

#[export] Instance SbbFilter_eq_dec : EqDecision SbbFilter.
Proof. solve_decision. Defined.

Definition SbbFilter_new (n : Z) : SbbFilter :=
  {| entries := 0; num_blocks := n; bits := replicate (Z.to_nat (n * 32)) 0 |}.

(** [x.ceil() as u32] *)
Definition ceil_u32 (x : f64) : Z :=
  match x with
  | S754_finite false m e =>
      let v := if 0 <=? e then Zpos m * 2 ^ e else - ((- Zpos m) `div` 2 ^ (- e)) in
      if u32_max <? v then u32_max else v
  | S754_infinity false => u32_max
  | _ => 0
  end.

Section filter.
Context `{BloomEnv}.

Definition optimal_num_blocks (n : Z) (fpp : f64) : Z :=
  let m := f64_max
    (SFdiv 53 1024
       (SFmul 53 1024 (SFmul 53 1024 (f64_of_Z (-8)) (f64_of_Z n)) (f64_ln fpp))
       (f64_powi2 (f64_ln (f64_of_Z 2))))
    (f64_of_Z 256) in
  Z.max (ceil_u32 (SFdiv 53 1024 m (f64_of_Z 256))) 1.

(** The low and the high half of the 128-bit hash. *)
Definition hash (key : bytes) : Z * Z :=
  (wrap64 (xxh3_128 key), wrap64 (Z.shiftr (xxh3_128 key) 64)).

(** [salt_val.wrapping_mul(h2 as u32) % 32] *)
Definition bit_pos (h2 salt_val : Z) : Z := wrap32 (salt_val * wrap32 h2) `mod` 32.

Definition byte_index (offset pos : Z) : nat := Z.to_nat (offset + pos `div` 8).

Definition set_bit (offset pos : Z) (bs : list Z) : list Z :=
  alter (λ b, Z.lor b (Z.shiftl 1 (pos `mod` 8))) (byte_index offset pos) bs.

Definition get_bit (offset pos : Z) (bs : list Z) : bool :=
  negb (Z.land (default 0 (bs !! byte_index offset pos)) (Z.shiftl 1 (pos `mod` 8)) =? 0).

Definition block_offset (f : SbbFilter) (h1 : Z) : Z := h1 `mod` num_blocks f * 32.

(** A filter without blocks divides by zero; an index past the bits panics. *)
Definition insert_hashes (f : SbbFilter) (h : Z * Z) : outcome SbbFilter :=
  if num_blocks f =? 0 then Panic else
  let offset := block_offset f h.1 in
  if forallb (λ s, (byte_index offset (bit_pos h.2 s) <? length (bits f))%nat) SALT
  then Done {| entries := wrap32 (entries f + 1); num_blocks := num_blocks f;
               bits := for_each SALT (bits f) (λ bs s, set_bit offset (bit_pos h.2 s) bs) |}
  else Panic.

Definition might_contain_hashes (f : SbbFilter) (h : Z * Z) : outcome bool :=
  if num_blocks f =? 0 then Panic else
  let offset := block_offset f h.1 in
  if forallb (λ s, (byte_index offset (bit_pos h.2 s) <? length (bits f))%nat) SALT
  then Done (forallb (λ s, get_bit offset (bit_pos h.2 s) (bits f)) SALT)
  else Panic.

Definition sbb_insert (f : SbbFilter) (key : bytes) : outcome SbbFilter := insert_hashes f (hash key).
Definition might_contain (f : SbbFilter) (key : bytes) : outcome bool := might_contain_hashes f (hash key).

(** * The manager *)

Record GranuleBloomFilterManager := {
  bm_seg_id : string;
  bm_col_name : string;
  bm_total_rows : Z;
  granule_filters : gmap Z bytes;
  bm_cache : gmap Z SbbFilter
}.

Definition GranuleBloomFilterManager_new (seg col : string) (total_rows : Z) : GranuleBloomFilterManager :=
  {| bm_seg_id := seg; bm_col_name := col; bm_total_rows := total_rows; granule_filters := ∅; bm_cache := ∅ |}.

Definition rows_per_granule : Z := DEFAULT_GRANULE_SIZE * DEFAULT_BLOCK_SIZE.

Definition num_granules (m : GranuleBloomFilterManager) : Z :=
  bm_total_rows m `div` rows_per_granule + (if 0 <? bm_total_rows m `mod` rows_per_granule then 1 else 0).

Definition bm_is_empty (m : GranuleBloomFilterManager) : bool := bool_decide (granule_filters m = ∅).

Definition set_cache (m : GranuleBloomFilterManager) (c : gmap Z SbbFilter) : GranuleBloomFilterManager :=
  {| bm_seg_id := bm_seg_id m; bm_col_name := bm_col_name m; bm_total_rows := bm_total_rows m;
     granule_filters := granule_filters m; bm_cache := c |}.
Definition set_filters (m : GranuleBloomFilterManager) (fs : gmap Z bytes) : GranuleBloomFilterManager :=
  {| bm_seg_id := bm_seg_id m; bm_col_name := bm_col_name m; bm_total_rows := bm_total_rows m;
     granule_filters := fs; bm_cache := bm_cache m |}.

Context `{Codec SbbFilter}.

(** The filter an insertion starts from: the cached one, the stored one, or an
    empty one of the right size when the stored one does not decode. *)
Definition granule_filter (m : GranuleBloomFilterManager) (granule expected : Z) : SbbFilter :=
  match bm_cache m !! granule with
  | Some f => f
  | None =>
      match granule_filters m !! granule with
      | Some b => match decode b with
                  | Ok f => f
                  | Err _ => SbbFilter_new (optimal_num_blocks expected DEFAULT_BF_FPP)
                  end
      | None => SbbFilter_new (optimal_num_blocks expected DEFAULT_BF_FPP)
      end
  end.

Definition insert_into_granule (m : GranuleBloomFilterManager) (granule expected : Z) (pk : bytes)
    : outcome GranuleBloomFilterManager :=
  match sbb_insert (granule_filter m granule expected) pk with
  | Done f => Done (set_cache m (<[granule := f]> (bm_cache m)))
  | Panic => Panic
  end.

(** [flush_cache]: every cached filter is serialized and replaces the stored one;
    an encoding error is an [expect] that panics. *)
Fixpoint flush_entries (l : list (Z * SbbFilter)) (fs : gmap Z bytes) : outcome (gmap Z bytes) :=
  match l with
  | [] => Done fs
  | (g, f) :: l' =>
      match encode f with
      | Ok b => flush_entries l' (<[g := b]> fs)
      | Err _ => Panic
      end
  end.

Definition flush_cache `{HashIter} (m : GranuleBloomFilterManager) : outcome GranuleBloomFilterManager :=
  match flush_entries (hash_iter (bm_cache m)) (granule_filters m) with
  | Done fs => Done (set_cache (set_filters m fs) ∅)
  | Panic => Panic
  end.

Definition get_granule_filter (m : GranuleBloomFilterManager) (granule : Z) : option SbbFilter :=
  match granule_filters m !! granule with
  | Some b => match decode b with Ok f => Some f | Err _ => None end
  | None => None
  end.

(** [build_for_granule_from_array]: the key bytes per type.  The integer branch
    does not skip nulls; the fallback inserts the row's position, not its value. *)
Context `{Arrow Arr}.

Definition pk_bytes (granule batch_row_offset : Z) (a : Arr) (i : Z) : option bytes :=
  let skip_null (b : bytes) := if arr_is_null a i then None else Some b in
  match arr_type a with
  | Int64 => match arr_value a i with VInt z => Some (to_le_bytes 8 z) | _ => None end
  | Utf8 | LargeUtf8 => match arr_value a i with VStr s => skip_null (as_bytes s) | _ => None end
  | Binary | LargeBinary => match arr_value a i with VBin b => skip_null b | _ => None end
  | _ => skip_null (as_bytes (pretty granule +:+ ":" +:+ pretty (wrap32 (wrap32 batch_row_offset + wrap32 i))))
  end.

Fixpoint insert_all (m : GranuleBloomFilterManager) (granule expected : Z) (pks : list bytes)
    : outcome GranuleBloomFilterManager :=
  match pks with
  | [] => Done m
  | pk :: pks' =>
      match insert_into_granule m granule expected pk with
      | Done m' => insert_all m' granule expected pks'
      | Panic => Panic
      end
  end.

Definition build_for_granule_from_array (m : GranuleBloomFilterManager) (granule batch_row_offset : Z)
    (a : Arr) : outcome GranuleBloomFilterManager :=
  insert_all m granule (wrap32 rows_per_granule)
    (omap (pk_bytes granule batch_row_offset a) (seqZ 0 (arr_len a))).

(** The sidecar file: magic, version, a reserved byte and the manager. *)
Context `{Codec GranuleBloomFilterManager}.

Definition BLOM : bytes := as_bytes "BLOM".
Definition BF_VERSION : Z := 1.

(** [save]: the bytes that are written to the sidecar and renamed into place, or
    nothing when there is no filter at all. *)
Definition save_bytes `{HashIter} (m : GranuleBloomFilterManager)
    : outcome (GranuleBloomFilterManager * Result (option bytes)) :=
  if bool_decide (granule_filters m = ∅) && bool_decide (bm_cache m = ∅) then Done (m, Ok None) else
  match flush_cache m with
  | Done m' =>
      Done (m', match encode m' with
                | Ok payload => Ok (Some (BLOM ++ [BF_VERSION; 0] ++ payload))
                | Err e => Err (ECodec ("serialize: " +:+ codec_error_display e))
                end)
  | Panic => Panic
  end.

Definition load_bytes (seg col : string) (data : bytes) : Result GranuleBloomFilterManager :=
  if zlen data <? 6 then Err (ECodec "GranuleBloomFilterManager: file too short for header") else
  if negb (bool_decide (take 4 data = BLOM)) then
    Err (ECodec ("GranuleBloomFilterManager: invalid magic for segment '" +:+ seg +:+ "' column '" +:+ col +:+ "'")) else
  let version := default 0 (data !! 4%nat) in
  if BF_VERSION <? version then
    Err (ECodec ("GranuleBloomFilterManager: unsupported version " +:+ pretty version +:+ " for segment '"
                 +:+ seg +:+ "' column '" +:+ col +:+ "'")) else
  map_err (λ e, ECodec ("GranuleBloomFilterManager deserialize: " +:+ codec_error_display e)) (decode (drop 6 data)).

(** compaction/pdt_merge.rs writes the sidecar only when [is_empty] is false. *)
Definition save_after_compaction `{HashIter} (m : GranuleBloomFilterManager)
    : outcome (GranuleBloomFilterManager * Result (option bytes)) :=
  if negb (bm_is_empty m) then save_bytes m else Done (m, Ok None).
End filter.

(** * Proofs *)

Section proofs.
Context `{BloomEnv}.
Implicit Types f : SbbFilter.

(** Blocks of 32 bytes, at least one. *)
Definition sbb_wf f : Prop := 0 < num_blocks f ∧ zlen (bits f) = num_blocks f * 32.

Lemma SbbFilter_new_wf n : 0 < n → sbb_wf (SbbFilter_new n).
Proof. intros Hn. split; [done|]. unfold zlen; cbn. rewrite length_replicate. lia. Qed.

Lemma optimal_num_blocks_pos n fpp : 0 < optimal_num_blocks n fpp.
Proof. unfold optimal_num_blocks. lia. Qed.

Lemma byte_index_bound f h1 pos : sbb_wf f → 0 ≤ pos < 32 →
  (byte_index (block_offset f h1) pos < length (bits f))%nat.
Proof.
  intros [Hn Hl] Hp. unfold byte_index, block_offset, zlen in *.
  pose proof (Z.mod_pos_bound h1 (num_blocks f) Hn).
  assert (0 ≤ pos `div` 8 < 4) by (split; [apply Z.div_pos|apply Z.div_lt_upper_bound]; lia).
  assert (h1 `mod` num_blocks f * 32 ≤ (num_blocks f - 1) * 32) by nia. lia.
Qed.

Lemma bit_pos_bound h2 s : 0 ≤ bit_pos h2 s < 32.
Proof. apply Z.mod_pos_bound. lia. Qed.

Lemma in_bounds f h : sbb_wf f →
  forallb (λ s, (byte_index (block_offset f h.1) (bit_pos h.2 s) <? length (bits f))%nat) SALT = true.
Proof.
  intros Hwf. apply forallb_forall. intros s _. apply Nat.ltb_lt, byte_index_bound; [done|]. apply bit_pos_bound.
Qed.

(** A bit test by masking is the bit. *)
Lemma land_bit b k : 0 ≤ k → negb (Z.land b (Z.shiftl 1 k) =? 0) = Z.testbit b k.
Proof.
  intros Hk. destruct (Z.testbit b k) eqn:E.
  - destruct (Z.eqb_spec (Z.land b (Z.shiftl 1 k)) 0) as [H0|]; [|done].
    apply (f_equal (λ z, Z.testbit z k)) in H0. rewrite Z.land_spec, E, Z.shiftl_spec, Z.sub_diag, Z.bits_0 in H0; done.
  - apply negb_false_iff, Z.eqb_eq. apply Z.bits_inj'. intros i Hi.
    rewrite Z.land_spec, Z.bits_0. destruct (decide (i = k)) as [->|Hne]; [by rewrite E|].
    rewrite Z.shiftl_spec by done. destruct (Z.ltb_spec i k); [rewrite (Z.testbit_neg_r 1) by lia; by rewrite andb_false_r|].
    rewrite (Z.bits_above_log2 1 (i - k)) by (cbn; lia). apply andb_false_r.
Qed.

Lemma set_bit_length o p bs : length (set_bit o p bs) = length bs.
Proof. apply length_alter. Qed.

Lemma get_set_bit o p bs : (byte_index o p < length bs)%nat → get_bit o p (set_bit o p bs) = true.
Proof.
  intros [b Hb]%lookup_lt_is_Some. unfold get_bit, set_bit. rewrite list_lookup_alter_eq, Hb. cbn.
  pose proof (Z.mod_pos_bound p 8 ltac:(lia)). rewrite land_bit, Z.lor_spec, Z.shiftl_spec, Z.sub_diag by lia.
  apply orb_true_r.
Qed.

Lemma get_set_bit_mono o p o' p' bs : get_bit o' p' bs = true → get_bit o' p' (set_bit o p bs) = true.
Proof.
  unfold get_bit, set_bit. pose proof (Z.mod_pos_bound p' 8 ltac:(lia)). rewrite !land_bit by lia.
  destruct (decide (byte_index o p = byte_index o' p')) as [E|E].
  - rewrite E, list_lookup_alter_eq. destruct (bs !! _); cbn; [|by rewrite Z.bits_0].
    intros Hb. by rewrite Z.lor_spec, Hb.
  - by rewrite list_lookup_alter_ne.
Qed.

(** Setting the bits of some salts: they are set, and no bit is cleared. *)
Lemma set_bits_spec o (h2 : Z) salts bs :
  Forall (λ s, byte_index o (bit_pos h2 s) < length bs)%nat salts →
  let bs' := for_each salts bs (λ bs s, set_bit o (bit_pos h2 s) bs) in
  length bs' = length bs ∧
  (∀ o' p', get_bit o' p' bs = true → get_bit o' p' bs' = true) ∧
  (∀ s, s ∈ salts → get_bit o (bit_pos h2 s) bs' = true).
Proof.
  cbn. unfold for_each. revert bs. induction salts as [|s salts IH]; intros bs Hf; cbn; [split_and!; [done|done|set_solver]|].
  apply Forall_cons in Hf as [Hs Hf].
  destruct (IH (set_bit o (bit_pos h2 s) bs)) as (Hl & Hm & Hset).
  { eapply Forall_impl; [exact Hf|]. intros s' Hs'. cbn. by rewrite set_bit_length. }
  split_and!.
  - by rewrite Hl, set_bit_length.
  - intros o' p' Hb. by apply Hm, get_set_bit_mono.
  - intros s' [->|Hin]%elem_of_cons; [by apply Hm, get_set_bit|by apply Hset].
Qed.

Lemma sbb_insert_spec f key : sbb_wf f →
  ∃ f', sbb_insert f key = Done f' ∧ sbb_wf f' ∧ might_contain f' key = Done true ∧
    ∀ key', might_contain f key' = Done true → might_contain f' key' = Done true.
Proof.
  intros Hwf. pose proof Hwf as [Hn Hl]. unfold sbb_insert, insert_hashes.
  rewrite (proj2 (Z.eqb_neq _ _)), in_bounds by (done || lia). eexists. split; [done|].
  destruct (set_bits_spec (block_offset f (hash key).1) (hash key).2 SALT (bits f)) as (Hl' & Hm & Hset).
  { apply Forall_forall. intros s _. apply byte_index_bound; [done|]. apply bit_pos_bound. }
  match goal with |- context [sbb_wf ?g] => set (f' := g) in * end.
  assert (sbb_wf f') as Hwf'. { split; [done|]. unfold zlen, f' in *. cbn [bits num_blocks]. by rewrite Hl'. }
  assert (∀ h, block_offset f' h = block_offset f h) as Ho by done. split; [done|].
  unfold might_contain, might_contain_hashes. rewrite (proj2 (Z.eqb_neq (num_blocks f') 0)) by (destruct Hwf'; lia).
  rewrite (proj2 (Z.eqb_neq (num_blocks f) 0)) by lia. split.
  - rewrite in_bounds by done. f_equal. apply forallb_forall. intros s Hs. rewrite Ho. apply Hset. by apply list_elem_of_In.
  - intros key'. rewrite !in_bounds by done. destruct (forallb _ SALT) eqn:Hall; [intros _|done]. f_equal. apply forallb_forall. intros s Hs.
    rewrite Ho. apply Hm. rewrite forallb_forall in Hall. by apply Hall.
Qed.

Context `{CodecLaws SbbFilter}.
Implicit Types m : GranuleBloomFilterManager.

Definition bm_wf m : Prop :=
  map_Forall (λ _ f, sbb_wf f) (bm_cache m) ∧
  map_Forall (λ _ b, ∀ f, decode b = Ok f → sbb_wf f) (granule_filters m).

(** The cached filter of a granule answers for a key. *)
Definition holds m (granule : Z) (key : bytes) : Prop :=
  ∃ f, bm_cache m !! granule = Some f ∧ might_contain f key = Done true.

Lemma granule_filter_wf m g e : bm_wf m → sbb_wf (granule_filter m g e).
Proof.
  intros [Hc Hs]. unfold granule_filter. destruct (bm_cache m !! g) as [f|] eqn:E; [by apply Hc in E|].
  pose proof (optimal_num_blocks_pos e DEFAULT_BF_FPP) as Hpos.
  destruct (granule_filters m !! g) as [b|] eqn:E'; [|by apply SbbFilter_new_wf].
  destruct (decode b) as [f|] eqn:Ed; [by eapply Hs|by apply SbbFilter_new_wf].
Qed.

Lemma insert_into_granule_spec m g e pk : bm_wf m →
  ∃ m', insert_into_granule m g e pk = Done m' ∧ bm_wf m' ∧ granule_filters m' = granule_filters m ∧
    holds m' g pk ∧ ∀ g' k', holds m g' k' → holds m' g' k'.
Proof.
  intros Hwf. destruct (sbb_insert_spec (granule_filter m g e) pk) as (f & Hi & Hf & Hk & Hmono);
    [by apply granule_filter_wf|].
  unfold insert_into_granule. rewrite Hi. eexists. split; [done|]. destruct Hwf as [Hc Hs].
  split_and!; [split; [by apply map_Forall_insert_2|done]|done|exists f; cbn; by rewrite lookup_insert_eq|].
  intros g' k' (f' & Hg & Hk'). destruct (decide (g = g')) as [<-|Hne].
  - exists f. split; [cbn; by rewrite lookup_insert_eq|]. apply Hmono. unfold granule_filter. by rewrite Hg.
  - exists f'. cbn. by rewrite lookup_insert_ne.
Qed.

Lemma insert_all_spec m g e pks : bm_wf m →
  ∃ m', insert_all m g e pks = Done m' ∧ bm_wf m' ∧ granule_filters m' = granule_filters m ∧
    (∀ k, k ∈ pks → holds m' g k) ∧ ∀ g' k', holds m g' k' → holds m' g' k'.
Proof.
  revert m. induction pks as [|pk pks IH]; intros m Hwf; cbn; [exists m; set_solver|].
  destruct (insert_into_granule_spec m g e pk Hwf) as (m1 & -> & Hwf1 & Hs1 & Hk1 & Hm1).
  destruct (IH m1 Hwf1) as (m2 & -> & Hwf2 & Hs2 & Hk2 & Hm2). exists m2.
  split_and!; [done|done|congruence| |auto]. intros k [->|Hin]%elem_of_cons; auto.
Qed.

Lemma flush_entries_spec l fs : (∀ f, is_ok (encode f) = true) → NoDup l.*1 →
  ∃ fs', flush_entries l fs = Done fs' ∧
    (∀ g f, (g, f) ∈ l → ∃ b, encode f = Ok b ∧ fs' !! g = Some b) ∧ (∀ g, g ∉ l.*1 → fs' !! g = fs !! g).
Proof.
  intros Henc. revert fs. induction l as [|[g f] l IH]; intros fs Hnd; cbn; [exists fs; set_solver|].
  apply NoDup_cons in Hnd as [Hg Hnd]. specialize (Henc f) as He. destruct (encode f) as [b|] eqn:E; [|done].
  destruct (IH (<[g := b]> fs) Hnd) as (fs' & -> & Hin & Hout). exists fs'. split_and!; [done| |].
  - intros g' f' [[= -> ->]|Hl]%elem_of_cons; [|by apply Hin]. exists b. split; [done|].
    rewrite Hout by done. by rewrite lookup_insert_eq.
  - intros g' [Hne Hn]%not_elem_of_cons. rewrite Hout by done. by rewrite lookup_insert_ne.
Qed.

Lemma flush_cache_spec `{HashIter} m : (∀ f, is_ok (encode f) = true) →
  ∃ m', flush_cache m = Done m' ∧ ∀ g f, bm_cache m !! g = Some f → get_granule_filter m' g = Some f.
Proof.
  intros Henc. unfold flush_cache.
  destruct (flush_entries_spec (hash_iter (bm_cache m)) (granule_filters m) Henc) as (fs & -> & Hin & _);
    [apply hash_iter_NoDup_fst|].
  eexists. split; [done|]. intros g f Hg. unfold get_granule_filter. cbn.
  destruct (Hin g f) as (b & He & ->); [by apply elem_of_hash_iter|]. by rewrite (decode_encode _ _ He).
Qed.

Lemma insert_all_filters m g e pks m' : insert_all m g e pks = Done m' → granule_filters m' = granule_filters m.
Proof.
  revert m. induction pks as [|pk pks IH]; intros m; cbn; [by intros [= ->]|].
  unfold insert_into_granule. destruct (sbb_insert _ _); [|done]. intros Hi. apply IH in Hi. done.
Qed.
End proofs.

(** * Properties *)

(** A granule's Bloom filter has no false negatives: after a primary-key column
    is inserted and the cache flushed, the stored filter of the granule answers
    yes for every key of the column, whatever else it held before. *)
Theorem bloom_no_false_negatives `{BloomEnv, CodecLaws SbbFilter, Arrow Arr, HashIter}
    (m : GranuleBloomFilterManager) g off (a : Arr) :
  bm_wf m → (∀ f : SbbFilter, is_ok (encode f) = true) →
  ∃ m1 m2, build_for_granule_from_array m g off a = Done m1 ∧ flush_cache m1 = Done m2 ∧
    ∀ i k, 0 ≤ i < arr_len a → pk_bytes g off a i = Some k →
      ∃ f, get_granule_filter m2 g = Some f ∧ might_contain f k = Done true.
Proof.
  intros Hwf Henc. unfold build_for_granule_from_array.
  destruct (insert_all_spec m g (wrap32 rows_per_granule)
              (omap (pk_bytes g off a) (seqZ 0 (arr_len a))) Hwf) as (m1 & -> & _ & _ & Hin & _).
  destruct (flush_cache_spec m1 Henc) as (m2 & Hf & Hget). exists m1, m2. split_and!; [done..|].
  intros i k Hi Hk. destruct (Hin k) as (f & Hc & Hm).
  { apply list_elem_of_omap. exists i. split; [|done]. apply elem_of_seqZ. lia. }
  exists f. split; [by apply Hget|done].
Qed.

(** Compaction never writes the Bloom sidecar of a new segment: the insertions
    go to the cache, and the save is guarded by a test that looks at the stored
    filters only. *)
Theorem bloom_sidecar_not_saved `{BloomEnv, Codec SbbFilter, Codec GranuleBloomFilterManager, HashIter}
    seg col rows g e pks m :
  insert_all (GranuleBloomFilterManager_new seg col rows) g e pks = Done m →
  save_after_compaction m = Done (m, Ok None).
Proof.
  intros Hi%insert_all_filters. unfold save_after_compaction, bm_is_empty.
  by rewrite Hi, bool_decide_true.
Qed.

(** ** Concrete parameters *)

#[export] Instance SbbFilter_countable : Countable SbbFilter.
Proof.
  by refine (inj_countable' (λ f, (entries f, num_blocks f, bits f))
    (λ p, {| entries := p.1.1; num_blocks := p.1.2; bits := p.2 |}) _); intros [].
Defined.

#[export] Instance GranuleBloomFilterManager_eq_dec : EqDecision GranuleBloomFilterManager.
Proof. solve_decision. Defined.
#[export] Instance GranuleBloomFilterManager_countable : Countable GranuleBloomFilterManager.
Proof.
  by refine (inj_countable'
    (λ m, (bm_seg_id m, bm_col_name m, bm_total_rows m, granule_filters m, bm_cache m))
    (λ '(s, c, n, fs, ca), {| bm_seg_id := s; bm_col_name := c; bm_total_rows := n;
                              granule_filters := fs; bm_cache := ca |}) _); intros [].
Defined.

(** A polynomial hash, and the two logarithms that are taken. *)
Definition sample_env : BloomEnv := {|
  f64_ln x := if SFltb x (f64_of_Z 1) then f64_lit (-4605170185988091) 1000000000000000
              else f64_lit 6931471805599453 10000000000000000;
  f64_powi2 x := SFmul 53 1024 x x;
  xxh3_128 key := foldl (λ h b, (h * 309485009821345068724781371 + b + 1) `mod` 2 ^ 128) 7 key
|}.

(** The size for a full granule. *)
Example optimal_num_blocks_granule :
  @optimal_num_blocks sample_env rows_per_granule DEFAULT_BF_FPP = 19631.
Proof. vm_compute. reflexivity. Qed.

(** A filter of two blocks that holds one key and not another. *)
Example might_contain_sample :
  match @sbb_insert sample_env (SbbFilter_new 2) (as_bytes "k1") with
  | Done f => (@might_contain sample_env f (as_bytes "k1"), @might_contain sample_env f (as_bytes "other"))
  | Panic => (Panic, Panic)
  end = (Done true, Done false).
Proof. vm_compute. reflexivity. Qed.

Lemma bloom_no_false_negatives_witness :
  let E := sample_env in let C := countable_codec SbbFilter in
  ∃ m1 m2, build_for_granule_from_array (GranuleBloomFilterManager_new "seg_1" "id" 3) 0 0
             (int_array [Some 5; Some 7; Some 5]) = Done m1 ∧ flush_cache m1 = Done m2 ∧
    ∀ i k, 0 ≤ i < 3 → pk_bytes 0 0 (int_array [Some 5; Some 7; Some 5]) i = Some k →
      ∃ f, get_granule_filter m2 0 = Some f ∧ might_contain f k = Done true.
Proof.
  intros E C. apply (@bloom_no_false_negatives E C (countable_codec_laws SbbFilter)).
  - split; apply map_Forall_empty.
  - done.
Defined.

Lemma bloom_sidecar_not_saved_witness :
  let E := sample_env in let C := countable_codec SbbFilter in
  let C' := countable_codec GranuleBloomFilterManager in
  match insert_all (GranuleBloomFilterManager_new "seg_1" "id" 3) 0 10 [as_bytes "a"; as_bytes "b"] with
  | Done m => save_after_compaction m = Done (m, Ok None)
  | Panic => False
  end.
Proof.
  intros E C C'. destruct (insert_all _ _ _ _) as [m|] eqn:Hi.
  - by apply (bloom_sidecar_not_saved "seg_1" "id" 3 0 10 [as_bytes "a"; as_bytes "b"]).
  - assert (match insert_all (GranuleBloomFilterManager_new "seg_1" "id" 3) 0 10 [as_bytes "a"; as_bytes "b"] with
            | Done _ => true | Panic => false end = true) as Hd by (vm_compute; reflexivity).
    by rewrite Hi in Hd.
Defined.
