(* ===== verification/ZoneMap.v ===== *)
(** Zone maps: the statistics of a column slice (metadata/block_stats.rs), the
    typed comparison of encoded bounds, the block and granule index with its
    builder and its file form (metadata/block_zone_map.rs), and the map per
    segment (metadata/zone_map.rs). *)

From stdpp Require Import base gmap strings list pretty.
From S2P Require Import Prelude Kv Arrow Bloom.

Local Open Scope Z_scope.

(** * Typed comparison of encoded values *)

(** [read_bytes::<N>]: [copy_from_slice] panics when the input is shorter. *)
Definition read_bytes (n : nat) (b : bytes) : outcome bytes :=
  if (length b <? n)%nat then Panic else Done (take n b).

(** An IEEE 754 pattern of [w] bits with [mw] mantissa bits: it is a NaN when the
    magnitude is above that of infinity; two others compare as their signed
    magnitudes, so that both zeros are equal. *)
Definition magnitude (w bits : Z) : Z := bits `mod` 2 ^ (w - 1).
Definition float_is_nan (w mw bits : Z) : bool := (2 ^ (w - 1) - 2 ^ mw) <? magnitude w bits.
Definition float_key (w bits : Z) : Z :=
  if Z.testbit bits (w - 1) then - magnitude w bits else magnitude w bits.

(** [l < r && !l.is_nan() && !r.is_nan()] *)
Definition float_lt (w mw l r : Z) : bool :=
  negb (float_is_nan w mw l) && negb (float_is_nan w mw r) && (float_key w l <? float_key w r).

(** Two fixed-width values read as numbers. *)
Definition num_lt (n : nat) (lt : Z → Z → bool) (l r : bytes) : outcome bool :=
  match read_bytes n l with
  | Panic => Panic
  | Done a => match read_bytes n r with
              | Panic => Panic
              | Done b => Done (lt (from_le_bytes a) (from_le_bytes b))
              end
  end.

Definition signed_lt (n : nat) : bytes → bytes → outcome bool :=
  num_lt n (λ a b, as_signed (8 * Z.of_nat n) a <? as_signed (8 * Z.of_nat n) b).
Definition unsigned_lt (n : nat) : bytes → bytes → outcome bool := num_lt n Z.ltb.

Definition bool_lt (l r : bytes) : bool :=
  match l, r with
  | [], [] => false
  | [], _ => true
  | _, [] => false
  | a :: _, b :: _ => a <? b
  end.

Definition bytes_lt (l r : bytes) (dtype : DataType) : outcome bool :=
  match dtype with
  | Int8 => signed_lt 1 l r
  | Int16 => signed_lt 2 l r
  | Int32 | Decimal32 | Date32 => signed_lt 4 l r
  | Int64 | Decimal64 | Date64 | Timestamp _ => signed_lt 8 l r
  | UInt8 => unsigned_lt 1 l r
  | UInt16 => unsigned_lt 2 l r
  | UInt32 | Time32 => unsigned_lt 4 l r
  | UInt64 | Time64 => unsigned_lt 8 l r
  | Float16 => Done false
  | Float32 => num_lt 4 (float_lt 32 23) l r
  | Float64 => num_lt 8 (float_lt 64 52) l r
  | Utf8 | LargeUtf8 | Binary | LargeBinary | BinaryView | Utf8View => Done (ltb l r)
  | Boolean => Done (bool_lt l r)
  | Decimal128 => signed_lt 16 l r
  | Decimal256 | Interval | Duration => Done (ltb l r)
  | FixedSizeBinary size =>
      let n := if size <? 0 then Nat.min (length l) (length r)
               else Nat.min (Z.to_nat size) (Nat.min (length l) (length r)) in
      Done (ltb (take n l) (take n r))
  | Dictionary _ | Null | OtherType _ => Done false
  end.

Definition bytes_gt (l r : bytes) (t : DataType) : outcome bool := bytes_lt r l t.
Definition outcome_negb (o : outcome bool) : outcome bool :=
  match o with Done b => Done (negb b) | Panic => Panic end.
Definition bytes_ge (l r : bytes) (t : DataType) : outcome bool := outcome_negb (bytes_lt l r t).
Definition bytes_le (l r : bytes) (t : DataType) : outcome bool := outcome_negb (bytes_lt r l t).

(** * Statistics of a slice *)

Record BlockColumnStats := { min_bytes : option bytes; max_bytes : option bytes; null_count : Z }.

Definition no_stats (nulls : Z) : BlockColumnStats :=
  {| min_bytes := None; max_bytes := None; null_count := nulls |}.

(** [merge_with] compares the encoded bounds as raw bytes, whatever their type. *)
Definition merge_with (self other : BlockColumnStats) : BlockColumnStats :=
  {| min_bytes :=
       match min_bytes other, min_bytes self with
       | Some om, Some cur => if ltb om cur then Some om else Some cur
       | Some om, None => Some om
       | None, cur => cur
       end;
     max_bytes :=
       match max_bytes other, max_bytes self with
       | Some om, Some cur => if ltb cur om then Some om else Some cur
       | Some om, None => Some om
       | None, cur => cur
       end;
     null_count := wrap32 (null_count self + null_count other) |}.

Definition merge_all (stats : list BlockColumnStats) : BlockColumnStats :=
  for_each stats (no_stats 0) merge_with.

(** The loops of the macros: the first value initializes both bounds, a later one
    replaces the bound it exceeds. *)
Definition minmax (lt : Value → Value → bool) (vs : list Value) : option (Value * Value) :=
  match vs with
  | [] => None
  | v :: vs' =>
      Some (for_each vs' (v, v) (λ '(mn, mx) x,
              (if lt x mn then x else mn, if lt mx x then x else mx)))
  end.

Definition int_lt (a b : Value) : bool :=
  match a, b with VInt x, VInt y => x <? y | _, _ => false end.
Definition float_value_lt (w mw : Z) (a b : Value) : bool :=
  match a, b with VFloat x, VFloat y => float_lt w mw x y | _, _ => false end.
Definition str_lt (a b : Value) : bool :=
  match a, b with VStr x, VStr y => ltb (as_bytes x) (as_bytes y) | _, _ => false end.

Definition value_nan (w mw : Z) (v : Value) : bool :=
  match v with VFloat x => float_is_nan w mw x | _ => false end.

(** The bytes a bound is stored as, at a width of [n] bytes for the numbers. *)
Definition bound_bytes (n : nat) (v : Value) : bytes :=
  match v with
  | VInt z => to_le_bytes n z
  | VFloat b => to_le_bytes n b
  | VBool b => [if b then 1 else 0]
  | VStr s => as_bytes s
  | VBin b => b
  end.

Definition stats_of (n : nat) (nulls : Z) (p : option (Value * Value)) : BlockColumnStats :=
  match p with
  | Some (mn, mx) => {| min_bytes := Some (bound_bytes n mn); max_bytes := Some (bound_bytes n mx); null_count := nulls |}
  | None => no_stats nulls
  end.

(** Integer and float columns, with their width in bytes. *)
Definition int_width (t : DataType) : option nat :=
  match t with
  | Int8 | UInt8 => Some 1%nat
  | Int16 | UInt16 => Some 2%nat
  | Int32 | UInt32 => Some 4%nat
  | Int64 | UInt64 => Some 8%nat
  | _ => None
  end.
Definition float_width (t : DataType) : option (nat * Z) :=
  match t with
  | Float32 => Some (4%nat, 23)
  | Float64 => Some (8%nat, 52)
  | _ => None
  end.

Section block_stats.
Context `{Arrow Arr}.
Implicit Types a : Arr.

(** The rows of [offset .. offset + len] that the array has. *)
Definition slice_rows a (offset len : Z) : list Z :=
  seqZ offset (Z.min (offset + len) (arr_len a) - offset).

(** Its non-null values, in order. *)
Definition slice_values a (offset len : Z) : list Value :=
  omap (arr_slot a) (slice_rows a offset len).

Definition slice_nulls a (offset len : Z) : Z :=
  zlen (filter (λ i, arr_is_null a i = true) (slice_rows a offset len)).

(** [compute_block_stats].  The integer macro returns from the function itself,
    with a null count of zero, when the slice is empty or has no value; the
    dictionary branch gives up when the first key is null, and counts the keys. *)
Definition compute_block_stats a (offset len : Z) : BlockColumnStats :=
  if len =? 0 then no_stats 0 else
  let nulls := slice_nulls a offset len in
  let non_null := saturating_sub len nulls in
  let vs := slice_values a offset len in
  match arr_type a with
  | Int8 | Int16 | Int32 | Int64 | UInt8 | UInt16 | UInt32 | UInt64 =>
      let n := default 0%nat (int_width (arr_type a)) in
      if bool_decide (slice_rows a offset len = []) || (non_null =? 0) then no_stats 0 else
      match minmax int_lt vs with
      | None => no_stats 0
      | p => stats_of n nulls p
      end
  | Float32 =>
      if bool_decide (slice_rows a offset len = []) || (non_null =? 0) then no_stats (wrap32 (len - non_null)) else
      stats_of 4 nulls (minmax (float_value_lt 32 23) (filter (λ v, value_nan 32 23 v = false) vs))
  | Float64 =>
      if bool_decide (slice_rows a offset len = []) || (non_null =? 0) then no_stats (wrap32 (len - non_null)) else
      stats_of 8 nulls (minmax (float_value_lt 64 52) (filter (λ v, value_nan 64 52 v = false) vs))
  | Dictionary Int32 =>
      match slice_rows a offset len with
      | [] => no_stats nulls
      | i :: _ => if arr_is_null a i then no_stats nulls else stats_of 4 nulls (minmax int_lt vs)
      end
  | Boolean =>
      {| min_bytes := if bool_decide (VBool false ∈ vs) then Some [0] else None;
         max_bytes := if bool_decide (VBool true ∈ vs) then Some [1] else None;
         null_count := nulls |}
  | Utf8 | LargeUtf8 => stats_of 0 nulls (minmax str_lt vs)
  | _ => no_stats nulls
  end.

Definition compute_full_stats a : BlockColumnStats := compute_block_stats a 0 (arr_len a).
End block_stats.

(** * The block index *)

Record BlockStats := {
  row_start : Z;
  row_end : Z;
  bk_min : option bytes;
  bk_max : option bytes;
  bk_nulls : Z
}.

Definition BlockStats_new (rs re : Z) (s : BlockColumnStats) : BlockStats :=
  {| row_start := rs; row_end := re; bk_min := min_bytes s; bk_max := max_bytes s; bk_nulls := null_count s |}.
Definition num_rows (b : BlockStats) : Z := row_end b - row_start b.

Record GranuleStats := {
  granule_id : Z;
  block_size : Z;
  blocks : list BlockStats;
  bloom_filter : option SbbFilter
}.

Definition GranuleStats_new (g bs : Z) : GranuleStats :=
  {| granule_id := g; block_size := bs; blocks := []; bloom_filter := None |}.
Definition add_block (g : GranuleStats) (b : BlockStats) : GranuleStats :=
  {| granule_id := granule_id g; block_size := block_size g; blocks := blocks g ++ [b]; bloom_filter := bloom_filter g |}.
Definition set_bloom (g : GranuleStats) (f : option SbbFilter) : GranuleStats :=
  {| granule_id := granule_id g; block_size := block_size g; blocks := blocks g; bloom_filter := f |}.

Definition sum_rows (bs : list BlockStats) : Z := foldr (λ b n, num_rows b + n) 0 bs.
Definition granule_total_rows (g : GranuleStats) : Z := sum_rows (blocks g).

Section granule.
Context `{BloomEnv}.

Definition init_bloom_filter (g : GranuleStats) (expected : Z) : GranuleStats :=
  set_bloom g (Some (SbbFilter_new (optimal_num_blocks expected DEFAULT_BF_FPP))).

Definition insert_pk (g : GranuleStats) (pk : bytes) : outcome GranuleStats :=
  match bloom_filter g with
  | Some f => match sbb_insert f pk with Done f' => Done (set_bloom g (Some f')) | Panic => Panic end
  | None => Done g
  end.

Definition might_contain_pk (g : GranuleStats) (pk : bytes) : outcome bool :=
  match bloom_filter g with
  | Some f => might_contain f pk
  | None => Done true
  end.

(** [rebuild]: a filter of the right size without any key. *)
Definition granule_rebuild (g : GranuleStats) : GranuleStats :=
  let total_rows := sum_rows (blocks g) in
  if 0 <? total_rows then init_bloom_filter g total_rows else g.
End granule.

Record GranuleZoneMapIndex := {
  zm_magic : Z;
  zm_version : Z;
  zm_col_name : string;
  column_type : DataType;
  zm_block_size : Z;
  zm_granule_size : Z;
  granules : list GranuleStats
}.

Definition ZM_MAGIC : Z := 1112294219.
Definition ZM_VERSION : Z := 3.

Definition GranuleZoneMapIndex_new (col : string) (t : DataType) : GranuleZoneMapIndex :=
  {| zm_magic := ZM_MAGIC; zm_version := ZM_VERSION; zm_col_name := col; column_type := t;
     zm_block_size := DEFAULT_BLOCK_SIZE; zm_granule_size := DEFAULT_GRANULE_SIZE; granules := [] |}.

Definition set_granules (z : GranuleZoneMapIndex) (gs : list GranuleStats) : GranuleZoneMapIndex :=
  {| zm_magic := zm_magic z; zm_version := zm_version z; zm_col_name := zm_col_name z;
     column_type := column_type z; zm_block_size := zm_block_size z;
     zm_granule_size := zm_granule_size z; granules := gs |}.
Definition set_column_type (z : GranuleZoneMapIndex) (t : DataType) : GranuleZoneMapIndex :=
  {| zm_magic := zm_magic z; zm_version := zm_version z; zm_col_name := zm_col_name z;
     column_type := t; zm_block_size := zm_block_size z;
     zm_granule_size := zm_granule_size z; granules := granules z |}.

(** A block may overlap unless it lies below or above the predicate's range. *)
Definition block_may_overlap (t : DataType) (pred_min pred_max : bytes) (b : BlockStats) : outcome bool :=
  match (match bk_max b with Some mx => bytes_lt mx pred_min t | None => Done false end) with
  | Panic => Panic
  | Done true => Done false
  | Done false =>
      match (match bk_min b with Some mn => bytes_lt pred_max mn t | None => Done false end) with
      | Panic => Panic
      | Done below => Done (negb below)
      end
  end.

(** The loop over the blocks of all granules stops at the first that may overlap. *)
Fixpoint any_block (p : BlockStats → outcome bool) (bs : list BlockStats) : outcome bool :=
  match bs with
  | [] => Done false
  | b :: bs' =>
      match p b with
      | Panic => Panic
      | Done true => Done true
      | Done false => any_block p bs'
      end
  end.

Definition all_blocks (z : GranuleZoneMapIndex) : list BlockStats := granules z ≫= blocks.

Definition may_overlap (z : GranuleZoneMapIndex) (pred_min pred_max : bytes) : outcome bool :=
  any_block (block_may_overlap (column_type z) pred_min pred_max) (all_blocks z).

Definition index_total_rows (z : GranuleZoneMapIndex) : Z :=
  foldr (λ g n, granule_total_rows g + n) 0 (granules z).

(** ** The file form *)

Section zm_file.
Context `{BloomEnv} `{Codec GranuleZoneMapIndex}.

(** The Bloom filters are not serialized. *)
Definition strip_blooms (z : GranuleZoneMapIndex) : GranuleZoneMapIndex :=
  set_granules z ((λ g, set_bloom g None) <$> granules z).
Definition rebuild_all (z : GranuleZoneMapIndex) : GranuleZoneMapIndex :=
  set_granules z (granule_rebuild <$> granules z).

Definition zm_to_bytes (z : GranuleZoneMapIndex) : Result bytes :=
  payload <-? map_err (λ e, ECodec ("bincode encode GranuleZoneMapIndex: " +:+ codec_error_display e)) (encode (strip_blooms z));
  Ok (to_le_bytes 4 ZM_MAGIC ++ [ZM_VERSION] ++ [0; 0; 0] ++ payload).

Definition zm_limit : Z := 10 * 1024 * 1024.

(** The lower-case hexadecimal digits of a number below 2 ^ 64, with [0x]. *)
Fixpoint hex_go (fuel : nat) (z : Z) (acc : string) : string :=
  match fuel with
  | O => acc
  | S f =>
      let d := z `mod` 16 in
      let acc' := String (Ascii.ascii_of_N (Z.to_N (if d <? 10 then 48 + d else 87 + d))) acc in
      if z <? 16 then acc' else hex_go f (z `div` 16) acc'
  end.
Definition hex (z : Z) : string := "0x" +:+ hex_go 16 z "".

Definition zm_decode (what : string) (data : bytes) : Result GranuleZoneMapIndex :=
  if zm_limit <? zlen data then
    Err (ECodec ("GranuleZoneMapIndex " +:+ what +:+ " too large: " +:+ pretty (zlen data) +:+ " > "
                 +:+ pretty zm_limit +:+ " bytes"))
  else map_err (λ e, ECodec ("bincode decode GranuleZoneMapIndex: " +:+ codec_error_display e)) (decode data).

Definition zm_from_bytes (data : bytes) : Result GranuleZoneMapIndex :=
  if (8 <=? zlen data) && (from_le_bytes (take 4 data) =? ZM_MAGIC) then
    let header_version := default 0 (data !! 4%nat) in
    if ZM_VERSION <? header_version then
      Err (ECodec ("unsupported GranuleZoneMapIndex version: " +:+ pretty header_version +:+ " (max: "
                   +:+ pretty ZM_VERSION +:+ ")"))
    else
    index <-? zm_decode "payload" (drop 8 data);
    let index := rebuild_all index in
    if negb (zm_version index =? header_version) then
      Err (ECodec ("GranuleZoneMapIndex version mismatch: header=" +:+ pretty header_version
                   +:+ ", payload=" +:+ pretty (zm_version index)))
    else Ok index
  else
    index <-? zm_decode "data" data;
    let index := rebuild_all index in
    if negb (zm_magic index =? ZM_MAGIC) then
      Err (ECodec ("invalid GranuleZoneMapIndex magic: expected " +:+ hex ZM_MAGIC +:+ ", got "
                   +:+ hex (zm_magic index)))
    else Ok (if zm_version index <? 2 then set_column_type index Null else index).
End zm_file.

(** ** The builder *)

Record BlockZoneMapBuilder := {
  b_col_name : string;
  b_column_type : DataType;
  b_block_size : Z;
  b_granule_size : Z;
  max_bytes_per_block : Z;
  block_end_row : Z;
  blocks_flushed_rows : Z;
  pending_rows : Z;
  pending_bytes : Z;
  current_block_stats : BlockColumnStats;
  current_granule : list BlockStats;
  completed_granules : list GranuleStats;
  blocks_in_granule : Z
}.

Definition BlockZoneMapBuilder_new (col : string) (t : DataType) : BlockZoneMapBuilder :=
  {| b_col_name := col; b_column_type := t; b_block_size := DEFAULT_BLOCK_SIZE;
     b_granule_size := DEFAULT_GRANULE_SIZE; max_bytes_per_block := 10 * 1024 * 1024;
     block_end_row := 0; blocks_flushed_rows := 0; pending_rows := 0; pending_bytes := 0;
     current_block_stats := no_stats 0; current_granule := []; completed_granules := [];
     blocks_in_granule := 0 |}.

(** The row counters are u32 in the code and unbounded here: the builders of segments
    of fewer than 2^32 rows in all. *)
Definition flush_block (b : BlockZoneMapBuilder) : BlockZoneMapBuilder :=
  if pending_rows b =? 0 then b else
  let rs := blocks_flushed_rows b in
  {| b_col_name := b_col_name b; b_column_type := b_column_type b; b_block_size := b_block_size b;
     b_granule_size := b_granule_size b; max_bytes_per_block := max_bytes_per_block b;
     block_end_row := block_end_row b;
     blocks_flushed_rows := blocks_flushed_rows b + pending_rows b;
     pending_rows := 0; pending_bytes := 0; current_block_stats := no_stats 0;
     current_granule := current_granule b ++ [BlockStats_new rs (rs + pending_rows b) (current_block_stats b)];
     completed_granules := completed_granules b; blocks_in_granule := blocks_in_granule b + 1 |}.

Section builder.
Context `{BloomEnv} `{Arrow Arr}.

Definition flush_granule (b : BlockZoneMapBuilder) : BlockZoneMapBuilder :=
  if bool_decide (current_granule b = []) then b else
  let expected_entries := sum_rows (current_granule b) in
  let granule := for_each (current_granule b)
                   (GranuleStats_new (wrap32 (zlen (completed_granules b))) (b_block_size b)) add_block in
  {| b_col_name := b_col_name b; b_column_type := b_column_type b; b_block_size := b_block_size b;
     b_granule_size := b_granule_size b; max_bytes_per_block := max_bytes_per_block b;
     block_end_row := block_end_row b; blocks_flushed_rows := blocks_flushed_rows b;
     pending_rows := pending_rows b; pending_bytes := pending_bytes b;
     current_block_stats := current_block_stats b; current_granule := [];
     completed_granules := completed_granules b ++ [init_bloom_filter granule expected_entries];
     blocks_in_granule := 0 |}.

(** Flush the block, and the granule when it is complete. *)
Definition flush_full (b : BlockZoneMapBuilder) : BlockZoneMapBuilder :=
  let b1 := flush_block b in
  if b_granule_size b1 <=? blocks_in_granule b1 then flush_granule b1 else b1.

Definition add_pending (b : BlockZoneMapBuilder) (n : Z) (s : BlockColumnStats) : BlockZoneMapBuilder :=
  {| b_col_name := b_col_name b; b_column_type := b_column_type b; b_block_size := b_block_size b;
     b_granule_size := b_granule_size b; max_bytes_per_block := max_bytes_per_block b;
     block_end_row := block_end_row b; blocks_flushed_rows := blocks_flushed_rows b;
     pending_rows := pending_rows b + n; pending_bytes := pending_bytes b + n * 8;
     current_block_stats := merge_with (current_block_stats b) s;
     current_granule := current_granule b; completed_granules := completed_granules b;
     blocks_in_granule := blocks_in_granule b |}.

Definition set_pending_rows (b : BlockZoneMapBuilder) (n : Z) : BlockZoneMapBuilder :=
  {| b_col_name := b_col_name b; b_column_type := b_column_type b; b_block_size := b_block_size b;
     b_granule_size := b_granule_size b; max_bytes_per_block := max_bytes_per_block b;
     block_end_row := block_end_row b; blocks_flushed_rows := blocks_flushed_rows b;
     pending_rows := n; pending_bytes := pending_bytes b;
     current_block_stats := current_block_stats b; current_granule := current_granule b;
     completed_granules := completed_granules b; blocks_in_granule := blocks_in_granule b |}.

Definition set_end_row (b : BlockZoneMapBuilder) (n : Z) : BlockZoneMapBuilder :=
  {| b_col_name := b_col_name b; b_column_type := b_column_type b; b_block_size := b_block_size b;
     b_granule_size := b_granule_size b; max_bytes_per_block := max_bytes_per_block b;
     block_end_row := n; blocks_flushed_rows := blocks_flushed_rows b;
     pending_rows := pending_rows b; pending_bytes := pending_bytes b;
     current_block_stats := current_block_stats b; current_granule := current_granule b;
     completed_granules := completed_granules b; blocks_in_granule := blocks_in_granule b |}.

Definition rows_can_add (b : BlockZoneMapBuilder) (len consumed : Z) : Z :=
  Z.min (Z.min (wrap32 (len - consumed)) (b_block_size b - pending_rows b))
        (wrap32 (Z.max (saturating_sub (max_bytes_per_block b) (pending_bytes b) `div` 8) 1)).

(** The loop of [append_column]; [None] when the bound runs out. *)
Fixpoint append_loop (fuel : nat) (b : BlockZoneMapBuilder) (col : Arr) (consumed : Z)
    : option BlockZoneMapBuilder :=
  if consumed <? arr_len col then
    match fuel with
    | O => None
    | S fuel' =>
        let b1 := if (b_block_size b <=? pending_rows b) || (max_bytes_per_block b <=? pending_bytes b)
                  then flush_full b else b in
        let n := rows_can_add b1 (arr_len col) consumed in
        if n =? 0 then append_loop fuel' (flush_full (set_pending_rows b1 (b_block_size b1))) col consumed
        else append_loop fuel' (add_pending b1 n (compute_block_stats col consumed n)) col (consumed + n)
    end
  else Some (set_end_row b (Z.max (block_end_row b) consumed)).

Definition append_column (b : BlockZoneMapBuilder) (col : Arr) : option BlockZoneMapBuilder :=
  append_loop (Z.to_nat (arr_len col)) b col 0.

Definition append_batch (b : BlockZoneMapBuilder) (col : Arr) : option BlockZoneMapBuilder :=
  match append_column b col with
  | None => None
  | Some b1 => Some (flush_granule (if 0 <? pending_rows b1 then flush_block b1 else b1))
  end.

Definition finalize (b : BlockZoneMapBuilder) : GranuleZoneMapIndex :=
  let b1 := if 0 <? pending_rows b then flush_block b else b in
  let b2 := if negb (bool_decide (current_granule b1 = [])) || (0 <? blocks_in_granule b1)
            then flush_granule b1 else b1 in
  set_granules (GranuleZoneMapIndex_new (b_col_name b2) (b_column_type b2)) (completed_granules b2).
End builder.

(** * The map of a segment *)

Record ColumnStats := {
  column_id : Z;
  cs_min : option bytes;
  cs_max : option bytes;
  cs_null_count : Z;
  nan_count : Z;
  cs_type : DataType
}.

Abbreviation ZoneMapStats := (list ColumnStats).

(** [update_col] on the statistics of the column: the bounds are combined by raw
    byte comparison. *)
Definition update_stats (cs : ColumnStats) (s : BlockColumnStats) : ColumnStats :=
  {| column_id := column_id cs;
     cs_min := match min_bytes s, cs_min cs with
               | Some b, Some e => Some (if ltb b e then b else e)
               | Some b, None => Some b
               | None, e => e
               end;
     cs_max := match max_bytes s, cs_max cs with
               | Some b, Some e => Some (if ltb e b then b else e)
               | Some b, None => Some b
               | None, e => e
               end;
     cs_null_count := cs_null_count cs + null_count s;
     nan_count := nan_count cs; cs_type := cs_type cs |}.

Fixpoint update_col `{Arrow Arr} (z : ZoneMapStats) (col : Z) (a : Arr) : ZoneMapStats :=
  match z with
  | [] => [update_stats {| column_id := col; cs_min := None; cs_max := None; cs_null_count := 0;
                           nan_count := 0; cs_type := arr_type a |} (compute_full_stats a)]
  | cs :: z' => if column_id cs =? col then update_stats cs (compute_full_stats a) :: z'
                else cs :: update_col z' col a
  end.

Definition stats_may_overlap (cs : ColumnStats) (pred_min pred_max : bytes) : outcome bool :=
  block_may_overlap (cs_type cs) pred_min pred_max
    {| row_start := 0; row_end := 0; bk_min := cs_min cs; bk_max := cs_max cs; bk_nulls := 0 |}.

Definition segment_may_overlap (z : ZoneMapStats) (col : Z) (pred_min pred_max : bytes) : outcome bool :=
  match list_find (λ c, column_id c = col) z with
  | Some (_, cs) => stats_may_overlap cs pred_min pred_max
  | None => Done true
  end.

Definition may_overlap_by_col_idx (z : ZoneMapStats) (col_idx : Z) (pred_min pred_max : bytes) : outcome bool :=
  match z !! Z.to_nat col_idx with
  | Some cs => stats_may_overlap cs pred_min pred_max
  | None => Done true
  end.

(** * Order of encoded values *)

Lemma read_bytes_enc n x : read_bytes n (to_le_bytes n x) = Done (to_le_bytes n x).
Proof.
  unfold read_bytes. rewrite to_le_bytes_length, Nat.ltb_irrefl. f_equal.
  apply take_ge. by rewrite to_le_bytes_length.
Qed.

Lemma num_lt_enc n lt x y :
  num_lt n lt (to_le_bytes n x) (to_le_bytes n y) =
  Done (lt (x `mod` 256 ^ Z.of_nat n) (y `mod` 256 ^ Z.of_nat n)).
Proof. unfold num_lt. by rewrite !read_bytes_enc, !from_to_le_bytes_mod. Qed.

(** The values of a column type, and the key they are ordered by: a NaN has none. *)
Definition int_range (t : DataType) : option (Z * Z) :=
  match t with
  | Int8 => Some (- 2 ^ 7, 2 ^ 7)
  | Int16 => Some (- 2 ^ 15, 2 ^ 15)
  | Int32 => Some (- 2 ^ 31, 2 ^ 31)
  | Int64 => Some (- 2 ^ 63, 2 ^ 63)
  | UInt8 => Some (0, 2 ^ 8)
  | UInt16 => Some (0, 2 ^ 16)
  | UInt32 => Some (0, 2 ^ 32)
  | UInt64 => Some (0, 2 ^ 64)
  | _ => None
  end.

Definition has_type (t : DataType) (v : Value) : Prop :=
  match v with
  | VInt z => match int_range t with Some (lo, hi) => lo ≤ z < hi | None => False end
  | VFloat b => match t with Float32 => 0 ≤ b < 2 ^ 32 | Float64 => 0 ≤ b < 2 ^ 64 | _ => False end
  | VBool _ => t = Boolean
  | VStr _ => t = Utf8 ∨ t = LargeUtf8
  | VBin _ => t = Binary ∨ t = LargeBinary
  end.

Definition order_key (t : DataType) (v : Value) : option (list Z) :=
  match v, t with
  | VInt z, _ => Some [z]
  | VFloat b, Float32 => if float_is_nan 32 23 b then None else Some [float_key 32 b]
  | VFloat b, Float64 => if float_is_nan 64 52 b then None else Some [float_key 64 b]
  | VBool b, _ => Some [if b then 1 else 0]
  | VStr s, _ => Some (as_bytes s)
  | VBin b, _ => Some b
  | _, _ => None
  end.

Definition bound_width (t : DataType) : nat :=
  default (default 0%nat (fst <$> float_width t)) (int_width t).
Definition enc (t : DataType) (v : Value) : bytes := bound_bytes (bound_width t) v.

Definition key_lt (t : DataType) (v w : Value) : bool :=
  match order_key t v, order_key t w with
  | Some a, Some b => ltb a b
  | _, _ => false
  end.

Lemma ltb_singleton (x y : Z) : ltb [x] [y] = (x <? y).
Proof.
  unfold ltb, Z.ltb. change (cmp [x] [y]) with (match (x ?= y) with Eq => Eq | c => c end).
  by destruct (x ?= y).
Qed.

Lemma signed_lt_enc n x y : 0 < Z.of_nat n →
  - 2 ^ (8 * Z.of_nat n - 1) ≤ x < 2 ^ (8 * Z.of_nat n - 1) →
  - 2 ^ (8 * Z.of_nat n - 1) ≤ y < 2 ^ (8 * Z.of_nat n - 1) →
  signed_lt n (to_le_bytes n x) (to_le_bytes n y) = Done (ltb [x] [y]).
Proof.
  intros Hn Hx Hy. unfold signed_lt. rewrite num_lt_enc, ltb_singleton.
  assert (256 ^ Z.of_nat n = 2 ^ (8 * Z.of_nat n)) as ->.
  { change 256 with (2 ^ 8). rewrite <- Z.pow_mul_r by lia. done. }
  rewrite !as_signed_mod by lia. done.
Qed.

Lemma unsigned_lt_enc n x y : 0 ≤ x < 256 ^ Z.of_nat n → 0 ≤ y < 256 ^ Z.of_nat n →
  unsigned_lt n (to_le_bytes n x) (to_le_bytes n y) = Done (ltb [x] [y]).
Proof. intros Hx Hy. unfold unsigned_lt. by rewrite num_lt_enc, ltb_singleton, !Z.mod_small. Qed.

Lemma float_lt_key w mw n x y : 256 ^ Z.of_nat n = 2 ^ w → 0 ≤ x < 2 ^ w → 0 ≤ y < 2 ^ w →
  num_lt n (float_lt w mw) (to_le_bytes n x) (to_le_bytes n y) =
  Done (match (if float_is_nan w mw x then None else Some [float_key w x]),
              (if float_is_nan w mw y then None else Some [float_key w y]) with
        | Some a, Some b => ltb a b
        | _, _ => false
        end).
Proof.
  intros Hw Hx Hy. rewrite num_lt_enc, Hw, !Z.mod_small by done. unfold float_lt.
  destruct (float_is_nan w mw x), (float_is_nan w mw y); try done. by rewrite ltb_singleton.
Qed.

(** The comparison of two encoded values of a column type is the comparison of
    their keys, and it does not panic. *)
Lemma bytes_lt_enc t v w : has_type t v → has_type t w →
  bytes_lt (enc t v) (enc t w) t = Done (key_lt t v w).
Proof.
  unfold enc, key_lt. destruct v as [x|x|x|x|x], w as [y|y|y|y|y]; cbn [has_type bound_bytes];
    intros Hv Hw; destruct t; try done; cbn [bytes_lt int_range] in *; try (destruct Hv; done); try (destruct Hw; done).
  all: try (apply (signed_lt_enc 1); cbn; lia); try (apply (signed_lt_enc 2); cbn; lia);
    try (apply (signed_lt_enc 4); cbn; lia); try (apply (signed_lt_enc 8); cbn; lia);
    try (apply (unsigned_lt_enc 1); cbn; lia); try (apply (unsigned_lt_enc 2); cbn; lia);
    try (apply (unsigned_lt_enc 4); cbn; lia); try (apply (unsigned_lt_enc 8); cbn; lia).
  - by apply (float_lt_key 32 23 4).
  - by apply (float_lt_key 64 52 8).
  - by destruct x, y.
Qed.

(** * The bounds of a slice *)

Lemma ltb_false_trans `{CmpLaws K} (x y z : K) : ltb y x = false → ltb z y = false → ltb z x = false.
Proof.
  intros Hyx Hzy. destruct (ltb z x) eqn:E; [|done]. destruct (ltb_split z x y E); congruence.
Qed.

Section minmax.
Context `{CmpLaws K} (key : Value → K) (lt : Value → Value → bool).

(** Both bounds are among the values, and no value is outside of them. *)
Lemma minmax_spec vs : (∀ v w, v ∈ vs → w ∈ vs → lt v w = ltb (key v) (key w)) →
  match minmax lt vs with
  | None => vs = []
  | Some (mn, mx) => mn ∈ vs ∧ mx ∈ vs ∧
      ∀ v, v ∈ vs → ltb (key v) (key mn) = false ∧ ltb (key mx) (key v) = false
  end.
Proof.
  destruct vs as [|v0 vs0]; [done|]. intros Hlt. cbn [minmax]. unfold for_each.
  enough (∀ l dn mn mx, dn ++ l ⊆ v0 :: vs0 → mn ∈ dn → mx ∈ dn →
    (∀ v, v ∈ dn → ltb (key v) (key mn) = false ∧ ltb (key mx) (key v) = false) →
    match foldl (λ '(mn, mx) x, (if lt x mn then x else mn, if lt mx x then x else mx)) (mn, mx) l with
    | (mn', mx') => mn' ∈ dn ++ l ∧ mx' ∈ dn ++ l ∧
        ∀ v, v ∈ dn ++ l → ltb (key v) (key mn') = false ∧ ltb (key mx') (key v) = false
    end) as Hl.
  { apply (Hl vs0 [v0]); [done|set_solver..|]. intros v ->%list_elem_of_singleton. by rewrite !ltb_irrefl. }
  induction l as [|x l IH]; intros dn mn mx Hsub Hmn Hmx Hb; cbn; [by rewrite app_nil_r|].
  rewrite (cons_middle x dn l), (app_assoc dn [x] l). rewrite (cons_middle x dn l), (app_assoc dn [x] l) in Hsub.
  assert (∀ v, v ∈ dn ++ [x] → v ∈ v0 :: vs0) as Hin by set_solver.
  rewrite (Hlt x mn), (Hlt mx x) by (apply Hin; set_solver). apply IH; [done|..].
  - destruct (ltb _ _); set_solver.
  - destruct (ltb _ _); set_solver.
  - intros v Hv. assert (ltb (key v) (key mn) = false ∧ ltb (key mx) (key v) = false ∨ v = x) as Hc
      by (apply elem_of_app in Hv as [Hv|Hv%list_elem_of_singleton]; auto). split.
    + destruct (ltb (key x) (key mn)) eqn:E; destruct Hc as [[Hc _]| ->]; try done; [|by rewrite ltb_irrefl].
      destruct (ltb (key v) (key x)) eqn:E'; [|done].
      exfalso. apply ltb_lt in E, E'. assert (ltb (key v) (key mn) = true) by (apply ltb_lt; by eapply cmp_lt_trans).
      congruence.
    + destruct (ltb (key mx) (key x)) eqn:E; destruct Hc as [[_ Hc]| ->]; try done; [|by rewrite ltb_irrefl].
      destruct (ltb (key x) (key v)) eqn:E'; [|done].
      exfalso. apply ltb_lt in E, E'. assert (ltb (key mx) (key v) = true) by (apply ltb_lt; by eapply cmp_lt_trans).
      congruence.
Qed.
End minmax.

(** A pair of bounds encloses the keys of a list of values: a bound that is there
    is the encoding of a typed value, and no value's key is outside. *)
Definition encloses (t : DataType) (mn mx : option bytes) (vs : list Value) : Prop :=
  (∀ b, mn = Some b → ∃ m k, b = enc t m ∧ has_type t m ∧ order_key t m = Some k ∧
     ∀ v kv, v ∈ vs → order_key t v = Some kv → ltb kv k = false) ∧
  (∀ b, mx = Some b → ∃ m k, b = enc t m ∧ has_type t m ∧ order_key t m = Some k ∧
     ∀ v kv, v ∈ vs → order_key t v = Some kv → ltb k kv = false).

Lemma encloses_none t vs : encloses t None None vs.
Proof. by split. Qed.

(** A predicate range that contains a value's key is not excluded by bounds that
    enclose the value. *)
Lemma encloses_overlap t mn mx vs v k lo klo hi khi rs re n :
  encloses t mn mx vs → v ∈ vs → order_key t v = Some k →
  has_type t lo → order_key t lo = Some klo → ltb k klo = false →
  has_type t hi → order_key t hi = Some khi → ltb khi k = false →
  block_may_overlap t (enc t lo) (enc t hi)
    {| row_start := rs; row_end := re; bk_min := mn; bk_max := mx; bk_nulls := n |} = Done true.
Proof.
  intros [Hmn Hmx] Hv Hk Hlo Hklo Hl Hhi Hkhi Hh. unfold block_may_overlap; cbn.
  assert (match mx with Some b => bytes_lt b (enc t lo) t | None => Done false end = Done false) as ->.
  { destruct mx as [b|]; [|done]. destruct (Hmx b eq_refl) as (m & km & -> & Hm & Hkm & Hall).
    rewrite bytes_lt_enc by done. unfold key_lt. rewrite Hkm, Hklo. f_equal.
    eapply ltb_false_trans; [exact Hl|]. by eapply Hall. }
  assert (match mn with Some b => bytes_lt (enc t hi) b t | None => Done false end = Done false) as ->; [|done].
  destruct mn as [b|]; [|done]. destruct (Hmn b eq_refl) as (m & km & -> & Hm & Hkm & Hall).
  rewrite bytes_lt_enc by done. unfold key_lt. rewrite Hkm, Hkhi. f_equal.
  eapply ltb_false_trans; [|exact Hh]. by eapply Hall.
Qed.

(** With enclosing bounds the test does not panic on encoded values. *)
Lemma encloses_no_panic t mn mx vs lo hi rs re n : encloses t mn mx vs → has_type t lo → has_type t hi →
  ∃ b, block_may_overlap t (enc t lo) (enc t hi)
    {| row_start := rs; row_end := re; bk_min := mn; bk_max := mx; bk_nulls := n |} = Done b.
Proof.
  intros [Hmn Hmx] Hlo Hhi. unfold block_may_overlap; cbn.
  destruct mx as [b|]; [destruct (Hmx b eq_refl) as (m & km & -> & Hm & _); rewrite bytes_lt_enc by done;
    destruct (key_lt t m lo); [by eexists|]|];
    (destruct mn as [b|]; [destruct (Hmn b eq_refl) as (m' & km' & -> & Hm' & _);
       rewrite bytes_lt_enc by done|]; by eexists).
Qed.

(** The bounds that [minmax] finds among [ws], encoded, enclose [vs] when [ws]
    holds all the values that have a key. *)
Lemma stats_of_encloses t n nulls lt vs ws :
  bound_width t = n → Forall (has_type t) ws → Forall (λ w, is_Some (order_key t w)) ws →
  (∀ v, v ∈ vs → is_Some (order_key t v) → v ∈ ws) →
  (∀ v w, v ∈ ws → w ∈ ws → lt v w = key_lt t v w) →
  let s := stats_of n nulls (minmax lt ws) in encloses t (min_bytes s) (max_bytes s) vs.
Proof.
  intros <- Hty Hkey Hin Hlt. rewrite Forall_forall in Hty, Hkey.
  pose proof (minmax_spec (λ v, default [] (order_key t v)) lt ws) as Hmm.
  destruct (minmax lt ws) as [[mn mx]|]; [|apply encloses_none].
  destruct Hmm as (Hmn & Hmx & Hall).
  { intros v w Hv Hw. rewrite Hlt by done. unfold key_lt.
    destruct (Hkey v Hv) as [a ->], (Hkey w Hw) as [b ->]. done. }
  destruct (Hkey mn Hmn) as [kn Hkn], (Hkey mx Hmx) as [kx Hkx].
  split; intros b [= <-].
  - exists mn, kn. split_and!; [done|by apply Hty|done|]. intros v kv Hv Hkv.
    destruct (Hall v) as [Hlo _]; [apply Hin; [done|by eexists]|]. by rewrite Hkv, Hkn in Hlo.
  - exists mx, kx. split_and!; [done|by apply Hty|done|]. intros v kv Hv Hkv.
    destruct (Hall v) as [_ Hhi]; [apply Hin; [done|by eexists]|]. by rewrite Hkv, Hkx in Hhi.
Qed.

Section stats_proofs.
Context `{Arrow Arr}.
Implicit Types a : Arr.

(** The slots of an array hold values of its type. *)
Definition typed_array a : Prop := ∀ i v, arr_slot a i = Some v → has_type (arr_type a) v.

Lemma slice_values_typed a off len : typed_array a → Forall (has_type (arr_type a)) (slice_values a off len).
Proof.
  intros Ht. apply Forall_forall. intros v (i & _ & Hi)%list_elem_of_omap. by eapply Ht.
Qed.

Lemma elem_of_slice_values a off len i v : off ≤ i < off + len → i < arr_len a →
  arr_slot a i = Some v → v ∈ slice_values a off len.
Proof.
  intros Hi Hl Hv. apply list_elem_of_omap. exists i. split; [|done]. apply elem_of_seqZ. lia.
Qed.

Lemma int_stats_enclose a off len nulls : typed_array a → is_Some (int_range (arr_type a)) →
  let s := match minmax int_lt (slice_values a off len) with
           | None => no_stats 0
           | p => stats_of (default 0%nat (int_width (arr_type a))) nulls p
           end in
  encloses (arr_type a) (min_bytes s) (max_bytes s) (slice_values a off len).
Proof.
  intros Ht Hr. pose proof (slice_values_typed a off len Ht) as Hty.
  assert (∀ v, v ∈ slice_values a off len → ∃ z, v = VInt z) as Hint.
  { intros v Hv. rewrite Forall_forall in Hty. apply Hty in Hv. destruct Hr as [r Hr].
    destruct v; [by eexists|..]; cbn in Hv; destruct (arr_type a); try done; destruct Hv; done. }
  pose proof (stats_of_encloses (arr_type a) (default 0%nat (int_width (arr_type a))) nulls int_lt
                (slice_values a off len) (slice_values a off len)) as Hs.
  destruct (minmax int_lt _) as [p|]; [|apply encloses_none]. apply Hs; [|done|..].
  - by destruct Hr as [r Hr]; destruct (arr_type a).
  - apply Forall_forall. intros v (z & ->)%Hint. by eexists.
  - done.
  - intros v w (x & ->)%Hint (y & ->)%Hint. cbn. unfold key_lt; cbn. by rewrite ltb_singleton.
Qed.

(** The bounds of a float column enclose the values that are not NaN. *)
Lemma float_stats_enclose a off len nulls n w mw : typed_array a →
  (arr_type a = Float32 ∧ n = 4%nat ∧ w = 32 ∧ mw = 23) ∨
  (arr_type a = Float64 ∧ n = 8%nat ∧ w = 64 ∧ mw = 52) →
  let s := stats_of n nulls (minmax (float_value_lt w mw)
             (filter (λ v, value_nan w mw v = false) (slice_values a off len))) in
  encloses (arr_type a) (min_bytes s) (max_bytes s) (slice_values a off len).
Proof.
  intros Ht Hc. pose proof (slice_values_typed a off len Ht) as Hty. rewrite Forall_forall in Hty.
  assert (∀ v, v ∈ slice_values a off len → ∃ b, v = VFloat b ∧
    order_key (arr_type a) (VFloat b) = (if float_is_nan w mw b then None else Some [float_key w b])) as Hf.
  { intros v Hv. apply Hty in Hv.
    destruct Hc as [(E & _ & -> & ->)|(E & _ & -> & ->)]; rewrite E in *; destruct v; cbn in Hv; try done;
      try (destruct Hv; done); by eexists. }
  apply stats_of_encloses.
  - by destruct Hc as [(-> & -> & _)|(-> & -> & _)].
  - apply Forall_forall. intros v [_ Hv]%list_elem_of_filter. auto.
  - apply Forall_forall. intros v [Hn Hv]%list_elem_of_filter. destruct (Hf v Hv) as (b & -> & ->).
    cbn in Hn. rewrite Hn. by eexists.
  - intros v Hv Hk. apply list_elem_of_filter. split; [|done]. destruct (Hf v Hv) as (b & -> & Hb).
    rewrite Hb in Hk. cbn. by destruct (float_is_nan w mw b); [destruct Hk|].
  - intros v v' [Hn Hv]%list_elem_of_filter [Hn' Hv']%list_elem_of_filter.
    destruct (Hf v Hv) as (b & -> & Hb), (Hf v' Hv') as (b' & -> & Hb'). cbn in Hn, Hn'.
    unfold key_lt. rewrite Hb, Hb', Hn, Hn'. cbn. unfold float_lt. by rewrite Hn, Hn', ltb_singleton.
Qed.

Lemma str_stats_enclose a off len nulls : typed_array a → arr_type a = Utf8 ∨ arr_type a = LargeUtf8 →
  let s := stats_of 0 nulls (minmax str_lt (slice_values a off len)) in
  encloses (arr_type a) (min_bytes s) (max_bytes s) (slice_values a off len).
Proof.
  intros Ht Hc. pose proof (slice_values_typed a off len Ht) as Hty.
  assert (∀ v, v ∈ slice_values a off len → ∃ x, v = VStr x) as Hstr.
  { intros v Hv. rewrite Forall_forall in Hty. apply Hty in Hv.
    destruct Hc as [Hc|Hc]; rewrite Hc in Hv; destruct v; cbn in Hv; try done; try (destruct Hv; done); by eexists. }
  apply stats_of_encloses; [by destruct Hc as [-> | ->]|done| |done|].
  - apply Forall_forall. intros v (x & ->)%Hstr. by eexists.
  - intros v w (x & ->)%Hstr (y & ->)%Hstr. done.
Qed.

Lemma bool_stats_enclose a off len : typed_array a → arr_type a = Boolean →
  encloses (arr_type a)
    (if bool_decide (VBool false ∈ slice_values a off len) then Some [0] else None)
    (if bool_decide (VBool true ∈ slice_values a off len) then Some [1] else None) (slice_values a off len).
Proof.
  intros Ht Hb. pose proof (slice_values_typed a off len Ht) as Hty. rewrite Forall_forall, Hb in Hty.
  rewrite Hb. split; case_bool_decide; try done; intros b [= <-].
  - exists (VBool false), [0]. split_and!; [done..|]. intros v kv Hv%Hty Hk. destruct v as [| |[]| |]; cbn in *;
      try done; try (destruct Hv; done); by simplify_eq.
  - exists (VBool true), [1]. split_and!; [done..|]. intros v kv Hv%Hty Hk. destruct v as [| |[]| |]; cbn in *;
      try done; try (destruct Hv; done); by simplify_eq.
Qed.

(** The statistics of a slice enclose its values. *)
Lemma compute_block_stats_enclose a off len : typed_array a →
  encloses (arr_type a) (min_bytes (compute_block_stats a off len)) (max_bytes (compute_block_stats a off len))
    (slice_values a off len).
Proof.
  intros Ht. unfold compute_block_stats. destruct (len =? 0); [apply encloses_none|].
  destruct (arr_type a) as [| | | | | | | | | | | | | | | | | | | | | | | | | | | | | |k| |] eqn:Et;
    try apply encloses_none; rewrite <- Et;
    try (destruct (_ || _); [apply encloses_none|]; apply int_stats_enclose; [done|rewrite Et; by eexists]);
    try (destruct (_ || _); [apply encloses_none|]; apply float_stats_enclose; auto);
    try (apply str_stats_enclose; auto; fail); try (by apply bool_stats_enclose).
  pose proof (slice_values_typed a off len Ht) as Hty. rewrite Et in Hty.
  assert (slice_values a off len = []) as ->.
  { destruct (slice_values a off len) as [|v vs]; [done|]. apply Forall_cons in Hty as [Hv _].
    destruct v; cbn in Hv; try done; destruct Hv; done. }
  destruct k; try apply encloses_none. destruct (slice_rows a off len); [apply encloses_none|].
  destruct (arr_is_null a z); apply encloses_none.
Qed.
End stats_proofs.

(** * The builder *)

Section builder_proofs.
Context `{BloomEnv} `{ArrowLaws Arr}.
Implicit Types (b : BlockZoneMapBuilder) (col : Arr).

(** All blocks flushed so far, in order. *)
Definition flushed b : list BlockStats := (completed_granules b ≫= blocks) ++ current_granule b.

(** What flushing a granule leaves alone. *)
Definition core b :=
  (b_col_name b, b_column_type b, b_block_size b, max_bytes_per_block b, blocks_flushed_rows b,
   (pending_rows b, pending_bytes b, current_block_stats b)).

Lemma add_blocks g bs : blocks (for_each bs g add_block) = blocks g ++ bs.
Proof.
  unfold for_each. revert g. induction bs as [|b bs IH]; intros g; cbn; [by rewrite app_nil_r|].
  rewrite IH. cbn. by rewrite <- app_assoc.
Qed.

Lemma flush_granule_flushed b : flushed (flush_granule b) = flushed b ∧ core (flush_granule b) = core b.
Proof.
  unfold flush_granule, flushed. case_bool_decide as E; [done|]. split; [|done]. cbn.
  rewrite bind_app, app_nil_r. f_equal. cbn. rewrite add_blocks. cbn. by rewrite app_nil_r.
Qed.

Lemma flush_full_flushed b : flushed (flush_full b) = flushed (flush_block b) ∧ core (flush_full b) = core (flush_block b).
Proof. unfold flush_full. destruct (_ <=? _); [apply flush_granule_flushed|done]. Qed.

Lemma flush_block_flushed b : 0 < pending_rows b →
  flushed (flush_block b) = flushed b ++
    [BlockStats_new (blocks_flushed_rows b) (blocks_flushed_rows b + pending_rows b) (current_block_stats b)] ∧
  core (flush_block b) =
    (b_col_name b, b_column_type b, b_block_size b, max_bytes_per_block b,
     blocks_flushed_rows b + pending_rows b, (0, 0, no_stats 0)).
Proof.
  intros Hp. unfold flush_block, flushed. rewrite (proj2 (Z.eqb_neq _ _)) by lia. cbn.
  split; [by rewrite app_assoc|done].
Qed.

(** Blocks that cover the rows from [lo] to [hi] without gap or overlap. *)
Fixpoint tiles (lo hi : Z) (bs : list BlockStats) : Prop :=
  match bs with
  | [] => lo = hi
  | b :: bs' => row_start b = lo ∧ lo < row_end b ∧ tiles (row_end b) hi bs'
  end.

Lemma tiles_app lo mid hi bs1 bs2 : tiles lo mid bs1 → tiles mid hi bs2 → tiles lo hi (bs1 ++ bs2).
Proof.
  revert lo. induction bs1 as [|b bs1 IH]; intros lo; cbn; [by intros ->|]. intros (? & ? & ?) ?. auto.
Qed.

Lemma tiles_covers lo hi bs i : tiles lo hi bs → lo ≤ i < hi →
  ∃ blk, blk ∈ bs ∧ row_start blk ≤ i < row_end blk.
Proof.
  revert lo. induction bs as [|b bs IH]; intros lo; cbn; [lia|]. intros (Hs & Hlt & Ht) Hi.
  destruct (Z.lt_ge_cases i (row_end b)).
  - exists b. split; [by left|lia].
  - destruct (IH _ Ht) as (b' & Hb' & ?); [lia|]. exists b'. split; [by right|done].
Qed.

(** A block whose bounds are those of its rows of [col], whose row 0 is row [base]. *)
Definition block_of col (base : Z) (blk : BlockStats) : Prop :=
  let s := compute_block_stats col (row_start blk - base) (num_rows blk) in
  bk_min blk = min_bytes s ∧ bk_max blk = max_bytes s.

(** Sizes under which a block is filled by one slice: no counter overflows and the
    byte limit is not reached before the row limit. *)
Definition cfg b : Prop :=
  0 < b_block_size b < 2 ^ 32 ∧ 8 * b_block_size b ≤ max_bytes_per_block b < 2 ^ 32.

Lemma BlockZoneMapBuilder_new_cfg name t : cfg (BlockZoneMapBuilder_new name t).
Proof. unfold cfg. cbn. unfold DEFAULT_BLOCK_SIZE. lia. Qed.

(** The state between two rounds of the loop, after [c] rows of [col]. *)
Record loop_inv col (b0 : BlockZoneMapBuilder) b (c : Z) : Prop := {
  li_id : (b_col_name b, b_column_type b, b_block_size b, max_bytes_per_block b) =
          (b_col_name b0, b_column_type b0, b_block_size b0, max_bytes_per_block b0);
  li_cfg : cfg b;
  li_c : 0 ≤ c ≤ arr_len col;
  li_pending : 0 ≤ pending_rows b ≤ b_block_size b;
  li_bytes : pending_bytes b = 8 * pending_rows b;
  li_rows : blocks_flushed_rows b + pending_rows b = blocks_flushed_rows b0 + c;
  li_stats : let s := compute_block_stats col (c - pending_rows b) (pending_rows b) in
    pending_rows b = 0 ∧ current_block_stats b = no_stats 0 ∨
    0 < pending_rows b ∧ min_bytes (current_block_stats b) = min_bytes s ∧
    max_bytes (current_block_stats b) = max_bytes s;
  li_full : pending_rows b < b_block_size b → pending_rows b = 0 ∨ c = arr_len col;
  li_flushed : ∃ bs, flushed b = flushed b0 ++ bs ∧ Forall (block_of col (blocks_flushed_rows b0)) bs ∧
    tiles (blocks_flushed_rows b0) (blocks_flushed_rows b) bs
}.

(** Flushing a pending block keeps the invariant and leaves nothing pending. *)
Lemma loop_inv_flush col b0 b b' c : loop_inv col b0 b c → 0 < pending_rows b →
  flushed b' = flushed (flush_block b) → core b' = core (flush_block b) →
  loop_inv col b0 b' c ∧ pending_rows b' = 0.
Proof.
  intros [Hid Hcfg Hc Hp Hb Hr Hs Hf (bs & Hbs & Hgood & Ht)] Hpos Hfl Hcore.
  destruct (flush_block_flushed b Hpos) as [Hfb Hcb]. rewrite Hfb in Hfl. rewrite Hcb in Hcore.
  unfold core in Hcore. injection Hcore as Hn Hty Hbs' Hmb Hrows Hpr Hpb Hst.
  split; [|done]. unfold cfg in Hcfg. split; unfold cfg; rewrite ?Hbs', ?Hmb, ?Hpr, ?Hpb, ?Hrows; try lia.
  - congruence.
  - by left.
  - eexists (bs ++ [_]). rewrite Hfl, Hbs, <- app_assoc. split; [done|]. split.
    + apply Forall_app. split; [done|]. apply Forall_singleton. unfold block_of, num_rows, BlockStats_new; cbn.
      destruct Hs as [[? _]|(_ & Hmn & Hmx)]; [lia|]. rewrite Hmn, Hmx.
      replace (blocks_flushed_rows b - blocks_flushed_rows b0) with (c - pending_rows b) by lia.
      by replace (blocks_flushed_rows b + pending_rows b - blocks_flushed_rows b) with (pending_rows b) by lia.
    + eapply tiles_app; [exact Ht|]. cbn. lia.
Qed.

Lemma merge_with_empty s : min_bytes (merge_with (no_stats 0) s) = min_bytes s ∧
  max_bytes (merge_with (no_stats 0) s) = max_bytes s.
Proof. by destruct s as [[] [] ?]. Qed.

(** A round on a builder without pending rows adds one slice. *)
Lemma loop_inv_add col b0 b c : loop_inv col b0 b c → pending_rows b = 0 →
  c < arr_len col < 2 ^ 32 →
  let n := rows_can_add b (arr_len col) c in
  0 < n ∧ c + n ≤ arr_len col ∧ loop_inv col b0 (add_pending b n (compute_block_stats col c n)) (c + n).
Proof.
  intros [Hid Hcfg Hc Hp Hb Hr Hs Hf Hfl] Hp0 Hlen. cbn. unfold cfg in Hcfg.
  assert (rows_can_add b (arr_len col) c = Z.min (arr_len col - c) (b_block_size b)) as ->.
  { unfold rows_can_add, saturating_sub, wrap32. rewrite Hb, Hp0. rewrite (proj2 (Z.leb_le _ _)) by lia.
    rewrite Z.sub_0_r, (Z.mod_small (arr_len col - c)) by lia.
    assert (b_block_size b ≤ max_bytes_per_block b `div` 8 < 2 ^ 32).
    { split; [apply Z.div_le_lower_bound; lia|]. apply Z.div_lt_upper_bound; lia. }
    rewrite Z.mul_0_r, Z.sub_0_r, Z.max_l, Z.mod_small by lia. lia. }
  set (n := Z.min _ _). assert (0 < n ∧ n ≤ arr_len col - c ∧ n ≤ b_block_size b ∧
    (n < b_block_size b → n = arr_len col - c)) as (Hn & Hn1 & Hn2 & Hn3) by lia. split_and!; [done|lia|].
  destruct Hs as [[_ Hs]|[? _]]; [|lia].
  split; unfold cfg; cbn; rewrite ?Hp0, ?Hb, ?Hs; try lia; [done| |done].
  right. replace (c + n - (0 + n)) with c by lia. replace (0 + n) with n by lia.
  split; [done|]. apply merge_with_empty.
Qed.

Lemma append_loop_inv fuel col b0 b c : loop_inv col b0 b c → arr_len col < 2 ^ 32 →
  (Z.to_nat (arr_len col - c) ≤ fuel)%nat →
  ∃ b', append_loop fuel b col c = Some b' ∧ loop_inv col b0 b' (arr_len col).
Proof.
  revert b c. induction fuel as [|fuel IH]; intros b c Hinv Hlen Hfuel; cbn [append_loop];
    pose proof (li_c _ _ _ _ Hinv) as Hc.
  - rewrite (proj2 (Z.ltb_ge _ _)) by lia. eexists. split; [done|].
    replace (arr_len col) with c by lia. destruct Hinv. by split.
  - destruct (Z.ltb_spec c (arr_len col)) as [Hlt|Hge]; [|
      eexists; split; [done|]; replace (arr_len col) with c by lia; destruct Hinv; by split].
    match goal with |- context [if ?t then flush_full b else b] => set (b1 := if t then flush_full b else b) end.
    assert (loop_inv col b0 b1 c ∧ pending_rows b1 = 0) as [Hinv1 Hp1].
    { pose proof Hinv as [_ Hcfg _ Hp Hb _ _ Hf _]. unfold cfg in Hcfg. unfold b1.
      destruct (Z.leb_spec (b_block_size b) (pending_rows b)); cbn [orb].
      - destruct (flush_full_flushed b). by apply (loop_inv_flush _ _ b); [done|lia|..].
      - rewrite (proj2 (Z.leb_gt _ _)) by lia. split; [done|]. destruct Hf; [done|done|lia]. }
    destruct (loop_inv_add col b0 b1 c Hinv1 Hp1 ltac:(lia)) as (Hn & Hle & Hinv2).
    rewrite (proj2 (Z.eqb_neq _ _)) by lia. apply IH; [done|done|]. lia.
Qed.

(** A builder between two columns. *)
Definition between b : Prop :=
  cfg b ∧ pending_rows b = 0 ∧ pending_bytes b = 0 ∧ current_block_stats b = no_stats 0 ∧ current_granule b = [].

(** Appending a column adds blocks that tile its rows, each with the statistics of
    its rows. *)
Lemma append_batch_spec col b : between b → arr_len col < 2 ^ 32 →
  ∃ b' bs, append_batch b col = Some b' ∧ flushed b' = flushed b ++ bs ∧
    Forall (block_of col (blocks_flushed_rows b)) bs ∧
    tiles (blocks_flushed_rows b) (blocks_flushed_rows b + arr_len col) bs ∧
    between b' ∧ blocks_flushed_rows b' = blocks_flushed_rows b + arr_len col ∧
    b_col_name b' = b_col_name b ∧ b_column_type b' = b_column_type b.
Proof.
  intros (Hcfg & Hp & Hb & Hs & Hg) Hlen. pose proof (arr_len_nonneg col) as Hnn.
  assert (loop_inv col b b 0) as Hinv.
  { unfold cfg in Hcfg. split; rewrite ?Hp, ?Hb; try lia; [done|done|by left|]. exists [].
    rewrite app_nil_r. split_and!; done. }
  destruct (append_loop_inv (Z.to_nat (arr_len col)) col b b 0 Hinv Hlen) as (b1 & Hl & Hinv1); [lia|].
  unfold append_batch, append_column. rewrite Hl.
  set (b2 := if 0 <? pending_rows b1 then flush_block b1 else b1).
  assert (loop_inv col b b2 (arr_len col) ∧ pending_rows b2 = 0) as [Hinv2 Hp2].
  { pose proof (li_pending _ _ _ _ Hinv1). unfold b2. destruct (Z.ltb_spec 0 (pending_rows b1)).
    - by apply (loop_inv_flush _ _ b1).
    - split; [done|lia]. }
  destruct Hinv2 as [Hid2 Hcfg2 _ _ Hb2 Hr2 Hs2 _ (bs & Hbs & Hgood & Ht)].
  destruct (flush_granule_flushed b2) as [Hfl Hcore].
  exists (flush_granule b2), bs. split; [done|]. rewrite Hfl, Hbs. unfold core in Hcore.
  injection Hcore as Hn Hty Hsz Hmb Hrows Hpr Hpb Hst. injection Hid2 as Hn2 Hty2 Hsz2 Hmb2.
  rewrite Hrows, Hn, Hty. assert (blocks_flushed_rows b2 = blocks_flushed_rows b + arr_len col) as Hrb by lia.
  rewrite Hrb in Ht. split_and!; try done. split_and!.
  - unfold cfg in *. by rewrite Hsz, Hmb.
  - congruence.
  - rewrite Hpb, Hb2, Hp2. done.
  - rewrite Hst. destruct Hs2 as [[_ ?]|[? _]]; [done|lia].
  - unfold flush_granule. by case_bool_decide.
Qed.
(** The columns of a segment in turn, the chunks of one column. *)
Fixpoint append_all b (cols : list Arr) : option BlockZoneMapBuilder :=
  match cols with
  | [] => Some b
  | col :: cols' => match append_batch b col with Some b' => append_all b' cols' | None => None end
  end.

Lemma append_all_spec cols b : between b → Forall (λ col, arr_len col < 2 ^ 32) cols →
  ∃ b' bs, append_all b cols = Some b' ∧ flushed b' = flushed b ++ bs ∧ between b' ∧
    b_column_type b' = b_column_type b ∧
    Forall (λ blk, ∃ col base, col ∈ cols ∧ block_of col base blk) bs ∧
    ∀ col i, col ∈ cols → 0 ≤ i < arr_len col →
      ∃ blk base, blk ∈ bs ∧ block_of col base blk ∧ row_start blk - base ≤ i < row_end blk - base.
Proof.
  revert b. induction cols as [|col cols IH]; intros b Hb Hlen; cbn.
  { exists b, []. rewrite app_nil_r. split_and!; try done. set_solver. }
  apply Forall_cons in Hlen as [Hl Hlen].
  destruct (append_batch_spec col b Hb Hl) as (b1 & bs1 & -> & Hf1 & Hg1 & Ht1 & Hb1 & Hr1 & _ & Hty1).
  destruct (IH b1 Hb1 Hlen) as (b2 & bs2 & -> & Hf2 & Hb2 & Hty2 & Hg2 & Hc2).
  exists b2, (bs1 ++ bs2). rewrite Hf2, Hf1, <- app_assoc. split_and!; try done; [congruence| |].
  - apply Forall_app. split; [eapply Forall_impl; [exact Hg1|]|eapply Forall_impl; [exact Hg2|]].
    + intros blk ?. exists col, (blocks_flushed_rows b). split; [by left|done].
    + intros blk (c & base & ? & ?). exists c, base. split; [by right|done].
  - intros c i [->|Hin]%elem_of_cons Hi.
    + destruct (tiles_covers _ _ _ (blocks_flushed_rows b + i) Ht1) as (blk & Hblk & Hi'); [lia|].
      exists blk, (blocks_flushed_rows b). split_and!; [set_solver| |lia|lia]. rewrite Forall_forall in Hg1. auto.
    + destruct (Hc2 c i Hin Hi) as (blk & base & ? & ? & ?). exists blk, base. set_solver.
Qed.

Lemma finalize_between b : between b → all_blocks (finalize b) = flushed b ∧ column_type (finalize b) = b_column_type b.
Proof.
  intros (_ & Hp & _ & _ & Hg). unfold finalize. rewrite Hp. cbn.
  assert (∀ b', b' = (if negb (bool_decide (current_granule b = [])) || (0 <? blocks_in_granule b)
            then flush_granule b else b) → b' = b) as Hid.
  { intros b' ->. unfold flush_granule. rewrite Hg, bool_decide_true by done. by destruct (_ || _). }
  rewrite (Hid _ eq_refl). split; [|done]. unfold all_blocks, flushed. cbn. by rewrite Hg, app_nil_r.
Qed.

Lemma any_block_true (p : BlockStats → outcome bool) bs blk :
  Forall (λ x, ∃ r, p x = Done r) bs → blk ∈ bs → p blk = Done true → any_block p bs = Done true.
Proof.
  induction 1 as [|x bs (r & Hr) _ IH]; [by intros ?%elem_of_nil|].
  intros [->|Hin]%elem_of_cons Ht; cbn; [by rewrite Ht|]. rewrite Hr. destruct r; [done|by apply IH].
Qed.
End builder_proofs.

(** The index that is built from columns of one type: its blocks enclose the rows
    they cover, and every row is covered. *)
Lemma built_index `{BloomEnv, ArrowLaws Arr} name t (cols : list Arr) :
  Forall (λ c, arr_type c = t ∧ typed_array c ∧ arr_len c < 2 ^ 32) cols →
  ∃ b, append_all (BlockZoneMapBuilder_new name t) cols = Some b ∧ column_type (finalize b) = t ∧
    Forall (λ blk, ∃ vs, encloses t (bk_min blk) (bk_max blk) vs) (all_blocks (finalize b)) ∧
    ∀ col i v, col ∈ cols → 0 ≤ i < arr_len col → arr_slot col i = Some v →
      ∃ blk vs, blk ∈ all_blocks (finalize b) ∧ encloses t (bk_min blk) (bk_max blk) vs ∧ v ∈ vs.
Proof.
  intros Hcols.
  destruct (append_all_spec cols (BlockZoneMapBuilder_new name t)) as (b & bs & Hb & Hf & Hbt & Hty & Hg & Hcov).
  { split; [apply BlockZoneMapBuilder_new_cfg|done]. }
  { eapply Forall_impl; [exact Hcols|]. by intros c (_ & _ & ?). }
  exists b. destruct (finalize_between b Hbt) as [Hall Hct]. rewrite Hall, Hct, Hty, Hf.
  rewrite Forall_forall in Hcols.
  assert (∀ c base blk, c ∈ cols → block_of c base blk →
    encloses t (bk_min blk) (bk_max blk) (slice_values c (row_start blk - base) (num_rows blk))) as Henc.
  { intros c base blk Hc [-> ->]. destruct (Hcols c Hc) as (<- & Hta & _). by apply compute_block_stats_enclose. }
  split_and!; [done|done| |].
  - eapply Forall_impl; [exact Hg|]. intros blk (c & base' & Hc & Hof'). eexists. by eapply Henc.
  - intros col i v Hcol Hi Hv. destruct (Hcov col i Hcol Hi) as (blk & base & Hblk & Hof & Hr).
    exists blk. eexists. split_and!; [done|by eapply Henc|].
    apply (elem_of_slice_values _ _ _ i); [|lia|done]. unfold num_rows. cbn in *. lia.
Qed.

Section built.
Context `{BloomEnv, ArrowLaws Arr}.
Variables (name : string) (t : DataType) (cols : list Arr).
Hypothesis Hcols : Forall (λ c, arr_type c = t ∧ typed_array c ∧ arr_len c < 2 ^ 32) cols.

Lemma built_index_no_panic lo hi b : has_type t lo → has_type t hi →
  append_all (BlockZoneMapBuilder_new name t) cols = Some b →
  ∃ r, may_overlap (finalize b) (enc t lo) (enc t hi) = Done r.
Proof.
  intros Hlo Hhi Hb. destruct (built_index name t cols Hcols) as (b' & Hb' & Hty & Hall & _).
  assert (b' = b) as -> by congruence. unfold may_overlap. rewrite Hty.
  induction Hall as [|[rs re mn mx nn] bs (vs & He) _ IH]; [by eexists|]. cbn [any_block].
  destruct (encloses_no_panic t mn mx vs lo hi rs re nn He Hlo Hhi) as ([] & ->); [by eexists|exact IH].
Qed.

(** A range around the value of a row overlaps the index that was built. *)
Lemma built_index_overlaps col i v k lo klo hi khi :
  col ∈ cols → 0 ≤ i < arr_len col → arr_slot col i = Some v → order_key t v = Some k →
  has_type t lo → order_key t lo = Some klo → ltb k klo = false →
  has_type t hi → order_key t hi = Some khi → ltb khi k = false →
  ∃ b, append_all (BlockZoneMapBuilder_new name t) cols = Some b ∧
    may_overlap (finalize b) (enc t lo) (enc t hi) = Done true.
Proof.
  intros Hcol Hi Hv Hk Hlo Hklo Hl Hhi Hkhi Hh.
  destruct (built_index name t cols Hcols) as (b & Hb & Hty & Hall & Hcov). exists b. split; [done|].
  unfold may_overlap. rewrite Hty. destruct (Hcov col i v Hcol Hi Hv) as (blk & vs & Hblk & He & Hin).
  apply (any_block_true _ _ blk); [|done|].
  - eapply Forall_impl; [exact Hall|]. intros [rs re mn mx nn] (vs' & He').
    eapply encloses_no_panic; [exact He'|done|done].
  - destruct blk as [rs re mn mx nn]. eapply (encloses_overlap _ _ _ _ v k _ klo _ khi); done.
Qed.
End built.

(** ** The file form *)

(** The header that [zm_to_bytes] writes is recognised. *)
Definition zm_header_bytes : bytes := to_le_bytes 4 ZM_MAGIC ++ [ZM_VERSION] ++ [0; 0; 0].

Lemma zm_header_read p :
  (8 <=? zlen (zm_header_bytes ++ p)) && (from_le_bytes (take 4 (zm_header_bytes ++ p)) =? ZM_MAGIC) = true ∧
  (zm_header_bytes ++ p) !! 4%nat = Some ZM_VERSION ∧ drop 8 (zm_header_bytes ++ p) = p.
Proof.
  assert (length zm_header_bytes = 8%nat) as Hl by reflexivity. split_and!.
  - rewrite take_app_le by (rewrite Hl; lia). apply andb_true_iff. split; [|vm_compute; reflexivity].
    apply Z.leb_le. unfold zlen. rewrite length_app, Hl. lia.
  - rewrite lookup_app_l by (rewrite Hl; lia). reflexivity.
  - apply drop_app_length'. done.
Qed.

Section file_proofs.
Context `{BloomEnv}.

Lemma new_filter_empty n key : 0 < n → might_contain (SbbFilter_new n) key = Done false.
Proof.
  intros Hn. unfold might_contain, might_contain_hashes. rewrite (proj2 (Z.eqb_neq _ _)) by (cbn; lia).
  rewrite in_bounds by by apply SbbFilter_new_wf. f_equal. unfold SALT. cbn [forallb].
  apply andb_false_iff. left. unfold get_bit. cbn [bits SbbFilter_new].
  destruct (replicate _ 0 !! _) as [x|] eqn:Hx; [|done]. by apply lookup_replicate in Hx as [-> _].
Qed.

Lemma rebuild_blocks g : blocks (granule_rebuild g) = blocks g.
Proof. unfold granule_rebuild. by destruct (0 <? _). Qed.

Lemma rebuild_all_blocks z : all_blocks (rebuild_all (strip_blooms z)) = all_blocks z.
Proof.
  unfold all_blocks, rebuild_all, strip_blooms. cbn. induction (granules z) as [|g gs IH]; [done|].
  cbn. rewrite rebuild_blocks, IH. done.
Qed.

Lemma rebuilt_filter_empty z g pk : g ∈ granules (rebuild_all (strip_blooms z)) → 0 < granule_total_rows g →
  might_contain_pk g pk = Done false.
Proof.
  cbn. intros (g0 & -> & _)%list_elem_of_fmap. unfold granule_total_rows. rewrite rebuild_blocks.
  intros Hr. unfold granule_rebuild. rewrite (proj2 (Z.ltb_lt _ _)) by done.
  apply new_filter_empty, optimal_num_blocks_pos.
Qed.

Lemma zm_from_to_bytes `{CodecLaws GranuleZoneMapIndex} z data :
  zm_to_bytes z = Ok data → zm_version z = ZM_VERSION → zlen data ≤ zm_limit →
  zm_from_bytes data = Ok (rebuild_all (strip_blooms z)).
Proof.
  intros Hz Hv Hlim. unfold zm_to_bytes in Hz. destruct (encode (strip_blooms z)) as [p|] eqn:He; [|done].
  assert (data = zm_header_bytes ++ p) as -> by (by injection Hz).
  destruct (zm_header_read p) as (Hh & H4 & Hd). unfold zm_from_bytes. rewrite Hh, H4, Hd. cbn [default].
  unfold zm_decode. rewrite (proj2 (Z.ltb_ge zm_limit (zlen p))) by (unfold zlen in *; rewrite length_app in Hlim; cbn in Hlim |- *; lia).
  rewrite (decode_encode _ _ He). destruct z as [mg v n t b g gs]. cbn in Hv. subst v. reflexivity.
Qed.
End file_proofs.

(** * Properties *)

(** C17: block pruning misses no row.  However the chunks of a column are appended,
    the builder returns, and a range that contains the value of some row is never
    reported as disjoint from the index: for integers of every width, floats that
    are not NaN, booleans and strings. *)
Theorem zone_map_no_missed_rows `{BloomEnv, ArrowLaws Arr} name t (cols : list Arr) col i v k lo klo hi khi :
  Forall (λ c, arr_type c = t ∧ typed_array c ∧ arr_len c < 2 ^ 32) cols →
  col ∈ cols → 0 ≤ i < arr_len col → arr_slot col i = Some v → order_key t v = Some k →
  has_type t lo → order_key t lo = Some klo → ltb k klo = false →
  has_type t hi → order_key t hi = Some khi → ltb khi k = false →
  ∃ b, append_all (BlockZoneMapBuilder_new name t) cols = Some b ∧
    may_overlap (finalize b) (enc t lo) (enc t hi) = Done true.
Proof. intros. by apply (built_index_overlaps name t cols) with col i v k klo khi. Qed.

Lemma zone_map_no_missed_rows_witness :
  let E := sample_env in
  ∃ b, append_all (BlockZoneMapBuilder_new "id" Int64) [int_array [Some 1; None; Some (-300)]] = Some b ∧
    may_overlap (finalize b) (enc Int64 (VInt (-300))) (enc Int64 (VInt 0)) = Done true.
Proof.
  intros E. apply (zone_map_no_missed_rows "id" Int64 _ (int_array [Some 1; None; Some (-300)]) 2 (VInt (-300))
    [-300] (VInt (-300)) [-300] (VInt 0) [0]); try reflexivity; try (cbn; lia); [|by left|split; [lia|reflexivity]].
  repeat constructor. intros i v. unfold arr_slot; cbn.
  destruct (Z.to_nat i) as [|[|[|[]]]]; cbn; intros [= <-]; cbn; lia.
Defined.

(** Combining the statistics of two arrays of a segment by raw bytes loses
    values: after the arrays [1] and [256] of an [Int64] column the map excludes a
    point predicate on 256, because the little-endian bytes of 256 are below those
    of 1. *)
Theorem zone_map_update_loses_values :
  let z := update_col (update_col [] 7 (int_array [Some 1])) 7 (int_array [Some 256]) in
  segment_may_overlap z 7 (enc Int64 (VInt 256)) (enc Int64 (VInt 256)) = Done false.
Proof. vm_compute. reflexivity. Qed.

(** The file form keeps the statistics and forgets the keys.  An index that was
    encoded is read back with the same blocks in every granule, but with fresh
    Bloom filters: every granule with rows then reports every key as absent. *)
Theorem zone_map_reload `{BloomEnv, CodecLaws GranuleZoneMapIndex} z data :
  zm_to_bytes z = Ok data → zm_version z = ZM_VERSION → zlen data ≤ zm_limit →
  ∃ z', zm_from_bytes data = Ok z' ∧ column_type z' = column_type z ∧ all_blocks z' = all_blocks z ∧
    ∀ g pk, g ∈ granules z' → 0 < granule_total_rows g → might_contain_pk g pk = Done false.
Proof.
  intros Hz Hv Hlim. exists (rebuild_all (strip_blooms z)). split_and!; [by apply zm_from_to_bytes|done| |].
  - apply rebuild_all_blocks.
  - intros g pk Hg Hr. by apply (rebuilt_filter_empty z).
Qed.

#[export] Instance BlockStats_eq_dec : EqDecision BlockStats.
Proof. solve_decision. Defined.
#[export] Instance GranuleStats_eq_dec : EqDecision GranuleStats.
Proof. solve_decision. Defined.
#[export] Instance GranuleZoneMapIndex_eq_dec : EqDecision GranuleZoneMapIndex.
Proof. solve_decision. Defined.

(** A codec for one index. *)
Definition one_index_codec (z : GranuleZoneMapIndex) : Codec GranuleZoneMapIndex := {|
  encode x := if decide (x = z) then Ok [1] else Err (CEncode "");
  decode _ := Ok z
|}.
#[export] Instance one_index_codec_laws z : @CodecLaws GranuleZoneMapIndex (one_index_codec z).
Proof. intros x b. cbn. by destruct (decide (x = z)) as [->|]. Qed.

Definition sample_index : GranuleZoneMapIndex :=
  set_granules (GranuleZoneMapIndex_new "id" Int64)
    [add_block (GranuleStats_new 0 8192) (BlockStats_new 0 3 (no_stats 0))].

Lemma zone_map_reload_witness :
  let E := sample_env in let C := one_index_codec sample_index in
  ∃ z', zm_from_bytes (zm_header_bytes ++ [1]) = Ok z' ∧ column_type z' = Int64 ∧
    all_blocks z' = all_blocks sample_index ∧
    ∀ g pk, g ∈ granules z' → 0 < granule_total_rows g → might_contain_pk g pk = Done false.
Proof.
  intros E C. apply (@zone_map_reload E C (one_index_codec_laws _) sample_index).
  - vm_compute. reflexivity.
  - reflexivity.
  - vm_compute. done.
Defined.
