(* ===== verification/Filter.v ===== *)
(** The filter language (query/filter_expr.rs): syntax tree, tokenizer and
    recursive-descent parser.  Positions in the text and in the token vector are
    the remaining suffixes; the loops take a bound that their totality theorems
    show to be enough. *)

From Stdlib Require Import Ascii Floats.SpecFloat.
From stdpp Require Import base strings list pretty.
From S2P Require Import Prelude.

Local Open Scope Z_scope.

(** * Syntax *)

Inductive CompareOp := OpEq | OpNe | OpLt | OpLe | OpGt | OpGe.

Inductive ScalarVal :=
  | SNull
  | SBool (b : bool)
  | SInt64 (i : Z)
  | SFloat64 (f : f64)
  | SString (s : string).

Inductive Expr :=
  | Comparison (col : string) (op : CompareOp) (val : ScalarVal)
  | And (a b : Expr)
  | Or (a b : Expr)
  | Not (a : Expr).

Inductive Token :=
  | TIdent (s : string)
  | TString (s : string)
  | TNumber (s : string)
  | TOp (op : CompareOp)
  | TAnd | TOr | TNot | TMinus | TLParen | TRParen | TEof.

(** The messages of the tokenizer and the parser: a constructor per format string,
    with the arguments that the source formats into it. *)
Inductive FilterError :=
  | UnterminatedString
  | UnexpectedAmp
  | UnexpectedPipe
  | UnexpectedChar (c : string)
  | UnexpectedToken (t : Token)
  | ExpectedRParen (t : Token)
  | UnexpectedPrimary (t : Token)
  | ExpectedColumn (t : Token)
  | ExpectedOperator (t : Token)
  | ExpectedValue (t : Token)
  | IntTooLarge
  | MinusNotApplicable (v : ScalarVal).

#[export] Instance CompareOp_eq_dec : EqDecision CompareOp.
Proof. solve_decision. Defined.
#[export] Instance spec_float_eq_dec : EqDecision f64.
Proof. solve_decision. Defined.
#[export] Instance ScalarVal_eq_dec : EqDecision ScalarVal.
Proof. solve_decision. Defined.
#[export] Instance Expr_eq_dec : EqDecision Expr.
Proof. solve_decision. Defined.
#[export] Instance Token_eq_dec : EqDecision Token.
Proof. solve_decision. Defined.

(** * Characters *)

Local Open Scope char_scope.

Definition code (c : Ascii.ascii) : Z := Z.of_N (Ascii.N_of_ascii c).
Definition char_of (z : Z) : Ascii.ascii := Ascii.ascii_of_N (Z.to_N z).

(** The double quote. *)
Definition DQ : Ascii.ascii := char_of 34.

Definition is_space (c : Ascii.ascii) : bool :=
  bool_decide (code c ∈ [32; 9; 10; 13]%Z).
Definition is_ascii_digit (c : Ascii.ascii) : bool := in_range 48 57 (code c).
Definition is_ascii_alphabetic (c : Ascii.ascii) : bool :=
  in_range 65 90 (code c) || in_range 97 122 (code c).
Definition is_ident_char (c : Ascii.ascii) : bool :=
  is_ascii_alphabetic c || is_ascii_digit c || bool_decide (c = "_").

Definition lower_char (c : Ascii.ascii) : Ascii.ascii :=
  if in_range 65 90 (code c) then char_of (code c + 32) else c.

(** [to_lowercase()] of ASCII text. *)
Fixpoint to_lowercase (s : string) : string :=
  match s with
  | EmptyString => EmptyString
  | String c s' => String (lower_char c) (to_lowercase s')
  end.

(** The character an escape stands for. *)
Definition unescape (esc : Ascii.ascii) : Ascii.ascii :=
  if bool_decide (esc = "n") then char_of 10 else
  if bool_decide (esc = "t") then char_of 9 else
  if bool_decide (esc = "r") then char_of 13 else esc.

(** The character at the head of a text, all of its UTF-8 bytes. *)
Definition first_char (s : string) : string :=
  string_of_bytes (take (utf8_step (as_bytes s)).1 (as_bytes s)).

(** The longest prefix whose characters satisfy [p], and the rest. *)
Fixpoint take_while (p : Ascii.ascii → bool) (s : string) : string * string :=
  match s with
  | EmptyString => (EmptyString, EmptyString)
  | String c s' =>
      if p c then let '(w, rest) := take_while p s' in (String c w, rest)
      else (EmptyString, s)
  end.

(** * Tokenizer *)

(** The body of a string literal after its opening quote. *)
Fixpoint lex_string (s : string) : option (string * string) :=
  match s with
  | EmptyString => None
  | String c s' =>
      if bool_decide (c = DQ) then Some (EmptyString, s') else
      if bool_decide (c = "\") then
        match s' with
        | EmptyString => None
        | String esc s'' =>
            match lex_string s'' with
            | Some (v, rest) => Some (String (unescape esc) v, rest)
            | None => None
            end
        end
      else
        match lex_string s' with
        | Some (v, rest) => Some (String c v, rest)
        | None => None
        end
  end.

(** The digits and at most one dot of a number. *)
Fixpoint lex_number (has_dot : bool) (s : string) : string * string :=
  match s with
  | EmptyString => (EmptyString, EmptyString)
  | String c s' =>
      if is_ascii_digit c then let '(w, rest) := lex_number has_dot s' in (String c w, rest)
      else if bool_decide (c = ".") && negb has_dot then
        let '(w, rest) := lex_number true s' in (String c w, rest)
      else (EmptyString, s)
  end.

(** A one-character operator that may be followed by [next]. *)
Definition lex_two (next : Ascii.ascii) (both one : Token) (s : string) : Token * string :=
  match s with
  | String c s' => if bool_decide (c = next) then (both, s') else (one, s)
  | EmptyString => (one, s)
  end.

Definition ident_token (ident : string) : Token :=
  if bool_decide (ident = "and"%string) then TAnd else
  if bool_decide (ident = "or"%string) then TOr else
  if bool_decide (ident = "not"%string) then TNot else TIdent ident.

(** One round of the [while] loop on the text [c :: s]: the token it pushes, if
    any, and the text it leaves. *)
Definition lex_step (c : Ascii.ascii) (s : string) : result FilterError (option Token * string) :=
  if is_space c then Ok (None, s) else
  if bool_decide (c = DQ) then
    match lex_string s with
    | Some (v, rest) => Ok (Some (TString v), rest)
    | None => Err UnterminatedString
    end else
  if bool_decide (c = "(") then Ok (Some TLParen, s) else
  if bool_decide (c = ")") then Ok (Some TRParen, s) else
  if bool_decide (c = "!") then let '(t, r) := lex_two "=" (TOp OpNe) TNot s in Ok (Some t, r) else
  if bool_decide (c = "=") then let '(t, r) := lex_two "=" (TOp OpEq) (TOp OpEq) s in Ok (Some t, r) else
  if bool_decide (c = "<") then let '(t, r) := lex_two "=" (TOp OpLe) (TOp OpLt) s in Ok (Some t, r) else
  if bool_decide (c = ">") then let '(t, r) := lex_two "=" (TOp OpGe) (TOp OpGt) s in Ok (Some t, r) else
  if bool_decide (c = "&") then
    match s with
    | String c' s' => if bool_decide (c' = "&") then Ok (Some TAnd, s') else Err UnexpectedAmp
    | EmptyString => Err UnexpectedAmp
    end else
  if bool_decide (c = "|") then
    match s with
    | String c' s' => if bool_decide (c' = "|") then Ok (Some TOr, s') else Err UnexpectedPipe
    | EmptyString => Err UnexpectedPipe
    end else
  if is_ascii_alphabetic c || bool_decide (c = "_") then
    let '(w, rest) := take_while is_ident_char s in
    Ok (Some (ident_token (to_lowercase (String c w))), rest) else
  if bool_decide (c = "-") then Ok (Some TMinus, s) else
  if is_ascii_digit c then
    let '(w, rest) := lex_number false s in Ok (Some (TNumber (String c w)), rest)
  else Err (UnexpectedChar (first_char (String c s))).

Local Close Scope char_scope.

(** The loop; [None] when the bound runs out. *)
Fixpoint tokenize_loop (fuel : nat) (s : string) : option (result FilterError (list Token)) :=
  match s with
  | EmptyString => Some (Ok [TEof])
  | String c s' =>
      match fuel with
      | O => None
      | S fuel' =>
          match lex_step c s' with
          | Err e => Some (Err e)
          | Ok (t, rest) =>
              match tokenize_loop fuel' rest with
              | Some (Ok ts) => Some (Ok (option_list t ++ ts))
              | r => r
              end
          end
      end
  end.

Definition tokenize (s : string) : option (result FilterError (list Token)) :=
  tokenize_loop (String.length s) s.

(** * Numbers *)

Definition i64_max : Z := 9223372036854775807.
Definition is_i64 (z : Z) : Prop := - i64_max - 1 ≤ z ≤ i64_max.

Definition digit (c : Ascii.ascii) : Z := code c - 48.

(** The value of the digits of a number token, the dot left out, and the number
    of digits after the dot. *)
Fixpoint digits_value (acc : Z) (s : string) : Z :=
  match s with
  | EmptyString => acc
  | String c s' => digits_value (if is_ascii_digit c then 10 * acc + digit c else acc) s'
  end.

Fixpoint fraction_length (seen : bool) (s : string) : nat :=
  match s with
  | EmptyString => 0
  | String c s' =>
      if is_ascii_digit c then ((if seen then 1 else 0) + fraction_length seen s')%nat
      else fraction_length true s'
  end.

Fixpoint contains_char (c : Ascii.ascii) (s : string) : bool :=
  match s with
  | EmptyString => false
  | String c' s' => bool_decide (c' = c) || contains_char c s'
  end.

(** [n.parse::<i64>()] on the digits of a number token. *)
Definition parse_i64 (n : string) : option Z :=
  let v := digits_value 0 n in if v <=? i64_max then Some v else None.

(** The double nearest to [m / 10 ^ k]: one division, rounded once. *)
Definition decimal_f64 (m : Z) (k : nat) : f64 :=
  match m with
  | Zpos p => SFdiv 53 1024 (S754_finite false p 0) (S754_finite false (Pos.pow 10 (Pos.of_succ_nat k)) 0)
  | _ => S754_zero false
  end.

(** [n.parse::<f64>()] on the digits and the dot of a number token, and on a word
    that starts with a letter or an underscore. *)
Definition parse_f64 (n : string) : f64 :=
  match fraction_length false n with
  | O => f64_of_Z (digits_value 0 n)
  | S k => decimal_f64 (digits_value 0 n) k
  end.

Definition parse_f64_word (s : string) : option f64 :=
  if bool_decide (s = "inf") || bool_decide (s = "infinity") then Some (S754_infinity false) else
  if bool_decide (s = "nan") then Some S754_nan else None.

(** * Parser *)

(** [current()] and [advance()] on the tokens that are left. *)
Definition current (ts : list Token) : Token := default TEof (head ts).

Abbreviation presult A := (result FilterError (A * list Token)).

Fixpoint parse_value (ts : list Token) : presult ScalarVal :=
  match ts with
  | TIdent s :: ts' =>
      let w := to_lowercase s in
      if bool_decide (w = "null") then Ok (SNull, ts') else
      if bool_decide (w = "true") then Ok (SBool true, ts') else
      if bool_decide (w = "false") then Ok (SBool false, ts') else
      match parse_f64_word w with
      | Some f => Ok (SFloat64 f, ts')
      | None => Ok (SString s, ts')
      end
  | TNumber n :: ts' =>
      if contains_char "."%char n then Ok (SFloat64 (parse_f64 n), ts')
      else match parse_i64 n with Some i => Ok (SInt64 i, ts') | None => Err IntTooLarge end
  | TMinus :: ts' =>
      match parse_value ts' with
      | Ok (SInt64 i, r) => Ok (SInt64 (- i), r)
      | Ok (SFloat64 f, r) => Ok (SFloat64 (SFopp f), r)
      | Ok (v, _) => Err (MinusNotApplicable v)
      | Err e => Err e
      end
  | TString s :: ts' => Ok (SString s, ts')
  | t :: _ => Err (ExpectedValue t)
  | [] => Err (ExpectedValue TEof)
  end.

(** The operator words, compared without case. *)
Definition operator_word (s : string) : option CompareOp :=
  let w := to_lowercase s in
  if bool_decide (w = "eq") then Some OpEq else
  if bool_decide (w = "ne") || bool_decide (w = "neq") then Some OpNe else
  if bool_decide (w = "lt") then Some OpLt else
  if bool_decide (w = "le") || bool_decide (w = "lte") then Some OpLe else
  if bool_decide (w = "gt") then Some OpGt else
  if bool_decide (w = "ge") || bool_decide (w = "gte") then Some OpGe else None.

Definition operator_of (t : Token) : option CompareOp :=
  match t with
  | TOp op => Some op
  | TIdent s => operator_word s
  | _ => None
  end.

Definition column_of (t : Token) : option string :=
  match t with
  | TIdent s | TNumber s => Some s
  | _ => None
  end.

Definition parse_comparison (ts : list Token) : presult Expr :=
  match column_of (current ts) with
  | None => Err (ExpectedColumn (current ts))
  | Some col =>
      let ts1 := tail ts in
      match operator_of (current ts1) with
      | None => Err (ExpectedOperator (current ts1))
      | Some op =>
          match parse_value (tail ts1) with
          | Ok (val, ts2) => Ok (Comparison col op val, ts2)
          | Err e => Err e
          end
      end
  end.

(** A token that acts as the keyword [w]: its own token or the identifier. *)
Definition keyword (k : Token) (w : string) (t : Token) : bool :=
  bool_decide (t = k) ||
  match t with TIdent s => bool_decide (to_lowercase s = w) | _ => false end.

Definition is_or : Token → bool := keyword TOr "or".
Definition is_and : Token → bool := keyword TAnd "and".
Definition is_not : Token → bool := keyword TNot "not".

(** The descent; [None] when the bound runs out.  [or_loop] and [and_loop] are the
    loops of [parse_or] and [parse_and] after their first operand. *)
Fixpoint parse_or (fuel : nat) (ts : list Token) : option (presult Expr) :=
  match fuel with
  | O => None
  | S n =>
      match parse_and n ts with
      | Some (Ok (lhs, ts')) => or_loop n lhs ts'
      | r => r
      end
  end
with or_loop (fuel : nat) (lhs : Expr) (ts : list Token) : option (presult Expr) :=
  match fuel with
  | O => None
  | S n =>
      if is_or (current ts) then
        match parse_and n (tail ts) with
        | Some (Ok (rhs, ts')) => or_loop n (Or lhs rhs) ts'
        | r => r
        end
      else Some (Ok (lhs, ts))
  end
with parse_and (fuel : nat) (ts : list Token) : option (presult Expr) :=
  match fuel with
  | O => None
  | S n =>
      match parse_not n ts with
      | Some (Ok (lhs, ts')) => and_loop n lhs ts'
      | r => r
      end
  end
with and_loop (fuel : nat) (lhs : Expr) (ts : list Token) : option (presult Expr) :=
  match fuel with
  | O => None
  | S n =>
      if is_and (current ts) then
        match parse_not n (tail ts) with
        | Some (Ok (rhs, ts')) => and_loop n (And lhs rhs) ts'
        | r => r
        end
      else Some (Ok (lhs, ts))
  end
with parse_not (fuel : nat) (ts : list Token) : option (presult Expr) :=
  match fuel with
  | O => None
  | S n =>
      if is_not (current ts) then
        match parse_not n (tail ts) with
        | Some (Ok (inner, ts')) => Some (Ok (Not inner, ts'))
        | r => r
        end
      else parse_primary n ts
  end
with parse_primary (fuel : nat) (ts : list Token) : option (presult Expr) :=
  match fuel with
  | O => None
  | S n =>
      match current ts with
      | TLParen =>
          match parse_or n (tail ts) with
          | Some (Ok (expr, ts')) =>
              match current ts' with
              | TRParen => Some (Ok (expr, tail ts'))
              | t => Some (Err (ExpectedRParen t))
              end
          | r => r
          end
      | TIdent _ | TNumber _ | TString _ => Some (parse_comparison ts)
      | t => Some (Err (UnexpectedPrimary t))
      end
  end.

(** [Parser::parse]: the whole input must be consumed. *)
Definition Parser_parse (ts : list Token) : option (result FilterError Expr) :=
  match parse_or (4 * length ts + 4) ts with
  | Some (Ok (expr, ts')) =>
      match current ts' with
      | TEof => Some (Ok expr)
      | t => Some (Err (UnexpectedToken t))
      end
  | Some (Err e) => Some (Err e)
  | None => None
  end.

Definition parse (s : string) : option (result FilterError Expr) :=
  match tokenize s with
  | Some (Ok ts) => Parser_parse ts
  | Some (Err e) => Some (Err e)
  | None => None
  end.

(** * Totality *)

(** The text left by a token is no longer than the text behind its first
    character. *)
Lemma take_while_length p s : (String.length (take_while p s).2 ≤ String.length s)%nat.
Proof.
  induction s as [|c s IH]; cbn; [lia|]. destruct (p c); [|cbn; lia].
  destruct (take_while p s) as [w r]. cbn in *. lia.
Qed.

Lemma lex_number_length b s : (String.length (lex_number b s).2 ≤ String.length s)%nat.
Proof.
  revert b. induction s as [|c s IH]; intros b; cbn; [lia|].
  destruct (is_ascii_digit c); [|destruct (bool_decide _ && _); [|cbn; lia]].
  - specialize (IH b). destruct (lex_number b s) as [w r]. cbn in *. lia.
  - specialize (IH true). destruct (lex_number true s) as [w r]. cbn in *. lia.
Qed.

Lemma lex_string_length s v r : lex_string s = Some (v, r) → (String.length r ≤ String.length s)%nat.
Proof.
  revert v r. induction s as [s IH] using (induction_ltof1 _ String.length); unfold ltof in IH.
  intros v r. destruct s as [|c s]; cbn; [done|].
  case_bool_decide; [intros [= _ <-]; lia|]. case_bool_decide.
  - destruct s as [|esc s]; [done|]. destruct (lex_string s) as [[v' r']|] eqn:E; [|done].
    intros [= _ <-]. apply IH in E; cbn; lia.
  - destruct (lex_string s) as [[v' r']|] eqn:E; [|done]. intros [= _ <-]. apply IH in E; cbn; lia.
Qed.

Lemma lex_two_length n b o s : (String.length (lex_two n b o s).2 ≤ String.length s)%nat.
Proof. destruct s as [|c s]; cbn; [lia|]. case_bool_decide; cbn; lia. Qed.

Lemma lex_step_length c s t r : lex_step c s = Ok (t, r) → (String.length r ≤ String.length s)%nat.
Proof.
  unfold lex_step.
  pose proof (take_while_length is_ident_char s). pose proof (lex_number_length false s).
  assert (∀ n b o, (String.length (lex_two n b o s).2 ≤ String.length s)%nat) as Htwo by (intros; apply lex_two_length).
  repeat match goal with
  | |- (if ?b then _ else _) = _ → _ => destruct b
  | |- context [lex_two ?n ?b ?o s] => specialize (Htwo n b o); destruct (lex_two n b o s)
  end; try done; try (intros [= _ <-]; cbn in *; done).
  - destruct (lex_string s) as [[v r']|] eqn:E; [|done]. intros [= _ <-]. by eapply lex_string_length.
  - destruct s as [|c' s]; [done|]. case_bool_decide; [|done]. intros [= _ <-]. cbn. lia.
  - destruct s as [|c' s]; [done|]. case_bool_decide; [|done]. intros [= _ <-]. cbn. lia.
  - destruct (take_while _ s) as [w r']. intros [= _ <-]. done.
  - destruct (lex_number false s) as [w r']. intros [= _ <-]. done.
Qed.

Lemma tokenize_loop_total n s : (String.length s ≤ n)%nat → is_Some (tokenize_loop n s).
Proof.
  revert s. induction n as [|n IH]; intros [|c s] Hn; cbn in *; try (by eexists); [lia|].
  destruct (lex_step c s) as [[t r]|e] eqn:E; [|by eexists]. apply lex_step_length in E.
  destruct (IH r) as [[ts|e] ->]; [lia|by eexists..].
Qed.

Lemma tokenize_loop_mono n m s r :
  (n ≤ m)%nat → tokenize_loop n s = Some r → tokenize_loop m s = Some r.
Proof.
  revert m s r. induction n as [|n IH]; intros m [|c s] r Hm; cbn; try done; [by destruct m..|].
  destruct m as [|m]; [lia|]. cbn. destruct (lex_step c s) as [[t rest]|e]; [|done].
  destruct (tokenize_loop n rest) as [q|] eqn:E; [|done]. by rewrite (IH m rest q ltac:(lia) E).
Qed.

Lemma parse_value_length ts v r : parse_value ts = Ok (v, r) → (length r < length ts)%nat.
Proof.
  revert v r. induction ts as [|t ts IH]; intros v r; cbn; [done|].
  destruct t; try done; cbn.
  - repeat case_bool_decide; [intros [= _ <-]; lia..|].
    destruct (parse_f64_word _); intros [= _ <-]; lia.
  - intros [= _ <-]; lia.
  - destruct (contains_char _ _); [intros [= _ <-]; lia|]. destruct (parse_i64 _); [|done].
    intros [= _ <-]; lia.
  - destruct (parse_value ts) as [[v' r']|] eqn:E; [|done]. specialize (IH _ _ eq_refl).
    destruct v'; intros; simplify_eq; lia.
Qed.

Lemma tail_length {A} (l : list A) : length (tail l) = (length l - 1)%nat.
Proof. destruct l; cbn; lia. Qed.

Lemma parse_comparison_length ts e r :
  parse_comparison ts = Ok (e, r) → (length r < length ts)%nat.
Proof.
  unfold parse_comparison. destruct ts as [|t ts]; [done|]. cbn. destruct (column_of t); [|done].
  destruct (operator_of _); [|done]. destruct (parse_value _) as [[v r']|] eqn:E; [|done].
  intros [= _ <-]. apply parse_value_length in E. rewrite tail_length in E. lia.
Qed.

(** A call returns, and what it leaves of the tokens is shorter by [k] at least. *)
Definition returns (k : nat) (ts : list Token) (o : option (presult Expr)) : Prop :=
  ∃ r, o = Some r ∧ ∀ e ts', r = Ok (e, ts') → (length ts' + k ≤ length ts)%nat.

Lemma returns_bind k k' (ts ts0 : list Token) o f : returns k ts0 o →
  (∀ e ts', (length ts' + k ≤ length ts0)%nat → returns k' ts (f e ts')) →
  returns k' ts (match o with
                 | Some (Ok (e, ts')) => f e ts'
                 | Some (Err err) => Some (Err err)
                 | None => None
                 end).
Proof.
  intros (r & -> & Hr) Hf. destruct r as [[e ts']|err]; [by eapply Hf, Hr|]. by exists (Err err).
Qed.

Lemma returns_ok k e (ts ts' : list Token) :
  (length ts' + k ≤ length ts)%nat → returns k ts (Some (Ok (e, ts'))).
Proof. intros. eexists. split; [done|]. by intros ?? [= _ <-]. Qed.

Lemma returns_err k ts err : returns k ts (Some (Err err)).
Proof. by eexists. Qed.

Lemma returns_weaken k k' (ts ts' : list Token) o :
  returns k ts o → (length ts + k' ≤ length ts' + k)%nat → returns k' ts' o.
Proof.
  intros (r & -> & Hr) Hl. eexists. split; [done|]. intros e q ->. specialize (Hr _ _ eq_refl). lia.
Qed.

(** The head of a suffix that is the keyword is a token of it. *)
Lemma keyword_cons k w ts : k ≠ TEof → keyword k w (current ts) = true → ∃ t ts', ts = t :: ts'.
Proof.
  intros Hk. destruct ts as [|t ts]; [|by eexists _, _]. unfold keyword; cbn.
  rewrite bool_decide_false by congruence. done.
Qed.

Lemma descent_total n :
  (∀ ts, (4 * length ts + 4 ≤ n)%nat → returns 1 ts (parse_or n ts)) ∧
  (∀ e ts, (4 * length ts + 3 ≤ n)%nat → returns 0 ts (or_loop n e ts)) ∧
  (∀ ts, (4 * length ts + 3 ≤ n)%nat → returns 1 ts (parse_and n ts)) ∧
  (∀ e ts, (4 * length ts + 2 ≤ n)%nat → returns 0 ts (and_loop n e ts)) ∧
  (∀ ts, (4 * length ts + 2 ≤ n)%nat → returns 1 ts (parse_not n ts)) ∧
  (∀ ts, (4 * length ts + 1 ≤ n)%nat → returns 1 ts (parse_primary n ts)).
Proof.
  induction n as [|n (IHor & IHol & IHand & IHal & IHnot & IHprim)]; [split_and!; intros; lia|].
  split_and!; cbn.
  - intros ts Hn. eapply returns_bind; [apply IHand; lia|]. intros e ts' Hl.
    apply (returns_weaken 0 1 ts'); [|lia]. apply IHol. lia.
  - intros e ts Hn. destruct (is_or (current ts)) eqn:E; [|apply returns_ok; lia].
    destruct (keyword_cons TOr "or" _ ltac:(done) E) as (t & ts1 & ->). cbn in *.
    eapply returns_bind; [apply IHand; lia|]. intros e' ts' Hl. apply (returns_weaken 0 0 ts'); [|cbn; lia]. apply IHol. lia.
  - intros ts Hn. eapply returns_bind; [apply IHnot; lia|]. intros e ts' Hl.
    apply (returns_weaken 0 1 ts'); [|lia]. apply IHal. lia.
  - intros e ts Hn. destruct (is_and (current ts)) eqn:E; [|apply returns_ok; lia].
    destruct (keyword_cons TAnd "and" _ ltac:(done) E) as (t & ts1 & ->). cbn in *.
    eapply returns_bind; [apply IHnot; lia|]. intros e' ts' Hl. apply (returns_weaken 0 0 ts'); [|cbn; lia]. apply IHal. lia.
  - intros ts Hn. destruct (is_not (current ts)) eqn:E; [|apply IHprim; lia].
    destruct (keyword_cons TNot "not" _ ltac:(done) E) as (t & ts1 & ->). cbn in *.
    eapply returns_bind; [apply IHnot; lia|]. intros e' ts' Hl. apply returns_ok. cbn. lia.
  - intros ts Hn. destruct ts as [|t ts]; [apply returns_err|]. cbn in *.
    destruct t; try apply returns_err;
      try (eexists; split; [reflexivity|]; intros ?? H%parse_comparison_length; cbn in *; lia).
    eapply returns_bind; [apply IHor; lia|]. intros e' ts' Hl.
    destruct ts' as [|t' ts']; [apply returns_err|]. cbn in *.
    destruct t'; try apply returns_err. apply returns_ok. cbn. lia.
Qed.

(** A larger bound changes no result. *)
Lemma descent_mono n :
  (∀ m ts r, (n ≤ m)%nat → parse_or n ts = Some r → parse_or m ts = Some r) ∧
  (∀ m e ts r, (n ≤ m)%nat → or_loop n e ts = Some r → or_loop m e ts = Some r) ∧
  (∀ m ts r, (n ≤ m)%nat → parse_and n ts = Some r → parse_and m ts = Some r) ∧
  (∀ m e ts r, (n ≤ m)%nat → and_loop n e ts = Some r → and_loop m e ts = Some r) ∧
  (∀ m ts r, (n ≤ m)%nat → parse_not n ts = Some r → parse_not m ts = Some r) ∧
  (∀ m ts r, (n ≤ m)%nat → parse_primary n ts = Some r → parse_primary m ts = Some r).
Proof.
  induction n as [|n (IHor & IHol & IHand & IHal & IHnot & IHprim)]; [split_and!; by intros|].
  split_and!; intros m; intros; (destruct m as [|m]; [lia|]); cbn in *.
  - destruct (parse_and n ts) as [q|] eqn:E; [|done]. rewrite (IHand m ts q ltac:(lia) E).
    destruct q as [[e ts']|]; [by apply IHol; [lia|]|done].
  - destruct (is_or _); [|done]. destruct (parse_and n _) as [q|] eqn:E; [|done].
    rewrite (IHand m _ q ltac:(lia) E). destruct q as [[e' ts']|]; [by apply IHol; [lia|]|done].
  - destruct (parse_not n ts) as [q|] eqn:E; [|done]. rewrite (IHnot m ts q ltac:(lia) E).
    destruct q as [[e ts']|]; [by apply IHal; [lia|]|done].
  - destruct (is_and _); [|done]. destruct (parse_not n _) as [q|] eqn:E; [|done].
    rewrite (IHnot m _ q ltac:(lia) E). destruct q as [[e' ts']|]; [by apply IHal; [lia|]|done].
  - destruct (is_not _); [|by apply IHprim; [lia|]]. destruct (parse_not n _) as [q|] eqn:E; [|done].
    by rewrite (IHnot m _ q ltac:(lia) E).
  - destruct (current ts); try done. destruct (parse_or n _) as [q|] eqn:E; [|done].
    by rewrite (IHor m _ q ltac:(lia) E).
Qed.

(** * A printer *)

(** A text for each token that can occur in a printed expression. *)
Fixpoint escape (s : string) : string :=
  match s with
  | EmptyString => EmptyString
  | String c s' =>
      if bool_decide (c = DQ) || bool_decide (c = "\"%char)
      then String "\" (String c (escape s')) else String c (escape s')
  end.

Definition op_text (op : CompareOp) : string :=
  match op with
  | OpEq => "=" | OpNe => "!=" | OpLt => "<" | OpLe => "<=" | OpGt => ">" | OpGe => ">="
  end.

Definition token_text (t : Token) : string :=
  match t with
  | TIdent s | TNumber s => s
  | TString s => String DQ (escape s +:+ String DQ "")
  | TOp op => op_text op
  | TAnd => "AND" | TOr => "OR" | TNot => "NOT"
  | TMinus => "-" | TLParen => "(" | TRParen => ")" | TEof => ""
  end.

Fixpoint token_texts (ts : list Token) : string :=
  match ts with
  | [] => ""
  | t :: ts' => token_text t +:+ String " " (token_texts ts')
  end.

Fixpoint dec_go (fuel : nat) (z : Z) (acc : string) : string :=
  match fuel with
  | O => acc
  | S f =>
      let acc' := String (char_of (48 + z `mod` 10)) acc in
      if z <? 10 then acc' else dec_go f (z `div` 10) acc'
  end.

(** The decimal digits of a number below 10 ^ 20. *)
Definition decimal (z : Z) : string := dec_go 20 z "".
#[local] Arguments decimal : simpl never.

Definition value_tokens (v : ScalarVal) : list Token :=
  match v with
  | SNull => [TIdent "null"]
  | SBool b => [TIdent (if b then "true" else "false")]
  | SInt64 i => if i <? 0 then [TMinus; TNumber (decimal (- i))] else [TNumber (decimal i)]
  | SFloat64 (S754_infinity neg) => (if neg then [TMinus] else []) ++ [TIdent "inf"]
  | SFloat64 _ => [TIdent "nan"]
  | SString s => [TString s]
  end.

Definition paren (b : bool) (ts : list Token) : list Token :=
  if b then TLParen :: ts ++ [TRParen] else ts.

(** The tokens of an expression in the context of a disjunction (0), a
    conjunction (1) or a negation (2), with no parentheses but the needed ones. *)
Fixpoint expr_tokens (lvl : nat) (e : Expr) : list Token :=
  match e with
  | Comparison col op v => TIdent col :: TOp op :: value_tokens v
  | Or a b => paren (0 <? lvl)%nat (expr_tokens 0 a ++ TOr :: expr_tokens 1 b)
  | And a b => paren (1 <? lvl)%nat (expr_tokens 1 a ++ TAnd :: expr_tokens 2 b)
  | Not a => TNot :: expr_tokens 2 a
  end.

Definition render (e : Expr) : string := token_texts (expr_tokens 0 e).

Fixpoint all_chars (p : Ascii.ascii → bool) (s : string) : bool :=
  match s with
  | EmptyString => true
  | String c s' => p c && all_chars p s'
  end.

(** A column name the tokenizer can produce: an identifier in lower case that is
    not one of the three keywords. *)
Definition ident_ok (s : string) : bool :=
  match s with
  | EmptyString => false
  | String c w =>
      (is_ascii_alphabetic c || bool_decide (c = "_"%char)) && all_chars is_ident_char w
      && bool_decide (to_lowercase s = s) && bool_decide (ident_token s = TIdent s)
  end.

(** A literal the language can express: every integer but the least one, every
    string, the special floats. *)
Definition literal_ok (v : ScalarVal) : bool :=
  match v with
  | SInt64 i => (- i64_max <=? i) && (i <=? i64_max)
  | SFloat64 f => match f with S754_infinity _ | S754_nan => true | _ => false end
  | _ => true
  end.

Fixpoint printable (e : Expr) : bool :=
  match e with
  | Comparison col _ v => ident_ok col && literal_ok v
  | And a b | Or a b => printable a && printable b
  | Not a => printable a
  end.

(** ** Printing and tokenizing *)

#[local] Arguments String.append : simpl nomatch.

Lemma string_app_assoc s t u : (s +:+ t) +:+ u = s +:+ (t +:+ u).
Proof. induction s as [|c s IH]; cbn; [done|by rewrite IH]. Qed.

Lemma take_while_app p w c rest :
  all_chars p w = true → p c = false → take_while p (w +:+ String c rest) = (w, String c rest).
Proof.
  induction w as [|d w IH]; cbn; intros Hw Hc; [by rewrite Hc|].
  apply andb_true_iff in Hw as [-> Hw]. by rewrite IH.
Qed.

Lemma lex_number_app w rest :
  all_chars is_ascii_digit w = true → lex_number false (w +:+ String " " rest) = (w, String " " rest).
Proof.
  induction w as [|d w IH]; cbn; intros Hw; [done|].
  apply andb_true_iff in Hw as [-> Hw]. by rewrite IH.
Qed.

Lemma lex_string_escape s rest : lex_string (escape s +:+ String DQ rest) = Some (s, rest).
Proof.
  induction s as [|c s IH]; [done|]. cbn [escape].
  destruct (bool_decide (c = DQ) || bool_decide (c = "\"%char)) eqn:E; cbn [String.append].
  - assert (unescape c = c) as Hu.
    { apply orb_true_iff in E as [E|E]; apply bool_decide_eq_true in E as ->; reflexivity. }
    change (lex_string (String "\" (String c ?r))) with
      (match lex_string r with Some (v, rest) => Some (String (unescape c) v, rest) | None => None end).
    by rewrite IH, Hu.
  - apply orb_false_iff in E as [E1 E2]. cbn [lex_string]. by rewrite E1, E2, IH.
Qed.

(** A letter or an underscore starts an identifier, a digit a number. *)
Lemma lex_step_ident c s : is_ascii_alphabetic c || bool_decide (c = "_"%char) = true →
  lex_step c s =
    let '(w, rest) := take_while is_ident_char s in
    Ok (Some (ident_token (to_lowercase (String c w))), rest).
Proof. destruct c as [[][][][][][][][]]; intros H; try done; reflexivity. Qed.

Lemma lex_step_digit c s : is_ascii_digit c = true →
  lex_step c s = let '(w, rest) := lex_number false s in Ok (Some (TNumber (String c w)), rest).
Proof. destruct c as [[][][][][][][][]]; intros H; try done; reflexivity. Qed.

Definition token_ok (t : Token) : bool :=
  match t with
  | TIdent s => ident_ok s
  | TNumber s => match s with EmptyString => false | _ => all_chars is_ascii_digit s end
  | TEof => false
  | _ => true
  end.

Lemma lex_token t rest : token_ok t = true →
  ∃ c s, token_text t +:+ String " " rest = String c s ∧ lex_step c s = Ok (Some t, String " " rest).
Proof.
  destruct t as [s|s|s|op| | | | | | |]; cbn; intros Hok; try done; try (by eexists _, _).
  - destruct s as [|c w]; [done|]. cbn in Hok. rewrite !andb_true_iff, !bool_decide_eq_true in Hok.
    destruct Hok as [[[Hc Hw] Hlow] Hid]. eexists _, _. split; [done|].
    rewrite lex_step_ident, take_while_app by done.
    change (String (lower_char c) (to_lowercase w)) with (to_lowercase (String c w)) in Hlow.
    by rewrite Hlow, Hid.
  - eexists DQ, _. split; [cbn; by rewrite string_app_assoc|]. unfold lex_step. cbn.
    by rewrite lex_string_escape.
  - destruct s as [|c w]; [done|]. cbn in Hok. apply andb_true_iff in Hok as [Hc Hw].
    eexists _, _. split; [done|]. by rewrite lex_step_digit, lex_number_app.
  - by destruct op; eexists _, _.
Qed.

Lemma tokenize_texts ts : Forall (λ t, token_ok t = true) ts →
  ∃ n, tokenize_loop n (token_texts ts) = Some (Ok (ts ++ [TEof])).
Proof.
  induction 1 as [|t ts Ht _ (n & IH)]; [by exists 0%nat|]. exists (S (S n)). cbn [token_texts].
  destruct (lex_token t (token_texts ts) Ht) as (c & s & -> & Hl).
  cbn [tokenize_loop]. rewrite Hl. change (lex_step " " ?x) with (Ok (E := FilterError) (None (A := Token), x)).
  cbn. by rewrite IH.
Qed.

Lemma tokenize_token_texts ts : Forall (λ t, token_ok t = true) ts →
  tokenize (token_texts ts) = Some (Ok (ts ++ [TEof])).
Proof.
  intros (n & Hn)%tokenize_texts. unfold tokenize.
  destruct (tokenize_loop_total (String.length (token_texts ts)) (token_texts ts)) as [r Hr]; [lia|].
  rewrite Hr. apply (tokenize_loop_mono _ (Nat.max n (String.length (token_texts ts)))) in Hn; [|lia].
  apply (tokenize_loop_mono _ (Nat.max n (String.length (token_texts ts)))) in Hr; [|lia]. congruence.
Qed.

(** The printed digits read back. *)
Lemma digit_char z : 0 ≤ z < 10 →
  is_ascii_digit (char_of (48 + z)) = true ∧ digit (char_of (48 + z)) = z.
Proof.
  intros Hz. assert (z ∈ seqZ 0 10) as Hin by (apply elem_of_seqZ; lia).
  clear Hz. revert z Hin. apply Forall_forall. vm_compute. repeat constructor.
Qed.

Lemma dec_go_value f z acc : 0 ≤ z < 10 ^ Z.of_nat f →
  digits_value 0 (dec_go f z acc) = digits_value z acc.
Proof.
  revert z acc. induction f as [|f IH]; intros z acc Hz; [change (10 ^ _) with 1 in Hz; by replace z with 0 by lia|].
  rewrite Nat2Z.inj_succ, Z.pow_succ_r in Hz by lia. cbn [dec_go].
  pose proof (Z.mod_pos_bound z 10 ltac:(lia)) as Hm. destruct (digit_char _ Hm) as [Hd Hv].
  destruct (Z.ltb_spec z 10).
  - cbn [digits_value]. rewrite Hd, Hv, Z.mod_small by lia. f_equal; lia.
  - rewrite IH by (split; [apply Z.div_pos; lia|apply Z.div_lt_upper_bound; lia]).
    cbn [digits_value]. rewrite Hd, Hv. f_equal. pose proof (Z.div_mod z 10). lia.
Qed.

Lemma dec_go_digits f z acc : 0 ≤ z → all_chars is_ascii_digit acc = true →
  all_chars is_ascii_digit (dec_go f z acc) = true.
Proof.
  revert z acc. induction f as [|f IH]; intros z acc Hz Ha; [done|]. cbn [dec_go].
  destruct (digit_char (z `mod` 10) (Z.mod_pos_bound z 10 ltac:(lia))) as [Hd _].
  destruct (z <? 10); [|apply IH; [apply Z.div_pos; lia|]]; cbn; by rewrite Hd.
Qed.

Lemma dec_go_cons f z acc : acc ≠ "" ∨ f ≠ O → dec_go f z acc ≠ "".
Proof.
  revert z acc. induction f as [|f IH]; intros z acc Hacc; cbn; [naive_solver|].
  destruct (z <? 10); [done|]. apply IH. by left.
Qed.

Lemma digits_no_dot s : all_chars is_ascii_digit s = true → contains_char "." s = false.
Proof.
  induction s as [|c s IH]; cbn; [done|]. intros [Hc Hs]%andb_true_iff. rewrite IH by done.
  rewrite bool_decide_false; [done|]. by intros ->.
Qed.

Lemma decimal_spec z : 0 ≤ z ≤ i64_max →
  token_ok (TNumber (decimal z)) = true ∧ contains_char "." (decimal z) = false ∧
  parse_i64 (decimal z) = Some z.
Proof.
  unfold i64_max. intros Hz. assert (all_chars is_ascii_digit (decimal z) = true) as Hd by (apply dec_go_digits; [lia|done]).
  split_and!; [|by apply digits_no_dot|].
  - unfold token_ok. destruct (decimal z) eqn:E; [|done].
    by destruct (dec_go_cons 20 z "" ltac:(by right)).
  - unfold parse_i64, decimal. rewrite dec_go_value by (change (10 ^ Z.of_nat 20) with 100000000000000000000; lia). cbn [digits_value].
    by rewrite (proj2 (Z.leb_le _ _)) by (unfold i64_max; lia).
Qed.

Lemma value_tokens_ok v : literal_ok v = true → Forall (λ t, token_ok t = true) (value_tokens v).
Proof.
  destruct v as [|[]|i|[|[]| |]|s]; cbn; intros Hl; try done; try (by rewrite ?Forall_cons).
  apply andb_true_iff in Hl as [Hlo Hhi]. apply Z.leb_le in Hlo, Hhi.
  destruct (Z.ltb_spec i 0); rewrite ?Forall_cons; split_and!; try done; apply decimal_spec; lia.
Qed.

Lemma expr_tokens_ok lvl e : printable e = true → Forall (λ t, token_ok t = true) (expr_tokens lvl e).
Proof.
  revert lvl. induction e as [col op v|a IHa b IHb|a IHa b IHb|a IHa]; intros lvl; cbn [printable expr_tokens].
  - intros [Hc Hv]%andb_true_iff. repeat constructor; [done|]. by apply value_tokens_ok.
  - intros [Ha Hb]%andb_true_iff. unfold paren.
    assert (Forall (λ t, token_ok t = true) (expr_tokens 1 a ++ TAnd :: expr_tokens 2 b)).
    { apply Forall_app; split; [by apply IHa|constructor; [done|by apply IHb]]. }
    destruct (1 <? lvl)%nat; [|done]. constructor; [done|]. apply Forall_app; split; [done|by repeat constructor].
  - intros [Ha Hb]%andb_true_iff. unfold paren.
    assert (Forall (λ t, token_ok t = true) (expr_tokens 0 a ++ TOr :: expr_tokens 1 b)).
    { apply Forall_app; split; [by apply IHa|constructor; [done|by apply IHb]]. }
    destruct (0 <? lvl)%nat; [|done]. constructor; [done|]. apply Forall_app; split; [done|by repeat constructor].
  - intros Ha. constructor; [done|by apply IHa].
Qed.

(** ** Parsing printed tokens *)

(** What the functions of the descent return, for some bound. *)
Definition or_parses ts r := ∃ n, parse_or n ts = Some r.
Definition or_loops e ts r := ∃ n, or_loop n e ts = Some r.
Definition and_parses ts r := ∃ n, parse_and n ts = Some r.
Definition and_loops e ts r := ∃ n, and_loop n e ts = Some r.
Definition not_parses ts r := ∃ n, parse_not n ts = Some r.

Lemma or_parses_intro ts l ts1 r : and_parses ts (Ok (l, ts1)) → or_loops l ts1 r → or_parses ts r.
Proof.
  intros [n Hn] [m Hm]. exists (S (Nat.max n m)). cbn.
  rewrite (proj1 (proj2 (proj2 (descent_mono n))) (Nat.max n m) _ _ ltac:(lia) Hn).
  by apply (proj1 (proj2 (descent_mono m))); [lia|].
Qed.

Lemma and_parses_intro ts l ts1 r : not_parses ts (Ok (l, ts1)) → and_loops l ts1 r → and_parses ts r.
Proof.
  intros [n Hn] [m Hm]. exists (S (Nat.max n m)). cbn.
  destruct (descent_mono n) as (_ & _ & _ & _ & Hnot & _). rewrite (Hnot (Nat.max n m) _ _ ltac:(lia) Hn).
  destruct (descent_mono m) as (_ & _ & _ & Hal & _). by apply Hal; [lia|].
Qed.

Lemma or_loops_step l ts e ts1 r :
  and_parses ts (Ok (e, ts1)) → or_loops (Or l e) ts1 r → or_loops l (TOr :: ts) r.
Proof.
  intros [n Hn] [m Hm]. exists (S (Nat.max n m)). cbn.
  rewrite (proj1 (proj2 (proj2 (descent_mono n))) (Nat.max n m) _ _ ltac:(lia) Hn).
  by apply (proj1 (proj2 (descent_mono m))); [lia|].
Qed.

Lemma and_loops_step l ts e ts1 r :
  not_parses ts (Ok (e, ts1)) → and_loops (And l e) ts1 r → and_loops l (TAnd :: ts) r.
Proof.
  intros [n Hn] [m Hm]. exists (S (Nat.max n m)). cbn.
  destruct (descent_mono n) as (_ & _ & _ & _ & Hnot & _). rewrite (Hnot (Nat.max n m) _ _ ltac:(lia) Hn).
  destruct (descent_mono m) as (_ & _ & _ & Hal & _). by apply Hal; [lia|].
Qed.

Lemma or_loops_done e ts : is_or (current ts) = false → or_loops e ts (Ok (e, ts)).
Proof. intros Hc. exists 1%nat. cbn. by rewrite Hc. Qed.

Lemma and_loops_done e ts : is_and (current ts) = false → and_loops e ts (Ok (e, ts)).
Proof. intros Hc. exists 1%nat. cbn. by rewrite Hc. Qed.

Lemma not_parses_paren ts e ts1 :
  or_parses ts (Ok (e, TRParen :: ts1)) → not_parses (TLParen :: ts) (Ok (e, ts1)).
Proof. intros [n Hn]. exists (S (S n)). cbn. by rewrite Hn. Qed.

Lemma not_parses_not ts e ts1 :
  not_parses ts (Ok (e, ts1)) → not_parses (TNot :: ts) (Ok (Not e, ts1)).
Proof. intros [n Hn]. exists (S n). cbn. by rewrite Hn. Qed.

Lemma parse_value_tokens v rest : literal_ok v = true → parse_value (value_tokens v ++ rest) = Ok (v, rest).
Proof.
  destruct v as [|[]|i|[|[]| |]|s]; cbn; intros Hl; try done.
  apply andb_true_iff in Hl as [Hlo Hhi]. apply Z.leb_le in Hlo, Hhi. destruct (Z.ltb_spec i 0); cbn.
  - destruct (decimal_spec (- i)) as (_ & -> & ->); [lia|]. by rewrite Z.opp_involutive.
  - destruct (decimal_spec i) as (_ & -> & ->); [lia|]. done.
Qed.

(** An identifier that is no keyword is none of the connectives. *)
Lemma ident_ok_not_keyword s : ident_ok s = true →
  is_or (TIdent s) = false ∧ is_and (TIdent s) = false ∧ is_not (TIdent s) = false.
Proof.
  destruct s as [|c w]; [done|]. unfold ident_ok. rewrite !andb_true_iff, !bool_decide_eq_true.
  intros [[_ Hlow] Hid]. unfold is_or, is_and, is_not, keyword. rewrite Hlow. unfold ident_token in Hid.
  repeat case_bool_decide; simplify_eq; done.
Qed.

Lemma not_parses_comparison col op v rest : ident_ok col = true → literal_ok v = true →
  not_parses (expr_tokens 2 (Comparison col op v) ++ rest) (Ok (Comparison col op v, rest)).
Proof.
  intros Hc Hv. exists 2%nat. cbn. destruct (ident_ok_not_keyword col Hc) as (_ & _ & ->).
  unfold parse_comparison. cbn. by rewrite parse_value_tokens.
Qed.

Lemma descent_printed e : printable e = true →
  (∀ rest r, is_and (current rest) = false → or_loops e rest r → or_parses (expr_tokens 0 e ++ rest) r) ∧
  (∀ rest r, and_loops e rest r → and_parses (expr_tokens 1 e ++ rest) r) ∧
  (∀ rest, not_parses (expr_tokens 2 e ++ rest) (Ok (e, rest))).
Proof.
  assert (∀ e, (∀ rest r, and_loops e rest r → and_parses (expr_tokens 0 e ++ rest) r) →
    ∀ rest r, is_and (current rest) = false → or_loops e rest r → or_parses (expr_tokens 0 e ++ rest) r) as Hup.
  { intros e' H1 rest r Hr Hl. eapply or_parses_intro; [|exact Hl]. by apply H1, and_loops_done. }
  assert (∀ e, (∀ rest, not_parses (expr_tokens 1 e ++ rest) (Ok (e, rest))) →
    ∀ rest r, and_loops e rest r → and_parses (expr_tokens 1 e ++ rest) r) as Hup1.
  { intros e' H2 rest r Hl. by eapply and_parses_intro; [apply H2|]. }
  induction e as [col op v|a IHa b IHb|a IHa b IHb|a IHa]; cbn [printable].
  - intros [Hc Hv]%andb_true_iff. assert (∀ rest, not_parses (expr_tokens 2 (Comparison col op v) ++ rest)
      (Ok (Comparison col op v, rest))) as H2 by (intros; by apply not_parses_comparison).
    split_and!; [exact (Hup (Comparison col op v) (Hup1 (Comparison col op v) H2))|exact (Hup1 (Comparison col op v) H2)|exact H2].
  - intros [Ha Hb]%andb_true_iff. destruct (IHa Ha) as (_ & Ha1 & _), (IHb Hb) as (_ & _ & Hb2).
    assert (∀ rest r, and_loops (And a b) rest r → and_parses (expr_tokens 1 (And a b) ++ rest) r) as H1.
    { intros rest r Hl. cbn. rewrite <- app_assoc. apply Ha1. cbn. by eapply and_loops_step. }
    split_and!; [apply Hup|..]; [exact H1..|]. intros rest. cbn. rewrite <- app_assoc. apply not_parses_paren.
    change (expr_tokens 1 a ++ TAnd :: expr_tokens 2 b) with (expr_tokens 0 (And a b)).
    apply Hup; [exact H1|done|]. by apply or_loops_done.
  - intros [Ha Hb]%andb_true_iff. destruct (IHa Ha) as (Ha0 & _ & _), (IHb Hb) as (_ & Hb1 & _).
    assert (∀ rest r, is_and (current rest) = false → or_loops (Or a b) rest r →
      or_parses (expr_tokens 0 (Or a b) ++ rest) r) as H0.
    { intros rest r Hr Hl. cbn. rewrite <- app_assoc. apply Ha0; [done|]. cbn.
      eapply or_loops_step; [|exact Hl]. by apply Hb1, and_loops_done. }
    assert (∀ rest, not_parses (expr_tokens 2 (Or a b) ++ rest) (Ok (Or a b, rest))) as H2.
    { intros rest. cbn. rewrite <- app_assoc. apply not_parses_paren.
      change (expr_tokens 0 a ++ TOr :: expr_tokens 1 b) with (expr_tokens 0 (Or a b)).
      apply H0; [done|]. by apply or_loops_done. }
    split_and!; [exact H0|by apply Hup1|exact H2].
  - intros Ha. destruct (IHa Ha) as (_ & _ & Ha2).
    assert (∀ rest, not_parses (expr_tokens 2 (Not a) ++ rest) (Ok (Not a, rest))) as H2
      by (intros; by apply not_parses_not).
    split_and!; [exact (Hup (Not a) (Hup1 (Not a) H2))|exact (Hup1 (Not a) H2)|exact H2].
Qed.

(** * Properties *)

(** C14: the tokenizer and the parser return on every text: an expression or an
    error. *)
Theorem parse_total s : ∃ r, parse s = Some r.
Proof.
  unfold parse, tokenize. destruct (tokenize_loop_total (String.length s) s) as [[ts|e] ->]; [lia| |by eexists].
  unfold Parser_parse. destruct (descent_total (4 * length ts + 4)) as (Hor & _).
  destruct (Hor ts) as ([[e ts']|e] & -> & _); [lia| |by eexists]. destruct (current ts'); by eexists.
Qed.

(** C15: the parser inverts a printer that writes only the needed parentheses:
    disjunction binds weakest, negation strongest, both connectives associate to
    the left, strings are escaped.  The least [i64] and finite floats are not
    among the printed literals. *)
Theorem parse_render e : printable e = true → parse (render e) = Some (Ok e).
Proof.
  intros He. unfold parse, render. rewrite tokenize_token_texts by (by apply expr_tokens_ok).
  destruct (descent_printed e He) as (H0 & _).
  destruct (H0 [TEof] (Ok (e, [TEof])) eq_refl (or_loops_done e [TEof] eq_refl)) as [n Hn].
  unfold Parser_parse. set (ts := expr_tokens 0 e ++ [TEof]) in *. set (m := (4 * length ts + 4)%nat).
  destruct (proj1 (descent_total m) ts) as (r & Hr & _); [lia|]. rewrite Hr.
  apply (proj1 (descent_mono m) (Nat.max n m)) in Hr; [|lia].
  apply (proj1 (descent_mono n) (Nat.max n m)) in Hn; [|lia]. by simplify_eq.
Qed.

Definition sample_expr : Expr :=
  And (Comparison "a" OpEq (SInt64 (-15)))
    (Or (Not (Comparison "b" OpGe (SFloat64 (S754_infinity true))))
        (Comparison "name" OpNe (SString (String DQ "x\y")))).

Lemma parse_render_witness : parse (render sample_expr) = Some (Ok sample_expr).
Proof. apply parse_render. reflexivity. Defined.

(** ** Integer literals *)

Lemma digits_value_nonneg acc s : 0 ≤ acc → 0 ≤ digits_value acc s.
Proof.
  revert acc. induction s as [|c s IH]; intros acc Ha; [done|]. cbn [digits_value]. apply IH.
  destruct (is_ascii_digit c) eqn:E; [|done]. unfold is_ascii_digit, in_range in E.
  apply andb_true_iff in E as [E%Z.leb_le _]. unfold digit. lia.
Qed.

(** An integer literal lies in the range of [i64] and is not its least value,
    so the unary minus never overflows. *)
Theorem parse_value_int_bounds ts i r :
  parse_value ts = Ok (SInt64 i, r) → - i64_max ≤ i ≤ i64_max.
Proof.
  revert i r. induction ts as [|t ts IH]; intros i r; [done|]. cbn. destruct t; try done.
  - repeat case_bool_decide; try done. by destruct (parse_f64_word _).
  - destruct (contains_char _ _); [done|]. unfold parse_i64.
    destruct (Z.leb_spec (digits_value 0 s) i64_max); [|done]. intros [= <- _].
    pose proof (digits_value_nonneg 0 s). unfold i64_max in *. lia.
  - destruct (parse_value ts) as [[v r']|]; [|done]. destruct v; try done. intros [= <- _].
    specialize (IH _ _ eq_refl). lia.
Qed.

Lemma parse_value_int_bounds_witness : - i64_max ≤ -9223372036854775807 ≤ i64_max.
Proof. by apply (parse_value_int_bounds [TMinus; TNumber "9223372036854775807"] _ []). Defined.
