(* ===== verification/FilterEval.v ===== *)
(** Evaluation of filters (query/filter_expr.rs): the row predicate over a record
    batch, the conversion to scan filters and to zone-map ranges, and the way a
    scan uses both (read/scan.rs). *)

From Stdlib Require Import Floats.SpecFloat.
From stdpp Require Import base gmap strings list.
From S2P Require Import Prelude Kv Arrow Bloom ZoneMap Filter.

Local Open Scope Z_scope.

(** * Scan filters *)

(** The binary64 pattern of a float: sign, exponent and mantissa. *)
Definition f64_bits (f : f64) : Z :=
  let sign (s : bool) := if s then 2 ^ 63 else 0 in
  match f with
  | S754_zero s => sign s
  | S754_infinity s => sign s + 2047 * 2 ^ 52
  | S754_nan => 2047 * 2 ^ 52 + 2 ^ 51
  | S754_finite s m e =>
      sign s + (if Zpos m <? 2 ^ 52 then Zpos m else (e + 1075) * 2 ^ 52 + (Zpos m - 2 ^ 52))
  end.

Definition scalar_to_bytes (val : ScalarVal) : option bytes :=
  match val with
  | SNull => None
  | SBool b => Some [if b then 1 else 0]
  | SInt64 i => Some (to_le_bytes 8 i)
  | SFloat64 f => Some (to_le_bytes 8 (f64_bits f))
  | SString s => Some (as_bytes s)
  end.

Inductive ScanFilter :=
  | FEq (column : string) (value : bytes)
  | FRange (column : string) (min max : bytes)
  | FLike (column pattern : string)
  | FBetween (column : string) (min max : bytes)
  | FIsNull (column : string)
  | FIsNotNull (column : string)
  | FIsTrue (column : string)
  | FIsNotTrue (column : string)
  | FAnd (a b : ScanFilter)
  | FOr (a b : ScanFilter)
  | FNot (a : ScanFilter)
  | FIn (column : string) (values : list bytes)
  | FGt (column : string) (value : bytes)
  | FGe (column : string) (value : bytes)
  | FLt (column : string) (value : bytes)
  | FLe (column : string) (value : bytes).

Fixpoint to_scan_filter (e : Expr) : option ScanFilter :=
  match e with
  | Comparison col op val =>
      value ← scalar_to_bytes val;
      match op with
      | OpEq => Some (FEq col value)
      | OpNe => None
      | OpGt => Some (FGt col value)
      | OpGe => Some (FGe col value)
      | OpLt => Some (FLt col value)
      | OpLe => Some (FLe col value)
      end
  | And a b => a' ← to_scan_filter a; b' ← to_scan_filter b; Some (FAnd a' b')
  | Or a b => a' ← to_scan_filter a; b' ← to_scan_filter b; Some (FOr a' b')
  | Not a => a' ← to_scan_filter a; Some (FNot a')
  end.

(** * Zone-map ranges *)

Record ZoneMapPredicate := { p_column : string; pred_min : bytes; pred_max : bytes }.

Record ZoneMapOrGroup := { g_column : string; ranges : list (bytes * bytes) }.

Record ZoneMapPredicateGroup := { groups : list ZoneMapOrGroup; has_cross_column_or : bool }.

(** An open end is the empty byte string. *)
Definition comparison_range (op : CompareOp) (value : bytes) : option (bytes * bytes) :=
  match op with
  | OpEq => Some (value, value)
  | OpGe | OpGt => Some (value, [])
  | OpLe | OpLt => Some ([], value)
  | OpNe => None
  end.

Fixpoint extract_predicates (e : Expr) : option (list ZoneMapPredicate) :=
  match e with
  | Comparison col op val =>
      value ← scalar_to_bytes val;
      r ← comparison_range op value;
      Some [{| p_column := col; pred_min := r.1; pred_max := r.2 |}]
  | And a b => a' ← extract_predicates a; b' ← extract_predicates b; Some (a' ++ b')
  | Or _ _ | Not _ => None
  end.

(** [iter_mut().find(..)] and [ranges.extend(..)], or [push]. *)
Fixpoint add_group (gs : list ZoneMapOrGroup) (g : ZoneMapOrGroup) : list ZoneMapOrGroup :=
  match gs with
  | [] => [g]
  | h :: gs' =>
      if bool_decide (g_column h = g_column g)
      then {| g_column := g_column h; ranges := ranges h ++ ranges g |} :: gs'
      else h :: add_group gs' g
  end.

(** [iter().map(|g| (column, g)).collect()]: a later group of a column replaces an
    earlier one. *)
Definition group_map (gs : list ZoneMapOrGroup) : gmap string ZoneMapOrGroup :=
  for_each gs ∅ (λ m g, <[g_column g := g]> m).

Section extraction.
Context `{HashIter}.

Definition merged_group (a b : gmap string ZoneMapOrGroup) (col : string) : option ZoneMapOrGroup :=
  let rs := default [] (ranges <$> a !! col) ++ default [] (ranges <$> b !! col) in
  if bool_decide (rs = []) then None else Some {| g_column := col; ranges := rs |}.

Fixpoint extract_predicates_grouped (e : Expr) : option ZoneMapPredicateGroup :=
  match e with
  | Comparison col op val =>
      value ← scalar_to_bytes val;
      r ← comparison_range op value;
      Some {| groups := [{| g_column := col; ranges := [r] |}]; has_cross_column_or := false |}
  | And a b =>
      a' ← extract_predicates_grouped a;
      b' ← extract_predicates_grouped b;
      Some {| groups := for_each (groups b') (groups a') add_group;
              has_cross_column_or := has_cross_column_or a' || has_cross_column_or b' |}
  | Or a b =>
      a' ← extract_predicates_grouped a;
      b' ← extract_predicates_grouped b;
      let a_cols : gset string := list_to_set (g_column <$> groups a') in
      let b_cols : gset string := list_to_set (g_column <$> groups b') in
      let is_cross := bool_decide (a_cols ∩ b_cols = ∅) && negb (bool_decide (a_cols = ∅))
                      && negb (bool_decide (b_cols = ∅)) in
      let a_map := group_map (groups a') in
      let b_map := group_map (groups b') in
      Some {| groups := omap (merged_group a_map b_map) ((hash_iter a_map).*1 ++ (hash_iter b_map).*1);
              has_cross_column_or := is_cross || has_cross_column_or a' || has_cross_column_or b' |}
  | Not _ => None
  end.
End extraction.

(** [check_or_group_may_overlap]: here an empty bound is unbounded. *)
Fixpoint check_ranges (rs : list (bytes * bytes)) (col_min col_max : option bytes) (t : DataType) : outcome bool :=
  match rs with
  | [] => Done false
  | (lo, hi) :: rs' =>
      match (if bool_decide (lo = []) then Done false
             else match col_max with Some mx => bytes_lt mx lo t | None => Done false end) with
      | Panic => Panic
      | Done true => check_ranges rs' col_min col_max t
      | Done false =>
          match (if bool_decide (hi = []) then Done false
                 else match col_min with Some mn => bytes_lt hi mn t | None => Done false end) with
          | Panic => Panic
          | Done true => check_ranges rs' col_min col_max t
          | Done false => Done true
          end
      end
  end.
Definition check_or_group_may_overlap (g : ZoneMapOrGroup) (col_min col_max : option bytes) (t : DataType)
    : outcome bool :=
  check_ranges (ranges g) col_min col_max t.

(** * Skipping a segment *)

Fixpoint any_range (p : bytes → bytes → outcome bool) (rs : list (bytes * bytes)) : outcome bool :=
  match rs with
  | [] => Done false
  | (lo, hi) :: rs' =>
      match p lo hi with
      | Panic => Panic
      | Done true => Done true
      | Done false => any_range p rs'
      end
  end.

Section skipping.
Context `{BloomEnv} `{Codec GranuleZoneMapIndex}.

(** [columns] are the column names of the segment's metadata; [zm_file col] is the
    file at [block_zm_path(col)]: absent, unreadable, or its content. *)
Definition evaluate_or_group_for_segment (columns : list string) (zm_file : string → option (Result bytes))
    (g : ZoneMapOrGroup) : outcome bool :=
  if negb (bool_decide (g_column g ∈ columns)) then Done true else
  match zm_file (g_column g) with
  | None => Done true
  | Some (Err _) => Done true
  | Some (Ok data) =>
      match zm_from_bytes data with
      | Err _ => Done true
      | Ok zm => any_range (may_overlap zm) (ranges g)
      end
  end.

Fixpoint no_group_overlaps (columns : list string) (zm_file : string → option (Result bytes))
    (gs : list ZoneMapOrGroup) : outcome bool :=
  match gs with
  | [] => Done true
  | g :: gs' =>
      match evaluate_or_group_for_segment columns zm_file g with
      | Panic => Panic
      | Done true => Done false
      | Done false => no_group_overlaps columns zm_file gs'
      end
  end.

Definition should_skip_segment_for_zone_map (columns : list string) (zm_file : string → option (Result bytes))
    (group : option ZoneMapPredicateGroup) : outcome bool :=
  match group with
  | Some g =>
      if has_cross_column_or g || bool_decide (groups g = []) then Done false
      else no_group_overlaps columns zm_file (groups g)
  | None => Done false
  end.
End skipping.

(** * Evaluation *)

(** The errors of the evaluator: a constructor per format string. *)
Inductive EvalError :=
  | ColumnMissing (col : string)
  | ArrowFailed (msg : string)
  | ArrowConverted (msg : string)
  | UnsupportedComparison (op : CompareOp) (val : ScalarVal) (t : DataType).

(** The comparison kernels of [arrow::compute::kernels::cmp] against a scalar, and
    [is_null] and [is_not_null]. *)
Class ArrowCmp (Arr : Type) := {
  arrow_cmp : CompareOp → Arr → ScalarVal → result string (list (option bool));
  arrow_is_null : Arr → result string (list (option bool));
  arrow_is_not_null : Arr → result string (list (option bool))
}.
#[global] Hint Mode ArrowCmp ! : typeclass_instances.

Definition column_by_name {Arr} (b : RecordBatch Arr) (name : string) : option Arr :=
  p ← list_find (λ f, f_name f = name) (rb_fields b);
  rb_columns b !! p.1.

Definition option_and {A B} (l : option A) (r : option B) : option B :=
  match l with Some _ => r | None => None end.
Definition option_or {A} (l r : option A) : option A :=
  match l with Some x => Some x | None => r end.

Section evaluator.
Context `{Arrow Arr, ArrowCmp Arr}.

Definition evaluate_comparison (col : string) (op : CompareOp) (val : ScalarVal) (batch : RecordBatch Arr)
    : result EvalError (list (option bool)) :=
  match column_by_name batch col with
  | None => Err (ColumnMissing col)
  | Some col_array =>
      match op, val with
      | _, SInt64 _ | _, SFloat64 _ | _, SString _ => map_err ArrowFailed (arrow_cmp op col_array val)
      | OpEq, SBool _ | OpNe, SBool _ => map_err ArrowFailed (arrow_cmp op col_array val)
      | OpEq, SNull => map_err ArrowConverted (arrow_is_null col_array)
      | OpNe, SNull => map_err ArrowConverted (arrow_is_not_null col_array)
      | _, _ => Err (UnsupportedComparison op val (arr_type col_array))
      end
  end.

Fixpoint evaluate (e : Expr) (batch : RecordBatch Arr) : result EvalError (list (option bool)) :=
  match e with
  | Comparison col op val => evaluate_comparison col op val batch
  | And a b =>
      match evaluate a batch with
      | Err er => Err er
      | Ok l =>
          match evaluate b batch with
          | Err er => Err er
          | Ok r => Ok (zip_with option_and l r)
          end
      end
  | Or a b =>
      match evaluate a batch with
      | Err er => Err er
      | Ok l =>
          match evaluate b batch with
          | Err er => Err er
          | Ok r => Ok (zip_with option_or l r)
          end
      end
  | Not a =>
      match evaluate a batch with
      | Err er => Err er
      | Ok inner => Ok (option_map negb <$> inner)
      end
  end.
End evaluator.

(** * The filter stage of a read *)

Inductive FilterStageError :=
  | EvaluationFailed (table : string) (batch_rows : Z) (e : EvalError)
  | FilterBatchFailed (table : string) (batch_rows : Z) (msg : string).

(** The two counters of [ReadExecutionStats] that the stage writes. *)
Record FilterStats := { filter_failures : Z; rows_after_filter : Z }.

Section stage.
Context `{Arrow Arr, ArrowCmp Arr, Batches Arr}.

(** The filter kernel takes a null of the predicate as false. *)
Definition predicate_mask (p : list (option bool)) : list bool := (λ o, bool_decide (o = Some true)) <$> p.

Fixpoint filter_batches (table : string) (e : Expr) (bs : list (RecordBatch Arr)) (st : FilterStats)
    : FilterStats * result FilterStageError (list (RecordBatch Arr)) :=
  match bs with
  | [] => (st, Ok [])
  | batch :: bs' =>
      let failed := {| filter_failures := filter_failures st + 1; rows_after_filter := rows_after_filter st |} in
      match evaluate e batch with
      | Err er => (failed, Err (EvaluationFailed table (rb_rows batch) er))
      | Ok predicate =>
          match filter_record_batch batch (predicate_mask predicate) with
          | Err msg => (failed, Err (FilterBatchFailed table (rb_rows batch) msg))
          | Ok filtered =>
              let st' := {| filter_failures := filter_failures st;
                            rows_after_filter := rows_after_filter st + rb_rows filtered |} in
              match filter_batches table e bs' st' with
              | (st'', Ok rest) => (st'', Ok (filtered :: rest))
              | (st'', Err er) => (st'', Err er)
              end
          end
      end
  end.

(** [outputs] are the batches of every segment's output. *)
Definition finalize_read_filter_stage (table : string) (parsed_expr : option Expr)
    (outputs : list (list (RecordBatch Arr))) (st : FilterStats)
    : FilterStats * result FilterStageError (list (RecordBatch Arr)) :=
  let results := concat outputs in
  match parsed_expr with
  | Some e => filter_batches table e results st
  | None =>
      ({| filter_failures := filter_failures st;
          rows_after_filter := foldr (λ b n, rb_rows b + n) 0 results |}, Ok results)
  end.
End stage.

(** * The meaning of a filter on a row *)

(** The type and the value of a literal. *)
Definition scalar_value (val : ScalarVal) : option (DataType * Value) :=
  match val with
  | SNull => None
  | SBool b => Some (Boolean, VBool b)
  | SInt64 i => Some (Int64, VInt i)
  | SFloat64 f => Some (Float64, VFloat (f64_bits f))
  | SString s => Some (Utf8, VStr s)
  end.

(** The order of the comparison kernels: integers, strings by their bytes, floats
    by the IEEE 754 total order. *)
Definition total_key (v : Value) : list Z :=
  match v with
  | VInt z => [z]
  | VFloat b => [if Z.testbit b 63 then - 1 - magnitude 64 b else magnitude 64 b]
  | VBool b => [if b then 1 else 0]
  | VStr s => as_bytes s
  | VBin b => b
  end.

Definition compare_values (op : CompareOp) (v w : Value) : bool :=
  let lt := ltb (total_key v) (total_key w) in
  let eq := bool_decide (v = w) in
  match op with
  | OpEq => eq
  | OpNe => negb eq
  | OpLt => lt
  | OpLe => lt || eq
  | OpGt => negb (lt || eq)
  | OpGe => negb lt
  end.

Definition is_null_slot (o : option Value) : bool := match o with None => true | Some _ => false end.

(** A comparison against one slot; equality with the null literal asks for nulls. *)
Definition compare_slot (op : CompareOp) (val : ScalarVal) (slot : option Value) : option bool :=
  match scalar_value val with
  | Some (_, w) => (λ v, compare_values op v w) <$> slot
  | None => Some (match op with OpEq => is_null_slot slot | _ => negb (is_null_slot slot) end)
  end.

(** The kernels on a column of the literal's type. *)
Class ArrowCmpLaws (Arr : Type) `{Arrow Arr, ArrowCmp Arr} := {
  arrow_cmp_ok : ∀ op (a : Arr) val t w, scalar_value val = Some (t, w) → arr_type a = t →
    arrow_cmp op a val = Ok (compare_slot op val <$> slots a);
  arrow_is_null_ok : ∀ a : Arr, arrow_is_null a = Ok (compare_slot OpEq SNull <$> slots a);
  arrow_is_not_null_ok : ∀ a : Arr, arrow_is_not_null a = Ok (compare_slot OpNe SNull <$> slots a)
}.
#[global] Hint Mode ArrowCmpLaws ! - - : typeclass_instances.

(** SQL's three-valued connectives. *)
Definition kleene_and (l r : option bool) : option bool :=
  match l, r with
  | Some false, _ | _, Some false => Some false
  | Some true, Some true => Some true
  | _, _ => None
  end.
Definition kleene_or (l r : option bool) : option bool :=
  match l, r with
  | Some true, _ | _, Some true => Some true
  | Some false, Some false => Some false
  | _, _ => None
  end.

Section rows.
Context `{Arrow Arr}.
Implicit Types (b : RecordBatch Arr) (e : Expr).

Definition row_slot b (i : Z) (col : string) : option Value :=
  a ← column_by_name b col; arr_slot a i.

(** A filter on a row with the connectives [c_and] and [c_or]. *)
Fixpoint row_eval (c_and c_or : option bool → option bool → option bool) e b (i : Z) : option bool :=
  match e with
  | Comparison col op val => compare_slot op val (row_slot b i col)
  | And a a' => c_and (row_eval c_and c_or a b i) (row_eval c_and c_or a' b i)
  | Or a a' => c_or (row_eval c_and c_or a b i) (row_eval c_and c_or a' b i)
  | Not a => option_map negb (row_eval c_and c_or a b i)
  end.

(** What SQL means by the filter, and what the evaluator computes. *)
Definition sql_row : Expr → RecordBatch Arr → Z → option bool := row_eval kleene_and kleene_or.
Definition code_row : Expr → RecordBatch Arr → Z → option bool := row_eval option_and option_or.

(** The comparisons of a filter. *)
Fixpoint comparisons e : list (string * CompareOp * ScalarVal) :=
  match e with
  | Comparison col op val => [(col, op, val)]
  | And a a' | Or a a' => comparisons a ++ comparisons a'
  | Not a => comparisons a
  end.

(** A comparison that the evaluator supports on the batch. *)
Definition supported b (c : string * CompareOp * ScalarVal) : Prop :=
  ∃ a, column_by_name b c.1.1 = Some a ∧
    match c.2 with
    | SNull => c.1.2 = OpEq ∨ c.1.2 = OpNe
    | SBool _ => (c.1.2 = OpEq ∨ c.1.2 = OpNe) ∧ arr_type a = Boolean
    | val => Some (arr_type a) = fst <$> scalar_value val
    end.

Lemma column_by_name_rows b col a : batch_wf b → column_by_name b col = Some a → arr_len a = rb_rows b.
Proof.
  unfold column_by_name. intros Hwf. destruct (list_find _ _) as [[k f]|] eqn:Hf; [|done]. cbn. intros Ha.
  apply list_find_Some in Hf as (Hf & _ & _). by destruct (Forall2_lookup_lr _ _ _ _ _ _ Hwf Hf Ha) as [? _].
Qed.

Context `{!ArrowCmp Arr, !ArrowCmpLaws Arr}.

Lemma evaluate_comparison_rows b col op val : batch_wf b → supported b (col, op, val) →
  evaluate_comparison col op val b = Ok ((λ i, compare_slot op val (row_slot b i col)) <$> seqZ 0 (rb_rows b)).
Proof.
  intros Hwf (a & Ha & Hs). cbn in Hs, Ha.
  assert ((λ i, compare_slot op val (row_slot b i col)) <$> seqZ 0 (rb_rows b) = compare_slot op val <$> slots a) as ->.
  { unfold slots. rewrite (column_by_name_rows b col a Hwf Ha), <- list_fmap_compose. apply list_fmap_ext.
    intros _ i _. unfold row_slot. by rewrite Ha. }
  unfold evaluate_comparison. rewrite Ha.
  destruct val as [|v|v|v|v]; cbn in Hs;
    [destruct Hs as [->| ->]|destruct Hs as [[->| ->] ?]|injection Hs as ?..];
    rewrite ?arrow_is_null_ok, ?arrow_is_not_null_ok; try done;
    (erewrite (arrow_cmp_ok _ a) by done); by repeat case_match.
Qed.

Lemma zip_with_seqZ (f : option bool → option bool → option bool) g h n :
  zip_with f (g <$> seqZ 0 n) (h <$> seqZ 0 n) = (λ i, f (g i) (h i)) <$> seqZ 0 n.
Proof. induction (seqZ 0 n) as [|i l IH]; [done|]. cbn. by rewrite IH. Qed.

(** The evaluator computes [code_row] for every row. *)
Lemma evaluate_rows e b : batch_wf b → Forall (supported b) (comparisons e) →
  evaluate e b = Ok (code_row e b <$> seqZ 0 (rb_rows b)).
Proof.
  intros Hwf. unfold code_row. induction e as [col op val|x IHx y IHy|x IHx y IHy|x IHx]; cbn.
  - intros [Hs _]%Forall_cons. by rewrite (evaluate_comparison_rows b col op val Hwf Hs).
  - intros [Hx Hy]%Forall_app. by rewrite IHx, IHy, zip_with_seqZ by done.
  - intros [Hx Hy]%Forall_app. by rewrite IHx, IHy, zip_with_seqZ by done.
  - intros Hx. rewrite IHx, <- list_fmap_compose by done. done.
Qed.

(** A filter without connectives that combine two filters. *)
Fixpoint unconnected e : bool :=
  match e with
  | Comparison _ _ _ => true
  | And _ _ | Or _ _ => false
  | Not a => unconnected a
  end.

Lemma unconnected_row e b i : unconnected e = true → code_row e b i = sql_row e b i.
Proof. unfold code_row, sql_row. induction e; cbn; [done..|]. intros. by f_equal; auto. Qed.
End rows.

(** * Skipping is sound *)

Section grouping.
Implicit Types (gs : list ZoneMapOrGroup) (g : ZoneMapOrGroup).

Lemma group_map_snoc gs g : group_map (gs ++ [g]) = <[g_column g := g]> (group_map gs).
Proof. unfold group_map, for_each. by rewrite foldl_app. Qed.

(** The map holds, under its column, a group of the list. *)
Lemma group_map_elem gs col g : group_map gs !! col = Some g → g ∈ gs ∧ g_column g = col.
Proof.
  induction gs as [|h gs IH] using rev_ind; [done|]. rewrite group_map_snoc.
  destruct (decide (g_column h = col)) as [<-|Hne].
  - rewrite lookup_insert_eq. intros [= ->]. split; [set_solver|done].
  - rewrite lookup_insert_ne by done. intros Hg. destruct (IH Hg). split; [set_solver|done].
Qed.

Lemma group_map_is_Some gs g : g ∈ gs → is_Some (group_map gs !! g_column g).
Proof.
  induction gs as [|h gs IH] using rev_ind; [by intros ?%elem_of_nil|]. rewrite group_map_snoc.
  intros [Hg| ->%list_elem_of_singleton]%elem_of_app; [|by rewrite lookup_insert_eq].
  destruct (decide (g_column h = g_column g)) as [->|Hne]; [by rewrite lookup_insert_eq|].
  rewrite lookup_insert_ne by done. auto.
Qed.

(** Groups of [gs] under every column keep their ranges in [gs']. *)
Definition grows gs gs' : Prop :=
  ∀ col g, group_map gs !! col = Some g →
    ∃ g', group_map gs' !! col = Some g' ∧ ranges g ⊆ ranges g'.

Lemma group_map_cons g gs col : group_map (g :: gs) !! col =
  match group_map gs !! col with Some h => Some h | None => if decide (g_column g = col) then Some g else None end.
Proof.
  induction gs as [|h gs IH] using rev_ind.
  - unfold group_map, for_each. cbn. rewrite lookup_empty. destruct (decide _) as [<-|];
      [by rewrite lookup_insert_eq|by rewrite lookup_insert_ne, lookup_empty].
  - rewrite app_comm_cons, !group_map_snoc. destruct (decide (g_column h = col)) as [<-|Hne];
      [by rewrite !lookup_insert_eq|by rewrite !lookup_insert_ne].
Qed.

Lemma add_group_grows gs g : grows gs (add_group gs g).
Proof.
  induction gs as [|h gs IH]; intros col h'; [done|]. cbn [add_group].
  case_bool_decide as Hc; rewrite !group_map_cons; cbn [g_column ranges].
  - destruct (group_map gs !! col); [intros [= ->]; by exists h'|].
    destruct (decide (g_column h = col)); [|done]. intros [= <-]. eexists. split; [done|]. cbn. set_solver.
  - destruct (group_map gs !! col) as [x|] eqn:Hx.
    + intros [= ->]. destruct (IH col h' Hx) as (g' & -> & Hsub). by exists g'.
    + destruct (decide (g_column h = col)) as [He|]; [|done]. intros [= <-].
      destruct (group_map (add_group gs g) !! col) as [y|] eqn:Hy; [|by exists h].
      exfalso. apply group_map_elem in Hy as [Hy Hcol].
      assert (∀ l, y ∈ add_group l g → g_column y = col → g_column g ≠ col → ∃ z, z ∈ l ∧ g_column z = col) as Hl.
      { clear -Hc. induction l as [|z l IHl]; cbn.
        - intros ->%list_elem_of_singleton. done.
        - case_bool_decide; intros [->|Hin]%elem_of_cons Hcy Hne; cbn in *; subst; [eexists; split; [by left|done]|
            eexists; split; [by right|done]|eexists; split; [by left|done]|].
          destruct (IHl Hin eq_refl Hne) as (w & ? & ?). exists w. split; [by right|done]. }
      destruct (Hl gs Hy Hcol) as (z & Hz & Hcz); [congruence|].
      destruct (group_map_is_Some gs z Hz) as [w Hw]. congruence.
Qed.

Lemma add_groups_grows hs gs : grows gs (for_each hs gs add_group).
Proof.
  unfold for_each. revert gs. induction hs as [|h hs IH]; intros gs col g Hg; cbn; [by exists g|].
  destruct (add_group_grows gs h col g Hg) as (g1 & Hg1 & Hs1).
  destruct (IH (add_group gs h) col g1 Hg1) as (g2 & Hg2 & Hs2). exists g2. split; [done|set_solver].
Qed.

(** Every range of a merged list comes from one of the lists. *)
Lemma add_group_from gs g h r : h ∈ add_group gs g → r ∈ ranges h →
  ∃ h', (h' ∈ gs ∨ h' = g) ∧ g_column h' = g_column h ∧ r ∈ ranges h'.
Proof.
  induction gs as [|x gs IH]; cbn.
  - intros ->%list_elem_of_singleton Hr. exists g. auto.
  - case_bool_decide as Hc; intros [->|Hin]%elem_of_cons Hr; cbn in *.
    + apply elem_of_app in Hr as [Hr|Hr]; [exists x|exists g]; split_and!; try done; [left; by left|by right].
    + exists h. split_and!; try done. left. by right.
    + exists x. split_and!; try done. left. by left.
    + destruct (IH Hin Hr) as (h' & [?| ->] & ? & ?); [exists h'|exists g]; split_and!; try done; [left; by right|by right].
Qed.

Lemma add_groups_from hs gs h r : h ∈ for_each hs gs add_group → r ∈ ranges h →
  ∃ h', (h' ∈ gs ∨ h' ∈ hs) ∧ g_column h' = g_column h ∧ r ∈ ranges h'.
Proof.
  unfold for_each. revert gs. induction hs as [|x hs IH]; intros gs; cbn; [intros; exists h; auto|].
  intros Hh Hr. destruct (IH _ Hh Hr) as (h1 & [H1|H1] & Hc & Hr1); [|exists h1; split_and!; [right; by right|done..]].
  destruct (add_group_from _ _ _ _ H1 Hr1) as (h2 & [?| ->] & ? & ?).
  - exists h2. split_and!; [by left|congruence|done].
  - exists x. split_and!; [right; by left|congruence|done].
Qed.
End grouping.

Section points.
Context `{HashIter}.
Implicit Types (e : Expr) (g : ZoneMapPredicateGroup) (h : ZoneMapOrGroup).

(** An equality with a literal that has a place in its type's order. *)
Definition point (c : string * CompareOp * ScalarVal) : Prop :=
  c.1.2 = OpEq ∧ ∃ t v, scalar_value c.2 = Some (t, v) ∧ has_type t v ∧ is_Some (order_key t v).

Definition point_range e (col : string) (r : bytes * bytes) : Prop :=
  ∃ val t v, (col, OpEq, val) ∈ comparisons e ∧ scalar_value val = Some (t, v) ∧ has_type t v ∧ r = (enc t v, enc t v).

Lemma scalar_to_bytes_enc val t v : scalar_value val = Some (t, v) → scalar_to_bytes val = Some (enc t v).
Proof. destruct val as [|[]|?|?|?]; cbn; by intros [= <- <-]. Qed.

Lemma merged_group_range A B col h r : merged_group A B col = Some h → r ∈ ranges h →
  g_column h = col ∧ ((∃ h', A !! col = Some h' ∧ r ∈ ranges h') ∨ (∃ h', B !! col = Some h' ∧ r ∈ ranges h')).
Proof.
  unfold merged_group. case_bool_decide; [done|]. intros [= <-]. cbn. split; [done|].
  destruct (A !! col), (B !! col); cbn in *; set_solver.
Qed.

Lemma merged_group_lookup A B cols col h : col ∈ cols → merged_group A B col = Some h →
  group_map (omap (merged_group A B) cols) !! col = Some h.
Proof.
  intros Hin Hh. induction cols as [|c cols IH] using rev_ind; [by apply elem_of_nil in Hin|].
  rewrite omap_app. cbn. destruct (merged_group A B c) as [h'|] eqn:Hc.
  - rewrite group_map_snoc.
    assert (g_column h' = c) as -> by (unfold merged_group in Hc; case_bool_decide; [done|by injection Hc as <-]).
    destruct (decide (c = col)) as [->|]; [rewrite lookup_insert_eq; congruence|]. rewrite lookup_insert_ne by done.
    apply IH. set_solver.
  - rewrite app_nil_r. apply IH. apply elem_of_app in Hin as [?|?%list_elem_of_singleton]; [done|congruence].
Qed.

Lemma hash_iter_keys {A} (m : gmap string A) k : is_Some (m !! k) → k ∈ (hash_iter m).*1.
Proof.
  intros [x Hx]. apply list_elem_of_fmap. exists (k, x). split; [done|].
  rewrite hash_iter_perm. by apply elem_of_map_to_list.
Qed.

(** Every range of the groups is a point of the filter. *)
Lemma grouped_ranges e g h r : Forall point (comparisons e) → extract_predicates_grouped e = Some g →
  h ∈ groups g → r ∈ ranges h → point_range e (g_column h) r.
Proof.
  revert g h r. induction e as [col op val|x IHx y IHy|x IHx y IHy|]; intros g h r Hp; cbn; [|..|done].
  - apply Forall_cons in Hp as [(Hop & t & v & Hs & Ht & _) _]. cbn in Hop, Hs. subst op.
    rewrite (scalar_to_bytes_enc _ _ _ Hs). cbn. intros [= <-] ->%list_elem_of_singleton ->%list_elem_of_singleton.
    exists val, t, v. split_and!; try done. by left.
  - apply Forall_app in Hp as [Hx Hy]. destruct (extract_predicates_grouped x) as [gx|]; [|done].
    destruct (extract_predicates_grouped y) as [gy|]; [|done]. cbn. intros [= <-] Hh Hr.
    destruct (add_groups_from _ _ _ _ Hh Hr) as (h' & [Hh'|Hh'] & <- & Hr').
    + destruct (IHx _ _ _ Hx eq_refl Hh' Hr') as (val & t & v & ? & ?). exists val, t, v. set_solver.
    + destruct (IHy _ _ _ Hy eq_refl Hh' Hr') as (val & t & v & ? & ?). exists val, t, v. set_solver.
  - apply Forall_app in Hp as [Hx Hy]. destruct (extract_predicates_grouped x) as [gx|]; [|done].
    destruct (extract_predicates_grouped y) as [gy|]; [|done]. cbn. intros [= <-] Hh Hr.
    apply list_elem_of_omap in Hh as (col & _ & Hm).
    destruct (merged_group_range _ _ _ _ _ Hm Hr) as (-> & [(h' & Hh' & Hr')|(h' & Hh' & Hr')]);
      apply group_map_elem in Hh' as [Hh' <-].
    + destruct (IHx _ _ _ Hx eq_refl Hh' Hr') as (val & t & v & ? & ?). exists val, t, v. set_solver.
    + destruct (IHy _ _ _ Hy eq_refl Hh' Hr') as (val & t & v & ? & ?). exists val, t, v. set_solver.
Qed.

(** A point that a row of the batch has, with its range in the group of its column. *)
Definition hit {Arr} `{Arrow Arr} e g (b : RecordBatch Arr) (i : Z) : Prop :=
  ∃ col val t v h, (col, OpEq, val) ∈ comparisons e ∧ scalar_value val = Some (t, v) ∧
    row_slot b i col = Some v ∧ group_map (groups g) !! col = Some h ∧ (enc t v, enc t v) ∈ ranges h.

Lemma merged_group_hit A B col h r : (A !! col = Some h ∨ B !! col = Some h) → r ∈ ranges h →
  ∃ h', merged_group A B col = Some h' ∧ r ∈ ranges h'.
Proof.
  intros Hh Hr. unfold merged_group.
  assert (r ∈ default [] (ranges <$> A !! col) ++ default [] (ranges <$> B !! col)) as Hin.
  { apply elem_of_app. destruct Hh as [-> | ->]; cbn; auto. }
  case_bool_decide as He; [rewrite He in Hin; by apply elem_of_nil in Hin|]. by eexists.
Qed.

(** A row that SQL selects has a point. *)
Lemma sql_row_hit `{Arrow Arr} e g (b : RecordBatch Arr) i : Forall point (comparisons e) →
  extract_predicates_grouped e = Some g → sql_row e b i = Some true → hit e g b i.
Proof.
  revert g. unfold sql_row. induction e as [col op val|x IHx y IHy|x IHx y IHy|]; intros g Hp; cbn; [|..|done].
  - apply Forall_cons in Hp as [(Hop & t & v & Hs & Ht & _) _]. cbn in Hop, Hs. subst op.
    rewrite (scalar_to_bytes_enc _ _ _ Hs). unfold compare_slot. rewrite Hs. cbn. intros [= <-].
    destruct (row_slot b i col) as [w|] eqn:Hw; [|done]. cbn. intros [= ->%bool_decide_eq_true].
    exists col, val, t, v, {| g_column := col; ranges := [(enc t v, enc t v)] |}. cbn.
    unfold group_map, for_each. cbn. rewrite lookup_insert_eq. split_and!; try done; by left.
  - apply Forall_app in Hp as [Hx Hy]. destruct (extract_predicates_grouped x) as [gx|]; [|done].
    destruct (extract_predicates_grouped y) as [gy|]; [|done]. cbn. intros [= <-] Hr.
    assert (row_eval kleene_and kleene_or x b i = Some true) as Hrx.
    { destruct (row_eval _ _ x b i) as [[]|]; [done|done|]. by destruct (row_eval _ _ y b i) as [[]|]. }
    destruct (IHx _ Hx eq_refl Hrx) as (col & val & t & v & h & ? & ? & ? & Hh & Hin).
    destruct (add_groups_grows (groups gy) (groups gx) col h Hh) as (h' & Hh' & Hsub).
    exists col, val, t, v, h'. cbn. split_and!; try done; set_solver.
  - apply Forall_app in Hp as [Hx Hy]. destruct (extract_predicates_grouped x) as [gx|]; [|done].
    destruct (extract_predicates_grouped y) as [gy|]; [|done]. cbn. intros [= <-] Hr.
    assert (hit x gx b i ∨ hit y gy b i) as Hor.
    { destruct (row_eval _ _ x b i) as [[]|]; [left; by apply IHx|right; apply IHy..]; try done;
        by destruct (row_eval _ _ y b i) as [[]|]. }
    destruct Hor as [(col & val & t & v & h & ? & ? & ? & Hh & Hin)|(col & val & t & v & h & ? & ? & ? & Hh & Hin)].
    + destruct (merged_group_hit (group_map (groups gx)) (group_map (groups gy)) col h (enc t v, enc t v))
        as (h' & Hm & Hin'); [by left|done|].
      exists col, val, t, v, h'. split_and!; try done; [cbn; set_solver|]. apply merged_group_lookup; [|done].
      apply elem_of_app. left. by apply hash_iter_keys.
    + destruct (merged_group_hit (group_map (groups gx)) (group_map (groups gy)) col h (enc t v, enc t v))
        as (h' & Hm & Hin'); [by right|done|].
      exists col, val, t, v, h'. split_and!; try done; [cbn; set_solver|]. apply merged_group_lookup; [|done].
      apply elem_of_app. right. by apply hash_iter_keys.
Qed.
End points.

(** ** A segment with its index files *)

Lemma no_group_overlaps_spec `{BloomEnv, Codec GranuleZoneMapIndex} columns zm_file gs :
  (∀ h, h ∈ gs → ∃ o, evaluate_or_group_for_segment columns zm_file h = Done o) →
  ∃ o, no_group_overlaps columns zm_file gs = Done o ∧
    (o = true → ∀ h, h ∈ gs → evaluate_or_group_for_segment columns zm_file h = Done false).
Proof.
  induction gs as [|h gs IH]; intros Hd; [exists true; set_solver|]. cbn.
  destruct (Hd h) as ([] & Hh); [by left|rewrite Hh; by exists false|]. rewrite Hh.
  destruct IH as (o & -> & Ho); [intros; apply Hd; by right|]. exists o. split; [done|].
  intros -> h' [->|]%elem_of_cons; [done|by apply Ho].
Qed.
Section indexed.
Context `{BloomEnv, CodecLaws GranuleZoneMapIndex, ArrowLaws Arr, HashIter}.
Implicit Types (batches : list (RecordBatch Arr)) (columns : list string) (zm_file : string → option (Result bytes)).

(** Every batch has the column, with type [t]. *)
Definition column_typed batches (col : string) (t : DataType) : Prop :=
  Forall (λ b, ∃ a, column_by_name b col = Some a ∧ arr_type a = t ∧ typed_array a ∧ arr_len a < 2 ^ 32) batches.
(** The column's index file, when it can be read, was written from the batches. *)
Definition index_written batches zm_file (col : string) (t : DataType) : Prop :=
  match zm_file col with
  | Some (Ok data) =>
      ∃ bld, append_all (BlockZoneMapBuilder_new col t) (omap (λ b, column_by_name b col) batches) = Some bld ∧
        zm_to_bytes (finalize bld) = Ok data ∧ zlen data ≤ zm_limit
  | _ => True
  end.
Definition indexed batches zm_file (col : string) (t : DataType) : Prop := column_typed batches col t ∧ index_written batches zm_file col t.

Lemma indexed_columns batches zm_file col t : indexed batches zm_file col t →
  Forall (λ a, arr_type a = t ∧ typed_array a ∧ arr_len a < 2 ^ 32) (omap (λ b, column_by_name b col) batches).
Proof.
  intros [Hb _]. unfold column_typed in Hb. rewrite Forall_forall in Hb. apply Forall_forall. intros a (b & Hin & Ha)%list_elem_of_omap.
  destruct (Hb b Hin) as (a' & Ha' & ?). by simplify_eq.
Qed.

Lemma may_overlap_reload z lo hi : may_overlap (rebuild_all (strip_blooms z)) lo hi = may_overlap z lo hi.
Proof. unfold may_overlap. by rewrite rebuild_all_blocks. Qed.

(** A group of points is evaluated without a panic, and is not excluded when a
    row has one of its points. *)
Lemma group_evaluated columns zm_file batches h :
  (∀ r, r ∈ ranges h → ∃ t v, indexed batches zm_file (g_column h) t ∧ has_type t v ∧ r = (enc t v, enc t v)) →
  ∃ o, evaluate_or_group_for_segment columns zm_file h = Done o ∧
    (o = false → ∀ b i t v, b ∈ batches → batch_wf b → 0 ≤ i < rb_rows b → row_slot b i (g_column h) = Some v →
       has_type t v → is_Some (order_key t v) → indexed batches zm_file (g_column h) t →
       (enc t v, enc t v) ∉ ranges h).
Proof.
  intros Hr. unfold evaluate_or_group_for_segment. case_bool_decide; cbn [negb]; [|by eexists].
  destruct (zm_file (g_column h)) as [[data|]|] eqn:Hz; [|by eexists..].
  destruct (zm_from_bytes data) as [z|] eqn:Hd; [|by eexists].
  assert (∀ t, indexed batches zm_file (g_column h) t → ∃ bld,
    append_all (BlockZoneMapBuilder_new (g_column h) t) (omap (λ b, column_by_name b (g_column h)) batches) = Some bld ∧
    ∀ lo hi, may_overlap z lo hi = may_overlap (finalize bld) lo hi) as Hidx.
  { intros t [_ Hf]. unfold index_written in Hf. rewrite Hz in Hf. destruct Hf as (bld & Hb & Hto & Hl). exists bld. split; [done|].
    rewrite (zm_from_to_bytes _ _ Hto eq_refl Hl) in Hd. injection Hd as <-. apply may_overlap_reload. }
  assert (∃ o, any_range (may_overlap z) (ranges h) = Done o ∧
            (o = false → ∀ r, r ∈ ranges h → may_overlap z r.1 r.2 = Done false)) as (o & -> & Ho).
  { clear Hd. induction (ranges h) as [|[lo hi] rs IH]; [exists false; set_solver|]. cbn [any_range].
    destruct (Hr (lo, hi)) as (t & v & Hi & Ht & [= -> ->]); [by left|].
    destruct (Hidx t Hi) as (bld & Hb & Hm). pose proof (indexed_columns _ _ _ _ Hi) as Hc.
    destruct (built_index_no_panic (g_column h) t _ Hc v v bld Ht Ht Hb) as ([] & Ho'); rewrite Hm, Ho';
      [by exists true|].
    destruct IH as (o & Ho & Hf); [intros; apply Hr; by right|]. exists o. split; [done|].
    intros -> r [->|Hin]%elem_of_cons; [cbn; by rewrite Hm|by apply Hf]. }
  exists o. split; [done|]. intros -> b i t v Hb Hwf Hi Hv Ht [k Hk] Hx Hin.
  destruct (Hidx t Hx) as (bld & Hbld & Hm). pose proof (indexed_columns _ _ _ _ Hx) as Hc.
  unfold row_slot in Hv. destruct (column_by_name b (g_column h)) as [a|] eqn:Ha; [|done]. cbn in Hv.
  destruct (built_index_overlaps (g_column h) t _ Hc a i v k v k v k) as (bld' & Hb' & Hov); try done.
  - apply list_elem_of_omap. by exists b.
  - by rewrite (column_by_name_rows b (g_column h) a).
  - apply ltb_irrefl.
  - apply ltb_irrefl.
  - pose proof (Ho eq_refl _ Hin) as Hf. cbn in Hf. rewrite Hm in Hf. congruence.
Qed.

End indexed.

(** * Properties *)

(** C16: a segment that is skipped holds no selected row.  Take a filter made of
    equalities with literals, AND and OR, in which every column is compared with
    literals of its own type only, and index files that were written from the segment's
    batches.  Then the test returns, and when it answers that the segment can be
    skipped no row of any batch satisfies the filter as SQL reads it, mixed ORs and
    repeated columns included.  The condition on the types is needed: the code does not
    compare them, and an equality with a literal of another type can panic
    ([literal_type_mismatch_panics]). *)
Theorem zone_map_skip_sound `{BloomEnv, CodecLaws GranuleZoneMapIndex, ArrowLaws Arr, HashIter}
    (e : Expr) columns zm_file (batches : list (RecordBatch Arr)) :
  Forall batch_wf batches → Forall point (comparisons e) →
  (∀ col op val t v, (col, op, val) ∈ comparisons e → scalar_value val = Some (t, v) → column_typed batches col t) →
  (∀ col op val t v, (col, op, val) ∈ comparisons e → scalar_value val = Some (t, v) → index_written batches zm_file col t) →
  ∃ o, should_skip_segment_for_zone_map columns zm_file (extract_predicates_grouped e) = Done o ∧
    (o = true → ∀ b i, b ∈ batches → 0 ≤ i < rb_rows b → sql_row e b i ≠ Some true).
Proof.
  intros Hwf Hp Hty Hwr.
  assert (∀ col op val t v, (col, op, val) ∈ comparisons e → scalar_value val = Some (t, v) → indexed batches zm_file col t) as Hidx
    by (intros col op val t v Hin Hs; split; eauto).
  destruct (extract_predicates_grouped e) as [g|] eqn:He; [|by exists false]. cbn.
  destruct (_ || _); [by exists false|].
  assert (∀ h, h ∈ groups g → ∀ r, r ∈ ranges h →
    ∃ t v, indexed batches zm_file (g_column h) t ∧ has_type t v ∧ r = (enc t v, enc t v)) as Hr.
  { intros h Hh r Hr. destruct (grouped_ranges e g h r Hp He Hh Hr) as (val & t & v & Hin & Hs & Ht & ->).
    exists t, v. split_and!; [by eapply Hidx|done|done]. }
  destruct (no_group_overlaps_spec columns zm_file (groups g)) as (o & -> & Ho).
  { intros h Hh. destruct (group_evaluated columns zm_file batches h (Hr h Hh)) as (o & ? & _). by exists o. }
  exists o. split; [done|]. intros -> b i Hb Hi Hsql.
  destruct (sql_row_hit e g b i) as (col & val & t & v & h & Hin & Hs & Hv & Hh & Hrg);
    [done|done|done|]. apply group_map_elem in Hh as [Hh <-].
  destruct (group_evaluated columns zm_file batches h (Hr h Hh)) as (o & Heq & Hno).
  rewrite (Ho eq_refl h Hh) in Heq. injection Heq as <-.
  rewrite Forall_forall in Hp. rewrite Forall_forall in Hwf. destruct (Hp _ Hin) as (_ & t' & v' & Hs' & Ht & Hk). cbn in Hs'. simplify_eq.
  refine (Hno eq_refl b i t v Hb (Hwf _ Hb) Hi Hv Ht Hk _ Hrg). by eapply Hidx.
Qed.

(** The evaluator on comparisons and their negations.  On a well-formed batch
    that has the columns with the literals' types, every row's result is SQL's
    three-valued one. *)
Theorem evaluate_comparisons_sql `{Arrow Arr, !ArrowCmp Arr, !ArrowCmpLaws Arr} (e : Expr) (b : RecordBatch Arr) :
  batch_wf b → Forall (supported b) (comparisons e) → unconnected e = true →
  evaluate e b = Ok (sql_row e b <$> seqZ 0 (rb_rows b)).
Proof.
  intros Hwf Hs Hu. rewrite evaluate_rows by done. f_equal. apply list_fmap_ext. intros _ i _. by apply unconnected_row.
Qed.

(** The evaluator drops an operand.  Where the left operand is null in no row,
    AND is its right operand and OR its left one, whatever the other evaluates to:
    [Option::and] and [Option::or] combine the presence of the results, not their
    truth. *)
Theorem evaluate_drops_operand `{Arrow Arr, !ArrowCmp Arr, !ArrowCmpLaws Arr} (e e' : Expr) (b : RecordBatch Arr) :
  batch_wf b → Forall (supported b) (comparisons e ++ comparisons e') →
  (∀ i, 0 ≤ i < rb_rows b → is_Some (code_row e b i)) →
  evaluate (And e e') b = evaluate e' b ∧ evaluate (Or e e') b = evaluate e b.
Proof.
  intros Hwf Hs Hn. assert (Forall (supported b) (comparisons e) ∧ Forall (supported b) (comparisons e')) as [Hs1 Hs2]
    by by apply Forall_app.
  rewrite !evaluate_rows by done. split; f_equal; apply list_fmap_ext; intros k i [-> Hi]%lookup_seqZ;
    destruct (Hn (0 + Z.of_nat k)) as [x Hx]; try lia; unfold code_row in *; cbn; by rewrite Hx.
Qed.

(** ** A concrete run *)

#[export] Instance ListArray_cmp : ArrowCmp ListArray := {
  arrow_cmp op a val :=
    match scalar_value val with
    | Some (t, _) => if bool_decide (arr_type a = t) then Ok (compare_slot op val <$> slots a)
                     else Err "Invalid comparison operation"
    | None => Err "Invalid comparison operation"
    end;
  arrow_is_null a := Ok (compare_slot OpEq SNull <$> slots a);
  arrow_is_not_null a := Ok (compare_slot OpNe SNull <$> slots a)
}.
#[export] Instance ListArray_cmp_laws : ArrowCmpLaws ListArray.
Proof.
  split; [|done..]. intros op a val t w Hs Ht. cbn [arrow_cmp ListArray_cmp]. rewrite Hs.
  by rewrite bool_decide_true.
Qed.

Definition batch_of (col : string) (a : ListArray) : RecordBatch ListArray :=
  Build_RecordBatch [{| f_name := col; f_type := arr_type a; f_nullable := true |}] [a] (arr_len a).

Lemma batch_of_wf col a : batch_wf (batch_of col a).
Proof. repeat constructor; cbn; try done. Qed.

(** The index file of one column of one batch, with a codec for that index. *)
Definition sample_index_of (col : string) (a : ListArray) : option GranuleZoneMapIndex :=
  let E := sample_env in finalize <$> append_all (BlockZoneMapBuilder_new col (arr_type a)) [a].
Definition index_file (col : string) : string → option (Result bytes) :=
  λ c, if bool_decide (c = col) then Some (Ok (zm_header_bytes ++ [1])) else None.

(** Whether the segment of one column is skipped for a filter. *)
Definition skip_for (e : Expr) (col : string) (a : ListArray) : option (outcome bool) :=
  let E := sample_env in
  match sample_index_of col a with
  | Some z =>
      let C := one_index_codec (strip_blooms z) in
      Some (should_skip_segment_for_zone_map [col] (index_file col) (extract_predicates_grouped e))
  | None => None
  end.

Definition str_array (l : list string) : ListArray := {| la_type := Utf8; la_slots := (Some ∘ VStr) <$> l |}.

(** Range filters and the index.  A comparison with an open end passes an empty
    bound to the index: the segment of the [Int64] column 1, 2, 3 makes the scan for
    [id >= 2] panic, and the segment of the single string m is skipped for
    [s >= a], whose row the evaluator selects. *)
Theorem range_filter_misjudged :
  skip_for (Comparison "id" OpGe (SInt64 2)) "id" (int_array [Some 1; Some 2; Some 3]) = Some Panic ∧
  skip_for (Comparison "s" OpGe (SString "a")) "s" (str_array ["m"]) = Some (Done true) ∧
  evaluate (Comparison "s" OpGe (SString "a")) (batch_of "s" (str_array ["m"])) = Ok [Some true].
Proof. vm_compute. done. Qed.

(** An equality with a literal of another type than the column's. *)
Example literal_type_mismatch_panics :
  skip_for (Comparison "id" OpEq (SString "x")) "id" (int_array [Some 1; Some 2; Some 3]) = Some Panic.
Proof. vm_compute. reflexivity. Qed.

Definition sample_batch : RecordBatch ListArray := batch_of "id" (int_array [Some 1; Some 2; Some 3]).
Definition id_is (z : Z) : Expr := Comparison "id" OpEq (SInt64 z).

Lemma sample_supported z : supported sample_batch ("id", OpEq, SInt64 z).
Proof. by eexists. Qed.

Lemma id_point z : - 2 ^ 63 ≤ z < 2 ^ 63 → point ("id", OpEq, SInt64 z).
Proof. intros Hz. split; [done|]. exists Int64, (VInt z). split_and!; [done|done|by eexists]. Qed.

Lemma two_ids x y col op val t v :
  (col, op, val) ∈ comparisons (Or (id_is x) (id_is y)) → scalar_value val = Some (t, v) → col = "id" ∧ t = Int64.
Proof.
  cbn [comparisons id_is app]. intros [Hin|Hin%list_elem_of_singleton]%elem_of_cons Hs;
    injection Hin as -> _ ->; by injection Hs as <- _.
Qed.

Lemma evaluate_comparisons_sql_witness :
  evaluate (Not (id_is 2)) sample_batch = Ok [Some true; Some false; Some true].
Proof.
  change ([Some true; Some false; Some true]) with (sql_row (Not (id_is 2)) sample_batch <$> seqZ 0 (rb_rows sample_batch)).
  apply evaluate_comparisons_sql; [apply batch_of_wf| |reflexivity].
  apply Forall_cons. split; [apply sample_supported|constructor].
Defined.

(** [id = 1 AND id = 2] selects the row of 2, and [id = 1 OR id = 2] does not. *)
Lemma evaluate_drops_operand_witness :
  evaluate (And (id_is 1) (id_is 2)) sample_batch = Ok [Some false; Some true; Some false] ∧
  evaluate (Or (id_is 1) (id_is 2)) sample_batch = Ok [Some true; Some false; Some false].
Proof.
  change (Ok [Some false; Some true; Some false]) with (evaluate (id_is 2) sample_batch).
  change (Ok [Some true; Some false; Some false]) with (evaluate (id_is 1) sample_batch).
  apply evaluate_drops_operand; [apply batch_of_wf| |].
  - repeat (apply Forall_cons; split; [apply sample_supported|]). constructor.
  - intros i Hi. assert (i = 0 ∨ i = 1 ∨ i = 2) as [->|[->| ->]] by (change (0 ≤ i < 3) in Hi; lia); by eexists.
Defined.

(** The segment of 1, 2, 3 is skipped for [id = 7 OR id = 9 AND id = 1]: its only
    excluded alternatives. *)
Lemma zone_map_skip_sound_witness :
  let E := sample_env in
  match sample_index_of "id" (int_array [Some 1; Some 2; Some 3]) with
  | Some z =>
      let C := one_index_codec (strip_blooms z) in
      ∃ o, should_skip_segment_for_zone_map ["id"] (index_file "id")
             (extract_predicates_grouped (Or (id_is 7) (id_is 9))) = Done o ∧
        (o = true → ∀ b i, b ∈ [sample_batch] → 0 ≤ i < rb_rows b →
           sql_row (Or (id_is 7) (id_is 9)) b i ≠ Some true)
  | None => False
  end.
Proof.
  intros E. destruct (sample_index_of _ _) as [z|] eqn:Hz; [|by vm_compute in Hz]. intros C.
  apply (@zone_map_skip_sound E C (one_index_codec_laws _) ListArray _ _ _).
  - apply Forall_singleton, batch_of_wf.
  - repeat (apply Forall_cons; split; [apply id_point; lia|]). constructor.
  - intros col op val t v Hin Hs. destruct (two_ids 7 9 col op val t v Hin Hs) as [-> ->].
    repeat constructor. eexists. split_and!; [done|done| |reflexivity].
    intros i w. unfold arr_slot; cbn. destruct (Z.to_nat i) as [|[|[|[]]]]; cbn; intros [= <-]; cbn; lia.
  - assert (∃ bld, append_all (BlockZoneMapBuilder_new "id" Int64) [int_array [Some 1; Some 2; Some 3]] = Some bld ∧
             finalize bld = z) as (bld & Hb & Hf).
    { unfold sample_index_of in Hz. destruct (append_all _ _) as [bld|] eqn:Hb; [|done]. exists bld. split; [done|].
      by injection Hz. }
    intros col op val t v Hin Hs. destruct (two_ids 7 9 col op val t v Hin Hs) as [-> ->].
    cbn. exists bld. split_and!; [exact Hb| |vm_compute; done].
    rewrite Hf. unfold zm_to_bytes. cbn. by rewrite decide_True.
Defined.
