(* ===== verification/SparseIndex.v ===== *)
(** The sparse primary-key index of a sorted segment (segment/sparse_index.rs):
    sampling, the sorted view with its binary search, and the file form. *)

From stdpp Require Import base gmap strings list pretty sorting.
From S2P Require Import Prelude Kv Arrow.

Local Open Scope Z_scope.

(** * [slice::binary_search_by] *)

(** The search of the standard library: [base] and [size] delimit the part that can
    hold an equal element; the last probe decides. *)
Fixpoint search_loop {A} (f : A → comparison) (l : list A) (fuel base size : nat) : nat :=
  match fuel with
  | O => base
  | S fuel' =>
      if (size <=? 1)%nat then base else
      let half := (size / 2)%nat in
      let mid := (base + half)%nat in
      let base' := match f <$> l !! mid with Some Gt => base | _ => mid end in
      search_loop f l fuel' base' (size - half)
  end.

(** [Ok i] for a match at [i], [Err i] for the place to insert. *)
Definition binary_search_by {A} (f : A → comparison) (l : list A) : result nat nat :=
  match l with
  | [] => Err 0%nat
  | _ =>
      let base := search_loop f l (length l) 0 (length l) in
      match f <$> l !! base with
      | Some Eq => Ok base
      | Some Lt => Err (S base)
      | _ => Err base
      end
  end.

(** * The index *)

Definition SPARSE_INDEX_SAMPLE_RATE : Z := 8192.
Definition SPARSE_INDEX_MAGIC : bytes := [83; 83; 73; 88].
Definition SPARSE_INDEX_VERSION : Z := 2.

Abbreviation SparseIndexEntry := (Z * bytes)%type.

Record SegmentSparseIndex := {
  entries : list SparseIndexEntry;
  entries_by_pk : list SparseIndexEntry
}.

Definition SegmentSparseIndex_new : SegmentSparseIndex := {| entries := []; entries_by_pk := [] |}.

Definition add_sample (ix : SegmentSparseIndex) (row_offset : Z) (pk : bytes) : SegmentSparseIndex :=
  {| entries := entries ix ++ [(row_offset, pk)]; entries_by_pk := entries_by_pk ix |}.

Definition entry_le (a b : SparseIndexEntry) : bool := negb (ltb b.2 a.2).

(** [mem::take(&mut self.entries)], then the sort by key. *)
Definition build (ix : SegmentSparseIndex) : SegmentSparseIndex :=
  {| entries := []; entries_by_pk := sort_by entry_le (entries ix) |}.

Definition find_offset (ix : SegmentSparseIndex) (target : bytes) : option Z :=
  match binary_search_by (λ e : SparseIndexEntry, cmp e.2 target) (entries_by_pk ix) with
  | Ok i => fst <$> entries_by_pk ix !! i
  | Err _ => None
  end.

(** ** The file form *)

Definition HEADER_SIZE : Z := 17.

Definition write_header (num_entries : Z) : bytes :=
  SPARSE_INDEX_MAGIC ++ [SPARSE_INDEX_VERSION] ++ to_le_bytes 4 0 ++ to_le_bytes 8 num_entries.

Section file.
Context `{Codec (list SparseIndexEntry)}.

(** The content of the file that [save] writes. *)
Definition save (ix : SegmentSparseIndex) : Result bytes :=
  payload <-? map_err (λ e, ESerialization ("save sparse index: " +:+ codec_error_display e)) (encode (entries ix));
  Ok (write_header (zlen (entries ix)) ++ payload).

(** [load] on the content of the file; [path] and [magic] are what the messages
    print. *)
Definition load (path magic : string) (data : bytes) : Result SegmentSparseIndex :=
  if zlen data <? HEADER_SIZE then
    Err (EDeserialize ("sparse index file too small (" +:+ pretty (zlen data) +:+ " bytes, expected at least "
                       +:+ pretty HEADER_SIZE +:+ "): " +:+ path))
  else if bool_decide (take 4 data = SPARSE_INDEX_MAGIC) then
    let version := default 0 (data !! 4%nat) in
    let num_entries := from_le_bytes (take 8 (drop 9 data)) in
    if SPARSE_INDEX_VERSION <? version then
      Err (EDeserialize ("sparse index version " +:+ pretty version +:+ " not supported (max: "
                         +:+ pretty SPARSE_INDEX_VERSION +:+ "): " +:+ path))
    else
    es <-? map_err (λ e, EDeserialize ("load sparse index: " +:+ codec_error_display e)) (decode (drop 17 data));
    if negb (zlen es =? num_entries) then
      Err (EDeserialize ("sparse index entry count mismatch: header says " +:+ pretty num_entries
                         +:+ ", loaded " +:+ pretty (zlen es)))
    else Ok (build {| entries := es; entries_by_pk := [] |})
  else
    Err (EDeserialize ("sparse index v1 detected (magic: " +:+ magic +:+ "): "
      +:+ "index is invalid and must be rebuilt from source Vortex data. "
      +:+ "Delete the .sparse_idx file and regenerate via compaction.")).
End file.

(** ** Sampling a sorted batch *)

(** [format!(..)] of an array in debug form *)
Class ArrayDebug (Arr : Type) := arr_debug : Arr → string.
#[global] Hint Mode ArrayDebug ! : typeclass_instances.

Section sampling.
Context `{Arrow Arr, ArrayDebug Arr}.

(** [a.value(idx).to_le_bytes()] at [n] bytes. *)
Definition value_le (n : nat) (v : Value) : bytes :=
  match v with
  | VInt z => to_le_bytes n z
  | VFloat b => to_le_bytes n b
  | _ => []
  end.
Definition value_raw (v : Value) : bytes :=
  match v with
  | VStr s => as_bytes s
  | VBin b => b
  | _ => []
  end.

Definition pk_to_bytes (a : Arr) (idx : Z) : bytes :=
  let v := arr_value a idx in
  match arr_type a with
  | Int8 | UInt8 => value_le 1 v
  | Int16 | UInt16 => value_le 2 v
  | Int32 | UInt32 | Float32 => value_le 4 v
  | Int64 | UInt64 | Float64 => value_le 8 v
  | Utf8 | LargeUtf8 => value_raw v
  | Binary | LargeBinary => value_raw v ++ to_le_bytes 4 (wrap32 (zlen (value_raw v)))
  | _ => as_bytes (arr_debug a)
  end.

(** [while row < num_rows]; the fuel bounds the number of samples. *)
Fixpoint sample_loop (a : Arr) (num_rows : Z) (fuel : nat) (row : Z) (ix : SegmentSparseIndex)
    : option SegmentSparseIndex :=
  if row <? num_rows then
    match fuel with
    | O => None
    | S fuel' =>
        sample_loop a num_rows fuel' (saturating_add64 row SPARSE_INDEX_SAMPLE_RATE)
          (add_sample ix row (pk_to_bytes a row))
    end
  else Some ix.

(** A column index out of the schema panics. *)
Definition from_sorted_batch (batch : RecordBatch Arr) (pk_column_idx : nat) : option (outcome SegmentSparseIndex) :=
  match rb_columns batch !! pk_column_idx with
  | None => Some Panic
  | Some pk_array =>
      ix ← sample_loop pk_array (rb_rows batch) (S (Z.to_nat (rb_rows batch / SPARSE_INDEX_SAMPLE_RATE))) 0
             SegmentSparseIndex_new;
      Some (Done (build ix))
  end.
End sampling.

(** * The search *)

Section search.
Context {A : Type} (f : A → comparison) (l : list A).

(** The elements are below, then equal to, then above the target. *)
Definition partitioned : Prop :=
  ∀ i j x y, (i < j)%nat → l !! i = Some x → l !! j = Some y →
    (f x = Gt → f y = Gt) ∧ (f y = Lt → f x = Lt).

Definition matches (i : nat) : Prop := f <$> l !! i = Some Eq.

Lemma search_loop_spec fuel base size : partitioned →
  (size ≤ fuel)%nat → (1 ≤ size)%nat → (base + size ≤ length l)%nat →
  (∃ i, (base ≤ i < base + size)%nat ∧ matches i) → matches (search_loop f l fuel base size).
Proof.
  intros Hp. revert base size. induction fuel as [|fuel IH]; intros base size Hf Hs Hb (i & Hi & Hm); [lia|].
  cbn [search_loop]. destruct (Nat.leb_spec size 1); [by replace base with i by lia|].
  assert (1 ≤ size / 2 ∧ size / 2 * 2 ≤ size)%nat as [H1 H2].
  { split; [apply Nat.div_le_lower_bound; lia|]. rewrite Nat.mul_comm. by apply Nat.Div0.mul_div_le. }
  set (half := (size / 2)%nat) in *. destruct (lookup_lt_is_Some_2 l (base + half)) as [y Hy]; [lia|].
  rewrite Hy. unfold matches in Hm. destruct (l !! i) as [x|] eqn:Hx; [|done]. injection Hm as Hm.
  change (f <$> Some y) with (Some (f y)). clearbody half. destruct (f y) eqn:Hfy; (apply IH; [lia..|]).
  - exists (base + half)%nat. split; [lia|]. unfold matches. by rewrite Hy; cbn; rewrite Hfy.
  - exists i. split; [|unfold matches; by rewrite Hx; cbn; rewrite Hm].
    destruct (decide (i < base + half)%nat) as [Hlt|]; [|lia].
    destruct (Hp _ _ _ _ Hlt Hx Hy) as [_ Hc]. rewrite (Hc Hfy) in Hm. done.
  - exists i. split; [|unfold matches; by rewrite Hx; cbn; rewrite Hm].
    destruct (decide (i < base + half)%nat) as [|Hge]; [lia|]. exfalso.
    destruct (decide (i = base + half)%nat) as [->|Hne]; [congruence|].
    destruct (Hp (base + half)%nat i y x) as [Hc _]; [lia|done|done|]. rewrite (Hc Hfy) in Hm. done.
Qed.

(** A match is found when there is one, and only a match is reported. *)
Lemma binary_search_by_ok i : binary_search_by f l = Ok i → matches i.
Proof.
  unfold binary_search_by, matches. destruct l as [|a l'] eqn:El; [done|]. rewrite <- El.
  destruct (f <$> l !! _) as [[]|] eqn:Hf; try done. by intros [= <-].
Qed.

Lemma binary_search_by_found : partitioned → (∃ i, matches i) → ∃ i, binary_search_by f l = Ok i.
Proof.
  intros Hp (i & Hm). unfold binary_search_by, matches in *. destruct (l !! i) as [x|] eqn:Hx; [|done].
  assert (matches (search_loop f l (length l) 0 (length l))) as Hs.
  { apply lookup_lt_Some in Hx as Hl. apply search_loop_spec; [done|lia..|]. exists i. split; [lia|].
    unfold matches. by rewrite Hx. }
  unfold matches in Hs. destruct l as [|a l'] eqn:El; [done|]. rewrite <- El in *. rewrite Hs. by eexists.
Qed.
End search.

(** * The sorted view *)

Lemma entry_le_total a b : entry_le a b = true ∨ entry_le b a = true.
Proof.
  unfold entry_le, ltb. destruct (cmp b.2 a.2) eqn:E; [by left| |by left]. right.
  rewrite cmp_opp, E. done.
Qed.

Lemma entry_le_trans a b c : entry_le a b = true → entry_le b c = true → entry_le a c = true.
Proof.
  unfold entry_le. rewrite !negb_true_iff. intros Hab Hbc. destruct (ltb c.2 a.2) eqn:E; [|done].
  destruct (ltb_split _ _ b.2 E); congruence.
Qed.

Lemma sorted_partitioned l target : StronglySorted (λ a b, entry_le a b = true) l →
  partitioned (λ e : SparseIndexEntry, cmp e.2 target) l.
Proof.
  intros Hs i j x y Hij Hx Hy.
  assert (entry_le x y = true) as Hle.
  { clear target. revert i j Hij Hx Hy. induction Hs as [|z l Hs IH Hz]; intros i j Hij Hx Hy; [done|].
    destruct j as [|j]; [lia|]. destruct i as [|i]; cbn in Hx, Hy.
    - injection Hx as <-. rewrite Forall_forall in Hz. apply Hz. by eapply list_elem_of_lookup_2.
    - eapply IH; [|done..]. lia. }
  unfold entry_le in Hle. apply negb_true_iff in Hle. split; intros Hc.
  - destruct (cmp y.2 target) eqn:E; [| |done]; exfalso; revert Hle; apply not_false_iff_true, ltb_lt.
    + apply cmp_eq in E. rewrite E, cmp_opp, Hc. done.
    + eapply cmp_lt_trans; [exact E|]. by rewrite cmp_opp, Hc.
  - destruct (cmp x.2 target) eqn:E; [|done|]; exfalso; revert Hle; apply not_false_iff_true, ltb_lt.
    + apply cmp_eq in E. by rewrite E.
    + eapply cmp_lt_trans; [exact Hc|]. by rewrite cmp_opp, E.
Qed.

(** A lookup returns the offset of an entry with the key, when there is one. *)
Lemma find_offset_build ix target :
  match find_offset (build ix) target with
  | Some off => (off, target) ∈ entries ix
  | None => ∀ off, (off, target) ∉ entries ix
  end.
Proof.
  assert (StronglySorted (λ a b, entry_le a b = true) (sort_by entry_le (entries ix))) as Hs.
  { apply sort_by_sorted; [apply entry_le_total|apply entry_le_trans]. }
  unfold find_offset, build. cbn. destruct (binary_search_by _ _) as [i|i] eqn:Hb.
  - apply binary_search_by_ok in Hb. unfold matches in Hb. destruct (sort_by _ _ !! i) as [[off pk]|] eqn:Hi; [|done].
    cbn in Hb |- *. injection Hb as Hb. apply cmp_eq in Hb as ->. rewrite <- (sort_by_perm entry_le (entries ix)).
    by eapply list_elem_of_lookup_2.
  - intros off Hin. rewrite <- (sort_by_perm entry_le (entries ix)) in Hin. apply list_elem_of_lookup in Hin as (k & Hk).
    destruct (binary_search_by_found (λ e : SparseIndexEntry, cmp e.2 target) _ (sorted_partitioned _ target Hs))
      as (j & Hj); [exists k; unfold matches; rewrite Hk; cbn; f_equal; by apply cmp_eq|]. congruence.
Qed.

(** * Sampling *)

Section sampling_proofs.
Context `{Arrow Arr, ArrayDebug Arr}.
Implicit Types a : Arr.

(** The rows from [row] on, one in [SPARSE_INDEX_SAMPLE_RATE], below [num_rows]. *)
Definition sampled (row num_rows r : Z) : Prop :=
  row ≤ r < num_rows ∧ (SPARSE_INDEX_SAMPLE_RATE | r - row).

Lemma sample_loop_spec a n fuel row ix : 0 ≤ row → n ≤ u64_max →
  n - row ≤ SPARSE_INDEX_SAMPLE_RATE * Z.of_nat fuel →
  ∃ ix', sample_loop a n fuel row ix = Some ix' ∧
    ∀ r pk, (r, pk) ∈ entries ix' ↔ (r, pk) ∈ entries ix ∨ (sampled row n r ∧ pk = pk_to_bytes a r).
Proof.
  unfold SPARSE_INDEX_SAMPLE_RATE. revert row ix. induction fuel as [|fuel IH]; intros row ix Hr Hn Hf; cbn [sample_loop].
  - destruct (Z.ltb_spec row n); [lia|]. exists ix. split; [done|]. unfold sampled. intros r pk. split; [by left|].
    intros [?|[[? _] _]]; [done|lia].
  - destruct (Z.ltb_spec row n) as [Hlt|Hge].
    2:{ exists ix. split; [done|]. unfold sampled. intros r pk. split; [by left|]. intros [?|[[? _] _]]; [done|lia]. }
    destruct (IH (saturating_add64 row SPARSE_INDEX_SAMPLE_RATE) (add_sample ix row (pk_to_bytes a row)))
      as (ix' & Hix & Hspec); unfold saturating_add64, SPARSE_INDEX_SAMPLE_RATE in *.
    { destruct (Z.leb_spec (row + 8192) u64_max); lia. }
    { done. }
    { destruct (Z.leb_spec (row + 8192) u64_max); lia. }
    exists ix'. split; [done|]. intros r pk. rewrite Hspec. cbn. rewrite elem_of_app, list_elem_of_singleton.
    unfold sampled, SPARSE_INDEX_SAMPLE_RATE. split.
    + intros [[?|[= -> ->]]|[[Hb [k Hk]] ->]]; [by left|right; split; [|done]; split; [lia|exists 0; lia]|].
      right. split; [|done]. destruct (Z.leb_spec (row + 8192) u64_max); [|lia]. split; [lia|]. exists (k + 1). lia.
    + intros [?|[[Hb [k Hk]] ->]]; [left; by left|]. destruct (decide (k = 0)) as [->|Hne].
      * left. right. f_equal; [lia|f_equal; lia].
      * right. split; [|done]. destruct (Z.leb_spec (row + 8192) u64_max); [|lia]. split; [lia|]. exists (k - 1). lia.
Qed.
End sampling_proofs.

(** The fields of a header with the entry count [c], in front of a payload. *)
Lemma header_fields c p : length c = 8%nat →
  let data := (SPARSE_INDEX_MAGIC ++ [SPARSE_INDEX_VERSION] ++ to_le_bytes 4 0 ++ c) ++ p in
  HEADER_SIZE ≤ zlen data ∧ take 4 data = SPARSE_INDEX_MAGIC ∧ data !! 4%nat = Some SPARSE_INDEX_VERSION ∧
  take 8 (drop 9 data) = c ∧ drop 17 data = p.
Proof.
  intros Hl. destruct c as [|? [|? [|? [|? [|? [|? [|? [|? [|]]]]]]]]]; try done.
  split_and!; try done. unfold zlen, HEADER_SIZE. rewrite !length_app. cbn [length]. rewrite to_le_bytes_length. change (length SPARSE_INDEX_MAGIC) with 4%nat. lia.
Qed.

(** * Properties *)

(** The index of a sorted batch.  Sampling terminates, and a lookup answers for
    the sampled rows only: it returns a row whose key has the searched bytes and
    whose number is a multiple of the sampling rate, and answers nothing when no
    such row has the key, also when the key lies between two samples. *)
Theorem sparse_index_lookup `{Arrow Arr, ArrayDebug Arr} (batch : RecordBatch Arr) idx a target :
  rb_columns batch !! idx = Some a → 0 ≤ rb_rows batch ≤ u64_max →
  ∃ ix, from_sorted_batch batch idx = Some (Done ix) ∧
    match find_offset ix target with
    | Some row => sampled 0 (rb_rows batch) row ∧ pk_to_bytes a row = target
    | None => ∀ row, sampled 0 (rb_rows batch) row → pk_to_bytes a row ≠ target
    end.
Proof.
  intros Ha Hn. unfold from_sorted_batch. rewrite Ha.
  destruct (sample_loop_spec a (rb_rows batch) (S (Z.to_nat (rb_rows batch / SPARSE_INDEX_SAMPLE_RATE))) 0
    SegmentSparseIndex_new) as (ix & -> & Hspec); [lia|lia| |].
  { unfold SPARSE_INDEX_SAMPLE_RATE. pose proof (Z.div_mod (rb_rows batch) 8192 ltac:(lia)).
    pose proof (Z.mod_pos_bound (rb_rows batch) 8192 ltac:(lia)).
    pose proof (Z.div_pos (rb_rows batch) 8192 ltac:(lia) ltac:(lia)). lia. }
  eexists. split; [done|]. pose proof (find_offset_build ix target) as Hf.
  destruct (find_offset (build ix) target) as [row|].
  - apply Hspec in Hf as [Hf|[? ->]]; [by apply elem_of_nil in Hf|done].
  - intros row Hr <-. apply (Hf row), Hspec. by right.
Qed.

(** The file of an index.  An index that has not been built is read back with
    its entries; one that has been built, as [from_sorted_batch] and [load] return
    it, is saved as an index without entries, so every lookup after a reload fails. *)
Theorem sparse_index_reload `{CodecLaws (list SparseIndexEntry)} path magic ix data :
  zlen (entries ix) < 2 ^ 64 →
  (save ix = Ok data → load path magic data = Ok (build ix)) ∧
  (save (build ix) = Ok data →
     ∃ ix', load path magic data = Ok ix' ∧ ∀ target, find_offset ix' target = None).
Proof.
  assert (∀ es, zlen (entries es) < 2 ^ 64 → save es = Ok data → load path magic data = Ok (build es)) as Hload.
  { intros es Hl. unfold save. destruct (encode (entries es)) as [p|] eqn:He; [|done]. cbn [map_err result_bind].
    intros Hd. assert (data = write_header (zlen (entries es)) ++ p) as -> by (by injection Hd). clear Hd.
    assert (length (to_le_bytes 8 (zlen (entries es))) = 8%nat) as Hlen by apply to_le_bytes_length.
    assert (from_le_bytes (to_le_bytes 8 (zlen (entries es))) = zlen (entries es)) as Hnum.
    { apply from_to_le_bytes. unfold zlen in *. cbn. lia. }
    destruct (header_fields (to_le_bytes 8 (zlen (entries es))) p Hlen) as (Hsz & Hm & Hv & Hn & Hp).
    unfold load, write_header. rewrite (proj2 (Z.ltb_ge _ _) Hsz), bool_decide_true, Hv, Hn, Hp, Hnum by done.
    rewrite (decode_encode _ _ He). cbn. by rewrite Z.eqb_refl. }
  intros Hl. split; [by apply Hload|]. intros Hs. exists (build (build ix)). split; [|done]. by apply (Hload (build ix)).
Qed.

(** ** A concrete run *)

#[export] Instance ListArray_debug : ArrayDebug ListArray := λ _, "PrimitiveArray".

Definition one_column (a : ListArray) : RecordBatch ListArray := Build_RecordBatch [] [a] (arr_len a).

(** The row between the samples is not found. *)
Lemma sparse_index_lookup_witness :
  ∃ ix, from_sorted_batch (one_column (int_array [Some 5; Some 9])) 0 = Some (Done ix) ∧
    match find_offset ix (to_le_bytes 8 5) with
    | Some row => sampled 0 2 row ∧ pk_to_bytes (int_array [Some 5; Some 9]) row = to_le_bytes 8 5
    | None => ∀ row, sampled 0 2 row → pk_to_bytes (int_array [Some 5; Some 9]) row ≠ to_le_bytes 8 5
    end.
Proof. by apply (sparse_index_lookup (one_column (int_array [Some 5; Some 9])) 0). Defined.

Example between_samples :
  from_sorted_batch (one_column (int_array [Some 5; Some 9])) 0 ≫= (λ r,
    match r with Done ix => Some (find_offset ix (to_le_bytes 8 5), find_offset ix (to_le_bytes 8 9)) | Panic => None end)
  = Some (Some 0, None).
Proof. vm_compute. reflexivity. Qed.

Lemma sparse_index_reload_witness :
  let C := countable_codec (list SparseIndexEntry) in
  let ix := add_sample SegmentSparseIndex_new 0 [7] in
  let data := match save (build ix) with Ok d => d | Err _ => [] end in
  ∃ ix', load "" "" data = Ok ix' ∧ ∀ target, find_offset ix' target = None.
Proof.
  intros C ix data.
  apply (proj2 (@sparse_index_reload C (countable_codec_laws _) "" "" ix data ltac:(vm_compute; reflexivity))).
  vm_compute. reflexivity.
Defined.
