(* ===== verification/DiskStore.v ===== *)
(** L2, the guard-indexed patch files (storage/delta/disk_store.rs): guards and
    their zone maps, the append of a patch, and the reading of a guard's file.
    The merge of a guard is in DiskMerge. *)

From stdpp Require Import base gmap strings list pretty.
From S2P Require Import Prelude Kv Visibility Roaring Arrow DeltaTypes DeltaMerge DeltaApply Frozen LayerStack.

Local Open Scope Z_scope.

Definition DELTA_FILE_MAGIC : Z := 1146113108.
Definition MAX_PAYLOAD_SIZE : Z := 256 * 1024 * 1024.

(** * Guards *)

Record GuardKey := { gk_seg : string; gk_col : string; gk_start : Z; gk_end : Z }.

#[export] Instance GuardKey_eq_dec : EqDecision GuardKey.
Proof. solve_decision. Defined.
#[export] Instance GuardKey_countable : Countable GuardKey.
Proof.
  by refine (inj_countable' (λ k, (gk_seg k, gk_col k, gk_start k, gk_end k))
    (λ '(s, c, a, b), {| gk_seg := s; gk_col := c; gk_start := a; gk_end := b |}) _); intros [].
Defined.

(** [impl Ord for GuardKey]: the end of the range does not count, so the map below
    has one guard per segment, column and start. *)
Definition guard_ord (k : GuardKey) : string * string * Z := (gk_seg k, gk_col k, gk_start k).

Record GuardZoneMap := {
  gz_min_txn : Z;
  gz_max_txn : Z;
  gz_patch_count : Z;
  gz_total_affected : Z;
  gz_min_value : option bytes;
  gz_max_value : option bytes
}.

Definition GuardZoneMap_default : GuardZoneMap :=
  {| gz_min_txn := 0; gz_max_txn := 0; gz_patch_count := 0; gz_total_affected := 0;
     gz_min_value := None; gz_max_value := None |}.

Definition gz_update (z : GuardZoneMap) (patch_zm : ZoneMap) (patch_count : Z) : GuardZoneMap :=
  {| gz_min_txn := if (gz_min_txn z =? 0) || (min_txn patch_zm <? gz_min_txn z)
                   then min_txn patch_zm else gz_min_txn z;
     gz_max_txn := if (gz_max_txn z =? 0) || (gz_max_txn z <? max_txn patch_zm)
                   then max_txn patch_zm else gz_max_txn z;
     gz_patch_count := patch_count;
     gz_total_affected := wrap64 (gz_total_affected z + affected_rows patch_zm);
     gz_min_value :=
       match gz_min_value z, min_value patch_zm with
       | Some mn, Some new_min => if ltb new_min mn then Some new_min else Some mn
       | _, Some new_min => Some new_min
       | old, None => old
       end;
     gz_max_value :=
       match gz_max_value z, max_value patch_zm with
       | Some mx, Some new_max => if ltb mx new_max then Some new_max else Some mx
       | _, Some new_max => Some new_max
       | old, None => old
       end |}.

Record Guard := {
  g_key : GuardKey;
  g_file_path : string;
  g_zone_map : GuardZoneMap;
  g_patch_count : Z
}.

Definition Guard_new (key : GuardKey) (path : string) : Guard :=
  {| g_key := key; g_file_path := path; g_zone_map := GuardZoneMap_default; g_patch_count := 0 |}.

Definition contains_row (g : Guard) (row : Z) : bool := (gk_start (g_key g) <=? row) && (row <? gk_end (g_key g)).

(** * The store *)

(** The files of the directory by path; the map of open handles, which nothing
    fills, is left out.  A value of [guards] carries the key it was inserted with. *)
Record DeltaL2Disk := {
  guards : btree (string * string * Z) (GuardKey * Guard);
  row_to_guard : gmap (string * string * Z) GuardKey;
  compaction_threshold : Z;
  root_dir : string;
  in_progress_merges : gset GuardKey;
  patch_cache : gmap GuardKey (list DeltaCell);
  seg_col_index : btree (string * string) (list GuardKey);
  l2_files : gmap string bytes
}.

Definition DeltaL2Disk_new (root : string) (files : gmap string bytes) : DeltaL2Disk :=
  {| guards := []; row_to_guard := ∅; compaction_threshold := 64; root_dir := root;
     in_progress_merges := ∅; patch_cache := ∅; seg_col_index := []; l2_files := files |}.

Definition set_l2_files (s : DeltaL2Disk) (fs : gmap string bytes) : DeltaL2Disk :=
  {| guards := guards s; row_to_guard := row_to_guard s; compaction_threshold := compaction_threshold s;
     root_dir := root_dir s; in_progress_merges := in_progress_merges s; patch_cache := patch_cache s;
     seg_col_index := seg_col_index s; l2_files := fs |}.
Definition set_guards (s : DeltaL2Disk) (gs : btree (string * string * Z) (GuardKey * Guard)) : DeltaL2Disk :=
  {| guards := gs; row_to_guard := row_to_guard s; compaction_threshold := compaction_threshold s;
     root_dir := root_dir s; in_progress_merges := in_progress_merges s; patch_cache := patch_cache s;
     seg_col_index := seg_col_index s; l2_files := l2_files s |}.
Definition set_indexes (s : DeltaL2Disk) (rows : gmap (string * string * Z) GuardKey)
    (sidx : btree (string * string) (list GuardKey)) : DeltaL2Disk :=
  {| guards := guards s; row_to_guard := rows; compaction_threshold := compaction_threshold s;
     root_dir := root_dir s; in_progress_merges := in_progress_merges s; patch_cache := patch_cache s;
     seg_col_index := sidx; l2_files := l2_files s |}.
Definition set_patch_cache (s : DeltaL2Disk) (c : gmap GuardKey (list DeltaCell)) : DeltaL2Disk :=
  {| guards := guards s; row_to_guard := row_to_guard s; compaction_threshold := compaction_threshold s;
     root_dir := root_dir s; in_progress_merges := in_progress_merges s; patch_cache := c;
     seg_col_index := seg_col_index s; l2_files := l2_files s |}.
Definition set_in_progress (s : DeltaL2Disk) (p : gset GuardKey) : DeltaL2Disk :=
  {| guards := guards s; row_to_guard := row_to_guard s; compaction_threshold := compaction_threshold s;
     root_dir := root_dir s; in_progress_merges := p; patch_cache := patch_cache s;
     seg_col_index := seg_col_index s; l2_files := l2_files s |}.
Definition set_compaction_threshold (s : DeltaL2Disk) (t : Z) : DeltaL2Disk :=
  {| guards := guards s; row_to_guard := row_to_guard s; compaction_threshold := t;
     root_dir := root_dir s; in_progress_merges := in_progress_merges s; patch_cache := patch_cache s;
     seg_col_index := seg_col_index s; l2_files := l2_files s |}.

Definition get_guard (s : DeltaL2Disk) (k : GuardKey) : option Guard := snd <$> bt_get (guard_ord k) (guards s).

(** [BTreeMap::insert] keeps the key that is there. *)
Definition insert_guard (k : GuardKey) (g : Guard) (gs : btree (string * string * Z) (GuardKey * Guard))
    : btree (string * string * Z) (GuardKey * Guard) :=
  bt_insert (guard_ord k) (default k (fst <$> bt_get (guard_ord k) gs), g) gs.

Definition guard_path (s : DeltaL2Disk) (k : GuardKey) : string :=
  root_dir s +:+ "/" +:+ gk_seg k +:+ "/" +:+ gk_col k +:+ "/guard_" +:+ pretty (gk_start k) +:+ "_"
  +:+ pretty (gk_end k) +:+ ".delta".
(** [p.set_extension("delta.tmp")] and [p.set_extension("delta.zm")] *)
Definition tmp_of (guard_path : string) : string := guard_path +:+ ".tmp".
Definition zm_of (guard_path : string) : string := guard_path +:+ ".zm".

Definition find_guard (s : DeltaL2Disk) (seg col : string) (row : Z) : option GuardKey :=
  match row_to_guard s !! (seg, col, row) with
  | Some k => Some k
  | None =>
      k ← head (filter (λ k : GuardKey, gk_seg k = seg ∧ gk_col k = col ∧ gk_start k ≤ row < gk_end k)
                       ((λ e, e.2.1) <$> guards s));
      Some k
  end.

Definition guard_size : Z := 10000.

Definition index_rows (k : GuardKey) (idx : gmap (string * string * Z) GuardKey)
    : gmap (string * string * Z) GuardKey :=
  for_each (seqZ (gk_start k) (gk_end k - gk_start k)) idx (λ idx r, <[(gk_seg k, gk_col k, r) := k]> idx).

Definition index_seg_col (k : GuardKey) (sidx : btree (string * string) (list GuardKey))
    : btree (string * string) (list GuardKey) :=
  bt_insert (gk_seg k, gk_col k) (default [] (bt_get (gk_seg k, gk_col k) sidx) ++ [k]) sidx.

(** The directory is created; its failure is ignored. *)
Definition find_or_create_guard (s : DeltaL2Disk) (seg col : string) (row : Z) : DeltaL2Disk * GuardKey :=
  let start_row := row / guard_size * guard_size in
  let key := {| gk_seg := seg; gk_col := col; gk_start := start_row;
                gk_end := saturating_add64 start_row guard_size |} in
  match get_guard s key with
  | Some existing => (s, g_key existing)
  | None =>
      let s := set_guards s (insert_guard key (Guard_new key (guard_path s key)) (guards s)) in
      (set_indexes s (index_rows key (row_to_guard s)) (index_seg_col key (seg_col_index s)), key)
  end.

(** ** Appending a patch *)

(** The record of a patch: numbers of 8, 8 and 8 bytes, the flag, 8 bytes for the
    row count, 4 for the payload's length, and the payload. *)
Definition patch_bytes (p : DeltaPatch) : bytes :=
  let payload := to_bytes (patch_format p) in
  to_le_bytes 8 (patch_id p) ++ to_le_bytes 8 (txn_range p).1 ++ to_le_bytes 8 (txn_range p).2
  ++ [if is_sparse (patch_format p) then 0 else 1]
  ++ to_le_bytes 8 (affected_rows (zone_map p)) ++ to_le_bytes 4 (wrap32 (zlen payload)) ++ payload.

Definition file_header : bytes := to_le_bytes 4 DELTA_FILE_MAGIC ++ replicate 60 0.

Definition update_guard_zone_map (s : DeltaL2Disk) (k : GuardKey) (zm : ZoneMap) (affected : Z) : DeltaL2Disk :=
  match get_guard s k with
  | Some g =>
      set_guards s (insert_guard k {| g_key := g_key g; g_file_path := g_file_path g;
                                      g_zone_map := gz_update (g_zone_map g) zm affected;
                                      g_patch_count := g_patch_count g |} (guards s))
  | None => s
  end.

(** The threshold is only logged. *)
Definition increment_patch_count (s : DeltaL2Disk) (k : GuardKey) : DeltaL2Disk :=
  match get_guard s k with
  | Some g =>
      set_guards s (insert_guard k {| g_key := g_key g; g_file_path := g_file_path g; g_zone_map := g_zone_map g;
                                      g_patch_count := wrap32 (g_patch_count g + 1) |} (guards s))
  | None => s
  end.

(** [append_patch]: the directory, the temporary file opened for appending, its
    size, the header when it is empty, the record, the sync, the rename.  [io k] is
    the error of the [k]-th of these, if it fails, and [partial] what a failed write
    has appended. *)
Definition append_patch (io : nat → option RockDuckError) (partial : bytes) (s : DeltaL2Disk)
    (seg col : string) (p : DeltaPatch) : DeltaL2Disk * Result unit :=
  let '(s, key) := find_or_create_guard s seg col 0 in
  let path := guard_path s key in
  let tmp := tmp_of path in
  match io 0%nat with Some e => (s, Err e) | None =>
  match io 1%nat with Some e => (s, Err e) | None =>
  let old := default [] (l2_files s !! tmp) in
  let s := set_l2_files s (<[tmp := old]> (l2_files s)) in
  match io 2%nat with Some e => (s, Err e) | None =>
  let needs_header := zlen old =? 0 in
  match (if needs_header then io 3%nat else None) with
  | Some e => (set_l2_files s (<[tmp := old ++ partial]> (l2_files s)), Err e)
  | None =>
  let cur := if needs_header then file_header else old in
  match io 4%nat with Some e => (set_l2_files s (<[tmp := cur ++ partial]> (l2_files s)), Err e) | None =>
  let content := cur ++ patch_bytes p in
  let s := set_l2_files s (<[tmp := content]> (l2_files s)) in
  match io 5%nat with Some e => (s, Err e) | None =>
  match io 6%nat with Some e => (s, Err e) | None =>
  let s := set_l2_files s (<[path := content]> (delete tmp (l2_files s))) in
  let s := update_guard_zone_map s key (zone_map p) (affected_rows (zone_map p)) in
  (increment_patch_count s key, Ok tt)
  end end end end end end end.

(** ** Reading a guard's file *)

(** [{:08x}] of a number below 2 ^ 32 *)
Definition hex08 (z : Z) : string :=
  foldr (λ k acc, let d := Z.land (Z.shiftr z (4 * k)) 15 in
                  acc +:+ String (Ascii.ascii_of_N (Z.to_N (if d <? 10 then 48 + d else 87 + d))) "") ""
        (seqZ 0 8).

(** The magic number of a file that has a header. *)
Definition check_magic (data : bytes) : Result unit :=
  if 64 <=? zlen data then
    let magic := from_le_bytes (take 4 data) in
    if magic =? DELTA_FILE_MAGIC then Ok tt
    else Err (EDelta ("invalid delta file magic: expected " +:+ hex08 DELTA_FILE_MAGIC +:+ ", got " +:+ hex08 magic))
  else Ok tt.

Definition implausible (payload_size offset : Z) : RockDuckError :=
  EDelta ("implausible payload_size " +:+ pretty payload_size +:+ " at offset " +:+ pretty offset
          +:+ " (max " +:+ pretty MAX_PAYLOAD_SIZE +:+ ")").
Definition exceeds_remaining (payload_size remaining offset : Z) : RockDuckError :=
  EDelta ("payload_size " +:+ pretty payload_size +:+ " exceeds remaining file bytes " +:+ pretty remaining
          +:+ " at offset " +:+ pretty offset).

Section reading.
Context `{Arrow Arr} `{Roaring B}.

Definition l2_cell (row : Z) (t : TxnId) (img : option bytes) : DeltaCell :=
  {| seg_id := ""; row_offset := row; column := ""; txn_id := t; before := None; after := img;
     committed := true; ts := 0 |}.

(** A value past the array panics. *)
Definition sparse_cells (arr : Arr) (positions : list Z) : outcome (list DeltaCell) :=
  if arr_len arr <? zlen positions then Panic else
  Done (imap (λ i row, l2_cell row 0 (match arr_slot arr (Z.of_nat i) with Some (VBin b) => Some b | _ => None end))
             positions).

Fixpoint l2_dense_cells (t : TxnId) (values : bytes) (rows : list Z) : Result (list DeltaCell) :=
  match rows with
  | [] => Ok []
  | row :: rows' =>
      img <-? extract_value_at (Arr := Arr) values row;
      rest <-? l2_dense_cells t values rows';
      Ok (l2_cell row t img :: rest)
  end.

Definition patch_to_deltas (f : DeltaPatchFormat) : outcome (Result (list DeltaCell)) :=
  match f with
  | Sparse positions values _ =>
      match decode_ipc_column (Arr := Arr) values with
      | Err e => Done (Err e)
      | Ok arr =>
          match arr_type arr with
          | Binary => match sparse_cells arr (bm_iter (bm_deserialize (B := B) positions)) with
                      | Panic => Panic
                      | Done cells => Done (Ok cells)
                      end
          | _ => Done (Err (EDelta "sparse patch values are not BinaryArray"))
          end
      end
  | Dense values total_rows t =>
      Done (arr <-? decode_ipc_column (Arr := Arr) values;
            l2_dense_cells t values (seqZ 0 (Z.max total_rows (arr_len arr))))
  end.

(** A loop over the records from [offset]: a header of 32 bytes, whose bytes 24 to
    28 are taken for the payload's length.  Every round goes 32 bytes further. *)
Fixpoint load_loop (fuel : nat) (data : bytes) (snapshot_txn : TxnId) (offset : Z) (acc : list DeltaCell)
    : option (outcome (Result (list DeltaCell))) :=
  let file_size := zlen data in
  if file_size <=? offset then Some (Done (Ok acc)) else
  match fuel with
  | O => None
  | S fuel' =>
      if file_size <? offset + 32 then Some (Done (Ok acc)) else
      let txn_end := from_le_bytes (zslice data (offset + 16) (offset + 24)) in
      let payload_size := from_le_bytes (zslice data (offset + 24) (offset + 28)) in
      if MAX_PAYLOAD_SIZE <? payload_size then Some (Done (Err (implausible payload_size offset))) else
      let remaining := saturating_sub file_size (offset + 32) in
      if remaining <? payload_size then Some (Done (Err (exceeds_remaining payload_size remaining offset))) else
      let next := offset + 32 + payload_size in
      if snapshot_txn <? txn_end then load_loop fuel' data snapshot_txn next acc else
      match from_bytes (B := B) (zslice data (offset + 32) next) with
      | Panic => Some Panic
      | Done None => Some (Done (Err (EDelta ("failed to parse DeltaPatchFormat at offset " +:+ pretty offset))))
      | Done (Some f) =>
          match patch_to_deltas f with
          | Panic => Some Panic
          | Done (Err e) => Some (Done (Err e))
          | Done (Ok cells) => load_loop fuel' data snapshot_txn next (acc ++ cells)
          end
      end
  end.

Definition load_fuel (data : bytes) : nat := S (length data).

Definition load_patches_from_guard (s : DeltaL2Disk) (g : Guard) (snapshot_txn : TxnId)
    : option (outcome (Result (list DeltaCell))) :=
  match l2_files s !! g_file_path g with
  | None => Some (Done (Ok []))
  | Some data =>
      match check_magic data with
      | Err e => Some (Done (Err e))
      | Ok _ => load_loop (load_fuel data) data snapshot_txn 64 []
      end
  end.
End reading.

(** ** Queries *)

(** The cache of the [moka] crate: an insertion may evict any entries. *)
Class CellCache := cache_insert : GuardKey → list DeltaCell → gmap GuardKey (list DeltaCell) → gmap GuardKey (list DeltaCell).

Definition segment_guards (s : DeltaL2Disk) (seg : string) : list GuardKey :=
  concat ((λ e : string * string * list GuardKey, e.2) <$>
          filter (λ e : string * string * list GuardKey, e.1.1 = seg) (seg_col_index s)).

Section queries.
Context `{Arrow Arr} `{Roaring B} `{CellCache}.

(** The loop of [get_visible]: guards of transactions before the snapshot are
    skipped; the first error is kept while the others are read. *)
Fixpoint visible_loop (s : DeltaL2Disk) (snapshot_txn : TxnId) (keys : list GuardKey)
    (all_deltas : list DeltaCell) (corruption_err : option RockDuckError)
    : option (outcome (DeltaL2Disk * Result (list DeltaCell))) :=
  match keys with
  | [] => Some (Done (s, match corruption_err with Some e => Err e | None => Ok all_deltas end))
  | key :: keys' =>
      match get_guard s key with
      | None => visible_loop s snapshot_txn keys' all_deltas corruption_err
      | Some g =>
          if gz_max_txn (g_zone_map g) <? snapshot_txn
          then visible_loop s snapshot_txn keys' all_deltas corruption_err
          else match patch_cache s !! key with
          | Some hit => visible_loop s snapshot_txn keys' (all_deltas ++ hit) corruption_err
          | None =>
              match load_patches_from_guard (Arr := Arr) (B := B) s g snapshot_txn with
              | None => None
              | Some Panic => Some Panic
              | Some (Done (Ok deltas)) =>
                  let s := if bool_decide (deltas = []) then s
                           else set_patch_cache s (cache_insert key deltas (patch_cache s)) in
                  visible_loop s snapshot_txn keys' (all_deltas ++ deltas) corruption_err
              | Some (Done (Err e)) =>
                  visible_loop s snapshot_txn keys' all_deltas
                    (match corruption_err with None => Some e | _ => corruption_err end)
              end
          end
      end
  end.

Definition disk_get_visible (s : DeltaL2Disk) (seg : string) (snapshot_txn : TxnId)
    : option (outcome (DeltaL2Disk * Result (list DeltaCell))) :=
  let keys := segment_guards s seg in
  if bool_decide (keys = []) then Some (Done (s, Ok [])) else visible_loop s snapshot_txn keys [] None.

(** [max_by_key] over the cells of the guard; the cells of a file have no column
    name. *)
Definition disk_get_cell (s : DeltaL2Disk) (seg : string) (row : Z) (col : string) (snapshot_txn : TxnId)
    : option (outcome (Result (option DeltaCell))) :=
  match find_guard s seg col row with
  | None => Some (Done (Ok None))
  | Some key =>
      match get_guard s key with
      | None => Some (Done (Ok None))
      | Some g =>
          match load_patches_from_guard (Arr := Arr) (B := B) s g snapshot_txn with
          | None => None
          | Some Panic => Some Panic
          | Some (Done r) =>
              Some (Done (ds <-? r; Ok (max_by_key txn_id (filter (λ d, row_offset d = row ∧ column d = col) ds))))
          end
      end
  end.
End queries.

Definition l2_segments (s : DeltaL2Disk) : gset string := list_to_set ((λ e, gk_seg e.2.1) <$> guards s).
Definition disk_segment_ids `{HashIter} (s : DeltaL2Disk) : list string := hash_iter_set (l2_segments s).

Definition num_guards (s : DeltaL2Disk) : Z := zlen (guards s).

Definition guards_by_seg (s : DeltaL2Disk) (seg : string) : list (GuardKey * Z) :=
  (λ e : string * string * Z * (GuardKey * Guard), (e.2.1, gz_min_txn (g_zone_map e.2.2))) <$>
    filter (λ e : string * string * Z * (GuardKey * Guard), gk_seg e.2.1 = seg) (guards s).

Definition find_overloaded_guard (s : DeltaL2Disk) : option GuardKey :=
  (λ e : string * string * Z * (GuardKey * Guard), e.2.1) <$>
    head (filter (λ e : string * string * Z * (GuardKey * Guard), compaction_threshold s ≤ g_patch_count e.2.2) (guards s)).

(** [io]: the error of removing the file. *)
Definition delete_guard_file (io : option RockDuckError) (s : DeltaL2Disk) (k : GuardKey)
    : DeltaL2Disk * Result unit :=
  match get_guard s k with
  | None => (s, Ok tt)
  | Some g =>
      let remove s := set_guards s (filter (λ e, e.1 ≠ guard_ord k) (guards s)) in
      if bool_decide (is_Some (l2_files s !! g_file_path g)) then
        match io with
        | Some e => (s, Err e)
        | None => (remove (set_l2_files s (delete (g_file_path g) (l2_files s))), Ok tt)
        end
      else (remove s, Ok tt)
  end.

(** ** The batched query *)

Section batch.
Context `{Arrow Arr} `{Roaring B} `{CellCache} `{HashIter}.

(** Step 2: the guards whose cells are cached, and those to read. *)
Definition classify (s : DeltaL2Disk) (snapshot_txn : TxnId) (keys : list GuardKey)
    : gmap GuardKey (list DeltaCell) * list GuardKey :=
  for_each keys (∅, []) (λ acc key,
    match get_guard s key with
    | None => acc
    | Some g =>
        if gz_max_txn (g_zone_map g) <? snapshot_txn then acc else
        match patch_cache s !! key with
        | Some cells => (<[key := cells]> acc.1, acc.2)
        | None => (acc.1, acc.2 ++ [key])
        end
    end).

(** Step 3: a guard that fails to load counts as empty. *)
Fixpoint load_guards (s : DeltaL2Disk) (snapshot_txn : TxnId) (keys : list GuardKey)
    : option (outcome (list (GuardKey * list DeltaCell))) :=
  match keys with
  | [] => Some (Done [])
  | key :: keys' =>
      let first :=
        match get_guard s key with
        | None => Some (Done None)
        | Some g =>
            if gz_max_txn (g_zone_map g) <? snapshot_txn then Some (Done (Some (key, []))) else
            match load_patches_from_guard (Arr := Arr) (B := B) s (Guard_new key (g_file_path g)) snapshot_txn with
            | None => None
            | Some Panic => Some Panic
            | Some (Done (Ok deltas)) => Some (Done (Some (key, deltas)))
            | Some (Done (Err _)) => Some (Done (Some (key, [])))
            end
        end in
      match first, load_guards s snapshot_txn keys' with
      | None, _ | _, None => None
      | Some Panic, _ | _, Some Panic => Some Panic
      | Some (Done o), Some (Done rest) => Some (Done (option_list o ++ rest))
      end
  end.

(** Step 5: the cells of every guard go to the entry of its segment. *)
Definition group_by_segment (seg_ids : list string) (keys : list GuardKey)
    (cells : gmap GuardKey (list DeltaCell)) : gmap string (list DeltaCell) :=
  for_each keys (list_to_map ((λ seg, (seg, [])) <$> seg_ids)) (λ results key,
    match cells !! key with
    | Some ds => alter (λ l, l ++ ds) (gk_seg key) results
    | None => results
    end).

Definition disk_get_visible_batch (s : DeltaL2Disk) (seg_ids : list string) (snapshot_txn : TxnId)
    : option (outcome (DeltaL2Disk * gmap string (list DeltaCell))) :=
  let keys := concat (segment_guards s <$> seg_ids) in
  if bool_decide (keys = []) then Some (Done (s, list_to_map ((λ seg, (seg, [])) <$> seg_ids))) else
  let '(hits, needs_io) := classify s snapshot_txn keys in
  match load_guards s snapshot_txn needs_io with
  | None => None
  | Some Panic => Some Panic
  | Some (Done loaded) =>
      let cache := for_each loaded (patch_cache s) (λ c e, if bool_decide (e.2 = []) then c else cache_insert e.1 e.2 c) in
      let cells := for_each loaded hits (λ m e, <[e.1 := e.2]> m) in
      Some (Done (set_patch_cache s cache, group_by_segment seg_ids keys cells))
  end.
End batch.

(** * Reading terminates *)

Section load_proofs.
Context `{Arrow Arr} `{Roaring B}.

Lemma from_le_bytes_zslice_nonneg data a b : Forall is_byte data → 0 ≤ from_le_bytes (zslice data a b).
Proof.
  intros Hd. assert (Forall is_byte (zslice data a b)) as Hf by by apply Forall_take, Forall_drop.
  revert Hf. induction (zslice data a b) as [|x l IH]; cbn [from_le_bytes]; [done|].
  intros [[Hx _] Hl]%Forall_cons. specialize (IH Hl). change (from_le_bytes (x :: l)) with (x + 256 * from_le_bytes l). lia.
Qed.

(** Every round advances by the 32 bytes of a header at least. *)
Lemma load_loop_total data t fuel offset acc : Forall is_byte data → 0 ≤ offset →
  zlen data - offset ≤ Z.of_nat fuel → is_Some (load_loop (Arr := Arr) (B := B) fuel data t offset acc).
Proof.
  intros Hd. revert offset acc. induction fuel as [|fuel IH]; intros offset acc Ho Hf; cbn [load_loop].
  { destruct (Z.leb_spec (zlen data) offset); [done|lia]. }
  destruct (Z.leb_spec (zlen data) offset); [done|]. destruct (_ <? _); [done|]. destruct (_ <? _); [done|].
  destruct (_ <? _); [done|]. pose proof (from_le_bytes_zslice_nonneg data (offset + 24) (offset + 28) Hd).
  destruct (_ <? _); [apply IH; lia|].
  destruct (from_bytes _) as [[f|]|]; [|done..]. destruct (patch_to_deltas f) as [[cells|]|]; [|done..]. apply IH; lia.
Qed.

Lemma load_patches_total s g t : map_Forall (λ _, Forall is_byte) (l2_files s) →
  is_Some (load_patches_from_guard (Arr := Arr) (B := B) s g t).
Proof.
  intros Hf. unfold load_patches_from_guard. destruct (l2_files s !! g_file_path g) as [data|] eqn:Hd; [|done].
  destruct (check_magic data); [|done]. apply load_loop_total; [by eapply Hf|lia|].
  unfold load_fuel, zlen. lia.
Qed.
End load_proofs.

(** * A file of one patch *)

(** A patch whose numbers fit their fields. *)
Definition patch_fits (p : DeltaPatch) : Prop :=
  0 ≤ (txn_range p).2 < 2 ^ 64 ∧ 0 ≤ affected_rows (zone_map p) < 2 ^ 56 ∧
  zlen (to_bytes (patch_format p)) < 2 ^ 32.

(** Eight bytes of a number below 2 ^ 56: three, four, and a zero. *)
Lemma to_le_bytes_8_split x : 0 ≤ x < 2 ^ 56 →
  to_le_bytes 8 x = to_le_bytes 3 x ++ to_le_bytes 4 (x `div` 2 ^ 24) ++ [0].
Proof.
  intros Hx. set (y := x `div` 2 ^ 24).
  assert ((((y `div` 256) `div` 256) `div` 256) `div` 256 = 0) as E.
  { unfold y. rewrite !Z.div_div by lia. by rewrite Z.div_small by lia. }
  change (to_le_bytes 8 x) with (to_le_bytes 3 x ++ to_le_bytes 5 (((x `div` 256) `div` 256) `div` 256)).
  replace (((x `div` 256) `div` 256) `div` 256) with y by (unfold y; by rewrite !Z.div_div by lia).
  change (to_le_bytes 5 y) with (to_le_bytes 4 y ++ [((((y `div` 256) `div` 256) `div` 256) `div` 256) `mod` 256]).
  by rewrite E.
Qed.

(** The record as the reader cuts it: 16 bytes, the last transaction, four bytes
    taken for the length, four more, and the rest. *)
Lemma patch_bytes_cut p : patch_fits p → ∃ h16 len4 h4,
  patch_bytes p = h16 ++ to_le_bytes 8 (txn_range p).2 ++ len4 ++ h4 ++
    [0] ++ to_le_bytes 4 (zlen (to_bytes (patch_format p))) ++ to_bytes (patch_format p) ∧
  zlen h16 = 16 ∧ zlen len4 = 4 ∧ zlen h4 = 4 ∧ Forall is_byte len4.
Proof.
  intros (_ & Ha & Hl). unfold patch_bytes. rewrite (to_le_bytes_8_split _ Ha).
  unfold wrap32. rewrite Z.mod_small by (split; [apply zlen_nonneg|done]).
  eexists (to_le_bytes 8 (patch_id p) ++ to_le_bytes 8 (txn_range p).1), ([_] ++ to_le_bytes 3 _), (to_le_bytes 4 _).
  rewrite <- !app_assoc. split_and!; [done|by autorewrite with zlen..|].
  apply Forall_app. split; [|apply to_le_bytes_bytes]. repeat constructor; destruct (is_sparse _); lia.
Qed.

Section unreadable.
Context `{Arrow Arr} `{Roaring B}.

(** What starts with a zero byte and the length of what follows is no patch. *)
Lemma from_bytes_shifted payload n : zlen payload < 2 ^ 32 → n ≤ 5 + zlen payload →
  from_bytes (B := B) (take (Z.to_nat n) ([0] ++ to_le_bytes 4 (zlen payload) ++ payload)) = Done None.
Proof.
  intros Hl Hn. pose proof (zlen_nonneg payload). destruct (Z.to_nat n) as [|m] eqn:Hm; [done|].
  cbn [app take]. set (bs := 0 :: take m (to_le_bytes 4 (zlen payload) ++ payload)).
  assert (zlen bs ≤ 5 + zlen payload) as Hbs. { unfold bs. rewrite zlen_cons, zlen_take. autorewrite with zlen. lia. }
  assert (from_bytes (B := B) bs = Done (parse_sparse (B := B) bs 0)) as ->.
  { unfold from_bytes, bs. rewrite (bool_decide_eq_false_2 (take 6 _ = PATCH_MAGIC)) by done.
    by rewrite andb_false_r. }
  unfold parse_sparse. destruct (Z.ltb_spec (zlen bs) (0 + 9)) as [|Hge]; [done|].
  assert (zslice bs (0 + 1) (0 + 5) = to_le_bytes 4 (zlen payload)) as ->.
  { unfold bs in *. rewrite zlen_cons, zlen_take in Hge.
    unfold zslice. cbn [Z.to_nat drop]. change (drop (Z.to_nat (0 + 1)) (0 :: ?l)) with l.
    change (Z.to_nat (0 + 5 - (0 + 1))) with 4%nat. rewrite take_take, Nat.min_l by lia.
    rewrite take_app_le by (rewrite to_le_bytes_length; lia). by apply take_ge; rewrite to_le_bytes_length. }
  rewrite from_to_le_bytes by (cbn; lia). by destruct (Z.ltb_spec (zlen bs) (0 + 5 + zlen payload + 4)); [|lia].
Qed.

(** The first round on a record, behind a header of 64 bytes. *)
Lemma load_cut hd h16 tx len4 h4 payload fuel t :
  zlen hd = 64 → zlen h16 = 16 → zlen len4 = 4 → zlen h4 = 4 →
  zlen payload < 2 ^ 32 → 0 ≤ tx < 2 ^ 64 → tx ≤ t →
  ∃ msg, load_loop (Arr := Arr) (B := B) (S fuel)
    (hd ++ h16 ++ to_le_bytes 8 tx ++ len4 ++ h4 ++ [0] ++ to_le_bytes 4 (zlen payload) ++ payload) t 64 []
    = Some (Done (Err (EDelta msg))).
Proof.
  intros Hh H16 H4 Hh4 Hl Htx Ht. pose proof (zlen_nonneg payload).
  set (data := hd ++ _). assert (zlen data = 101 + zlen payload) as Hd.
  { unfold data. autorewrite with zlen. lia. }
  cbn [load_loop]. rewrite Hd. destruct (Z.leb_spec (101 + zlen payload) 64); [lia|].
  destruct (Z.ltb_spec (101 + zlen payload) (64 + 32)); [lia|].
  assert (zslice data (64 + 16) (64 + 24) = to_le_bytes 8 tx) as ->.
  { unfold data. rewrite (app_assoc hd h16). apply zslice_mid; autorewrite with zlen; lia. }
  assert (zslice data (64 + 24) (64 + 28) = len4) as ->.
  { unfold data. rewrite (app_assoc hd h16), (app_assoc _ (to_le_bytes 8 _)).
    apply zslice_mid; autorewrite with zlen; lia. }
  destruct (_ <? _); [by eexists|]. unfold saturating_sub.
  destruct (Z.leb_spec (64 + 32) (101 + zlen payload)); [|lia].
  destruct (Z.ltb_spec (101 + zlen payload - (64 + 32)) (from_le_bytes len4)); [by eexists|].
  rewrite from_to_le_bytes by (cbn in Htx |- *; lia). destruct (Z.ltb_spec t tx); [lia|].
  assert (zslice data (64 + 32) (64 + 32 + from_le_bytes len4) =
          take (Z.to_nat (from_le_bytes len4)) ([0] ++ to_le_bytes 4 (zlen payload) ++ payload)) as ->.
  { unfold zslice. replace (64 + 32 + from_le_bytes len4 - (64 + 32)) with (from_le_bytes len4) by lia. f_equal.
    unfold data. rewrite (app_assoc hd h16), (app_assoc _ (to_le_bytes 8 tx)), (app_assoc _ len4), (app_assoc _ h4).
    apply drop_app_length'. unfold zlen in *. rewrite !length_app, to_le_bytes_length. lia. }
  rewrite from_bytes_shifted by lia. by eexists.
Qed.

(** No snapshot that has seen the patch's transactions can read it. *)
Lemma load_one_patch p t : patch_fits p → (txn_range p).2 ≤ t →
  ∃ msg, load_loop (Arr := Arr) (B := B) (load_fuel (file_header ++ patch_bytes p)) (file_header ++ patch_bytes p) t 64 []
         = Some (Done (Err (EDelta msg))).
Proof.
  intros Hp Ht. destruct (patch_bytes_cut p Hp) as (h16 & len4 & h4 & Hb & H16 & H4 & Hh4 & Hby).
  destruct Hp as (Htx & _ & Hl). unfold load_fuel. generalize (length (file_header ++ patch_bytes p)). intros n.
  rewrite Hb. by apply load_cut.
Qed.
End unreadable.

(** * Appending *)

(** The last character tells a temporary file from a guard's. *)
Lemma guard_path_not_tmp s k q : guard_path s k ≠ tmp_of q.
Proof.
  assert (str_last (guard_path s k) = str_last "a") as Ha by (unfold guard_path; by do 9 apply str_last_app).
  assert (str_last (tmp_of q) = str_last "p") as Hq by by apply str_last_app.
  intros E. rewrite E, Hq in Ha. done.
Qed.

(** No operation fails. *)
Definition append_ok (s : DeltaL2Disk) (seg col : string) (p : DeltaPatch) : DeltaL2Disk * Result unit :=
  append_patch (λ _, None) [] s seg col p.

Definition guard_key (seg col : string) : GuardKey :=
  {| gk_seg := seg; gk_col := col; gk_start := 0; gk_end := guard_size |}.

Lemma find_or_create_files s seg col row : let s' := (find_or_create_guard s seg col row).1 in
  l2_files s' = l2_files s ∧ patch_cache s' = patch_cache s ∧ root_dir s' = root_dir s.
Proof. unfold find_or_create_guard. by destruct (get_guard _ _). Qed.

Lemma zone_map_count_files s k zm n : let s' := increment_patch_count (update_guard_zone_map s k zm n) k in
  l2_files s' = l2_files s ∧ patch_cache s' = patch_cache s ∧ root_dir s' = root_dir s.
Proof.
  unfold increment_patch_count, update_guard_zone_map. destruct (get_guard s k); [|by destruct (get_guard s k)].
  by destruct (get_guard _ k).
Qed.

(** A successful append replaces the guard's file by the patch alone. *)
Lemma append_ok_files s seg col p : (∀ q, l2_files s !! tmp_of q = None) →
  ∃ s' path, append_ok s seg col p = (s', Ok tt) ∧ path = guard_path s (find_or_create_guard s seg col 0).2 ∧
    l2_files s' = <[path := file_header ++ patch_bytes p]> (l2_files s) ∧
    patch_cache s' = patch_cache s ∧ root_dir s' = root_dir s ∧
    ∃ st, guards st = guards (find_or_create_guard s seg col 0).1 ∧
      s' = increment_patch_count (update_guard_zone_map st (find_or_create_guard s seg col 0).2 (zone_map p)
             (affected_rows (zone_map p))) (find_or_create_guard s seg col 0).2.
Proof.
  intros Htmp. unfold append_ok, append_patch. pose proof (find_or_create_files s seg col 0) as (Hf & Hc & Hr).
  destruct (find_or_create_guard s seg col 0) as [s0 key]. cbn in Hf, Hc, Hr. cbn [snd fst].
  assert (guard_path s0 key = guard_path s key) as Hp by (unfold guard_path; by rewrite Hr).
  rewrite Hf, Htmp. cbn [default]. change (zlen [] =? 0) with true. cbv iota.
  set (st := set_l2_files _ (<[guard_path s0 key := _]> _)).
  pose proof (zone_map_count_files st key (zone_map p) (affected_rows (zone_map p))) as (Hf' & Hc' & Hr').
  eexists _, _. split_and!; [done|done| | | |by exists st].
  - rewrite Hf', Hp. unfold st. cbn. by rewrite insert_insert_eq, delete_insert_eq, delete_id, Hp by (by rewrite ?Hf, ?lookup_insert_ne).
  - rewrite Hc'. cbn. done.
  - rewrite Hr'. cbn. done.
Qed.

(** A run of appends. *)
Abbreviation append_args := (string * string * DeltaPatch)%type.
Definition append_all (s : DeltaL2Disk) (ops : list append_args) : DeltaL2Disk :=
  for_each ops s (λ s op, (append_ok s op.1.1 op.1.2 op.2).1).

(** Every file holds one patch that snapshot [t] has seen, and there is no
    temporary file. *)
Record one_patch_files (t : TxnId) (s : DeltaL2Disk) : Prop := {
  opf_files : map_Forall (λ _ data, ∃ p, data = file_header ++ patch_bytes p ∧ patch_fits p ∧ (txn_range p).2 ≤ t)
                         (l2_files s);
  opf_tmp : ∀ q, l2_files s !! tmp_of q = None;
  opf_cache : patch_cache s = ∅
}.

Lemma append_all_one_patch t ops s : one_patch_files t s →
  Forall (λ op : append_args, patch_fits op.2 ∧ (txn_range op.2).2 ≤ t) ops → one_patch_files t (append_all s ops).
Proof.
  unfold append_all, for_each. revert s. induction ops as [|[[seg col] p] ops IH]; intros s Hs; [done|].
  intros [[Hp Ht] Hops]%Forall_cons. cbn. apply IH; [|done]. destruct Hs as [Hf Htmp Hc].
  destruct (append_ok_files s seg col p Htmp) as (s' & path & -> & -> & Hf' & Hc' & _ & _). cbn. split.
  - rewrite Hf'. apply map_Forall_insert_2; [|done]. by exists p.
  - intros q. rewrite Hf', lookup_insert_ne by apply guard_path_not_tmp. apply Htmp.
  - congruence.
Qed.

Section serving.
Context `{Arrow Arr} `{Roaring B} `{CellCache}.

Lemma load_one_patch_files t s g : one_patch_files t s →
  load_patches_from_guard (Arr := Arr) (B := B) s g t = Some (Done (Ok [])) ∨
  ∃ msg, load_patches_from_guard (Arr := Arr) (B := B) s g t = Some (Done (Err (EDelta msg))).
Proof.
  intros [Hf _ _]. unfold load_patches_from_guard. destruct (l2_files s !! g_file_path g) as [data|] eqn:Hd; [|by left].
  right. destruct (Hf _ _ Hd) as (p & -> & Hp & Ht).
  assert (check_magic (file_header ++ patch_bytes p) = Ok tt) as ->.
  { unfold check_magic. rewrite (proj2 (Z.leb_le _ _)).
    - rewrite take_app_le by (vm_compute; lia). by change (from_le_bytes (take 4 file_header)) with DELTA_FILE_MAGIC.
    - rewrite zlen_app. change (zlen file_header) with 64. pose proof (zlen_nonneg (patch_bytes p)). lia. }
  by apply load_one_patch.
Qed.

(** No cell, or an error. *)
Definition nothing (r : Result (list DeltaCell)) : Prop := r = Ok [] ∨ ∃ msg, r = Err (EDelta msg).

Lemma visible_loop_nothing t s keys err : one_patch_files t s → (∀ e, err = Some e → ∃ msg, e = EDelta msg) →
  ∃ r, visible_loop (Arr := Arr) (B := B) s t keys [] err = Some (Done (s, r)) ∧ nothing r.
Proof.
  intros Hs. revert err. induction keys as [|k keys IH]; intros err He; cbn [visible_loop].
  { eexists. split; [done|]. destruct err as [e|]; [right|by left]. destruct (He e eq_refl) as [msg ->]. by exists msg. }
  destruct (get_guard s k) as [g|]; [|by apply IH]. destruct (_ <? _); [by apply IH|].
  rewrite (opf_cache _ _ Hs), lookup_empty.
  destruct (load_one_patch_files t s g Hs) as [-> |[msg ->]]; [by apply IH|].
  apply IH. intros e. destruct err as [e'|]; [by apply He|]. intros [= <-]. by exists msg.
Qed.
End serving.

(** * Properties *)

(** Reading a guard's file terminates, whatever bytes it holds. *)
Theorem l2_read_terminates `{Arrow Arr, Roaring B} s g t :
  map_Forall (λ _, Forall is_byte) (l2_files s) →
  ∃ r, load_patches_from_guard (Arr := Arr) (B := B) s g t = Some r.
Proof. apply load_patches_total. Qed.

(** What L2 has been given it does not serve.  The record of a patch has a header
    of 37 bytes and is read with one of 32, so after any appends a query at a snapshot
    that has seen all their transactions returns no cell: the empty list when the zone
    map excludes the guard, and an error otherwise. *)
Theorem l2_never_serves `{Arrow Arr, Roaring B, CellCache} root (ops : list append_args) seg t :
  Forall (λ op : append_args, patch_fits op.2 ∧ (txn_range op.2).2 ≤ t) ops →
  ∃ r, disk_get_visible (Arr := Arr) (B := B) (append_all (DeltaL2Disk_new root ∅) ops) seg t
       = Some (Done (append_all (DeltaL2Disk_new root ∅) ops, r)) ∧ nothing r.
Proof.
  intros Hops. assert (one_patch_files t (append_all (DeltaL2Disk_new root ∅) ops)) as Hs.
  { apply append_all_one_patch; [|done]. by split. }
  unfold disk_get_visible. case_bool_decide; [eexists; split; [done|by left]|]. by apply visible_loop_nothing.
Qed.

(** ** One guard *)

Section one_guard.
Variables (root seg col : string).

Let path := guard_path (DeltaL2Disk_new root ∅) (guard_key seg col).

Record one_guard (content : bytes) (s : DeltaL2Disk) : Prop := {
  og_sorted : bt_sorted (guards s);
  og_guard : ∃ g, get_guard s (guard_key seg col) = Some g ∧ g_key g = guard_key seg col;
  og_root : root_dir s = root;
  og_files : l2_files s = {[path := content]}
}.

Lemma get_insert_guard s k g : bt_sorted (guards s) → get_guard (set_guards s (insert_guard k g (guards s))) k = Some g.
Proof. intros Hs. unfold get_guard, insert_guard. cbn. by rewrite bt_get_insert_eq. Qed.

(** The bookkeeping after the rename keeps the guard. *)
Lemma zone_map_count_guard s zm n : bt_sorted (guards s) →
  (∃ g, get_guard s (guard_key seg col) = Some g ∧ g_key g = guard_key seg col) →
  let s' := increment_patch_count (update_guard_zone_map s (guard_key seg col) zm n) (guard_key seg col) in
  bt_sorted (guards s') ∧ ∃ g, get_guard s' (guard_key seg col) = Some g ∧ g_key g = guard_key seg col.
Proof.
  intros Hs (g & Hg & Hk). unfold update_guard_zone_map. rewrite Hg. unfold increment_patch_count.
  rewrite get_insert_guard by done. cbn zeta. split; [by do 2 apply bt_insert_sorted|].
  rewrite get_insert_guard by by apply bt_insert_sorted. by eexists.
Qed.

Lemma append_one_guard s p : (s = DeltaL2Disk_new root ∅ ∨ ∃ c, one_guard c s) →
  one_guard (file_header ++ patch_bytes p) (append_ok s seg col p).1.
Proof.
  intros Hs. assert (bt_sorted (guards s) ∧ root_dir s = root ∧ (l2_files s = ∅ ∨ ∃ c, l2_files s = {[path := c]}) ∧
    ∃ s0, find_or_create_guard s seg col 0 = (s0, guard_key seg col) ∧ bt_sorted (guards s0) ∧
      ∃ g, get_guard s0 (guard_key seg col) = Some g ∧ g_key g = guard_key seg col) as (Hso & Hr & Hf & s0 & Hc & Hs0 & Hg0).
  { destruct Hs as [->|(c & [Hso (g & Hg & Hk) Hr Hf])].
    - split_and!; [constructor|done|by left|]. eexists. split_and!; [reflexivity|by apply bt_insert_sorted, bt_sorted_nil|].
      eexists. split; [by apply get_insert_guard, bt_sorted_nil|done].
    - split_and!; [done|done|right; by exists c|]. exists s. unfold find_or_create_guard.
      change ({| gk_seg := seg; gk_col := col; gk_start := _; gk_end := _ |}) with (guard_key seg col).
      rewrite Hg, Hk. split_and!; [done|done|]. by exists g. }
  assert (∀ q, l2_files s !! tmp_of q = None) as Htmp.
  { intros q. destruct Hf as [->|[c ->]]; [done|]. apply lookup_singleton_ne, guard_path_not_tmp. }
  destruct (append_ok_files s seg col p Htmp) as (s' & q & Ha & -> & Hf' & _ & Hr' & st & Hst & Hs').
  rewrite Hc in Hf', Hst, Hs'. cbn [snd fst] in Hf', Hst, Hs'.
  assert (guard_path s (guard_key seg col) = path) as Hpath by (unfold path, guard_path; by rewrite Hr).
  assert (bt_sorted (guards s') ∧ ∃ g, get_guard s' (guard_key seg col) = Some g ∧ g_key g = guard_key seg col) as [? ?].
  { rewrite Hs'. apply zone_map_count_guard; [congruence|]. unfold get_guard. by rewrite Hst. }
  rewrite Ha. cbn [fst]. split; [done|done|congruence|]. rewrite Hf', Hpath.
  destruct Hf as [->|[c ->]]; [done|]. by rewrite insert_singleton_eq.
Qed.
End one_guard.

(** An append discards the earlier patches of its guard.  The record is written to
    a fresh temporary file that is renamed over the guard's file: after any appends for
    one column of a segment the store has one file, which holds the last patch only. *)
Theorem l2_append_keeps_last_only root seg col ps p :
  ∃ path, l2_files (append_all (DeltaL2Disk_new root ∅) ((λ q, (seg, col, q)) <$> (ps ++ [p])))
          = {[path := file_header ++ patch_bytes p]}.
Proof.
  exists (guard_path (DeltaL2Disk_new root ∅) (guard_key seg col)). apply og_files.
  rewrite fmap_app. unfold append_all, for_each. rewrite foldl_app. cbn. apply append_one_guard.
  induction ps as [|q ps IH] using rev_ind; [by left|]. right. rewrite fmap_app, foldl_app. cbn.
  eexists. by apply append_one_guard.
Qed.

(** ** A concrete run *)

#[export] Instance plain_cache : CellCache := λ k ds c, <[k := ds]> c.

Definition demo_patch : DeltaPatch :=
  {| patch_seg_id := "seg_1"; patch_column := "c"; patch_id := 1; txn_range := (3, 5);
     patch_format := Dense [1; 7] 1 5;
     zone_map := {| min_txn := 3; max_txn := 5; affected_rows := 1; min_value := None; max_value := None |} |}.

Lemma demo_patch_fits : patch_fits demo_patch.
Proof. split_and!; cbn; try lia; done. Qed.

Lemma l2_read_terminates_witness :
  ∃ r, load_patches_from_guard (Arr := ListArray) (B := SortedBitmap)
         (DeltaL2Disk_new "l2" {["f" := replicate 70 0]}) (Guard_new (guard_key "s" "c") "f") 9 = Some r.
Proof.
  apply l2_read_terminates. apply map_Forall_singleton. apply Forall_replicate. unfold is_byte. lia.
Defined.

Lemma l2_never_serves_witness :
  ∃ r, disk_get_visible (Arr := ListArray) (B := SortedBitmap)
         (append_all (DeltaL2Disk_new "l2" ∅) [("seg_1", "c", demo_patch)]) "seg_1" 5
       = Some (Done (append_all (DeltaL2Disk_new "l2" ∅) [("seg_1", "c", demo_patch)], r)) ∧ nothing r.
Proof.
  apply l2_never_serves. apply Forall_singleton. split; [apply demo_patch_fits|cbn; lia].
Defined.

(** The record itself, read at the snapshot of its last transaction. *)
Example demo_patch_read :
  load_patches_from_guard (Arr := ListArray) (B := SortedBitmap)
    (DeltaL2Disk_new "l2" {["f" := file_header ++ patch_bytes demo_patch]}) (Guard_new (guard_key "s" "c") "f") 5
  = Some (Done (Err (exceeds_remaining 257 35 64))).
Proof. vm_compute. reflexivity. Qed.
