(* ===== verification/DiskMerge.v ===== *)
(** The merge of a guard's patches (storage/delta/disk_store.rs, from
    [generate_merge_plan] on): the plan, its execution, the cleanup after it, the
    guard that undoes a failed merge, and the recovery of the directory. *)

From stdpp Require Import base gmap strings list pretty sorting.
From S2P Require Import Prelude Kv Visibility Roaring Arrow DeltaTypes DeltaMerge DeltaApply DiskStore.

Local Open Scope Z_scope.

(** * Plans *)

Record MergePatchRef := {
  mp_patch_id : Z;
  mp_seg : string;
  mp_col : string;
  mp_path : string;
  mp_format : DeltaPatchFormat;
  mp_txn_range : Z * Z;
  mp_dedup_key : Z * Z
}.

Record ColumnMergePlan := { cp_col : string; kept_rows : list Z; output_format : DeltaPatchFormat }.

Record MergePlan := {
  plan_guard : GuardKey;
  plan_patches : list MergePatchRef;
  column_plans : list ColumnMergePlan;
  output_txn_range : Z * Z
}.

Section planning.
Context `{Roaring B}.

Definition patch_row_positions (f : DeltaPatchFormat) : list Z :=
  match f with
  | Sparse positions _ _ => bm_iter (bm_deserialize (B := B) positions)
  | Dense _ total_rows _ => seqZ 0 total_rows
  end.

(** The loop of [read_all_patches]; a record that does not parse is skipped without
    its header, so the fuel is an argument. *)
Fixpoint read_loop (fuel : nat) (g : Guard) (data : bytes) (offset : Z) (acc : list MergePatchRef)
    : option (outcome (Result (list MergePatchRef))) :=
  let file_size := zlen data in
  if file_size <=? offset then Some (Done (Ok acc)) else
  match fuel with
  | O => None
  | S fuel' =>
      if file_size <? offset + 32 then Some (Done (Ok acc)) else
      let payload_size := from_le_bytes (zslice data (offset + 24) (offset + 28)) in
      if MAX_PAYLOAD_SIZE <? payload_size then Some (Done (Err (implausible payload_size offset))) else
      let remaining := saturating_sub file_size (offset + 32) in
      if remaining <? payload_size then Some (Done (Err (exceeds_remaining payload_size remaining offset))) else
      match from_bytes (B := B) (zslice data (offset + 32) (offset + 32 + payload_size)) with
      | Panic => Some Panic
      | Done None => read_loop fuel' g data (offset + payload_size) acc
      | Done (Some f) =>
          let id := from_le_bytes (zslice data offset (offset + 8)) in
          let p := {| mp_patch_id := id; mp_seg := gk_seg (g_key g); mp_col := gk_col (g_key g);
                      mp_path := g_file_path g; mp_format := f;
                      mp_txn_range := (from_le_bytes (zslice data (offset + 8) (offset + 16)),
                                       from_le_bytes (zslice data (offset + 16) (offset + 24)));
                      mp_dedup_key := (gk_start (g_key g), id) |} in
          read_loop fuel' g data (offset + 32 + payload_size) (acc ++ [p])
      end
  end.

Definition read_all_patches (fuel : nat) (s : DeltaL2Disk) (g : Guard)
    : option (outcome (Result (list MergePatchRef))) :=
  match l2_files s !! g_file_path g with
  | None => Some (Done (Ok []))
  | Some data =>
      match check_magic data with
      | Err e => Some (Done (Err e))
      | Ok _ => read_loop fuel g data 64 []
      end
  end.

Definition read_all_patches_from_guard (fuel : nat) (s : DeltaL2Disk) (k : GuardKey)
    : option (outcome (Result (list MergePatchRef))) :=
  match get_guard s k with
  | None => Some (Done (Ok []))
  | Some g => read_all_patches fuel s (Guard_new k (g_file_path g))
  end.

(** The patch with the latest transaction per column and row. *)
Definition dedup_row (p : MergePatchRef) (d : btree (string * Z) (Z * MergePatchRef)) (row : Z)
    : btree (string * Z) (Z * MergePatchRef) :=
  match bt_get (mp_col p, row) d with
  | Some (_, existing) =>
      if (mp_txn_range p).2 <=? (mp_txn_range existing).2 then d
      else bt_insert (mp_col p, row) ((mp_txn_range p).2, p) d
  | None => bt_insert (mp_col p, row) ((mp_txn_range p).2, p) d
  end.

Definition dedup_patch (d : btree (string * Z) (Z * MergePatchRef)) (p : MergePatchRef)
    : btree (string * Z) (Z * MergePatchRef) :=
  for_each (patch_row_positions (mp_format p)) d (dedup_row p).

Definition group_rows (d : btree (string * Z) (Z * MergePatchRef)) : btree string (list Z) :=
  for_each d [] (λ groups e, bt_insert e.1.1 (default [] (bt_get e.1.1 groups) ++ [e.1.2]) groups).

Definition plan_of (k : GuardKey) (patches : list MergePatchRef) : MergePlan :=
  {| plan_guard := k;
     plan_patches := patches;
     column_plans :=
       (λ e : string * list Z, {| cp_col := e.1; kept_rows := sort_by Z.leb e.2; output_format := Dense [] 0 0 |})
       <$> group_rows (for_each patches [] dedup_patch);
     output_txn_range :=
       (for_each patches u64_max (λ m p, Z.min m (mp_txn_range p).1),
        for_each patches 0 (λ m p, Z.max m (mp_txn_range p).2)) |}.

Definition generate_merge_plan (fuel : nat) (s : DeltaL2Disk) (k : GuardKey)
    : option (outcome (Result (option MergePlan))) :=
  match get_guard s k with
  | None => Some (Done (Ok None))
  | Some g =>
      if negb (bool_decide (is_Some (l2_files s !! g_file_path g))) then Some (Done (Ok None)) else
      match read_all_patches fuel s g with
      | None => None
      | Some Panic => Some Panic
      | Some (Done (Err e)) => Some (Done (Err e))
      | Some (Done (Ok patches)) =>
          if bool_decide (patches = []) then Some (Done (Ok None)) else Some (Done (Ok (Some (plan_of k patches))))
      end
  end.
End planning.

(** * Values *)

(** [RecordBatch] of one binary column, written by the IPC file writer. *)
Class IpcWriter := encode_values_ipc : list bytes → Result bytes.

Section values.
Context `{Arrow Arr} `{Roaring B}.

(** The slot's bytes, when the array is binary and long enough. *)
Definition binary_value (arr : Arr) (i : Z) : option bytes :=
  if i <? arr_len arr then
    match arr_type arr, arr_value arr i with
    | Binary, VBin b => Some b
    | _, _ => None
    end
  else None.

(** The index of [row as u32] among the positions of a sparse patch. *)
Definition sparse_index (positions : bytes) (row : Z) : option Z :=
  let bitmap := bm_deserialize (B := B) positions in
  if bm_contains (wrap32 row) bitmap
  then (λ p, Z.of_nat p.1) <$> list_find (λ r, r = wrap32 row) (bm_iter bitmap)
  else None.

Definition read_patch_value (p : MergePatchRef) (row : Z) : Result (option bytes) :=
  match mp_format p with
  | Sparse positions values _ =>
      match sparse_index positions row with
      | None => Ok None
      | Some idx => arr <-? decode_ipc_column (Arr := Arr) values; Ok (binary_value arr idx)
      end
  | Dense values total_rows _ =>
      if total_rows <=? row then Ok None
      else arr <-? decode_ipc_column (Arr := Arr) values; Ok (binary_value arr row)
  end.

(** The same with the decoded arrays of a merge kept by their bytes. *)
Definition cached_decode (cache : gmap bytes Arr) (values : bytes) : gmap bytes Arr * Result Arr :=
  match cache !! values with
  | Some a => (cache, Ok a)
  | None =>
      match decode_ipc_column values with
      | Ok a => (<[values := a]> cache, Ok a)
      | Err e => (cache, Err e)
      end
  end.

Definition read_patch_value_cached (cache : gmap bytes Arr) (p : MergePatchRef) (row : Z)
    : gmap bytes Arr * Result (option bytes) :=
  match mp_format p with
  | Sparse positions values _ =>
      match sparse_index positions row with
      | None => (cache, Ok None)
      | Some idx =>
          let '(cache, r) := cached_decode cache values in
          (cache, arr <-? r; Ok (binary_value arr idx))
      end
  | Dense values total_rows _ =>
      if total_rows <=? row then (cache, Ok None)
      else
        let '(cache, r) := cached_decode cache values in
        (cache, arr <-? r; Ok (binary_value arr row))
  end.

(** The first patch, in the order of the file, that has a value for the row. *)
Fixpoint find_value (cache : gmap bytes Arr) (ps : list (MergePatchRef * list Z)) (row : Z)
    : gmap bytes Arr * Result (option bytes) :=
  match ps with
  | [] => (cache, Ok None)
  | (p, positions) :: ps' =>
      if bool_decide (row ∈ positions) then
        let '(cache, r) := read_patch_value_cached cache p row in
        match r with
        | Err e => (cache, Err e)
        | Ok (Some v) => (cache, Ok (Some v))
        | Ok None => find_value cache ps' row
        end
      else find_value cache ps' row
  end.

Fixpoint gather_values (cache : gmap bytes Arr) (ps : list (MergePatchRef * list Z)) (rows : list Z)
    : gmap bytes Arr * Result (list bytes) :=
  match rows with
  | [] => (cache, Ok [])
  | row :: rows' =>
      let '(cache, r) := find_value cache ps row in
      match r with
      | Err e => (cache, Err e)
      | Ok v =>
          let '(cache, r) := gather_values cache ps rows' in
          (cache, vs <-? r; Ok (default [] v :: vs))
      end
  end.
End values.

(** * Cleanup *)

(** The loop under the locks: the ordering of [GuardKey] removes the guard, its
    equality selects the entries of the secondary index.  Emptying an entry takes the
    lock of that index a second time, which never returns ([None]). *)
Definition forget_guard (s : DeltaL2Disk) (k : GuardKey) : option DeltaL2Disk :=
  let s := set_guards s (filter (λ e, e.1 ≠ guard_ord k) (guards s)) in
  let s := set_in_progress s (in_progress_merges s ∖ {[k]}) in
  let rows := filter (λ e : string * string * Z * GuardKey,
                ¬ (gk_seg e.2 = gk_seg k ∧ gk_col e.2 = gk_col k ∧ gk_start k ≤ gk_start e.2 < gk_end k))
                (row_to_guard s) in
  match bt_get (gk_seg k, gk_col k) (seg_col_index s) with
  | None => Some (set_indexes s rows (seg_col_index s))
  | Some keys =>
      let keys := filter (λ k', k' ≠ k) keys in
      if bool_decide (keys = []) then None
      else Some (set_indexes s rows (bt_insert (gk_seg k, gk_col k) keys (seg_col_index s)))
  end.

Fixpoint forget_guards (s : DeltaL2Disk) (ks : list GuardKey) : option DeltaL2Disk :=
  match ks with
  | [] => Some s
  | k :: ks' => s ← forget_guard s k; forget_guards s ks'
  end.

(** [rm path]: whether the removal of the file succeeds; a failure is logged. *)
Definition remove_files (rm : string → bool) (fs : gmap string bytes) (paths : list string) : gmap string bytes :=
  for_each paths fs (λ fs p, if rm p then delete p fs else fs).

Definition cleanup_guard_patches (rm : string → bool) (s : DeltaL2Disk) (old_keys : list GuardKey)
    (old_paths : list string) : option DeltaL2Disk :=
  let s := set_patch_cache s (for_each old_keys (patch_cache s) (λ c k, delete k c)) in
  let s := set_l2_files s (remove_files rm (l2_files s) old_paths) in
  forget_guards s old_keys.

(** The keys and the paths of the merged patches: the keys have a range of one row. *)
Definition old_key (p : MergePatchRef) : GuardKey :=
  {| gk_seg := mp_seg p; gk_col := mp_col p; gk_start := (mp_dedup_key p).1; gk_end := (mp_dedup_key p).1 + 1 |}.
Definition old_guard_keys (ps : list MergePatchRef) : list GuardKey :=
  (for_each ps [] (λ m p, match bt_get (guard_ord (old_key p)) m with
                          | Some _ => m
                          | None => bt_insert (guard_ord (old_key p)) (old_key p) m
                          end)).*2.
Definition old_file_paths (ps : list MergePatchRef) : list string :=
  elements (list_to_set (ps ≫= λ p, [mp_path p; zm_of (mp_path p)]) : gset string).

(** [Drop for InProgressGuard], when the merge did not succeed. *)
Definition drop_in_progress (rm : string → bool) (s : DeltaL2Disk) (k : GuardKey) (tmp : string)
    (ps : list MergePatchRef) : option DeltaL2Disk :=
  let s := set_l2_files s (remove_files rm (l2_files s) [tmp]) in
  s ← cleanup_guard_patches rm s (old_guard_keys ps) (old_file_paths ps);
  Some (set_in_progress s (in_progress_merges s ∖ {[k]})).

(** * Execution *)

Section execution.
Context `{Arrow Arr} `{Roaring B} `{IpcWriter}.

(** The record of a merged patch: a row count of four bytes, and no file header. *)
Definition merged_bytes (plan : MergePlan) (num_rows : Z) (f : DeltaPatchFormat) : bytes :=
  let payload := to_bytes f in
  to_le_bytes 8 (foldr Z.max 0 (mp_patch_id <$> plan_patches plan))
  ++ to_le_bytes 8 (output_txn_range plan).1 ++ to_le_bytes 8 (output_txn_range plan).2
  ++ [0] ++ to_le_bytes 4 (wrap32 num_rows) ++ to_le_bytes 4 (wrap32 (zlen payload)) ++ payload.

Definition patches_of (ps : list MergePatchRef) (col : string) : list (MergePatchRef * list Z) :=
  (λ p, (p, patch_row_positions (B := B) (mp_format p))) <$> filter (λ p, mp_col p = col) ps.

(** One column: gather, encode, write to the temporary file, rename, register.
    [io k]: the error of creating the directory, opening, writing (which leaves
    [partial]), syncing and renaming. *)
Definition merge_column (rm : string → bool) (io : nat → option RockDuckError) (partial : bytes)
    (s : DeltaL2Disk) (cache : gmap bytes Arr) (plan : MergePlan) (cp : ColumnMergePlan)
    : option (DeltaL2Disk * gmap bytes Arr * Result unit) :=
  if bool_decide (kept_rows cp = []) then Some (s, cache, Ok tt) else
  let '(cache, r) := gather_values (B := B) cache (patches_of (plan_patches plan) (cp_col cp)) (kept_rows cp) in
  match r with Err e => Some (s, cache, Err e) | Ok merged_values =>
  match encode_values_ipc merged_values with Err e => Some (s, cache, Err e) | Ok values_ipc =>
  let bitmap := for_each (kept_rows cp) (bm_new (B := B)) (λ b pos, bm_add (wrap32 pos) b) in
  let compacted := Sparse (bm_serialize bitmap) values_ipc (zlen (kept_rows cp)) in
  let key := {| gk_seg := gk_seg (plan_guard plan); gk_col := cp_col cp;
                gk_start := gk_start (plan_guard plan); gk_end := gk_end (plan_guard plan) |} in
  let path := guard_path s key in
  let tmp := tmp_of path in
  match io 0%nat with Some e => Some (s, cache, Err e) | None =>
  let s := set_in_progress s ({[key]} ∪ in_progress_merges s) in
  let failed s e := s ← drop_in_progress rm s key tmp (plan_patches plan); Some (s, cache, Err e) in
  match io 1%nat with Some e => failed s e | None =>
  match io 2%nat with Some e => failed (set_l2_files s (<[tmp := partial]> (l2_files s))) e | None =>
  let content := merged_bytes plan (zlen (kept_rows cp)) compacted in
  let s := set_l2_files s (<[tmp := content]> (l2_files s)) in
  match io 3%nat with Some e => failed s e | None =>
  match io 4%nat with Some e => failed s e | None =>
  let s := set_l2_files s (<[path := content]> (delete tmp (l2_files s))) in
  let s := set_in_progress s (in_progress_merges s ∖ {[key]}) in
  let s := set_guards s (insert_guard key (Guard_new key path) (guards s)) in
  let s := set_indexes s (index_rows key (row_to_guard s)) (index_seg_col key (seg_col_index s)) in
  Some (s, cache, Ok tt)
  end end end end end end end.

Fixpoint merge_columns (rm : string → bool) (io : string → nat → option RockDuckError) (partial : bytes)
    (s : DeltaL2Disk) (cache : gmap bytes Arr) (plan : MergePlan) (cps : list ColumnMergePlan)
    : option (DeltaL2Disk * Result unit) :=
  match cps with
  | [] => Some (s, Ok tt)
  | cp :: cps' =>
      match merge_column rm (io (cp_col cp)) partial s cache plan cp with
      | None => None
      | Some (s, _, Err e) => Some (s, Err e)
      | Some (s, cache, Ok _) => merge_columns rm io partial s cache plan cps'
      end
  end.

Definition execute_merge_plan (rm : string → bool) (io : string → nat → option RockDuckError) (partial : bytes)
    (s : DeltaL2Disk) (plan : MergePlan) : option (DeltaL2Disk * Result unit) :=
  match merge_columns rm io partial s ∅ plan (column_plans plan) with
  | None => None
  | Some (s, Err e) => Some (s, Err e)
  | Some (s, Ok _) =>
      let keys := old_guard_keys (plan_patches plan) in
      if bool_decide (keys = []) then Some (s, Ok tt) else
      s ← cleanup_guard_patches rm s keys (old_file_paths (plan_patches plan));
      Some (s, Ok tt)
  end.

Definition schedule_guard_merge (fuel : nat) (rm : string → bool) (io : string → nat → option RockDuckError)
    (partial : bytes) (s : DeltaL2Disk) (k : GuardKey) : option (outcome (DeltaL2Disk * Result unit)) :=
  match generate_merge_plan (B := B) fuel s k with
  | None => None
  | Some Panic => Some Panic
  | Some (Done (Err e)) => Some (Done (s, Err e))
  | Some (Done (Ok None)) => Some (Done (s, Ok tt))
  | Some (Done (Ok (Some plan))) => Done <$> execute_merge_plan rm io partial s plan
  end.
End execution.

(** ** Recovery of the directory *)

Fixpoint str_ends_with (suffix s : string) : bool :=
  bool_decide (s = suffix) || match s with "" => false | String _ s' => str_ends_with suffix s' end.
Fixpoint str_starts_with (prefix s : string) : bool :=
  match prefix, s with
  | "", _ => true
  | String a p', String b s' => bool_decide (a = b) && str_starts_with p' s'
  | _, _ => false
  end.

(** The orphans below the root: the extension [tmp], or a name that ends with
    [.delta.merged]. *)
Definition orphan (root path : string) : bool :=
  str_starts_with (root +:+ "/") path && (str_ends_with ".tmp" path || str_ends_with ".delta.merged" path).

Definition recover (s : DeltaL2Disk) : DeltaL2Disk :=
  set_l2_files s (filter (λ e : string * bytes, orphan (root_dir s) e.1 = false) (l2_files s)).

(** * The cache of decoded arrays *)

Section cache_proofs.
Context `{Arrow Arr} `{Roaring B}.
Implicit Types cache : gmap bytes Arr.

Definition cache_sound cache : Prop := map_Forall (λ values a, decode_ipc_column values = Ok a) cache.

Lemma cached_decode_spec cache values : cache_sound cache →
  (cached_decode cache values).2 = decode_ipc_column values ∧ cache_sound (cached_decode cache values).1.
Proof.
  intros Hc. unfold cached_decode. destruct (cache !! values) as [a|] eqn:Ha.
  - split; [|done]. symmetry. by apply (Hc values a).
  - destruct (decode_ipc_column values) as [a|] eqn:Hd; [|done]. split; [done|]. by apply map_Forall_insert_2.
Qed.

Lemma read_patch_value_cached_spec cache p row : cache_sound cache →
  (read_patch_value_cached (B := B) cache p row).2 = read_patch_value (Arr := Arr) (B := B) p row ∧
  cache_sound (read_patch_value_cached (B := B) cache p row).1.
Proof.
  intros Hc. unfold read_patch_value_cached, read_patch_value.
  destruct (mp_format p) as [positions values n|values n t].
  - destruct (sparse_index positions row); [|done]. destruct (cached_decode_spec cache values Hc) as [He Hs].
    destruct (cached_decode cache values) as [c r]. cbn in *. by rewrite He.
  - destruct (_ <=? _); [done|]. destruct (cached_decode_spec cache values Hc) as [He Hs].
    destruct (cached_decode cache values) as [c r]. cbn in *. by rewrite He.
Qed.

(** The gathering without a cache. *)
Fixpoint first_value (ps : list (MergePatchRef * list Z)) (row : Z) : Result (option bytes) :=
  match ps with
  | [] => Ok None
  | (p, positions) :: ps' =>
      if bool_decide (row ∈ positions) then
        v <-? read_patch_value (Arr := Arr) (B := B) p row;
        match v with Some v => Ok (Some v) | None => first_value ps' row end
      else first_value ps' row
  end.
Fixpoint first_values (ps : list (MergePatchRef * list Z)) (rows : list Z) : Result (list bytes) :=
  match rows with
  | [] => Ok []
  | row :: rows' =>
      v <-? first_value ps row;
      vs <-? first_values ps rows';
      Ok (default [] v :: vs)
  end.

Lemma find_value_spec cache ps row : cache_sound cache →
  (find_value (B := B) cache ps row).2 = first_value ps row ∧ cache_sound (find_value (B := B) cache ps row).1.
Proof.
  revert cache. induction ps as [|[p positions] ps IH]; intros cache Hc; cbn [find_value first_value]; [done|].
  case_bool_decide; [|by apply IH]. destruct (read_patch_value_cached_spec cache p row Hc) as [He Hs].
  destruct (read_patch_value_cached cache p row) as [c r]. cbn in He, Hs. rewrite <- He.
  destruct r as [[v|]|]; cbn; [done|by apply IH|done].
Qed.

Lemma gather_values_spec cache ps rows : cache_sound cache →
  (gather_values (B := B) cache ps rows).2 = first_values ps rows.
Proof.
  revert cache. induction rows as [|row rows IH]; intros cache Hc; cbn [gather_values first_values]; [done|].
  destruct (find_value_spec cache ps row Hc) as [He Hs]. destruct (find_value cache ps row) as [c r].
  cbn in He, Hs. rewrite <- He. destruct r as [v|]; [|done]. cbn [result_bind].
  specialize (IH c Hs). destruct (gather_values c ps rows) as [c' r']. cbn in *. by rewrite IH.
Qed.
End cache_proofs.

(** * Cleanup *)

Lemma remove_files_lookup fs paths p : p ∈ paths → remove_files (λ _, true) fs paths !! p = None.
Proof.
  unfold remove_files, for_each. intros Hin. induction paths as [|q paths IH] using rev_ind; [by apply elem_of_nil in Hin|].
  rewrite foldl_app. cbn. destruct (decide (q = p)) as [->|Hne]; [apply lookup_delete_eq|].
  rewrite lookup_delete_ne by done. apply IH. apply elem_of_app in Hin as [?|?%list_elem_of_singleton]; [done|congruence].
Qed.

Lemma bt_get_elem {K A} `{CmpLaws K} (k : K) (a : A) (m : btree K A) : bt_get k m = Some a → (k, a) ∈ m.
Proof.
  induction m as [|[k' a'] m IH]; cbn; [done|]. destruct (cmp k k') eqn:E; [|done|intros; right; by apply IH].
  apply cmp_eq in E as ->. intros [= ->]. by left.
Qed.

Lemma forget_guard_spec s k s' : forget_guard s k = Some s' →
  l2_files s' = l2_files s ∧ guards s' = filter (λ e, e.1 ≠ guard_ord k) (guards s).
Proof.
  unfold forget_guard. destruct (bt_get _ _); [case_bool_decide; [done|]|]; by intros [= <-].
Qed.

(** The guards whose keys are ordered like one of [ks] are gone. *)
Lemma forget_guards_spec ks s s' : forget_guards s ks = Some s' →
  l2_files s' = l2_files s ∧ ∀ k, guard_ord k ∈ guard_ord <$> ks → get_guard s' k = None.
Proof.
  intros Hs. assert (l2_files s' = l2_files s ∧ ∀ k a, (k, a) ∈ guards s' → (k, a) ∈ guards s ∧ k ∉ guard_ord <$> ks)
    as [Hf Hg].
  { revert s Hs. induction ks as [|k0 ks IH]; intros s; cbn; [intros [= ->]; split; [done|set_solver]|].
    destruct (forget_guard s k0) as [s1|] eqn:H1; [|done]. cbn. intros Hs.
    apply forget_guard_spec in H1 as [Hf1 Hg1]. destruct (IH s1 Hs) as [Hf Hg]. split; [congruence|].
    intros k a [Hin Hn]%Hg. rewrite Hg1 in Hin. apply list_elem_of_filter in Hin as [Hne Hin]. set_solver. }
  split; [done|]. intros k Hk. unfold get_guard. destruct (bt_get (guard_ord k) (guards s')) as [a|] eqn:Ha; [|done].
  apply bt_get_elem, Hg in Ha. by destruct Ha.
Qed.

Lemma old_guard_keys_ord ps p : p ∈ ps → guard_ord (old_key p) ∈ guard_ord <$> old_guard_keys ps.
Proof.
  assert (∀ ps m, bt_sorted m → (∀ k x, (k, x) ∈ m → guard_ord x = k) →
    let m' := for_each ps m (λ m p, match bt_get (guard_ord (old_key p)) m with
                          | Some _ => m
                          | None => bt_insert (guard_ord (old_key p)) (old_key p) m
                          end) in
    (∀ k x, (k, x) ∈ m' → guard_ord x = k) ∧
    (∀ k, is_Some (bt_get k m) → is_Some (bt_get k m')) ∧
    (∀ p, p ∈ ps → is_Some (bt_get (guard_ord (old_key p)) m'))) as Hm.
  { unfold for_each. clear. induction ps as [|q ps IH]; intros m Hs Hk; cbn; [split_and!; [done|done|set_solver]|].
    set (m1 := match bt_get (guard_ord (old_key q)) m with Some _ => m | None => _ end).
    assert (bt_sorted m1) as Hs1 by (unfold m1; destruct (bt_get _ _); [done|by apply bt_insert_sorted]).
    assert (∀ k, is_Some (bt_get k m) → is_Some (bt_get k m1)) as Hmono.
    { intros k Hk'. unfold m1. destruct (bt_get (guard_ord (old_key q)) m); [done|].
      rewrite bt_get_insert by done. by destruct (cmp k _). }
    assert (is_Some (bt_get (guard_ord (old_key q)) m1)) as Hq.
    { unfold m1. destruct (bt_get (guard_ord (old_key q)) m) eqn:E; [by rewrite E|]. by rewrite bt_get_insert_eq. }
    destruct (IH m1 Hs1) as (H1 & H2 & H3).
    { intros k x. rewrite (elem_of_bt_get k x m1 Hs1). unfold m1.
      destruct (bt_get (guard_ord (old_key q)) m); [intros Hx; apply Hk; by apply elem_of_bt_get|].
      rewrite bt_get_insert by done. destruct (cmp k _) eqn:E; [apply cmp_eq in E as ->; by intros [= <-]|
        intros Hx; apply Hk; by apply elem_of_bt_get..]. }
    split_and!; [done|auto|]. intros p [->|Hp]%elem_of_cons; auto. }
  intros Hp. destruct (Hm ps [] bt_sorted_nil) as (Hk & _ & Hall); [set_solver|].
  destruct (Hall p Hp) as [x Hx]. apply bt_get_elem in Hx. apply list_elem_of_fmap. exists x.
  split; [symmetry; by apply Hk|]. unfold old_guard_keys. apply list_elem_of_fmap. by eexists (_, x).
Qed.

(** * The rows of a plan *)

Section plan_proofs.
Context `{Roaring B}.
Variable (col : string).
Implicit Types d : btree (string * Z) (Z * MergePatchRef).

(** The deduplication of one column's patches: sorted, of that column, with the rows
    [rows]. *)
Definition column_dedup d (rows : Z → Prop) : Prop :=
  bt_sorted d ∧ Forall (λ e, e.1.1 = col) d ∧ ∀ r, (∃ v, ((col, r), v) ∈ d) ↔ rows r.

Lemma dedup_row_column p d rows r : mp_col p = col → column_dedup d rows →
  column_dedup (dedup_row p d r) (λ r', rows r' ∨ r' = r).
Proof.
  intros Hp (Hs & Hc & Hr). unfold dedup_row. rewrite Hp.
  assert (column_dedup (bt_insert (col, r) ((mp_txn_range p).2, p) d) (λ r', rows r' ∨ r' = r)) as Hins.
  { split_and!; [by apply bt_insert_sorted|by apply bt_insert_Forall|]. intros r'.
    assert (∀ v, ((col, r'), v) ∈ bt_insert (col, r) ((mp_txn_range p).2, p) d ↔
                 bt_get (col, r') (bt_insert (col, r) ((mp_txn_range p).2, p) d) = Some v) as He.
    { intros v. by apply elem_of_bt_get, bt_insert_sorted. }
    setoid_rewrite He. rewrite bt_get_insert by done. destruct (cmp (col, r') (col, r)) eqn:E.
    - apply cmp_eq in E as [= ->]. naive_solver.
    - assert (r' ≠ r) by (intros ->; by rewrite cmp_refl in E). setoid_rewrite <- elem_of_bt_get; [|done].
      rewrite Hr. naive_solver.
    - assert (r' ≠ r) by (intros ->; by rewrite cmp_refl in E). setoid_rewrite <- elem_of_bt_get; [|done].
      rewrite Hr. naive_solver. }
  destruct (bt_get (col, r) d) as [[t q]|] eqn:Hg; [|done]. destruct (_ <=? _); [|done].
  split_and!; [done|done|]. intros r'. rewrite Hr. split; [by left|]. intros [?| ->]; [done|].
  apply Hr. exists (t, q). by apply elem_of_bt_get.
Qed.

Lemma dedup_patches_column ps d rows : Forall (λ p, mp_col p = col) ps → column_dedup d rows →
  column_dedup (for_each ps d (dedup_patch (B := B)))
    (λ r, rows r ∨ ∃ p, p ∈ ps ∧ r ∈ patch_row_positions (B := B) (mp_format p)).
Proof.
  assert (∀ d rows rows', column_dedup d rows → (∀ r, rows r ↔ rows' r) → column_dedup d rows') as Hext.
  { intros d' R R' (? & ? & Hr) He. split_and!; [done|done|]. intros r. by rewrite Hr, He. }
  assert (∀ p rs d rows, mp_col p = col → column_dedup d rows →
    column_dedup (for_each rs d (dedup_row p)) (λ r, rows r ∨ r ∈ rs)) as Hp.
  { intros p rs. unfold for_each. induction rs as [|r rs IH]; intros d' R Hc Hd; cbn.
    - eapply Hext; [exact Hd|]. intros r. rewrite elem_of_nil. naive_solver.
    - eapply Hext; [apply (IH _ _ Hc (dedup_row_column p d' R r Hc Hd))|]. intros r'. rewrite elem_of_cons. naive_solver. }
  intros Hps. unfold for_each. revert d rows. induction Hps as [|p ps Hc _ IH]; intros d rows Hd; cbn.
  - eapply Hext; [exact Hd|]. intros r. split; [by left|]. intros [?|(? & []%elem_of_nil & _)]. done.
  - eapply Hext; [apply (IH _ _ (Hp p _ d rows Hc Hd))|]. intros r. setoid_rewrite elem_of_cons. naive_solver.
Qed.

(** The groups of one column. *)
Lemma group_rows_column d : Forall (λ e, e.1.1 = col) d → d ≠ [] →
  group_rows d = [(col, (λ e, e.1.2) <$> d)].
Proof.
  intros Hd Hne. unfold group_rows, for_each.
  assert (∀ l rows, Forall (λ e : string * Z * (Z * MergePatchRef), e.1.1 = col) l →
    foldl (λ groups e, bt_insert e.1.1 (default [] (bt_get e.1.1 groups) ++ [e.1.2]) groups) [(col, rows)] l
    = [(col, rows ++ ((λ e : string * Z * (Z * MergePatchRef), e.1.2) <$> l))]) as Hl.
  { intros l. induction l as [|[[c r] v] l IH]; intros rows; [by rewrite app_nil_r|]. intros [Hc Hl]%Forall_cons.
    cbn in Hc. subst c. cbn [foldl fst snd bt_get bt_insert]. rewrite !cmp_refl. cbn [default].
    rewrite IH by done. by rewrite <- app_assoc. }
  destruct d as [|[[c r] v] d]; [done|]. apply Forall_cons in Hd as [Hc Hd]. cbn in Hc. subst c.
  cbn [foldl fst snd bt_get bt_insert default app]. by rewrite Hl.
Qed.
End plan_proofs.

(** * Properties *)

(** The values of a merge are those of reading every patch anew: keeping decoded
    arrays by their bytes changes neither a value nor an error. *)
Theorem merge_decode_cache_equiv `{Arrow Arr, Roaring B} (ps : list (MergePatchRef * list Z)) rows :
  (gather_values (Arr := Arr) (B := B) ∅ ps rows).2 = first_values (Arr := Arr) (B := B) ps rows.
Proof. apply gather_values_spec, map_Forall_empty. Qed.

(** A guard does not survive its merge.  The merged file takes the path of the file
    it replaces, and the cleanup then deletes that path, and with the key of a one-row
    range, which the ordering of keys does not tell apart, the guard itself. *)
Theorem merge_deletes_its_guard `{Arrow Arr, Roaring B, IpcWriter} io partial s s' k plan p :
  p ∈ plan_patches plan → guard_ord (old_key p) = guard_ord k →
  execute_merge_plan (Arr := Arr) (B := B) (λ _, true) io partial s plan = Some (s', Ok tt) →
  l2_files s' !! mp_path p = None ∧ get_guard s' k = None.
Proof.
  intros Hp Hk. unfold execute_merge_plan. destruct (merge_columns _ _ _ _ _ _ _) as [[s1 [[]|e]]|]; [|done|done].
  pose proof (old_guard_keys_ord _ p Hp) as Hin. case_bool_decide as He; [rewrite He in Hin; by apply elem_of_nil in Hin|].
  destruct (cleanup_guard_patches _ _ _ _) as [s2|] eqn:Hc; [|done]. cbn. intros [= <-].
  apply forget_guards_spec in Hc as [Hf Hg]. split; [|apply Hg; by rewrite <- Hk].
  rewrite Hf. cbn. apply remove_files_lookup. unfold old_file_paths. rewrite elem_of_elements, elem_of_list_to_set.
  apply list_elem_of_bind. exists p. split; [by left|done].
Qed.

Lemma read_loop_stuck `{Roaring B} g data fuel acc offset : offset + 32 ≤ zlen data → 0 ≤ offset →
  from_le_bytes (zslice data (offset + 24) (offset + 28)) = 0 → read_loop (B := B) fuel g data offset acc = None.
Proof.
  intros Hl Ho Hz. induction fuel as [|fuel IH]; cbn [read_loop];
    (destruct (Z.leb_spec (zlen data) offset); [lia|]); [done|].
  destruct (Z.ltb_spec (zlen data) (offset + 32)); [lia|]. rewrite Hz. change (MAX_PAYLOAD_SIZE <? 0) with false.
  unfold saturating_sub. destruct (Z.leb_spec (offset + 32) (zlen data)); [|lia].
  destruct (Z.ltb_spec (zlen data - (offset + 32)) 0); [lia|]. cbv iota.
  assert (zslice data (offset + 32) (offset + 32 + 0) = []) as ->.
  { unfold zslice. by replace (offset + 32 + 0 - (offset + 32)) with 0 by lia. }
  cbn [from_bytes]. by replace (offset + 0) with offset by lia.
Qed.

(** Reading the patches of a guard for a merge need not end.  A record whose bytes 24
    to 28 are zero, such as that of a sparse patch that affects no row, is taken for one
    without a payload; it does not parse and is skipped by the length of its payload, so
    the loop stays where it is: no amount of fuel is enough. *)
Theorem l2_merge_read_diverges `{Roaring B} g p rest s fuel :
  is_sparse (patch_format p) = true → affected_rows (zone_map p) = 0 →
  l2_files s !! g_file_path g = Some (file_header ++ patch_bytes p ++ rest) →
  read_all_patches (B := B) fuel s g = None.
Proof.
  intros Hsp Haff Hf. unfold read_all_patches. rewrite Hf. unfold check_magic.
  assert (zlen file_header = 64) as Hh by reflexivity.
  assert (96 ≤ zlen (file_header ++ patch_bytes p ++ rest)) as Hl.
  { unfold patch_bytes. autorewrite with zlen. rewrite Hh. pose proof (zlen_nonneg rest).
    pose proof (zlen_nonneg (to_bytes (patch_format p))). lia. }
  rewrite (proj2 (Z.leb_le _ _)) by lia. rewrite take_app_le by (vm_compute; lia).
  change (from_le_bytes (take 4 file_header) =? DELTA_FILE_MAGIC) with true. cbv iota.
  apply read_loop_stuck; [lia|lia|]. unfold patch_bytes. rewrite Hsp, Haff.
  replace (zslice _ _ _) with (to_le_bytes 4 0); [done|]. symmetry.
  change (to_le_bytes 8 0) with (to_le_bytes 3 0 ++ to_le_bytes 5 0). rewrite <- !app_assoc.
  rewrite (app_assoc file_header (to_le_bytes 8 (patch_id p))).
  rewrite (app_assoc _ (to_le_bytes 8 (txn_range p).1)), (app_assoc _ (to_le_bytes 8 (txn_range p).2)).
  rewrite (app_assoc [0] (to_le_bytes 3 0)).
  apply (zslice_mid _ (to_le_bytes 4 0)); autorewrite with zlen; rewrite ?Hh; lia.
Qed.

(** The plan of a merge.  For the patches of one column with some row, the plan has
    one column, whose rows are those of the patches, each once and in ascending order,
    and its range covers the transactions of every patch. *)
Theorem merge_plan_rows `{Roaring B} k col (ps : list MergePatchRef) p r :
  Forall (λ p, mp_col p = col ∧ 0 ≤ (mp_txn_range p).1 ≤ u64_max ∧ 0 ≤ (mp_txn_range p).2) ps →
  p ∈ ps → r ∈ patch_row_positions (B := B) (mp_format p) →
  ∃ cp, column_plans (plan_of (B := B) k ps) = [cp] ∧ cp_col cp = col ∧
    StronglySorted Z.le (kept_rows cp) ∧ NoDup (kept_rows cp) ∧
    (∀ r', r' ∈ kept_rows cp ↔ ∃ p', p' ∈ ps ∧ r' ∈ patch_row_positions (B := B) (mp_format p')) ∧
    (output_txn_range (plan_of (B := B) k ps)).1 ≤ (mp_txn_range p).1 ∧
    (mp_txn_range p).2 ≤ (output_txn_range (plan_of (B := B) k ps)).2.
Proof.
  intros Hps Hp Hr.
  destruct (dedup_patches_column (B := B) col ps [] (λ _, False)) as (Hs & Hc & Hrows).
  { eapply Forall_impl; [exact Hps|]. by intros ? [? _]. }
  { split_and!; [constructor|done|]. intros r'. split; [intros (? & []%elem_of_nil)|done]. }
  set (d := for_each ps [] (dedup_patch (B := B))) in *.
  assert (d ≠ []) as Hne. { intros E. destruct (proj2 (Hrows r)) as (v & Hv); [right; by exists p|].
    rewrite E in Hv. by apply elem_of_nil in Hv. }
  eexists. unfold plan_of. cbn [column_plans output_txn_range]. fold d. rewrite (group_rows_column col d Hc Hne).
  split; [done|]. cbn [cp_col kept_rows fst snd]. split; [done|]. split_and!.
  - assert (StronglySorted (λ x y, (x <=? y) = true) (sort_by Z.leb ((λ e, e.1.2) <$> d))) as Hss.
    { apply sort_by_sorted; intros; lia. }
    clear -Hss. induction Hss as [|x l Hl IH Hx]; constructor; [done|]. eapply Forall_impl; [exact Hx|]. cbn. lia.
  - rewrite sort_by_perm. assert (NoDup d.*1) as Hnd by by apply bt_sorted_NoDup_fst. clear -Hnd Hc.
    induction d as [|[[c x] v] d IH]; [constructor|]. cbn in *. apply NoDup_cons in Hnd as [Hx Hnd].
    apply Forall_cons in Hc as [Hcx Hc]. cbn in Hcx. subst c. constructor; [|by apply IH]. intros ([[c y] w] & -> & Hin)%list_elem_of_fmap.
    apply Hx. rewrite Forall_forall in Hc. pose proof (Hc _ Hin) as E. cbn in E. subst c. apply list_elem_of_fmap. by exists ((col, y), w).
  - intros r'. rewrite sort_by_perm, list_elem_of_fmap. split.
    + intros ([[c y] w] & -> & Hin). cbn. destruct (proj1 (Hrows y)) as [[]|?]; [|done].
      rewrite Forall_forall in Hc. pose proof (Hc _ Hin) as E. cbn in E. subst c. by exists w.
    + intros Hr'. destruct (proj2 (Hrows r')) as (v & Hv); [by right|]. by exists ((col, r'), v).
  - clear -Hp. unfold for_each. induction ps as [|q ps IH] using rev_ind; [by apply elem_of_nil in Hp|].
    rewrite foldl_app. cbn. apply elem_of_app in Hp as [Hp%IH| ->%list_elem_of_singleton]; lia.
  - clear -Hp. unfold for_each. induction ps as [|q ps IH] using rev_ind; [by apply elem_of_nil in Hp|].
    rewrite foldl_app. cbn. apply elem_of_app in Hp as [Hp%IH| ->%list_elem_of_singleton]; lia.
Qed.

(** ** A concrete run *)

#[export] Instance no_ipc : IpcWriter := λ _, Ok [].

Definition demo_key : GuardKey := {| gk_seg := "seg_1"; gk_col := "c"; gk_start := 0; gk_end := 3 |}.
Definition demo_ref (id t rows : Z) : MergePatchRef :=
  {| mp_patch_id := id; mp_seg := "seg_1"; mp_col := "c"; mp_path := "l2/seg_1/c/guard_0_3.delta";
     mp_format := Dense [1; 7; 8] rows t; mp_txn_range := (t, t); mp_dedup_key := (0, id) |}.
Definition demo_plan : MergePlan := plan_of (B := SortedBitmap) demo_key [demo_ref 1 4 2; demo_ref 2 6 1].
Definition demo_disk : DeltaL2Disk := DeltaL2Disk_new "l2" {["l2/seg_1/c/guard_0_3.delta" := [0]]}.

Lemma merge_plan_rows_witness :
  ∃ cp, column_plans demo_plan = [cp] ∧ cp_col cp = "c" ∧
    StronglySorted Z.le (kept_rows cp) ∧ NoDup (kept_rows cp) ∧
    (∀ r', r' ∈ kept_rows cp ↔ ∃ p', p' ∈ [demo_ref 1 4 2; demo_ref 2 6 1] ∧
              r' ∈ patch_row_positions (B := SortedBitmap) (mp_format p')) ∧
    (output_txn_range demo_plan).1 ≤ 4 ∧ 4 ≤ (output_txn_range demo_plan).2.
Proof.
  apply (merge_plan_rows (B := SortedBitmap) demo_key "c" [demo_ref 1 4 2; demo_ref 2 6 1] (demo_ref 1 4 2) 1).
  - do 2 (apply Forall_cons; split; [split_and!; cbn; unfold u64_max; first [done|lia]|]). constructor.
  - by left.
  - cbn. apply elem_of_seqZ. lia.
Defined.

Lemma merge_deletes_its_guard_witness :
  match execute_merge_plan (Arr := ListArray) (B := SortedBitmap) (λ _, true) (λ _ _, None) [] demo_disk demo_plan with
  | Some (s', Ok _) => l2_files s' !! mp_path (demo_ref 1 4 2) = None ∧ get_guard s' demo_key = None
  | _ => False
  end.
Proof.
  destruct (execute_merge_plan _ _ _ _ _) as [[s' [[]|e]]|] eqn:He.
  - exact (merge_deletes_its_guard _ _ _ _ demo_key demo_plan (demo_ref 1 4 2) (list_elem_of_here _ _) eq_refl He).
  - by vm_compute in He.
  - by vm_compute in He.
Defined.

Definition empty_patch : DeltaPatch :=
  {| patch_seg_id := "s"; patch_column := "c"; patch_id := 1; txn_range := (1, 1); patch_format := Sparse [] [] 0;
     zone_map := {| min_txn := 1; max_txn := 1; affected_rows := 0; min_value := None; max_value := None |} |}.

Lemma l2_merge_read_diverges_witness :
  read_all_patches (B := SortedBitmap) 1000
    (DeltaL2Disk_new "l2" {["f" := file_header ++ patch_bytes empty_patch ++ []]}) (Guard_new demo_key "f") = None.
Proof. by apply (l2_merge_read_diverges _ empty_patch []). Defined.
