(* ===== verification/FlushEngine.v ===== *)
(** The flush engine (storage/delta/flush_engine.rs): foreground monitor, policy
    selection, the building of a patch from cells, the flush of L1 to L2 and the
    compaction of L2 to L3, and one round of the scheduler. *)

From stdpp Require Import base gmap strings list pretty sorting.
From S2P Require Import Prelude Kv Visibility Roaring Arrow DeltaTypes DeltaMerge DeltaApply.
From S2P Require Import Wal MemStore Frozen LayerStack DiskStore DiskMerge.

Local Open Scope Z_scope.

(** * Foreground monitor *)

Record ForegroundMonitor := {
  recent_mbps : list f64;
  reserved_ratio : f64;
  outstanding_io : Z
}.

Definition ForegroundMonitor_new (ratio : f64) : ForegroundMonitor :=
  {| recent_mbps := []; reserved_ratio := ratio; outstanding_io := 0 |}.
Definition ForegroundMonitor_default : ForegroundMonitor := ForegroundMonitor_new (f64_lit 3 10).

(** A ring of 64 samples. *)
Definition record_sample (m : ForegroundMonitor) (mbps : f64) : ForegroundMonitor :=
  let recent := recent_mbps m ++ [mbps] in
  {| recent_mbps := if 64 <? zlen recent then tail recent else recent;
     reserved_ratio := reserved_ratio m; outstanding_io := outstanding_io m |}.

Definition current_load (m : ForegroundMonitor) : f64 :=
  if bool_decide (recent_mbps m = []) then f64_of_Z 0 else
  f64_min (f64_div (foldl f64_max (f64_of_Z 0) (recent_mbps m)) (f64_of_Z 100)) (f64_of_Z 1).

(** [(1.0 - load) > reserved] *)
Definition can_run_background (m : ForegroundMonitor) : bool :=
  f64_ltb (reserved_ratio m) (f64_sub (f64_of_Z 1) (current_load m)).

Definition set_outstanding_io (m : ForegroundMonitor) (n : Z) : ForegroundMonitor :=
  {| recent_mbps := recent_mbps m; reserved_ratio := reserved_ratio m; outstanding_io := n |}.

(** * Policy *)

Inductive CompactionPolicy := Leveling | Tiering | LazyLeveling | HotCold.

Record WorkloadProfile := {
  read_amp : f64;
  write_amp : f64;
  p99_latency_ms : f64;
  queries_per_second : f64;
  fg_io_mbps : f64
}.

Definition WorkloadProfile_new : WorkloadProfile :=
  let z := f64_of_Z 0 in
  {| read_amp := z; write_amp := z; p99_latency_ms := z; queries_per_second := z; fg_io_mbps := z |}.

Record EcoTuneSelector := { profile : WorkloadProfile; policy : CompactionPolicy }.
Definition EcoTuneSelector_new : EcoTuneSelector := {| profile := WorkloadProfile_new; policy := HotCold |}.

Definition select_policy_internal (p : WorkloadProfile) : CompactionPolicy :=
  if f64_ltb (f64_of_Z 10) (write_amp p) && f64_ltb (read_amp p) (f64_of_Z 2) then Tiering else
  if f64_ltb (f64_of_Z 5) (read_amp p) && f64_ltb (f64_of_Z 50) (p99_latency_ms p) then Leveling else
  if f64_ltb (f64_of_Z 1000) (queries_per_second p) then LazyLeveling else HotCold.

Definition eco_update_profile (p : WorkloadProfile) : EcoTuneSelector :=
  {| profile := p; policy := select_policy_internal p |}.

Definition expected_return (cost_mb : f64) (rounds_from_global : Z) : f64 :=
  let read_amp_reduction := f64_lit 1 2 in
  let discount := f64_div (f64_of_Z 1)
                    (f64_add (f64_of_Z 1) (f64_mul (f64_of_Z rounds_from_global) (f64_lit 2 10))) in
  f64_sub (f64_mul read_amp_reduction discount) (f64_mul cost_mb (f64_lit 1 10)).

(** * Decisions *)

Inductive CompactionPriority := PFlush | PMinor | PMajor.

Inductive CompactionAction :=
  | L1Flush
  | L1ToL2 (column : string)
  | GuardMerge (guard_key : GuardKey)
  | L2ToL3 (seg : string).

(** compaction/scheduler.rs [RewriteAction] and [MaintenanceTask] *)
Inductive RewriteAction :=
  | RPdtMerge | RSmallFileMerge | RQueryDriven | RFlushL1ToL2 | RCompactL2ToL3 | RGuardMerge
  | RMetadataEvidenceRefresh | RCheckpointPrivilege.
Record MaintenanceTask := { mt_action : RewriteAction; mt_seg_id : option string; mt_size_bytes : Z }.

Definition priority (a : CompactionAction) : CompactionPriority :=
  match a with
  | L1Flush => PFlush
  | L1ToL2 _ => PMinor
  | GuardMerge _ => PMajor
  | L2ToL3 _ => PMajor
  end.

Definition rewrite_action (a : CompactionAction) : RewriteAction :=
  match a with
  | L1Flush => RFlushL1ToL2
  | L1ToL2 _ => RFlushL1ToL2
  | GuardMerge _ => RGuardMerge
  | L2ToL3 _ => RCompactL2ToL3
  end.

Definition maintenance_task (a : CompactionAction) : MaintenanceTask :=
  {| mt_action := rewrite_action a;
     mt_seg_id := match a with
                  | L1Flush => None
                  | L1ToL2 column => Some column
                  | GuardMerge k => Some (gk_seg k)
                  | L2ToL3 seg => Some seg
                  end;
     mt_size_bytes := 0 |}.

Record CompactionDecision := {
  cd_action : CompactionAction;
  cd_maintenance : MaintenanceTask;
  cd_priority : CompactionPriority;
  expected_benefit : f64;
  concurrency : Z
}.

Definition CompactionDecision_new (a : CompactionAction) (benefit : f64) (n : Z) : CompactionDecision :=
  {| cd_action := a; cd_maintenance := maintenance_task a; cd_priority := priority a;
     expected_benefit := benefit; concurrency := n |}.

(** * Patches *)

(** sparsity.rs [encode_arrow_array] of a binary array *)
Class BinaryEncoder := encode_arrow_array : list bytes → bytes.

(** The latest cell per row, over the cells in the order of their transactions. *)
Definition latest_by_row (cells : list DeltaCell) : gmap Z DeltaCell :=
  for_each cells ∅ (λ index cell,
    match index !! row_offset cell with
    | Some existing => if txn_id existing <? txn_id cell then <[row_offset cell := cell]> index else index
    | None => <[row_offset cell := cell]> index
    end).

Definition txn_le (a b : DeltaCell) : bool := txn_id a <=? txn_id b.

Definition sorted_rows (index : gmap Z DeltaCell) : list Z := sort_by Z.leb (map_to_list index).*1.

Section patches.
Context `{Roaring B} `{BinaryEncoder}.

Definition build_patch_from_cells (cells : list DeltaCell) : Result DeltaPatch :=
  match sort_by txn_le cells with
  | [] => Err (EInternal "Cannot build patch from empty cells")
  | (first :: _) as sorted =>
      let range := (txn_id first, default 0 (txn_id <$> last sorted)) in
      let index := latest_by_row sorted in
      let positions := sorted_rows index in
      let values_bytes := (λ pos, default [] (index !! pos ≫= after)) <$> positions in
      let total_rows := wrap64 (foldr Z.max 0 positions + 1) in
      let format := build_format (B := B) (wrap32 <$> positions) (encode_arrow_array values_bytes) total_rows range.2 in
      Ok {| patch_seg_id := seg_id first; patch_column := column first; patch_id := range.2; txn_range := range;
            patch_format := format;
            zone_map := {| min_txn := range.1; max_txn := range.2; affected_rows := zlen positions;
                           min_value := None; max_value := None |} |}
  end.
End patches.

(** * The engine *)

Section engine.
Context `{WalLog W} `{Arrow Arr} `{Roaring B} `{BinaryEncoder} `{IpcWriter} `{HashIter}.

(** The threads, the clock and the tick interval are left out; a decision that reads
    the clock takes its outcome as an argument. *)
Record FlushEngine := {
  fe_l1 : DeltaMemStore W;
  fe_l2 : DeltaL2Disk;
  fe_l3 : DeltaL3Frozen;
  fe_l2_count : Z;
  fe_l3_count : Z;
  fg_monitor : ForegroundMonitor;
  ecotune : EcoTuneSelector;
  fe_threshold : Z;
  outstanding_scan_bytes : Z;
  recent_flush_cache : option (btree DeltaKey DeltaCell);
  fe_epoch : Z
}.
Implicit Types f : FlushEngine.

Definition set_stores f (m : DeltaMemStore W) (d : DeltaL2Disk) (z : DeltaL3Frozen) : FlushEngine :=
  {| fe_l1 := m; fe_l2 := d; fe_l3 := z; fe_l2_count := fe_l2_count f; fe_l3_count := fe_l3_count f;
     fg_monitor := fg_monitor f; ecotune := ecotune f; fe_threshold := fe_threshold f;
     outstanding_scan_bytes := outstanding_scan_bytes f; recent_flush_cache := recent_flush_cache f;
     fe_epoch := fe_epoch f |}.
Definition set_fe_counts f (n2 n3 : Z) : FlushEngine :=
  {| fe_l1 := fe_l1 f; fe_l2 := fe_l2 f; fe_l3 := fe_l3 f; fe_l2_count := n2; fe_l3_count := n3;
     fg_monitor := fg_monitor f; ecotune := ecotune f; fe_threshold := fe_threshold f;
     outstanding_scan_bytes := outstanding_scan_bytes f; recent_flush_cache := recent_flush_cache f;
     fe_epoch := fe_epoch f |}.
Definition set_monitor f (m : ForegroundMonitor) (e : EcoTuneSelector) (scan : Z) : FlushEngine :=
  {| fe_l1 := fe_l1 f; fe_l2 := fe_l2 f; fe_l3 := fe_l3 f; fe_l2_count := fe_l2_count f; fe_l3_count := fe_l3_count f;
     fg_monitor := m; ecotune := e; fe_threshold := fe_threshold f;
     outstanding_scan_bytes := scan; recent_flush_cache := recent_flush_cache f; fe_epoch := fe_epoch f |}.
Definition set_flush_cache f (r : option (btree DeltaKey DeltaCell)) (epoch : Z) : FlushEngine :=
  {| fe_l1 := fe_l1 f; fe_l2 := fe_l2 f; fe_l3 := fe_l3 f; fe_l2_count := fe_l2_count f; fe_l3_count := fe_l3_count f;
     fg_monitor := fg_monitor f; ecotune := ecotune f; fe_threshold := fe_threshold f;
     outstanding_scan_bytes := outstanding_scan_bytes f; recent_flush_cache := r; fe_epoch := epoch |}.

(** ** L1 to L2 *)

(** The faults of an append, by group. *)
Abbreviation group_io := (string * string → nat → option RockDuckError).

Definition group_cells (all : list DeltaCell) : gmap (string * string) (list DeltaCell) :=
  for_each all ∅ (λ groups d,
    <[(seg_id d, column d) := default [] (groups !! (seg_id d, column d)) ++ [d]]> groups).

Fixpoint write_groups (io : group_io) (partial : bytes) (d : DeltaL2Disk) (count : Z)
    (gs : list (string * string * list DeltaCell)) : DeltaL2Disk * Z * Result unit :=
  match gs with
  | [] => (d, count, Ok tt)
  | (g, cells) :: gs' =>
      match build_patch_from_cells (B := B) cells with
      | Err e => (d, count, Err e)
      | Ok patch =>
          match append_patch (io g) partial d g.1 g.2 patch with
          | (d, Err e) => (d, count, Err e)
          | (d, Ok _) => write_groups io partial d (count + 1) gs'
          end
      end
  end.

(** The drained cells go to the cache, the log is synced, the groups are written;
    an error returns at once.  [None]: the log spins on another leader. *)
Definition flush_l1_to_l2 (io : group_io) (partial : bytes) f : option (FlushEngine * Result Z) :=
  let '(m, all) := drain_after_swap (fe_l1 f) in
  let f := set_stores f m (fe_l2 f) (fe_l3 f) in
  let f := match recent_flush_cache f with
           | Some _ => set_flush_cache f (Some (for_each all [] (λ r d, bt_insert (cell_key d) d r))) (fe_epoch f)
           | None => f
           end in
  match sync_wal_before_flush (fe_l1 f) with
  | None => None
  | Some (m, Err e) => Some (set_stores f m (fe_l2 f) (fe_l3 f), Err e)
  | Some (m, Ok _) =>
      let f := set_stores f m (fe_l2 f) (fe_l3 f) in
      let groups := group_cells all in
      match write_groups io partial (fe_l2 f) (fe_l2_count f) (hash_iter groups) with
      | (d, n, Err e) => Some (set_fe_counts (set_stores f (fe_l1 f) d (fe_l3 f)) n (fe_l3_count f), Err e)
      | (d, n, Ok _) =>
          let f := set_fe_counts (set_stores f (fe_l1 f) d (fe_l3 f)) n (fe_l3_count f) in
          let f := set_flush_cache f ((λ _, []) <$> recent_flush_cache f) (wrap64 (fe_epoch f + 1)) in
          Some (f, Ok (Z.of_nat (size groups)))
      end
  end.

Definition fe_try_flush (io : group_io) (partial : bytes) f : option (FlushEngine * Result (option Z)) :=
  if should_flush (fe_l1 f) then
    (λ p, (p.1, n <-? p.2; Ok (Some n))) <$> flush_l1_to_l2 io partial f
  else Some (f, Ok None).

(** ** L2 to L3 *)

Definition min_txn_le (a b : GuardKey * Z) : bool := a.2 <=? b.2.

(** [io i]: the faults of the [i]-th write. *)
Fixpoint freeze_patches (io : Z → nat → option RockDuckError) (partial : bytes) (z : DeltaL3Frozen)
    (seg col : string) (min_txn i : Z) (ps : list MergePatchRef) : DeltaL3Frozen * Result unit :=
  match ps with
  | [] => (z, Ok tt)
  | p :: ps' =>
      match write_compacted (io i) partial z seg col (wrap64 (min_txn * 1000 + i)) (mp_format p) with
      | (z, Err e) => (z, Err e)
      | (z, Ok _) => freeze_patches io partial z seg col min_txn (i + 1) ps'
      end
  end.

Fixpoint compact_guards (fuel : nat) (io : GuardKey → Z → nat → option RockDuckError)
    (rm : GuardKey → option RockDuckError) (partial : bytes) (d : DeltaL2Disk) (z : DeltaL3Frozen)
    (seg : string) (count : Z) (gs : list (GuardKey * Z))
    : option (outcome (DeltaL2Disk * DeltaL3Frozen * Result Z)) :=
  match gs with
  | [] => Some (Done (d, z, Ok count))
  | (k, min_txn) :: gs' =>
      match read_all_patches_from_guard (B := B) fuel d k with
      | None => None
      | Some Panic => Some Panic
      | Some (Done (Err e)) => Some (Done (d, z, Err e))
      | Some (Done (Ok patches)) =>
          if bool_decide (patches = []) then compact_guards fuel io rm partial d z seg count gs' else
          match freeze_patches (io k) partial z seg (gk_col k) min_txn 0 patches with
          | (z, Err e) => Some (Done (d, z, Err e))
          | (z, Ok _) =>
              let '(d, _) := delete_guard_file (rm k) d k in
              compact_guards fuel io rm partial d z seg (count + zlen patches) gs'
          end
      end
  end.

Definition compact_l2_to_l3 (fuel : nat) (io : GuardKey → Z → nat → option RockDuckError)
    (rm : GuardKey → option RockDuckError) (partial : bytes) f (seg : string)
    : option (outcome (FlushEngine * Result unit)) :=
  let gs := take 4 (sort_by min_txn_le (guards_by_seg (fe_l2 f) seg)) in
  if bool_decide (gs = []) then Some (Done (f, Ok tt)) else
  match compact_guards fuel io rm partial (fe_l2 f) (fe_l3 f) seg 0 gs with
  | None => None
  | Some Panic => Some Panic
  | Some (Done (d, z, Err e)) => Some (Done (set_stores f (fe_l1 f) d z, Err e))
  | Some (Done (d, z, Ok n)) =>
      Some (Done (set_fe_counts (set_stores f (fe_l1 f) d z) (saturating_sub (fe_l2_count f) n)
                    (wrap64 (fe_l3_count f + n)), Ok tt))
  end.

(** ** Scheduling *)

(** [elapsed]: the minimal interval since the last flush has passed. *)
Definition check_p0_flush f (elapsed : bool) : option CompactionDecision :=
  if f64_ltb (f64_lit 7 10) (current_load (fg_monitor f)) then None else
  if negb (should_flush (fe_l1 f)) then None else
  if negb elapsed then None else
  Some (CompactionDecision_new L1Flush (f64_mul (f64_of_Z (hot_size_bytes (fe_l1 f))) (f64_lit 1 2)) 1).

Definition select_guard_merge f : option CompactionDecision :=
  k ← find_overloaded_guard (fe_l2 f);
  Some (CompactionDecision_new (GuardMerge k) (f64_mul (f64_of_Z (num_guards (fe_l2 f))) (f64_lit 1 10)) 1).

Definition select_l2_to_l3_compaction f : option CompactionDecision :=
  let benefit := expected_return (f64_of_Z 10) 1 in
  k ← find_overloaded_guard (fe_l2 f);
  if f64_ltb (f64_of_Z 0) benefit then Some (CompactionDecision_new (L2ToL3 (gk_seg k)) benefit 2) else None.

Definition select_compaction f : option CompactionDecision :=
  match policy (ecotune f) with
  | Tiering | LazyLeveling => select_l2_to_l3_compaction f
  | Leveling | HotCold =>
      match select_guard_merge f with
      | Some d => Some d
      | None => select_l2_to_l3_compaction f
      end
  end.

Definition poll_outstanding_io f : FlushEngine :=
  let bytes := outstanding_scan_bytes f in
  set_monitor f (if 0 <? bytes then set_outstanding_io (fg_monitor f) (wrap64 (bytes * 2)) else fg_monitor f)
    (ecotune f) 0.

Definition update_profile f : FlushEngine :=
  let fg_load := current_load (fg_monitor f) in
  set_monitor f (fg_monitor f)
    (eco_update_profile {| read_amp := f64_add (f64_of_Z 2) (f64_mul fg_load (f64_of_Z 3));
                           write_amp := f64_of_Z 5; p99_latency_ms := f64_of_Z 0; queries_per_second := f64_of_Z 0;
                           fg_io_mbps := f64_mul fg_load (f64_of_Z 100) |})
    (outstanding_scan_bytes f).

(** The faults of one round. *)
Record Faults := {
  flush_io : string * string → nat → option RockDuckError;
  merge_io : string → nat → option RockDuckError;
  freeze_io : GuardKey → Z → nat → option RockDuckError;
  delete_io : GuardKey → option RockDuckError;
  rm_ok : string → bool;
  partial_write : bytes;
  read_fuel : nat
}.

Definition execute (x : Faults) f (d : CompactionDecision) : option (outcome (FlushEngine * Result unit)) :=
  match mt_action (cd_maintenance d), cd_action d with
  | RFlushL1ToL2, _ =>
      (λ p, Done (p.1, _ <-? p.2; Ok tt)) <$> flush_l1_to_l2 (flush_io x) (partial_write x) f
  | RGuardMerge, GuardMerge k =>
      match schedule_guard_merge (Arr := Arr) (B := B) (read_fuel x) (rm_ok x) (merge_io x) (partial_write x) (fe_l2 f) k with
      | None => None
      | Some Panic => Some Panic
      | Some (Done (l2, r)) => Some (Done (set_stores f (fe_l1 f) l2 (fe_l3 f), r))
      end
  | RCompactL2ToL3, L2ToL3 seg =>
      compact_l2_to_l3 (read_fuel x) (freeze_io x) (delete_io x) (partial_write x) f seg
  | _, _ => Some (Done (f, Ok tt))
  end.

(** A decision that cannot run now is returned all the same. *)
Definition try_compact (x : Faults) f : option (outcome (FlushEngine * Result (option CompactionDecision))) :=
  match select_compaction f with
  | Some d =>
      if can_run_background (fg_monitor f) then
        match execute x f d with
        | None => None
        | Some Panic => Some Panic
        | Some (Done (f, r)) => Some (Done (f, _ <-? r; Ok (Some d)))
        end
      else Some (Done (f, Ok (Some d)))
  | None => Some (Done (f, Ok None))
  end.

(** One round of [run_loop]; errors are logged. *)
Definition tick (x : Faults) (elapsed : bool) f : option (outcome FlushEngine) :=
  let f := update_profile (poll_outstanding_io f) in
  let after_flush :=
    match check_p0_flush f elapsed with
    | Some d => match execute x f d with
                | None => None
                | Some Panic => Some Panic
                | Some (Done (f, _)) => Some (Done f)
                end
    | None => Some (Done f)
    end in
  match after_flush with
  | Some (Done f) =>
      if can_run_background (fg_monitor f) then
        match select_compaction f with
        | Some d => match execute x f d with
                    | None => None
                    | Some Panic => Some Panic
                    | Some (Done (f, _)) => Some (Done f)
                    end
        | None => Some (Done f)
        end
      else Some (Done f)
  | r => r
  end.
End engine.
Arguments FlushEngine _ : clear implicits.

(** * Patches of cells *)

(** A binary column is read back as it was written. *)
Class BinaryEncoderLaws (Arr : Type) `{Arrow Arr, BinaryEncoder} :=
  encode_arrow_array_ok : ∀ vs, ∃ arr : Arr, decode_ipc_column (encode_arrow_array vs) = Ok arr ∧
    arr_type arr = Binary ∧ arr_len arr = zlen vs ∧
    ∀ (i : nat) v, vs !! i = Some v → arr_slot arr (Z.of_nat i) = Some (VBin v).

(** A latest cell of its row. *)
Definition latest_in (cells : list DeltaCell) (c : DeltaCell) : Prop :=
  c ∈ cells ∧ ∀ c', c' ∈ cells → row_offset c' = row_offset c → txn_id c' ≤ txn_id c.

Lemma latest_by_row_spec cells r :
  match latest_by_row cells !! r with
  | Some c => row_offset c = r ∧ latest_in cells c
  | None => ∀ c, c ∈ cells → row_offset c ≠ r
  end.
Proof.
  unfold latest_by_row, for_each, latest_in. induction cells as [|d cells IH] using rev_ind; [set_solver|].
  rewrite foldl_app. cbn. match goal with |- context [foldl ?g ∅ cells] => set (index := foldl g ∅ cells) in * end.
  destruct (decide (row_offset d = r)) as [<-|Hne].
  - destruct (index !! row_offset d) as [c|] eqn:Hc.
    + destruct IH as (Hr & Hin & Hl). destruct (Z.ltb_spec (txn_id c) (txn_id d)).
      * rewrite lookup_insert_eq. split_and!; [done|set_solver|].
        intros c' [Hc'| ->%list_elem_of_singleton]%elem_of_app He; [|lia].
        specialize (Hl c' Hc'). rewrite Hr in Hl. specialize (Hl He). lia.
      * rewrite Hc. split_and!; [done|set_solver|].
        intros c' [Hc'| ->%list_elem_of_singleton]%elem_of_app He; [by apply Hl|lia].
    + rewrite lookup_insert_eq. split_and!; [done|set_solver|].
      intros c' [Hc'| ->%list_elem_of_singleton]%elem_of_app He; [by apply IH in Hc'|lia].
  - assert (match index !! row_offset d with
            | Some existing => if txn_id existing <? txn_id d then <[row_offset d := d]> index else index
            | None => <[row_offset d := d]> index
            end !! r = index !! r) as ->.
    { destruct (index !! row_offset d); [destruct (_ <? _); [|done]|]; by rewrite lookup_insert_ne. }
    destruct (index !! r) as [c|].
    + destruct IH as (Hr & Hin & Hl). split_and!; [done|set_solver|].
      intros c' [Hc'| ->%list_elem_of_singleton]%elem_of_app He; [by apply Hl|congruence].
    + intros c' [Hc'| ->%list_elem_of_singleton]%elem_of_app; [by apply IH|done].
Qed.

Lemma sorted_rows_spec index : StronglySorted Z.lt (sorted_rows index) ∧
  ∀ r, r ∈ sorted_rows index ↔ is_Some (index !! r).
Proof.
  unfold sorted_rows. assert (∀ r, r ∈ sort_by Z.leb (map_to_list index).*1 ↔ is_Some (index !! r)) as Hin.
  { intros r. rewrite sort_by_perm, list_elem_of_fmap. split.
    - intros ([k c] & -> & Hk%elem_of_map_to_list). by eexists.
    - intros [c Hc]. exists (r, c). split; [done|]. by apply elem_of_map_to_list. }
  split; [|done]. assert (NoDup (sort_by Z.leb (map_to_list index).*1)) as Hnd.
  { rewrite sort_by_perm. apply NoDup_fst_map_to_list. }
  assert (StronglySorted (λ x y, (x <=? y) = true) (sort_by Z.leb (map_to_list index).*1)) as Hs.
  { apply sort_by_sorted; intros; lia. }
  clear Hin. revert Hnd. induction Hs as [|x l Hl IH Hx]; [constructor|]. intros [Hn Hnd]%NoDup_cons.
  constructor; [by apply IH|]. rewrite Forall_forall in Hx |- *. intros y Hy. specialize (Hx y Hy). cbn in Hx.
  assert (x ≠ y) by congruence. lia.
Qed.

Lemma sorted_lt_unique (l1 l2 : list Z) : StronglySorted Z.lt l1 → StronglySorted Z.lt l2 →
  (∀ x, x ∈ l1 ↔ x ∈ l2) → l1 = l2.
Proof.
  intros H1 H2 Hin. apply (StronglySorted_unique_strong Z.lt); [|done|done|].
  { intros x y _ _. lia. }
  apply NoDup_Permutation; [by apply bs_sorted_NoDup..|done].
Qed.

Section patch_proofs.
Context `{RoaringLaws B} `{BinaryEncoderLaws Arr}.

(** The bitmap of ascending positions below 2 ^ 32 gives them back. *)
Lemma positions_roundtrip (ps : list Z) : StronglySorted Z.lt ps → Forall is_u32 ps →
  bm_iter (bm_deserialize (B := B) (bm_serialize (bm_from_iter (B := B) ps))) = ps.
Proof.
  intros Hs Hu. apply sorted_lt_unique; [apply bm_iter_sorted|done|]. intros x.
  rewrite elem_of_bm_iter, bm_roundtrip, bm_from_iter_set, elem_of_list_to_set; [done|].
  intros y. rewrite bm_from_iter_set, elem_of_list_to_set. rewrite Forall_forall in Hu. apply Hu.
Qed.

(** The parts of a built patch. *)
Lemma build_patch_parts cells : cells ≠ [] →
  ∃ p, build_patch_from_cells (B := B) cells = Ok p ∧
    let index := latest_by_row (sort_by txn_le cells) in
    patch_format p = build_format (B := B) (wrap32 <$> sorted_rows index)
      (encode_arrow_array ((λ pos, default [] (index !! pos ≫= after)) <$> sorted_rows index))
      (wrap64 (foldr Z.max 0 (sorted_rows index) + 1)) (txn_range p).2.
Proof.
  intros Hne. unfold build_patch_from_cells. pose proof (sort_by_perm txn_le cells) as Hp.
  destruct (sort_by txn_le cells) as [|c l]; [by apply Permutation_nil_l in Hp|]. by eexists.
Qed.

Lemma latest_in_perm cells cells' c : cells ≡ₚ cells' → latest_in cells c → latest_in cells' c.
Proof. intros Hp [Hin Hl]. split; [by rewrite <- Hp|]. intros c' Hc'. apply Hl. by rewrite Hp. Qed.

(** What a row's value is in a patch. *)
Definition row_value (cells : list DeltaCell) (pos : Z) : bytes :=
  default [] (latest_by_row (sort_by txn_le cells) !! pos ≫= after).

Definition patch_rows (cells : list DeltaCell) : list Z := sorted_rows (latest_by_row (sort_by txn_le cells)).

Lemma patch_rows_sorted cells : StronglySorted Z.lt (patch_rows cells).
Proof. apply sorted_rows_spec. Qed.

(** The rows of a patch are those of the cells, and their values those of latest
    cells. *)
Lemma elem_of_patch_rows cells r : r ∈ patch_rows cells ↔ r ∈ row_offset <$> cells.
Proof.
  unfold patch_rows. rewrite (proj2 (sorted_rows_spec _)), list_elem_of_fmap.
  pose proof (latest_by_row_spec (sort_by txn_le cells) r) as Hl. destruct (_ !! r) as [c|].
  - destruct Hl as (Hr & Hin & _). rewrite sort_by_perm in Hin. split; intros _; [by exists c|by eexists].
  - split; [by intros []|]. intros (c & -> & Hc). by destruct (Hl c); [rewrite sort_by_perm|].
Qed.

Lemma row_value_latest cells r : r ∈ patch_rows cells →
  ∃ c, latest_in cells c ∧ row_offset c = r ∧ row_value cells r = default [] (after c).
Proof.
  unfold patch_rows, row_value. rewrite (proj2 (sorted_rows_spec _)). intros [c Hc].
  pose proof (latest_by_row_spec (sort_by txn_le cells) r) as Hl. rewrite Hc in Hl |- *. destruct Hl as [Hr Hl].
  exists c. split_and!; [|done|reflexivity]. by eapply latest_in_perm; [apply sort_by_perm|].
Qed.

Lemma patch_rows_length cells : zlen (patch_rows cells) ≤ zlen cells.
Proof.
  unfold zlen. apply inj_le. rewrite <- (length_fmap row_offset cells). apply submseteq_length, NoDup_submseteq.
  - apply bs_sorted_NoDup, patch_rows_sorted.
  - intros r. by rewrite elem_of_patch_rows.
Qed.

Lemma patch_rows_max cells (hi : Z) : Forall (λ c, 0 ≤ row_offset c < hi) cells → cells ≠ [] →
  0 ≤ foldr Z.max 0 (patch_rows cells) < hi.
Proof.
  intros Hc Hne. assert (Forall (λ r, 0 ≤ r < hi) (patch_rows cells)) as Hr.
  { apply Forall_forall. intros r. rewrite elem_of_patch_rows. intros (c & -> & Hin)%list_elem_of_fmap.
    rewrite Forall_forall in Hc. by apply Hc. }
  assert (0 < hi) as Hhi. { destruct Hc; [done|lia]. }
  induction Hr as [|r l ? _ IH]; cbn; lia.
Qed.

Lemma wrap32_rows cells : Forall (λ c, 0 ≤ row_offset c < 2 ^ 32) cells → wrap32 <$> patch_rows cells = patch_rows cells.
Proof.
  intros Hc. transitivity (id <$> patch_rows cells); [|by rewrite list_fmap_id]. apply list_fmap_ext. intros i r Hr.
  apply list_elem_of_lookup_2, elem_of_patch_rows, list_elem_of_fmap in Hr as (c & -> & Hin).
  rewrite Forall_forall in Hc. apply Z.mod_small, Hc, Hin.
Qed.

(** Reading the values of a patch. *)
Lemma sparse_cells_ok (arr : Arr) (ps : list Z) (val : Z → bytes) : arr_len arr = zlen ps →
  (∀ (i : nat) v, (val <$> ps) !! i = Some v → arr_slot arr (Z.of_nat i) = Some (VBin v)) →
  sparse_cells arr ps = Done ((λ r, l2_cell r 0 (Some (val r))) <$> ps).
Proof.
  intros Hl Hs. unfold sparse_cells. rewrite Hl, Z.ltb_irrefl. f_equal. apply list_eq. intros i.
  rewrite list_lookup_imap, list_lookup_fmap. destruct (ps !! i) as [r|] eqn:Hr; [|done]. cbn.
  by rewrite (Hs i (val r)) by (by rewrite list_lookup_fmap, Hr).
Qed.

Lemma l2_dense_cells_ok t values (arr : Arr) n rows : decode_ipc_column values = Ok arr → arr_type arr = Binary →
  Forall (λ r, 0 ≤ r) rows → n = arr_len arr →
  (∀ r, 0 ≤ r < n → ∃ b, arr_slot arr r = Some (VBin b)) →
  ∃ img : Z → option bytes, l2_dense_cells (Arr := Arr) t values rows = Ok ((λ r, l2_cell r t (img r)) <$> rows) ∧
    ∀ r b, 0 ≤ r < n → arr_slot arr r = Some (VBin b) → img r = Some b.
Proof.
  intros Hd Ht Hr -> Hs.
  exists (λ r, if arr_len arr <=? r then None else match arr_slot arr r with Some (VBin b) => Some b | _ => None end).
  split.
  - induction Hr as [|r rows Hr _ IH]; [done|]. cbn [l2_dense_cells]. unfold extract_value_at. rewrite Hd.
    cbn [result_bind]. rewrite IH. cbn. rewrite Ht. destruct (Z.leb_spec (arr_len arr) r); [done|].
    destruct (Hs r) as [b ->]; [lia|]. done.
  - intros r b Hrn Hb. destruct (Z.leb_spec (arr_len arr) r); [lia|]. by rewrite Hb.
Qed.
End patch_proofs.

(** * Properties *)

(** A sparse patch of a flush.  For at most 999 cells with rows below one million, the
    patch is sparse, and reading it gives every written row once, with the image of a cell
    of that row with the latest transaction (the empty string for a delete) and without
    its transaction. *)
Theorem flush_patch_sparse `{RoaringLaws B} `{BinaryEncoderLaws Arr} cells :
  cells ≠ [] → zlen cells < 1000 → Forall (λ c, 0 ≤ row_offset c < 1000000) cells →
  ∃ p ds, build_patch_from_cells (B := B) cells = Ok p ∧ is_sparse (patch_format p) = true ∧
    patch_to_deltas (Arr := Arr) (B := B) (patch_format p) = Done (Ok ds) ∧ NoDup (row_offset <$> ds) ∧
    (∀ c, c ∈ cells → row_offset c ∈ row_offset <$> ds) ∧
    (∀ d, d ∈ ds → txn_id d = 0 ∧
       ∃ c, latest_in cells c ∧ row_offset c = row_offset d ∧ after d = Some (default [] (after c))).
Proof.
  intros Hne Hl Hr. destruct (build_patch_parts (B := B) cells Hne) as (p & Hp & Hf). cbn zeta in Hf.
  fold (patch_rows cells) in Hf. change (λ pos, default [] (_ !! pos ≫= after)) with (row_value cells) in Hf.
  pose proof (patch_rows_max cells 1000000 Hr Hne) as Hmax. pose proof (patch_rows_length cells) as Hlen.
  assert (0 < zlen (patch_rows cells)) as Hpos.
  { destruct cells as [|c cells]; [done|]. assert (row_offset c ∈ patch_rows (c :: cells)) as Hin.
    { apply elem_of_patch_rows. by left. }
    destruct (patch_rows (c :: cells)); [by apply elem_of_nil in Hin|unfold zlen; cbn; lia]. }
  rewrite wrap32_rows in Hf by (eapply Forall_impl; [exact Hr|]; cbn; lia).
  unfold wrap64 in Hf. rewrite Z.mod_small in Hf by lia. unfold build_format, should_use_sparse in Hf.
  destruct (Z.eqb_spec (foldr Z.max 0 (patch_rows cells) + 1) 0); [lia|].
  destruct (Z.eqb_spec (zlen (patch_rows cells)) 0); [lia|]. unfold dense_force_rows in Hf.
  destruct (Z.ltb_spec 1000000 (foldr Z.max 0 (patch_rows cells) + 1)); [lia|].
  destruct (Z.leb_spec 1000000 (zlen (patch_rows cells))); [lia|].
  destruct (Z.ltb_spec (zlen (patch_rows cells)) 1000); [|lia]. rewrite orb_true_r in Hf. cbn [orb] in Hf.
  exists p, ((λ r, l2_cell r 0 (Some (row_value cells r))) <$> patch_rows cells). rewrite Hf.
  destruct (encode_arrow_array_ok (Arr := Arr) (row_value cells <$> patch_rows cells)) as (arr & Hd & Ht & Hal & Hs).
  split_and!; [done|done| |..].
  - unfold sparse, patch_to_deltas. rewrite Hd, Ht. rewrite positions_roundtrip.
    + rewrite (sparse_cells_ok arr _ (row_value cells)); [done| |done]. rewrite Hal. unfold zlen. by rewrite length_fmap.
    + apply patch_rows_sorted.
    + apply Forall_forall. intros r. rewrite elem_of_patch_rows. intros (c & -> & Hin)%list_elem_of_fmap.
      rewrite Forall_forall in Hr. specialize (Hr c Hin). unfold is_u32, u32_max. lia.
  - rewrite <- list_fmap_compose. unfold compose. cbn. rewrite list_fmap_id. apply bs_sorted_NoDup, patch_rows_sorted.
  - intros c Hc. rewrite <- list_fmap_compose. unfold compose. cbn. rewrite list_fmap_id, elem_of_patch_rows.
    by apply list_elem_of_fmap_2.
  - intros d (r & -> & Hin)%list_elem_of_fmap. cbn. split; [done|].
    destruct (row_value_latest cells r Hin) as (c & ? & ? & ->). by exists c.
Qed.

(** A dense patch of a flush has its values on the wrong rows.  Only the values of the
    written rows are encoded, and a dense patch is read by position: the cell that comes
    back at row [i] carries the image of the [i]-th smallest row that was written. *)
Theorem flush_patch_dense_by_rank `{RoaringLaws B} `{BinaryEncoderLaws Arr} cells :
  cells ≠ [] → Forall (λ c, 0 ≤ row_offset c < 2 ^ 32) cells →
  ∃ p, build_patch_from_cells (B := B) cells = Ok p ∧
    (is_sparse (patch_format p) = false →
     ∃ ds, patch_to_deltas (Arr := Arr) (B := B) (patch_format p) = Done (Ok ds) ∧
       ∀ (i : nat) pos, patch_rows cells !! i = Some pos →
         ∃ d c, ds !! i = Some d ∧ row_offset d = Z.of_nat i ∧
           latest_in cells c ∧ row_offset c = pos ∧ after d = Some (default [] (after c))).
Proof.
  intros Hne Hr. destruct (build_patch_parts (B := B) cells Hne) as (p & Hp & Hf). cbn zeta in Hf.
  fold (patch_rows cells) in Hf. change (λ pos, default [] (_ !! pos ≫= after)) with (row_value cells) in Hf.
  exists p. split; [done|]. unfold build_format in Hf. destruct (should_use_sparse _ _); rewrite Hf; [done|]. intros _.
  destruct (encode_arrow_array_ok (Arr := Arr) (row_value cells <$> patch_rows cells)) as (arr & Hd & Ht & Hal & Hs).
  assert (∀ (i : nat) pos, patch_rows cells !! i = Some pos → arr_slot arr (Z.of_nat i) = Some (VBin (row_value cells pos))) as Hslot.
  { intros i pos Hi. apply Hs. by rewrite list_lookup_fmap, Hi. }
  assert (arr_len arr = zlen (patch_rows cells)) as Hlen by (rewrite Hal; unfold zlen; by rewrite length_fmap).
  set (n := wrap64 _). unfold patch_to_deltas, dense. rewrite Hd. cbn [result_bind].
  destruct (l2_dense_cells_ok (txn_range p).2 (encode_arrow_array (row_value cells <$> patch_rows cells)) arr (arr_len arr)
    (seqZ 0 (Z.max n (arr_len arr))) Hd Ht) as (img & -> & Himg).
  { apply Forall_forall. intros r Hin%elem_of_seqZ. lia. }
  { done. }
  { intros r Hrn. destruct (lookup_lt_is_Some_2 (patch_rows cells) (Z.to_nat r)) as [pos Hpos];
      [rewrite Hlen in Hrn; unfold zlen in Hrn; lia|]. exists (row_value cells pos).
    specialize (Hslot _ _ Hpos). by rewrite Z2Nat.id in Hslot by lia. }
  eexists. split; [done|]. intros i pos Hi. apply lookup_lt_Some in Hi as Hlt.
  destruct (row_value_latest cells pos) as (c & Hc & Hcr & Hv); [by eapply list_elem_of_lookup_2|].
  eexists _, c. rewrite list_lookup_fmap, lookup_seqZ_lt by (unfold zlen in Hlen; lia). split; [done|].
  cbn. split; [lia|]. split_and!; [done|done|]. rewrite <- Hv. apply (Himg (0 + Z.of_nat i)); [unfold zlen in Hlen; lia|].
  by apply Hslot.
Qed.

(** ** What a round leaves alone *)

Section scheduler_proofs.
Context `{WalLog W, Arrow Arr, Roaring B, BinaryEncoder, IpcWriter, HashIter}.
Implicit Types f g : FlushEngine W.

Definition same_l3 g g' : Prop := fe_l3 g' = fe_l3 g ∧ fe_l3_count g' = fe_l3_count g.

Lemma select_l2_to_l3_none f : select_l2_to_l3_compaction f = None.
Proof.
  unfold select_l2_to_l3_compaction. destruct (find_overloaded_guard _); [|done]. cbn.
  by change (f64_ltb (f64_of_Z 0) (expected_return (f64_of_Z 10) 1)) with false.
Qed.

Lemma flush_same_l3 io partial g g' r : flush_l1_to_l2 (B := B) io partial g = Some (g', r) → same_l3 g g'.
Proof.
  unfold flush_l1_to_l2. destruct (drain_after_swap _) as [m all].
  destruct (recent_flush_cache _); (destruct (sync_wal_before_flush _) as [[m' [n|e]]|]; [|by intros [= <- _]|done]);
    destruct (write_groups _ _ _ _ _) as [[dd nn] [u|e]]; by intros [= <- _].
Qed.

(** A decision of the constructor, for anything but L3. *)
Definition below_l3 (d : CompactionDecision) : Prop :=
  cd_maintenance d = maintenance_task (cd_action d) ∧ ∀ seg, cd_action d ≠ L2ToL3 seg.

Lemma execute_same_l3 x g g' d r : execute (Arr := Arr) (B := B) x g d = Some (Done (g', r)) → below_l3 d → same_l3 g g'.
Proof.
  intros He [Hm Hs]. unfold execute in He. rewrite Hm in He.
  destruct (cd_action d) as [|c|k|seg]; cbn [maintenance_task mt_action rewrite_action] in He; [| | |by destruct (Hs seg)].
  1,2: destruct (flush_l1_to_l2 (flush_io x) (partial_write x) g) as [[g1 r1]|] eqn:Hf; cbn in He; [|done];
       injection He as -> _; by eapply flush_same_l3.
  destruct (schedule_guard_merge _ _ _ _ _ _) as [[[l2' r']|]|]; [|done|done]. by injection He as <- _.
Qed.

Lemma select_compaction_below_l3 g d : select_compaction g = Some d → below_l3 d.
Proof.
  unfold select_compaction, select_guard_merge. rewrite select_l2_to_l3_none.
  destruct (policy (ecotune g)), (find_overloaded_guard (fe_l2 g)); cbn; try done; intros [= <-]; done.
Qed.

Lemma tick_same_l3 x elapsed g g' : tick (Arr := Arr) (B := B) x elapsed g = Some (Done g') → same_l3 g g'.
Proof.
  unfold tick. set (g0 := update_profile (poll_outstanding_io g)).
  assert (same_l3 g g0) as H0' by done. clearbody g0.
  assert (∀ g1, (if can_run_background (fg_monitor g1) then
      match select_compaction g1 with
      | Some d => match execute (Arr := Arr) (B := B) x g1 d with
                  | None => None | Some Panic => Some Panic | Some (Done (f, _)) => Some (Done f) end
      | None => Some (Done g1)
      end else Some (Done g1)) = Some (Done g') → same_l3 g1 g') as Hsecond.
  { intros g1. destruct (can_run_background _); [|by intros [= <-]].
    destruct (select_compaction g1) as [d|] eqn:Hd; [|by intros [= <-]].
    destruct (execute x g1 d) as [[[g2 r]|]|] eqn:He; [|done|done]. intros [= <-].
    by eapply execute_same_l3, select_compaction_below_l3. }
  assert (∀ g1, same_l3 g0 g1 → same_l3 g1 g' → same_l3 g g') as Htrans.
  { unfold same_l3 in *. intros g1 [] []. destruct H0'. split; congruence. }
  unfold check_p0_flush. destruct (f64_ltb _ _); [intros; by eapply (Htrans g0), Hsecond|].
  destruct (negb _); [intros; by eapply (Htrans g0), Hsecond|]. destruct (negb _); [intros; by eapply (Htrans g0), Hsecond|].
  destruct (execute x g0 _) as [[[g2 r]|]|] eqn:He; [|done|done]. intros H2'. eapply Htrans; [|by apply Hsecond].
  by eapply execute_same_l3.
Qed.
End scheduler_proofs.

(** The scheduler never moves a patch to L3.  The return that it computes for a
    compaction of L2 to L3 is negative, so such a compaction is not selected whatever the
    state, and a round leaves L3 and its counter as they are. *)
Theorem scheduler_never_freezes `{WalLog W, Arrow Arr, Roaring B, BinaryEncoder, IpcWriter, HashIter}
    x elapsed (f f' : FlushEngine W) :
  select_l2_to_l3_compaction f = None ∧
  (tick (Arr := Arr) (B := B) x elapsed f = Some (Done f') →
   fe_l3 f' = fe_l3 f ∧ fe_l3_count f' = fe_l3_count f).
Proof. split; [apply select_l2_to_l3_none|apply tick_same_l3]. Qed.

(** A flush whose log fails has let go of its cells.  The buffers are drained before the
    log is synced: the flush returns the error, L2 is unchanged, and, when the cold buffer
    was empty, a second flush has nothing to write. *)
Theorem flush_retry_has_nothing `{WalLog W, Roaring B, BinaryEncoder, HashIter} io partial (f : FlushEngine W) m e :
  cold (fe_l1 f) = [] →
  sync_wal_before_flush (drain_after_swap (fe_l1 f)).1 = Some (m, Err e) →
  ∃ f', flush_l1_to_l2 (B := B) io partial f = Some (f', Err e) ∧ fe_l2 f' = fe_l2 f ∧
    (drain_after_swap (fe_l1 f')).2 = [].
Proof.
  intros Hc Hs. unfold flush_l1_to_l2. destruct (drain_after_swap (fe_l1 f)) as [m0 all] eqn:Hd. cbn [fst] in Hs.
  assert (hot m0 = [] ∧ cold m0 = []) as [Hh0 Hc0].
  { unfold drain_after_swap, swap_and_drain, drain_cold in Hd. injection Hd as <- _. by rewrite Hc. }
  assert (hot m = [] ∧ cold m = []) as [Hh Hcm].
  { unfold sync_wal_before_flush, drain_wal_buffer in Hs. destruct (wal_buffer m0) as [|b bs]; [done|].
    destruct (wal_writer m0) as [w|]; [|done]. destruct (append_cells _ _ _) as [[w' r]|]; [|done].
    cbn in Hs. injection Hs as <- _. done. }
  assert ((drain_after_swap m).2 = []) as Hm by (unfold drain_after_swap, swap_and_drain, drain_cold; cbn; by rewrite Hh, Hcm).
  destruct (recent_flush_cache _); cbn [fe_l1 set_stores set_flush_cache]; rewrite Hs; eexists; split_and!; done.
Qed.

(** ** A concrete run *)

#[export] Instance frame_encoder : BinaryEncoder := λ vs, 2 :: frame vs.
#[export] Instance frame_encoder_laws : BinaryEncoderLaws ListArray.
Proof.
  intros vs. eexists. unfold decode_ipc_column, encode_arrow_array, frame_encoder. rewrite bool_decide_false by done.
  cbn [arr_ipc ListArray_arrow result_bind]. split; [done|]. cbn [arr_type arr_len ListArray_arrow la_type la_slots].
  rewrite unframe_frame by lia. split_and!; [done|unfold zlen; by rewrite length_fmap|].
  intros i v Hv. unfold arr_slot. cbn. rewrite Nat2Z.id, list_lookup_fmap, Hv. done.
Qed.

Lemma flush_patch_sparse_witness :
  ∃ p ds, build_patch_from_cells (B := SortedBitmap) [demo_delta "a" 4 9; demo_delta "a" 4 7] = Ok p ∧
    is_sparse (patch_format p) = true ∧
    patch_to_deltas (Arr := ListArray) (B := SortedBitmap) (patch_format p) = Done (Ok ds) ∧
    NoDup (row_offset <$> ds) ∧
    (∀ c, c ∈ [demo_delta "a" 4 9; demo_delta "a" 4 7] → row_offset c ∈ row_offset <$> ds) ∧
    (∀ d, d ∈ ds → txn_id d = 0 ∧
       ∃ c, latest_in [demo_delta "a" 4 9; demo_delta "a" 4 7] c ∧ row_offset c = row_offset d ∧
         after d = Some (default [] (after c))).
Proof.
  apply (flush_patch_sparse (B := SortedBitmap) (Arr := ListArray)); [done|reflexivity|].
  do 2 (apply Forall_cons; split; [cbn; lia|]). constructor.
Defined.

(** One cell past the millionth row: its image comes back at row 0. *)
Lemma flush_patch_dense_by_rank_witness :
  match build_patch_from_cells (B := SortedBitmap) [demo_delta "a" 1000000 9] with
  | Ok p =>
      is_sparse (patch_format p) = false ∧
      ∃ ds d, patch_to_deltas (Arr := ListArray) (B := SortedBitmap) (patch_format p) = Done (Ok ds) ∧
        ds !! 0%nat = Some d ∧ row_offset d = 0
  | Err _ => False
  end.
Proof.
  destruct (flush_patch_dense_by_rank (B := SortedBitmap) (Arr := ListArray) [demo_delta "a" 1000000 9]) as (p & Hp & Hd).
  { done. }
  { apply Forall_singleton. cbn. lia. }
  rewrite Hp. assert (is_sparse (patch_format p) = false) as Hs.
  { assert ((q ← match build_patch_from_cells (B := SortedBitmap) [demo_delta "a" 1000000 9] with Ok q => Some q | Err _ => None end;
             Some (is_sparse (patch_format q))) = Some false) as Hc by (vm_compute; reflexivity).
    rewrite Hp in Hc. by injection Hc. }
  split; [done|]. destruct (Hd Hs) as (ds & Hds & Hrow).
  destruct (Hrow 0%nat 1000000) as (d & c & Hd0 & Hr & _); [vm_compute; reflexivity|]. by exists ds, d.
Defined.

Definition demo_engine (m : DeltaMemStore MemLog) : FlushEngine MemLog :=
  {| fe_l1 := m; fe_l2 := DeltaL2Disk_new "l2" ∅; fe_l3 := DeltaL3Frozen_new "l3" ∅; fe_l2_count := 0; fe_l3_count := 0;
     fg_monitor := ForegroundMonitor_default; ecotune := EcoTuneSelector_new; fe_threshold := 64;
     outstanding_scan_bytes := 0; recent_flush_cache := None; fe_epoch := 0 |}.

Definition no_faults : Faults :=
  {| flush_io := λ _ _, None; merge_io := λ _ _, None; freeze_io := λ _ _ _, None; delete_io := λ _, None;
     rm_ok := λ _, true; partial_write := []; read_fuel := 10 |}.

Lemma scheduler_never_freezes_witness :
  match tick (Arr := ListArray) (B := SortedBitmap) no_faults true (demo_engine demo_mem) with
  | Some (Done f') => fe_l3 f' = fe_l3 (demo_engine demo_mem) ∧ fe_l3_count f' = 0
  | _ => False
  end.
Proof.
  destruct (tick _ _ _) as [[f'|]|] eqn:Ht; [|by vm_compute in Ht|by vm_compute in Ht].
  by apply (proj2 (scheduler_never_freezes no_faults true (demo_engine demo_mem) f')) in Ht.
Defined.

Definition failing_engine : FlushEngine MemLog := demo_engine demo_failing_mem.

Lemma flush_retry_has_nothing_witness :
  ∃ e f', flush_l1_to_l2 (B := SortedBitmap) (λ _ _, None) [] failing_engine = Some (f', Err e) ∧
    fe_l2 f' = fe_l2 failing_engine ∧ (drain_after_swap (fe_l1 f')).2 = [].
Proof.
  destruct (sync_wal_before_flush (drain_after_swap (fe_l1 failing_engine)).1) as [[m [n|e]]|] eqn:Hs;
    [by vm_compute in Hs| |by vm_compute in Hs].
  exists e. by apply (flush_retry_has_nothing (λ _ _, None) [] failing_engine m e).
Defined.
