(* ===== verification/Disk.v ===== *)
(** The part of [std::fs] that the sources use: a directory as a map from paths
    to bytes, the operations on it, each of which may fail, and the monad of
    computations that use it, return an error or panic.

    An entry of [disk_faults] decides one operation: [None] lets it run, [Some]
    makes it fail with that error, a write leaving a prefix of its bytes; when
    the list is used up nothing fails. *)

From stdpp Require Import base gmap strings list.
From S2P Require Import Prelude.

Local Open Scope Z_scope.

Record IoError := { io_kind : IoErrorKind; io_text : string }.

Record Disk := {
  disk_files : gmap string bytes;
  disk_faults : list (option (IoError * nat))
}.

Definition new_disk (fs : gmap string bytes) : Disk := {| disk_files := fs; disk_faults := [] |}.
Definition set_disk_files (d : Disk) (fs : gmap string bytes) : Disk :=
  {| disk_files := fs; disk_faults := disk_faults d |}.

(** * Computations *)

(** Over a state of type [S]; [io] is the instance at the disk. *)
Definition st (S E A : Type) : Type := S → S * outcome (result E A).
Abbreviation io := (st Disk).

Definition io_ret {S E A} (a : A) : st S E A := λ d, (d, Done (Ok a)).
Definition io_throw {S E A} (e : E) : st S E A := λ d, (d, Done (Err e)).
Definition io_panic {S E A} : st S E A := λ d, (d, Panic).
Definition io_bind {S E A B} (m : st S E A) (k : A → st S E B) : st S E B := λ d,
  match m d with
  | (d', Done (Ok a)) => k a d'
  | (d', Done (Err e)) => (d', Done (Err e))
  | (d', Panic) => (d', Panic)
  end.
Definition io_lift {S E A} (r : result E A) : st S E A := λ d, (d, Done r).
Definition io_outcome {S E A} (o : outcome (result E A)) : st S E A := λ d, (d, o).
Definition io_gets {S E A} (f : S → A) : st S E A := λ d, (d, Done (Ok (f d))).
Definition io_modify {S E} (f : S → S) : st S E unit := λ d, (f d, Done (Ok tt)).
Definition io_map_err {S E E' A} (f : E → E') (m : st S E A) : st S E' A := λ d,
  let '(d', o) := m d in
  (d', match o with Done r => Done (map_err f r) | Panic => Panic end).
(** [m.ok()] *)
Definition io_ok {S E E' A} (m : st S E A) : st S E' (option A) := λ d,
  let '(d', o) := m d in
  (d', match o with Done (Ok a) => Done (Ok (Some a)) | Done (Err _) => Done (Ok None) | Panic => Panic end).
(** [if let Err(e) = m { h(e) }], and [match m { Ok(a) => .., Err(e) => .. }] *)
Definition io_try {S E E' A} (m : st S E A) : st S E' (result E A) := λ d,
  let '(d', o) := m d in
  (d', match o with Done r => Done (Ok r) | Panic => Panic end).

(** Run a computation on a part of the state. *)
Definition io_on {S T E A} (get : T → S) (set : T → S → T) (m : st S E A) : st T E A := λ t,
  let '(s', o) := m (get t) in (set t s', o).

Notation "x <-! c ; k" := (io_bind c (λ x, k))
  (at level 100, c at next level, right associativity) : rd_scope.
Notation "' x <-! c ; k" := (io_bind c (λ x : _, k))
  (at level 20, x pattern, c at level 100, k at level 200, only parsing) : rd_scope.

(** A loop whose body may return early with [?]. *)
Fixpoint io_iter {S E A} (f : A → st S E unit) (l : list A) : st S E unit :=
  match l with
  | [] => io_ret tt
  | x :: l' => _ <-! f x; io_iter f l'
  end.

(** [RockDuckError::Io] and [RockDuckError::Write(format!("..: {}", e))] *)
Definition err_io (e : IoError) : RockDuckError := EIo (io_kind e) (io_text e).
Definition err_write (prefix : string) (e : IoError) : RockDuckError := EWrite (prefix +:+ ": " +:+ io_text e).

(** * Operations *)

(** Take the next fault; [torn] says what a failing operation leaves behind. *)
Definition fs_op {A} (torn : nat → gmap string bytes → gmap string bytes)
    (run : gmap string bytes → gmap string bytes * result IoError A) : io IoError A := λ d,
  match disk_faults d with
  | Some (e, n) :: rest => ({| disk_files := torn n (disk_files d); disk_faults := rest |}, Done (Err e))
  | None :: rest => let '(fs, r) := run (disk_files d) in ({| disk_files := fs; disk_faults := rest |}, Done r)
  | [] => let '(fs, r) := run (disk_files d) in ({| disk_files := fs; disk_faults := [] |}, Done r)
  end.

Definition no_such_file : IoError :=
  {| io_kind := NotFound; io_text := "No such file or directory (os error 2)" |}.

(** [path.exists()], [fs::read], [fs::write] (or a truncating open and
    [write_all]), an appending open and [write_all], [sync_all], [fs::rename],
    [fs::remove_file] *)
Definition fs_exists {E} (p : string) : io E bool := io_gets (λ d, bool_decide (is_Some (disk_files d !! p))).
Definition fs_read (p : string) : io IoError bytes :=
  fs_op (λ _ fs, fs) (λ fs, (fs, match fs !! p with Some bs => Ok bs | None => Err no_such_file end)).
Definition fs_write (p : string) (bs : bytes) : io IoError unit :=
  fs_op (λ n fs, <[p := take n bs]> fs) (λ fs, (<[p := bs]> fs, Ok tt)).
Definition fs_append (p : string) (bs : bytes) : io IoError unit :=
  fs_op (λ n fs, <[p := default [] (fs !! p) ++ take n bs]> fs)
        (λ fs, (<[p := default [] (fs !! p) ++ bs]> fs, Ok tt)).
Definition fs_sync (p : string) : io IoError unit := fs_op (λ _ fs, fs) (λ fs, (fs, Ok tt)).
Definition fs_rename (p q : string) : io IoError unit :=
  fs_op (λ _ fs, fs) (λ fs, match fs !! p with
                            | Some bs => (<[q := bs]> (delete p fs), Ok tt)
                            | None => (fs, Err no_such_file)
                            end).
Definition fs_remove (p : string) : io IoError unit :=
  fs_op (λ _ fs, fs) (λ fs, match fs !! p with
                            | Some _ => (delete p fs, Ok tt)
                            | None => (fs, Err no_such_file)
                            end).

(** * Reasoning *)

(** Every run of [m] relates the files before, the files after and the result. *)
Definition io_post {E A} (m : io E A)
    (Q : gmap string bytes → gmap string bytes → outcome (result E A) → Prop) : Prop :=
  ∀ d, let '(d', o) := m d in Q (disk_files d) (disk_files d') o.

(** The paths a computation may change. *)
Definition touches {E A} (ps : list string) (m : io E A) : Prop :=
  io_post m (λ fs fs' _, ∀ p, p ∉ ps → fs' !! p = fs !! p).

(** The run ends with [Ok a]. *)
Definition io_returns {S E A} (m : st S E A) (d : S) (a : A) (d' : S) : Prop := m d = (d', Done (Ok a)).

Section rules.
Context {S E : Type}.

Lemma io_returns_bind {A B} (m : st S E A) (k : A → st S E B) (d : S) b d' :
  io_returns (io_bind m k) d b d' ↔ ∃ a d1, io_returns m d a d1 ∧ io_returns (k a) d1 b d'.
Proof.
  unfold io_returns, io_bind. split.
  - destruct (m d) as [d1 [[a|e]|]] eqn:Hm; intros H; try discriminate. eauto.
  - intros (a & d1 & -> & H). exact H.
Qed.

Lemma io_returns_ret {A} (a b : A) (d d' : S) : io_returns (S := S) (E := E) (io_ret a) d b d' ↔ b = a ∧ d' = d.
Proof. unfold io_returns, io_ret. split; [by intros [= -> ->]|by intros [-> ->]]. Qed.

Lemma io_returns_lift {A} (r : result E A) a (d d' : S) : io_returns (io_lift r) d a d' ↔ r = Ok a ∧ d' = d.
Proof. unfold io_returns, io_lift. split; [by intros [= -> ->]|by intros [-> ->]]. Qed.

Lemma io_returns_outcome {A} (o : outcome (result E A)) a (d d' : S) :
  io_returns (io_outcome o) d a d' ↔ o = Done (Ok a) ∧ d' = d.
Proof. unfold io_returns, io_outcome. split; [by intros [= -> ->]|by intros [-> ->]]. Qed.

Lemma io_returns_gets {A} (f : S → A) a (d d' : S) : io_returns (S := S) (E := E) (io_gets f) d a d' ↔ a = f d ∧ d' = d.
Proof. unfold io_returns, io_gets. split; [by intros [= -> ->]|by intros [-> ->]]. Qed.

Lemma io_returns_map_err {E' A} (f : E' → E) (m : st S E' A) a (d d' : S) :
  io_returns (io_map_err f m) d a d' ↔ io_returns m d a d'.
Proof.
  unfold io_returns, io_map_err. destruct (m d) as [d1 [[x|e]|]]; cbn; split; intros; simplify_eq/=; done.
Qed.

Lemma io_returns_modify (f : S → S) u (d d' : S) : io_returns (E := E) (io_modify f) d u d' ↔ d' = f d.
Proof. unfold io_returns, io_modify. destruct u. split; [by intros [= ->]|by intros ->]. Qed.

Lemma io_returns_try {E' A} (m : st S E' A) r (d d' : S) :
  io_returns (E := E) (io_try m) d r d' ↔ m d = (d', Done r).
Proof. unfold io_returns, io_try. destruct (m d) as [d1 [x|]]; cbn; split; intros; simplify_eq/=; done. Qed.

Lemma io_returns_on {T A} (get : T → S) (set : T → S → T) (m : st S E A) (t t' : T) a :
  io_returns (io_on get set m) t a t' ↔ ∃ s', io_returns m (get t) a s' ∧ t' = set t s'.
Proof. unfold io_returns, io_on. destruct (m (get t)) as [s1 o]; split; [intros; simplify_eq; eauto|naive_solver]. Qed.
End rules.

Section disk_rules.
Context {E : Type}.

Lemma touches_returns {A} ps (m : io E A) d a d' p :
  touches ps m → io_returns m d a d' → p ∉ ps → disk_files d' !! p = disk_files d !! p.
Proof. intros Hm Hr. specialize (Hm d). rewrite Hr in Hm. apply Hm. Qed.

Lemma touches_mono {A} (ps qs : list string) (m : io E A) : ps ⊆ qs → touches ps m → touches qs m.
Proof. intros Hsub Hm d. specialize (Hm d). destruct (m d). set_solver. Qed.

Lemma touches_ret {A} ps (a : A) : touches (E := E) ps (io_ret a).
Proof. by intros d. Qed.
Lemma touches_throw {A} ps (e : E) : touches (A := A) ps (io_throw e).
Proof. by intros d. Qed.
Lemma touches_panic {A} ps : touches (E := E) (A := A) ps io_panic.
Proof. by intros d. Qed.
Lemma touches_lift {A} ps (r : result E A) : touches ps (io_lift r).
Proof. by intros d. Qed.
Lemma touches_outcome {A} ps (o : outcome (result E A)) : touches ps (io_outcome o).
Proof. by intros d. Qed.
Lemma touches_gets {A} ps (f : Disk → A) : touches (E := E) ps (io_gets f).
Proof. by intros d. Qed.

Lemma touches_bind {A B} ps (m : io E A) (k : A → io E B) :
  touches ps m → (∀ a, touches ps (k a)) → touches ps (io_bind m k).
Proof.
  intros Hm Hk d. unfold io_bind. specialize (Hm d). destruct (m d) as [d1 [[a|e]|]]; [|done..].
  specialize (Hk a d1). destruct (k a d1) as [d2 o]. intros p Hp. by rewrite Hk, Hm.
Qed.

Lemma touches_map_err {E' A} ps (f : E' → E) (m : io E' A) : touches ps m → touches ps (io_map_err f m).
Proof. intros Hm d. unfold io_map_err. specialize (Hm d). by destruct (m d). Qed.

Lemma touches_ok {E' A} ps (m : io E' A) : touches ps m → touches (E := E) ps (io_ok m).
Proof. intros Hm d. unfold io_ok. specialize (Hm d). by destruct (m d) as [? [[]|]]. Qed.

Lemma touches_iter {A} ps (f : A → io E unit) l : (∀ x, touches ps (f x)) → touches ps (io_iter f l).
Proof.
  intros Hf. induction l as [|x l IH]; [apply touches_ret|]. apply touches_bind; [apply Hf|by intros _].
Qed.
End disk_rules.

Lemma fs_op_touches {A} ps torn (run : gmap string bytes → gmap string bytes * result IoError A) :
  (∀ n fs p, p ∉ ps → torn n fs !! p = fs !! p) →
  (∀ fs p, p ∉ ps → (run fs).1 !! p = fs !! p) → touches ps (fs_op torn run).
Proof.
  intros Ht Hr [fs faults]. unfold fs_op. cbn. specialize (Hr fs).
  destruct faults as [|[[e n]|] faults]; cbn; [destruct (run fs)|set_solver|destruct (run fs)]; exact Hr.
Qed.

Lemma fs_exists_touches {E} ps p : touches (E := E) ps (fs_exists p).
Proof. apply touches_gets. Qed.
Lemma fs_read_touches ps p : touches ps (fs_read p).
Proof. by apply fs_op_touches. Qed.
Lemma fs_write_touches ps p bs : p ∈ ps → touches ps (fs_write p bs).
Proof. intros Hp. apply fs_op_touches; intros; cbn; apply lookup_insert_ne; set_solver. Qed.
Lemma fs_append_touches ps p bs : p ∈ ps → touches ps (fs_append p bs).
Proof. intros Hp. apply fs_op_touches; intros; cbn; apply lookup_insert_ne; set_solver. Qed.
Lemma fs_sync_touches ps p : touches ps (fs_sync p).
Proof. by apply fs_op_touches. Qed.
Lemma fs_rename_touches ps p q : p ∈ ps → q ∈ ps → touches ps (fs_rename p q).
Proof.
  intros Hp Hq. apply fs_op_touches; [done|]. intros fs r Hr. destruct (fs !! p); [|done]. cbn.
  by rewrite lookup_insert_ne, lookup_delete_ne by set_solver.
Qed.
Lemma fs_remove_touches ps p : p ∈ ps → touches ps (fs_remove p).
Proof.
  intros Hp. apply fs_op_touches; [done|]. intros fs r Hr. destruct (fs !! p); [|done]. cbn.
  by rewrite lookup_delete_ne by set_solver.
Qed.

(** What an operation that returns [Ok] did. *)
Lemma fs_op_returns {A} torn (run : gmap string bytes → gmap string bytes * result IoError A) a d d' :
  io_returns (fs_op torn run) d a d' → run (disk_files d) = (disk_files d', Ok a).
Proof.
  unfold io_returns, fs_op. destruct d as [fs faults]. cbn.
  destruct faults as [|[[e n]|] faults]; destruct (run fs) as [fs' r]; intros; simplify_eq/=; done.
Qed.

Lemma fs_read_returns p bs d d' :
  io_returns (fs_read p) d bs d' → disk_files d !! p = Some bs ∧ disk_files d' = disk_files d.
Proof. intros H%fs_op_returns. cbn in H. destruct (disk_files d !! p); by simplify_eq. Qed.
Lemma fs_write_returns p bs u d d' : io_returns (fs_write p bs) d u d' → disk_files d' = <[p := bs]> (disk_files d).
Proof. intros H%fs_op_returns. by simplify_eq. Qed.
Lemma fs_append_returns p bs u d d' :
  io_returns (fs_append p bs) d u d' → disk_files d' = <[p := default [] (disk_files d !! p) ++ bs]> (disk_files d).
Proof. intros H%fs_op_returns. by simplify_eq. Qed.
Lemma fs_sync_returns p u d d' : io_returns (fs_sync p) d u d' → disk_files d' = disk_files d.
Proof. intros H%fs_op_returns. by simplify_eq. Qed.
Lemma fs_rename_returns p q u d d' : io_returns (fs_rename p q) d u d' →
  ∃ bs, disk_files d !! p = Some bs ∧ disk_files d' = <[q := bs]> (delete p (disk_files d)).
Proof. intros H%fs_op_returns. cbn in H. destruct (disk_files d !! p); simplify_eq. eauto. Qed.
Lemma fs_remove_returns p u d d' : io_returns (fs_remove p) d u d' → disk_files d' = delete p (disk_files d).
Proof. intros H%fs_op_returns. cbn in H. destruct (disk_files d !! p); by simplify_eq. Qed.

(** Split a run that returned into the runs of its parts. *)
Ltac io_inv :=
  repeat match goal with
  | H : io_returns (io_bind _ _) _ _ _ |- _ => apply io_returns_bind in H as (? & ? & ? & ?)
  | H : io_returns (io_ret _) _ _ _ |- _ => apply io_returns_ret in H as [? ?]; subst
  | H : io_returns (io_lift _) _ _ _ |- _ => apply io_returns_lift in H as [? ?]; subst
  | H : io_returns (io_outcome _) _ _ _ |- _ => apply io_returns_outcome in H as [? ?]; subst
  | H : io_returns (io_gets _) _ _ _ |- _ => apply io_returns_gets in H as [? ?]; subst
  | H : io_returns (io_map_err _ _) _ _ _ |- _ => apply io_returns_map_err in H
  | H : io_returns (io_modify _) _ _ _ |- _ => apply io_returns_modify in H; subst
  | H : io_returns (io_try _) _ _ _ |- _ => apply io_returns_try in H
  | H : io_returns (io_on _ _ _) _ _ _ |- _ => apply io_returns_on in H as (? & ? & ?); subst
  | H : io_returns (fs_exists _) _ _ _ |- _ => unfold fs_exists in H
  | H : io_returns (fs_read _) _ _ _ |- _ => apply fs_read_returns in H as [? ?]
  | H : io_returns (fs_write _ _) _ _ _ |- _ => apply fs_write_returns in H
  | H : io_returns (fs_append _ _) _ _ _ |- _ => apply fs_append_returns in H
  | H : io_returns (fs_sync _) _ _ _ |- _ => apply fs_sync_returns in H
  | H : io_returns (fs_rename _ _) _ _ _ |- _ => apply fs_rename_returns in H as (? & ? & ?)
  | H : io_returns (fs_remove _) _ _ _ |- _ => apply fs_remove_returns in H
  | H : io_returns (io_throw _) _ _ _ |- _ => discriminate H
  | H : io_returns io_panic _ _ _ |- _ => discriminate H
  end.

(** Rewrite the files after a run to those before it. *)
Ltac io_files :=
  repeat match goal with
  | H : disk_files ?d = _ |- context [disk_files ?d] => rewrite H
  end.

#[export] Hint Resolve touches_ret touches_throw touches_panic touches_lift touches_outcome touches_gets
  fs_exists_touches fs_read_touches fs_sync_touches : rd.
(** Bound the paths of a computation by those of its operations. *)
Ltac io_touches :=
  repeat first
    [ progress intros
    | apply touches_bind | apply touches_map_err | apply touches_ok | apply touches_iter
    | solve [auto with rd]
    | apply fs_write_touches; set_solver | apply fs_append_touches; set_solver
    | apply fs_rename_touches; set_solver | apply fs_remove_touches; set_solver
    | case_match ].

(** ** Replacing a file through a temporary one *)

(** Whatever fails, the file is as it was or has the new contents, the latter
    exactly when the run returns [Ok]. *)
Lemma replace_file_post {E} (e1 e2 e3 e4 : IoError → E) tmp p bs :
  tmp ≠ p →
  io_post (_ <-! io_map_err e1 (fs_write tmp []); _ <-! io_map_err e2 (fs_append tmp bs);
           _ <-! io_map_err e3 (fs_sync tmp); _ <-! io_map_err e4 (fs_rename tmp p); io_ret tt)
    (λ fs fs' o, (o = Done (Ok tt) ∧ fs' !! p = Some bs) ∨ (∃ e, o = Done (Err e)) ∧ fs' !! p = fs !! p).
Proof.
  intros Hne [fs faults]. unfold io_bind, io_map_err, fs_write, fs_append, fs_sync, fs_rename, fs_op, io_ret. cbn.
  destruct faults as [|[[f1 n1]|] [|[[f2 n2]|] [|[[f3 n3]|] [|[[f4 n4]|] faults]]]]; cbn;
    rewrite ?lookup_insert_eq; cbn; rewrite ?lookup_insert_eq; cbn; rewrite ?lookup_insert_eq; cbn; eauto;
    right; (split; [by eauto|]); by rewrite ?lookup_insert_ne by done.
Qed.

(** * Runs that may stop at any operation *)

(** From a state in [P] a run either returns [a] in a state of [Q a] or stops
    with an error in a state of [C]; it does not panic.  As an error leaves the
    state as the failing operation left it, [C] also holds where a crash between
    two operations would leave the state. *)
Definition triple {S E A} (P : S → Prop) (m : st S E A) (Q : A → S → Prop) (C : S → Prop) : Prop :=
  ∀ s, P s → match m s with
             | (s', Done (Ok a)) => Q a s'
             | (s', Done (Err _)) => C s'
             | (_, Panic) => False
             end.

Section triples.
Context {S E : Type}.
Implicit Types P C : S → Prop.

Lemma triple_ret {A} (Q : A → S → Prop) C (a : A) : triple (E := E) (Q a) (io_ret a) Q C.
Proof. by intros s HQ. Qed.
Lemma triple_throw {A} (Q : A → S → Prop) C (e : E) : triple C (io_throw e) Q C.
Proof. by intros s HC. Qed.
Lemma triple_bind {A B} P (m : st S E A) (k : A → st S E B) R Q C :
  triple P m R C → (∀ a, triple (R a) (k a) Q C) → triple P (io_bind m k) Q C.
Proof.
  intros Hm Hk s HP. unfold io_bind. specialize (Hm s HP). destruct (m s) as [s1 [[a|e]|]]; [|done..].
  apply (Hk a s1 Hm).
Qed.
Lemma triple_map_err {E' A} P (f : E' → E) (m : st S E' A) Q C : triple P m Q C → triple P (io_map_err f m) Q C.
Proof. intros Hm s HP. unfold io_map_err. specialize (Hm s HP). by destruct (m s) as [s1 [[a|e]|]]. Qed.
Lemma triple_try {E' A} P (m : st S E' A) (Q : result E' A → S → Prop) C :
  triple P m (λ a, Q (Ok a)) (λ s, ∀ e, Q (Err e) s) → triple (E := E) P (io_try m) Q C.
Proof. intros Hm s HP. unfold io_try. specialize (Hm s HP). by destruct (m s) as [s1 [[a|e]|]]; cbn. Qed.
Lemma triple_conseq {A} P P' (m : st S E A) (Q Q' : A → S → Prop) (C C' : S → Prop) :
  triple P m Q C → (∀ s, P' s → P s) → (∀ a s, Q a s → Q' a s) → (∀ s, C s → C' s) → triple P' m Q' C'.
Proof. intros Hm HP HQ HC s Hs. specialize (Hm s (HP _ Hs)). destruct (m s) as [s1 [[a|e]|]]; auto. Qed.
Lemma triple_pure {A} (φ : Prop) P (m : st S E A) Q C : (φ → triple P m Q C) → triple (λ s, φ ∧ P s) m Q C.
Proof. intros Hm s [Hφ HP]. by apply (Hm Hφ s). Qed.
Lemma triple_on {T A} (get : T → S) (set : T → S → T) (m : st S E A) (P : T → Prop) (Q : A → T → Prop) (C : T → Prop) :
  (∀ t, P t → triple (λ s, s = get t) m (λ a s', Q a (set t s')) (λ s', C (set t s'))) →
  triple P (io_on get set m) Q C.
Proof. intros Hm t HP. unfold io_on. specialize (Hm t HP _ eq_refl). by destruct (m (get t)) as [s1 [[a|e]|]]. Qed.
End triples.

(** An operation of the disk: the files after a fault and after a run. *)
Lemma fs_op_triple {A} torn run (P : gmap string bytes → Prop) (Q : A → gmap string bytes → Prop)
    (C : gmap string bytes → Prop) :
  (∀ n fs, P fs → C (torn n fs)) →
  (∀ fs, P fs → match run fs with (fs', Ok a) => Q a fs' | (fs', Err _) => C fs' end) →
  triple (λ d, P (disk_files d)) (fs_op torn run) (λ a d, Q a (disk_files d)) (λ d, C (disk_files d)).
Proof.
  intros Ht Hr [fs faults] HP. cbn in *. unfold fs_op. cbn. specialize (Hr fs HP).
  destruct faults as [|[[e n]|] faults]; cbn; [|by apply Ht|]; by destruct (run fs) as [fs' [a|e]].
Qed.

(** [File::open(p)] for reading; opening a directory and [fs::create_dir_all],
    on which the files do not depend. *)
Definition fs_open (p : string) : io IoError unit :=
  fs_op (λ _ fs, fs) (λ fs, (fs, match fs !! p with Some _ => Ok tt | None => Err no_such_file end)).
Definition fs_open_dir (_ : string) : io IoError unit := fs_op (λ _ fs, fs) (λ fs, (fs, Ok tt)).
Definition fs_create_dir_all (_ : string) : io IoError unit := fs_op (λ _ fs, fs) (λ fs, (fs, Ok tt)).
