(* ===== verification/Vortex.v ===== *)
(** Column files (storage/vortex.rs): the writer, which collects batches and
    writes the first column of each, the reader, and the encoding sidecar.  The
    vortex library and the reader of Arrow IPC files are interfaces; the encoding
    picker of a writer is an argument of it. *)

From stdpp Require Import base gmap strings list.
From S2P Require Import Prelude Kv Arrow ShadowColumns Disk.

Local Open Scope Z_scope.

(** * Encoding metadata (codec/column_encoding.rs) *)

Inductive EncodingScheme :=
  | Raw | BtrBlocks | DictionaryScheme | FORScheme | DeltaScheme | RLE | BitPacking | Alp | AlpRD | Gorilla
  | CORRAPeerDiff | CORRASubaltern | CORRAHierarchical.

#[export] Instance EncodingScheme_eq_dec : EqDecision EncodingScheme.
Proof. solve_decision. Defined.
Definition all_schemes : list EncodingScheme :=
  [Raw; BtrBlocks; DictionaryScheme; FORScheme; DeltaScheme; RLE; BitPacking; Alp; AlpRD; Gorilla;
   CORRAPeerDiff; CORRASubaltern; CORRAHierarchical].
#[export] Instance EncodingScheme_countable : Countable EncodingScheme.
Proof.
  refine (inj_countable (λ s, (fst <$> list_find (s =.) all_schemes)) (λ o, o ≫= λ i, all_schemes !! i) _).
  by intros [].
Defined.

Definition as_str (s : EncodingScheme) : string :=
  match s with
  | Raw => "raw" | BtrBlocks => "btrblocks" | DictionaryScheme => "dict" | FORScheme => "for"
  | DeltaScheme => "delta" | RLE => "rle" | BitPacking => "bitpack" | Alp => "alp" | AlpRD => "alp_rd"
  | Gorilla => "gorilla" | CORRAPeerDiff => "corra_peer" | CORRASubaltern => "corra_subaltern"
  | CORRAHierarchical => "corra_hier"
  end.

Definition try_from_str (s : string) : option EncodingScheme :=
  if bool_decide (s = "raw") then Some Raw
  else if bool_decide (s = "btrblocks") then Some BtrBlocks
  else if bool_decide (s = "dict") then Some DictionaryScheme
  else if bool_decide (s = "for") then Some FORScheme
  else if bool_decide (s = "delta") then Some DeltaScheme
  else if bool_decide (s = "rle") then Some RLE
  else if bool_decide (s = "bitpack") then Some BitPacking
  else if bool_decide (s = "alp") then Some Alp
  else if bool_decide (s = "alp_rd") then Some AlpRD
  else if bool_decide (s = "gorilla") then Some Gorilla
  else if bool_decide (s = "corra_peer") then Some CORRAPeerDiff
  else if bool_decide (s = "corra_subaltern") then Some CORRASubaltern
  else if bool_decide (s = "corra_hier") then Some CORRAHierarchical
  else None.

(** The block list and the correlation statistics, which the writer leaves empty,
    are left out. *)
Record ColumnEncoding := {
  ce_column_name : string;
  ce_scheme : EncodingScheme;
  ce_total_rows : Z;
  ce_original_bytes : Z;
  ce_encoded_bytes : Z
}.

(** ** The sidecar file *)

Definition VEM_MAGIC : bytes := as_bytes "VEM1".
Definition VEM_VERSION : Z := 1.
Definition VEM_HEADER_SIZE : Z := 64.

Record EncodingMetaHeader := { emh_magic : bytes; emh_version : Z; emh_entry_count : Z; emh_payload_len : Z }.

Definition new_file_header (entry_count : Z) : EncodingMetaHeader :=
  {| emh_magic := VEM_MAGIC; emh_version := VEM_VERSION; emh_entry_count := entry_count; emh_payload_len := 0 |}.
Definition new_entry (payload_len : Z) : EncodingMetaHeader :=
  {| emh_magic := VEM_MAGIC; emh_version := VEM_VERSION; emh_entry_count := 1; emh_payload_len := payload_len |}.

Definition emh_to_bytes (h : EncodingMetaHeader) : bytes :=
  emh_magic h ++ emh_version h :: to_le_bytes 4 (emh_entry_count h) ++ to_le_bytes 4 (emh_payload_len h)
  ++ replicate 51 0.
Definition emh_from_bytes (bs : bytes) : EncodingMetaHeader :=
  {| emh_magic := zslice bs 0 4; emh_version := default 0 (bs !! 4%nat);
     emh_entry_count := from_le_bytes (zslice bs 5 9); emh_payload_len := from_le_bytes (zslice bs 9 13) |}.
Definition emh_is_valid (h : EncodingMetaHeader) : bool :=
  bool_decide (emh_magic h = VEM_MAGIC) && (emh_version h =? VEM_VERSION).

(** [path.with_extension("vortex.encoding")]: what follows the last dot of the
    file name is replaced. *)
Fixpoint str_rindex (c : Ascii.ascii) (s : string) : option nat :=
  match s with
  | EmptyString => None
  | String x s' => match str_rindex c s' with
                   | Some i => Some (S i)
                   | None => if bool_decide (x = c) then Some 0%nat else None
                   end
  end.
Definition slash : Ascii.ascii := Ascii.ascii_of_nat 47.
Definition dot : Ascii.ascii := Ascii.ascii_of_nat 46.
Definition file_name_start (path : string) : nat := match str_rindex slash path with Some i => S i | None => 0%nat end.
Definition with_extension (path ext : string) : string :=
  match str_rindex dot path with
  | Some i => if decide (file_name_start path < i)%nat then String.substring 0 i path +:+ "." +:+ ext
              else path +:+ "." +:+ ext
  | None => path +:+ "." +:+ ext
  end.
Definition encoding_path (path : string) : string := with_extension path "vortex.encoding".

Definition meta_err {A} (prefix : string) (r : result CodecError A) : Result A :=
  map_err (λ e, ECodec (prefix +:+ ": " +:+ codec_error_display e)) r.

Section sidecar.
Context `{Codec ColumnEncoding}.

Definition decode_encoding_meta (bs : bytes) : Result ColumnEncoding :=
  if zlen bs <? VEM_HEADER_SIZE then Err (ECodec "encoding sidecar file too short to contain header") else
  if emh_is_valid (emh_from_bytes (zslice bs 0 VEM_HEADER_SIZE)) then
    if zlen bs <? VEM_HEADER_SIZE + VEM_HEADER_SIZE
    then Err (ECodec "encoding sidecar: file too short for entry descriptor") else
    let entry := emh_from_bytes (zslice bs VEM_HEADER_SIZE (VEM_HEADER_SIZE + VEM_HEADER_SIZE)) in
    if emh_is_valid entry then
      let payload_start := VEM_HEADER_SIZE + VEM_HEADER_SIZE in
      if zlen bs <? payload_start + emh_payload_len entry
      then Err (ECodec "encoding sidecar: truncated payload")
      else meta_err "encoding meta" (decode (zslice bs payload_start (payload_start + emh_payload_len entry)))
    else Err (ECodec "encoding sidecar: invalid entry descriptor")
  else meta_err "encoding meta" (decode bs).

Definition load_encoding_meta (path : string) : io RockDuckError ColumnEncoding :=
  bs <-! io_map_err err_io (fs_read (encoding_path path));
  io_lift (decode_encoding_meta bs).

Definition entry_bytes (meta_bytes : bytes) : bytes := emh_to_bytes (new_entry (wrap32 (zlen meta_bytes))) ++ meta_bytes.

Definition save_encoding_meta_sync (path : string) (meta : ColumnEncoding) : io RockDuckError unit :=
  meta_bytes <-! io_lift (meta_err "encode encoding meta" (encode meta));
  let p := encoding_path path in
  _ <-! io_map_err err_io (fs_write p []);
  _ <-! io_map_err err_io (fs_append p (emh_to_bytes (new_file_header 1)));
  _ <-! io_map_err err_io (fs_append p (emh_to_bytes (new_entry (wrap32 (zlen meta_bytes)))));
  _ <-! io_map_err err_io (fs_append p meta_bytes);
  io_map_err err_io (fs_sync p).

Definition append_encoding_meta_sync (path : string) (meta : ColumnEncoding) : io RockDuckError unit :=
  meta_bytes <-! io_lift (meta_err "encode encoding meta" (encode meta));
  let p := encoding_path path in
  file_exists <-! fs_exists p;
  _ <-! io_map_err err_io (fs_append p []);
  _ <-! (if file_exists : bool then io_ret tt
         else io_map_err err_io (fs_append p (emh_to_bytes (new_file_header 1))));
  _ <-! io_map_err err_io (fs_append p (emh_to_bytes (new_entry (wrap32 (zlen meta_bytes)))));
  _ <-! io_map_err err_io (fs_append p meta_bytes);
  io_map_err err_io (fs_sync p).
End sidecar.

(** * The vortex library *)

(** [vx_from_arrow] is [ArrayRef::from_arrow], [vx_compress] the BtrBlocks
    compressor, [vx_chunked] [ChunkedArray::try_new], [vx_write] the file writer,
    [vx_read] opening a buffer, scanning it and reading all, [vx_to_arrow]
    [execute_arrow]; errors of [vx_read] carry the stage.  [ipc_file] is the
    reader of Arrow IPC files and [mem_size] [get_array_memory_size]. *)
Class VortexLib (Arr : Type) := {
  Vx : Type;
  vx_from_arrow : Arr → result string Vx;
  vx_compress : Vx → result string Vx;
  vx_chunked : list Vx → result string Vx;
  vx_write : Vx → result string bytes;
  vx_read : bytes → result string Vx;
  vx_to_arrow : Vx → result string Arr;
  ipc_file : bytes → result string (list Field * list (result string (RecordBatch Arr)));
  mem_size : RecordBatch Arr → Z
}.
#[global] Hint Mode VortexLib ! : typeclass_instances.
Arguments Vx Arr {_}.

Definition VTXF : bytes := as_bytes "VTXF".

(** The library is lossless: every stage keeps the type and the slots, a file
    begins with its magic bytes and can be read back. *)
Class VortexLaws (Arr : Type) `{Arrow Arr, !VortexLib Arr} := {
  vx_type : Vx Arr → DataType;
  vx_slots : Vx Arr → list (option Value);
  vx_from_arrow_ok : ∀ (a : Arr) v, vx_from_arrow a = Ok v → vx_type v = arr_type a ∧ vx_slots v = slots a;
  vx_compress_ok : ∀ v v' : Vx Arr, vx_compress v = Ok v' → vx_type v' = vx_type v ∧ vx_slots v' = vx_slots v;
  vx_chunked_ok : ∀ (vs : list (Vx Arr)) v, vx_chunked vs = Ok v →
    Forall (λ w, vx_type w = vx_type v) vs ∧ vx_slots v = vs ≫= vx_slots;
  vx_write_magic : ∀ (v : Vx Arr) bs, vx_write v = Ok bs → take 4 bs = VTXF;
  vx_write_read : ∀ (v : Vx Arr) bs, vx_write v = Ok bs →
    ∃ w (a : Arr), vx_read bs = Ok w ∧ vx_to_arrow w = Ok a ∧ arr_type a = vx_type v ∧ slots a = vx_slots v
}.
#[global] Hint Mode VortexLaws ! - - : typeclass_instances.

Definition err_stage {A} (stage : string) (r : result string A) : Result A :=
  map_err (λ e, EInternal (stage +:+ ": " +:+ e)) r.

Section vortex.
Context `{Arrow Arr} `{Batches Arr} `{!VortexLib Arr} `{Codec ColumnEncoding}.

(** * The reader *)

(** [batches] is loaded by both constructors, so it is not an option here. *)
Record VortexReader := {
  vr_path : string;
  vr_schema : list Field;
  vr_batches : list (RecordBatch Arr);
  vr_total_rows : Z;
  vr_encoding_meta : option ColumnEncoding
}.

Definition looks_like_vortex {E} (path : string) : io E bool :=
  r <-! io_ok (fs_read path);
  io_ret (match r with Some bs => bool_decide (4 ≤ zlen bs ∧ take 4 bs = VTXF) | None => false end).

Definition schema_from_vortex_array (v : Vx Arr) : Result (list Field) :=
  col <-? err_stage "schema col" (vx_to_arrow v);
  Ok [{| f_name := "value"; f_type := arr_type col; f_nullable := true |}].

(** The schema has one field, so only the last branch of the function runs. *)
Definition vortex_to_arrow_batch (v : Vx Arr) (schema : list Field) : Result (RecordBatch Arr) :=
  arrow_arr <-? err_stage "execute_arrow" (vx_to_arrow v);
  err_stage "single-col batch from vortex" (try_new schema [arrow_arr]).

Definition read_vortex_from_buffer (buffer : bytes) : Result (list Field * list (RecordBatch Arr) * Z) :=
  arr <-? map_err EInternal (vx_read buffer);
  schema <-? schema_from_vortex_array arr;
  batch <-? vortex_to_arrow_batch arr schema;
  Ok (schema, [batch], rb_rows batch).

Fixpoint ipc_batches (bs : list (result string (RecordBatch Arr))) (acc : list (RecordBatch Arr)) (total : Z)
    : Result (list (RecordBatch Arr) * Z) :=
  match bs with
  | [] => Ok (acc, total)
  | r :: bs' => b <-? err_stage "batch read" r; ipc_batches bs' (acc ++ [b]) (total + rb_rows b)
  end.

Definition read_arrow_ipc (path : string) : io RockDuckError (list Field * list (RecordBatch Arr) * Z) :=
  bs <-! io_map_err err_io (fs_read path);
  io_lift ('(schema, rs) <-? err_stage "Arrow IPC reader" (ipc_file bs);
           '(batches, total) <-? ipc_batches rs [] 0;
           Ok (schema, batches, total)).

(** A file that cannot be mapped falls through to the IPC reader; an error while
    reading a mapped one does not. *)
Definition VortexReader_open (path : string) : io RockDuckError VortexReader :=
  encoding_meta <-! io_ok (load_encoding_meta path);
  looks <-! looks_like_vortex path;
  buffer <-! (if looks : bool then io_ok (fs_read path) else io_ret None);
  '(schema, batches, total_rows) <-!
    match buffer with
    | Some buf => io_lift (read_vortex_from_buffer buf)
    | None => read_arrow_ipc path
    end;
  io_ret {| vr_path := path; vr_schema := schema; vr_batches := batches; vr_total_rows := total_rows;
            vr_encoding_meta := encoding_meta |}.

Definition read_all_batches (r : VortexReader) : list (RecordBatch Arr) := vr_batches r.

Fixpoint find_batch (row_offset start : Z) (bs : list (RecordBatch Arr)) : option (RecordBatch Arr * Z) :=
  match bs with
  | [] => None
  | b :: bs' =>
      let end_ := start + rb_rows b in
      if row_offset <? end_ then Some (b, row_offset - start) else find_batch row_offset end_ bs'
  end.

Definition read_batch_at (r : VortexReader) (row_offset : Z) : option (RecordBatch Arr * Z) :=
  if vr_total_rows r <=? row_offset then None else find_batch row_offset 0 (vr_batches r).

(** * The writer *)

Record VortexWriter := {
  vw_path : string;
  vw_col_name : string;
  vw_batches : list (RecordBatch Arr);
  vw_total_rows : Z;
  vw_picker : option (Arr → Result (Vx Arr * EncodingScheme));
  vw_flush_threshold : Z;
  vw_bytes_written : Z;
  vw_streaming_original_bytes : Z;
  vw_streaming_encoded_bytes : Z;
  vw_total_rows_flushed : Z
}.

Definition with_encoding_picker_opt (path col_name : string) (picker : option (Arr → Result (Vx Arr * EncodingScheme)))
    : VortexWriter :=
  {| vw_path := path; vw_col_name := col_name; vw_batches := []; vw_total_rows := 0; vw_picker := picker;
     vw_flush_threshold := 100000; vw_bytes_written := 0; vw_streaming_original_bytes := 0;
     vw_streaming_encoded_bytes := 0; vw_total_rows_flushed := 0 |}.
Definition VortexWriter_create (path col_name : string) : VortexWriter := with_encoding_picker_opt path col_name None.
Definition with_encoding_picker (path col_name : string) (picker : Arr → Result (Vx Arr * EncodingScheme)) : VortexWriter :=
  with_encoding_picker_opt path col_name (Some picker).

Definition with_flush_threshold (w : VortexWriter) (threshold : Z) : VortexWriter :=
  {| vw_path := vw_path w; vw_col_name := vw_col_name w; vw_batches := vw_batches w;
     vw_total_rows := vw_total_rows w; vw_picker := vw_picker w; vw_flush_threshold := threshold;
     vw_bytes_written := vw_bytes_written w; vw_streaming_original_bytes := vw_streaming_original_bytes w;
     vw_streaming_encoded_bytes := vw_streaming_encoded_bytes w; vw_total_rows_flushed := vw_total_rows_flushed w |}.

Definition vw_write (w : VortexWriter) (b : RecordBatch Arr) : VortexWriter :=
  {| vw_path := vw_path w; vw_col_name := vw_col_name w; vw_batches := vw_batches w ++ [b];
     vw_total_rows := vw_total_rows w + rb_rows b; vw_picker := vw_picker w;
     vw_flush_threshold := vw_flush_threshold w; vw_bytes_written := vw_bytes_written w + mem_size b;
     vw_streaming_original_bytes := vw_streaming_original_bytes w;
     vw_streaming_encoded_bytes := vw_streaming_encoded_bytes w; vw_total_rows_flushed := vw_total_rows_flushed w |}.

(** One batch of [compress_adaptive]; [batch.column(0)] panics on a batch without
    columns. *)
Definition compress_batch (picker : option (Arr → Result (Vx Arr * EncodingScheme))) (b : RecordBatch Arr)
    : outcome (Result (Vx Arr * (EncodingScheme * Z))) :=
  match head (rb_columns b) with
  | None => Panic
  | Some arr => Done
      (match picker with
       | Some pick => '(encoded, scheme) <-? pick arr; Ok (encoded, (scheme, wrap32 (rb_rows b)))
       | None => vtx_arr <-? err_stage "Arrow->Vortex" (vx_from_arrow arr);
                 comp <-? err_stage "BtrBlocks" (vx_compress vtx_arr);
                 Ok (comp, (BtrBlocks, wrap32 (rb_rows b)))
       end)
  end.

Fixpoint compress_batches (picker : option (Arr → Result (Vx Arr * EncodingScheme))) (bs : list (RecordBatch Arr))
    : outcome (Result (list (Vx Arr * (EncodingScheme * Z)))) :=
  match bs with
  | [] => Done (Ok [])
  | b :: bs' =>
      match compress_batch picker b with
      | Panic => Panic
      | Done (Err e) => Done (Err e)
      | Done (Ok p) =>
          match compress_batches picker bs' with
          | Panic => Panic
          | Done r => Done (ps <-? r; Ok (p :: ps))
          end
      end
  end.

Definition compress_adaptive (w : VortexWriter) : outcome (Result (Vx Arr * EncodingScheme)) :=
  if bool_decide (vw_batches w = []) then Done (Err (EInternal "no batches")) else
  match compress_batches (vw_picker w) (vw_batches w) with
  | Panic => Panic
  | Done r => Done (
      ps <-? r;
      chunked <-? err_stage "ChunkedArray" (vx_chunked ps.*1);
      Ok (chunked, default BtrBlocks (fst <$> max_by_key snd ps.*2)))
  end.

Definition sum_mem (bs : list (RecordBatch Arr)) : Z := foldr (λ b acc, mem_size b + acc) 0 bs.

Definition encoding_of (w : VortexWriter) (scheme : EncodingScheme) (rows original encoded : Z) : ColumnEncoding :=
  {| ce_column_name := vw_col_name w; ce_scheme := scheme; ce_total_rows := rows;
     ce_original_bytes := original; ce_encoded_bytes := encoded |}.

Definition append_vortex_bytes_sync (v : Vx Arr) (path : string) : io RockDuckError Z :=
  bs <-! io_lift (err_stage "vortex streaming write" (vx_write v));
  _ <-! io_map_err err_io (fs_append path bs);
  _ <-! io_map_err err_io (fs_sync path);
  io_ret (zlen bs).

Definition flush_to_disk (w : VortexWriter) : io RockDuckError (VortexWriter * Z) :=
  if bool_decide (vw_batches w = []) then io_ret (w, 0) else
  let original := sum_mem (vw_batches w) in
  '(compressed, scheme) <-! io_outcome (compress_adaptive w);
  encoded <-! append_vortex_bytes_sync compressed (vw_path w);
  _ <-! append_encoding_meta_sync (vw_path w) (encoding_of w scheme (vw_total_rows w) original encoded);
  io_ret ({| vw_path := vw_path w; vw_col_name := vw_col_name w; vw_batches := []; vw_total_rows := 0;
             vw_picker := vw_picker w; vw_flush_threshold := vw_flush_threshold w;
             vw_bytes_written := vw_bytes_written w + encoded;
             vw_streaming_original_bytes := vw_streaming_original_bytes w + original;
             vw_streaming_encoded_bytes := vw_streaming_encoded_bytes w + encoded;
             vw_total_rows_flushed := vw_total_rows_flushed w + vw_total_rows w |}, zlen (vw_batches w)).

Definition flush_pending (w : VortexWriter) : io RockDuckError (VortexWriter * Z) :=
  if vw_total_rows w <? vw_flush_threshold w then io_ret (w, 0)
  else if bool_decide (vw_batches w = []) then io_ret (w, 0)
  else flush_to_disk w.

Definition write_vortex_bytes_sync (v : Vx Arr) (path : string) : io RockDuckError Z :=
  bs <-! io_lift (err_stage "vortex write" (vx_write v));
  _ <-! io_map_err err_io (fs_write path bs);
  io_ret (zlen bs).

Definition vw_finish (w : VortexWriter) : io RockDuckError ColumnEncoding :=
  '(w, _) <-! flush_pending w;
  if bool_decide (vw_batches w = []) && (vw_total_rows w =? 0) then io_throw (EInternal "no batches to write") else
  if vw_total_rows w =? 0 then
    io_ret (encoding_of w BtrBlocks (vw_total_rows_flushed w) (vw_streaming_original_bytes w)
                        (vw_streaming_encoded_bytes w))
  else
    let original := sum_mem (vw_batches w) in
    '(compressed, scheme) <-! io_outcome (compress_adaptive w);
    encoded <-! write_vortex_bytes_sync compressed (vw_path w);
    let meta := encoding_of w scheme (vw_total_rows w) original encoded in
    _ <-! save_encoding_meta_sync (vw_path w) meta;
    io_ret meta.
End vortex.
Arguments VortexReader Arr : clear implicits.
Arguments VortexWriter Arr {_}.

(** * Proofs *)

Lemma scheme_round_trip s : try_from_str (as_str s) = Some s.
Proof. by destruct s. Qed.

Lemma emh_bytes_length h : zlen (emh_magic h) = 4 → zlen (emh_to_bytes h) = VEM_HEADER_SIZE.
Proof. intros Hm. unfold emh_to_bytes. autorewrite with zlen. by rewrite Hm. Qed.

Lemma emh_from_to h :
  zlen (emh_magic h) = 4 → is_u32 (emh_entry_count h) → is_u32 (emh_payload_len h) →
  emh_from_bytes (emh_to_bytes h) = h.
Proof.
  destruct h as [m v c n]. cbn. unfold is_u32, u32_max. intros Hm Hc Hn. unfold emh_from_bytes, emh_to_bytes. cbn.
  f_equal.
  - by apply (zslice_mid []).
  - rewrite lookup_app_r by (unfold zlen in Hm; lia). unfold zlen in Hm.
    by replace (4 - length m)%nat with 0%nat by lia.
  - rewrite (cons_middle v m), (app_assoc m [v]). rewrite zslice_mid, from_to_le_bytes; [done|lia|..]; autorewrite with zlen; lia.
  - rewrite (cons_middle v m), (app_assoc m [v]), (app_assoc (m ++ [v])). rewrite zslice_mid, from_to_le_bytes; [done|lia|..];
      autorewrite with zlen; lia.
Qed.

Section sidecar_proofs.
Context `{CodecLaws ColumnEncoding}.

Definition sidecar_bytes (meta_bytes : bytes) : bytes := emh_to_bytes (new_file_header 1) ++ entry_bytes meta_bytes.

Lemma decode_sidecar meta mb :
  encode meta = Ok mb → zlen mb ≤ u32_max → decode_encoding_meta (sidecar_bytes mb) = Ok meta.
Proof.
  intros He Hl. pose proof (zlen_nonneg mb) as Hn.
  assert (wrap32 (zlen mb) = zlen mb) as Hw by (unfold wrap32, u32_max in *; apply Z.mod_small; lia).
  unfold decode_encoding_meta, sidecar_bytes, entry_bytes. rewrite Hw.
  set (h1 := emh_to_bytes (new_file_header 1)). set (h2 := emh_to_bytes (new_entry (zlen mb))).
  assert (zlen h1 = VEM_HEADER_SIZE) as H1 by (by apply emh_bytes_length).
  assert (zlen h2 = VEM_HEADER_SIZE) as H2 by (by apply emh_bytes_length).
  autorewrite with zlen. rewrite H1, H2, (proj2 (Z.ltb_ge _ _)) by (unfold VEM_HEADER_SIZE; lia).
  assert (zslice (h1 ++ h2 ++ mb) 0 VEM_HEADER_SIZE = h1) as -> by (by apply (zslice_mid [] h1)).
  assert (zslice (h1 ++ h2 ++ mb) VEM_HEADER_SIZE (VEM_HEADER_SIZE + VEM_HEADER_SIZE) = h2) as ->
    by (apply zslice_mid; lia).
  assert (emh_from_bytes h1 = new_file_header 1) as -> by (by apply emh_from_to).
  assert (emh_from_bytes h2 = new_entry (zlen mb)) as -> by (apply emh_from_to; cbn; unfold is_u32; lia || done).
  cbn [emh_payload_len new_entry]. change (emh_is_valid _) with true. cbv iota.
  rewrite (proj2 (Z.ltb_ge _ _)) by lia. change (emh_is_valid _) with true. cbv iota. rewrite (proj2 (Z.ltb_ge _ _)) by lia.
  rewrite app_assoc, zslice_suffix by (autorewrite with zlen; lia). by rewrite (decode_encode _ _ He).
Qed.

(** What the two writers of the sidecar leave in its file. *)
Lemma save_encoding_meta_returns path meta u d d' :
  io_returns (save_encoding_meta_sync path meta) d u d' →
  ∃ mb, encode meta = Ok mb ∧ disk_files d' = <[encoding_path path := sidecar_bytes mb]> (disk_files d).
Proof.
  unfold save_encoding_meta_sync. intros Hs. io_inv. destruct (encode meta) as [mb|]; simplify_eq/=.
  eexists. split; [done|]. io_files. rewrite !lookup_insert_eq. cbn [default].
  rewrite !insert_insert_eq. unfold sidecar_bytes, entry_bytes. by rewrite <- ?app_assoc.
Qed.
End sidecar_proofs.

Section vortex_proofs.
Context `{ArrowLaws Arr} `{!Batches Arr} `{!BatchesLaws Arr} `{!VortexLib Arr} `{!VortexLaws Arr}
  `{CodecLaws ColumnEncoding}.

(** The slots of the first column of a batch, all that a writer keeps of it. *)
Definition first_slots (b : RecordBatch Arr) : list (option Value) :=
  match head (rb_columns b) with Some c => slots c | None => [] end.

(** A picker encodes without loss. *)
Definition lossless (picker : option (Arr → Result (Vx Arr * EncodingScheme))) : Prop :=
  ∀ pick a v s, picker = Some pick → pick a = Ok (v, s) → vx_type v = arr_type a ∧ vx_slots v = slots a.

Lemma compress_batch_slots picker b p :
  lossless picker → compress_batch picker b = Done (Ok p) → vx_slots p.1 = first_slots b.
Proof.
  intros Hl. unfold compress_batch, first_slots. destruct (head _) as [a|]; [|done].
  destruct picker as [pick|].
  - destruct (pick a) as [[v s]|] eqn:Hp; intros; simplify_eq/=. by destruct (Hl pick a v s).
  - destruct (vx_from_arrow a) as [v|] eqn:Hf; [|done]. cbn.
    destruct (vx_compress v) as [v'|] eqn:Hc; intros; simplify_eq/=.
    destruct (vx_compress_ok _ _ Hc) as [_ ->]. by destruct (vx_from_arrow_ok _ _ Hf).
Qed.

Lemma compress_batches_slots picker bs ps :
  lossless picker → compress_batches picker bs = Done (Ok ps) → (ps.*1 ≫= vx_slots) = (bs ≫= first_slots).
Proof.
  intros Hl. revert ps. induction bs as [|b bs IH]; intros ps; [by intros [= <-]|]. cbn.
  destruct (compress_batch picker b) as [[p|]|] eqn:Hb; [|done..].
  destruct (compress_batches picker bs) as [[ps'|]|]; [|done..]. intros [= <-]. cbn.
  by rewrite (compress_batch_slots _ _ _ Hl Hb), (IH ps').
Qed.

Lemma compress_adaptive_slots (w : VortexWriter Arr) v s :
  lossless (vw_picker w) → compress_adaptive w = Done (Ok (v, s)) → vx_slots v = (vw_batches w ≫= first_slots).
Proof.
  intros Hl. unfold compress_adaptive. case_bool_decide; [done|].
  destruct (compress_batches _ _) as [[ps|]|] eqn:Hc; [|done..]. cbn.
  destruct (vx_chunked ps.*1) as [v'|] eqn:Hv; intros; simplify_eq/=.
  destruct (vx_chunked_ok _ _ Hv) as [_ ->]. by apply compress_batches_slots in Hc.
Qed.

(** Reading a file that the library wrote. *)
Lemma read_written (v : Vx Arr) bs : vx_write v = Ok bs →
  ∃ a : Arr, slots a = vx_slots v ∧
    read_vortex_from_buffer bs =
    Ok ([{| f_name := "value"; f_type := arr_type a; f_nullable := true |}],
        [{| rb_fields := [{| f_name := "value"; f_type := arr_type a; f_nullable := true |}];
            rb_columns := [a]; rb_rows := arr_len a |}], arr_len a).
Proof.
  intros Hw. destruct (vx_write_read v bs Hw) as (w & a & Hr & Ha & Ht & Hs). exists a. split; [done|].
  unfold read_vortex_from_buffer, schema_from_vortex_array, vortex_to_arrow_batch. rewrite Hr. cbn [map_err result_bind].
  rewrite Ha. cbn [err_stage map_err result_bind]. rewrite (try_new_ok _ _ (arr_len a)); [done|done|].
  repeat constructor. done.
Qed.

Lemma open_written path (v : Vx Arr) bs d :
  vx_write v = Ok bs → disk_files d !! path = Some bs → disk_faults d = [] →
  ∃ a : Arr, slots a = vx_slots v ∧
    io_returns (VortexReader_open path) d
      {| vr_path := path; vr_schema := [{| f_name := "value"; f_type := arr_type a; f_nullable := true |}];
         vr_batches := [{| rb_fields := [{| f_name := "value"; f_type := arr_type a; f_nullable := true |}];
                           rb_columns := [a]; rb_rows := arr_len a |}];
         vr_total_rows := arr_len a;
         vr_encoding_meta := match disk_files d !! encoding_path path with
                             | Some sb => match decode_encoding_meta sb with Ok m => Some m | Err _ => None end
                             | None => None
                             end |} d.
Proof.
  intros Hw Hf Hd. destruct (read_written v bs Hw) as (a & Hs & Hr). exists a. split; [done|].
  destruct d as [fs faults]. cbn in Hf, Hd |- *. subst faults.
  assert (bool_decide (4 ≤ zlen bs ∧ take 4 bs = VTXF) = true) as Hm.
  { apply bool_decide_true. pose proof (vx_write_magic v bs Hw) as Hv. split; [|done].
    assert (zlen (take 4 bs) = 4) as Hl by (by rewrite Hv). rewrite zlen_take in Hl. lia. }
  unfold io_returns, VortexReader_open, load_encoding_meta, io_bind, io_ok, io_map_err, io_lift, fs_read, fs_op,
    looks_like_vortex. cbn -[take zlen VTXF]. destruct (fs !! encoding_path path) as [sb|]; cbn -[take zlen VTXF];
    [destruct (decode_encoding_meta sb); cbn -[take zlen VTXF]|];
    rewrite Hf; cbn -[take zlen VTXF]; rewrite Hm; cbn; rewrite Hf; cbn; by rewrite Hr.
Qed.

Lemma finish_returns (w : VortexWriter Arr) d meta d' :
  vw_total_rows w < vw_flush_threshold w → vw_total_rows w ≠ 0 → io_returns (vw_finish w) d meta d' →
  ∃ v s bs mb, compress_adaptive w = Done (Ok (v, s)) ∧ vx_write v = Ok bs ∧ encode meta = Ok mb ∧
    disk_files d' = <[encoding_path (vw_path w) := sidecar_bytes mb]> (<[vw_path w := bs]> (disk_files d)).
Proof.
  intros Ht Hn Hr. unfold vw_finish, flush_pending in Hr. rewrite (proj2 (Z.ltb_lt _ _)) in Hr by lia.
  apply io_returns_bind in Hr as ([w' n] & d1 & [[= -> ->] ->]%io_returns_ret & Hr). cbn beta iota in Hr.
  rewrite (proj2 (Z.eqb_neq _ _)), andb_false_r in Hr by done.
  apply io_returns_bind in Hr as ([v s] & d1 & [Hc ->]%io_returns_outcome & Hr).
  unfold write_vortex_bytes_sync in Hr. io_inv. destruct (vx_write v) as [bs|] eqn:Hv; simplify_eq/=.
  match goal with H : io_returns (save_encoding_meta_sync _ _) _ _ _ |- _ =>
    apply save_encoding_meta_returns in H as (mb & Hm & Hf) end.
  eexists v, s, _, mb. split_and!; [done..|]. rewrite Hf. by io_files.
Qed.

(** ** Large writes *)

Lemma append_encoding_meta_touches path meta :
  touches [encoding_path path] (append_encoding_meta_sync path meta).
Proof. unfold append_encoding_meta_sync. io_touches. Qed.

Lemma flush_pending_returns (w : VortexWriter Arr) d w' n d' :
  vw_flush_threshold w ≤ vw_total_rows w → vw_batches w ≠ [] → io_returns (flush_pending w) d (w', n) d' →
  vw_batches w' = [] ∧ vw_total_rows w' = 0 ∧
  ∃ v s bs, compress_adaptive w = Done (Ok (v, s)) ∧ vx_write v = Ok bs ∧
    (vw_path w ≠ encoding_path (vw_path w) →
     disk_files d' !! vw_path w = Some (default [] (disk_files d !! vw_path w) ++ bs)).
Proof.
  intros Ht Hb Hr. unfold flush_pending, flush_to_disk in Hr. rewrite (proj2 (Z.ltb_ge _ _)) in Hr by lia.
  rewrite !bool_decide_false in Hr by done.
  apply io_returns_bind in Hr as ([v s] & d1 & [Hc ->]%io_returns_outcome & Hr).
  apply io_returns_bind in Hr as (encoded & d2 & Ha & Hr). apply io_returns_bind in Hr as (u & d3 & Hm & Hr).
  apply io_returns_ret in Hr as [[= -> ->] ->]. split_and!; [done..|].
  unfold append_vortex_bytes_sync in Ha. io_inv. destruct (vx_write v) as [bs|] eqn:Hv; simplify_eq/=.
  eexists v, s, _. split_and!; [done..|]. intros Hne.
  rewrite (touches_returns _ _ _ _ _ _ (append_encoding_meta_touches _ _) Hm) by set_solver.
  io_files. by rewrite lookup_insert_eq.
Qed.
End vortex_proofs.

(** * Properties *)

(** A column file reads back what was written, as far as the writer keeps it:
    when [finish] succeeds with fewer rows than the flush threshold, opening the
    file gives one batch with one column named [value], whose slots are those of
    the first column of every batch written, in order; the other columns of the
    batches are gone.  The reader finds the encoding metadata that [finish]
    returned in the sidecar. *)
Theorem vortex_write_then_open `{ArrowLaws Arr} `{!Batches Arr} `{!BatchesLaws Arr} `{!VortexLib Arr}
    `{!VortexLaws Arr} `{CodecLaws ColumnEncoding} (w : VortexWriter Arr) d meta d' :
  lossless (vw_picker w) → vw_total_rows w < vw_flush_threshold w → vw_total_rows w ≠ 0 →
  vw_path w ≠ encoding_path (vw_path w) → (∀ mb, encode meta = Ok mb → zlen mb ≤ u32_max) →
  io_returns (vw_finish w) d meta d' →
  ∃ (r : VortexReader Arr) b col, io_returns (VortexReader_open (vw_path w)) (new_disk (disk_files d')) r (new_disk (disk_files d')) ∧
    read_all_batches r = [b] ∧ f_name <$> rb_fields b = ["value"] ∧ rb_columns b = [col] ∧
    slots col = (vw_batches w ≫= first_slots) ∧ vr_encoding_meta r = Some meta.
Proof.
  intros Hl Ht Hn Hp Hmb Hr. destruct (finish_returns w d meta d' Ht Hn Hr) as (v & s & bs & mb & Hc & Hw & He & Hf).
  destruct (open_written (vw_path w) v bs (new_disk (disk_files d'))) as (a & Hs & Ho);
    [done|cbn; by rewrite Hf, lookup_insert_ne, lookup_insert_eq|done|].
  eexists _, _, a. split; [exact Ho|]. cbn. split_and!; [done..|rewrite Hs; by eapply compress_adaptive_slots|].
  by rewrite Hf, lookup_insert_eq, (decode_sidecar meta mb) by auto.
Qed.

(** A writer that has reached its flush threshold cannot finish: [finish]
    flushes the batches, finds none left and reports an error, although the
    column has been appended to the file. *)
Theorem vortex_large_write_fails `{ArrowLaws Arr} `{!Batches Arr} `{!BatchesLaws Arr} `{!VortexLib Arr}
    `{!VortexLaws Arr} `{CodecLaws ColumnEncoding} (w : VortexWriter Arr) d :
  vw_flush_threshold w ≤ vw_total_rows w → vw_batches w ≠ [] → vw_path w ≠ encoding_path (vw_path w) →
  (∀ meta d', ¬ io_returns (vw_finish w) d meta d') ∧
  ∀ w' n d', io_returns (flush_pending w) d (w', n) d' →
    vw_finish w d = (d', Done (Err (EInternal "no batches to write"))) ∧
    ∃ v s bs, compress_adaptive w = Done (Ok (v, s)) ∧ vx_write v = Ok bs ∧
      disk_files d' !! vw_path w = Some (default [] (disk_files d !! vw_path w) ++ bs).
Proof.
  intros Ht Hb Hp. split.
  - intros meta d' Hr. unfold vw_finish in Hr. apply io_returns_bind in Hr as ([w' n] & d1 & Hf & Hr).
    destruct (flush_pending_returns _ _ _ _ _ Ht Hb Hf) as (Hb' & Hn' & _). cbn beta iota in Hr.
    by rewrite Hb', Hn' in Hr.
  - intros w' n d' Hf. destruct (flush_pending_returns _ _ _ _ _ Ht Hb Hf) as (Hb' & Hn' & v & s & bs & Hc & Hw & Hd).
    split; [|naive_solver]. unfold vw_finish, io_bind. rewrite Hf. by rewrite Hb', Hn'.
Qed.

(** ** A library that evaluates *)

(** Arrays stand for themselves; a file is the magic bytes and, for every slot of
    an integer column, a flag and the value. *)
Fixpoint ints_bytes (vs : list (option Value)) : option bytes :=
  match vs with
  | [] => Some []
  | None :: vs' => bs ← ints_bytes vs'; Some (0 :: 0 :: bs)
  | Some (VInt z) :: vs' => bs ← ints_bytes vs'; Some (1 :: z :: bs)
  | Some _ :: _ => None
  end.
Fixpoint bytes_ints (bs : bytes) : list (option Value) :=
  match bs with
  | 0 :: _ :: bs' => None :: bytes_ints bs'
  | _ :: z :: bs' => Some (VInt z) :: bytes_ints bs'
  | _ => []
  end.
Lemma bytes_ints_bytes vs bs : ints_bytes vs = Some bs → bytes_ints bs = vs.
Proof.
  revert bs. induction vs as [|v vs IH]; intros bs; [by intros [= <-]|]. cbn.
  destruct v as [[]|]; try done; destruct (ints_bytes vs) as [bs'|]; intros [= <-]; cbn; by rewrite (IH bs').
Qed.

#[export] Instance ListArray_vortex : VortexLib ListArray := {
  Vx := ListArray;
  vx_from_arrow a := Ok a;
  vx_compress a := Ok a;
  vx_chunked vs := match vs with
                   | [] => Err "no chunks"
                   | v :: _ => if decide (Forall (λ w, la_type w = la_type v) vs)
                               then Ok {| la_type := la_type v; la_slots := vs ≫= la_slots |}
                               else Err "mismatched types"
                   end;
  vx_write v := match ints_bytes (la_slots v) with
                | Some bs => if decide (la_type v = Int64) then Ok (VTXF ++ bs) else Err "unsupported type"
                | None => Err "unsupported type"
                end;
  vx_read bs := Ok {| la_type := Int64; la_slots := bytes_ints (drop 4 bs) |};
  vx_to_arrow v := Ok v;
  ipc_file bs := Err "not an IPC file";
  mem_size b := 8 * rb_rows b
}.

#[export, program] Instance ListArray_vortex_laws : VortexLaws ListArray := {
  vx_type := la_type;
  vx_slots := la_slots
}.
Next Obligation. cbn. intros a v [= <-]. by rewrite slots_la. Qed.
Next Obligation. cbn. by intros v v' [= <-]. Qed.
Next Obligation. cbn. intros [|v vs] w; [done|]. case_decide; intros [= <-]. done. Qed.
Next Obligation.
  cbn. intros v bs. destruct (ints_bytes (la_slots v)); [|done]. case_decide; [|done]. by intros [= <-].
Qed.
Next Obligation.
  cbn. intros v bs. destruct (ints_bytes (la_slots v)) as [bs'|] eqn:Hb; [|done]. case_decide; [|done].
  intros [= <-]. cbn. eexists _, _. split_and!; [done|done|done|]. rewrite slots_la. cbn. by apply bytes_ints_bytes.
Qed.

#[export] Instance ColumnEncoding_eq_dec : EqDecision ColumnEncoding.
Proof. solve_decision. Defined.
#[export] Instance ColumnEncoding_countable : Countable ColumnEncoding.
Proof.
  refine (inj_countable' (λ c, (ce_column_name c, ce_scheme c, ce_total_rows c, ce_original_bytes c, ce_encoded_bytes c))
    (λ '(n, s, r, o, e), {| ce_column_name := n; ce_scheme := s; ce_total_rows := r; ce_original_bytes := o;
                            ce_encoded_bytes := e |}) _).
  by intros [].
Defined.
Definition sample_encoding_codec : Codec ColumnEncoding := countable_codec ColumnEncoding.
Definition sample_encoding_laws : @CodecLaws ColumnEncoding sample_encoding_codec :=
  countable_codec_laws ColumnEncoding.

(** Two batches of two columns. *)
Definition sample_writer : VortexWriter ListArray :=
  vw_write (vw_write (VortexWriter_create "s/__vis.vortex" "__vis")
     {| rb_fields := visibility_schema; rb_columns := [int_array [Some 5]; int_array [Some 0]]; rb_rows := 1 |})
     {| rb_fields := visibility_schema; rb_columns := [int_array [Some 6]; int_array [None]]; rb_rows := 1 |}.

Definition sample_meta : ColumnEncoding :=
  {| ce_column_name := "__vis"; ce_scheme := BtrBlocks; ce_total_rows := 2; ce_original_bytes := 16;
     ce_encoded_bytes := 8 |}.
Definition sample_disk : Disk := (vw_finish (H1 := sample_encoding_codec) sample_writer (new_disk ∅)).1.

Lemma vortex_write_then_open_witness :
  (vw_batches sample_writer ≫= first_slots) = [Some (VInt 5); Some (VInt 6)] ∧
  ∃ (r : VortexReader ListArray) b col,
    io_returns (VortexReader_open (H1 := sample_encoding_codec) (vw_path sample_writer))
      (new_disk (disk_files sample_disk)) r (new_disk (disk_files sample_disk)) ∧
    read_all_batches r = [b] ∧ f_name <$> rb_fields b = ["value"] ∧ rb_columns b = [col] ∧
    slots col = (vw_batches sample_writer ≫= first_slots) ∧ vr_encoding_meta r = Some sample_meta.
Proof.
  split; [vm_compute; reflexivity|].
  apply (@vortex_write_then_open ListArray _ _ _ _ _ _ sample_encoding_codec sample_encoding_laws sample_writer
           (new_disk ∅) sample_meta sample_disk); [done|vm_compute; done|done|vm_compute; done| |vm_compute; reflexivity].
  intros mb [= <-]. vm_compute. done.
Defined.

Lemma vortex_large_write_fails_witness :
  ∀ meta d', ¬ io_returns (vw_finish (H1 := sample_encoding_codec) (with_flush_threshold sample_writer 2)) (new_disk ∅) meta d'.
Proof.
  apply (@vortex_large_write_fails ListArray _ _ _ _ _ _ sample_encoding_codec sample_encoding_laws
           (with_flush_threshold sample_writer 2) (new_disk ∅)); [vm_compute; done|done|vm_compute; done].
Defined.
