(* ===== verification/VisFile.v ===== *)
(** Visibility files of a segment (write/vis_file.rs): the column file
    [__vis.vortex] with the transactions of every row, and beside it the log of
    deletions [__vis.vortex.delta], which is replaced as a whole by every append.
    The checksum of the [crc32fast] crate is a parameter. *)

From stdpp Require Import base gmap strings list pretty.
From S2P Require Import Prelude Kv Visibility Arrow ShadowColumns Disk Vortex.

Local Open Scope Z_scope.

(** [Hasher::new_with_initial(i)], an [update] and [finalize]; [Hasher::new()]
    starts at 0. *)
Class Crc32 := crc32 : Z → bytes → Z.
Class Crc32Laws `{Crc32} := {
  crc32_range : ∀ i bs, is_u32 (crc32 i bs);
  crc32_app : ∀ i xs ys, crc32 (crc32 i xs) ys = crc32 i (xs ++ ys)
}.

(** * The log of deletions *)

Definition DELTAVIS_MAGIC : bytes := as_bytes "DVIS".
Definition DELTAVIS_VERSION : Z := 1.
Definition DELTAVIS_HEADER_SIZE : Z := 13.
Definition DELTAVIS_FOOTER_SIZE : Z := 4.
Definition DELTAVIS_RECORD_SIZE : Z := 16.

Definition deltavis_record (row_offset txn_id : Z) : bytes := to_le_bytes 8 row_offset ++ to_le_bytes 8 txn_id.

Definition deltavis_header (num_entries : Z) : bytes :=
  DELTAVIS_MAGIC ++ DELTAVIS_VERSION :: to_le_bytes 8 num_entries.

Definition is_v2 (data : bytes) : bool :=
  (DELTAVIS_HEADER_SIZE + DELTAVIS_FOOTER_SIZE <=? zlen data)
  && bool_decide (zslice data 0 4 = DELTAVIS_MAGIC) && bool_decide (data !! 4%nat = Some DELTAVIS_VERSION).

Section deltavis.
Context `{Crc32}.

(** The new contents of the file. *)
Definition deltavis_append (existing : bytes) (row_offset txn_id : Z) : bytes :=
  let rec := deltavis_record row_offset txn_id in
  if is_v2 existing then
    let num_entries := from_le_bytes (zslice existing 5 13) in
    let footer_crc := from_le_bytes (zslice existing (zlen existing - DELTAVIS_FOOTER_SIZE) (zlen existing)) in
    deltavis_header (wrap64 (num_entries + 1))
    ++ zslice existing DELTAVIS_HEADER_SIZE (zlen existing - DELTAVIS_FOOTER_SIZE)
    ++ rec ++ to_le_bytes 4 (crc32 footer_crc rec)
  else if bool_decide (existing = []) then
    deltavis_header 1 ++ rec ++ to_le_bytes 4 (crc32 0 rec)
  else
    let num_existing := zlen existing `div` DELTAVIS_RECORD_SIZE in
    let all_records := zslice existing 0 (num_existing * DELTAVIS_RECORD_SIZE) ++ rec in
    deltavis_header (num_existing + 1) ++ all_records ++ to_le_bytes 4 (crc32 0 all_records).

(** Records while a whole one is left. *)
Fixpoint parse_records (fuel : nat) (data : bytes) : list (Z * Z) :=
  match fuel with
  | O => []
  | S fuel' =>
      if DELTAVIS_RECORD_SIZE <=? zlen data
      then (from_le_bytes (zslice data 0 8), from_le_bytes (zslice data 8 16))
           :: parse_records fuel' (drop 16 data)
      else []
  end.
Definition read_deltavis_v1 (data : bytes) : list (Z * Z) := parse_records (length data) data.

(** The mapped and the buffered reader differ in the text of the checksum
    error. *)
Definition read_deltavis_v2 (crc_message : Z → Z → string) (data : bytes) : Result (list (Z * Z)) :=
  if bool_decide (data !! 4%nat = Some DELTAVIS_VERSION) then
    let num_entries := from_le_bytes (zslice data 5 13) in
    let stored_crc := from_le_bytes (zslice data (zlen data - DELTAVIS_FOOTER_SIZE) (zlen data)) in
    let record_count := zlen data - DELTAVIS_HEADER_SIZE - DELTAVIS_FOOTER_SIZE in
    let expected := wrap64 (num_entries * DELTAVIS_RECORD_SIZE) in
    if record_count =? expected then
      let records := zslice data DELTAVIS_HEADER_SIZE (zlen data - DELTAVIS_FOOTER_SIZE) in
      let computed := crc32 0 records in
      if computed =? stored_crc then Ok (parse_records (length records) records)
      else Err (EIo InvalidData (crc_message stored_crc computed))
    else Err (EIo UnexpectedEof ("deltavis V2: truncated file (expected " +:+ pretty expected +:+ " bytes for "
                +:+ pretty num_entries +:+ " entries, got " +:+ pretty record_count +:+ ")"))
  else Ok (read_deltavis_v1 data).

Definition hex8 (z : Z) : string :=
  foldr (λ k acc, let n := Z.land (Z.shiftr z (4 * k)) 15 in
                  acc +:+ String (Ascii.ascii_of_N (Z.to_N (if n <? 10 then 48 + n else 87 + n))) "") ""
        [0; 1; 2; 3; 4; 5; 6; 7].
Definition mmap_crc_message (_ _ : Z) : string := "deltavis V2: CRC mismatch".
Definition buffer_crc_message (stored computed : Z) : string :=
  "deltavis V2: CRC mismatch (expected " +:+ hex8 stored +:+ ", computed " +:+ hex8 computed +:+ ")".

Definition parse_deltavis (crc_message : Z → Z → string) (data : bytes) : Result (list (Z * Z)) :=
  if zlen data <? 4 then Ok []
  else if (DELTAVIS_HEADER_SIZE + DELTAVIS_FOOTER_SIZE <=? zlen data) && bool_decide (zslice data 0 4 = DELTAVIS_MAGIC)
  then read_deltavis_v2 crc_message data
  else Ok (read_deltavis_v1 data).

(** [set_extension] on the path of the vis file and of the log *)
Definition deltavis_path (path : string) : string := with_extension path "vortex.delta".
Definition deltavis_tmp (path : string) : string := with_extension (deltavis_path path) "delta.tmp".

(** The error of syncing the directory is ignored. *)
Definition mark_deleted_append (path : string) (row_offset txn_id : Z) : io RockDuckError unit :=
  let delta_path := deltavis_path path in
  let tmp_path := deltavis_tmp path in
  ex <-! fs_exists delta_path;
  existing <-! (if ex : bool then io_map_err err_io (fs_read delta_path) else io_ret []);
  _ <-! io_map_err (err_write "open deltavis tmp") (fs_write tmp_path []);
  _ <-! io_map_err (err_write "write deltavis tmp") (fs_append tmp_path (deltavis_append existing row_offset txn_id));
  _ <-! io_map_err (err_write "deltavis tmp fsync") (fs_sync tmp_path);
  _ <-! io_map_err (err_write "deltavis rename") (fs_rename tmp_path delta_path);
  io_ret tt.

Definition mark_deleted := mark_deleted_append.

Definition read_deltavis (path : string) : io RockDuckError (list (Z * Z)) :=
  let delta_path := deltavis_path path in
  ex <-! fs_exists delta_path;
  if negb ex then io_ret [] else
  mapped <-! io_ok (fs_read delta_path);
  match mapped with
  | Some slice =>
      if DELTAVIS_HEADER_SIZE + DELTAVIS_FOOTER_SIZE <=? zlen slice
      then io_lift (parse_deltavis mmap_crc_message slice)
      else data <-! io_map_err err_io (fs_read delta_path); io_lift (parse_deltavis buffer_crc_message data)
  | None => data <-! io_map_err err_io (fs_read delta_path); io_lift (parse_deltavis buffer_crc_message data)
  end.
End deltavis.

(** * The column file *)

Section vis_file.
Context `{Arrow Arr} `{Batches Arr} `{!VortexLib Arr} `{Codec ColumnEncoding} `{Crc32}.

Definition load_batches (path : string) : io RockDuckError (list (RecordBatch Arr)) :=
  ex <-! fs_exists path;
  if ex : bool then (reader <-! VortexReader_open path; io_ret (read_all_batches reader)) else io_ret [].

Definition vis_tmp (path : string) : string := with_extension path "vortex.tmp".

Definition rewrite_batches (path : string) (batches : list (RecordBatch Arr)) : io RockDuckError unit :=
  if bool_decide (batches = []) then io_ret tt else
  let tmp_path := vis_tmp path in
  _ <-! vw_finish (foldl vw_write (VortexWriter_create tmp_path "__vis") batches);
  _ <-! io_map_err (err_write "vis vortex tmp fsync") (fs_sync tmp_path);
  _ <-! io_map_err (err_write "vis vortex rename") (fs_rename tmp_path path);
  io_ret tt.

Definition vis_append_batch (path : string) (vis_arrays : list Arr) : io RockDuckError unit :=
  batches <-! load_batches path;
  batch <-! io_lift (map_err (λ e, EInternal ("vis batch create: " +:+ e)) (try_new visibility_schema vis_arrays));
  rewrite_batches path (batches ++ [batch]).

Definition vis_write_batch (path : string) (batch : RecordBatch Arr) : io RockDuckError unit :=
  rewrite_batches path [batch].

(** The first transaction that deletes a row. *)
Definition deleted_rows (entries : list (Z * Z)) : gmap Z Z :=
  foldl (λ m e, match m !! e.1 with Some _ => m | None => <[e.1 := e.2]> m end) ∅ entries.

(** One batch of [compact_deltavis]: every deleted row is marked by a call with a
    mask of one flag. *)
Fixpoint mark_rows (del : gmap Z Z) (rows : list Z) (b : RecordBatch Arr) : outcome (RecordBatch Arr) :=
  match rows with
  | [] => Done b
  | global_row :: rows' =>
      match del !! global_row with
      | None => mark_rows del rows' b
      | Some del_txn =>
          match mark_rows_deleted b [true] del_txn with
          | Panic => Panic
          | Done b' => mark_rows del rows' b'
          end
      end
  end.

Fixpoint mark_batches (del : gmap Z Z) (cumulative_rows : Z) (bs : list (RecordBatch Arr))
    : outcome (list (RecordBatch Arr)) :=
  match bs with
  | [] => Done []
  | b :: bs' =>
      match mark_rows del (seqZ cumulative_rows (rb_rows b)) b with
      | Panic => Panic
      | Done b' =>
          match mark_batches del (cumulative_rows + rb_rows b) bs' with
          | Panic => Panic
          | Done bs'' => Done (b' :: bs'')
          end
      end
  end.

Definition compact_deltavis (path : string) : io RockDuckError Z :=
  entries <-! read_deltavis path;
  if bool_decide (entries = []) then io_ret 0 else
  batches <-! load_batches path;
  batches <-! io_outcome (match mark_batches (deleted_rows entries) 0 batches with
                          | Done bs => Done (Ok bs)
                          | Panic => Panic
                          end);
  _ <-! rewrite_batches path batches;
  _ <-! io_map_err (err_write "remove deltavis") (fs_remove (deltavis_path path));
  io_ret (zlen entries).
End vis_file.

(** * Proofs *)

Section deltavis_proofs.
Context `{Crc32Laws}.
Implicit Types es : list (Z * Z).

Definition records es : bytes := es ≫= λ e, deltavis_record e.1 e.2.
(** The file of a list of deletions. *)
Definition deltavis_file es : bytes := deltavis_header (zlen es) ++ records es ++ to_le_bytes 4 (crc32 0 (records es)).
Definition entry_ok (e : Z * Z) : Prop := is_u64 e.1 ∧ is_u64 e.2.
(** A count that an [u64] of bytes can hold. *)
Definition entries_ok es : Prop := Forall entry_ok es ∧ zlen es < 2 ^ 60.

Lemma deltavis_record_length r t : zlen (deltavis_record r t) = 16.
Proof. unfold deltavis_record. by autorewrite with zlen. Qed.
Lemma deltavis_header_length n : zlen (deltavis_header n) = 13.
Proof. unfold deltavis_header. by autorewrite with zlen. Qed.
Lemma records_length es : zlen (records es) = 16 * zlen es.
Proof.
  induction es as [|e es IH]; [done|]. unfold records in *. cbn [mbind list_bind].
  rewrite zlen_app, zlen_cons, IH, deltavis_record_length. lia.
Qed.
Lemma records_app es1 es2 : records (es1 ++ es2) = records es1 ++ records es2.
Proof. apply bind_app. Qed.
Lemma deltavis_file_length es : zlen (deltavis_file es) = 17 + 16 * zlen es.
Proof.
  unfold deltavis_file. autorewrite with zlen. rewrite deltavis_header_length, records_length. lia.
Qed.

Lemma le8_roundtrip x : is_u64 x → from_le_bytes (to_le_bytes 8 x) = x.
Proof. unfold is_u64, u64_max. intros. apply from_to_le_bytes. lia. Qed.

Lemma parse_records_records fuel es : (length es ≤ fuel)%nat → Forall entry_ok es → parse_records fuel (records es) = es.
Proof.
  revert es. induction fuel as [|fuel IH]; intros [|[r t] es] Hf Hes; cbn in Hf; [done|lia|done|].
  apply Forall_cons in Hes as [[Hr Ht] Hes]. cbn [parse_records].
  change (records ((r, t) :: es)) with (deltavis_record r t ++ records es).
  rewrite zlen_app, deltavis_record_length, (proj2 (Z.leb_le _ _))
    by (unfold DELTAVIS_RECORD_SIZE; pose proof (zlen_nonneg (records es)); lia).
  unfold deltavis_record at 1 2 3. rewrite <- !app_assoc.
  assert (zslice (to_le_bytes 8 r ++ to_le_bytes 8 t ++ records es) 0 8 = to_le_bytes 8 r) as ->
    by (by apply (zslice_mid [])).
  rewrite zslice_mid by (by rewrite zlen_to_le_bytes). rewrite !le8_roundtrip by done.
  rewrite app_assoc, drop_app_length' by (by rewrite length_app, !to_le_bytes_length). f_equal. apply IH; [lia|done].
Qed.

Lemma file_version es : deltavis_file es !! 4%nat = Some DELTAVIS_VERSION.
Proof. done. Qed.
Lemma file_magic es : zslice (deltavis_file es) 0 4 = DELTAVIS_MAGIC.
Proof. done. Qed.
Lemma file_count es : entries_ok es → from_le_bytes (zslice (deltavis_file es) 5 13) = zlen es.
Proof.
  intros [_ Hn]. unfold deltavis_file, deltavis_header. rewrite (cons_middle DELTAVIS_VERSION).
  rewrite (app_assoc DELTAVIS_MAGIC), <- app_assoc, zslice_mid by (by autorewrite with zlen).
  apply le8_roundtrip. unfold is_u64, u64_max. pose proof (zlen_nonneg es). lia.
Qed.
Lemma file_records es :
  zslice (deltavis_file es) DELTAVIS_HEADER_SIZE (zlen (deltavis_file es) - DELTAVIS_FOOTER_SIZE) = records es.
Proof.
  unfold deltavis_file at 1. apply zslice_mid; [by rewrite deltavis_header_length|].
  rewrite deltavis_file_length, deltavis_header_length, records_length. unfold DELTAVIS_FOOTER_SIZE. lia.
Qed.
Lemma file_crc es :
  from_le_bytes (zslice (deltavis_file es) (zlen (deltavis_file es) - DELTAVIS_FOOTER_SIZE) (zlen (deltavis_file es)))
  = crc32 0 (records es).
Proof.
  rewrite deltavis_file_length. unfold deltavis_file. rewrite app_assoc, zslice_suffix.
  - apply from_to_le_bytes. pose proof (crc32_range 0 (records es)) as Hr. unfold is_u32, u32_max in Hr. lia.
  - autorewrite with zlen. rewrite deltavis_header_length, records_length. unfold DELTAVIS_FOOTER_SIZE. lia.
  - autorewrite with zlen. rewrite deltavis_header_length, records_length. lia.
Qed.

Lemma file_is_v2 es : is_v2 (deltavis_file es) = true.
Proof.
  unfold is_v2. rewrite file_magic, file_version, deltavis_file_length, !bool_decide_true by done.
  rewrite (proj2 (Z.leb_le _ _)); [done|]. pose proof (zlen_nonneg es). unfold DELTAVIS_HEADER_SIZE, DELTAVIS_FOOTER_SIZE. lia.
Qed.

(** An append extends the list that the file stands for. *)
Lemma append_file es r t : entries_ok es → deltavis_append (deltavis_file es) r t = deltavis_file (es ++ [(r, t)]).
Proof.
  intros Hes. unfold deltavis_append. rewrite file_is_v2, file_count, file_records, file_crc by done.
  unfold deltavis_file. rewrite zlen_app, records_app. change (records [(r, t)]) with (deltavis_record r t ++ []).
  rewrite app_nil_r, crc32_app, <- !app_assoc. repeat f_equal.
  destruct Hes as [_ Hn]. pose proof (zlen_nonneg es). unfold wrap64. rewrite Z.mod_small by lia. done.
Qed.
Lemma append_empty r t : deltavis_append [] r t = deltavis_file [(r, t)].
Proof. unfold deltavis_file. change (records [(r, t)]) with (deltavis_record r t ++ []). by rewrite app_nil_r. Qed.

Lemma parse_file msg es : entries_ok es → parse_deltavis msg (deltavis_file es) = Ok es.
Proof.
  intros Hes. pose proof (zlen_nonneg es). unfold parse_deltavis. rewrite deltavis_file_length.
  rewrite (proj2 (Z.ltb_ge _ _)), (proj2 (Z.leb_le _ _)) by (unfold DELTAVIS_HEADER_SIZE, DELTAVIS_FOOTER_SIZE; lia).
  rewrite file_magic, bool_decide_true by done. cbn [andb]. unfold read_deltavis_v2.
  rewrite file_version, bool_decide_true, file_count by done. rewrite (proj2 (Z.eqb_eq _ _)).
  - rewrite file_records, file_crc, Z.eqb_refl. f_equal. destruct Hes as [Hes _].
    apply parse_records_records; [|done]. pose proof (records_length es). unfold zlen in *. lia.
  - rewrite deltavis_file_length. destruct Hes as [_ Hn]. unfold wrap64, DELTAVIS_HEADER_SIZE, DELTAVIS_FOOTER_SIZE,
      DELTAVIS_RECORD_SIZE. rewrite Z.mod_small by lia. lia.
Qed.
End deltavis_proofs.

(** The paths end differently. *)
Lemma with_extension_last path ext d : str_last ext = Some d → str_last (with_extension path ext) = Some d.
Proof. intros Hd. unfold with_extension. repeat case_match; by repeat apply str_last_app. Qed.
Lemma deltavis_tmp_ne path : deltavis_tmp path ≠ deltavis_path path.
Proof.
  intros E. apply (f_equal str_last) in E. unfold deltavis_tmp, deltavis_path in E.
  rewrite (with_extension_last _ "delta.tmp" (Ascii.ascii_of_nat 112)), (with_extension_last path "vortex.delta" (Ascii.ascii_of_nat 97)) in E by done. done.
Qed.

(** The deletions recorded for a vis file. *)
Definition log_holds `{Crc32} (fs : gmap string bytes) (path : string) (es : list (Z * Z)) : Prop :=
  match fs !! deltavis_path path with None => es = [] | Some data => data = deltavis_file es end.

Definition mark_all `{Crc32} (path : string) (es : list (Z * Z)) : io RockDuckError unit :=
  io_iter (λ e, mark_deleted path e.1 e.2) es.

Section log_proofs.
Context `{Crc32Laws}.

Lemma entries_ok_app_l es1 es2 : entries_ok (es1 ++ es2) → entries_ok es1.
Proof.
  intros [Hf Hn]. apply Forall_app in Hf as [Hf _]. split; [done|]. rewrite zlen_app in Hn.
  pose proof (zlen_nonneg es2). lia.
Qed.

Lemma log_append fs path es r t : log_holds fs path es → entries_ok es →
  deltavis_append (default [] (fs !! deltavis_path path)) r t = deltavis_file (es ++ [(r, t)]).
Proof.
  unfold log_holds. destruct (fs !! deltavis_path path) as [data|]; cbn; intros ->; intros.
  - by apply append_file.
  - apply append_empty.
Qed.

Lemma mark_deleted_post path r t d es :
  log_holds (disk_files d) path es → entries_ok es →
  let '(d', o) := mark_deleted path r t d in
  (o = Done (Ok tt) ∧ disk_files d' !! deltavis_path path = Some (deltavis_file (es ++ [(r, t)]))) ∨
  (∃ e, o = Done (Err e)) ∧ disk_files d' !! deltavis_path path = disk_files d !! deltavis_path path.
Proof.
  intros Hl Hes. pose proof (log_append _ _ _ r t Hl Hes) as Ha.
  unfold mark_deleted, mark_deleted_append. unfold io_bind at 1, fs_exists, io_gets.
  destruct (disk_files d !! deltavis_path path) as [data|] eqn:Hd; cbn in Ha.
  - rewrite bool_decide_true by (by eexists). unfold io_bind at 1.
    destruct (io_map_err err_io (fs_read (deltavis_path path)) d) as [d1 [[bs|e]|]] eqn:Hr.
    + assert (disk_files d1 = disk_files d ∧ bs = data) as [Hf ->].
      { assert (io_returns (io_map_err err_io (fs_read (deltavis_path path))) d bs d1) as Hr' by exact Hr.
        io_inv. simplify_eq. done. }
      pose proof (replace_file_post (err_write "open deltavis tmp") (err_write "write deltavis tmp")
        (err_write "deltavis tmp fsync") (err_write "deltavis rename") _ _ (deltavis_append data r t)
        (deltavis_tmp_ne path) d1) as Hp.
      rewrite Ha in Hp |- *. rewrite Hf, Hd in Hp. destruct ((_ <-! _; _) d1). naive_solver.
    + pose proof (touches_map_err [] err_io _ (fs_read_touches [] (deltavis_path path)) d) as Ht.
      rewrite Hr in Ht. rewrite Ht by set_solver. eauto.
    + unfold io_map_err, fs_read, fs_op in Hr. repeat case_match; simplify_eq/=.
  - rewrite bool_decide_false by (by intros []). unfold io_bind at 1, io_ret at 1. cbn [fst snd].
    pose proof (replace_file_post (err_write "open deltavis tmp") (err_write "write deltavis tmp")
      (err_write "deltavis tmp fsync") (err_write "deltavis rename") _ _ (deltavis_append [] r t)
      (deltavis_tmp_ne path) d) as Hp.
    rewrite Ha in Hp |- *. rewrite Hd in Hp. destruct ((_ <-! _; _) d). naive_solver.
Qed.
End log_proofs.

Lemma zslice_prefix {A} (xs : list A) n a b : 0 ≤ a → b ≤ Z.of_nat n → zslice (take n xs) a b = zslice xs a b.
Proof. apply zslice_take. Qed.

Section vis_proofs.
Context `{ArrowLaws Arr} `{!Batches Arr} `{!BatchesLaws Arr} `{!VortexLib Arr} `{!VortexLaws Arr}
  `{CodecLaws ColumnEncoding} `{Crc32}.

Definition rows_of (bs : list (RecordBatch Arr)) : Z := foldr (λ b acc, rb_rows b + acc) 0 bs.

Lemma write_all_fields (bs : list (RecordBatch Arr)) w :
  let w' := foldl vw_write w bs in
  vw_path w' = vw_path w ∧ vw_batches w' = vw_batches w ++ bs ∧ vw_total_rows w' = vw_total_rows w + rows_of bs ∧
  vw_picker w' = vw_picker w ∧ vw_flush_threshold w' = vw_flush_threshold w.
Proof.
  revert w. induction bs as [|b bs IH]; intros w; cbn.
  - rewrite app_nil_r. split_and!; [done|done|lia|done|done].
  - destruct (IH (vw_write w b)) as (-> & -> & -> & -> & ->). cbn. rewrite <- app_assoc.
    split_and!; [done|done|unfold rows_of; lia|done|done].
Qed.

(** After a rewrite the vis file holds the first columns of the batches. *)
Lemma rewrite_batches_returns path (bs : list (RecordBatch Arr)) u d d' :
  str_last path = str_last "x" → 0 < rows_of bs < 100000 → bs ≠ [] →
  io_returns (rewrite_batches path bs) d u d' →
  ∃ (v : Vx Arr) data, vx_write v = Ok data ∧ vx_slots v = (bs ≫= first_slots) ∧ disk_files d' !! path = Some data.
Proof.
  intros Hlast Hrows Hne Hr. unfold rewrite_batches in Hr. rewrite bool_decide_false in Hr by done.
  destruct (write_all_fields bs (VortexWriter_create (vis_tmp path) "__vis")) as (Hp & Hb & Ht & Hpick & Hth).
  set (w := foldl vw_write _ bs) in *. cbn in Hp, Hb, Hpick.
  change (vw_total_rows w = 0 + rows_of bs) in Ht. change (vw_flush_threshold w = 100000) in Hth. clearbody w.
  apply io_returns_bind in Hr as (meta & d1 & Hf & Hr).
  destruct (finish_returns w d meta d1) as (v & s & data & mb & Hc & Hw & _ & Hd); [lia|lia|done|].
  io_inv. exists v, data. rewrite Hp in Hd.
  assert (vis_tmp path ≠ encoding_path (vis_tmp path)) as Hne1.
  { intros E. apply (f_equal str_last) in E. unfold vis_tmp, encoding_path in E.
    by rewrite (with_extension_last _ "vortex.encoding" (Ascii.ascii_of_nat 103)),
      (with_extension_last path "vortex.tmp" (Ascii.ascii_of_nat 112)) in E. }
  match goal with H : disk_files ?d !! vis_tmp path = Some ?bs, H' : disk_files ?d = disk_files d1 |- _ =>
    assert (bs = data) as -> by (rewrite H', Hd, lookup_insert_ne, lookup_insert_eq in H by done; by simplify_eq) end.
  split_and!; [done| |].
  - apply (compress_adaptive_slots w v s); [|done]. rewrite Hpick. intros pick a' v' s' [=].
  - io_files. by rewrite lookup_insert_eq.
Qed.
End vis_proofs.

(** * Properties *)

(** The deletion log survives failing I/O: whatever fails while a deletion is
    recorded, the file afterwards holds the deletions it held, or those and the
    new one, the latter exactly when the call returns [Ok]; the call does not
    panic. *)
Theorem deltavis_append_atomic `{Crc32Laws} path r t d es :
  log_holds (disk_files d) path es → entries_ok es →
  let '(d', o) := mark_deleted path r t d in
  (o = Done (Ok tt) ∧ log_holds (disk_files d') path (es ++ [(r, t)])) ∨
  (∃ e, o = Done (Err e)) ∧ log_holds (disk_files d') path es.
Proof.
  intros Hl Hes. pose proof (mark_deleted_post path r t d es Hl Hes) as Hp.
  destruct (mark_deleted path r t d) as [d' o]. unfold log_holds in *.
  destruct Hp as [[-> ->]|[He ->]]; [by left|by right].
Qed.

(** Reading the log returns every deletion that was recorded, in the order of
    the calls, from a log of earlier deletions or from none. *)
Theorem deltavis_read_back `{Crc32Laws} path es es' d d' :
  log_holds (disk_files d) path es → entries_ok (es ++ es') → io_returns (mark_all path es') d tt d' →
  read_deltavis path (new_disk (disk_files d')) = (new_disk (disk_files d'), Done (Ok (es ++ es'))).
Proof.
  intros Hl Hes Hr. assert (log_holds (disk_files d') path (es ++ es')) as Hl'.
  { clear -Hl Hes Hr H0. unfold mark_all in Hr. revert es d Hl Hes Hr.
    induction es' as [|[r t] es' IH]; intros es d Hl Hes Hr; cbn in Hr.
    { io_inv. by rewrite app_nil_r. }
    apply io_returns_bind in Hr as ([] & d1 & Hm & Hr). rewrite (cons_middle (r, t)), app_assoc in Hes |- *.
    apply (IH (es ++ [(r, t)]) d1); [|done..].
    pose proof (mark_deleted_post path r t d es Hl) as Hp. cbn in Hm. unfold io_returns in Hm. rewrite Hm in Hp.
    unfold log_holds. destruct Hp as [[_ ->]|[[e He] _]]; [|done..].
    by eapply entries_ok_app_l, entries_ok_app_l. }
  unfold read_deltavis, io_bind, fs_exists, io_gets. unfold log_holds in Hl'. cbn [disk_files new_disk].
  destruct (disk_files d' !! deltavis_path path) as [data|] eqn:Hd.
  - rewrite bool_decide_true by (by eexists). subst data. unfold io_ok, fs_read, fs_op, io_lift.
    cbn -[deltavis_file zlen parse_deltavis]. rewrite Hd. cbn -[deltavis_file zlen parse_deltavis].
    pose proof (zlen_nonneg (es ++ es')).
    rewrite deltavis_file_length, (proj2 (Z.leb_le _ _)) by (unfold DELTAVIS_HEADER_SIZE, DELTAVIS_FOOTER_SIZE; lia).
    by rewrite parse_file.
  - rewrite bool_decide_false by (by intros []). by rewrite Hl'.
Qed.

(** A log that lost its end is rejected only while header and footer fit: a
    proper prefix of at least 17 bytes is an error, one of fewer than 16 bytes
    reads as no deletion, and one of exactly 16 bytes is taken for the headerless
    format and reads as a deletion that nobody recorded. *)
Theorem deltavis_truncated `{Crc32Laws} msg es n :
  entries_ok es → Z.of_nat n < zlen (deltavis_file es) →
  (17 ≤ Z.of_nat n → ∃ text, parse_deltavis msg (take n (deltavis_file es)) = Err (EIo UnexpectedEof text)) ∧
  (Z.of_nat n < 16 → parse_deltavis msg (take n (deltavis_file es)) = Ok []) ∧
  (Z.of_nat n = 16 → ∃ e, parse_deltavis msg (take n (deltavis_file es)) = Ok [e]).
Proof.
  intros Hes Hn. pose proof (zlen_nonneg es). rewrite deltavis_file_length in Hn.
  assert (zlen (take n (deltavis_file es)) = Z.of_nat n) as Hl by (rewrite zlen_take, deltavis_file_length; lia).
  unfold parse_deltavis. rewrite Hl. unfold DELTAVIS_HEADER_SIZE, DELTAVIS_FOOTER_SIZE. split_and!; intros Hk.
  - rewrite (proj2 (Z.ltb_ge _ _)), (proj2 (Z.leb_le _ _)) by lia. rewrite zslice_prefix, file_magic, bool_decide_true by lia || done.
    cbn [andb]. unfold read_deltavis_v2. rewrite lookup_take_lt, file_version, bool_decide_true by lia || done.
    rewrite zslice_prefix, file_count by lia || done. rewrite Hl. rewrite (proj2 (Z.eqb_neq _ _)); [by eexists|].
    destruct Hes as [_ Hz]. unfold wrap64, DELTAVIS_HEADER_SIZE, DELTAVIS_FOOTER_SIZE, DELTAVIS_RECORD_SIZE.
    rewrite Z.mod_small by lia. lia.
  - destruct (Z.ltb_spec (Z.of_nat n) 4); [done|]. rewrite (proj2 (Z.leb_gt _ _)) by lia. cbn [andb].
    unfold read_deltavis_v1. destruct (length _); [done|]. cbn [parse_records].
    by rewrite Hl, (proj2 (Z.leb_gt _ _)) by (unfold DELTAVIS_RECORD_SIZE; lia).
  - rewrite (proj2 (Z.ltb_ge _ _)), (proj2 (Z.leb_gt _ _)) by lia. cbn [andb]. unfold read_deltavis_v1.
    assert (length (take n (deltavis_file es)) = 16%nat) as -> by (unfold zlen in Hl; lia). cbn [parse_records].
    rewrite Hl, (proj2 (Z.leb_le _ _)) by (unfold DELTAVIS_RECORD_SIZE; lia). eexists. f_equal. f_equal.
    rewrite (drop_ge (take _ _)) by (unfold zlen in Hl; lia). done.
Qed.

(** Appending to a vis file keeps the creators only: after [append_batch] of a
    creator and a deleter column, opening the file gives one batch with one
    column, the creators of the batches before and those appended; the deleters
    are not in the file. *)
Theorem vis_append_keeps_creators `{ArrowLaws Arr} `{!Batches Arr} `{!BatchesLaws Arr} `{!VortexLib Arr}
    `{!VortexLaws Arr} `{CodecLaws ColumnEncoding} path (c del : Arr) (bs : list (RecordBatch Arr)) d d0 d' :
  str_last path = str_last "x" → 0 < rows_of bs + arr_len c < 100000 →
  Forall2 (fits (arr_len c)) visibility_schema [c; del] →
  io_returns (load_batches path) d bs d0 → io_returns (vis_append_batch path [c; del]) d tt d' →
  ∃ (r : VortexReader Arr) b col,
    io_returns (VortexReader_open path) (new_disk (disk_files d')) r (new_disk (disk_files d')) ∧
    read_all_batches r = [b] ∧ rb_columns b = [col] ∧ slots col = (bs ≫= first_slots) ++ slots c.
Proof.
  intros Hlast Hrows Hfit Hload Hr. unfold vis_append_batch in Hr.
  apply io_returns_bind in Hr as (bs' & d1 & Hload' & Hr). unfold io_returns in Hload, Hload'.
  rewrite Hload in Hload'. injection Hload' as <- <-.
  apply io_returns_bind in Hr as (b & d2 & [Hb ->]%io_returns_lift & Hr).
  rewrite (try_new_ok _ _ (arr_len c)) in Hb by done. cbn in Hb. injection Hb as <-.
  destruct (rewrite_batches_returns path (bs ++ [Build_RecordBatch visibility_schema [c; del] (arr_len c)]) tt d0 d')
    as (v & data & Hw & Hs & Hd); [done| |by destruct bs|done|].
  { unfold rows_of in *. rewrite foldr_app. cbn [foldr rb_rows].
    assert (∀ x, foldr (λ (b : RecordBatch Arr) acc, rb_rows b + acc) x bs = rows_of bs + x) as ->; [|unfold rows_of; lia].
    unfold rows_of. intros x. clear. induction bs as [|b bs IH]; cbn; [lia|]. rewrite IH. lia. }
  destruct (open_written path v data (new_disk (disk_files d')) Hw Hd eq_refl) as (a & Ha & Ho).
  eexists _, _, a. split; [exact Ho|]. split_and!; [done|done|]. rewrite Ha, Hs, bind_app. cbn. by rewrite app_nil_r.
Qed.

Lemma deleted_rows_elem (es : list (Z * Z)) (row t : Z) : (row, t) ∈ es → is_Some (deleted_rows es !! row).
Proof.
  unfold deleted_rows. assert (∀ m : gmap Z Z, is_Some (m !! row) ∨ (row, t) ∈ es →
    is_Some (foldl (λ (m : gmap Z Z) (e : Z * Z), match m !! e.1 with Some _ => m | None => <[e.1 := e.2]> m end) m es !! row)) as Hall.
  { induction es as [|[r x] es IH]; intros m; cbn; [intros [?|?%elem_of_nil]; done|]. intros Hin. apply IH.
    destruct (m !! r) as [y|] eqn:Hm; cbn.
    - destruct Hin as [?|[?|?]%elem_of_cons]; simplify_eq; eauto.
    - destruct (decide (r = row)) as [->|Hne]; [left; by rewrite lookup_insert_eq|]. rewrite lookup_insert_ne by done.
      destruct Hin as [?|[?|?]%elem_of_cons]; simplify_eq; eauto. }
  intros Hin. apply Hall. by right.
Qed.

Lemma mark_rows_panics `{ArrowLaws Arr} `{!Batches Arr} del rows (b : RecordBatch Arr) col row :
  rb_columns b = [col] → row ∈ rows → is_Some (del !! row) → mark_rows del rows b = Panic.
Proof.
  intros Hb Hin Hs. induction rows as [|r rows IH]; [by apply elem_of_nil in Hin|]. cbn.
  destruct (del !! r) as [t|] eqn:Ht.
  - assert (mark_rows_deleted b [true] t = Panic) as ->; [|done]. unfold mark_rows_deleted. rewrite Hb. by case_match.
  - apply IH. apply elem_of_cons in Hin as [<-|?]; [|done]. by rewrite Ht in Hs; destruct Hs.
Qed.

(** Folding the deletion log into the vis file panics as soon as it has a
    deletion of a row of the file: the file is read back with its creator column
    only, and the marking of a row needs both columns and a mask as long as the
    batch. *)
Theorem compact_deltavis_panics `{ArrowLaws Arr} `{!Batches Arr} `{!VortexLib Arr} `{Codec ColumnEncoding}
    `{Crc32} path d entries d1 (b : RecordBatch Arr) col d2 row t :
  io_returns (read_deltavis path) d entries d1 → io_returns (load_batches path) d1 [b] d2 → rb_columns b = [col] →
  (row, t) ∈ entries → 0 ≤ row < rb_rows b → compact_deltavis (Arr := Arr) path d = (d2, Panic).
Proof.
  intros Hr Hl Hb Hin Hrow. unfold compact_deltavis, io_bind at 1. rewrite Hr.
  rewrite bool_decide_false by (intros ->; by apply elem_of_nil in Hin).
  unfold io_bind at 1. rewrite Hl. cbn [mark_batches]. rewrite (mark_rows_panics _ _ b col row); [done|done| |].
  - apply elem_of_seqZ. lia.
  - by eapply deleted_rows_elem.
Qed.

(** ** The checksum, evaluated *)

Definition crc_bit (c : Z) : Z := if Z.testbit c 0 then Z.lxor (Z.shiftr c 1) 3988292384 else Z.shiftr c 1.
Definition crc_byte (c b : Z) : Z := Nat.iter 8 crc_bit (Z.lxor c (Z.land b 255)).
Definition crc_not (c : Z) : Z := u32_max - c.
#[export] Instance sample_crc : Crc32 := λ i bs, crc_not (foldl crc_byte (crc_not (wrap32 i)) bs).

Lemma lxor_u32 a b : is_u32 a → is_u32 b → is_u32 (Z.lxor a b).
Proof.
  unfold is_u32, u32_max. intros Ha Hb. split; [apply Z.lxor_nonneg; lia|]. apply Z.lt_succ_r.
  change (Z.succ 4294967295) with (2 ^ 32).
  destruct (decide (Z.lxor a b = 0)) as [->|Hne]; [done|]. apply Z.log2_lt_pow2.
  { assert (0 ≤ Z.lxor a b) by (apply Z.lxor_nonneg; lia). lia. }
  eapply Z.le_lt_trans; [apply Z.log2_lxor; lia|].
  apply Z.max_lub_lt; (destruct (decide (0 < a)), (decide (0 < b)); try (apply Z.log2_lt_pow2; lia);
    rewrite ?(Z.log2_nonpos a), ?(Z.log2_nonpos b) by lia; lia).
Qed.
Lemma crc_byte_range c b : is_u32 c → is_u32 (crc_byte c b).
Proof.
  intros Hc. unfold crc_byte. assert (is_u32 (Z.lxor c (Z.land b 255))) as Hx.
  { apply lxor_u32; [done|]. unfold is_u32, u32_max. change 255 with (Z.ones 8). rewrite Z.land_ones by lia.
    pose proof (Z.mod_pos_bound b (2 ^ 8)). lia. }
  revert Hx. generalize (Z.lxor c (Z.land b 255)). clear c b Hc. intros c Hc.
  generalize 8%nat. intros k. induction k as [|n IH]; [done|]. change (is_u32 (crc_bit (Nat.iter n crc_bit c))). revert IH. generalize (Nat.iter n crc_bit c). clear c Hc. intros c Hc.
  assert (is_u32 (Z.shiftr c 1)) as Hs.
  { unfold is_u32 in *. rewrite Z.shiftr_div_pow2 by lia. pose proof (Z.div_pos c (2 ^ 1)).
    pose proof (Z.div_le_upper_bound c (2 ^ 1) c). lia. }
  unfold crc_bit. destruct (Z.testbit c 0); [|done]. by apply lxor_u32.
Qed.
#[export] Instance sample_crc_laws : Crc32Laws.
Proof.
  assert (∀ bs c, is_u32 c → is_u32 (foldl crc_byte c bs)) as Hfold.
  { induction bs as [|b bs IH]; intros c Hc; [done|]. apply IH, crc_byte_range, Hc. }
  assert (∀ c, is_u32 c → is_u32 (crc_not c)) as Hnot by (unfold is_u32, crc_not; lia).
  assert (∀ i, is_u32 (wrap32 i)) as Hw.
  { intros i. unfold is_u32, wrap32, u32_max. pose proof (Z.mod_pos_bound i (2 ^ 32)). lia. }
  split; unfold crc32, sample_crc; intros.
  - auto.
  - rewrite foldl_app. set (c := foldl crc_byte _ xs).
    assert (is_u32 c) as Hc by (apply Hfold, Hnot, Hw). unfold wrap32, crc_not at 3.
    rewrite Z.mod_small by (unfold is_u32, u32_max in *; lia). unfold crc_not. by replace (u32_max - (u32_max - c)) with c by lia.
Qed.

Lemma deltavis_append_atomic_witness :
  let '(d', o) := mark_deleted "s/__vis.vortex" 3 9 (new_disk ∅) in
  (o = Done (Ok tt) ∧ log_holds (disk_files d') "s/__vis.vortex" [(3, 9)]) ∨
  (∃ e, o = Done (Err e)) ∧ log_holds (disk_files d') "s/__vis.vortex" [].
Proof. apply (deltavis_append_atomic "s/__vis.vortex" 3 9 (new_disk ∅) []); [done|by split]. Defined.

Definition demo_marks : Disk := (mark_all "s/__vis.vortex" [(3, 9); (1, 7)] (new_disk ∅)).1.

Lemma deltavis_read_back_witness :
  read_deltavis "s/__vis.vortex" (new_disk (disk_files demo_marks)) =
  (new_disk (disk_files demo_marks), Done (Ok [(3, 9); (1, 7)])).
Proof.
  apply (deltavis_read_back "s/__vis.vortex" [] [(3, 9); (1, 7)] (new_disk ∅) demo_marks);
    [done| |vm_compute; reflexivity].
  split; [|done]. repeat constructor; done.
Defined.

Lemma deltavis_truncated_witness :
  ∃ e, parse_deltavis mmap_crc_message (take 16 (deltavis_file [(3, 9)])) = Ok [e].
Proof. apply (deltavis_truncated mmap_crc_message [(3, 9)] 16); [split; [by repeat constructor|done]|done|done]. Defined.

Definition demo_vis : Disk :=
  (vis_append_batch (H1 := sample_encoding_codec) "s/__vis.vortex" [int_array [Some 5]; int_array [Some (-1)]]
     (new_disk ∅)).1.

Lemma vis_append_keeps_creators_witness :
  ∃ (r : VortexReader ListArray) b col,
    io_returns (VortexReader_open (H1 := sample_encoding_codec) "s/__vis.vortex") (new_disk (disk_files demo_vis)) r
      (new_disk (disk_files demo_vis)) ∧
    read_all_batches r = [b] ∧ rb_columns b = [col] ∧ slots col = slots (int_array [Some 5]).
Proof.
  apply (@vis_append_keeps_creators ListArray _ _ _ _ _ _ sample_encoding_codec sample_encoding_laws "s/__vis.vortex"
    (int_array [Some 5]) (int_array [Some (-1)]) [] (new_disk ∅) (new_disk ∅) demo_vis);
    [done|done| |vm_compute; reflexivity|vm_compute; reflexivity].
  repeat constructor; cbn; intros; try discriminate; apply (bool_decide_unpack _); vm_compute; exact I.
Defined.

Definition demo_folded : Disk := (mark_deleted "s/__vis.vortex" 0 9 demo_vis).1.

Lemma compact_deltavis_panics_witness :
  compact_deltavis (Arr := ListArray) (H1 := sample_encoding_codec) "s/__vis.vortex" demo_folded = (demo_folded, Panic).
Proof.
  apply (@compact_deltavis_panics ListArray _ _ _ _ sample_encoding_codec _ "s/__vis.vortex" demo_folded [(0, 9)] demo_folded
    {| rb_fields := [{| f_name := "value"; f_type := Int64; f_nullable := true |}]; rb_columns := [int_array [Some 5]];
       rb_rows := 1 |} (int_array [Some 5]) demo_folded 0 9);
    [vm_compute; reflexivity|vm_compute; reflexivity|done|by apply list_elem_of_singleton|done].
Defined.
