(* ===== verification/SegMeta.v ===== *)
(** Segment metadata: segment/meta.rs (the record, its statistics and column
    types), segment/layout.rs (segment ids and file paths), metadata/seg_meta.rs
    (the cache) and the segment and table records of metadata/kv_store.rs. *)

From stdpp Require Import base gmap strings list.
From S2P Require Import Prelude Kv Arrow Disk.

Local Open Scope Z_scope.

(** * segment/meta.rs *)

Definition GRANULE_SIZE : Z := 8192.

Module Meta.
(** [segment::meta::DataType] *)
Inductive DataType :=
  | Int8 | Int16 | Int32 | Int64 | UInt8 | UInt16 | UInt32 | UInt64 | Float32 | Float64 | Bool
  | Utf8 | LargeUtf8 | Binary | LargeBinary | Date32 | Date64 | TimestampMicros | TimestampMillis.
End Meta.

Definition from_arrow (dt : Arrow.DataType) : Meta.DataType :=
  match dt with
  | Int8 => Meta.Int8 | Int16 => Meta.Int16 | Int32 => Meta.Int32 | Int64 => Meta.Int64
  | UInt8 => Meta.UInt8 | UInt16 => Meta.UInt16 | UInt32 => Meta.UInt32 | UInt64 => Meta.UInt64
  | Float32 => Meta.Float32 | Float64 => Meta.Float64 | Boolean => Meta.Bool
  | Utf8 => Meta.Utf8 | LargeUtf8 => Meta.LargeUtf8 | Binary => Meta.Binary | LargeBinary => Meta.LargeBinary
  | Date32 => Meta.Date32 | Date64 => Meta.Date64
  | Timestamp u =>
      if bool_decide (u = "Microsecond") then Meta.TimestampMicros
      else if bool_decide (u = "Millisecond") then Meta.TimestampMillis else Meta.Binary
  | _ => Meta.Binary
  end.

Definition to_arrow (dt : Meta.DataType) : Arrow.DataType :=
  match dt with
  | Meta.Int8 => Int8 | Meta.Int16 => Int16 | Meta.Int32 => Int32 | Meta.Int64 => Int64
  | Meta.UInt8 => UInt8 | Meta.UInt16 => UInt16 | Meta.UInt32 => UInt32 | Meta.UInt64 => UInt64
  | Meta.Float32 => Float32 | Meta.Float64 => Float64 | Meta.Bool => Boolean
  | Meta.Utf8 => Utf8 | Meta.LargeUtf8 => LargeUtf8 | Meta.Binary => Binary | Meta.LargeBinary => LargeBinary
  | Meta.Date32 => Date32 | Meta.Date64 => Date64
  | Meta.TimestampMicros => Timestamp "Microsecond" | Meta.TimestampMillis => Timestamp "Millisecond"
  end.

Inductive SegmentStatus := Active | Frozen | Compacting | Garbage.
Inductive SegmentType := TDelta | TVortex | TFrozen.

Record ColumnDef := {
  cd_name : string;
  cd_data_type : Meta.DataType;
  cd_nullable : bool;
  cd_default_expr : option string
}.
Definition ColumnDef_new (name : string) (dt : Meta.DataType) : ColumnDef :=
  {| cd_name := name; cd_data_type := dt; cd_nullable := true; cd_default_expr := None |}.
Definition not_null (c : ColumnDef) : ColumnDef :=
  {| cd_name := cd_name c; cd_data_type := cd_data_type c; cd_nullable := false; cd_default_expr := cd_default_expr c |}.

Record SegColumnStats := {
  cs_name : string;
  cs_data_type : Meta.DataType;
  cs_min : bytes;
  cs_max : bytes;
  cs_null_count : Z;
  cs_distinct_count : Z
}.

(** [ZoneMapStats] is its list of column statistics. *)
Record GranuleMeta := {
  g_granule_id : Z;
  g_min_key : bytes;
  g_max_key : bytes;
  g_row_count : Z;
  g_del_count : Z;
  g_zone_map : option (list SegColumnStats);
  g_has_block_zm : bool;
  g_vis_dirty : bool
}.

Record SegmentMeta := {
  seg_id : string;
  table_id : string;
  status : SegmentStatus;
  seg_type : SegmentType;
  columns : list ColumnDef;
  min_key : bytes;
  max_key : bytes;
  row_count : Z;
  alive_row_count : Z;
  del_ratio : f64;
  size_bytes : Z;
  created_txn : Z;
  updated_txn : Z;
  updated_at : Z;
  file_paths : list string;
  granules : list GranuleMeta;
  has_visibility_columns : bool;
  delta_file_id : option string;
  delta_row_count : Z;
  delta_l1_bytes : Z
}.

#[export] Instance Meta_DataType_eq_dec : EqDecision Meta.DataType.
Proof. solve_decision. Defined.
#[export] Instance SegmentStatus_eq_dec : EqDecision SegmentStatus.
Proof. solve_decision. Defined.
#[export] Instance SegmentType_eq_dec : EqDecision SegmentType.
Proof. solve_decision. Defined.
#[export] Instance ColumnDef_eq_dec : EqDecision ColumnDef.
Proof. solve_decision. Defined.
#[export] Instance ColumnStats_eq_dec : EqDecision SegColumnStats.
Proof. solve_decision. Defined.
#[export] Instance GranuleMeta_eq_dec : EqDecision GranuleMeta.
Proof. solve_decision. Defined.
#[local] Instance f64_eq_dec : EqDecision f64.
Proof. intros x y. unfold Decision. decide equality; first [apply bool_eq_dec | apply Z.eq_dec | apply Pos.eq_dec]. Defined.
#[export] Instance SegmentMeta_eq_dec : EqDecision SegmentMeta.
Proof. solve_decision. Defined.

(** [SegmentMeta::new]; [now] is the reading of the clock. *)
Definition SegmentMeta_new (now : Z) (id table : string) (cols : list ColumnDef) : SegmentMeta :=
  {| seg_id := id; table_id := table; status := Active; seg_type := TDelta; columns := cols;
     min_key := []; max_key := []; row_count := 0; alive_row_count := 0; del_ratio := f64_of_Z 0;
     size_bytes := 0; created_txn := 0; updated_txn := 0; updated_at := now; file_paths := [];
     granules := []; has_visibility_columns := true; delta_file_id := None; delta_row_count := 0;
     delta_l1_bytes := 0 |}.

Definition set_status (m : SegmentMeta) (s : SegmentStatus) : SegmentMeta :=
  {| seg_id := seg_id m; table_id := table_id m; status := s; seg_type := seg_type m; columns := columns m;
     min_key := min_key m; max_key := max_key m; row_count := row_count m; alive_row_count := alive_row_count m;
     del_ratio := del_ratio m; size_bytes := size_bytes m; created_txn := created_txn m;
     updated_txn := updated_txn m; updated_at := updated_at m; file_paths := file_paths m;
     granules := granules m; has_visibility_columns := has_visibility_columns m;
     delta_file_id := delta_file_id m; delta_row_count := delta_row_count m; delta_l1_bytes := delta_l1_bytes m |}.
Definition set_columns (m : SegmentMeta) (cols : list ColumnDef) (vis : bool) : SegmentMeta :=
  {| seg_id := seg_id m; table_id := table_id m; status := status m; seg_type := seg_type m; columns := cols;
     min_key := min_key m; max_key := max_key m; row_count := row_count m; alive_row_count := alive_row_count m;
     del_ratio := del_ratio m; size_bytes := size_bytes m; created_txn := created_txn m;
     updated_txn := updated_txn m; updated_at := updated_at m; file_paths := file_paths m;
     granules := granules m; has_visibility_columns := vis;
     delta_file_id := delta_file_id m; delta_row_count := delta_row_count m; delta_l1_bytes := delta_l1_bytes m |}.
Definition set_del_stats (m : SegmentMeta) (rows alive : Z) (ratio : f64) : SegmentMeta :=
  {| seg_id := seg_id m; table_id := table_id m; status := status m; seg_type := seg_type m; columns := columns m;
     min_key := min_key m; max_key := max_key m; row_count := rows; alive_row_count := alive;
     del_ratio := ratio; size_bytes := size_bytes m; created_txn := created_txn m;
     updated_txn := updated_txn m; updated_at := updated_at m; file_paths := file_paths m;
     granules := granules m; has_visibility_columns := has_visibility_columns m;
     delta_file_id := delta_file_id m; delta_row_count := delta_row_count m; delta_l1_bytes := delta_l1_bytes m |}.

(** [x as u64] of a double: truncation toward zero, saturating. *)
Definition f64_as_u64 (x : f64) : Z :=
  match x with
  | SpecFloat.S754_finite false m e => Z.min (Z.shiftl (Z.pos m) e) u64_max
  | SpecFloat.S754_infinity false => u64_max
  | _ => 0
  end.

Definition alive_rows (m : SegmentMeta) : Z :=
  f64_as_u64 (f64_mul (f64_of_Z (row_count m)) (f64_sub (f64_of_Z 1) (del_ratio m))).

(** [iter().sum::<u64>()] *)
Definition sum_u64 (l : list Z) : Z := foldl (λ acc x, wrap64 (acc + x)) 0 l.

Definition update_del_stats (m : SegmentMeta) : SegmentMeta :=
  let total_rows := sum_u64 (g_row_count <$> granules m) in
  let total_deleted := sum_u64 (g_del_count <$> granules m) in
  let ratio := if 0 <? total_rows then f64_div (f64_of_Z total_deleted) (f64_of_Z total_rows) else f64_of_Z 0 in
  let m := set_del_stats m total_rows (alive_row_count m) ratio in
  set_del_stats m (row_count m) (alive_rows m) (del_ratio m).

(** * segment/layout.rs *)

(** [std::path] on Unix.  [Path::components]: a leading slash is a component, empty
    parts and dots other than a leading one are not. *)
Definition slash_char : Ascii.ascii := Ascii.ascii_of_nat 47.

Fixpoint split_slash (s : string) : list string :=
  match s with
  | "" => [""]
  | String c s' =>
      if bool_decide (c = slash_char) then "" :: split_slash s' else
      match split_slash s' with
      | p :: ps => String c p :: ps
      | [] => [String c ""]
      end
  end.

Definition normal_parts (ps : list string) : list string := filter (λ p, p ≠ "" ∧ p ≠ ".") ps.

Definition is_absolute (p : string) : bool :=
  match p with String c _ => bool_decide (c = slash_char) | "" => false end.

Definition components (p : string) : list string :=
  if is_absolute p then "/" :: normal_parts (split_slash p) else
  match split_slash p with
  | part :: ps => (if bool_decide (part = ".") then [part] else normal_parts [part]) ++ normal_parts ps
  | [] => []
  end.

(** [Path::join] *)
Definition path_join (a b : string) : string :=
  if is_absolute b then b else
  if bool_decide (a = "") then b else
  if bool_decide (str_last a = Some slash_char) then a +:+ b else a +:+ "/" +:+ b.

(** [str::contains], for a character and for two dots. *)
Fixpoint str_has (c : Ascii.ascii) (s : string) : bool :=
  match s with "" => false | String d s' => bool_decide (d = c) || str_has c s' end.
Fixpoint str_has_dotdot (s : string) : bool :=
  match s with
  | String a s' =>
      (bool_decide (a = Ascii.ascii_of_nat 46) &&
       match s' with String b _ => bool_decide (b = Ascii.ascii_of_nat 46) | "" => false end) || str_has_dotdot s'
  | "" => false
  end.

Definition segment_dir (data_dir id : string) : string := path_join (path_join data_dir "segments") id.

Definition validate_seg_id (id data_dir : string) : Result unit :=
  if str_has slash_char id || str_has (Ascii.ascii_of_nat 92) id || str_has_dotdot id
  then Err (ESecurity ("invalid seg_id: contains path traversal: " +:+ id)) else
  if bool_decide (components data_dir `prefix_of` components (segment_dir data_dir id)) then Ok tt
  else Err (ESecurity ("path traversal detected in seg_id: " +:+ id)).

Record SegmentLayout := { seg_dir : string }.

Definition SegmentLayout_new (data_dir id : string) : outcome SegmentLayout :=
  match validate_seg_id id data_dir with
  | Ok _ => Done {| seg_dir := segment_dir data_dir id |}
  | Err _ => Panic
  end.
Definition SegmentLayout_try_new (data_dir id : string) : Result SegmentLayout :=
  _ <-? validate_seg_id id data_dir; Ok {| seg_dir := segment_dir data_dir id |}.

Definition col_path (l : SegmentLayout) (col : string) : string := path_join (seg_dir l) (col +:+ ".vortex").
Definition vis_path (l : SegmentLayout) : string := path_join (seg_dir l) "__vis.vortex".
Definition layout_deltavis_path (l : SegmentLayout) : string := path_join (seg_dir l) "__vis.vortex.delta".
Definition del_mask_path (l : SegmentLayout) : string := path_join (seg_dir l) "_del.vortex".
Definition upd_mask_path (l : SegmentLayout) (col : string) : string :=
  path_join (seg_dir l) ("_upd_" +:+ col +:+ ".vortex").
Definition meta_path (l : SegmentLayout) : string := path_join (seg_dir l) "_meta.vortex".
Definition zone_map_path (l : SegmentLayout) : string := path_join (seg_dir l) "_zm.json".
Definition block_zm_path (l : SegmentLayout) (col : string) : string := path_join (seg_dir l) (col +:+ "._zm.bin").
Definition block_bf_path (l : SegmentLayout) (col : string) : string := path_join (seg_dir l) (col +:+ "._bf.bin").
Definition delta_path (l : SegmentLayout) (col : string) : string :=
  path_join (path_join (seg_dir l) "l2") (col +:+ ".delta").

(** [fs::remove_dir_all]: every file below the directory; a failure leaves some
    of them.  A directory exists when it holds a file. *)
Definition below (dir path : string) : Prop := components dir `prefix_of` components path.
#[export] Instance below_dec dir path : Decision (below dir path).
Proof. unfold below. apply _. Defined.
Definition files_below (dir : string) (fs : gmap string bytes) : list string :=
  filter (below dir) (map_to_list fs).*1.
Definition remove_paths (ps : list string) (fs : gmap string bytes) : gmap string bytes := foldr delete fs ps.
Definition fs_remove_dir_all (dir : string) : io IoError unit :=
  fs_op (λ n fs, remove_paths (take n (files_below dir fs)) fs)
        (λ fs, (remove_paths (files_below dir fs) fs, Ok tt)).

Definition delete_all (l : SegmentLayout) : io IoError unit :=
  ex <-! io_gets (λ d, bool_decide (files_below (seg_dir l) (disk_files d) ≠ []));
  if (ex : bool) then fs_remove_dir_all (seg_dir l) else io_ret tt.

(** * metadata/kv_store.rs: segment and table records *)

Definition CF_SEG_META : string := "seg_meta".
Definition KEY_SEGMENT_META : bytes := as_bytes "seg_meta:".
Definition KEY_SEG_ROW_COUNT : bytes := as_bytes "seg_row_count:".
Definition segment_meta_key (id : string) : bytes := KEY_SEGMENT_META ++ as_bytes id.
Definition segment_row_count_key (id : string) : bytes := KEY_SEG_ROW_COUNT ++ as_bytes id.

Record TableStats := {
  ts_table_name : string;
  ts_row_count : Z;
  ts_segment_count : Z;
  ts_total_size_bytes : Z;
  ts_last_updated_txn : Z
}.

(** [moka::sync::Cache]: bounded, an entry may be evicted at any time. *)
Class BoundedCache (C V : Type) := {
  bc_new : Z → C;
  bc_get : C → string → option V;
  bc_insert : C → string → V → C;
  bc_invalidate : C → string → C;
  bc_invalidate_all : C → C
}.
#[global] Hint Mode BoundedCache ! - : typeclass_instances.
Class BoundedCacheLaws (C V : Type) `{BoundedCache C V} := {
  bc_get_new : ∀ n k, bc_get (bc_new (C := C) n) k = None (A := V);
  bc_get_insert : ∀ (c : C) k k' (v v' : V), bc_get (bc_insert c k v) k' = Some v' →
    if decide (k' = k) then v' = v else bc_get c k' = Some v';
  bc_get_invalidate : ∀ (c : C) k k' (v' : V), bc_get (bc_invalidate c k) k' = Some v' →
    k' ≠ k ∧ bc_get c k' = Some v';
  bc_get_invalidate_all : ∀ (c : C) k, bc_get (bc_invalidate_all c) k = None (A := V)
}.
#[global] Hint Mode BoundedCacheLaws ! - - : typeclass_instances.

(** * metadata/seg_meta.rs *)

Record CacheEntry := { ce_meta : SegmentMeta; ce_encoded : bytes }.

Record SegmentMetaCache (C : Type) := {
  smc_cache : C;
  smc_present : gset string;
  smc_table_index : gmap string (list string)
}.
Arguments Build_SegmentMetaCache {C} _ _ _.
Arguments smc_cache {C} _.
Arguments smc_present {C} _.
Arguments smc_table_index {C} _.

Section cache.
Context `{BoundedCache C CacheEntry} `{KVEngine KV} `{Codec SegmentMeta} `{Codec TableStats}.
Implicit Types (c : SegmentMetaCache C) (kv : KV) (m : SegmentMeta).

Definition SegmentMetaCache_new (capacity : Z) : SegmentMetaCache C :=
  {| smc_cache := bc_new capacity; smc_present := ∅; smc_table_index := ∅ |}.

Definition smc_get c (id : string) : option SegmentMeta := ce_meta <$> bc_get (smc_cache c) id.

Definition smc_put c m : SegmentMetaCache C * Result unit :=
  match codec_err (encode m) with
  | Err e => (c, Err e)
  | Ok encoded =>
      let ids := default [] (smc_table_index c !! table_id m) in
      ({| smc_cache := bc_insert (smc_cache c) (seg_id m) {| ce_meta := m; ce_encoded := encoded |};
          smc_present := {[seg_id m]} ∪ smc_present c;
          smc_table_index :=
            <[table_id m := if bool_decide (seg_id m ∈ ids) then ids else ids ++ [seg_id m]]> (smc_table_index c) |},
       Ok tt)
  end.

Definition smc_invalidate c (id : string) : SegmentMetaCache C :=
  {| smc_cache := bc_invalidate (smc_cache c) id;
     smc_present := smc_present c ∖ {[id]};
     smc_table_index := filter (λ s, s ≠ id) <$> smc_table_index c |}.

Definition smc_contains c (id : string) : bool := bool_decide (id ∈ smc_present c).
Definition smc_len c : Z := Z.of_nat (size (smc_present c)).
Definition smc_is_empty c : bool := bool_decide (smc_present c = ∅).
Definition smc_clear c : SegmentMetaCache C :=
  {| smc_cache := bc_invalidate_all (smc_cache c); smc_present := ∅; smc_table_index := ∅ |}.
Definition get_seg_ids_for_table c (table : string) : list string := default [] (smc_table_index c !! table).
Definition get_metas_for_table c (table : string) : list SegmentMeta :=
  omap (smc_get c) (get_seg_ids_for_table c table).

(** The key is built from the bucket name, without the colon of
    [KEY_SEGMENT_META]. *)
Definition repopulate_key (id : string) : bytes := as_bytes CF_SEG_META ++ as_bytes id.

Definition get_with_repopulate c kv (id : string) : SegmentMetaCache C * Result (option SegmentMeta) :=
  match smc_get c id with
  | Some m => (c, Ok (Some m))
  | None =>
      match kv_get kv CF_SEG_META (repopulate_key id) with
      | Err e => (c, Err e)
      | Ok None => (c, Ok None)
      | Ok (Some value) =>
          match codec_err (decode (A := SegmentMeta) value) with
          | Err e => (c, Err e)
          | Ok m =>
              match smc_put c m with
              | (c', Ok _) => (c', Ok (Some m))
              | (c', Err e) => (c', Err e)
              end
          end
      end
  end.

(** ** The records *)

Definition put_segment_meta kv m : KV * Result unit := put_encoded kv CF_SEG_META (segment_meta_key (seg_id m)) m.

Definition put_segment_meta_and_invalidate kv c m : KV * SegmentMetaCache C * Result unit :=
  match put_segment_meta kv m with
  | (kv', Ok _) => (kv', smc_invalidate c (seg_id m), Ok tt)
  | (kv', Err e) => (kv', c, Err e)
  end.

Definition get_segment_meta kv (id : string) : Result (option SegmentMeta) :=
  v <-? kv_get kv CF_SEG_META (segment_meta_key id);
  match v with
  | Some value => m <-? codec_err (decode value); Ok (Some m)
  | None => Ok None
  end.

Definition update_segment_status kv c (id : string) (s : SegmentStatus) : KV * SegmentMetaCache C * Result bool :=
  match get_segment_meta kv id with
  | Err e => (kv, c, Err e)
  | Ok None => (kv, c, Ok false)
  | Ok (Some m) =>
      match put_segment_meta kv (set_status m s) with
      | (kv', Ok _) => (kv', smc_invalidate c id, Ok true)
      | (kv', Err e) => (kv', c, Err e)
      end
  end.

Fixpoint decode_metas (l : list (bytes * bytes)) : Result (list SegmentMeta) :=
  match l with
  | [] => Ok []
  | (_, value) :: l' =>
      m <-? codec_err (decode value);
      rest <-? decode_metas l';
      Ok (m :: rest)
  end.
Definition list_segment_metas kv : Result (list SegmentMeta) :=
  l <-? kv_prefix kv CF_SEG_META KEY_SEGMENT_META; decode_metas l.

Definition get_or_create_table_stats kv (table : string) : Result TableStats :=
  v <-? kv_get kv CF_STAT (table_stats_key table);
  match v with
  | Some value => codec_err (decode value)
  | None => Ok {| ts_table_name := table; ts_row_count := 0; ts_segment_count := 0; ts_total_size_bytes := 0;
                  ts_last_updated_txn := 0 |}
  end.
Definition put_table_stats kv (s : TableStats) : KV * Result unit :=
  put_encoded kv CF_STAT (table_stats_key (ts_table_name s)) s.
Definition increment_row_count kv (table : string) (delta : Z) : KV * Result Z :=
  let '(kv', r) := kv_atomic_increment kv CF_STAT (table_row_count_key table) delta in
  (kv', v <-? r; Ok (as_u64 v)).
End cache.

(** * Proofs: paths *)

Lemma normal_parts_app a b : normal_parts (a ++ b) = normal_parts a ++ normal_parts b.
Proof. apply filter_app. Qed.

Lemma split_slash_cons s : ∃ p ps, split_slash s = p :: ps.
Proof. destruct s as [|c s]; cbn; [eauto|]. case_bool_decide; [eauto|]. destruct (split_slash s); eauto. Qed.

Lemma split_slash_app a b : split_slash (a +:+ "/" +:+ b) = split_slash a ++ split_slash b.
Proof.
  induction a as [|c a IH]; [done|]. change (String c a +:+ "/" +:+ b) with (String c (a +:+ "/" +:+ b)).
  cbn [split_slash]. rewrite IH. case_bool_decide as Hc; [done|].
  by destruct (split_slash_cons a) as (p & ps & ->).
Qed.

Lemma split_slash_none s : str_has slash_char s = false → split_slash s = [s].
Proof.
  induction s as [|c s IH]; [done|]. cbn. intros [Hc Hs]%orb_false_iff. rewrite Hc. by rewrite IH.
Qed.

Lemma is_absolute_app a b : a ≠ "" → is_absolute (a +:+ b) = is_absolute a.
Proof. by destruct a. Qed.

Lemma str_last_slash a : str_last a = Some slash_char → ∃ a', a = a' +:+ "/".
Proof.
  induction a as [|c a IH]; [done|]. cbn. destruct (str_last a) eqn:E; intros H.
  - destruct IH as (a' & ->); [congruence|]. by exists (String c a').
  - destruct a as [|d a]; [|cbn in E; by destruct (str_last a)]. simplify_eq. by exists "".
Qed.

Lemma path_app_assoc a b c : (a +:+ b) +:+ c = a +:+ b +:+ c.
Proof. induction a as [|x a IH]; [done|]. unfold String.append in *. cbn. by rewrite IH. Qed.

(** The components of a path with one more slash-separated part. *)
Lemma components_app a b : a ≠ "" → components (a +:+ "/" +:+ b) = components a ++ normal_parts (split_slash b).
Proof.
  intros Ha. unfold components. rewrite is_absolute_app by done. rewrite split_slash_app.
  destruct (is_absolute a); [by rewrite normal_parts_app|].
  destruct (split_slash_cons a) as (p & ps & ->). cbn. by rewrite normal_parts_app, app_assoc.
Qed.

Lemma components_join a b : a ≠ "" → is_absolute b = false →
  components (path_join a b) = components a ++ normal_parts (split_slash b).
Proof.
  intros Ha Hb. unfold path_join. rewrite Hb, bool_decide_false by done. case_bool_decide as Hl; [|by apply components_app].
  destruct (str_last_slash a Hl) as (a' & ->). destruct (decide (a' = "")) as [->|Ha'].
  - done.
  - rewrite path_app_assoc.
    rewrite (components_app a' b Ha'). 
    change (a' +:+ "/") with (a' +:+ "/" +:+ ""). rewrite (components_app a' "" Ha'). by rewrite app_nil_r.
Qed.

Lemma no_slash_relative id : str_has slash_char id = false → is_absolute id = false.
Proof. destruct id; cbn; [done|]. by intros [-> _]%orb_false_iff. Qed.

Lemma segments_dir_ne d : path_join d "segments" ≠ "".
Proof. unfold path_join. cbn [is_absolute]. repeat case_bool_decide; try done; by destruct d. Qed.

Lemma components_segments d : components (path_join d "segments") = components d ++ ["segments"].
Proof.
  destruct (decide (d = "")) as [->|Hd]; [done|]. by rewrite components_join.
Qed.

(** The directory of a segment id without a separator: its own component below
    the segments directory, none for an empty id or a dot. *)
Lemma components_segment_dir d id : str_has slash_char id = false →
  components (segment_dir d id) = components d ++ "segments" :: normal_parts [id].
Proof.
  intros Hs. unfold segment_dir. rewrite components_join; [|apply segments_dir_ne|by apply no_slash_relative].
  rewrite components_segments, split_slash_none by done. by rewrite <- app_assoc.
Qed.

Lemma validate_seg_id_ok id d :
  validate_seg_id id d = Ok tt ↔
  str_has slash_char id = false ∧ str_has (Ascii.ascii_of_nat 92) id = false ∧ str_has_dotdot id = false.
Proof.
  unfold validate_seg_id. destruct (str_has slash_char id) eqn:E1, (str_has (Ascii.ascii_of_nat 92) id) eqn:E2, (str_has_dotdot id) eqn:E3;
    cbn [orb]; try (split; [done|naive_solver]). split; [naive_solver|intros _].
  rewrite bool_decide_true; [done|]. rewrite components_segment_dir by done. by apply prefix_app_r.
Qed.

Lemma normal_parts_one id : id ≠ "" → id ≠ "." → normal_parts [id] = [id].
Proof. intros. unfold normal_parts. by rewrite filter_cons_True. Qed.

(** A validated segment id names a directory of its own directly below the
    segments directory, never a parent, and different ids name different
    directories, none inside another.  The empty id and the single dot pass the
    validation as well and name the segments directory itself. *)
Theorem seg_dir_confined d id :
  validate_seg_id id d = Ok tt →
  (id ≠ "" → id ≠ "." → components (segment_dir d id) = components d ++ ["segments"; id] ∧ id ≠ ".." ∧
     ∀ id', validate_seg_id id' d = Ok tt → id' ≠ "" → id' ≠ "." → id' ≠ id →
       ¬ below (segment_dir d id) (segment_dir d id')) ∧
  (id = "" ∨ id = "." → components (segment_dir d id) = components d ++ ["segments"]).
Proof.
  intros (Hs & _ & Hdd)%validate_seg_id_ok. split.
  - intros H1 H2. rewrite components_segment_dir, normal_parts_one by done. split_and!; [done|by intros ->|].
    intros id' (Hs' & _)%validate_seg_id_ok H1' H2' Hne. unfold below.
    rewrite !components_segment_dir, !normal_parts_one by done. intros Hp%prefix_app_inv.
    apply prefix_cons_inv_2, prefix_cons_inv_1 in Hp. congruence.
  - intros [-> | ->]; by rewrite components_segment_dir.
Qed.

Lemma seg_dir_confined_witness :
  components (segment_dir "/data" "seg_1") = ["/"; "data"; "segments"; "seg_1"] ∧
  components (segment_dir "/data" ".") = ["/"; "data"; "segments"].
Proof.
  split.
  - apply (proj1 (seg_dir_confined "/data" "seg_1" eq_refl)); discriminate.
  - apply (proj2 (seg_dir_confined "/data" "." eq_refl)). by right.
Defined.

Lemma remove_paths_lookup ps fs p : remove_paths ps fs !! p = if decide (p ∈ ps) then None else fs !! p.
Proof.
  unfold remove_paths. induction ps as [|q ps IH]; cbn; [by rewrite decide_False by apply not_elem_of_nil|].
  destruct (decide (p = q)) as [->|Hne].
  - by rewrite lookup_delete_eq, decide_True by left.
  - rewrite lookup_delete_ne, IH by done. destruct (decide (p ∈ ps)); case_decide; try done.
    all: set_solver.
Qed.

Lemma elem_of_files_below dir fs p : p ∈ files_below dir fs ↔ below dir p ∧ is_Some (fs !! p).
Proof.
  unfold files_below. rewrite list_elem_of_filter, list_elem_of_fmap. split.
  - intros (Hb & [q bs] & -> & Hin%elem_of_map_to_list). eauto.
  - intros (Hb & bs & Hp). split; [done|]. exists (p, bs). split; [done|by apply elem_of_map_to_list].
Qed.

Lemma delete_all_post l :
  io_post (delete_all l) (λ fs fs' o,
    (∀ p, ¬ below (seg_dir l) p → fs' !! p = fs !! p) ∧
    (o = Done (Ok tt) → ∀ p, below (seg_dir l) p → fs' !! p = None)).
Proof.
  assert (∀ fs p, ¬ below (seg_dir l) p → p ∉ files_below (seg_dir l) fs) as Hout.
  { intros fs p Hp Hin. by apply elem_of_files_below in Hin as [? _]. }
  intros [fs faults]. unfold delete_all, io_bind, io_gets. cbn. case_bool_decide as He; cbn.
  - unfold fs_remove_dir_all, fs_op. cbn.
    assert (∀ p, below (seg_dir l) p → remove_paths (files_below (seg_dir l) fs) fs !! p = None) as Hgone.
    { intros p Hp. rewrite remove_paths_lookup. case_decide as Hin; [done|]. destruct (fs !! p) eqn:E; [|done].
      destruct Hin. apply elem_of_files_below. eauto. }
    assert (∀ p, ¬ below (seg_dir l) p → remove_paths (files_below (seg_dir l) fs) fs !! p = fs !! p) as Hkeep.
    { intros p Hp. rewrite remove_paths_lookup, decide_False by auto. done. }
    destruct faults as [|[[e n]|] faults]; cbn; (split; [|done || auto]); auto.
    intros p Hp. rewrite remove_paths_lookup, decide_False; [done|]. intros Hin.
    eapply Hout; [done|]. by eapply subseteq_take.
  - split; [done|]. intros _ p Hp. destruct (fs !! p) eqn:E; [|done].
    assert (p ∈ files_below (seg_dir l) fs) as Hin by (apply elem_of_files_below; eauto).
    rewrite He in Hin. by apply elem_of_nil in Hin.
Qed.

(** Deleting a segment removes its files and touches no other segment,
    whatever fails; with an empty id or a dot, which pass the validation, it
    removes the files of every segment. *)
Theorem delete_segment_files d id l fs :
  SegmentLayout_try_new d id = Ok l →
  let '(disk', o) := delete_all l fs in
  (id ≠ "" → id ≠ "." → ∀ id' p, validate_seg_id id' d = Ok tt → id' ≠ "" → id' ≠ "." → id' ≠ id →
     below (segment_dir d id') p → disk_files disk' !! p = disk_files fs !! p) ∧
  (o = Done (Ok tt) → ∀ p, below (segment_dir d id) p → disk_files disk' !! p = None) ∧
  (id = "" ∨ id = "." → o = Done (Ok tt) → ∀ id' p, validate_seg_id id' d = Ok tt →
     below (segment_dir d id') p → disk_files disk' !! p = None).
Proof.
  unfold SegmentLayout_try_new. destruct (validate_seg_id id d) as [[]|] eqn:Hv; cbn [result_bind]; [|done]. intros [= <-].
  pose proof (delete_all_post {| seg_dir := segment_dir d id |} fs) as Hpost.
  destruct (delete_all _ fs) as [disk' o]. cbn in Hpost. destruct Hpost as [Hkeep Hgone].
  pose proof Hv as (Hs & _)%validate_seg_id_ok. split; [|split; [exact Hgone|]].
  - intros H1 H2 id' p (Hs' & _)%validate_seg_id_ok H1' H2' Hne Hp. apply Hkeep. unfold below in *.
    rewrite components_segment_dir, normal_parts_one in * by done. intros Hb.
    destruct (prefix_weak_total _ _ _ Hp Hb) as [Hc|Hc]; apply prefix_app_inv, prefix_cons_inv_2, prefix_cons_inv_1 in Hc;
      congruence.
  - intros Hid Ho id' p (Hs' & _)%validate_seg_id_ok Hp. apply Hgone; [done|]. unfold below in *.
    rewrite components_segment_dir in * by done. etrans; [|exact Hp]. apply prefix_app, prefix_cons.
    destruct Hid as [-> | ->]; apply prefix_nil.
Qed.

Definition two_segments : Disk :=
  new_disk {["/data/segments/seg_1/a.vortex" := [1]; "/data/segments/seg_2/a.vortex" := [2]]}.

Lemma delete_segment_files_witness :
  disk_files (delete_all {| seg_dir := "/data/segments/seg_1" |} two_segments).1 !! "/data/segments/seg_2/a.vortex" = Some [2].
Proof.
  pose proof (delete_segment_files "/data" "seg_1" {| seg_dir := "/data/segments/seg_1" |} two_segments eq_refl) as H.
  destruct (delete_all _ two_segments) as [d' o] eqn:E. cbn [fst]. destruct H as [H _].
  rewrite (H ltac:(done) ltac:(done) "seg_2"); [done|done|done|done|done|].
  apply (bool_decide_unpack _). vm_compute. exact I.
Defined.

(** * Proofs: the cache *)

Lemma segment_meta_key_inj a b : segment_meta_key a = segment_meta_key b → a = b.
Proof. by intros ?%app_inv_head%as_bytes_inj. Qed.

Section coherence.
Context `{BoundedCacheLaws C CacheEntry} `{KVCounterLaws KV} `{CodecLaws SegmentMeta}.
Implicit Types (c : SegmentMetaCache C) (kv : KV) (m : SegmentMeta).

(** The bucket holds segment records under their keys and row counters. *)
Definition bucket_ok kv : Prop := ∀ k v, kv_abs kv CF_SEG_META !! k = Some v →
  (∃ m, decode v = Ok m ∧ k = segment_meta_key (seg_id m)) ∨ KEY_SEG_ROW_COUNT `prefix_of` k.

(** What the cache answers is what is stored. *)
Definition coherent kv c : Prop := ∀ id m, smc_get c id = Some m →
  seg_id m = id ∧ ∃ v, kv_abs kv CF_SEG_META !! segment_meta_key id = Some v ∧ decode v = Ok m.

(** The operations on the store and the cache, as their callers use them. *)
Inductive meta_step : KV * SegmentMetaCache C → KV * SegmentMetaCache C → Prop :=
  | step_put kv c m : meta_step (kv, c) (put_segment_meta_and_invalidate kv c m).1
  | step_status kv c id s : meta_step (kv, c) (update_segment_status kv c id s).1
  | step_repopulate kv c id : meta_step (kv, c) (kv, (get_with_repopulate c kv id).1)
  | step_cache_listed kv c ms m : list_segment_metas kv = Ok ms → m ∈ ms → meta_step (kv, c) (kv, (smc_put c m).1)
  | step_invalidate kv c id : meta_step (kv, c) (kv, smc_invalidate c id)
  | step_clear kv c : meta_step (kv, c) (kv, smc_clear c)
  | step_allocate kv c id d :
      meta_step (kv, c) ((kv_atomic_increment kv CF_SEG_META (segment_row_count_key id) d).1, c).

Definition meta_reachable : KV * SegmentMetaCache C → Prop :=
  λ s, ∃ kv0 n, (∀ k, kv_abs kv0 CF_SEG_META !! k = None) ∧ rtc meta_step (kv0, SegmentMetaCache_new n) s.

Lemma row_count_key_ne id k : segment_meta_key id ≠ segment_row_count_key k.
Proof. intros Heq. apply (f_equal (lookup 4%nat)) in Heq. vm_compute in Heq. discriminate. Qed.

Lemma put_segment_meta_abs kv m kv' : put_segment_meta kv m = (kv', Ok tt) →
  ∃ v, decode v = Ok m ∧ kv_abs kv' CF_SEG_META = <[segment_meta_key (seg_id m) := v]> (kv_abs kv CF_SEG_META).
Proof.
  unfold put_segment_meta, put_encoded. destruct (encode m) as [v|e] eqn:E; cbn [codec_err map_err]; [|done]. intros Hp. exists v.
  split; [by apply decode_encode|]. pose proof (kv_put_spec kv CF_SEG_META (segment_meta_key (seg_id m)) v CF_SEG_META) as Hs.
  rewrite Hp in Hs. exact Hs.
Qed.
Lemma put_segment_meta_err kv m kv' e : put_segment_meta kv m = (kv', Err e) →
  kv_abs kv' CF_SEG_META = kv_abs kv CF_SEG_META.
Proof.
  unfold put_segment_meta, put_encoded. destruct (encode m) as [v|e'] eqn:E; cbn [codec_err map_err]; [|by intros [= <- _]]. intros Hp.
  pose proof (kv_put_spec kv CF_SEG_META (segment_meta_key (seg_id m)) v CF_SEG_META) as Hs.
  rewrite Hp in Hs. exact Hs.
Qed.

Lemma smc_get_invalidate c id id' m : smc_get (smc_invalidate c id) id' = Some m → id' ≠ id ∧ smc_get c id' = Some m.
Proof.
  unfold smc_get, smc_invalidate. cbn. destruct (bc_get (bc_invalidate _ _) _) eqn:E; [|done].
  apply bc_get_invalidate in E as [? ->]. done.
Qed.

Lemma smc_get_put c m c' r id m' : smc_put c m = (c', r) → smc_get c' id = Some m' →
  (id = seg_id m ∧ m' = m) ∨ smc_get c id = Some m'.
Proof.
  unfold smc_put, smc_get. destruct (codec_err (encode m)); intros [= <- _]; cbn; [|by right].
  destruct (bc_get (bc_insert _ _ _) _) as [e|] eqn:E; [|done]. intros [= <-].
  apply bc_get_insert in E. case_decide; [subst; by left|]. right. by rewrite E.
Qed.

(** A record that is written under its key and leaves the cache. *)
Lemma store_and_invalidate kv c m kv' : bucket_ok kv → coherent kv c → put_segment_meta kv m = (kv', Ok tt) →
  bucket_ok kv' ∧ coherent kv' (smc_invalidate c (seg_id m)).
Proof.
  intros Hb Hc (v & Hv & Habs)%put_segment_meta_abs. split.
  - intros k v' Hk. rewrite Habs in Hk. apply lookup_insert_Some in Hk as [[<- <-]|[_ Hk]]; eauto.
  - intros id m' [Hne Hg]%smc_get_invalidate. destruct (Hc _ _ Hg) as (<- & v' & Hk & Hd). split; [done|].
    exists v'. rewrite Habs, lookup_insert_ne; [done|]. by intros ?%segment_meta_key_inj.
Qed.

Lemma store_failed kv c m kv' e : bucket_ok kv → coherent kv c → put_segment_meta kv m = (kv', Err e) →
  bucket_ok kv' ∧ coherent kv' c.
Proof. intros Hb Hc Heq%put_segment_meta_err. unfold bucket_ok, coherent. by rewrite Heq. Qed.

(** Caching a record of the store. *)
Lemma cache_stored kv c m k v : bucket_ok kv → coherent kv c → kv_abs kv CF_SEG_META !! k = Some v → decode v = Ok m →
  ¬ KEY_SEG_ROW_COUNT `prefix_of` k → coherent kv (smc_put c m).1.
Proof.
  intros Hb Hc Hk Hd Hp id m' Hg. destruct (smc_put c m) as [c' r] eqn:E.
  destruct (smc_get_put _ _ _ _ _ _ E Hg) as [[-> ->]|Hg']; [|by apply Hc]. split; [done|].
  destruct (Hb _ _ Hk) as [(m2 & Hd2 & ->)|?]; [|done]. exists v. assert (m2 = m) as -> by congruence. by split.
Qed.

Lemma meta_key_not_counter id : ¬ KEY_SEG_ROW_COUNT `prefix_of` segment_meta_key id.
Proof. intros [x Heq]. apply (f_equal (lookup 4%nat)) in Heq. vm_compute in Heq. discriminate. Qed.
Lemma repopulate_key_not_counter id : ¬ KEY_SEG_ROW_COUNT `prefix_of` repopulate_key id.
Proof. intros [x Heq]. apply (f_equal (lookup 4%nat)) in Heq. vm_compute in Heq. discriminate. Qed.

Lemma get_segment_meta_known kv id r : get_segment_meta kv id = Ok r →
  match kv_abs kv CF_SEG_META !! segment_meta_key id with
  | Some v => ∃ m, decode v = Ok m ∧ r = Some m
  | None => r = None
  end.
Proof.
  unfold get_segment_meta. destruct (kv_get kv _ _) as [o|] eqn:E; cbn [result_bind]; [|by intros [=]].
  apply kv_get_spec in E. subst o.
  destruct (kv_abs kv CF_SEG_META !! _) as [v|]; [|by intros [= <-]].
  destruct (decode v) as [m|]; cbn; [|by intros [=]]. intros [= <-]. eauto.
Qed.

Lemma decode_metas_elem l ms m : decode_metas l = Ok ms → m ∈ ms → ∃ k v, (k, v) ∈ l ∧ decode v = Ok m.
Proof.
  revert ms. induction l as [|[k v] l IH]; intros ms; cbn; [intros [= <-] ?%elem_of_nil; done|].
  destruct (decode v) as [m'|] eqn:E; cbn; [|done]. destruct (decode_metas l) as [ms'|]; cbn; [|done]. intros [= <-].
  intros [->|Hin]%elem_of_cons; [exists k, v; split; [by left|done]|].
  destruct (IH _ eq_refl Hin) as (k' & v' & ? & ?). exists k', v'. split; [by right|done].
Qed.

Lemma list_segment_metas_elem kv ms m : list_segment_metas kv = Ok ms → m ∈ ms →
  ∃ k v, KEY_SEGMENT_META `prefix_of` k ∧ kv_abs kv CF_SEG_META !! k = Some v ∧ decode v = Ok m.
Proof.
  unfold list_segment_metas. destruct (kv_prefix kv _ _) as [l|] eqn:E; cbn; [|done]. intros Hd Hin.
  destruct (decode_metas_elem _ _ _ Hd Hin) as (k & v & Hl & Hm). apply kv_prefix_spec in E.
  rewrite E, list_elem_of_filter in Hl. destruct Hl as [Hp Hl%elem_of_map_to_list]. eauto.
Qed.

Lemma meta_prefix_not_counter k : KEY_SEGMENT_META `prefix_of` k → ¬ KEY_SEG_ROW_COUNT `prefix_of` k.
Proof. intros [x ->] [y Heq]. apply (f_equal (lookup 4%nat)) in Heq. vm_compute in Heq. discriminate. Qed.

Lemma meta_step_inv s s' : meta_step s s' → bucket_ok s.1 ∧ coherent s.1 s.2 → bucket_ok s'.1 ∧ coherent s'.1 s'.2.
Proof.
  destruct 1 as [kv c m|kv c id st|kv c id|kv c ms m Hl Hin|kv c id|kv c|kv c id d]; cbn; intros [Hb Hc].
  - unfold put_segment_meta_and_invalidate. destruct (put_segment_meta kv m) as [kv' [[]|e]] eqn:E; cbn;
      [by eapply store_and_invalidate|by eapply store_failed].
  - unfold update_segment_status. destruct (get_segment_meta kv id) as [[m|]|] eqn:Eg; cbn; [|done..].
    apply get_segment_meta_known in Eg. destruct (kv_abs kv CF_SEG_META !! _) as [v|] eqn:Ek; [|done].
    destruct Eg as (m' & Hd & [= ->]). destruct (Hb _ _ Ek) as [(m2 & Hd2 & Hk)|Hp];
      [|by apply meta_key_not_counter in Hp].
    assert (seg_id m' = id) as <-.
    { apply segment_meta_key_inj in Hk. congruence. }
    destruct (put_segment_meta kv _) as [kv' [[]|e]] eqn:E; cbn; [|by eapply store_failed].
    change (seg_id m') with (seg_id (set_status m' st)). by eapply store_and_invalidate.
  - split; [done|]. unfold get_with_repopulate. destruct (smc_get c id) eqn:Eg; [done|].
    destruct (kv_get kv _ _) as [[v|]|] eqn:Ek; [|done..]. apply kv_get_spec in Ek.
    destruct (decode v) as [m|] eqn:Ed; cbn; [|done].
    pose proof (cache_stored kv c m _ v Hb Hc (eq_sym Ek) Ed (repopulate_key_not_counter id)) as Hp.
    destruct (smc_put c m) as [c' [[]|]]; exact Hp.
  - split; [done|]. destruct (list_segment_metas_elem _ _ _ Hl Hin) as (k & v & Hp & Hk & Hd).
    eapply cache_stored; [done..|]. by apply meta_prefix_not_counter.
  - split; [done|]. intros id' m [_ Hg]%smc_get_invalidate. by apply Hc.
  - split; [done|]. intros id m. unfold smc_get. cbn. by rewrite bc_get_invalidate_all.
  - destruct (kv_atomic_increment kv _ _ d) as [kv' [v|e]] eqn:E; cbn.
    + apply kv_increment_ok in E as (_ & bs & _ & Habs). specialize (Habs CF_SEG_META). rewrite bool_decide_true in Habs by done.
      split.
      * intros k v' Hk. rewrite Habs in Hk. apply lookup_insert_Some in Hk as [[<- <-]|[_ Hk]]; [|by apply Hb].
        right. by exists (as_bytes id).
      * intros id' m Hg. destruct (Hc _ _ Hg) as (? & v' & Hk & Hd). split; [done|]. exists v'.
        rewrite Habs, lookup_insert_ne; [done|]. apply not_eq_sym, row_count_key_ne.
    + assert (kv_abs kv' CF_SEG_META = kv_abs kv CF_SEG_META) as Heq by by eapply kv_increment_err.
      unfold bucket_ok, coherent. by rewrite Heq.
Qed.

Lemma meta_steps_inv s s' : rtc meta_step s s' → bucket_ok s.1 ∧ coherent s.1 s.2 → bucket_ok s'.1 ∧ coherent s'.1 s'.2.
Proof. induction 1 as [x|x y z Hxy _ IH]; [done|]. intros Hx. apply IH. by eapply meta_step_inv. Qed.

Lemma meta_reachable_inv s : meta_reachable s → bucket_ok s.1 ∧ coherent s.1 s.2.
Proof.
  intros (kv0 & n & Hempty & Hsteps). eapply meta_steps_inv; [exact Hsteps|].
  split; [intros k v Hk; cbn in Hk; by rewrite Hempty in Hk|]. intros id m. unfold smc_get. cbn. by rewrite bc_get_new.
Qed.

(** Over every sequence of the operations that write segment records, change a
    status, fill, invalidate or clear the cache or allocate rows, with any
    eviction and any failing write, a cached record is the one the store returns. *)
Theorem segment_meta_cache_coherent kv c id m r :
  meta_reachable (kv, c) → smc_get c id = Some m → get_segment_meta kv id = Ok r → r = Some m.
Proof.
  intros [_ Hc]%meta_reachable_inv Hg Hr. destruct (Hc _ _ Hg) as (_ & v & Hk & Hd).
  apply get_segment_meta_known in Hr. cbn [fst] in Hk. rewrite Hk in Hr. destruct Hr as (m' & Hd' & ->). congruence.
Qed.

(** The read-through lookup never finds a record in the store: it reads under a
    key without the separator that the records are written with, so for every id
    that does not itself begin with a colon a miss in the cache is the answer. *)
Theorem repopulate_misses kv c id r :
  meta_reachable (kv, c) → smc_get c id = None → as_bytes id !! 0%nat ≠ Some 58 →
  (get_with_repopulate c kv id).2 = Ok r → r = None.
Proof.
  intros [Hb _]%meta_reachable_inv Hg Hid. unfold get_with_repopulate. rewrite Hg.
  destruct (kv_get kv CF_SEG_META (repopulate_key id)) as [[v|]|] eqn:E; cbn [snd]; [|by intros [= <-]|done].
  apply kv_get_spec in E. cbn in Hb. symmetry in E. destruct (Hb _ _ E) as [(m & _ & Hk)|Hp].
  - destruct Hid. change (as_bytes id !! 0%nat) with (repopulate_key id !! 8%nat). by rewrite Hk.
  - by apply repopulate_key_not_counter in Hp.
Qed.
End coherence.

(** ** Concrete instances *)

(** A cache that drops everything when it is full. *)
Record MapCache (V : Type) := { mc_capacity : Z; mc_map : gmap string V }.
Arguments mc_capacity {V} _.
Arguments mc_map {V} _.
#[export] Instance MapCache_cache V : BoundedCache (MapCache V) V := {
  bc_new n := {| mc_capacity := n; mc_map := ∅ |};
  bc_get c k := mc_map c !! k;
  bc_insert c k v :=
    {| mc_capacity := mc_capacity c;
       mc_map := <[k := v]> (if Z.of_nat (size (mc_map c)) <? mc_capacity c then mc_map c else ∅) |};
  bc_invalidate c k := {| mc_capacity := mc_capacity c; mc_map := delete k (mc_map c) |};
  bc_invalidate_all c := {| mc_capacity := mc_capacity c; mc_map := ∅ |}
}.
#[export] Instance MapCache_laws V : BoundedCacheLaws (MapCache V) V.
Proof.
  split; cbn.
  - done.
  - intros c k k' v v'. case_decide as Hk; [subst; by rewrite lookup_insert_eq; intros [= ->]|].
    rewrite lookup_insert_ne by done. by case_match.
  - intros c k k' v' [? ?]%lookup_delete_Some. split; [by apply not_eq_sym|done].
  - done.
Qed.

Definition demo_meta : SegmentMeta := SegmentMeta_new 7 "seg_1" "t" [].
Definition demo_metas : list SegmentMeta := [demo_meta; set_status demo_meta Frozen].
#[local] Instance demo_meta_codec : Codec SegmentMeta := table_codec demo_metas.
#[local] Instance demo_meta_laws : CodecLaws SegmentMeta := table_codec_laws demo_metas.

Definition demo_meta_store : MemKV * SegmentMetaCache (MapCache CacheEntry) :=
  let '(kv, c, _) := put_segment_meta_and_invalidate mem_empty (SegmentMetaCache_new 4) demo_meta in (kv, c).
Definition demo_meta_cached : SegmentMetaCache (MapCache CacheEntry) :=
  (smc_put demo_meta_store.2 demo_meta).1.

Lemma demo_meta_reachable : meta_reachable demo_meta_store.
Proof.
  exists mem_empty, 4. split; [done|]. apply rtc_once.
  exact (step_put mem_empty (SegmentMetaCache_new 4) demo_meta).
Qed.

Lemma segment_meta_cache_coherent_witness : get_segment_meta demo_meta_store.1 "seg_1" = Ok (Some demo_meta).
Proof.
  destruct (get_segment_meta demo_meta_store.1 "seg_1") as [r|e] eqn:E; [|vm_compute in E; discriminate].
  rewrite (segment_meta_cache_coherent demo_meta_store.1 demo_meta_cached "seg_1" demo_meta r); [done| |done|exact E].
  destruct demo_meta_reachable as (kv0 & n & H1 & H2). exists kv0, n. split; [exact H1|]. eapply rtc_r; [exact H2|].
  apply (step_cache_listed _ _ [demo_meta]); [vm_compute; reflexivity|by left].
Defined.

Lemma repopulate_misses_witness :
  (get_with_repopulate demo_meta_store.2 demo_meta_store.1 "seg_1").2 = Ok None ∧
  get_segment_meta demo_meta_store.1 "seg_1" = Ok (Some demo_meta).
Proof.
  split; [|vm_compute; reflexivity].
  destruct (get_with_repopulate demo_meta_store.2 demo_meta_store.1 "seg_1").2 as [r|e] eqn:E;
    [|vm_compute in E; discriminate].
  by rewrite (repopulate_misses demo_meta_store.1 demo_meta_store.2 "seg_1" r demo_meta_reachable).
Defined.

(** ** Statistics and column types *)

Lemma from_to_arrow t : from_arrow (to_arrow t) = t.
Proof. by destruct t. Qed.

Definition granule_of (rows deleted : Z) : GranuleMeta :=
  {| g_granule_id := 0; g_min_key := []; g_max_key := []; g_row_count := rows; g_del_count := deleted;
     g_zone_map := None; g_has_block_zm := false; g_vis_dirty := false |}.
Definition meta_with (gs : list GranuleMeta) : SegmentMeta :=
  {| seg_id := "s"; table_id := "t"; status := Active; seg_type := TDelta; columns := []; min_key := []; max_key := [];
     row_count := 0; alive_row_count := 0; del_ratio := f64_of_Z 0; size_bytes := 0; created_txn := 0; updated_txn := 0;
     updated_at := 0; file_paths := []; granules := gs; has_visibility_columns := true; delta_file_id := None;
     delta_row_count := 0; delta_l1_bytes := 0 |}.

(** The alive count goes through the rounded ratio: of 100 rows with 93 deleted,
    seven are alive and six are counted. *)
Lemma alive_rows_rounds :
  alive_row_count (update_del_stats (meta_with [granule_of 60 53; granule_of 40 40])) = 6.
Proof. vm_compute. reflexivity. Qed.

(** The row counter of a table and the statistics of another can share a key. *)
Lemma row_count_key_clash t : table_row_count_key t = table_stats_key (t +:+ ":row_count").
Proof.
  unfold table_row_count_key, table_stats_key. f_equal. induction t as [|c t IH]; [done|]. cbn [as_bytes].
  change (String c t +:+ ":row_count") with (String c (t +:+ ":row_count")). cbn [as_bytes]. by rewrite <- IH.
Qed.
