(* ===== verification/BloomCache.v ===== *)
(** The cache of segment Bloom filters (db.rs [BoundedBloomFilterCache]): a map,
    the keys in order of use and the position of every key in that order.  The
    filter type is a parameter.  The locks are not reentrant: a call that takes a
    lock it holds never returns, which is [None] here. *)

From stdpp Require Import base gmap strings list.
From S2P Require Import Prelude.

Local Open Scope Z_scope.

Record BoundedBloomFilterCache (B : Type) := {
  bfc_inner : gmap string B;
  insertion_order : list string;
  position_index : gmap string Z;
  bfc_capacity : Z
}.
Arguments Build_BoundedBloomFilterCache {B} _ _ _ _.
Arguments bfc_inner {B} _.
Arguments insertion_order {B} _.
Arguments position_index {B} _.
Arguments bfc_capacity {B} _.

(** [VecDeque::remove]: nothing happens out of range. *)
Definition deque_remove {A} (pos : Z) (l : list A) : list A :=
  if pos <? zlen l then take (Z.to_nat pos) l ++ drop (S (Z.to_nat pos)) l else l.

Section bloom_cache.
Context {B : Type}.
Implicit Types c : BoundedBloomFilterCache B.

Definition BoundedBloomFilterCache_new (capacity : Z) : BoundedBloomFilterCache B :=
  {| bfc_inner := ∅; insertion_order := []; position_index := ∅; bfc_capacity := capacity |}.

(** [for (i, k) in order.iter().enumerate() { idx.insert(k, i) }] *)
Fixpoint index_from (i : Z) (order : list string) (idx : gmap string Z) : gmap string Z :=
  match order with
  | [] => idx
  | k :: order' => index_from (i + 1) order' (<[k := i]> idx)
  end.

Definition evict_one c : BoundedBloomFilterCache B :=
  match insertion_order c with
  | [] => c
  | oldest :: order =>
      {| bfc_inner := delete oldest (bfc_inner c); insertion_order := order;
         position_index := index_from 0 order (delete oldest (position_index c));
         bfc_capacity := bfc_capacity c |}
  end.

(** [push_back_lru] and [push_back_lru_under_lock] *)
Definition push_back_lru c (key : string) : BoundedBloomFilterCache B :=
  let order := insertion_order c ++ [key] in
  {| bfc_inner := bfc_inner c; insertion_order := order;
     position_index := <[key := zlen order - 1]> (position_index c); bfc_capacity := bfc_capacity c |}.

Definition set_inner c (m : gmap string B) : BoundedBloomFilterCache B :=
  {| bfc_inner := m; insertion_order := insertion_order c; position_index := position_index c;
     bfc_capacity := bfc_capacity c |}.

Definition bfc_insert c (key : string) (bf : B) : BoundedBloomFilterCache B :=
  let c := push_back_lru (evict_one c) key in set_inner c (<[key := bf]> (bfc_inner c)).

(** The positions of the first [pos] keys are decremented, in [usize]. *)
Definition decrement_positions (ks : list string) (idx : gmap string Z) : gmap string Z :=
  foldl (λ idx k, match idx !! k with Some p => <[k := wrap64 (p - 1)]> idx | None => idx end) idx ks.

(** [refresh_lru_position] and [refresh_lru_position_under_lock] *)
Definition refresh_lru_position c (key : string) : BoundedBloomFilterCache B :=
  let pos := default u64_max (position_index c !! key) in
  if pos =? u64_max then c else
  let order := insertion_order c in
  let new_pos := saturating_sub (zlen order) 1 in
  if pos <? new_pos then
    let order := deque_remove pos order ++ [key] in
    {| bfc_inner := bfc_inner c; insertion_order := order;
       position_index := decrement_positions (take (Z.to_nat pos) order) (<[key := new_pos]> (position_index c));
       bfc_capacity := bfc_capacity c |}
  else c.

(** [evict_one_under_lock] takes the write lock of [inner], which
    [get_or_insert_with] holds, as soon as there is a key to evict. *)
Definition evict_one_under_lock c : option (BoundedBloomFilterCache B) :=
  match insertion_order c with
  | [] => Some c
  | _ :: _ => None
  end.

Definition get_or_insert_with c (key : string) (f : B) : option (BoundedBloomFilterCache B * B) :=
  match bfc_inner c !! key with
  | Some bf => Some (refresh_lru_position c key, bf)
  | None =>
      c ← (if bfc_capacity c <=? Z.of_nat (size (bfc_inner c)) then evict_one_under_lock c else Some c);
      let c := push_back_lru c key in
      Some (set_inner c (<[key := f]> (bfc_inner c)), f)
  end.

Definition rebuild_position_index c : BoundedBloomFilterCache B :=
  {| bfc_inner := bfc_inner c; insertion_order := insertion_order c;
     position_index := index_from 0 (insertion_order c) ∅; bfc_capacity := bfc_capacity c |}.

Definition bfc_remove c (key : string) : BoundedBloomFilterCache B :=
  match position_index c !! key with
  | Some pos =>
      let order := deque_remove pos (insertion_order c) in
      {| bfc_inner := delete key (bfc_inner c); insertion_order := order;
         position_index := index_from 0 order ∅; bfc_capacity := bfc_capacity c |}
  | None => set_inner c (delete key (bfc_inner c))
  end.

Definition bfc_len c : Z := Z.of_nat (size (bfc_inner c)).
Definition bfc_is_empty c : bool := bfc_len c =? 0.
Definition bfc_iter c : list (string * B) := map_to_list (bfc_inner c).

(** [open_with_config]: one [insert] for every filter file. *)
Definition load_filters c (files : list (string * B)) : BoundedBloomFilterCache B :=
  foldl (λ c e, bfc_insert c e.1 e.2) c files.

(** * Proofs *)

Lemma refresh_inner c key : bfc_inner (refresh_lru_position c key) = bfc_inner c.
Proof. unfold refresh_lru_position. by repeat case_match. Qed.

(** The order lists every cached key. *)
Definition ordered c : Prop := ∀ k, is_Some (bfc_inner c !! k) → k ∈ insertion_order c.

Lemma insert_single c key bf : ordered c → (length (insertion_order c) ≤ 1)%nat →
  let c' := bfc_insert c key bf in bfc_inner c' = {[key := bf]} ∧ insertion_order c' = [key].
Proof.
  intros Hord Hl. destruct (insertion_order c) as [|oldest [|]] eqn:E; cbn in Hl; [| |lia];
    unfold bfc_insert, evict_one; rewrite E; cbn.
  - rewrite E. split; [|done]. assert (bfc_inner c = ∅) as ->; [|done].
    apply map_empty. intros k. apply eq_None_not_Some. intros Hk%Hord. rewrite E in Hk. by apply elem_of_nil in Hk.
  - split; [|done]. assert (delete oldest (bfc_inner c) = ∅) as ->; [|done].
    apply map_empty. intros k. destruct (decide (k = oldest)) as [->|Hne]; [apply lookup_delete_eq|].
    rewrite lookup_delete_ne by done. apply eq_None_not_Some. intros Hk%Hord. rewrite E in Hk. set_solver.
Qed.

(** Loading the filter files when the database opens keeps only the last of
    them: [insert] evicts an entry whether or not the cache is full. *)
Theorem bloom_load_keeps_last capacity (files : list (string * B)) k bf :
  bfc_inner (load_filters (BoundedBloomFilterCache_new capacity) (files ++ [(k, bf)])) = {[k := bf]}.
Proof.
  unfold load_filters. rewrite foldl_app. cbn.
  assert (∀ c, ordered c → (length (insertion_order c) ≤ 1)%nat →
    let c' := foldl (λ c e, bfc_insert c e.1 e.2) c files in
    ordered c' ∧ (length (insertion_order c') ≤ 1)%nat) as Hfold.
  { induction files as [|[k' bf'] files IH]; intros c Ho Hl; [done|]. cbn. apply IH.
    - destruct (insert_single c k' bf' Ho Hl) as [Hi Hr]. intros x. rewrite Hi, Hr. intros [? ?%lookup_singleton_Some].
      set_solver.
    - destruct (insert_single c k' bf' Ho Hl) as [_ ->]. done. }
  destruct (Hfold (BoundedBloomFilterCache_new capacity)) as [Ho Hl]; [|cbn; lia|].
  - intros x [y Hy]. done.
  - by apply insert_single.
Qed.

(** A lookup returns the cached filter of the segment, or caches and returns
    the new one, and changes the filter of no other segment; at capacity a lookup
    of a segment that is not cached waits for a lock the call holds and never
    returns. *)
Theorem bloom_get_or_insert c key f :
  (bfc_len c < bfc_capacity c ∨ is_Some (bfc_inner c !! key) ∨ insertion_order c = [] →
   ∃ c', get_or_insert_with c key f = Some (c', default f (bfc_inner c !! key)) ∧
     bfc_inner c' = <[key := default f (bfc_inner c !! key)]> (bfc_inner c)) ∧
  (bfc_capacity c ≤ bfc_len c → bfc_inner c !! key = None → insertion_order c ≠ [] → get_or_insert_with c key f = None).
Proof.
  unfold get_or_insert_with, bfc_len. split.
  - intros Hc. destruct (bfc_inner c !! key) as [bf|] eqn:E; cbn.
    + eexists. split; [done|]. rewrite refresh_inner. by rewrite insert_id.
    + destruct (Z.leb_spec (bfc_capacity c) (Z.of_nat (size (bfc_inner c)))); cbn; [|by eexists].
      destruct Hc as [?|[[? ?]|Ho]]; [lia|done|]. unfold evict_one_under_lock. rewrite Ho. by eexists.
  - intros Hc -> Ho. rewrite (proj2 (Z.leb_le _ _)) by done. unfold evict_one_under_lock.
    by destruct (insertion_order c).
Qed.

Lemma bfc_remove_inner c key : bfc_inner (bfc_remove c key) = delete key (bfc_inner c).
Proof. unfold bfc_remove. by case_match. Qed.
End bloom_cache.

(** The positions go wrong with the first refresh of a key that is neither the
    first nor the last: the keys before it are decremented, not those behind. *)
Lemma refresh_corrupts_positions :
  let c := push_back_lru (push_back_lru (push_back_lru (BoundedBloomFilterCache_new (B := unit) 9) "a") "b") "c" in
  let c' := refresh_lru_position c "b" in
  insertion_order c' = ["a"; "c"; "b"] ∧ position_index c' !! "a" = Some u64_max ∧ position_index c' !! "c" = Some 2.
Proof. vm_compute. done. Qed.
