(* ===== verification/WalUtils.v ===== *)
(** Record batches as bytes (write/wal_utils.rs): the file and the stream format of
    Arrow IPC as an interface, and the functions that write and read one batch. *)

From stdpp Require Import base gmap strings list.
From S2P Require Import Prelude Kv Arrow.

Local Open Scope Z_scope.

(** [arrow_ipc]: writing a batch in either format, and reading, which gives the
    names of the schema and the batches. *)
Class ArrowIpc (Arr : Type) := {
  ipc_file_write : RecordBatch Arr → result string bytes;
  ipc_file_read : bytes → result string (list string * list (result string (RecordBatch Arr)));
  ipc_stream_write : RecordBatch Arr → result string bytes;
  ipc_stream_read : bytes → result string (list (result string (RecordBatch Arr)))
}.
#[global] Hint Mode ArrowIpc ! : typeclass_instances.

(** A written batch is read back in its own format; a file has magic bytes that a
    stream has not. *)
Class ArrowIpcLaws (Arr : Type) `{ArrowIpc Arr} := {
  ipc_file_ok : ∀ (b : RecordBatch Arr) bs, ipc_file_write b = Ok bs →
    bs ≠ [] ∧ ipc_file_read bs = Ok (f_name <$> rb_fields b, [Ok b]);
  ipc_stream_ok : ∀ (b : RecordBatch Arr) bs, ipc_stream_write b = Ok bs → bs ≠ [] ∧ ipc_stream_read bs = Ok [Ok b];
  ipc_stream_not_file : ∀ (b : RecordBatch Arr) bs, ipc_stream_write b = Ok bs → ∃ e, ipc_file_read (Arr := Arr) bs = Err e
}.
#[global] Hint Mode ArrowIpcLaws ! - : typeclass_instances.

(** [arr.slice(0, 1)] panics on an empty array. *)
Definition slice_first {Arr} `{Arrow Arr} (a : Arr) : outcome Arr :=
  if 1 <=? arr_len a then Done (arr_build (arr_type a) [arr_slot a 0]) else Panic.

Section wal_utils.
Context `{Arrow Arr} `{!Batches Arr} `{!ArrowIpc Arr}.

Definition batch_to_bytes (b : RecordBatch Arr) : Result bytes :=
  map_err (λ e, ECodec ("IPC write error: " +:+ e)) (ipc_file_write b).

Definition bytes_to_batch (buf : bytes) : Result (RecordBatch Arr) :=
  r <-? map_err (λ e, ECodec ("IPC read error: " +:+ e)) (ipc_file_read buf);
  match r.2 with
  | Ok b :: _ => Ok b
  | Err e :: _ => Err (ECodec ("IPC read error: " +:+ e))
  | [] => Err (ECodec "Empty IPC file")
  end.

Definition batch_to_ipc_stream (b : RecordBatch Arr) : Result bytes :=
  map_err (λ e, ECodec ("IPC stream write: " +:+ e)) (ipc_stream_write b).

Definition ipc_stream_to_batch (buf : bytes) : Result (RecordBatch Arr) :=
  if bool_decide (buf = []) then Err (ECodec "Empty IPC stream") else
  r <-? map_err (λ e, ECodec ("IPC stream read error: " +:+ e)) (ipc_stream_read buf);
  match r with
  | Ok b :: _ => Ok b
  | Err e :: _ => Err (ECodec ("IPC stream batch error: " +:+ e))
  | [] => Err (ECodec "Empty IPC stream")
  end.

Definition batch_to_raw_bytes (_ : RecordBatch Arr) : Result bytes :=
  Err (ECodec "Level 3 raw bytes (batch_to_raw_bytes) is deferred: requires arrow 58 API work").
Definition raw_bytes_to_batch (_ : bytes) (_ : list Field) : Result (RecordBatch Arr) :=
  Err (ECodec "Level 3 raw bytes (raw_bytes_to_batch) is deferred: requires arrow 58 API work").

Definition arrow_to_bytes (a : Arr) : outcome (option bytes) :=
  match slice_first a with
  | Panic => Panic
  | Done s =>
      Done match try_new [{| f_name := "val"; f_type := arr_type a; f_nullable := true |}] [s] with
           | Ok b => match batch_to_bytes b with Ok bs => Some bs | Err _ => None end
           | Err _ => None
           end
  end.

Lemma ipc_stream_roundtrip `{!ArrowIpcLaws Arr} (b : RecordBatch Arr) bs :
  batch_to_ipc_stream b = Ok bs → ipc_stream_to_batch bs = Ok b.
Proof.
  unfold batch_to_ipc_stream, ipc_stream_to_batch. destruct (ipc_stream_write b) as [bs'|] eqn:E; [|done].
  intros [= ->]. destruct (ipc_stream_ok _ _ E) as [Hne Hr]. by rewrite bool_decide_false, Hr.
Qed.
Lemma ipc_file_roundtrip `{!ArrowIpcLaws Arr} (b : RecordBatch Arr) bs :
  batch_to_bytes b = Ok bs → bytes_to_batch bs = Ok b.
Proof.
  unfold batch_to_bytes, bytes_to_batch. destruct (ipc_file_write b) as [bs'|] eqn:E; [|done].
  intros [= ->]. destruct (ipc_file_ok _ _ E) as [_ Hr]. by rewrite Hr.
Qed.
End wal_utils.

(** ** A concrete instance *)

#[export] Instance Field_eq_dec : EqDecision Field.
Proof. solve_decision. Defined.
#[export] Instance ListArray_eq_dec : EqDecision ListArray.
Proof. solve_decision. Defined.
#[export] Instance RecordBatch_eq_dec `{EqDecision Arr} : EqDecision (RecordBatch Arr).
Proof. solve_decision. Defined.

(** The batches of a list, written as a format byte and their position. *)
Definition ipc_write_at (fmt : Z) (l : list (RecordBatch ListArray)) (b : RecordBatch ListArray) : result string bytes :=
  match position b l with Some i => Ok [fmt; Z.of_nat i] | None => Err "unsupported batch" end.
Definition ipc_read_at (fmt : Z) (l : list (RecordBatch ListArray)) (bs : bytes) : result string (RecordBatch ListArray) :=
  match bs with
  | [f; i] => if f =? fmt then match l !! Z.to_nat i with Some b => Ok b | None => Err "corrupt" end else Err "bad magic"
  | _ => Err "bad length"
  end.
Definition table_ipc (l : list (RecordBatch ListArray)) : ArrowIpc ListArray := {|
  ipc_file_write := ipc_write_at 70 l;
  ipc_file_read bs := match ipc_read_at 70 l bs with Ok b => Ok (f_name <$> rb_fields b, [Ok b]) | Err e => Err e end;
  ipc_stream_write := ipc_write_at 83 l;
  ipc_stream_read bs := match ipc_read_at 83 l bs with Ok b => Ok [Ok b] | Err e => Err e end |}.
Lemma table_ipc_laws l : @ArrowIpcLaws ListArray (table_ipc l).
Proof.
  split; cbn; intros b bs; unfold ipc_write_at; destruct (position b l) eqn:E; try done; intros [= <-]; cbn;
    rewrite ?Nat2Z.id, ?(position_lookup _ _ _ E); by eauto.
Qed.
