(* ===== verification/Cdc.v ===== *)
(** Change data capture: the log buffer and its records (cdc/log.rs), the
    per-transaction collector (cdc/mod.rs) and the change stream over the delta
    layers and over the log (cdc/stream.rs). *)

From stdpp Require Import base gmap strings list sorting.
From S2P Require Import Prelude Kv Arrow Roaring DeltaTypes DeltaMerge Wal MemStore Frozen LayerStack WalUtils.

Local Open Scope Z_scope.

(** * cdc/log.rs *)

Inductive CdcOpType := CdcInsert | CdcUpdate | CdcDelete.

Record CdcLogEntry := {
  cle_op : CdcOpType;
  cle_table : string;
  cle_seg_id : string;
  cle_pk : bytes;
  cle_before : list (string * bytes);
  cle_after : list (string * bytes);
  cle_txn_id : Z;
  cle_ts : Z
}.

Record CdcLogBuffer := { clb_entries : list CdcLogEntry; clb_max_size : Z; clb_dropped_count : Z }.

(** [CdcLogError::BufferFull] *)
Inductive CdcLogError := BufferFull (dropped : Z).

Definition CdcLogBuffer_new (max_size : Z) : CdcLogBuffer :=
  {| clb_entries := []; clb_max_size := max_size; clb_dropped_count := 0 |}.

Definition clb_push (b : CdcLogBuffer) (e : CdcLogEntry) : CdcLogBuffer * result CdcLogError unit :=
  if clb_max_size b <=? zlen (clb_entries b) then
    let dropped := wrap64 (clb_dropped_count b + 1) in
    ({| clb_entries := clb_entries b; clb_max_size := clb_max_size b; clb_dropped_count := dropped |},
     Err (BufferFull dropped))
  else ({| clb_entries := clb_entries b ++ [e]; clb_max_size := clb_max_size b; clb_dropped_count := clb_dropped_count b |},
        Ok tt).

Definition clb_clear (b : CdcLogBuffer) : CdcLogBuffer :=
  {| clb_entries := []; clb_max_size := clb_max_size b; clb_dropped_count := clb_dropped_count b |}.

(** [CdcOp], the record of the CDC log, has the fields of an entry. *)
Record CdcOp := {
  co_op : CdcOpType;
  co_table : string;
  co_seg_id : string;
  co_pk : bytes;
  co_before : list (string * bytes);
  co_after : list (string * bytes);
  co_txn_id : Z;
  co_ts : Z
}.
Definition CdcOp_from_entry (e : CdcLogEntry) : CdcOp :=
  {| co_op := cle_op e; co_table := cle_table e; co_seg_id := cle_seg_id e; co_pk := cle_pk e;
     co_before := cle_before e; co_after := cle_after e; co_txn_id := cle_txn_id e; co_ts := cle_ts e |}.

(** * cdc/mod.rs *)

Record TxnDeltaEntry := {
  tde_seg_id : string;
  tde_row_offset : Z;
  tde_column : string;
  tde_before : option bytes;
  tde_after : option bytes;
  tde_op : CdcOpType
}.
Record TxnDeltaCollector := {
  tdc_txn_id : Z;
  tdc_table : string;
  tdc_pk : bytes;
  tdc_entries : list TxnDeltaEntry
}.
Definition TxnDeltaCollector_new (txn_id : Z) (table : string) : TxnDeltaCollector :=
  {| tdc_txn_id := txn_id; tdc_table := table; tdc_pk := []; tdc_entries := [] |}.
Definition set_pk (c : TxnDeltaCollector) (pk : bytes) : TxnDeltaCollector :=
  {| tdc_txn_id := tdc_txn_id c; tdc_table := tdc_table c;
     tdc_pk := if bool_decide (tdc_pk c = []) then pk else tdc_pk c; tdc_entries := tdc_entries c |}.
Definition push_cell (c : TxnDeltaCollector) (seg : string) (row : Z) (col : string) (before after : option bytes)
    (op : CdcOpType) : TxnDeltaCollector :=
  {| tdc_txn_id := tdc_txn_id c; tdc_table := tdc_table c; tdc_pk := tdc_pk c;
     tdc_entries := tdc_entries c ++
       [{| tde_seg_id := seg; tde_row_offset := row; tde_column := col; tde_before := before; tde_after := after;
           tde_op := op |}] |}.
Definition push_row (c : TxnDeltaCollector) (_ : string) (_ : Z) (_ : CdcOpType) : TxnDeltaCollector := c.
Definition into_delta_cells (c : TxnDeltaCollector) : list DeltaCell :=
  (λ e, {| seg_id := tde_seg_id e; row_offset := tde_row_offset e; column := tde_column e; txn_id := tdc_txn_id c;
           before := tde_before e; after := tde_after e; committed := true; ts := as_i64 (tdc_txn_id c) |})
  <$> tdc_entries c.

(** * cdc/stream.rs *)

Inductive CellOp := CellInsert | CellUpdate | CellDelete.
Definition CellOp_from_delta (d : DeltaCell) : CellOp :=
  if is_insert d then CellInsert else if is_delete d then CellDelete else CellUpdate.
Definition CellOp_as_str (o : CellOp) : string :=
  match o with CellInsert => "insert" | CellUpdate => "update" | CellDelete => "delete" end.

Record CellChange := {
  cc_table : string;
  cc_seg_id : string;
  cc_col : string;
  cc_row_offset : Z;
  cc_op : CellOp;
  cc_before : option bytes;
  cc_after : option bytes;
  cc_txn_id : Z
}.
Definition CellChange_from (table : string) (d : DeltaCell) : CellChange :=
  {| cc_table := table; cc_seg_id := seg_id d; cc_col := column d; cc_row_offset := row_offset d;
     cc_op := CellOp_from_delta d; cc_before := before d; cc_after := after d; cc_txn_id := txn_id d |}.

Record ChangeBatch := { cb_txn_id : Z; cb_changes : list CellChange }.

Inductive ChangeEvent :=
  | TransactionBegin (txn_id : Z)
  | TransactionCommit (txn_id commit_ts : Z)
  | EvCellChange (c : CellChange).

Record CdcReplayHotspotStats := { read_calls : Z; scanned_segments : Z; collected_deltas : Z }.

(** The projection contract of a stream is constant and enforced, so its
    assertion holds. *)
Record ChangeStream := { since_txn : Z; hotspot_stats : CdcReplayHotspotStats }.
Definition from_txn (since : Z) : ChangeStream :=
  {| since_txn := since; hotspot_stats := {| read_calls := 0; scanned_segments := 0; collected_deltas := 0 |} |}.

(** [txn_groups.entry(txn).or_default().push(change)] *)
Definition add_change (m : gmap Z (list CellChange)) (txn : Z) (cs : list CellChange) : gmap Z (list CellChange) :=
  <[txn := default [] (m !! txn) ++ cs]> m.

(** The order of the changes of a transaction. *)
Definition change_le (a b : CellChange) : bool :=
  negb (ltb ((cc_seg_id b, cc_row_offset b), cc_col b) ((cc_seg_id a, cc_row_offset a), cc_col a)).
Definition batch_le (a b : ChangeBatch) : bool := cb_txn_id a <=? cb_txn_id b.

Section stream.
Context `{WalLog W} `{DeltaDisk D} `{Arrow Arr} `{Roaring B} `{HashIter}.
Implicit Types st : DeltaLayerStack W D.

(** The loop over the segments; the segment id is passed as the table. *)
Fixpoint collect_segments st (segs : list string) (upto since delta_count : Z) (groups : gmap Z (list CellChange))
    : DeltaLayerStack W D * outcome (gmap Z (list CellChange) * Z) :=
  match segs with
  | [] => (st, Done (groups, delta_count))
  | seg :: segs' =>
      match query_all_layers (Arr := Arr) (B := B) st seg upto since with
      | (st, Panic) => (st, Panic)
      | (st, Done deltas) =>
          collect_segments st segs' upto since (delta_count + zlen deltas)
            (foldl (λ g d, add_change g (txn_id d) [CellChange_from seg d]) groups deltas)
      end
  end.

(** The batches of the collected groups. *)
Definition to_batches (sort : list CellChange → list CellChange) (groups : gmap Z (list CellChange)) : list ChangeBatch :=
  sort_by batch_le ((λ e, {| cb_txn_id := e.1; cb_changes := sort e.2 |}) <$> hash_iter groups).

Definition finish_read (s : ChangeStream) (seg_count delta_count : Z) (batches : list ChangeBatch) : ChangeStream :=
  {| since_txn := match last batches with Some b => cb_txn_id b | None => since_txn s end;
     hotspot_stats :=
       {| read_calls := wrap64 (read_calls (hotspot_stats s) + 1);
          scanned_segments := wrap64 (scanned_segments (hotspot_stats s) + seg_count);
          collected_deltas := wrap64 (collected_deltas (hotspot_stats s) + delta_count) |} |}.

(** One pass of the loop of [read_changes]: [Some] when the pass returns,
    [None] when it goes round.  [epoch_after] is the flush epoch at its end. *)
Definition read_pass (s : ChangeStream) st (upto captured_epoch epoch_after : Z)
    : DeltaLayerStack W D * option (ChangeStream * outcome (list ChangeBatch)) :=
  if upto <=? since_txn s then (st, Some (s, Done [])) else
  let segments := get_all_segment_ids st in
  match collect_segments st segments upto (since_txn s) 0 ∅ with
  | (st, Panic) => (st, Some (s, Panic))
  | (st, Done (groups, delta_count)) =>
      if epoch_after =? captured_epoch then
        let batches := to_batches (sort_by change_le) groups in
        (st, Some (finish_read s (zlen segments) delta_count batches, Done batches))
      else (st, None)
  end.

(** What a pass finds: other threads move between the passes. *)
Record PassEnv := { pe_stack : DeltaLayerStack W D; pe_committed : Z; pe_epoch_after : Z }.

(** [read_changes] against the states its passes find; [None] means that these
    passes are not enough. *)
Fixpoint read_changes (s : ChangeStream) (captured_epoch : Z) (passes : list PassEnv)
    : option (ChangeStream * outcome (list ChangeBatch)) :=
  match passes with
  | [] => None
  | p :: passes' =>
      match (read_pass s (pe_stack p) (pe_committed p) captured_epoch (pe_epoch_after p)).2 with
      | Some r => Some r
      | None => read_changes s captured_epoch passes'
      end
  end.

(** [pending_delta_count] *)
Definition pending_delta_count (s : ChangeStream) st (upto : Z) (cts : gmap TxnId Z) (active : gset TxnId)
    : DeltaLayerStack W D * outcome Z :=
  let segments := get_all_segment_ids st in
  if bool_decide (segments = []) then (st, Done 0) else
  match query_batch (Arr := Arr) (B := B) st segments upto cts active with
  | (st, Panic) => (st, Panic)
  | (st, Done (Err _)) => (st, Done 0)
  | (st, Done (Ok results)) =>
      (st, Done (foldl (λ n e, n + zlen (filter (λ d, since_txn s < txn_id d) e.2)) 0 (hash_iter results)))
  end.
End stream.
Arguments PassEnv : clear implicits.

(** ** Other views of the changes *)

Definition row_key (c : CellChange) : string * Z := (cc_seg_id c, cc_row_offset c).
Definition row_le (a b : (string * Z) * list CellChange) : bool := negb (ltb b.1 a.1).

Definition rows_by_key (cs : list CellChange) : gmap (string * Z) (list CellChange) :=
  foldl (λ m c, <[row_key c := default [] (m !! row_key c) ++ [c]]> m) ∅ cs.

(** [read_row_changes] on the batches of [read_changes] *)
Definition row_changes `{HashIter} (batches : list ChangeBatch) : list ChangeBatch :=
  (λ b, {| cb_txn_id := cb_txn_id b;
           cb_changes := sort_by row_le (hash_iter (rows_by_key (cb_changes b))) ≫= snd |}) <$> batches.

(** The rows of [read_changes_as_arrow], cut when [batch_size] is reached. *)
Fixpoint chunk_changes (batch_size : Z) (cs cur : list CellChange) : list (list CellChange) :=
  match cs with
  | [] => if 0 <? zlen cur then [cur] else []
  | c :: cs' =>
      let cur := cur ++ [c] in
      if batch_size <=? zlen cur then cur :: chunk_changes batch_size cs' [] else chunk_changes batch_size cs' cur
  end.

Definition change_fields : list Field :=
  let f n t nullable := {| f_name := n; f_type := t; f_nullable := nullable |} in
  [f "txn_id" UInt64 false; f "seg_id" Utf8 false; f "col" Utf8 false; f "row_offset" UInt64 false;
   f "op" Utf8 false; f "before" Binary true; f "after" Binary true].

Definition build_arrow_batch `{Arrow Arr} `{!Batches Arr} (cs : list CellChange) : Result (RecordBatch Arr) :=
  let col t f := arr_build t (f <$> cs) in
  map_err (λ e, EInternal ("build arrow batch: " +:+ e))
    (try_new change_fields
      [col UInt64 (λ c, Some (VInt (cc_txn_id c))); col Utf8 (λ c, Some (VStr (cc_seg_id c)));
       col Utf8 (λ c, Some (VStr (cc_col c))); col UInt64 (λ c, Some (VInt (cc_row_offset c)));
       col Utf8 (λ c, Some (VStr (CellOp_as_str (cc_op c)))); col Binary (λ c, VBin <$> cc_before c);
       col Binary (λ c, VBin <$> cc_after c)]).

Fixpoint build_batches `{Arrow Arr} `{!Batches Arr} (chunks : list (list CellChange)) : Result (list (RecordBatch Arr)) :=
  match chunks with
  | [] => Ok []
  | cs :: chunks' => b <-? build_arrow_batch cs; rest <-? build_batches chunks'; Ok (b :: rest)
  end.
Definition changes_as_arrow `{Arrow Arr} `{!Batches Arr} (batch_size : Z) (batches : list ChangeBatch)
    : Result (list (RecordBatch Arr)) :=
  build_batches (chunk_changes batch_size (batches ≫= cb_changes) []).

(** [read_changes_with_txn_boundaries] on the batches of [read_changes] *)
Fixpoint txn_events (prev : option Z) (batches : list ChangeBatch) : list ChangeEvent :=
  match batches with
  | [] => []
  | b :: batches' =>
      (if match prev with None => true | Some p => negb (p + 1 =? cb_txn_id b) end
       then [TransactionBegin (cb_txn_id b)] else []) ++
      (EvCellChange <$> cb_changes b) ++ [TransactionCommit (cb_txn_id b) 0] ++ txn_events (Some (cb_txn_id b)) batches'
  end.

(** [read_changes_at_timestamp] over the log buffer. *)
Definition cell_op_of (o : CdcOpType) : CellOp :=
  match o with CdcInsert => CellInsert | CdcUpdate => CellUpdate | CdcDelete => CellDelete end.
Definition change_of_entry (e : CdcLogEntry) : CellChange :=
  {| cc_table := cle_table e; cc_seg_id := cle_seg_id e; cc_col := ""; cc_row_offset := 0; cc_op := cell_op_of (cle_op e);
     cc_before := snd <$> head (cle_before e); cc_after := snd <$> head (cle_after e); cc_txn_id := cle_txn_id e |}.
Definition read_changes_at_timestamp `{HashIter} (s : ChangeStream) (log : CdcLogBuffer) (timestamp_ms : Z)
    : list ChangeBatch :=
  to_batches id (foldl (λ m e, if (cle_ts e <=? timestamp_ms) && (since_txn s <? cle_txn_id e)
                               then add_change m (cle_txn_id e) [change_of_entry e] else m) ∅ (clb_entries log)).

(** ** CdcReplay of the log *)

Section replay.
Context `{Arrow Arr} `{!ArrowIpc Arr} `{HashIter}.

(** The little-endian bytes of a primitive of the given width. *)
Definition le_of (n : nat) (v : Value) : bytes :=
  match v with
  | VInt z => to_le_bytes n (z `mod` 256 ^ Z.of_nat n)
  | VFloat bits => to_le_bytes n bits
  | _ => []
  end.
Definition cdc_scalar_to_bytes (a : Arr) (row_idx : Z) : Result bytes :=
  let v := arr_value a row_idx in
  match arr_type a with
  | Int8 | UInt8 => Ok (le_of 1 v)
  | Int16 | UInt16 => Ok (le_of 2 v)
  | Int32 | UInt32 | Float32 => Ok (le_of 4 v)
  | Int64 | UInt64 | Float64 => Ok (le_of 8 v)
  | Boolean => Ok [match v with VBool true => 1 | _ => 0 end]
  | Utf8 | LargeUtf8 => Ok (match v with VStr s => as_bytes s | _ => [] end)
  | Binary | LargeBinary => Ok (match v with VBin bs => bs | _ => [] end)
  | _ => Err (EInternal "unsupported Arrow data type for CDC")
  end.

Fixpoint scalars (cols : list Arr) : Result (list bytes) :=
  match cols with
  | [] => Ok []
  | c :: cols' => v <-? cdc_scalar_to_bytes c 0; rest <-? scalars cols'; Ok (v :: rest)
  end.
Fixpoint batches_values (bs : list (result string (RecordBatch Arr))) : Result (list bytes) :=
  match bs with
  | [] => Ok []
  | Err e :: _ => Err (EInternal ("Arrow IPC batch: " +:+ e))
  | Ok b :: bs' =>
      vs <-? (if rb_rows b =? 0 then Ok [] else scalars (rb_columns b));
      rest <-? batches_values bs';
      Ok (vs ++ rest)
  end.
Definition extract_column_values_from_ipc (wal_batch : bytes) : Result (list bytes) :=
  r <-? map_err (λ e, EInternal ("Arrow IPC reader: " +:+ e)) (ipc_file_read wal_batch); batches_values r.2.

Definition names_from_ipc (bs : bytes) : option (list string) :=
  if bool_decide (bs = []) then None else
  match ipc_file_read (Arr := Arr) bs with Ok r => Some r.1 | Err _ => None end.
Definition extract_schema_column_names_from_ipc (wal_batch schema_bytes : bytes) : list string :=
  match names_from_ipc wal_batch with
  | Some (n :: ns) => n :: ns
  | _ => default [] (names_from_ipc schema_bytes)
  end.

Definition wal_op_to_cell_change (op : WalOp) : Result (option (list CellChange)) :=
  match payload op with
  | PInsert table _ columns wal_batch schema_bytes seg _ offset =>
      if bool_decide (wal_batch = []) then Ok None else
      let names := if bool_decide (columns = []) then extract_schema_column_names_from_ipc wal_batch schema_bytes
                   else columns in
      if bool_decide (names = []) then Ok None else
      values <-? extract_column_values_from_ipc wal_batch;
      Ok (match zip names values with
          | [] => None
          | l => Some ((λ e, {| cc_table := table; cc_seg_id := seg; cc_col := e.1; cc_row_offset := offset;
                                cc_op := CellInsert; cc_before := None; cc_after := Some e.2;
                                cc_txn_id := op_txn_id op |}) <$> l)
          end)
  | PUpdate table _ columns wal_batch schema_bytes old_columns old_seg _ old_offset _ _ _ =>
      if bool_decide (columns = []) && bool_decide (wal_batch = []) then Ok None else
      let names := if bool_decide (columns = []) then extract_schema_column_names_from_ipc wal_batch schema_bytes
                   else columns in
      let before_map : gmap string bytes := list_to_map (rev old_columns) in
      values <-? extract_column_values_from_ipc wal_batch;
      Ok (match zip names values with
          | [] => None
          | l => Some ((λ e, {| cc_table := table; cc_seg_id := old_seg; cc_col := e.1; cc_row_offset := old_offset;
                                cc_op := CellUpdate; cc_before := before_map !! e.1; cc_after := Some e.2;
                                cc_txn_id := op_txn_id op |}) <$> l)
          end)
  | PDelete table _ before_row seg _ offset =>
      Ok (match before_row with
          | [] => None
          | l => Some ((λ e, {| cc_table := table; cc_seg_id := seg; cc_col := e.1; cc_row_offset := offset;
                                cc_op := CellDelete; cc_before := Some e.2; cc_after := None;
                                cc_txn_id := op_txn_id op |}) <$> l)
          end)
  | _ => Ok None
  end.

Fixpoint ops_changes (ops : list WalOp) (txn : Z) (m : gmap Z (list CellChange)) : Result (gmap Z (list CellChange)) :=
  match ops with
  | [] => Ok m
  | op :: ops' =>
      r <-? wal_op_to_cell_change op;
      ops_changes ops' txn (match r with Some cs => add_change m txn cs | None => m end)
  end.

Record CdcReplay := {
  rp_pending : gmap Z (list WalOp);
  rp_txn_ops : gmap Z (list CellChange);
  rp_committed : gset Z
}.
Definition cdc_replay_record (since stable : Z) (r : CdcReplay) (op : WalOp) : Result CdcReplay :=
  let t := op_txn_id op in
  let in_range := (since <? t) && (t <=? stable) in
  match op_type op with
  | OInsert | OUpdate | ODelete =>
      if in_range then
        Ok {| rp_pending := <[t := default [] (rp_pending r !! t) ++ [op]]> (rp_pending r);
              rp_txn_ops := rp_txn_ops r; rp_committed := rp_committed r |}
      else Ok r
  | OCommit =>
      if in_range then
        m <-? match rp_pending r !! t with Some ops => ops_changes ops t (rp_txn_ops r) | None => Ok (rp_txn_ops r) end;
        Ok {| rp_pending := delete t (rp_pending r); rp_txn_ops := m; rp_committed := {[t]} ∪ rp_committed r |}
      else Ok r
  | ORollback =>
      Ok {| rp_pending := delete t (rp_pending r); rp_txn_ops := rp_txn_ops r; rp_committed := rp_committed r |}
  | _ => Ok r
  end.
Fixpoint replay_records (since stable : Z) (r : CdcReplay) (ops : list WalOp) : Result CdcReplay :=
  match ops with
  | [] => Ok r
  | op :: ops' => r <-? cdc_replay_record since stable r op; replay_records since stable r ops'
  end.

(** [records] are those that [replay_best_effort] returns. *)
Definition replay_wal_since (since stable : Z) (records : list WalOp) : Result (list ChangeBatch) :=
  r <-? replay_records since stable {| rp_pending := ∅; rp_txn_ops := ∅; rp_committed := ∅ |} records;
  Ok (to_batches id (filter (λ e : Z * list CellChange, e.1 ∈ rp_committed r) (rp_txn_ops r))).
End replay.

(** * Proofs *)

Lemma batch_le_total a b : batch_le a b = true ∨ batch_le b a = true.
Proof. unfold batch_le. rewrite !Z.leb_le. lia. Qed.
Lemma batch_le_trans a b c : batch_le a b = true → batch_le b c = true → batch_le a c = true.
Proof. unfold batch_le. rewrite !Z.leb_le. lia. Qed.

Section batches.
Context `{HashIter}.

Lemma elem_of_to_batches sort groups b :
  b ∈ to_batches sort groups ↔ ∃ cs, groups !! cb_txn_id b = Some cs ∧ cb_changes b = sort cs.
Proof.
  unfold to_batches. rewrite sort_by_perm, list_elem_of_fmap. split.
  - intros ([t cs] & -> & Hin%elem_of_hash_iter). eauto.
  - intros (cs & Hg & Hc). exists (cb_txn_id b, cs). split; [destruct b; cbn in *; by subst|by apply elem_of_hash_iter].
Qed.

(** The batches are in strictly ascending order of transactions. *)
Lemma to_batches_sorted sort groups : StronglySorted (λ a b, cb_txn_id a < cb_txn_id b) (to_batches sort groups).
Proof.
  assert (StronglySorted (λ a b, batch_le a b = true) (to_batches sort groups)) as Hs
    by (apply sort_by_sorted; [apply batch_le_total|apply batch_le_trans]).
  assert (NoDup (cb_txn_id <$> to_batches sort groups)) as Hnd.
  { unfold to_batches. rewrite sort_by_perm, <- list_fmap_compose. apply hash_iter_NoDup_fst. }
  induction Hs as [|b l Hs IH Hb]; constructor; rewrite fmap_cons, NoDup_cons in Hnd; destruct Hnd as [Hni Hnd]; [by apply IH|].
  rewrite Forall_forall in *. intros x Hx. specialize (Hb x Hx). unfold batch_le in Hb. apply Z.leb_le in Hb.
  assert (cb_txn_id b ≠ cb_txn_id x); [|lia]. intros Heq. apply Hni. rewrite Heq. by apply list_elem_of_fmap_2.
Qed.
End batches.

Lemma add_change_lookup m t cs t' : add_change m t cs !! t' =
  if decide (t' = t) then Some (default [] (m !! t) ++ cs) else m !! t'.
Proof.
  unfold add_change. case_decide; [subst; by rewrite lookup_insert_eq|by rewrite lookup_insert_ne].
Qed.

(** The groups of a list of cells with the segment they were read from. *)
Definition grouped_cells (groups : gmap Z (list CellChange)) (cells : list (string * DeltaCell)) : gmap Z (list CellChange) :=
  foldl (λ g e, add_change g (txn_id e.2) [CellChange_from e.1 e.2]) groups cells.

Lemma grouped_cells_elem groups cells t c :
  (∃ cs, grouped_cells groups cells !! t = Some cs ∧ c ∈ cs) ↔
  (∃ cs, groups !! t = Some cs ∧ c ∈ cs) ∨ ∃ e, e ∈ cells ∧ txn_id e.2 = t ∧ c = CellChange_from e.1 e.2.
Proof.
  unfold grouped_cells. revert groups. induction cells as [|e cells IH]; intros groups; cbn.
  - split; [by left|]. intros [?|(e & ?%elem_of_nil & _)]; done.
  - rewrite IH. setoid_rewrite add_change_lookup. setoid_rewrite elem_of_cons. split.
    + intros [(cs & Hl & Hc)|(e' & He & Ht & ->)]; [|right; eauto]. case_decide; [|left; eauto]. simplify_eq.
      apply elem_of_app in Hc as [Hc| ->%list_elem_of_singleton]; [|right; eauto]. left.
      destruct (groups !! txn_id e.2) as [cs|]; [eauto|by apply elem_of_nil in Hc].
    + intros [(cs & Hl & Hc)|(e' & [->|He] & Ht & ->)]; [| |right; eauto].
      * left. case_decide; [|eauto]. subst. rewrite Hl. eexists. split; [done|]. apply elem_of_app. by left.
      * left. rewrite decide_True by done. eexists. split; [done|]. apply elem_of_app. right. by left.
Qed.

Lemma grouped_cells_nonempty groups cells t cs : (∀ t' cs', groups !! t' = Some cs' → cs' ≠ []) →
  grouped_cells groups cells !! t = Some cs → cs ≠ [].
Proof.
  unfold grouped_cells. revert groups. induction cells as [|e cells IH]; intros groups Hg; cbn; [apply Hg|].
  apply IH. intros t' cs'. rewrite add_change_lookup. case_decide; [|apply Hg]. intros [= <-].
  by destruct (default [] (groups !! txn_id e.2)).
Qed.

Section stream_proofs.
Context `{WalLog W} `{DeltaDisk D} `{Arrow Arr} `{Roaring B} `{HashIter}.
Implicit Types st : DeltaLayerStack W D.
Implicit Types s : ChangeStream.
Implicit Types passes : list (PassEnv W D).
Abbreviation query_all_layers := (query_all_layers (Arr := Arr) (B := B)).
Abbreviation read_pass := (read_pass (Arr := Arr) (B := B)).
Abbreviation read_changes := (read_changes (Arr := Arr) (B := B)).

(** The cells that the queries of one pass return. *)
Inductive queried (upto since : Z) : DeltaLayerStack W D → list string → list (string * DeltaCell) → DeltaLayerStack W D → Prop :=
  | queried_nil st : queried upto since st [] [] st
  | queried_cons st seg segs ds st1 cells st2 :
      query_all_layers st seg upto since = (st1, Done ds) → queried upto since st1 segs cells st2 →
      queried upto since st (seg :: segs) (((λ d, (seg, d)) <$> ds) ++ cells) st2.

Lemma query_all_layers_window st seg upto since st' ds : query_all_layers st seg upto since = (st', Done ds) →
  Forall (λ d, since < txn_id d ≤ upto ∧ committed d = true) ds.
Proof.
  unfold LayerStack.query_all_layers. destruct (get_visible (l1 st) seg upto) as [m l1d].
  destruct (frozen_get_visible (l3 st) seg) as [r|]; intros [= _ <-]. rewrite Forall_forall. intros d Hd.
  destruct (dedup_latest_spec (filter (λ d, in_window since upto d = true) l1d ++
     filter (λ d, in_window since upto d = true) (recent_cells st seg) ++
     match l2_get_visible (l2 st) seg upto with
     | Ok ds => filter (λ d, in_window since upto d = true) ds
     | Err _ => []
     end ++ match r with Ok ds => filter (λ d, in_window since upto d = true) ds | Err _ => [] end)) as (_ & Hin & _).
  destruct (Hin d Hd) as [Hd' _]. clear Hin Hd.
  assert (in_window since upto d = true) as Hw.
  { rewrite !elem_of_app in Hd'. destruct Hd' as [Hd|[Hd|[Hd|Hd]]]; try (by apply list_elem_of_filter in Hd as [? _]);
      case_match; first [by apply list_elem_of_filter in Hd as [? _]|by apply elem_of_nil in Hd]. }
  unfold in_window in Hw. rewrite !andb_true_iff, Z.ltb_lt, Z.leb_le in Hw. naive_solver.
Qed.

Lemma queried_window upto since st segs cells st' : queried upto since st segs cells st' →
  Forall (λ e, since < txn_id e.2 ≤ upto ∧ committed e.2 = true) cells.
Proof.
  induction 1 as [|st seg segs ds st1 cells st2 Hq _ IH]; [constructor|]. apply Forall_app. split; [|done].
  apply query_all_layers_window in Hq. rewrite Forall_fmap. exact Hq.
Qed.

Lemma collect_segments_spec st segs upto since n groups st' groups' n' :
  collect_segments (Arr := Arr) (B := B) st segs upto since n groups = (st', Done (groups', n')) →
  ∃ cells, queried upto since st segs cells st' ∧ groups' = grouped_cells groups cells ∧ n' = n + zlen cells.
Proof.
  revert st n groups. induction segs as [|seg segs IH]; intros st n groups; cbn.
  - intros [= <- <- <-]. exists []. split_and!; [constructor|done|unfold zlen; cbn; lia].
  - destruct (LayerStack.query_all_layers st seg upto since) as [st1 [ds|]] eqn:Hq; [|done].
    intros (cells & Hc & -> & ->)%IH. exists (((λ d, (seg, d)) <$> ds) ++ cells). split_and!.
    + by econstructor.
    + unfold grouped_cells. rewrite foldl_app. f_equal. generalize groups. clear. induction ds as [|d ds IH]; intros g; cbn; [done|].
      apply IH.
    + rewrite zlen_app. unfold zlen. rewrite length_fmap. lia.
Qed.

(** The last batch of a sorted list has the largest transaction. *)
Lemma last_batch_max (l : list ChangeBatch) b : StronglySorted (λ a b, cb_txn_id a < cb_txn_id b) l → last l = Some b →
  ∀ x, x ∈ l → cb_txn_id x ≤ cb_txn_id b.
Proof.
  induction 1 as [|y l Hs IH Hy]; [done|]. intros Hl x [->|Hx]%elem_of_cons.
  - destruct l as [|z l]; cbn in Hl; [simplify_eq; lia|]. rewrite Forall_forall in Hy.
    apply last_Some_elem_of in Hl. apply Hy in Hl. lia.
  - destruct l as [|z l]; [by apply elem_of_nil in Hx|]. by apply IH.
Qed.

(** The pass that returns. *)
Lemma read_pass_exact s st upto epoch st' s' batches :
  since_txn s < upto →
  read_pass s st upto epoch epoch = (st', Some (s', Done batches)) →
  ∃ cells, queried upto (since_txn s) st (get_all_segment_ids st) cells st' ∧
    StronglySorted (λ a b, cb_txn_id a < cb_txn_id b) batches ∧
    (∀ b, b ∈ batches → since_txn s < cb_txn_id b ≤ upto ∧ cb_changes b ≠ []) ∧
    (∀ t c, (∃ b, b ∈ batches ∧ cb_txn_id b = t ∧ c ∈ cb_changes b) ↔
       ∃ seg d, (seg, d) ∈ cells ∧ txn_id d = t ∧ c = CellChange_from seg d) ∧
    since_txn s' = match last batches with Some b => cb_txn_id b | None => since_txn s end.
Proof.
  intros Hlt. unfold Cdc.read_pass. rewrite (proj2 (Z.leb_gt _ _)) by done. rewrite Z.eqb_refl.
  destruct (collect_segments _ _ _ _ _ _) as [st1 [[groups n]|]] eqn:Hc; [|done]. intros [= -> <- <-].
  apply collect_segments_spec in Hc as (cells & Hq & -> & _). exists cells.
  pose proof (queried_window _ _ _ _ _ _ Hq) as Hw. rewrite Forall_forall in Hw. split_and!; [done|apply to_batches_sorted| | |done].
  - intros b (cs & Hg & Hb)%elem_of_to_batches.
    assert (cs ≠ []) as Hne by (eapply grouped_cells_nonempty; [|exact Hg]; intros ? ?; by rewrite lookup_empty).
    split.
    + destruct cs as [|c cs]; [done|].
      destruct (proj1 (grouped_cells_elem ∅ cells (cb_txn_id b) c)) as [(? & ? & _)|(e & He & Ht & _)].
      * eexists. split; [exact Hg|by left].
      * by rewrite lookup_empty in *.
      * destruct (Hw e He). lia.
    + rewrite Hb. intros Hnil. apply Hne. apply Permutation_nil_r. by rewrite <- Hnil, sort_by_perm.
  - intros t c. pose proof (grouped_cells_elem ∅ cells t c) as Hg. split.
    + intros (b & (cs & Hl & Hb)%elem_of_to_batches & <- & Hc). rewrite Hb, sort_by_perm in Hc.
      destruct (proj1 Hg) as [(? & ? & _)|([seg d] & He & Ht & ->)]; [eauto|by rewrite lookup_empty in *|eauto].
    + intros (seg & d & He & Ht & ->). destruct (proj2 Hg) as (cs & Hl & Hc); [right; by exists (seg, d)|].
      exists {| cb_txn_id := t; cb_changes := sort_by change_le cs |}. split_and!; [|done|cbn; by rewrite sort_by_perm].
      apply elem_of_to_batches. eauto.
Qed.

Lemma read_pass_returns s st upto captured epoch st' s' bs :
  read_pass s st upto captured epoch = (st', Some (s', Done bs)) →
  (bs = [] ∧ s' = s) ∨ (since_txn s < upto ∧ epoch = captured).
Proof.
  unfold Cdc.read_pass. destruct (Z.leb_spec upto (since_txn s)); [intros [= _ <- <-]; by left|].
  destruct (collect_segments _ _ _ _ _ _) as [st1 [[g n]|]]; [|done]. destruct (Z.eqb_spec epoch captured); [|done]. by right.
Qed.

(** A read that returned, by its pass. *)
Lemma read_changes_pass s captured passes s' r : read_changes s captured passes = Some (s', r) →
  ∃ p st', p ∈ passes ∧ read_pass s (pe_stack p) (pe_committed p) captured (pe_epoch_after p) = (st', Some (s', r)).
Proof.
  induction passes as [|p passes IH]; cbn; [done|].
  destruct (Cdc.read_pass s (pe_stack p) _ _ _) as [st' [x|]] eqn:E; cbn.
  - intros [= ->]. exists p, st'. split; [by left|done].
  - intros (p' & st2 & Hp & Hr)%IH. exists p', st2. split; [by right|done].
Qed.

(** [read_changes] returns, in strictly ascending order of transactions, exactly
    the committed cells of the window that the queries over all segments return in
    a pass without a flush, each in the batch of its transaction and as the change
    of its segment, row and column with both images; the watermark moves to the
    last transaction returned.  The table of a change is the segment id. *)
Theorem change_stream_exact s captured passes s' batches :
  read_changes s captured passes = Some (s', Done batches) →
  (batches = [] ∧ s' = s) ∨
  ∃ p st' cells, p ∈ passes ∧ pe_epoch_after p = captured ∧
    queried (pe_committed p) (since_txn s) (pe_stack p) (get_all_segment_ids (pe_stack p)) cells st' ∧
    StronglySorted (λ a b, cb_txn_id a < cb_txn_id b) batches ∧
    (∀ b, b ∈ batches → since_txn s < cb_txn_id b ≤ pe_committed p ∧ cb_changes b ≠ []) ∧
    (∀ t c, (∃ b, b ∈ batches ∧ cb_txn_id b = t ∧ c ∈ cb_changes b) ↔
       ∃ seg d, (seg, d) ∈ cells ∧ txn_id d = t ∧ c = CellChange_from seg d) ∧
    since_txn s' = match last batches with Some b => cb_txn_id b | None => since_txn s end.
Proof.
  intros (p & st' & Hin & Hp)%read_changes_pass. destruct (read_pass_returns _ _ _ _ _ _ _ _ Hp) as [[-> ->]|[Hlt He]]; [by left|].
  right. rewrite He in Hp. destruct (read_pass_exact _ _ _ _ _ _ _ Hlt Hp) as (cells & ?). exists p, st', cells. done.
Qed.

Lemma read_changes_watermark s captured passes s' bs : read_changes s captured passes = Some (s', Done bs) →
  StronglySorted (λ a b, cb_txn_id a < cb_txn_id b) bs ∧
  Forall (λ b, since_txn s < cb_txn_id b ≤ since_txn s') bs ∧ since_txn s ≤ since_txn s'.
Proof.
  intros (p & st' & _ & Hp)%read_changes_pass.
  destruct (read_pass_returns _ _ _ _ _ _ _ _ Hp) as [[-> ->]|[Hlt He]]; [by repeat constructor|]. rewrite He in Hp.
  destruct (read_pass_exact _ _ _ _ _ _ _ Hlt Hp) as (cells & _ & Hs & Hb & _ & Hw). split; [done|].
  rewrite Forall_forall. rewrite Hw. destruct (last bs) as [b|] eqn:El.
  - split; [|apply last_Some_elem_of, Hb in El; lia]. intros x Hx. pose proof (Hb x Hx). split; [lia|by eapply last_batch_max].
  - apply last_None in El. subst. split; [by intros x ?%elem_of_nil|lia].
Qed.

(** A consumer's calls, one after the other. *)
Inductive reads : ChangeStream → list ChangeBatch → ChangeStream → Prop :=
  | reads_nil s : reads s [] s
  | reads_cons s captured passes s1 bs1 bs2 s2 :
      read_changes s captured passes = Some (s1, Done bs1) → reads s1 bs2 s2 → reads s (bs1 ++ bs2) s2.

Lemma reads_watermark s bs s' : reads s bs s' →
  StronglySorted (λ a b, cb_txn_id a < cb_txn_id b) bs ∧
  Forall (λ b, since_txn s < cb_txn_id b ≤ since_txn s') bs ∧ since_txn s ≤ since_txn s'.
Proof.
  induction 1 as [s|s captured passes s1 bs1 bs2 s2 Hr _ (Hs2 & Hf2 & Hle2)]; [by repeat constructor|].
  apply read_changes_watermark in Hr as (Hs1 & Hf1 & Hle1). rewrite Forall_forall in *. split_and!; [| |lia].
  - clear Hle1 Hle2. induction Hs1 as [|b l Hs IH Hb]; cbn; [done|]. constructor.
    + apply IH. intros x Hx. apply Hf1. by right.
    + apply Forall_app. split; [done|]. rewrite Forall_forall. intros x Hx.
      destruct (Hf1 b ltac:(by left)). destruct (Hf2 x Hx). lia.
  - intros x [Hx|Hx]%elem_of_app; [destruct (Hf1 x Hx)|destruct (Hf2 x Hx)]; lia.
Qed.

(** Over any number of calls, with any flushes and writes between them, a
    consumer receives every transaction at most once and in ascending order.  A
    transaction at or below the watermark is never delivered: one that commits
    after a later one has been read is lost to the stream. *)
Theorem change_stream_at_most_once s bs1 s1 bs2 s2 :
  reads s bs1 s1 → reads s1 bs2 s2 →
  StronglySorted (λ a b, cb_txn_id a < cb_txn_id b) (bs1 ++ bs2) ∧
  ∀ b, b ∈ bs2 → since_txn s1 < cb_txn_id b.
Proof.
  intros H1' H2'. assert (reads s (bs1 ++ bs2) s2) as H12.
  { clear -H1' H2'. induction H1'; [done|]. rewrite <- app_assoc. econstructor; [done|auto]. }
  apply reads_watermark in H12 as [Hs _]. apply reads_watermark in H2' as (_ & Hf & _). rewrite Forall_forall in Hf.
  split; [done|]. intros b Hb. by apply Hf.
Qed.

(** [read_changes] does not return once a flush has completed during its first
    pass: the epoch it compares with is the one captured before the loop and the
    epoch only grows, so every later pass goes round again, however many there
    are. *)
Theorem change_stream_livelock s captured passes :
  (∀ p, p ∈ passes → captured < pe_epoch_after p ∧ since_txn s < pe_committed p ∧
     ∀ st', collect_segments (Arr := Arr) (B := B) (pe_stack p) (get_all_segment_ids (pe_stack p))
              (pe_committed p) (since_txn s) 0 ∅ ≠ (st', Panic)) →
  read_changes s captured passes = None.
Proof.
  induction passes as [|p passes IH]; intros Hall; [done|]. cbn. destruct (Hall p) as (He & Hlt & Hp); [by left|].
  unfold Cdc.read_pass. rewrite (proj2 (Z.leb_gt _ _)) by done. rewrite (proj2 (Z.eqb_neq _ _)) by lia.
  destruct (collect_segments _ _ _ _ _ _) as [st' [[g n]|]]; cbn; [|by destruct (Hp st')]. apply IH. intros q Hq.
  apply Hall. by right.
Qed.
End stream_proofs.

(** ** CdcReplay of a committed insert *)

Section replay_proofs.
Context `{Arrow Arr} `{!Batches Arr} `{ArrowIpcLaws Arr} `{HashIter}.

(** Records of other transactions leave the pending operations of [t]. *)
Lemma replay_records_pending since stable ops r r' t :
  Forall (λ op, op_txn_id op ≠ t) ops → replay_records (Arr := Arr) since stable r ops = Ok r' →
  rp_pending r' !! t = rp_pending r !! t.
Proof.
  intros Hops. revert r. induction Hops as [|op ops Hop _ IH]; intros r; cbn; [by intros [= <-]|].
  destruct (cdc_replay_record since stable r op) as [r1|] eqn:E; cbn; [|done]. intros ->%IH. clear IH.
  unfold cdc_replay_record in E. destruct (op_type op); repeat case_match; simplify_eq/=;
    try (destruct (ops_changes _ _ _) as [m|]; simplify_eq/=); rewrite ?lookup_insert_ne, ?lookup_delete_ne by done; done.
Qed.

Lemma replay_records_app since stable r ops1 ops2 :
  replay_records (Arr := Arr) since stable r (ops1 ++ ops2) =
  (r' <-? replay_records (Arr := Arr) since stable r ops1; replay_records (Arr := Arr) since stable r' ops2).
Proof.
  revert r. induction ops1 as [|op ops1 IH]; intros r; cbn; [done|].
  destruct (cdc_replay_record since stable r op); cbn; [apply IH|done].
Qed.

(** The replay of the log for change consumers fails on every log with a
    committed insert in its range: the log holds the batch in the stream format
    and the replay reads it as a file. *)
Theorem replay_rejects_inserts since stable t pre mid post table pk columns (b : RecordBatch Arr) wal_batch schema seg g offset ts ins :
  batch_to_ipc_stream b = Ok wal_batch → columns ≠ [] → since < t ≤ stable →
  Forall (λ op, op_txn_id op ≠ t) pre → Forall (λ op, op_txn_id op ≠ t) mid →
  ∃ e, replay_wal_since (Arr := Arr) since stable
    (pre ++ {| op_type := OInsert; op_txn_id := t; payload := PInsert table pk columns wal_batch schema seg g offset |} ::
     mid ++ {| op_type := OCommit; op_txn_id := t; payload := PCommit ts ins |} :: post) = Err e.
Proof.
  intros Hb Hcols Ht Hpre Hmid. unfold batch_to_ipc_stream in Hb.
  destruct (ipc_stream_write b) as [bs|] eqn:Hw; [|done]. cbn in Hb. injection Hb as ->.
  destruct (ipc_stream_ok _ _ Hw) as [Hne _]. destruct (ipc_stream_not_file _ _ Hw) as [e He].
  assert (∀ s, (since <? s) && (s <=? stable) = true ↔ since < s ≤ stable) as Hrange.
  { intros s. rewrite andb_true_iff, Z.ltb_lt, Z.leb_le. done. }
  unfold replay_wal_since. rewrite replay_records_app.
  destruct (replay_records since stable _ pre) as [r1|e1] eqn:E1; cbn [result_bind]; [|by eexists].
  apply (replay_records_pending _ _ _ _ _ t) in E1; [|done]. cbn in E1. rewrite lookup_empty in E1.
  cbn [replay_records]. unfold cdc_replay_record at 1. cbn [op_type op_txn_id]. rewrite (proj2 (Hrange t)) by done.
  cbn [result_bind]. rewrite replay_records_app.
  destruct (replay_records since stable _ mid) as [r2|e2] eqn:E2; cbn [result_bind]; [|by eexists].
  apply (replay_records_pending _ _ _ _ _ t) in E2; [|done]. cbn in E2. rewrite E1, lookup_insert_eq in E2. cbn in E2.
  cbn [replay_records]. unfold cdc_replay_record at 1. cbn [op_type op_txn_id]. rewrite (proj2 (Hrange t)), E2 by done.
  cbn [ops_changes]. unfold wal_op_to_cell_change. cbn [payload]. rewrite bool_decide_false by done.
  rewrite (bool_decide_false (columns = [])) by done. rewrite (bool_decide_false (columns = [])) by done.
  unfold extract_column_values_from_ipc. rewrite He. cbn. by eexists.
Qed.
End replay_proofs.

(** ** Runs *)

Definition demo_pass (epoch : Z) : PassEnv MemLog ListDisk :=
  {| pe_stack := demo_stack; pe_committed := 9; pe_epoch_after := epoch |}.
Definition demo_change : CellChange :=
  {| cc_table := "a"; cc_seg_id := "a"; cc_col := "v"; cc_row_offset := 1; cc_op := CellInsert; cc_before := None;
     cc_after := Some [7]; cc_txn_id := 8 |}.
Definition demo_stream : ChangeStream :=
  {| since_txn := 8; hotspot_stats := {| read_calls := 1; scanned_segments := 1; collected_deltas := 1 |} |}.

(** L2 holds the cell as written by transactions 5 and 8; one call delivers the
    later version only, and moves past both. *)
Lemma change_stream_drops_versions :
  read_changes (Arr := ListArray) (B := SortedBitmap) (from_txn 0) 0 [demo_pass 0] =
  Some (demo_stream, Done [{| cb_txn_id := 8; cb_changes := [demo_change] |}]).
Proof. vm_compute. reflexivity. Qed.

Lemma change_stream_exact_witness :
  ∃ p st' cells, p ∈ [demo_pass 0] ∧ pe_epoch_after p = 0 ∧
    queried (Arr := ListArray) (B := SortedBitmap) (pe_committed p) 0 (pe_stack p) (get_all_segment_ids (pe_stack p)) cells st'.
Proof.
  destruct (change_stream_exact (from_txn 0) 0 [demo_pass 0] demo_stream [{| cb_txn_id := 8; cb_changes := [demo_change] |}]
    change_stream_drops_versions) as [[H _]|(p & st' & cells & H1 & H2 & H3 & _)]; [discriminate|].
  exists p, st', cells. done.
Defined.

Lemma change_stream_at_most_once_witness :
  StronglySorted (λ a b, cb_txn_id a < cb_txn_id b) ([{| cb_txn_id := 8; cb_changes := [demo_change] |}] ++ []).
Proof.
  apply (change_stream_at_most_once (W := MemLog) (D := ListDisk) (Arr := ListArray) (B := SortedBitmap)
    (from_txn 0) [{| cb_txn_id := 8; cb_changes := [demo_change] |}] demo_stream [] demo_stream); [|constructor].
  eapply (reads_cons _ _ _ _ [{| cb_txn_id := 8; cb_changes := [demo_change] |}] []);
    [exact change_stream_drops_versions|constructor].
Defined.

Lemma change_stream_livelock_witness :
  read_changes (Arr := ListArray) (B := SortedBitmap) (from_txn 0) 0 [demo_pass 1; demo_pass 1; demo_pass 2] = None.
Proof.
  apply change_stream_livelock. intros p Hp. rewrite !elem_of_cons, elem_of_nil in Hp.
  destruct Hp as [->|[->|[->|[]]]]; (split; [done|split; [done|]]); intros st' Heq;
    apply (f_equal (λ r, match r.2 with Panic => true | _ => false end)) in Heq; vm_compute in Heq; discriminate.
Defined.

Definition demo_row : RecordBatch ListArray :=
  {| rb_fields := [{| f_name := "v"; f_type := Int64; f_nullable := true |}]; rb_columns := [int_array [Some 4]]; rb_rows := 1 |}.

Lemma replay_rejects_inserts_witness :
  ∃ e, @replay_wal_since ListArray _ (table_ipc [demo_row]) _ 0 9
    ([] ++ {| op_type := OInsert; op_txn_id := 5; payload := PInsert "t" [1] ["v"] [83; 0] [] "a" 0 0 |} ::
     [] ++ {| op_type := OCommit; op_txn_id := 5; payload := PCommit 1 None |} :: []) = Err e.
Proof.
  apply (@replay_rejects_inserts ListArray _ (table_ipc [demo_row]) (table_ipc_laws [demo_row]) _ 0 9 5 [] [] [] "t" [1] ["v"]
    demo_row [83; 0] [] "a" 0 0 1 None); [reflexivity|done|lia|constructor|constructor].
Defined.

(** Consecutive transactions come without the marker of the second's begin. *)
Lemma consecutive_txn_without_begin :
  txn_events None [{| cb_txn_id := 7; cb_changes := [] |}; {| cb_txn_id := 8; cb_changes := [] |}] =
  [TransactionBegin 7; TransactionCommit 7 0; TransactionCommit 8 0].
Proof. reflexivity. Qed.

(** The size bound of the log buffer: an entry is refused, and counted, exactly when
    the buffer is full. *)
Lemma clb_push_bound b e : zlen (clb_entries b) ≤ clb_max_size b →
  zlen (clb_entries (clb_push b e).1) ≤ clb_max_size b ∧
  (is_ok (clb_push b e).2 = true ↔ clb_entries (clb_push b e).1 = clb_entries b ++ [e]).
Proof.
  unfold clb_push. intros Hb. destruct (Z.leb_spec (clb_max_size b) (zlen (clb_entries b))); cbn.
  - split; [done|]. split; [done|]. intros Heq%(f_equal length). rewrite length_app in Heq. cbn in Heq. lia.
  - rewrite zlen_app. cbn. split; [unfold zlen in *; cbn; lia|done].
Qed.
