(* ===== verification/Checkpoint.v ===== *)
(** Checkpoints of the log (write/checkpoint.rs): the checksummed checkpoint
    files, the pointer file [_LATEST] that is replaced through a temporary file,
    the record and the truncation of the log that follow, and loading with one
    fallback.  The checksum, the codecs and the log are parameters. *)

From stdpp Require Import base gmap strings list.
From S2P Require Import Prelude Kv Visibility Wal Filter Disk VisFile SegMeta.

Local Open Scope Z_scope.

Definition CKPT_MAGIC : Z := 0x434B5054.
Definition CKPT_VERSION : Z := 3.

Record CheckpointStateV1 := { v1_checkpoint_id : Z; v1_committed_txn : Z; v1_timestamp_ms : Z }.
Record CheckpointMvccState := {
  cm_active_txns : list (Z * Z);
  cm_committed_history : list (Z * Z);
  cm_visibility_config : VisibilityConfig
}.
Record CheckpointState := {
  cs_checkpoint_id : Z;
  cs_committed_txn : Z;
  cs_timestamp_ms : Z;
  cs_replay_watermark : Z;
  cs_mvcc : option CheckpointMvccState
}.
(** The struct local to [load_checkpoint]. *)
Record CheckpointStateV2 := {
  v2_checkpoint_id : Z; v2_committed_txn : Z; v2_timestamp_ms : Z; v2_mvcc : option CheckpointMvccState
}.

(** * Numbers in file names *)

Inductive ParseIntError := PEmpty | PInvalidDigit | PPosOverflow.
Definition ParseIntError_display (e : ParseIntError) : string :=
  match e with
  | PEmpty => "cannot parse integer from empty string"
  | PInvalidDigit => "invalid digit found in string"
  | PPosOverflow => "number too large to fit in target type"
  end.

(** [str::parse::<u64>] *)
Fixpoint parse_digits (acc : Z) (s : string) : result ParseIntError Z :=
  match s with
  | EmptyString => Ok acc
  | String c s' =>
      if negb (is_ascii_digit c) then Err PInvalidDigit else
      if u64_max <? 10 * acc + digit c then Err PPosOverflow
      else parse_digits (10 * acc + digit c) s'
  end.
Definition parse_u64 (s : string) : result ParseIntError Z :=
  match s with
  | EmptyString => Err PEmpty
  | String c s' =>
      if bool_decide (c = Ascii.ascii_of_nat 43)
      then match s' with EmptyString => Err PInvalidDigit | _ => parse_digits 0 s' end
      else parse_digits 0 s
  end.

(** [str::trim]: the white space of Unicode, by the bytes of its characters. *)
Definition is_ws1 (a : Z) : bool := in_range 9 13 a || (a =? 32).
Definition is_ws2 (a b : Z) : bool := (a =? 194) && ((b =? 133) || (b =? 160)).
Definition is_ws3 (a b c : Z) : bool :=
  ((a =? 225) && (b =? 154) && (c =? 128))
  || ((a =? 226) && (b =? 128) && (in_range 128 138 c || (c =? 168) || (c =? 169) || (c =? 175)))
  || ((a =? 226) && (b =? 129) && (c =? 159))
  || ((a =? 227) && (b =? 128) && (c =? 128)).
Fixpoint trim_with (ws2 : Z → Z → bool) (ws3 : Z → Z → Z → bool) (bs : bytes) : bytes :=
  match bs with
  | [] => []
  | a :: r =>
      if is_ws1 a then trim_with ws2 ws3 r else
      match r with
      | [] => bs
      | b :: r' =>
          if ws2 a b then trim_with ws2 ws3 r' else
          match r' with
          | [] => bs
          | c :: r'' => if ws3 a b c then trim_with ws2 ws3 r'' else bs
          end
      end
  end.
Definition trim_start (bs : bytes) : bytes := trim_with is_ws2 is_ws3 bs.
Definition trim_end (bs : bytes) : bytes := rev (trim_with (λ a b, is_ws2 b a) (λ a b c, is_ws3 c b a) (rev bs)).
Definition str_trim (s : string) : string := string_of_bytes (trim_end (trim_start (as_bytes s))).

(** [str::strip_prefix] *)
Fixpoint strip_prefix (p s : string) : option string :=
  match p, s with
  | EmptyString, _ => Some s
  | String a p', String b s' => if bool_decide (a = b) then strip_prefix p' s' else None
  | _, EmptyString => None
  end.

(** The names of the files of a directory. *)
Definition dir_names (dir : string) (fs : gmap string bytes) : list string :=
  filter (λ n, str_has slash_char n = false) (omap (λ e, strip_prefix (path_join dir "") e.1) (map_to_list fs)).
Definition fs_read_dir (dir : string) : io IoError (list string) :=
  fs_op (λ _ fs, fs) (λ fs, (fs, Ok (dir_names dir fs))).

(** * The log *)

(** [last_entry_id] of the writer, [FsDirectory::new] on the directory of the log
    and [WalMaintenance::truncate_prefix]. *)
Class WalMaint (W : Type) := {
  wl_last_entry_id : W → option Z;
  wl_open_directory : W → W * bool;
  wl_truncate_prefix : W → Z → W * result string unit
}.
#[global] Hint Mode WalMaint ! : typeclass_instances.
(** * The manager *)

Record CheckpointManager (W : Type) := {
  ck_disk : Disk;
  next_id : Z;
  ck_wal : WalWriter W
}.
Arguments ck_disk {W} _.
Arguments next_id {W} _.
Arguments ck_wal {W} _.

Definition ckpt_name (id : Z) : string := "ckpt_" +:+ decimal id.
Definition ckpt_tmp_name (id : Z) : string := ".ckpt_" +:+ decimal id +:+ ".tmp".

Section manager.
Context `{WalLog W} `{!WalMaint W} `{Crc32} `{!Codec CheckpointStateV1} `{!Codec CheckpointStateV2}
  `{!Codec CheckpointState}.
Context (checkpoint_dir : string).
Implicit Types m : CheckpointManager W.

Definition in_dir (name : string) : string := path_join checkpoint_dir name.

(** Disk operations and operations of the locked writer. *)
Definition on_disk {E A} (c : io E A) : st (CheckpointManager W) E A :=
  io_on ck_disk (λ m d, {| ck_disk := d; next_id := next_id m; ck_wal := ck_wal m |}) c.
Definition set_ck_writer m (w : W) : CheckpointManager W :=
  {| ck_disk := ck_disk m; next_id := next_id m; ck_wal := set_writer (ck_wal m) w |}.
Definition on_writer {A} (f : W → W * A) : st (CheckpointManager W) RockDuckError A := λ m,
  let '(w, a) := f (writer (ck_wal m)) in (set_ck_writer m w, Done (Ok a)).
Definition on_writer_try (prefix : string) (f : W → W * result string unit)
    : st (CheckpointManager W) RockDuckError unit :=
  r <-! on_writer f; io_lift (map_err (λ e, EWrite (prefix +:+ e)) r).

Definition discover_max_id (dir : string) : io IoError (option Z) :=
  r <-! io_ok (fs_read_dir dir);
  io_ret (names ← r;
          max_by_key id (omap (λ n, s ← strip_prefix "ckpt_" n;
                                    match parse_u64 s with Ok v => Some v | Err _ => None end) names)).

(** [id + 1] is checked in a build with debug assertions and wraps otherwise. *)
Definition CheckpointManager_new (wal : WalWriter W) : io RockDuckError (CheckpointManager W) :=
  _ <-! io_map_err (err_write "create checkpoint dir") (fs_create_dir_all checkpoint_dir);
  max <-! io_map_err err_io (discover_max_id checkpoint_dir);
  λ d, (d, Done (Ok {| ck_disk := d; next_id := match max with Some id => wrap64 (id + 1) | None => 0 end;
                       ck_wal := wal |})).

Definition fsync_file (p : string) : io IoError unit := _ <-! fs_open p; fs_sync p.
Definition sync_dir : io IoError unit := _ <-! fs_open_dir checkpoint_dir; fs_sync checkpoint_dir.

Definition envelope (payload : bytes) : bytes :=
  to_le_bytes 4 CKPT_MAGIC ++ [CKPT_VERSION] ++ to_le_bytes 4 (crc32 0 payload)
  ++ to_le_bytes 4 (zlen payload) ++ payload.

Definition fetch_next_id : st (CheckpointManager W) RockDuckError Z := λ m,
  ({| ck_disk := ck_disk m; next_id := wrap64 (next_id m + 1); ck_wal := ck_wal m |}, Done (Ok (next_id m))).

(** Steps 1 to 5. *)
Definition write_checkpoint_files (id : Z) (state : CheckpointState) : io RockDuckError unit :=
  let tmp_path := in_dir (ckpt_tmp_name id) in
  payload <-! io_lift (map_err (λ e, EInternal ("checkpoint serialize: " +:+ codec_error_display e)) (encode state));
  _ <-! io_map_err (err_write "write checkpoint file") (fs_write tmp_path (envelope payload));
  _ <-! io_map_err err_io (fsync_file tmp_path);
  _ <-! io_map_err (err_write "rename checkpoint") (fs_rename tmp_path (in_dir (ckpt_name id)));
  let latest_tmp := in_dir ".latest.tmp" in
  _ <-! io_map_err (err_write "write _LATEST") (fs_write latest_tmp (as_bytes (decimal id)));
  _ <-! io_map_err err_io (fsync_file latest_tmp);
  _ <-! io_map_err (err_write "rename _LATEST") (fs_rename latest_tmp (in_dir "_LATEST"));
  io_map_err err_io sync_dir.

(** Steps 6 and 7. *)
Definition mark_and_truncate (id : Z) : st (CheckpointManager W) RockDuckError unit :=
  let ckpt_op := {| op_type := OCheckpoint; op_txn_id := 0; payload := PCheckpoint id |} in
  _ <-! on_writer_try "checkpoint WAL append: " (λ w, wl_append w ckpt_op);
  _ <-! on_writer_try "checkpoint WAL flush: " wl_flush_and_sync;
  opened <-! on_writer wl_open_directory;
  if (opened : bool) then
    _ <-! on_writer_try "WAL flush before truncate: " wl_flush_and_sync;
    last <-! on_writer (λ w, (w, wl_last_entry_id w));
    match last with
    | None => io_throw (EWrite "last_entry_id returned None after flush")
    | Some last_id =>
        if last_id =? 0
        then io_throw (EWrite "last_entry_id returned 0 after flush - refusing to truncate WAL to zero")
        else on_writer_try "WAL truncate_prefix: " (λ w, wl_truncate_prefix w last_id)
    end
  else io_ret tt.

Definition checkpoint (state : CheckpointState) : st (CheckpointManager W) RockDuckError Z :=
  id <-! fetch_next_id;
  _ <-! on_disk (write_checkpoint_files id state);
  _ <-! mark_and_truncate id;
  io_ret id.

(** [postcard::from_bytes(..)], with a failure logged. *)
Definition decoded {A} `{Codec A} (f : A → CheckpointState) (payload : bytes) : option CheckpointState :=
  match decode payload with Ok a => Some (f a) | Err _ => None end.

Definition check_checkpoint (data : bytes) : option CheckpointState :=
  if zlen data <? 13 then None else
  if negb (from_le_bytes (zslice data 0 4) =? CKPT_MAGIC) then None else
  let version := default 0 (data !! 4%nat) in
  let read_crc := from_le_bytes (zslice data 5 9) in
  let payload_len := from_le_bytes (zslice data 9 13) in
  if negb (13 + payload_len =? zlen data) then None else
  let payload := zslice data 13 (zlen data) in
  if version =? 1 then
    decoded (λ v1, {| cs_checkpoint_id := v1_checkpoint_id v1; cs_committed_txn := v1_committed_txn v1;
                      cs_timestamp_ms := v1_timestamp_ms v1; cs_replay_watermark := 0; cs_mvcc := None |}) payload
  else if version =? 2 then
    decoded (λ v2, {| cs_checkpoint_id := v2_checkpoint_id v2; cs_committed_txn := v2_committed_txn v2;
                      cs_timestamp_ms := v2_timestamp_ms v2; cs_replay_watermark := 0; cs_mvcc := v2_mvcc v2 |}) payload
  else if negb (version =? CKPT_VERSION) then None
  else if negb (crc32 0 payload =? read_crc) then None
  else decoded (λ s, s) payload.

Definition load_checkpoint (p : string) : io RockDuckError (option CheckpointState) :=
  r <-! io_ok (fs_read p); io_ret (data ← r; check_checkpoint data).

(** [fs::read_to_string] *)
Definition fs_read_to_string (p : string) : io IoError string :=
  bs <-! fs_read p;
  match from_utf8 bs with
  | Some s => io_ret s
  | None => io_throw {| io_kind := InvalidData; io_text := "stream did not contain valid UTF-8" |}
  end.

Definition load_latest : io RockDuckError (option (Z * CheckpointState)) :=
  let latest_path := in_dir "_LATEST" in
  ex <-! fs_exists latest_path;
  if negb ex then io_ret None else
  text <-! io_map_err err_io (fs_read_to_string latest_path);
  id <-! io_lift (map_err (λ e, EInternal ("parse checkpoint id: " +:+ ParseIntError_display e))
                          (parse_u64 (str_trim text)));
  found <-! load_checkpoint (in_dir (ckpt_name id));
  match found with
  | Some state => io_ret (Some (id, state))
  | None =>
      if id =? 0 then io_ret None else
      fallback <-! load_checkpoint (in_dir (ckpt_name (id - 1)));
      match fallback with
      | Some state => io_ret (Some (id - 1, state))
      | None => io_throw (EInternal ("fallback checkpoint ckpt_" +:+ decimal (id - 1) +:+ " also missing/corrupt"))
      end
  end.

(** What a start with no failing read finds. *)
Definition latest (fs : gmap string bytes) : outcome (result RockDuckError (option (Z * CheckpointState))) :=
  (load_latest (new_disk fs)).2.
End manager.

(** * Proofs: names and numbers *)

Lemma digits_value_ge s acc : 0 ≤ acc → acc ≤ digits_value acc s.
Proof.
  revert acc. induction s as [|c s IH]; intros acc Ha; [done|]. cbn [digits_value].
  destruct (is_ascii_digit c) eqn:Hc; [|by apply IH].
  assert (0 ≤ digit c) as Hd by (revert Hc; unfold is_ascii_digit, in_range, digit; lia).
  etrans; [|apply IH; lia]. lia.
Qed.

Lemma parse_digits_value s acc : all_chars is_ascii_digit s = true → 0 ≤ acc → digits_value acc s ≤ u64_max →
  parse_digits acc s = Ok (digits_value acc s).
Proof.
  revert acc. induction s as [|c s IH]; intros acc; [done|]. cbn. intros [Hc Hs]%andb_true_iff Ha. rewrite Hc. cbn.
  assert (0 ≤ digit c) as Hd by (revert Hc; unfold is_ascii_digit, in_range, digit; lia). intros Hv.
  pose proof (digits_value_ge s (10 * acc + digit c) ltac:(lia)).
  destruct (Z.ltb_spec u64_max (10 * acc + digit c)); [lia|]. apply IH; [done|lia|done].
Qed.

Lemma decimal_digits z : 0 ≤ z → all_chars is_ascii_digit (decimal z) = true.
Proof. intros. by apply dec_go_digits. Qed.

Lemma decimal_value z : is_u64 z → digits_value 0 (decimal z) = z.
Proof.
  intros Hz. unfold decimal. rewrite dec_go_value; [done|]. unfold is_u64, u64_max in Hz.
  change (10 ^ Z.of_nat 20) with 100000000000000000000. lia.
Qed.

Lemma parse_decimal z : is_u64 z → parse_u64 (decimal z) = Ok z.
Proof.
  intros Hz. unfold parse_u64.
  pose proof (decimal_digits z ltac:(unfold is_u64 in Hz; lia)) as Hd. pose proof (decimal_value z Hz) as Hv.
  pose proof (dec_go_cons 20 z "" ltac:(by right)) as Hne. change (dec_go 20 z "") with (decimal z) in Hne.
  destruct (decimal z) as [|c s]; [done|]. rewrite bool_decide_false.
  - rewrite (parse_digits_value _ 0 Hd) by (rewrite ?Hv; unfold is_u64 in Hz; lia). by rewrite Hv.
  - intros ->. by apply andb_true_iff in Hd as [? _].
Qed.

Lemma decimal_inj a b : is_u64 a → is_u64 b → decimal a = decimal b → a = b.
Proof. intros Ha Hb E. rewrite <- (decimal_value a), <- (decimal_value b) by done. by rewrite E. Qed.

Lemma digit_bytes s : all_chars is_ascii_digit s = true → Forall (λ b, 48 ≤ b ≤ 57) (as_bytes s).
Proof.
  induction s as [|c s IH]; cbn; [constructor|]. intros [Hc Hs]%andb_true_iff. constructor; [|by apply IH].
  revert Hc. unfold is_ascii_digit, in_range, code. lia.
Qed.

Lemma trim_with_digits ws2 ws3 bs :
  (∀ a b, 48 ≤ a ≤ 57 → 48 ≤ b ≤ 57 → ws2 a b = false) →
  (∀ a b c, 48 ≤ a ≤ 57 → 48 ≤ c ≤ 57 → ws3 a b c = false) →
  Forall (λ b, 48 ≤ b ≤ 57) bs → trim_with ws2 ws3 bs = bs.
Proof.
  intros H2 H3 Hbs. destruct bs as [|a [|b [|c r]]]; rewrite ?Forall_cons in Hbs; cbn [trim_with]; [done|..];
    (replace (is_ws1 a) with false by (unfold is_ws1, in_range; lia)); [done|..];
    rewrite ?H2, ?H3 by tauto; done.
Qed.

Lemma trim_digits s : all_chars is_ascii_digit s = true → str_trim s = s.
Proof.
  intros Hs%digit_bytes. unfold str_trim, trim_end, trim_start.
  rewrite (trim_with_digits is_ws2 is_ws3 (as_bytes s)); [|unfold is_ws2; lia|unfold is_ws3; lia|done].
  rewrite trim_with_digits; [|unfold is_ws2; lia|unfold is_ws3; lia|by apply Forall_rev].
  by rewrite rev_involutive, string_of_as_bytes.
Qed.

Lemma string_app_inj a b c : a +:+ b = a +:+ c → b = c.
Proof. induction a as [|x a IH]; [done|]. intros [= E]. by apply IH. Qed.

Lemma path_join_inj d a b : is_absolute a = false → is_absolute b = false → path_join d a = path_join d b → a = b.
Proof.
  intros Ha Hb. unfold path_join. rewrite Ha, Hb. case_bool_decide; [done|]. case_bool_decide; [by apply string_app_inj|].
  intros E%string_app_inj. by injection E.
Qed.

(** The names of the directory are distinct. *)
Lemma in_dir_ne dir a b : is_absolute a = false → is_absolute b = false → a ≠ b → in_dir dir a ≠ in_dir dir b.
Proof. intros Ha Hb Hne E%path_join_inj; done. Qed.
#[local] Hint Extern 1 (in_dir _ _ ≠ in_dir _ _) => apply in_dir_ne; [done|done|done] : core.

Lemma ckpt_path_inj dir a b : is_u64 a → is_u64 b → in_dir dir (ckpt_name a) = in_dir dir (ckpt_name b) → a = b.
Proof. intros Ha Hb E%path_join_inj; [|done..]. by apply string_app_inj, decimal_inj in E. Qed.

(** * Proofs: loading *)

Section loading.
Context `{Crc32Laws} `{!Codec CheckpointStateV1} `{!Codec CheckpointStateV2} `{CodecLaws CheckpointState}.
Context (dir : string).
Implicit Types fs : gmap string bytes.

(** A file with any version and any stored checksum. *)
Definition raw_envelope (version crc : Z) (payload : bytes) : bytes :=
  to_le_bytes 4 CKPT_MAGIC ++ [version] ++ to_le_bytes 4 crc ++ to_le_bytes 4 (zlen payload) ++ payload.

Lemma check_raw version crc payload : is_u32 crc → zlen payload ≤ u32_max →
  check_checkpoint (raw_envelope version crc payload) =
    if version =? 1 then decoded (λ v1, {| cs_checkpoint_id := v1_checkpoint_id v1; cs_committed_txn := v1_committed_txn v1;
        cs_timestamp_ms := v1_timestamp_ms v1; cs_replay_watermark := 0; cs_mvcc := None |}) payload
    else if version =? 2 then decoded (λ v2, {| cs_checkpoint_id := v2_checkpoint_id v2; cs_committed_txn := v2_committed_txn v2;
        cs_timestamp_ms := v2_timestamp_ms v2; cs_replay_watermark := 0; cs_mvcc := v2_mvcc v2 |}) payload
    else if negb (version =? CKPT_VERSION) then None
    else if negb (crc32 0 payload =? crc) then None else decoded (λ s, s) payload.
Proof.
  intros Hcrc Hlen. unfold check_checkpoint.
  set (M := to_le_bytes 4 CKPT_MAGIC). set (C := to_le_bytes 4 crc). set (L := to_le_bytes 4 (zlen payload)).
  assert (raw_envelope version crc payload = M ++ [version] ++ C ++ L ++ payload) as -> by done.
  assert (zlen M = 4) as HM by done. assert (zlen C = 4) as HC by apply zlen_to_le_bytes.
  assert (zlen L = 4) as HL by apply zlen_to_le_bytes.
  set (data := M ++ _). assert (zlen data = 13 + zlen payload) as Hd
    by (unfold data; autorewrite with zlen; rewrite HM, HC, HL; lia).
  pose proof (zlen_nonneg payload). rewrite (proj2 (Z.ltb_ge _ _)) by lia.
  assert (zslice data 0 4 = M) as -> by (apply (zslice_mid [] M); by rewrite ?HM).
  assert (zslice data 5 9 = C) as ->.
  { unfold data. rewrite (assoc_L (++) M). apply zslice_mid; autorewrite with zlen; rewrite ?HM, ?HC; lia. }
  assert (zslice data 9 13 = L) as ->.
  { unfold data. rewrite (assoc_L (++) M), (assoc_L (++) (M ++ _)).
    apply zslice_mid; autorewrite with zlen; rewrite ?HM, ?HC, ?HL; lia. }
  assert (zslice data 13 (zlen data) = payload) as ->.
  { rewrite Hd. unfold data. rewrite (assoc_L (++) M), (assoc_L (++) (M ++ _)), (assoc_L (++) ((M ++ _) ++ _)).
    apply zslice_suffix; autorewrite with zlen; rewrite ?HM, ?HC, ?HL; lia. }
  assert (from_le_bytes L = zlen payload) as ->.
  { apply (from_to_le_bytes 4). split; [done|]. unfold u32_max in Hlen. change (256 ^ Z.of_nat 4) with 4294967296. lia. }
  assert (from_le_bytes C = crc) as ->.
  { apply (from_to_le_bytes 4). unfold is_u32, u32_max in Hcrc. change (256 ^ Z.of_nat 4) with 4294967296. lia. }
  by rewrite Hd, !Z.eqb_refl.
Qed.

Lemma check_envelope state payload : encode state = Ok payload → zlen payload ≤ u32_max →
  check_checkpoint (envelope payload) = Some state.
Proof.
  intros He Hlen. change (envelope payload) with (raw_envelope CKPT_VERSION (crc32 0 payload) payload).
  rewrite check_raw by (apply crc32_range || done). cbn -[crc32]. rewrite Z.eqb_refl. cbn. unfold decoded.
  by rewrite (decode_encode _ _ He).
Qed.

(** A file cut short does not load. *)
Lemma check_truncated payload n : zlen payload ≤ u32_max →
  (n < length (envelope payload))%nat → check_checkpoint (take n (envelope payload)) = None.
Proof.
  intros Hlen Hn. unfold check_checkpoint. destruct (Z.ltb_spec (zlen (take n (envelope payload))) 13) as [|Hge]; [done|].
  assert (zlen (envelope payload) = 13 + zlen payload) as Hd by (unfold envelope; autorewrite with zlen; lia).
  autorewrite with zlen in Hge |- *.
  rewrite !zslice_take by lia.
  assert (zslice (envelope payload) 9 13 = to_le_bytes 4 (zlen payload)) as ->.
  { unfold envelope. rewrite (assoc_L (++) (to_le_bytes 4 CKPT_MAGIC)), (assoc_L (++) (to_le_bytes 4 CKPT_MAGIC ++ _)).
    apply zslice_mid; autorewrite with zlen; lia. }
  pose proof (zlen_nonneg payload).
  rewrite (from_to_le_bytes 4) by (unfold u32_max in Hlen; change (256 ^ Z.of_nat 4) with 4294967296; lia).
  destruct (negb _); [done|]. rewrite (proj2 (Z.eqb_neq _ _)); [done|]. unfold zlen in *. lia.
Qed.

Definition stored fs (id : Z) : option CheckpointState := data ← fs !! in_dir dir (ckpt_name id); check_checkpoint data.

Lemma load_checkpoint_new fs p :
  load_checkpoint p (new_disk fs) = (new_disk fs, Done (Ok (data ← fs !! p; check_checkpoint data))).
Proof.
  unfold load_checkpoint, io_bind, io_ok, fs_read, fs_op, io_ret. cbn. by destruct (fs !! p).
Qed.

Lemma latest_unfold fs : latest dir fs =
  match fs !! in_dir dir "_LATEST" with
  | None => Done (Ok None)
  | Some bs =>
      match from_utf8 bs with
      | None => Done (Err (EIo InvalidData "stream did not contain valid UTF-8"))
      | Some text =>
          match parse_u64 (str_trim text) with
          | Err e => Done (Err (EInternal ("parse checkpoint id: " +:+ ParseIntError_display e)))
          | Ok id =>
              match stored fs id with
              | Some s => Done (Ok (Some (id, s)))
              | None =>
                  if id =? 0 then Done (Ok None) else
                  match stored fs (id - 1) with
                  | Some s => Done (Ok (Some (id - 1, s)))
                  | None => Done (Err (EInternal ("fallback checkpoint ckpt_" +:+ decimal (id - 1) +:+ " also missing/corrupt")))
                  end
              end
          end
      end
  end.
Proof.
  unfold latest, load_latest, fs_exists, fs_read_to_string, fs_read, fs_op, io_bind, io_gets, io_map_err, io_ret, io_throw, io_lift.
  cbn -[load_checkpoint]. destruct (fs !! in_dir dir "_LATEST") as [bs|] eqn:EL; cbn -[load_checkpoint]; [|done].
  rewrite EL. cbn -[load_checkpoint]. destruct (from_utf8 bs) as [text|]; cbn -[load_checkpoint]; [|done].
  destruct (parse_u64 (str_trim text)) as [id|e]; cbn -[load_checkpoint]; [|done].
  change {| disk_files := fs; disk_faults := [] |} with (new_disk fs). rewrite load_checkpoint_new. fold (stored fs id).
  destruct (stored fs id); [done|]. destruct (id =? 0); [done|].
  rewrite load_checkpoint_new. fold (stored fs (id - 1)). by destruct (stored fs (id - 1)).
Qed.
End loading.

(** * Proofs: writing *)

Lemma parse_digits_range s acc v : 0 ≤ acc ≤ u64_max → parse_digits acc s = Ok v → is_u64 v.
Proof.
  revert acc. induction s as [|c s IH]; intros acc Ha; cbn; [by intros [= <-]|].
  destruct (is_ascii_digit c) eqn:Hc; cbn; [|done]. destruct (Z.ltb_spec u64_max (10 * acc + digit c)); [done|].
  apply IH. unfold is_ascii_digit, in_range, digit in *. lia.
Qed.
Lemma parse_u64_range s v : parse_u64 s = Ok v → is_u64 v.
Proof.
  unfold parse_u64. destruct s as [|c s]; [done|].
  case_bool_decide; [destruct s; [done|]|]; apply parse_digits_range; by unfold u64_max.
Qed.

Section writing.
Context `{Crc32Laws} `{!Codec CheckpointStateV1} `{!Codec CheckpointStateV2} `{CodecLaws CheckpointState}.
Context (dir : string) (n : Z) (state : CheckpointState) (b : bytes) (fs0 : gmap string bytes).
Context (Hn : is_u64 n) (Hb : encode state = Ok b) (Hlen : zlen b ≤ u32_max).
Implicit Types fs : gmap string bytes.

Local Abbreviation tmp := (in_dir dir (ckpt_tmp_name n)).
Local Abbreviation ck := (in_dir dir (ckpt_name n)).
Local Abbreviation ltmp := (in_dir dir ".latest.tmp").
Local Abbreviation lat := (in_dir dir "_LATEST").

Definition agree (ps : list string) fs : Prop := ∀ p, p ∉ ps → fs !! p = fs0 !! p.
Definition is_new fs : Prop := latest dir fs = Done (Ok (Some (n, state))).
Definition old_or_new fs : Prop := latest dir fs = latest dir fs0 ∨ is_new fs.

Lemma stored_new fs : fs !! ck = Some (envelope b) → stored dir fs n = Some state.
Proof. intros E. unfold stored. rewrite E. cbn. by apply check_envelope. Qed.

Lemma stored_agree fs k : agree [tmp; ck; ltmp] fs → is_u64 k → k ≠ n → stored dir fs k = stored dir fs0 k.
Proof.
  intros Ha Hk Hne. unfold stored. rewrite Ha; [done|].
  rewrite !not_elem_of_cons. split_and!; [by apply in_dir_ne|intros E; by apply Hne, (ckpt_path_inj dir)|
    by apply in_dir_ne|apply not_elem_of_nil].
Qed.

Lemma latest_agree fs : agree [tmp] fs → latest dir fs = latest dir fs0.
Proof.
  intros Ha. rewrite !latest_unfold.
  assert (∀ k, stored dir fs k = stored dir fs0 k) as Hs.
  { intros k. unfold stored. rewrite Ha; [done|]. apply not_elem_of_cons. split; [by apply in_dir_ne|apply not_elem_of_nil]. }
  rewrite Ha by (apply not_elem_of_cons; split; [by apply in_dir_ne|apply not_elem_of_nil]).
  repeat case_match; rewrite ?Hs in *; congruence.
Qed.

Lemma latest_ck fs : agree [tmp; ck; ltmp] fs → fs !! ck = Some (envelope b) → old_or_new fs.
Proof.
  intros Ha E. unfold old_or_new, is_new. rewrite !latest_unfold.
  assert (fs !! in_dir dir "_LATEST" = fs0 !! in_dir dir "_LATEST") as ->.
  { apply Ha. rewrite !not_elem_of_cons. split_and!; try by apply in_dir_ne. apply not_elem_of_nil. }
  destruct (fs0 !! _) as [bs|]; [|by left]. destruct (from_utf8 bs) as [t|]; [|by left].
  destruct (parse_u64 (str_trim t)) as [id|e] eqn:Hp; [|by left]. apply parse_u64_range in Hp.
  destruct (decide (id = n)) as [Heq|Hne]; [right; by rewrite Heq, (stored_new _ E)|].
  rewrite (stored_agree fs id) by done. destruct (stored dir fs0 id); [by left|].
  destruct (Z.eqb_spec id 0); [by left|].
  destruct (decide (id - 1 = n)) as [Heq|Hne']; [right; by rewrite Heq, (stored_new _ E)|].
  rewrite (stored_agree fs (id - 1)); [by left|done| |done]. unfold is_u64 in *. lia.
Qed.

Lemma latest_new fs : fs !! lat = Some (as_bytes (decimal n)) → fs !! ck = Some (envelope b) → is_new fs.
Proof.
  intros El Ec. unfold is_new. rewrite latest_unfold, El.
  pose proof (decimal_digits n ltac:(unfold is_u64 in Hn; lia)) as Hd.
  rewrite from_utf8_as_bytes by (apply ascii_utf8; eapply Forall_impl; [by apply digit_bytes|cbn; lia]).
  by rewrite trim_digits, parse_decimal, (stored_new _ Ec).
Qed.

(** Reading a file's handle or syncing it changes nothing. *)
Lemma fsync_triple p (P C : gmap string bytes → Prop) : (∀ fs, P fs → C fs) →
  triple (λ d, P (disk_files d)) (fsync_file p) (λ _ d, P (disk_files d)) (λ d, C (disk_files d)).
Proof.
  intros HC. eapply triple_bind; [apply (fs_op_triple _ _ P (λ _, P) C)|intros ?; apply (fs_op_triple _ _ P (λ _, P) C)];
    try done; cbn; auto. intros fs HP. destruct (fs !! p); auto.
Qed.

Lemma write_files_triple :
  triple (λ d, disk_files d = fs0) (write_checkpoint_files dir n state)
    (λ _ d, is_new (disk_files d)) (λ d, old_or_new (disk_files d)).
Proof.
  assert (tmp ≠ ck ∧ ltmp ≠ ck ∧ lat ≠ ck ∧ ltmp ≠ lat) as (Ht & Hl & Hc & Hll).
  { split_and!; by apply in_dir_ne. }
  assert (∀ fs, is_new fs → old_or_new fs) as Hnew by (by right).
  assert (∀ fs, agree [tmp] fs → old_or_new fs) as Hold by (left; by apply latest_agree).
  set (ph1 := λ fs : gmap string bytes, agree [tmp] fs ∧ fs !! tmp = Some (envelope b)).
  set (ph2 := λ fs : gmap string bytes, agree [tmp; ck; ltmp] fs ∧ fs !! ck = Some (envelope b)).
  set (ph3 := λ fs : gmap string bytes, ph2 fs ∧ fs !! ltmp = Some (as_bytes (decimal n))).
  assert (∀ fs, ph2 fs → old_or_new fs) as Hph2 by (intros fs []; by apply latest_ck).
  unfold write_checkpoint_files. rewrite Hb.
  eapply (triple_bind _ _ _ (λ p d, p = b ∧ disk_files d = fs0)); [by intros ds Hd|intros p; apply triple_pure; intros Hpb; subst p].
  eapply triple_bind; [apply triple_map_err, (fs_op_triple _ _ (λ fs, fs = fs0) (λ _, ph1) old_or_new)|intros ?; cbn beta].
  { intros k fs Hfs. apply Hold. intros p Hp. rewrite Hfs. apply lookup_insert_ne. set_solver. }
  { intros fs Hfs. split; [|apply lookup_insert_eq]. intros p Hp. rewrite Hfs. apply lookup_insert_ne. set_solver. }
  eapply triple_bind; [apply triple_map_err, (fsync_triple _ ph1 old_or_new)|intros ?; cbn beta].
  { intros fs []. by apply Hold. }
  eapply triple_bind; [apply triple_map_err, (fs_op_triple _ _ ph1 (λ _, ph2) old_or_new)|intros ?; cbn beta].
  { intros k fs []. by apply Hold. }
  { intros fs [Ha E]. rewrite E. split; [|apply lookup_insert_eq]. intros p Hp.
    rewrite lookup_insert_ne, lookup_delete_ne by set_solver. apply Ha. set_solver. }
  eapply triple_bind; [apply triple_map_err, (fs_op_triple _ _ ph2 (λ _, ph3) old_or_new)|intros ?; cbn beta].
  { intros k fs [Ha E]. apply Hph2. split; [|by rewrite lookup_insert_ne].
    intros p Hp. rewrite lookup_insert_ne by set_solver. by apply Ha. }
  { intros fs [Ha E]. split; [split; [|by rewrite lookup_insert_ne]|apply lookup_insert_eq].
    intros p Hp. rewrite lookup_insert_ne by set_solver. by apply Ha. }
  eapply triple_bind; [apply triple_map_err, (fsync_triple _ ph3 old_or_new)|intros ?; cbn beta].
  { intros fs []. by apply Hph2. }
  eapply triple_bind; [apply triple_map_err, (fs_op_triple _ _ ph3 (λ _, is_new) old_or_new)|intros ?; cbn beta].
  { intros k fs []. by apply Hph2. }
  { intros fs [[Ha E] El]. rewrite El. apply latest_new; [apply lookup_insert_eq|].
    by rewrite lookup_insert_ne, lookup_delete_ne by done. }
  apply triple_map_err. eapply triple_bind; [apply (fs_op_triple _ _ is_new (λ _, is_new) old_or_new)|
    intros ?; apply (fs_op_triple _ _ is_new (λ _, is_new) old_or_new)]; auto.
Qed.
End writing.

(** * Theorems *)

Section theorems.
Context `{WalLog W} `{!WalMaint W} `{Crc32Laws} `{!Codec CheckpointStateV1} `{!Codec CheckpointStateV2}
  `{CodecLaws CheckpointState}.
Context (dir : string).
Implicit Types m : CheckpointManager W.

Lemma on_writer_triple {A} (f : W → W * A) (P : Disk → Prop) C :
  triple (λ m, P (ck_disk m)) (on_writer f) (λ _ m, P (ck_disk m)) C.
Proof. intros m HP. unfold on_writer. by destruct (f (writer (ck_wal m))). Qed.

Lemma on_writer_try_triple prefix f (P : Disk → Prop) :
  triple (λ m, P (ck_disk m)) (on_writer_try prefix f) (λ _ m, P (ck_disk m)) (λ m, P (ck_disk m)).
Proof.
  eapply triple_bind; [apply on_writer_triple|]. intros [[]|e] m HP; exact HP.
Qed.

Lemma mark_triple id (P : Disk → Prop) :
  triple (λ m, P (ck_disk m)) (mark_and_truncate id) (λ _ m, P (ck_disk m)) (λ m, P (ck_disk m)).
Proof.
  eapply triple_bind; [apply on_writer_try_triple|intros ?]. eapply triple_bind; [apply on_writer_try_triple|intros ?].
  eapply triple_bind; [apply on_writer_triple|intros [|]; [|by intros ?]].
  eapply triple_bind; [apply on_writer_try_triple|intros ?].
  eapply triple_bind; [apply on_writer_triple|intros [last|]; [|by intros ?]].
  destruct (last =? 0); [by intros ?|apply on_writer_try_triple].
Qed.

(** C21: Whatever operation of a checkpoint fails, a start afterwards finds the
    checkpoint it would have found before or the new one; it finds the new one when
    the call returned [Ok], and the log is as it was unless it finds the new one. *)
Theorem checkpoint_atomic m state b :
  is_u64 (next_id m) → encode state = Ok b → zlen b ≤ u32_max →
  let '(m', o) := checkpoint dir state m in
  let now := latest dir (disk_files (ck_disk m')) in
  let new := Done (Ok (Some (next_id m, state))) in
  match o with
  | Done (Ok id) => id = next_id m ∧ now = new
  | Done (Err _) => now = new ∨ (now = latest dir (disk_files (ck_disk m)) ∧ ck_wal m' = ck_wal m)
  | Panic => False
  end.
Proof.
  intros Hn Hb Hlen. unfold checkpoint, io_bind, fetch_next_id, on_disk, io_on. cbn -[write_checkpoint_files mark_and_truncate].
  pose proof (write_files_triple dir (next_id m) state b (disk_files (ck_disk m)) Hn Hb Hlen (ck_disk m) eq_refl) as Hw.
  destruct (write_checkpoint_files dir (next_id m) state (ck_disk m)) as [d [[u|e]|]]; cbn -[mark_and_truncate];
    [|destruct Hw; auto|done].
  pose proof (mark_triple (next_id m) (λ d, is_new dir (next_id m) state (disk_files d))) as Hm.
  match goal with |- context [mark_and_truncate _ ?m1] => specialize (Hm m1 Hw); destruct (mark_and_truncate (next_id m) m1) as [m2 [[v|e]|]] end;
    cbn; auto.
Qed.

(** A checkpoint file of version 2 loads whatever its checksum field holds. *)
Theorem old_version_not_checked crc payload v2 :
  is_u32 crc → zlen payload ≤ u32_max → decode payload = Ok v2 →
  check_checkpoint (raw_envelope 2 crc payload) =
    Some {| cs_checkpoint_id := v2_checkpoint_id v2; cs_committed_txn := v2_committed_txn v2;
            cs_timestamp_ms := v2_timestamp_ms v2; cs_replay_watermark := 0; cs_mvcc := v2_mvcc v2 |}.
Proof. intros Hc Hl Hd. rewrite check_raw by done. cbn -[decode]. unfold decoded. by rewrite Hd. Qed.

Lemma strip_prefix_app p s : strip_prefix p (p +:+ s) = Some s.
Proof. induction p as [|c p IH]; [by destruct s|].
  change (String c p +:+ s) with (String c (p +:+ s)). cbn [strip_prefix]. by rewrite bool_decide_true.
Qed.

Lemma strip_prefix_inv p s t : strip_prefix p s = Some t → s = p +:+ t.
Proof.
  revert s. induction p as [|c p IH]; intros [|d s]; cbn; try (by intros [= <-]).
  case_bool_decide; [|done]. intros Hs%IH. by subst.
Qed.

Lemma path_join_name d name : d ≠ "" → is_absolute name = false →
  strip_prefix (path_join d "") (path_join d name) = Some name.
Proof.
  intros Hd Hn. unfold path_join. rewrite Hn. cbn [is_absolute]. rewrite !(bool_decide_false (d = "")) by done.
  case_bool_decide; [change name with ("" +:+ name) at 1|change ("/" +:+ "") with "/"]; rewrite <- path_app_assoc; apply strip_prefix_app.
Qed.

Lemma digits_no_slash s : all_chars is_ascii_digit s = true → str_has slash_char s = false.
Proof.
  induction s as [|c s IH]; [done|]. cbn. intros [Hc Hs]%andb_true_iff. rewrite IH by done.
  rewrite bool_decide_false; [done|]. by intros ->.
Qed.

Lemma ckpt_in_dir fs k : dir ≠ "" → is_u64 k → is_Some (fs !! in_dir dir (ckpt_name k)) → ckpt_name k ∈ dir_names dir fs.
Proof.
  intros Hd Hk [bs E]. unfold dir_names. apply list_elem_of_filter. split.
  - pose proof (decimal_digits k ltac:(unfold is_u64 in Hk; lia)) as Hds. exact (digits_no_slash _ Hds).
  - apply list_elem_of_omap. exists (in_dir dir (ckpt_name k), bs).
    split; [by apply elem_of_map_to_list|]. by apply path_join_name.
Qed.

(** A manager opened with no failing call numbers its checkpoints above all those
    in its directory, unless a name there has the largest number. *)
Theorem new_id_fresh wal fs m d k :
  dir ≠ "" → io_returns (CheckpointManager_new dir wal) (new_disk fs) m d →
  is_u64 k → is_Some (fs !! in_dir dir (ckpt_name k)) →
  k < next_id m ∨ next_id m = 0 ∧ ∃ s, ("ckpt_" +:+ s) ∈ dir_names dir fs ∧ parse_u64 s = Ok u64_max.
Proof.
  intros Hdir Hr Hk Hin%ckpt_in_dir; [|done..].
  set (ids := omap (λ n, s ← strip_prefix "ckpt_" n; match parse_u64 s with Ok v => Some v | Err _ => None end) (dir_names dir fs)).
  assert (k ∈ ids) as Hkids.
  { apply list_elem_of_omap. exists (ckpt_name k). split; [done|]. change (match parse_u64 (decimal k) with Ok v => Some v | Err _ => None end = Some k).
    by rewrite parse_decimal. }
  assert (∃ v, max_by_key id ids = Some v ∧ v ∈ ids ∧ k ≤ v) as (v & Hmax & Hv & Hkv).
  { pose proof (max_by_key_spec id ids) as Hs. destruct (max_by_key id ids) as [v|] eqn:E.
    - destruct Hs as [Hv Hle]. exists v. split_and!; [done|done|]. by apply Hle.
    - subst ids. rewrite Hs in Hkids. by apply not_elem_of_nil in Hkids. }
  assert (next_id m = wrap64 (v + 1)) as Hnext.
  { revert Hr. unfold io_returns, CheckpointManager_new, discover_max_id, fs_read_dir, io_bind, io_map_err, io_ok, fs_create_dir_all, fs_op, io_ret.
    cbn -[max_by_key strip_prefix]. fold ids. rewrite Hmax. by intros [= <- <-]. }
  apply list_elem_of_omap in Hv as (nm & Hnm & Hv). destruct (strip_prefix "ckpt_" nm) as [s|] eqn:Hs; cbn in Hv; [|done].
  destruct (parse_u64 s) as [v'|] eqn:Hp; simplify_eq. pose proof (parse_u64_range _ _ Hp) as Hr'. unfold is_u64, u64_max in *.
  destruct (decide (v = 18446744073709551615)) as [->|Hne].
  - right. split; [by rewrite Hnext|]. exists s. by rewrite <- (strip_prefix_inv _ _ _ Hs).
  - left. rewrite Hnext. unfold wrap64. rewrite Z.mod_small by lia. lia.
Qed.
End theorems.

(** A directory in memory and a log that counts its records. *)
#[export] Instance VisibilityConfig_eq_dec : EqDecision VisibilityConfig.
Proof. solve_decision. Defined.
#[export] Instance CheckpointMvccState_eq_dec : EqDecision CheckpointMvccState.
Proof. solve_decision. Defined.
#[export] Instance CheckpointState_eq_dec : EqDecision CheckpointState.
Proof. solve_decision. Defined.
#[export] Instance CheckpointStateV1_eq_dec : EqDecision CheckpointStateV1.
Proof. solve_decision. Defined.
#[export] Instance CheckpointStateV2_eq_dec : EqDecision CheckpointStateV2.
Proof. solve_decision. Defined.

#[export] Instance MemLog_maint : WalMaint MemLog := {
  wl_last_entry_id w := Some (zlen (ml_durable w));
  wl_open_directory w := (w, true);
  wl_truncate_prefix w id :=
    ({| ml_durable := drop (Z.to_nat (id - 1)) (ml_durable w); ml_pending := ml_pending w; ml_fail := ml_fail w |}, Ok tt)
}.

Definition demo_state (txn : Z) : CheckpointState :=
  {| cs_checkpoint_id := txn; cs_committed_txn := txn; cs_timestamp_ms := 7; cs_replay_watermark := 0;
     cs_mvcc := Some {| cm_active_txns := [(6, 1)]; cm_committed_history := [(5, 5)];
                     cm_visibility_config := VisibilityConfig_default |} |}.
Section demo.
#[local] Existing Instance sample_crc.
#[local] Existing Instance sample_crc_laws.
#[local] Instance demo_codec : Codec CheckpointState := table_codec [demo_state 5; demo_state 9].
#[local] Instance demo_codec_laws : CodecLaws CheckpointState := table_codec_laws _.
#[local] Instance demo_codec1 : Codec CheckpointStateV1 := table_codec [].
#[local] Instance demo_codec2 : Codec CheckpointStateV2 := table_codec [].

(** The first checkpoint of a directory, and a second one whose pointer cannot be
    replaced: the first one stays. *)
Definition demo_manager (faults : list (option (IoError * nat))) (fs : gmap string bytes) (id : Z)
    : CheckpointManager MemLog :=
  {| ck_disk := {| disk_files := fs; disk_faults := faults |}; next_id := id;
     ck_wal := Wal.open (demo_log []) demo_sync_config [] |}.
Definition demo_first : gmap string bytes :=
  disk_files (ck_disk (checkpoint "data/checkpoints" (demo_state 5) (demo_manager [] ∅ 0)).1).
Definition demo_second : CheckpointManager MemLog :=
  (checkpoint "data/checkpoints" (demo_state 9)
     (demo_manager [None; None; None; None; None; None; None; Some (no_such_file, 0%nat)] demo_first 1)).1.

Lemma checkpoint_atomic_witness :
  latest "data/checkpoints" demo_first = Done (Ok (Some (0, demo_state 5))) ∧
  latest "data/checkpoints" (disk_files (ck_disk demo_second)) = Done (Ok (Some (0, demo_state 5))).
Proof.
  pose proof (checkpoint_atomic "data/checkpoints" (demo_manager [] ∅ 0) (demo_state 5) [0] ltac:(done) eq_refl ltac:(done)) as H.
  split; [|by vm_compute].
  destruct (checkpoint "data/checkpoints" (demo_state 5) (demo_manager [] ∅ 0)) as [m' o] eqn:E.
  unfold demo_first. rewrite E. cbn. assert (o = Done (Ok 0)) as ->.
  { change o with (m', o).2. rewrite <- E. by vm_compute. }
  exact (proj2 H).
Defined.
End demo.
