(* ===== verification/Db.v ===== *)
(** The transaction interface of the database (db.rs): transaction ids, begin,
    commit and rollback over the log, the visibility manager and the key-value
    store, the cached snapshot, the change log, checkpoints, and the state that
    opening the database recovers from the store, the checkpoint and the log. *)

From stdpp Require Import base gmap strings list pretty.
From S2P Require Import Prelude Kv Visibility TxnManager Wal WalRecovery DeltaTypes Disk SegMeta BloomCache Cdc Checkpoint.

Local Open Scope Z_scope.

(** The writer of the change log: [append_durable] of the library. *)
Class CdcWal (C : Type) := cw_append_durable : C → CdcOp → C * result string unit.
#[global] Hint Mode CdcWal ! : typeclass_instances.

(** The format argument of the message is the literal [0], not the field. *)
Inductive CdcWalError := CwIo (text : string).
Definition CdcWalError_display (_ : CdcWalError) : string := "CDC WAL I/O error: 0".

(** storage/delta/types.rs *)
Record DeltaCheckpointState := {
  dcs_committed_txn : Z;
  dcs_l1_entry_count : Z;
  dcs_l1_size_bytes : Z;
  dcs_l2_patch_counts : Z;
  dcs_l3_patch_counts : Z
}.

(** The log is the one of the checkpoint manager, which shares it. *)
Record RockDuck (KV W C : Type) := {
  db_kv : KV;
  db_mvcc : VisibilityManager;
  txn_counter : Z;
  db_ckpt : CheckpointManager W;
  cached_snapshot : option TxnSnapshot;
  cdc_log_buffer : CdcLogBuffer;
  cdc_wal : option C;
  pending_cdc_entries : gmap TxnId (list CdcLogEntry);
  last_checkpoint_txn : Z
}.
Arguments db_kv {KV W C} _. Arguments db_mvcc {KV W C} _. Arguments txn_counter {KV W C} _.
Arguments db_ckpt {KV W C} _. Arguments cached_snapshot {KV W C} _. Arguments cdc_log_buffer {KV W C} _.
Arguments cdc_wal {KV W C} _. Arguments pending_cdc_entries {KV W C} _. Arguments last_checkpoint_txn {KV W C} _.

Section facade.
Context `{HashIter} `{KVEngine KV} `{!Codec Z} `{!Codec (Z * Z)} `{WalLog W} `{!WalMaint W} `{CdcWal C}.
Implicit Types db : RockDuck KV W C.

Definition set_kv db kv : RockDuck KV W C :=
  {| db_kv := kv; db_mvcc := db_mvcc db; txn_counter := txn_counter db; db_ckpt := db_ckpt db;
     cached_snapshot := cached_snapshot db; cdc_log_buffer := cdc_log_buffer db; cdc_wal := cdc_wal db;
     pending_cdc_entries := pending_cdc_entries db; last_checkpoint_txn := last_checkpoint_txn db |}.
Definition set_mvcc db m : RockDuck KV W C :=
  {| db_kv := db_kv db; db_mvcc := m; txn_counter := txn_counter db; db_ckpt := db_ckpt db;
     cached_snapshot := cached_snapshot db; cdc_log_buffer := cdc_log_buffer db; cdc_wal := cdc_wal db;
     pending_cdc_entries := pending_cdc_entries db; last_checkpoint_txn := last_checkpoint_txn db |}.
Definition set_counter db n : RockDuck KV W C :=
  {| db_kv := db_kv db; db_mvcc := db_mvcc db; txn_counter := n; db_ckpt := db_ckpt db;
     cached_snapshot := cached_snapshot db; cdc_log_buffer := cdc_log_buffer db; cdc_wal := cdc_wal db;
     pending_cdc_entries := pending_cdc_entries db; last_checkpoint_txn := last_checkpoint_txn db |}.
Definition set_ckpt db c : RockDuck KV W C :=
  {| db_kv := db_kv db; db_mvcc := db_mvcc db; txn_counter := txn_counter db; db_ckpt := c;
     cached_snapshot := cached_snapshot db; cdc_log_buffer := cdc_log_buffer db; cdc_wal := cdc_wal db;
     pending_cdc_entries := pending_cdc_entries db; last_checkpoint_txn := last_checkpoint_txn db |}.
Definition set_cached db s : RockDuck KV W C :=
  {| db_kv := db_kv db; db_mvcc := db_mvcc db; txn_counter := txn_counter db; db_ckpt := db_ckpt db;
     cached_snapshot := s; cdc_log_buffer := cdc_log_buffer db; cdc_wal := cdc_wal db;
     pending_cdc_entries := pending_cdc_entries db; last_checkpoint_txn := last_checkpoint_txn db |}.
Definition set_cdc db b w p : RockDuck KV W C :=
  {| db_kv := db_kv db; db_mvcc := db_mvcc db; txn_counter := txn_counter db; db_ckpt := db_ckpt db;
     cached_snapshot := cached_snapshot db; cdc_log_buffer := b; cdc_wal := w;
     pending_cdc_entries := p; last_checkpoint_txn := last_checkpoint_txn db |}.
Definition set_last_checkpoint db t : RockDuck KV W C :=
  {| db_kv := db_kv db; db_mvcc := db_mvcc db; txn_counter := txn_counter db; db_ckpt := db_ckpt db;
     cached_snapshot := cached_snapshot db; cdc_log_buffer := cdc_log_buffer db; cdc_wal := cdc_wal db;
     pending_cdc_entries := pending_cdc_entries db; last_checkpoint_txn := t |}.

Definition db_wal db : WalWriter W := ck_wal (db_ckpt db).
Definition set_wal db (w : WalWriter W) : RockDuck KV W C :=
  set_ckpt db {| ck_disk := ck_disk (db_ckpt db); next_id := next_id (db_ckpt db); ck_wal := w |}.

(** * Transactions *)

Definition next_txn_id db : RockDuck KV W C * Result TxnId :=
  let prev := txn_counter db in
  if prev =? u64_max
  then (db, Err (EInternal "transaction ID counter overflow: u64::MAX reached, cannot allocate new transaction"))
  else (set_counter db (prev + 1), Ok prev).

Definition db_begin_txn db : RockDuck KV W C * Result TxnId :=
  match next_txn_id db with
  | (db, Err e) => (db, Err e)
  | (db, Ok txn_id) =>
      let db := set_cached db None in
      let '(m, kv, r) := begin_txn (db_mvcc db) txn_id (db_kv db) in
      (set_mvcc (set_kv db kv) m,
       _ <-? map_err (λ e, EInternal ("begin_txn failed: " +:+ error_display e)) r; Ok txn_id)
  end.

(** [CdcWalWriter::append_and_flush] *)
Definition append_and_flush (w : C) (op : CdcOp) : C * result CdcWalError unit :=
  let '(w', r) := cw_append_durable w op in (w', map_err (λ e, CwIo ("append_durable: " +:+ e)) r).

(** The entries to the change log, failures only logged, and then to the buffer,
    which stops at the first entry that does not fit. *)
Definition write_cdc_wal (w : option C) (pending : list CdcLogEntry) : option C :=
  (λ w, foldl (λ w e, (append_and_flush w (CdcOp_from_entry e)).1) w pending) <$> w.
Definition buffer_full (d : Z) : RockDuckError :=
  EInternal ("CDC log buffer full during commit: CDC log buffer full; " +:+ pretty d
             +:+ " entries dropped so far (consider increasing cdc.log_buffer_size)").
Fixpoint push_cdc (b : CdcLogBuffer) (pending : list CdcLogEntry) : CdcLogBuffer * Result unit :=
  match pending with
  | [] => (b, Ok tt)
  | e :: rest =>
      match clb_push b e with
      | (b', Ok _) => push_cdc b' rest
      | (b', Err (BufferFull d)) => (b', Err (buffer_full d))
      end
  end.
Definition flush_cdc db (txn_id : TxnId) : RockDuck KV W C * Result unit :=
  let pending := default [] (pending_cdc_entries db !! txn_id) in
  let db := set_cdc db (cdc_log_buffer db) (cdc_wal db) (delete txn_id (pending_cdc_entries db)) in
  match pending with
  | [] => (db, Ok tt)
  | _ =>
      let w := write_cdc_wal (cdc_wal db) pending in
      let '(b, r) := push_cdc (cdc_log_buffer db) pending in
      (set_cdc db b w (pending_cdc_entries db), r)
  end.

(** After the commit record is in the log: the visibility manager, the store and
    the change log.  [ts] and [now_ms] are the clocks the manager reads. *)
Definition commit_after_wal db (txn_id : TxnId) (inserted_at ts now_ms : Z) : RockDuck KV W C * Result unit :=
  let '(m, kv, r) := commit_txn (db_mvcc db) txn_id (db_kv db) inserted_at ts now_ms in
  let db := set_mvcc (set_kv db kv) m in
  match r with
  | Err e => (db, Err e)
  | Ok _ =>
      let '(kv, r) := put_committed_txn (db_kv db) txn_id in
      let db := set_kv db kv in
      match r with
      | Err e => (db, Err e)
      | Ok _ =>
          let '(kv, r) := commit_txn_record (db_kv db) txn_id txn_id in
          let db := set_kv db kv in
          match r with
          | Err e => (db, Err e)
          | Ok _ => flush_cdc db txn_id
          end
      end
  end.

(** [None] where the log waits for another thread. *)
Definition db_commit_txn db (txn_id : TxnId) (inserted_at ts now_ms : Z) : option (RockDuck KV W C * Result unit) :=
  let db := set_cached db None in
  match get_begin_ts (db_mvcc db) txn_id with
  | None => Some (db, Err (EMvccConflict ("commit_txn: txn " +:+ pretty txn_id +:+ " missing begin_ts in active_txns")))
  | Some begin_ts =>
      '(wal, r) ← append_durable (db_wal db) OCommit txn_id (PCommit begin_ts (Some inserted_at));
      let db := set_wal db wal in
      match r with
      | Err e => Some (db, Err e)
      | Ok _ => Some (commit_after_wal db txn_id inserted_at ts now_ms)
      end
  end.

Definition db_rollback_txn db (txn_id : TxnId) : RockDuck KV W C * Result unit :=
  let db := set_cached db None in
  let '(m, kv, r) := rollback_txn (db_mvcc db) txn_id (db_kv db) in
  let db := set_mvcc (set_kv db kv) m in
  match r with
  | Err e => (db, Err e)
  | Ok _ =>
      let '(wal, r) := append (db_wal db) ORollback txn_id PRollback in
      let db := set_wal db wal in
      let db := set_cdc db (cdc_log_buffer db) (cdc_wal db) (delete txn_id (pending_cdc_entries db)) in
      (db, map_err (λ e, EWrite ("WAL rollback log failed: " +:+ error_display e)) r)
  end.

Definition push_cdc_entry db (entry : CdcLogEntry) : RockDuck KV W C :=
  let t := cle_txn_id entry in
  set_cdc db (cdc_log_buffer db) (cdc_wal db)
    (<[t := default [] (pending_cdc_entries db !! t) ++ [entry]]> (pending_cdc_entries db)).

(** * Snapshots *)

Definition cached_or db (make : VisibilityManager → TxnSnapshot) : RockDuck KV W C * TxnSnapshot :=
  match cached_snapshot db with
  | Some s => (db, s)
  | None => let s := make (db_mvcc db) in (set_cached db (Some s), s)
  end.
Definition db_snapshot db : RockDuck KV W C * TxnSnapshot := cached_or db (λ m, snapshot m Snapshot).
Definition snapshot_active_only db : RockDuck KV W C * TxnSnapshot :=
  cached_or db (λ m, snapshot_with_active_only m Snapshot).
Definition db_snapshot_with_commit_ts_map db : TxnSnapshot := snapshot_with_commit_ts_map (db_mvcc db) Snapshot.
End facade.

(** * Checkpoints *)

Section checkpoints.
Context `{HashIter} `{WalLog W} `{!WalMaint W} `{VisFile.Crc32} `{!Codec CheckpointState} `{!Codec DeltaCheckpointState}
  {B : Type} `{!Codec B} {KV C : Type}.
Context (data_dir : string).

(** Each filter through a temporary file. *)
Definition persist_bloom_filters (filters : list (string * B)) : io RockDuckError unit :=
  let dir := path_join data_dir "bloom_filters" in
  _ <-! io_map_err (err_write "create bloom dir") (fs_create_dir_all dir);
  io_iter (λ e : string * B,
    let path := path_join dir (e.1 +:+ ".bf") in
    let tmp := path_join dir (e.1 +:+ ".bf.tmp") in
    data <-! io_lift (map_err (λ x, EWrite ("serialize bloom: " +:+ codec_error_display x)) (encode e.2));
    _ <-! io_map_err (err_write "write bloom tmp") (fs_write tmp data);
    io_map_err (err_write "rename bloom") (fs_rename tmp path)) filters.

Definition persist_delta_checkpoint (ckpt_id : Z) (delta_ckpt : DeltaCheckpointState) : io RockDuckError unit :=
  let ckpt_dir := path_join data_dir "checkpoints" in
  _ <-! io_map_err (err_write "create checkpoint dir") (fs_create_dir_all ckpt_dir);
  data <-! io_lift (map_err (λ x, ECodec ("serialize delta checkpoint: " +:+ codec_error_display x)) (encode delta_ckpt));
  io_map_err (err_write ("write delta checkpoint " +:+ pretty ckpt_id))
    (fs_write (path_join ckpt_dir ("delta_ckpt_" +:+ pretty ckpt_id +:+ ".bin")) data).

(** The thresholds of the configuration, the size of the log, the filters, the
    counters of the delta layers and the clock are arguments. *)
Record CheckpointConfig := {
  wal_size_threshold : Z; time_threshold_secs : Z; txn_count_threshold : Z; ckpt_enabled : bool
}.

Definition should_checkpoint (cfg : CheckpointConfig) (last txn_id wal_size : Z) : bool :=
  (txn_count_threshold cfg <=? saturating_sub txn_id last)
  || ((0 <? wal_size_threshold cfg) && (wal_size_threshold cfg <=? wal_size)).

Definition mvcc_checkpoint (m : VisibilityManager) (txn_id ts_ms : Z) : CheckpointState :=
  {| cs_checkpoint_id := txn_id; cs_committed_txn := txn_id; cs_timestamp_ms := ts_ms;
     cs_replay_watermark := Visibility.replay_watermark m;
     cs_mvcc := Some {| cm_active_txns := active_txn_entries m;
                        cm_committed_history := committed_history_entries m;
                        cm_visibility_config := config m |} |}.

Definition on_ckpt {E A} (c : st (CheckpointManager W) E A) : st (RockDuck KV W C) E A := io_on db_ckpt set_ckpt c.

Definition maybe_checkpoint (cfg : CheckpointConfig) (txn_id wal_size ts_ms : Z) (filters : list (string * B))
    (delta : Z → DeltaCheckpointState) : st (RockDuck KV W C) RockDuckError unit := λ db,
  if negb (should_checkpoint cfg (last_checkpoint_txn db) txn_id wal_size) then (db, Done (Ok tt)) else
  (_ <-! on_ckpt (on_writer_try "WAL flush: " wl_flush_and_sync);
   _ <-! on_ckpt (on_disk (persist_bloom_filters filters));
   _ <-! on_ckpt (on_disk (persist_delta_checkpoint txn_id (delta txn_id)));
   _ <-! io_try (on_ckpt (checkpoint (path_join data_dir "checkpoints") (mvcc_checkpoint (db_mvcc db) txn_id ts_ms)));
   io_modify (λ db, set_last_checkpoint db txn_id)) db.
End checkpoints.

(** * Recovery of the transaction state in [open_with_config] *)

Section recovery.
Context `{HashIter} `{KVEngine KV} `{!Codec Z} `{!Codec (Z * Z)}.

Definition overlay_commit_ts (base wal : gmap TxnId Z) : gmap TxnId Z :=
  foldl (λ m e, <[e.1 := e.2]> m) base (hash_iter wal).

Definition merge_active (base wal : list (TxnId * Z)) : list (TxnId * Z) :=
  filter (λ e, e.1 ∉ wal.*1) base ++ wal.

(** The manager, the next transaction id and the store. *)
Definition recover_mvcc (kv : KV) (checkpoint_state : option CheckpointState) (wal : RecoveryResult) (now : Z)
    : VisibilityManager * TxnId * KV :=
  let committed_txn_kv := unwrap_or 0 (get_committed_txn kv) in
  let committed := Z.max committed_txn_kv (rr_max_seen_committed_txn wal) in
  let m := set_replay_watermark (set_committed_txn VisibilityManager_new committed) (rr_replay_watermark wal) in
  let next_txn := saturating_add64 committed 1 in
  let kv := if committed_txn_kv <? rr_max_seen_committed_txn wal
            then (put_committed_txn kv (rr_max_seen_committed_txn wal)).1 else kv in
  let ckpt := checkpoint_state ≫= cs_mvcc in
  let base := match ckpt with
              | Some c => list_to_map (reverse (cm_committed_history c))
              | None => unwrap_or ∅ (get_committed_txns kv)
              end in
  let kv_commit_ts := overlay_commit_ts base (rr_commit_ts_map wal) in
  let m := recover_committed_history_with_config m (hash_iter kv_commit_ts) (cm_visibility_config <$> ckpt)
             (rr_inserted_at_map wal) now in
  let active := match ckpt with
                | Some c => cm_active_txns c
                | None => unwrap_or [] (get_active_txns kv)
                end in
  (recover_active_txns m (merge_active active (rr_active_txns wal)), next_txn, kv).

(** How an error of the replay ends [open]. *)
Definition open_replay_error (e : ReplayError) : RockDuckError :=
  match re_kind e with
  | Corruption msg => EInternal ("WAL evidence-stale during recovery: " +:+ msg +:+ " (see wal/replay_failure)")
  | Fatal msg => EWrite ("WAL recovery fatal error: " +:+ msg)
  | Recoverable msg | Ambiguous msg => EWrite ("WAL recovery unexpected: " +:+ msg)
  end.
End recovery.

(** * Proofs: recovery *)

Section recovery_proofs.
Context `{HashIter} `{KVEngine KV} `{!Codec Z} `{!Codec (Z * Z)}.
Implicit Types (kv : KV) (log : list WalOp).

Lemma foldl_insert_lookup {A} (l : list (TxnId * A)) (m : gmap TxnId A) t :
  t ∈ l.*1 → ∃ a, (t, a) ∈ l ∧ foldl (λ m e, <[e.1 := e.2]> m) m l !! t = Some a.
Proof.
  induction l as [|[u b] l IH] using rev_ind; [by intros ?%elem_of_nil|].
  rewrite fmap_app, elem_of_app, foldl_app. cbn. intros Hin. destruct (decide (u = t)) as [->|Hne].
  - exists b. rewrite lookup_insert_eq. set_solver.
  - rewrite lookup_insert_ne by done. destruct IH as (a & Ha & E); [set_solver|]. exists a. set_solver.
Qed.


(** A commit record in the log is in every part of the result of the replay. *)
Lemma replay_logs_commit {S} (apply : S → WalOp → S * Result unit) log a r c :
  (replay_committed_ops apply log None a).2 = Ok r → c ∈ log → op_type c = OCommit →
  op_txn_id c ∈ (rr_active_txns r).*1 ∧ is_Some (rr_commit_ts_map r !! op_txn_id c) ∧
  op_txn_id c ≤ rr_max_seen_committed_txn r.
Proof.
  intros Hr (l1 & l2 & Hlog)%list_elem_of_split Hc. destruct (replay_inv_all apply a log) as [_ _ Ha Hm Hts].
  unfold replay_committed_ops in Hr. cbn [fst snd] in Hr. rewrite replay_no_fatal in Hr. injection Hr as <-.
  cbn [rr_active_txns rr_commit_ts_map rr_max_seen_committed_txn].
  assert ((c, open_ops (op_txn_id c) l1) ∈ commit_groups log) as Hin by (apply elem_of_commit_groups; eauto).
  rewrite Ha, Hm, Hts. split_and!.
  - rewrite <- list_fmap_compose. by apply (list_elem_of_fmap_2' _ _ _ _ Hin).
  - rewrite <- (foldl_fmap (λ m e, <[e.1 := e.2]> m) _ _ (λ g : WalOp * list WalOp, (op_txn_id g.1, commit_begin_ts g.1))).
    destruct (foldl_insert_lookup ((λ g, (op_txn_id g.1, commit_begin_ts g.1)) <$> commit_groups log) ∅ (op_txn_id c))
      as (b & _ & ->); [|done]. rewrite <- list_fmap_compose. by apply (list_elem_of_fmap_2' _ _ _ _ Hin).
  - apply (proj2 (foldl_max_ge _ _)). by apply (list_elem_of_fmap_2' _ _ _ _ Hin).
Qed.

Lemma list_to_map_hash_iter {A} (m : gmap TxnId A) : list_to_map (reverse (hash_iter m)) = m.
Proof.
  rewrite <- (list_to_map_to_list m) at 2.
  assert (reverse (hash_iter m) ≡ₚ map_to_list m) as Hp by (by rewrite reverse_Permutation, hash_iter_perm).
  apply list_to_map_proper; [|done]. rewrite Hp. apply NoDup_fst_map_to_list.
Qed.

Lemma overlay_wins (base wal : gmap TxnId Z) t ts : wal !! t = Some ts → overlay_commit_ts base wal !! t = Some ts.
Proof.
  intros E%elem_of_hash_iter. unfold overlay_commit_ts. destruct (foldl_insert_lookup (hash_iter wal) base t) as (a & Ha & ->).
  { by apply (list_elem_of_fmap_2' fst _ (t, ts) t E). }
  apply elem_of_hash_iter in Ha, E. congruence.
Qed.

Lemma overlay_nil (base : gmap TxnId Z) : overlay_commit_ts base ∅ = base.
Proof.
  unfold overlay_commit_ts. assert (hash_iter (∅ : gmap TxnId Z) = []) as ->; [|done].
  apply Permutation_nil_r. by rewrite hash_iter_perm, map_to_list_empty.
Qed.

Lemma merge_active_mem base wal t : t ∈ wal.*1 → t ∈ (merge_active base wal).*1.
Proof. unfold merge_active. rewrite fmap_app. set_solver. Qed.

Lemma merge_active_nil base : merge_active base [] = base.
Proof. unfold merge_active. rewrite app_nil_r. apply list_filter_id, Forall_forall. intros e _. apply not_elem_of_nil. Qed.

(** What recovery leaves in the manager. *)
Lemma recover_mvcc_active kv ck wal now t :
  t ∈ (rr_active_txns wal).*1 → is_Some (active_txns (recover_mvcc kv ck wal now).1.1 !! t).
Proof.
  intros Ht. unfold recover_mvcc. cbn [fst snd]. rewrite recover_active_lookup. apply fmap_is_Some.
  set (l := reverse _). destruct (list_to_map l !! t) eqn:E; [done|].
  apply not_elem_of_list_to_map_2 in E. destruct E. unfold l. rewrite fmap_reverse, elem_of_reverse.
  by apply merge_active_mem.
Qed.

Lemma recover_mvcc_commit_ts kv ck wal now t ts :
  rr_commit_ts_map wal !! t = Some ts → get_commit_ts (recover_mvcc kv ck wal now).1.1 t = Some ts.
Proof.
  intros E. unfold get_commit_ts, recover_mvcc. cbn [fst snd]. rewrite (proj1 (recover_active_fields _ _)).
  rewrite recover_history_lookup, list_to_map_hash_iter, (overlay_wins _ _ _ _ E). done.
Qed.

Lemma active_hides m iso t d : is_Some (active_txns m !! t) → is_visible m (snapshot m iso) t d = false.
Proof.
  intros Ha%elem_of_dom. unfold is_visible. apply lawful_filter_eq. split; [|done]. by intros (_ & Hn & _).
Qed.
End recovery_proofs.

(** * Proofs: the interface *)

Section facade_proofs.
Context `{HashIter} `{KVEngine KV} `{!Codec Z} `{!Codec (Z * Z)} `{WalLogLaws W} `{!WalMaint W} `{CdcWal C}.
Implicit Types db : RockDuck KV W C.

(** Flushing the change log touches nothing else. *)
Lemma flush_cdc_frame db t :
  db_kv (flush_cdc db t).1 = db_kv db ∧ db_mvcc (flush_cdc db t).1 = db_mvcc db ∧
  db_ckpt (flush_cdc db t).1 = db_ckpt db ∧ cached_snapshot (flush_cdc db t).1 = cached_snapshot db.
Proof.
  unfold flush_cdc. destruct (default [] _); [done|]. destruct (push_cdc _ _); done.
Qed.

Lemma commit_after_wal_frame db t ia ts now :
  db_mvcc (commit_after_wal db t ia ts now).1 = (commit_txn (db_mvcc db) t (db_kv db) ia ts now).1.1 ∧
  db_ckpt (commit_after_wal db t ia ts now).1 = db_ckpt db ∧
  cached_snapshot (commit_after_wal db t ia ts now).1 = cached_snapshot db ∧
  (is_ok (commit_after_wal db t ia ts now).2 = true →
     is_ok (commit_txn (db_mvcc db) t (db_kv db) ia ts now).2 = true).
Proof.
  unfold commit_after_wal. destruct (commit_txn _ _ _ _ _ _) as [[m kv] [s|e]]; cbn; [|done].
  destruct (put_committed_txn kv t) as [kv1 [[]|e1]]; cbn; [|done].
  destruct (commit_txn_record kv1 t t) as [kv2 [[]|e2]]; cbn; [|done].
  match goal with |- context [flush_cdc ?d t] => destruct (flush_cdc_frame d t) as (_ & -> & -> & ->) end. done.
Qed.

Definition commit_op (t : TxnId) (b ia : Z) : WalOp :=
  {| op_type := OCommit; op_txn_id := t; payload := PCommit b (Some ia) |}.

(** An append of a commit that returns [Ok] has synced its record: with [SyncEach] and
    [FlushOnly] always, with [GroupCommitStrict] when the success flag of an earlier
    batch has been cleared and no other thread leads. *)
Definition syncs_commits (s : WalWriter W) : Prop :=
  match sync_policy (wal_config s) with
  | SyncEach | FlushOnly => True
  | GroupCommitStrict => flush_success s = false ∧ leader_active s = false
  end.

Lemma append_durable_logged (s s' : WalWriter W) t b ia : syncs_commits s →
  append_durable s OCommit t (PCommit b (Some ia)) = Some (s', Ok tt) →
  commit_op t b ia ∈ wl_durable (writer s').
Proof.
  intros Hp. unfold append_durable. rewrite andb_false_r.
  pose proof (append_one_and_sync_spec (writer s) (commit_op t b ia)) as Hspec.
  pose proof (strict_wait_spec (queue_commit_for_batch s (commit_op t b ia))) as Hwait. unfold commit_op, syncs_commits in *.
  destruct (append_one_and_sync (writer s) _) as [w' r]. cbn in Hspec.
  destruct (sync_policy _).
  2:{ destruct Hp as [Hs Hl]. destruct (Hwait Hl Hs) as (s1 & -> & _ & _ & _ & _ & _ & Hq). cbn.
      destruct (flush_success s1); [|done]. intros [= <-]. destruct (note_commit_fields s1 OCommit t) as (-> & _).
      destruct Hq as (_ & _ & Hq), Hq as [pre ->]; [cbn; by destruct (queue s)|]. cbn. set_solver. }
  all: destruct r as [[]|e]; intros E; simplify_eq;
    unfold note_commit; rewrite bool_decide_true by done; cbn [writer set_committed set_writer];
    destruct (Hspec eq_refl) as [-> _]; set_solver.
Qed.

Lemma commit_logged db t ia ts now db' r : syncs_commits (db_wal db) →
  db_commit_txn db t ia ts now = Some (db', r) →
  (∃ b, get_begin_ts (db_mvcc db) t = Some b ∧
     (commit_op t b ia ∈ wl_durable (writer (db_wal db'))) ∧
     db_mvcc db' = (commit_txn (db_mvcc db) t (db_kv db) ia ts now).1.1 ∧
     (is_ok r = true → is_ok (commit_txn (db_mvcc db) t (db_kv db) ia ts now).2 = true))
  ∨ is_ok r = false ∧ db_mvcc db' = db_mvcc db ∧ db_kv db' = db_kv db ∧
    ∀ b wal, get_begin_ts (db_mvcc db) t = Some b →
      append_durable (db_wal db) OCommit t (PCommit b (Some ia)) ≠ Some (wal, Ok tt).
Proof.
  intros Hp. unfold db_commit_txn. cbn [db_mvcc set_cached]. change (db_wal (set_cached db None)) with (db_wal db).
  destruct (get_begin_ts (db_mvcc db) t) as [b|] eqn:Hb; [|intros [= <- <-]; by right].
  destruct (append_durable (db_wal db) OCommit t (PCommit b (Some ia))) as [[wal [[]|e]]|] eqn:Ha; cbn;
    [|intros [= <- <-]; right; split_and!; [done..|congruence]|done].
  intros [= E]. left. exists b. split; [done|].
  match type of E with commit_after_wal ?d _ _ _ _ = _ => destruct (commit_after_wal_frame d t ia ts now) as (Hm & Hk & _ & Ho) end.
  rewrite E in *. cbn in Hm, Hk, Ho. unfold db_wal. rewrite Hk. cbn.
  split; [by apply (append_durable_logged _ _ _ _ _ Hp Ha)|done].
Qed.

(** Once logged, a commit is part of what a restart recovers. *)
Lemma logged_recovered {S} (apply : S → WalOp → S * Result unit) (kv : KV) ck log a r now c :
  (replay_committed_ops apply log None a).2 = Ok r → c ∈ log → op_type c = OCommit →
  let '(m, next, _) := recover_mvcc kv ck r now in
  is_Some (get_commit_ts m (op_txn_id c)) ∧ is_Some (active_txns m !! op_txn_id c) ∧
  (op_txn_id c < u64_max → op_txn_id c < next).
Proof.
  intros Hr Hc Ht. destruct (replay_logs_commit apply log a r c Hr Hc Ht) as (Ha & [ts Hts] & Hm).
  pose proof (recover_mvcc_active kv ck r now _ Ha) as Hact.
  pose proof (recover_mvcc_commit_ts kv ck r now _ _ Hts) as Hcts.
  destruct (recover_mvcc kv ck r now) as [[m next] kv'] eqn:E. cbn in Hact, Hcts. split_and!; [by rewrite Hcts|done|].
  intros Hlt. unfold recover_mvcc in E. injection E as _ <- _. unfold saturating_add64. zcase; lia.
Qed.
End facade_proofs.

(** * Theorems *)

(** Every transaction whose commit record is in the log is put back by a
    restart both into the committed history and into the set of active
    transactions, so no row it created is visible in the snapshot that the
    restarted manager hands out. *)
Theorem recovery_hides_logged_commits `{HashIter} `{KVEngine KV} `{!Codec Z} `{!Codec (Z * Z)} {S}
    (apply : S → WalOp → S * Result unit) (kv : KV) ck log a r now c iso d :
  (replay_committed_ops apply log None a).2 = Ok r → c ∈ log → op_type c = OCommit →
  let m := (recover_mvcc kv ck r now).1.1 in
  is_Some (get_commit_ts m (op_txn_id c)) ∧ is_visible m (snapshot m iso) (op_txn_id c) d = false.
Proof.
  intros Hr Hc Ht. pose proof (logged_recovered apply kv ck log a r now c Hr Hc Ht) as Hl.
  destruct (recover_mvcc kv ck r now) as [[m next] kv']. destruct Hl as (Hcts & Hact & _). split; [done|].
  by apply active_hides.
Qed.

(** With a policy that syncs each commit, a transaction that loses the
    conflict check is reported as aborted and is gone from the manager, but its
    commit record is in the log, so a restart recovers it as committed. *)
Theorem conflict_abort_recovers_committed `{HashIter} `{KVEngine KV} `{!Codec Z} `{!Codec (Z * Z)} `{WalLogLaws W}
    `{CdcWal C} {S} (apply : S → WalOp → S * Result unit) (db db' : RockDuck KV W C) t meta o ia ts now res a r (kv : KV) ck now' :
  sync_policy (wal_config (db_wal db)) ≠ GroupCommitStrict →
  active_txns (db_mvcc db) !! t = Some meta → conflicts_with (db_mvcc db) t meta o →
  committed_history (db_mvcc db) !! t = None →
  is_Some (append_durable (db_wal db) OCommit t (PCommit (begin_ts meta) (Some ia)) ≫= λ r, if is_ok r.2 then Some tt else None) →
  db_commit_txn db t ia ts now = Some (db', res) →
  (replay_committed_ops apply (wl_durable (writer (db_wal db'))) None a).2 = Ok r →
  is_ok res = false ∧ absent t (db_mvcc db') ∧ is_Some (get_commit_ts (recover_mvcc kv ck r now').1.1 t).
Proof.
  intros Hp Ht Ho Hh [u Hw] Hc Hr. assert (syncs_commits (db_wal db)) as Hp' by (unfold syncs_commits; by destruct (sync_policy _)).
  destruct (commit_logged _ _ _ _ _ _ _ Hp' Hc) as [(b & Hb & Hl & Hm & Hok)|(_ & _ & _ & Hno)].
  2:{ destruct (append_durable _ _ _ _) as [[wal [[]|e]]|] eqn:Ha; try done. destruct (Hno (begin_ts meta) wal); [|done].
      unfold get_begin_ts. by rewrite Ht. }
  pose proof (commit_txn_cases (db_mvcc db) t (db_kv db) ia ts now) as Hcases. rewrite Ht in Hcases.
  destruct Hcases as [_ [(_ & Hf & Hko)|(Hno & _)]]; [|by destruct (Hno o)].
  pose proof (logged_recovered apply kv ck _ a r now' _ Hr Hl eq_refl) as Hrec.
  destruct (recover_mvcc kv ck r now') as [[m next] kv']. destruct Hrec as (Hcts & _). split_and!; [|rewrite Hm, Hf|done].
  - destruct (is_ok res) eqn:E; [|done]. specialize (Hok eq_refl). congruence.
  - split; [apply lookup_delete_eq|done].
Qed.

(** C20: What a restart knows of a commit.  When the log syncs commits, that is under
    [SyncEach] and [FlushOnly] (whose append also syncs) and under the default
    [GroupCommitStrict] with the success flag clear and no other leader, a commit that
    returns [Ok] is found by a restart from the durable log, whatever the store and the
    checkpoint hold: the transaction has a commit timestamp and its id is not given out
    again.  The same restart also lists it as active, so that the snapshot it hands out
    does not show its rows. *)
Theorem commit_known_after_restart `{HashIter} `{KVEngine KV} `{!Codec Z} `{!Codec (Z * Z)} `{WalLogLaws W}
    `{CdcWal C} {S} (apply : S → WalOp → S * Result unit) (db db' : RockDuck KV W C) t ia ts now a r (kv : KV) ck now' :
  syncs_commits (db_wal db) →
  db_commit_txn db t ia ts now = Some (db', Ok tt) →
  (replay_committed_ops apply (wl_durable (writer (db_wal db'))) None a).2 = Ok r →
  let '(m, next, _) := recover_mvcc kv ck r now' in
  is_Some (get_commit_ts m t) ∧ (t < u64_max → t < next) ∧
  is_Some (active_txns m !! t) ∧ ∀ iso d, is_visible m (snapshot m iso) t d = false.
Proof.
  intros Hp Hc Hr. destruct (commit_logged _ _ _ _ _ _ _ Hp Hc) as [(b & _ & Hl & _)|(? & _)]; [|done].
  pose proof (logged_recovered apply kv ck _ a r now' _ Hr Hl eq_refl) as Hrec.
  destruct (recover_mvcc kv ck r now') as [[m next] kv']. cbn in Hrec. destruct Hrec as (Hts & Hact & Hnext).
  split_and!; [done|done|done|]. intros. by apply active_hides.
Qed.

(** ** The cached snapshot *)

Inductive db_call :=
  | CallBegin
  | CallCommit (t : TxnId) (ia ts now : Z)
  | CallRollback (t : TxnId)
  | CallSnapshot
  | CallPushCdc (e : CdcLogEntry).

Section calls.
Context `{HashIter} `{KVEngine KV} `{!Codec Z} `{!Codec (Z * Z)} `{WalLog W} `{CdcWal C}.

(** A commit that waits for another thread leaves the state as it was. *)
Definition run_call (db : RockDuck KV W C) (c : db_call) : RockDuck KV W C :=
  match c with
  | CallBegin => (db_begin_txn db).1
  | CallCommit t ia ts now => match db_commit_txn db t ia ts now with Some (db', _) => db' | None => db end
  | CallRollback t => (db_rollback_txn db t).1
  | CallSnapshot => (db_snapshot db).1
  | CallPushCdc e => push_cdc_entry db e
  end.

Definition coherent (db : RockDuck KV W C) : Prop :=
  ∀ s, cached_snapshot db = Some s → s = snapshot (db_mvcc db) Snapshot.

Lemma run_call_coherent db c : coherent db → coherent (run_call db c).
Proof.
  intros Hc. destruct c as [|t ia ts now|t| |e]; cbn [run_call].
  - unfold db_begin_txn, next_txn_id. destruct (txn_counter db =? u64_max); [done|]. cbn.
    match goal with |- context [begin_txn ?m ?t ?k] => destruct (begin_txn m t k) as [[m' kv'] r] end. by intros s.
  - unfold db_commit_txn. cbn [db_mvcc set_cached]. destruct (get_begin_ts (db_mvcc db) t) as [b|]; [|by intros s].
    destruct (append_durable _ _ _ _) as [[wal [[]|e]]|]; cbn; [|by intros s|done].
    match goal with |- context [commit_after_wal ?d _ _ _ _] =>
      pose proof (commit_after_wal_frame d t ia ts now) as (_ & _ & Hs & _); destruct (commit_after_wal d t ia ts now) as [d' r] end.
    cbn in *. intros s. by rewrite Hs.
  - unfold db_rollback_txn. destruct (rollback_txn _ _ _) as [[m kv] [[]|e]]; [|by intros s]. cbn.
    destruct (append _ _ _ _) as [wal r]. by intros s.
  - unfold db_snapshot, cached_or. destruct (cached_snapshot db) eqn:E; [done|]. cbn. by intros s [= <-].
  - exact Hc.
Qed.
End calls.

(** After any calls of the transaction interface, the snapshot the database
    hands out is the current one of its visibility manager, cached or not. *)
Theorem snapshot_cache_coherent `{HashIter} `{KVEngine KV} `{!Codec Z} `{!Codec (Z * Z)} `{WalLog W} `{CdcWal C}
    (db : RockDuck KV W C) calls :
  coherent db →
  let db' := foldl run_call db calls in
  (db_snapshot db').2 = snapshot (db_mvcc db') Snapshot.
Proof.
  intros Hc. cbn. assert (coherent (foldl run_call db calls)) as Hc'.
  { revert db Hc. induction calls as [|c calls IH]; intros db Hc; [done|]. by apply IH, run_call_coherent. }
  unfold db_snapshot, cached_or. destruct (cached_snapshot _) eqn:E; [by apply Hc'|done].
Qed.

(** A lazy snapshot taken while nothing is cached stays in the cache: the full
    snapshot requested next is the lazy one, and no row is visible in it. *)
Theorem active_only_poisons_cache {KV W C} (db : RockDuck KV W C) c d :
  cached_snapshot db = None →
  let s := (db_snapshot (snapshot_active_only db).1).2 in
  s = snapshot_with_active_only (db_mvcc db) Snapshot ∧ is_visible (db_mvcc db) s c d = false.
Proof.
  intros E. unfold snapshot_active_only, db_snapshot, cached_or. rewrite E. cbn. split; [done|].
  unfold is_visible. apply lawful_filter_eq. split; [|done]. intros (_ & _ & (ts & Hts & _) & _).
  cbn in Hts. by rewrite lookup_empty in Hts.
Qed.

(** ** The change log *)

Lemma push_cdc_overflow b l : zlen (clb_entries b) ≤ clb_max_size b →
  clb_max_size b < zlen (clb_entries b) + zlen l →
  ∃ n d, push_cdc b l = ({| clb_entries := clb_entries b ++ take n l; clb_max_size := clb_max_size b;
                            clb_dropped_count := d |}, Err (buffer_full d)) ∧
         Z.of_nat n = clb_max_size b - zlen (clb_entries b).
Proof.
  revert b. induction l as [|e l IH]; intros b Hb Hl; [autorewrite with zlen in Hl; lia|]. cbn. unfold clb_push.
  destruct (Z.leb_spec (clb_max_size b) (zlen (clb_entries b))).
  - exists 0%nat, (wrap64 (clb_dropped_count b + 1)). rewrite app_nil_r. split; [done|lia].
  - match goal with |- context [push_cdc ?b' l] => destruct (IH b') as (n & d & -> & Hn) end.
    + cbn. autorewrite with zlen. lia.
    + cbn. autorewrite with zlen in *. lia.
    + exists (S n), d. cbn in *. rewrite <- app_assoc. split; [done|]. autorewrite with zlen in Hn. lia.
Qed.

(** A commit whose change entries do not fit in the buffer returns an error
    although the transaction is committed in the manager and in the store; the
    entries that do not fit are kept nowhere. *)
Theorem cdc_overflow_after_commit `{HashIter} `{KVEngine KV} `{!Codec Z} `{!Codec (Z * Z)} `{CdcWal C} {W}
    (db : RockDuck KV W C) t ia ts now m kv1 kv2 kv3 s pending :
  commit_txn (db_mvcc db) t (db_kv db) ia ts now = (m, kv1, Ok s) →
  put_committed_txn kv1 t = (kv2, Ok tt) → commit_txn_record kv2 t t = (kv3, Ok tt) →
  pending_cdc_entries db !! t = Some pending →
  zlen (clb_entries (cdc_log_buffer db)) ≤ clb_max_size (cdc_log_buffer db) →
  clb_max_size (cdc_log_buffer db) < zlen (clb_entries (cdc_log_buffer db)) + zlen pending →
  let '(db', r) := commit_after_wal db t ia ts now in
  (∃ d, r = Err (buffer_full d)) ∧ db_mvcc db' = m ∧ db_kv db' = kv3 ∧ pending_cdc_entries db' !! t = None ∧
  ∃ n, clb_entries (cdc_log_buffer db') = clb_entries (cdc_log_buffer db) ++ take n pending ∧ (n < length pending)%nat.
Proof.
  intros Hc Hp Hr Hl Hb Ho. unfold commit_after_wal. rewrite Hc. cbn. rewrite Hp. cbn. rewrite Hr. unfold flush_cdc. cbn.
  rewrite Hl. cbn. destruct (push_cdc_overflow _ _ Hb Ho) as (n & d & E & Hn).
  destruct pending as [|e rest]; [autorewrite with zlen in Ho; lia|]. rewrite E. cbn.
  split_and!; [eauto|done|done|apply lookup_delete_eq|]. exists n. split; [done|]. unfold zlen in *. cbn in *. lia.
Qed.

(** ** Checkpoints *)

Definition no_replay : RecoveryResult :=
  {| rr_last_committed_txn := 0; rr_max_seen_committed_txn := 0; rr_committed_count := 0; rr_discarded_count := 0;
     rr_active_txns := []; rr_commit_ts_map := ∅; rr_inserted_at_map := ∅; rr_committed_ops := [];
     rr_replay_watermark := 0 |}.

(** A restart from a checkpoint with nothing left in the log restores the
    commit timestamp and the begin timestamp of every transaction and the
    configuration of the manager that was checkpointed. *)
Theorem checkpoint_restores_mvcc `{HashIter} `{KVEngine KV} `{!Codec Z} `{!Codec (Z * Z)} (kv : KV) m txn ts now t :
  let m' := (recover_mvcc kv (Some (mvcc_checkpoint m txn ts)) no_replay now).1.1 in
  get_commit_ts m' t = get_commit_ts m t ∧ get_begin_ts m' t = get_begin_ts m t ∧ config m' = config m.
Proof.
  unfold recover_mvcc. cbn [fst snd mbind option_bind cs_mvcc mvcc_checkpoint]. cbn [cm_committed_history cm_active_txns rr_active_txns rr_commit_ts_map no_replay].
  rewrite overlay_nil, merge_active_nil. split_and!.
  - unfold get_commit_ts. rewrite (proj1 (recover_active_fields _ _)), recover_history_lookup, list_to_map_hash_iter.
    unfold committed_history_entries. rewrite (list_to_map_sorted_entries fst). by destruct (committed_history m !! t).
  - unfold get_begin_ts. rewrite recover_active_lookup. unfold active_txn_entries. rewrite (list_to_map_sorted_entries begin_ts).
    by destruct (active_txns m !! t).
  - unfold recover_active_txns, recover_committed_history_with_config. apply (for_each_inv (λ m', config m' = config m)); [|done].
    cbn. apply (for_each_inv (λ m', config m' = config m)); [done|]. intros m' [u b] _ Hm. cbn. by destruct (_ <? _).
Qed.

(** * Witnesses *)

#[export] Instance list_cdc_wal : CdcWal (list CdcOp) := λ w op, (w ++ [op], Ok tt).

Section witnesses.
#[local] Instance demo_z : Codec Z := countable_codec Z.
#[local] Instance demo_zz : Codec (Z * Z) := countable_codec (Z * Z).

(** A database with transactions 1 and 2, which both wrote a key. *)
Definition demo_entry (t : TxnId) : CdcLogEntry :=
  {| cle_op := CdcDelete; cle_table := "t"; cle_seg_id := "s"; cle_pk := [1]; cle_before := []; cle_after := [];
     cle_txn_id := t; cle_ts := 0 |}.
Definition demo_new : RockDuck MemKV MemLog (list CdcOp) :=
  {| db_kv := mem_empty; db_mvcc := VisibilityManager_new; txn_counter := 1;
     db_ckpt := {| ck_disk := new_disk ∅; next_id := 0; ck_wal := Wal.open (demo_log []) demo_sync_config [] |};
     cached_snapshot := None; cdc_log_buffer := CdcLogBuffer_new 1; cdc_wal := Some [];
     pending_cdc_entries := ∅; last_checkpoint_txn := 0 |}.
Definition demo_strict : RockDuck MemKV MemLog (list CdcOp) :=
  set_ckpt demo_new {| ck_disk := new_disk ∅; next_id := 0; ck_wal := Wal.open (demo_log []) WalConfig_default [] |}.
Definition demo_two : RockDuck MemKV MemLog (list CdcOp) :=
  let db := (db_begin_txn (db_begin_txn demo_new).1).1 in
  set_mvcc db (record_write (record_write (db_mvcc db) 1 [7]) 2 [7]).

Definition demo_replay (log : list WalOp) : RecoveryResult := unwrap_or no_replay (replay_committed_ops recording log None []).2.
Definition demo_after (db : RockDuck MemKV MemLog (list CdcOp)) : RockDuck MemKV MemLog (list CdcOp) :=
  run_call db (CallCommit 1 5 6 8).
Definition demo_recovered (db : RockDuck MemKV MemLog (list CdcOp)) : VisibilityManager :=
  (recover_mvcc mem_empty None (demo_replay (ml_durable (writer (db_wal db)))) 0).1.1.

Lemma recovery_hides_logged_commits_witness :
  let m := (recover_mvcc mem_empty None (demo_replay [demo_log_commit 1]) 0).1.1 in
  is_Some (get_commit_ts m 1) ∧ is_visible m (snapshot m Snapshot) 1 None = false.
Proof.
  apply (recovery_hides_logged_commits recording mem_empty None [demo_log_commit 1] [] (demo_replay [demo_log_commit 1]) 0
           (demo_log_commit 1) Snapshot None); [by vm_compute|by left|done].
Defined.

Lemma conflict_abort_recovers_committed_witness :
  absent 1 (db_mvcc (demo_after demo_two)) ∧ is_Some (get_commit_ts (demo_recovered (demo_after demo_two)) 1).
Proof.
  eapply (conflict_abort_recovers_committed recording demo_two (demo_after demo_two) 1
            {| begin_ts := 1; commit_ts := None; Visibility.status := Visibility.Active; read_keys := ∅; written_keys := {[ [7] ]}; is_recovered := false |}
            2 5 6 8 _ [] (demo_replay (ml_durable (writer (db_wal (demo_after demo_two))))) mem_empty None 0).
  - done.
  - by vm_compute.
  - exists {| begin_ts := 2; commit_ts := None; Visibility.status := Visibility.Active; read_keys := ∅; written_keys := {[ [7] ]}; is_recovered := false |}.
    split_and!; [by vm_compute|done|done|]. right. exists [7]. cbn. split; [set_solver|right; set_solver].
  - by vm_compute.
  - vm_compute. eauto.
  - vm_compute. reflexivity.
  - by vm_compute.
Defined.

(** Under the policy that syncs each commit, and under the default one. *)
Lemma commit_known_after_restart_witness :
  (let db := (db_begin_txn demo_new).1 in is_Some (get_commit_ts (demo_recovered (demo_after db)) 1)) ∧
  (let db := (db_begin_txn demo_strict).1 in is_Some (get_commit_ts (demo_recovered (demo_after db)) 1)).
Proof.
  split; intros db; (refine (proj1 (commit_known_after_restart recording db (demo_after db) 1 5 6 8 []
    (demo_replay (ml_durable (writer (db_wal (demo_after db))))) mem_empty None 0 _ _ _)); [done|by vm_compute|by vm_compute]).
Defined.

Lemma snapshot_cache_coherent_witness :
  let db' := foldl run_call demo_new [CallBegin; CallSnapshot; CallCommit 1 5 6 8] in
  (db_snapshot db').2 = snapshot (db_mvcc db') Snapshot.
Proof. by apply (snapshot_cache_coherent demo_new [CallBegin; CallSnapshot; CallCommit 1 5 6 8]). Defined.

Lemma active_only_poisons_cache_witness :
  is_visible (db_mvcc demo_new) (db_snapshot (snapshot_active_only demo_new).1).2 1 None = false.
Proof. by apply (active_only_poisons_cache demo_new 1 None). Defined.

Definition demo_cdc : RockDuck MemKV MemLog (list CdcOp) :=
  push_cdc_entry (push_cdc_entry (db_begin_txn demo_new).1 (demo_entry 1)) (demo_entry 1).

Definition demo_commit : VisibilityManager * MemKV * Result TxnSnapshot :=
  commit_txn (db_mvcc demo_cdc) 1 (db_kv demo_cdc) 5 6 8.

Lemma cdc_overflow_after_commit_witness :
  pending_cdc_entries (commit_after_wal demo_cdc 1 5 6 8).1 !! 1 = None.
Proof.
  assert (∃ s, demo_commit.2 = Ok s) as [s Hs] by (vm_compute; eauto).
  assert (is_ok (put_committed_txn demo_commit.1.2 1).2 = true) as Hp by by vm_compute.
  assert (is_ok (commit_txn_record (put_committed_txn demo_commit.1.2 1).1 1 1).2 = true) as Hr by by vm_compute.
  unfold demo_commit in *. destruct (commit_txn (db_mvcc demo_cdc) 1 (db_kv demo_cdc) 5 6 8) as [[m kv1] r1] eqn:E1. cbn in *.
  destruct (put_committed_txn kv1 1) as [kv2 [[]|]] eqn:E2; [|done]. cbn in *.
  destruct (commit_txn_record kv2 1 1) as [kv3 [[]|]] eqn:E3; [|done]. subst r1.
  pose proof (cdc_overflow_after_commit demo_cdc 1 5 6 8 m kv1 kv2 kv3 s [demo_entry 1; demo_entry 1] E1 E2 E3
    ltac:(vm_compute; reflexivity) ltac:(vm_compute; done) ltac:(vm_compute; done)) as Hw.
  destruct (commit_after_wal demo_cdc 1 5 6 8) as [db' r]. apply Hw.
Defined.
End witnesses.
