(* ===== verification/Insert.v ===== *)
(** The write path (write/insert.rs): insert, update and delete of a row by primary
    key over the key-value store, the column files, the visibility files, the log
    and the caches; and the callback of db.rs that replays logged operations. *)

From stdpp Require Import base gmap strings list pretty.
From S2P Require Import Prelude Kv Visibility Arrow ShadowColumns TxnManager Wal PkIndex Disk Vortex VisFile SegMeta BloomCache ZoneMap WalUtils Cdc Checkpoint Db.

Local Open Scope Z_scope.

(** * Calls that may not return *)

(** [None]: the call waits forever, for the log's leader or for a lock. *)
Definition wt (S A : Type) : Type := S → option (S * outcome (Result A)).
Definition wt_lift {S A} (m : st S RockDuckError A) : wt S A := λ s, Some (m s).
Definition wt_ret {S A} (a : A) : wt S A := wt_lift (io_ret a).
Definition wt_throw {S A} (e : RockDuckError) : wt S A := wt_lift (io_throw e).
Definition wt_bind {S A B} (m : wt S A) (k : A → wt S B) : wt S B := λ s,
  match m s with
  | None => None
  | Some (s', Done (Ok a)) => k a s'
  | Some (s', Done (Err e)) => Some (s', Done (Err e))
  | Some (s', Panic) => Some (s', Panic)
  end.
Notation "x <-* c ; k" := (wt_bind c (λ x, k))
  (at level 100, c at next level, right associativity) : rd_scope.
Notation "' x <-* c ; k" := (wt_bind c (λ x : _, k))
  (at level 20, x pattern, c at level 100, k at level 200, only parsing) : rd_scope.
(** [match m { .. }] on the result. *)
Definition wt_try {S A} (m : wt S A) : wt S (Result A) := λ s,
  match m s with
  | None => None
  | Some (s', Done r) => Some (s', Done (Ok r))
  | Some (s', Panic) => Some (s', Panic)
  end.
Fixpoint wt_iter {S A} (f : A → wt S unit) (l : list A) : wt S unit :=
  match l with
  | [] => wt_ret tt
  | x :: l' => _ <-* f x; wt_iter f l'
  end.
Definition wt_returns {S A} (m : wt S A) (s : S) (a : A) (s' : S) : Prop := m s = Some (s', Done (Ok a)).

(** * The state *)

(** [fastbloom::BloomFilter] *)
Class BloomLib (B : Type) := { bf_with_false_pos : f64 → Z → B; bf_insert : B → bytes → B }.
#[global] Hint Mode BloomLib ! : typeclass_instances.

(** The database with the caches of the write path. *)
Record WriteDb (KV W C M B : Type) := {
  wd_db : RockDuck KV W C;
  wd_cache : SegmentMetaCache M;
  wd_blooms : BoundedBloomFilterCache B
}.
Arguments wd_db {KV W C M B} _. Arguments wd_cache {KV W C M B} _. Arguments wd_blooms {KV W C M B} _.

Definition create_bloom_filter {B} `{BloomLib B} (expected_items : Z) (fpp : f64) : B := bf_with_false_pos fpp expected_items.
Definition create_initial_bloom_filter {B} `{BloomLib B} (fpp : f64) : B := create_bloom_filter 1000000 fpp.
Definition bloom_insert {B} `{BloomLib B} (bf : B) (pk : bytes) : B := bf_insert bf pk.

Definition insert_GRANULE_SIZE : Z := 8192.
Record PositionResult := { pr_seg_id : string; pr_granule_id : Z; pr_row_offset : Z }.

Record InsertRollbackPlan := {
  plan_table : string;
  plan_pk : bytes;
  plan_seg_id : string;
  plan_granule_id : Z;
  plan_row_offset : Z;
  plan_txn_id : Z
}.

(** [arr.slice(i, 1)] *)
Definition slice_at {Arr} `{Arrow Arr} (a : Arr) (i : Z) : outcome Arr :=
  if i + 1 <=? arr_len a then Done (arr_build (arr_type a) [arr_slot a i]) else Panic.

(** [codec::make_null_array] *)
Definition make_null_array {Arr} `{Arrow Arr} (dt : DataType) (len : Z) : Arr :=
  match dt with
  | Int8 | Int16 | Int32 | Int64 | UInt8 | UInt16 | UInt32 | UInt64 | Float32 | Float64 | Boolean | Utf8 | LargeUtf8
  | Binary | LargeBinary | Date32 | Date64 => arr_null dt len
  | Timestamp u => if bool_decide (u = "Microsecond") || bool_decide (u = "Millisecond")
                   then arr_null dt len else arr_null Null len
  | _ => arr_null Null len
  end.

Section write_path.
Context `{HashIter} `{KVEngine KV} `{!Codec Z} `{!Codec (Z * Z)} `{!Codec (string * Z * Z)} `{!Codec (string * Z * Z * bytes)}
  `{!Codec SegmentMeta} `{!Codec TableStats} `{!Codec ZoneMapStats}
  `{WalLog W} `{CdcWal C} `{BoundedCache M CacheEntry} `{BloomLib B}
  `{Arrow Arr} `{Batches Arr} `{!VortexLib Arr} `{!Codec ColumnEncoding} `{Crc32} `{!ArrowIpc Arr}.
(** The directory, the adaptive encoding picker, the configured false-positive
    rate, and of the call the id a new segment gets and the clock. *)
Context (data_dir : string) (picker : Arr → Result (Vx Arr * EncodingScheme)) (fpp : f64) (fresh_id : string) (now : Z).
Abbreviation DB := (WriteDb KV W C M B).
Implicit Types s : DB.

Definition set_db s db : DB := {| wd_db := db; wd_cache := wd_cache s; wd_blooms := wd_blooms s |}.
Definition set_cache s c : DB := {| wd_db := wd_db s; wd_cache := c; wd_blooms := wd_blooms s |}.
Definition set_blooms s b : DB := {| wd_db := wd_db s; wd_cache := wd_cache s; wd_blooms := b |}.
Definition wd_kv s : KV := db_kv (wd_db s).
Definition wd_disk s : Disk := ck_disk (db_ckpt (wd_db s)).
Definition set_disk s (d : Disk) : DB :=
  set_db s (set_ckpt (wd_db s) {| ck_disk := d; next_id := next_id (db_ckpt (wd_db s)); ck_wal := db_wal (wd_db s) |}).

(** Steps on the store, on the files, on the caches and on the log. *)
Definition on_kv {A} (f : KV → KV * Result A) : wt DB A := λ s,
  let '(kv, r) := f (wd_kv s) in Some (set_db s (set_kv (wd_db s) kv), Done r).
Definition kv_reads {A} (f : KV → Result A) : wt DB A := λ s, Some (s, Done (f (wd_kv s))).
Definition on_files {A} (m : io RockDuckError A) : wt DB A := wt_lift (io_on wd_disk set_disk m).
Definition modify (f : DB → DB) : wt DB unit := wt_lift (io_modify f).
Definition pure_outcome {A} (o : outcome (Result A)) : wt DB A := wt_lift (io_outcome o).
Definition of_outcome {A} (o : outcome A) : wt DB A :=
  match o with Done a => wt_ret a | Panic => wt_lift io_panic end.
Definition layout_new (id : string) : wt DB SegmentLayout := of_outcome (SegmentLayout_new data_dir id).
Definition log_durable (t : OpType) (txn_id : TxnId) (p : OpPayload) : wt DB unit := λ s,
  '(wal, r) ← append_durable (db_wal (wd_db s)) t txn_id p;
  Some (set_db s (set_wal (wd_db s) wal), Done r).

(** ** Helpers *)

Definition allocate_txn (explicit_txn : option TxnId) : wt DB TxnId :=
  match explicit_txn with
  | Some id => wt_ret id
  | None => λ s,
      let '(db, r) := next_txn_id (wd_db s) in
      Some (set_db s db, Done (map_err (λ e, EInternal ("failed to allocate transaction ID: " +:+ error_display e)) r))
  end.

Fixpoint collect_columns (first_len : Z) (l : list (string * Arr)) : Result (list Field * list Arr) :=
  match l with
  | [] => Ok ([], [])
  | (name, a) :: l' =>
      if negb (arr_len a =? first_len)
      then Err (EInvalidParameter ("Column '" +:+ name +:+ "' has " +:+ pretty (arr_len a) +:+ " rows, expected " +:+ pretty first_len))
      else '(fs, arrs) <-? collect_columns first_len l';
           Ok ({| f_name := name; f_type := arr_type a; f_nullable := true |} :: fs, a :: arrs)
  end.

(** One order of the map for the two iterations of the function. *)
Definition columns_to_batch (cols : gmap string Arr) : Result (RecordBatch Arr) :=
  let l := hash_iter cols in
  match l with
  | [] => Err (EInvalidParameter "No columns provided")
  | (_, a) :: _ =>
      if arr_len a =? 0 then Err (EInvalidParameter "Empty columns not allowed") else
      '(fs, arrs) <-? collect_columns (arr_len a) l;
      map_err (λ e, EInvalidParameter ("Failed to create batch: " +:+ e)) (try_new fs arrs)
  end.

Definition batch_to_wal_bytes (b : RecordBatch Arr) : Result (list string * bytes) :=
  bs <-? batch_to_ipc_stream b; Ok (f_name <$> rb_fields b, bs).

Definition is_active_of (table : string) (m : SegmentMeta) : bool :=
  bool_decide (table_id m = table) && bool_decide (status m = SegMeta.Active).

(** The cached records of the table first, then the stored ones. *)
Definition find_active_segment_for_table (table : string) : wt DB (option string) := λ s,
  let cached := omap (smc_get (wd_cache s)) (get_seg_ids_for_table (wd_cache s) table) in
  match list_find (λ m, status m = SegMeta.Active) cached with
  | Some (_, m) => Some (s, Done (Ok (Some (seg_id m))))
  | None =>
      match list_segment_metas (wd_kv s) with
      | Err e => Some (s, Done (Err e))
      | Ok segments =>
          match list_find (λ m, is_active_of table m) segments with
          | Some (_, m) => Some (set_cache s (smc_put (wd_cache s) m).1, Done (Ok (Some (seg_id m))))
          | None => Some (s, Done (Ok None))
          end
      end
  end.

Definition get_or_create_active_segment (table : string) : wt DB string :=
  found <-* find_active_segment_for_table table;
  match found with
  | Some id => wt_ret id
  | None =>
      let id := "seg_" +:+ fresh_id in
      layout <-* layout_new id;
      _ <-* on_files (io_map_err err_io (fs_create_dir_all (seg_dir layout)));
      let meta := SegmentMeta_new now id table [] in
      _ <-* on_kv (λ kv, put_segment_meta kv meta);
      _ <-* modify (λ s, set_cache s (smc_invalidate (wd_cache s) id));
      _ <-* modify (λ s, set_blooms s (bfc_insert (wd_blooms s) id (create_initial_bloom_filter fpp)));
      wt_ret id
  end.

Definition allocate_position (table : string) : wt DB PositionResult :=
  id <-* get_or_create_active_segment table;
  n <-* on_kv (λ kv, kv_atomic_increment kv CF_SEG_META (segment_row_count_key id) 1);
  let row_offset := wrap32 (n - 1) in
  wt_ret {| pr_seg_id := id; pr_granule_id := row_offset `div` insert_GRANULE_SIZE; pr_row_offset := row_offset |}.

Definition ensure_segment_columns (id : string) (b : RecordBatch Arr) : wt DB unit :=
  found <-* kv_reads (λ kv, get_segment_meta kv id);
  match found with
  | None => wt_throw (ESegmentNotFound id)
  | Some meta =>
      match columns meta with
      | [] =>
          let cols := (λ f, ColumnDef_new (f_name f) (from_arrow (f_type f))) <$> rb_fields b in
          _ <-* on_kv (λ kv, put_segment_meta kv (set_columns meta cols true));
          modify (λ s, set_cache s (smc_invalidate (wd_cache s) id))
      | _ => wt_ret tt
      end
  end.

(** The file of a column is replaced by the given array. *)
Definition write_column_data_final (layout : SegmentLayout) (col_name : string) (data : list Arr) : io RockDuckError unit :=
  match data with
  | [] => io_throw (EInternal "No data to write")
  | a :: _ =>
      if arr_len a =? 0 then io_ret tt else
      batch <-! io_lift (map_err (λ e, EInternal ("Failed to create batch: " +:+ e))
                          (try_new [{| f_name := col_name; f_type := arr_type a; f_nullable := true |}] [a]));
      _ <-! vw_finish (vw_write (with_encoding_picker (col_path layout col_name) col_name picker) batch);
      io_ret tt
  end.

Definition mark_visibility_deleted (p : string) (_ row_offset txn_id : Z) : io RockDuckError unit :=
  mark_deleted p row_offset txn_id.

Definition update_table_stats (table : string) (rows_added rows_deleted new_segments txn_id : Z) : wt DB unit :=
  _ <-* (if 0 <? rows_added then (_ <-* on_kv (λ kv, increment_row_count kv table rows_added); wt_ret tt) else wt_ret tt);
  _ <-* (if 0 <? rows_deleted then (_ <-* on_kv (λ kv, increment_row_count kv table (- rows_deleted)); wt_ret tt) else wt_ret tt);
  stats <-* kv_reads (λ kv, get_or_create_table_stats kv table);
  on_kv (λ kv, put_table_stats kv
    {| ts_table_name := ts_table_name stats; ts_row_count := ts_row_count stats;
       ts_segment_count := saturating_add64 (ts_segment_count stats) new_segments;
       ts_total_size_bytes := ts_total_size_bytes stats; ts_last_updated_txn := txn_id |}).

(** The filter of the segment, created when absent; [None] is the lock that
    [get_or_insert_with] takes twice. *)
Definition insert_pk_into_bloom_filter (id : string) (pk : bytes) : wt DB unit := λ s,
  '(c, bf) ← get_or_insert_with (wd_blooms s) id (create_bloom_filter 1000 fpp);
  Some (set_blooms s (set_inner c (<[id := bloom_insert bf pk]> (bfc_inner c))), Done (Ok tt)).

(** The row of one column file: the batch that holds the offset. *)
Fixpoint before_value (col_name : string) (row_offset cumulative : Z) (bs : list (RecordBatch Arr))
    : outcome (Result (option bytes)) :=
  match bs with
  | [] => Done (Ok None)
  | b :: bs' =>
      let end_ := wrap32 (cumulative + wrap32 (rb_rows b)) in
      if (cumulative <=? row_offset) && (row_offset <? end_) then
        match rb_columns b, rb_fields b with
        | a :: _, f :: _ =>
            match slice_at a (row_offset - cumulative) with
            | Panic => Panic
            | Done sliced =>
                Done (batch <-? map_err (λ e, EInternal ("build single-row batch: " +:+ e))
                                 (try_new [{| f_name := col_name; f_type := arr_type sliced; f_nullable := f_nullable f |}] [sliced]);
                      bytes <-? batch_to_bytes batch;
                      Ok (Some bytes))
            end
        | _, _ => Panic
        end
      else before_value col_name row_offset end_ bs'
  end.

Definition read_column_before (layout : SegmentLayout) (row_offset : Z) (cd : ColumnDef)
    : io RockDuckError (option (string * bytes)) :=
  let col_name := cd_name cd in
  let p := col_path layout col_name in
  ex <-! fs_exists p;
  if negb ex then
    let null_arr : Arr := make_null_array (to_arrow (cd_data_type cd)) 1 in
    single <-! io_lift (map_err (λ e, EInternal ("build null-row batch for '" +:+ col_name +:+ "': " +:+ e))
                         (try_new [{| f_name := col_name; f_type := arr_type null_arr; f_nullable := true |}] [null_arr]));
    bytes <-! io_lift (batch_to_bytes single);
    io_ret (Some (col_name, bytes))
  else
    reader <-! VortexReader_open p;
    v <-! io_outcome (before_value col_name row_offset 0 (read_all_batches reader));
    io_ret ((λ bs, (col_name, bs)) <$> v).

Fixpoint read_columns_before (layout : SegmentLayout) (row_offset : Z) (cds : list ColumnDef)
    : io RockDuckError (list (string * bytes)) :=
  match cds with
  | [] => io_ret []
  | cd :: cds' =>
      v <-! read_column_before layout row_offset cd;
      rest <-! read_columns_before layout row_offset cds';
      io_ret (option_list v ++ rest)
  end.

Definition read_row_before_image (id : string) (row_offset : Z) : wt DB (list (string * bytes)) :=
  layout <-* layout_new id;
  found <-* kv_reads (λ kv, get_segment_meta kv id);
  match found with
  | None => wt_throw (ESegmentNotFound id)
  | Some meta => on_files (read_columns_before layout row_offset (columns meta))
  end.

(** The index record by segment and the row counter; failures are logged. *)
Definition rollback_with_plan (plan : InsertRollbackPlan) : wt DB unit :=
  _ <-* wt_try (on_kv (λ kv, kv_delete kv CF_PK_IDX (pk_index_key (plan_seg_id plan) (plan_granule_id plan) (plan_pk plan))));
  _ <-* wt_try (on_kv (λ kv, increment_row_count kv (plan_table plan) (-1)));
  wt_ret tt.

Definition rollback_insert_kv_ops (table : string) (pk : bytes) (id : string) (granule_id row_offset txn_id : Z) : wt DB unit :=
  rollback_with_plan {| plan_table := table; plan_pk := pk; plan_seg_id := id; plan_granule_id := granule_id;
                        plan_row_offset := row_offset; plan_txn_id := txn_id |}.

(** [pk.try_into::<[u8; 8]>()] *)
Definition pk_array (pk : bytes) : Result bytes :=
  if zlen pk =? 8 then Ok pk else Err (EWrite "pk must be exactly 8 bytes").

(** ** Insert *)

(** The data columns are those before the last two of the full batch. *)
Definition data_columns (full : RecordBatch Arr) : list (string * Arr) :=
  let n := (length (rb_columns full) - 2)%nat in
  zip (f_name <$> take n (rb_fields full)) (take n (rb_columns full)).
Definition vis_arrays (full : RecordBatch Arr) : list Arr := drop (length (rb_columns full) - 2) (rb_columns full).

Definition write_data_columns (layout : SegmentLayout) (full : RecordBatch Arr) : wt DB unit :=
  wt_iter (λ c : string * Arr, sliced <-* of_outcome (slice_first c.2); on_files (write_column_data_final layout c.1 [sliced]))
          (data_columns full).

Fixpoint after_image (cols : list (string * Arr)) : outcome (list (string * bytes)) :=
  match cols with
  | [] => Done []
  | (name, a) :: cols' =>
      match arrow_to_bytes a, after_image cols' with
      | Done v, Done rest => Done (option_list ((λ bs, (name, bs)) <$> v) ++ rest)
      | _, _ => Panic
      end
  end.

(** [ZoneMapStats::load] and [save]: JSON files; a failure is ignored. *)
Definition update_zone_map (p : string) (cols : list (string * Arr)) : io RockDuckError unit :=
  loaded <-! io_ok (fs_read p);
  match loaded ≫= λ bs, match decode (A := ZoneMapStats) bs with Ok z => Some z | Err _ => None end with
  | None => io_ret tt
  | Some z =>
      let z' := foldl (λ z ic, update_col z (Z.of_nat ic.1) ic.2.2) z (zip (seq 0 (length cols)) cols) in
      match encode z' with
      | Ok data => _ <-! io_ok (fs_write p data); io_ret tt
      | Err _ => io_ret tt
      end
  end.

(** Phases 0 to 2: the position, the files, the index, the statistics and the
    filter. *)
Definition insert_rows (table : string) (pk : bytes) (cols : gmap string Arr) (txn_id : TxnId)
    : wt DB (InsertRollbackPlan * SegmentLayout * RecordBatch Arr) :=
  batch <-* pure_outcome (Done (columns_to_batch cols));
  pos <-* allocate_position table;
  _ <-* ensure_segment_columns (pr_seg_id pos) batch;
  layout <-* layout_new (pr_seg_id pos);
  full <-* of_outcome (append_visibility_columns batch txn_id NOT_DELETED);
  let plan := {| plan_table := table; plan_pk := pk; plan_seg_id := pr_seg_id pos; plan_granule_id := pr_granule_id pos;
                 plan_row_offset := pr_row_offset pos; plan_txn_id := txn_id |} in
  _ <-* write_data_columns layout full;
  _ <-* on_files (vis_append_batch (vis_path layout) (vis_arrays full));
  _ <-* on_kv (λ kv, put_pk_index_double kv pk (pr_seg_id pos) (pr_granule_id pos) (pr_row_offset pos));
  _ <-* update_table_stats table 1 0 0 txn_id;
  _ <-* insert_pk_into_bloom_filter (pr_seg_id pos) pk;
  wt_ret (plan, layout, full).

Definition insert_entry (table : string) (pk : bytes) (id : string) (before after : list (string * bytes)) (op : CdcOpType)
    (txn_id : TxnId) : CdcLogEntry :=
  {| cle_op := op; cle_table := table; cle_seg_id := id; cle_pk := pk; cle_before := before; cle_after := after;
     cle_txn_id := txn_id; cle_ts := now |}.

(** Phase 3: the log, with the rollback when it fails, and what follows.  The
    early returns on the key and on the encoding of the batch skip the rollback. *)
Definition insert_log (table : string) (pk : bytes) (txn_id : TxnId)
    (prepared : InsertRollbackPlan * SegmentLayout * RecordBatch Arr) : wt DB TxnId :=
  let '(plan, layout, full) := prepared in
  wal_bytes <-* pure_outcome (Done (batch_to_wal_bytes full));
  pk8 <-* pure_outcome (Done (pk_array pk));
  wal_result <-* wt_try (log_durable OInsert txn_id
    (PInsert table pk8 wal_bytes.1 wal_bytes.2 [] (plan_seg_id plan) (plan_granule_id plan) (plan_row_offset plan)));
  match wal_result with
  | Err e => _ <-* rollback_with_plan plan; wt_throw e
  | Ok _ =>
      after <-* of_outcome (after_image (data_columns full));
      _ <-* modify (λ s, set_db s (push_cdc_entry (wd_db s) (insert_entry table pk (plan_seg_id plan) [] after CdcInsert txn_id)));
      _ <-* on_files (update_zone_map (zone_map_path layout) (data_columns full));
      wt_ret txn_id
  end.

Definition insert (table : string) (pk : bytes) (cols : gmap string Arr) (explicit_txn : option TxnId) : wt DB TxnId :=
  txn_id <-* allocate_txn explicit_txn;
  prepared <-* insert_rows table pk cols txn_id;
  insert_log table pk txn_id prepared.

(** ** Delete and update *)

(** [format!("{:?}", pk)] *)
Definition debug_bytes (pk : bytes) : string :=
  "[" +:+ foldr (λ x acc, if bool_decide (acc = "") then x else x +:+ ", " +:+ acc) "" (pretty <$> pk) +:+ "]".

Definition lookup_pk (pk : bytes) : wt DB (string * Z * Z) :=
  entry <-* kv_reads (λ kv, get_pk_index_by_pk kv pk);
  match entry with Some e => wt_ret e | None => wt_throw (EKeyNotFound ("PK not found: " +:+ debug_bytes pk)) end.

Definition delete_row (table : string) (pk : bytes) (explicit_txn : option TxnId) : wt DB unit :=
  txn_id <-* allocate_txn explicit_txn;
  '(id, granule_id, row_offset) <-* lookup_pk pk;
  layout <-* layout_new id;
  before_row <-* read_row_before_image id row_offset;
  _ <-* update_table_stats table 0 1 0 txn_id;
  pk8 <-* pure_outcome (Done (pk_array pk));
  _ <-* log_durable ODelete txn_id (PDelete table pk8 before_row id granule_id row_offset);
  _ <-* on_kv (λ kv, delete_pk_index_double kv pk id granule_id);
  _ <-* modify (λ s, set_db s (push_cdc_entry (wd_db s) (insert_entry table pk id before_row [] CdcDelete txn_id)));
  on_files (mark_visibility_deleted (vis_path layout) granule_id row_offset txn_id).

Definition update (table : string) (pk : bytes) (cols : gmap string Arr) (explicit_txn : option TxnId) : wt DB TxnId :=
  txn_id <-* allocate_txn explicit_txn;
  '(old_id, old_granule_id, old_row_offset) <-* lookup_pk pk;
  old_columns <-* read_row_before_image old_id old_row_offset;
  old_layout <-* layout_new old_id;
  _ <-* on_files (mark_visibility_deleted (vis_path old_layout) old_granule_id old_row_offset txn_id);
  pos <-* allocate_position table;
  batch <-* pure_outcome (Done (columns_to_batch cols));
  _ <-* ensure_segment_columns (pr_seg_id pos) batch;
  new_layout <-* layout_new (pr_seg_id pos);
  full <-* of_outcome (append_visibility_columns batch txn_id NOT_DELETED);
  _ <-* write_data_columns new_layout full;
  _ <-* on_files (vis_append_batch (vis_path new_layout) (vis_arrays full));
  wal_bytes <-* pure_outcome (Done (batch_to_wal_bytes full));
  pk8 <-* pure_outcome (Done (pk_array pk));
  _ <-* log_durable OUpdate txn_id (PUpdate table pk8 wal_bytes.1 wal_bytes.2 [] old_columns old_id old_granule_id
          old_row_offset (pr_seg_id pos) (pr_granule_id pos) (pr_row_offset pos));
  after <-* of_outcome (after_image (data_columns full));
  _ <-* modify (λ s, set_db s (push_cdc_entry (wd_db s) (insert_entry table pk (pr_seg_id pos) old_columns after CdcUpdate txn_id)));
  _ <-* on_kv (λ kv, delete_pk_index_double kv pk old_id old_granule_id);
  _ <-* on_kv (λ kv, put_pk_index_double kv pk (pr_seg_id pos) (pr_granule_id pos) (pr_row_offset pos));
  wt_ret txn_id.
End write_path.

(** * Replaying logged operations (the callback of [replay_wal_ops]) *)

Section replay.
Context `{KVEngine KV} `{!Codec (string * Z * Z)} `{!Codec (string * Z * Z * bytes)} `{!Codec (list (bytes * Z * Z))}
  `{Arrow Arr} `{Batches Arr} `{!VortexLib Arr} `{!Codec ColumnEncoding} `{Crc32} `{!ArrowIpc Arr}.
Context (data_dir : string) (picker : Arr → Result (Vx Arr * EncodingScheme)).

Definition write_vis_column_replay (layout : SegmentLayout) (arrays : list Arr) : io RockDuckError unit :=
  vis_append_batch (vis_path layout) arrays.
Definition mark_visibility_deleted_replay (p : string) (row_offset txn_id : Z) : io RockDuckError unit :=
  mark_deleted p row_offset txn_id.

Abbreviation R := (KV * Disk)%type.
Definition r_files {A} (m : io RockDuckError A) : st R RockDuckError A := io_on snd (λ s d, (s.1, d)) m.
Definition r_kv (f : KV → KV * Result unit) : st R RockDuckError unit := λ s,
  let '(kv, r) := f s.1 in ((kv, s.2), Done r).
Definition r_outcome {A} (o : outcome A) : st R RockDuckError A :=
  match o with Done a => io_ret a | Panic => io_panic end.
Definition replay_layout (id : string) : st R RockDuckError SegmentLayout := r_outcome (SegmentLayout_new data_dir id).

(** [batch.column(i)] of every name, each to its file. *)
Fixpoint replay_columns (layout : SegmentLayout) (names : list string) (arrays : list Arr) : st R RockDuckError unit :=
  match names, arrays with
  | [], _ => io_ret tt
  | name :: names', a :: arrays' =>
      _ <-! r_files (write_column_data_final picker layout name [a]); replay_columns layout names' arrays'
  | _ :: _, [] => io_panic
  end.

(** The row of an insert or an update: the columns, what is left of the batch to
    the vis file, and the index record of granule 0. *)
Definition replay_row (table : string) (pk : bytes) (names : list string) (wal_batch : bytes) (id : string) (offset : Z)
    : st R RockDuckError unit :=
  layout <-! replay_layout id;
  batch <-! io_lift (ipc_stream_to_batch wal_batch);
  _ <-! replay_columns layout names (rb_columns batch);
  _ <-! (match drop (length names) (rb_columns batch) with
         | [] => io_ret tt
         | rest => r_files (write_vis_column_replay layout rest)
         end);
  r_kv (λ kv, put_pk_index_double kv pk id 0 (wrap32 offset)).

Fixpoint compaction_ops (old_id new_id : string) (entries : list (bytes * Z * Z)) : Result (list KVOp) :=
  match entries with
  | [] => Ok []
  | (pk, granule, row) :: entries' =>
      new_value <-? codec_err (encode (new_id, granule, row));
      rest <-? compaction_ops old_id new_id entries';
      Ok (KPut (pk_lookup_key pk) new_value :: KDelete (pk_index_key old_id granule pk) :: rest)
  end.

Definition replay_apply (op : WalOp) : st R RockDuckError unit :=
  match payload op with
  | PInsert table pk names wal_batch _ id _ offset => replay_row table pk names wal_batch id offset
  | PUpdate table pk names wal_batch _ _ old_id _ old_offset new_id _ offset =>
      old_layout <-! replay_layout old_id;
      _ <-! r_files (mark_visibility_deleted_replay (vis_path old_layout) (wrap32 old_offset) (op_txn_id op));
      replay_row table pk names wal_batch new_id offset
  | PDelete table pk _ id granule_id offset =>
      layout <-! replay_layout id;
      _ <-! r_files (mark_visibility_deleted_replay (vis_path layout) (wrap32 offset) (op_txn_id op));
      r_kv (λ kv, delete_pk_index_double kv pk id granule_id)
  | PCommit _ _ | PRollback | PBegin | PCheckpoint _ => io_ret tt
  | PCompaction old_id new_id pk_entries commit =>
      if negb commit then io_ret tt else
      entries <-! io_lift (map_err (λ e, ECodec ("compaction pk_entries decode failed: " +:+ codec_error_display e))
                                   (decode pk_entries));
      ops <-! io_lift (compaction_ops old_id new_id entries);
      _ <-! (match ops with [] => io_ret tt | _ => r_kv (λ kv, kv_write_batch kv CF_PK_IDX ops) end);
      r_kv (λ kv, write_alias kv old_id new_id)
  end.
End replay.

(** * Reasoning about the calls *)

(** A component [f] of the state that no run changes. *)
Definition keeps {S T A} (f : S → T) (m : wt S A) : Prop := ∀ s s' o, m s = Some (s', o) → f s' = f s.

Section wt_rules.
Context {S T : Type} (f : S → T).

Lemma wt_returns_bind {A B} (m : wt S A) (k : A → wt S B) s b s' :
  wt_returns (wt_bind m k) s b s' ↔ ∃ a s1, wt_returns m s a s1 ∧ wt_returns (k a) s1 b s'.
Proof.
  unfold wt_returns, wt_bind. split.
  - destruct (m s) as [[s1 [[a|e]|]]|] eqn:Hm; intros Hr; try discriminate. eauto.
  - intros (a & s1 & -> & Hr). exact Hr.
Qed.
Lemma wt_returns_lift {A} (m : st S RockDuckError A) s a s' : wt_returns (wt_lift m) s a s' ↔ io_returns m s a s'.
Proof. unfold wt_returns, wt_lift, io_returns. split; [by intros [= ->]|by intros ->]. Qed.
Lemma wt_returns_ret {A} (a b : A) (s s' : S) : wt_returns (wt_ret a) s b s' ↔ b = a ∧ s' = s.
Proof. unfold wt_ret. rewrite wt_returns_lift. apply io_returns_ret. Qed.

Lemma keeps_bind {A B} (m : wt S A) (k : A → wt S B) : keeps f m → (∀ a, keeps f (k a)) → keeps f (wt_bind m k).
Proof.
  intros Hm Hk s s' o. unfold wt_bind. specialize (Hm s). destruct (m s) as [[s1 [[a|e]|]]|]; [|intros [= <- <-]; by eapply Hm..|done].
  intros Hr. rewrite (Hk _ _ _ _ Hr). by eapply Hm.
Qed.
Lemma keeps_ret {A} (a : A) : keeps f (wt_ret a).
Proof. by intros s s' o [= <- _]. Qed.
Lemma keeps_throw {A} e : keeps (A := A) f (wt_throw e).
Proof. by intros s s' o [= <- _]. Qed.
Lemma keeps_try {A} (m : wt S A) : keeps f m → keeps f (wt_try m).
Proof.
  intros Hm s s' o. unfold wt_try. specialize (Hm s). destruct (m s) as [[s1 [r|]]|]; [..|done];
    intros [= <- <-]; by eapply Hm.
Qed.
Lemma keeps_iter {A} (g : A → wt S unit) l : (∀ x, keeps f (g x)) → keeps f (wt_iter g l).
Proof. intros Hg. induction l as [|x l IH]; [apply keeps_ret|]. by apply keeps_bind. Qed.
End wt_rules.

Section write_proofs.
Context `{HashIter} `{KVEngineLaws KV} `{!KVCounterLaws KV} `{!Codec Z} `{!Codec (Z * Z)} `{!Codec (string * Z * Z)}
  `{!CodecLaws (string * Z * Z)} `{!Codec (string * Z * Z * bytes)} `{!CodecLaws (string * Z * Z * bytes)}
  `{!Codec SegmentMeta} `{!Codec TableStats} `{!Codec ZoneMapStats}
  `{WalLog W} `{CdcWal C} `{BoundedCache M CacheEntry} `{BloomLib B}
  `{Arrow Arr} `{Batches Arr} `{!VortexLib Arr} `{!Codec ColumnEncoding} `{Crc32} `{!ArrowIpc Arr}.
Context (data_dir : string) (picker : Arr → Result (Vx Arr * EncodingScheme)) (fpp : f64) (fresh_id : string) (now : Z).
Abbreviation DB := (WriteDb KV W C M B).
Implicit Types s : DB.

(** The index records. *)
Definition pk_records s : gmap bytes bytes := kv_abs (wd_kv s) CF_PK_IDX.
Definition wd_log s : WalWriter W := db_wal (wd_db s).

(** The rows that a segment's counter has given out. *)
Definition row_counter s (id : string) : Z := kv_counter (KV := KV) (kv_abs (wd_kv s) CF_SEG_META !! segment_row_count_key id).

(** ** What the steps keep *)

(** Parts of the state that steps on the files and on the caches do not touch, and
    those that a step on the store does not touch. *)
Definition store_part {T} (f : DB → T) : Prop :=
  (∀ s d, f (set_disk s d) = f s) ∧ (∀ s c, f (set_cache s c) = f s) ∧ (∀ s b, f (set_blooms s b) = f s).
Definition kv_keeps {A T} (f : DB → T) (g : KV → KV * Result A) : Prop :=
  ∀ s, f (set_db s (set_kv (wd_db s) (g (wd_kv s)).1)) = f s.

Lemma store_part_pk : store_part pk_records.
Proof. done. Qed.
Lemma store_part_log : store_part wd_log.
Proof. done. Qed.
Lemma store_part_pending : store_part (λ s, pending_cdc_entries (wd_db s)).
Proof. done. Qed.
Lemma store_part_rows id : store_part (λ s, row_counter s id).
Proof. done. Qed.
Hint Resolve store_part_pk store_part_log store_part_pending store_part_rows : core.

Lemma keeps_on_kv {A T} (f : DB → T) (g : KV → KV * Result A) : kv_keeps f g → keeps f (on_kv g).
Proof. intros Hg s s' o. unfold on_kv. specialize (Hg s). destruct (g _). by intros [= <- _]. Qed.
Lemma keeps_on_files {A T} (f : DB → T) (m : io RockDuckError A) :
  (∀ s d, f (set_disk s d) = f s) → keeps f (on_files m).
Proof.
  intros Hf s s' o. unfold on_files, wt_lift, io_on. destruct (m _). intros [= <- _]. apply Hf.
Qed.
Lemma keeps_reads {A T} (f : DB → T) (g : KV → Result A) : keeps f (kv_reads g).
Proof. by intros s s' o [= <- _]. Qed.
Lemma keeps_modify {T} (f : DB → T) g : (∀ s, f (g s) = f s) → keeps f (modify g).
Proof. intros Hf s s' o [= <- _]. apply Hf. Qed.
Lemma keeps_pure {A T} (f : DB → T) (o : outcome (Result A)) : keeps f (pure_outcome o).
Proof. by intros s s' o' [= <- _]. Qed.
Lemma keeps_outcome {A T} (f : DB → T) (o : outcome A) : keeps f (of_outcome o).
Proof. destruct o; intros s s' o' [= <- _]; done. Qed.

Lemma put_encoded_cell {A} `{!Codec A} (kv : KV) b k (x : A) b' k' : (b', k') ≠ (b, k) →
  kv_abs (put_encoded kv b k x).1 b' !! k' = kv_abs kv b' !! k'.
Proof.
  intros Hne. unfold put_encoded. destruct (codec_err _); [|done]. rewrite kv_put_spec. destruct (_ && bool_decide (b' = b)) eqn:E; [|done].
  apply andb_true_iff in E as [_ ->%bool_decide_eq_true]. apply lookup_insert_ne. congruence.
Qed.
Lemma put_encoded_bucket {A} `{!Codec A} (kv : KV) b k (x : A) b' : b' ≠ b → kv_abs (put_encoded kv b k x).1 b' = kv_abs kv b'.
Proof. intros Hne. apply map_eq. intros k'. apply put_encoded_cell. congruence. Qed.
Lemma increment_bucket (kv : KV) b k d b' : b' ≠ b → kv_abs (kv_atomic_increment kv b k d).1 b' = kv_abs kv b'.
Proof.
  intros Hne. destruct (kv_atomic_increment kv b k d) as [kv' [v|e]] eqn:E; cbn.
  - apply kv_increment_ok in E as (_ & bs & _ & Hk). by rewrite Hk, bool_decide_false.
  - by apply (kv_increment_err _ _ _ _ _ _ E).
Qed.

(** The parts of the state against the steps on the store. *)
Lemma kv_keeps_log {A} (g : KV → KV * Result A) : kv_keeps wd_log g.
Proof. by intros s. Qed.
Lemma kv_keeps_pending {A} (g : KV → KV * Result A) : kv_keeps (λ s, pending_cdc_entries (wd_db s)) g.
Proof. by intros s. Qed.
Lemma increment_row_count_kv (kv : KV) table n : (increment_row_count kv table n).1 = (kv_atomic_increment kv CF_STAT (table_row_count_key table) n).1.
Proof. unfold increment_row_count. by destruct (kv_atomic_increment _ _ _ _). Qed.

(** [f] is kept by writes of segment records and of table statistics. *)
Definition meta_blind {T} (f : DB → T) : Prop :=
  (∀ m, kv_keeps f (λ kv, put_segment_meta kv m)) ∧ (∀ t, kv_keeps f (λ kv, put_table_stats kv t)) ∧
  (∀ table n, kv_keeps f (λ kv, increment_row_count kv table n)).
Lemma meta_blind_pk : meta_blind pk_records.
Proof.
  split_and!; [intros m s|intros t s|intros table n s]; unfold pk_records; cbn [wd_kv set_db wd_db set_kv db_kv]; [by apply put_encoded_bucket..|].
  rewrite increment_row_count_kv. by apply increment_bucket.
Qed.
Lemma meta_blind_log : meta_blind wd_log.
Proof. split_and!; intros; apply kv_keeps_log. Qed.
Lemma meta_blind_pending : meta_blind (λ s, pending_cdc_entries (wd_db s)).
Proof. split_and!; intros; apply kv_keeps_pending. Qed.
Lemma meta_blind_rows id : meta_blind (λ s, row_counter s id).
Proof.
  split_and!; [intros m s|intros t s|intros table n s]; unfold row_counter; f_equal; cbn [wd_kv set_db wd_db set_kv db_kv].
  - apply put_encoded_cell. by intros [=].
  - unfold put_table_stats. by rewrite put_encoded_bucket.
  - rewrite increment_row_count_kv. by rewrite increment_bucket.
Qed.
Hint Resolve meta_blind_pk meta_blind_log meta_blind_pending meta_blind_rows : core.

Section blind.
Context {T : Type} (f : DB → T) (Hs : store_part f) (Hm : meta_blind f).

Lemma keeps_stats table a d n t : keeps f (update_table_stats table a d n t).
Proof.
  destruct Hm as (_ & Hst & Hinc). unfold update_table_stats.
  apply keeps_bind; [|intros _; apply keeps_bind; [|intros _; apply keeps_bind; [apply keeps_reads|intros st]]].
  - destruct (0 <? a); [|apply keeps_ret]. apply keeps_bind; [by apply keeps_on_kv|intros; apply keeps_ret].
  - destruct (0 <? d); [|apply keeps_ret]. apply keeps_bind; [by apply keeps_on_kv|intros; apply keeps_ret].
  - by apply keeps_on_kv.
Qed.
Lemma keeps_bloom id pk : keeps f (insert_pk_into_bloom_filter fpp id pk).
Proof.
  intros s s' o. unfold insert_pk_into_bloom_filter. destruct (get_or_insert_with _ _ _) as [[c bf]|]; [|done].
  intros [= <- _]. apply Hs.
Qed.
Lemma keeps_find table : keeps f (find_active_segment_for_table table).
Proof.
  intros s s' o. unfold find_active_segment_for_table. destruct (list_find _ _) as [[? m]|]; [by intros [= <- _]|].
  destruct (list_segment_metas _) as [segs|e]; [|by intros [= <- _]]. destruct (list_find _ segs) as [[? m]|]; [|by intros [= <- _]].
  intros [= <- _]. apply Hs.
Qed.
Lemma keeps_get_or_create table : keeps f (get_or_create_active_segment data_dir fpp fresh_id now table).
Proof.
  destruct Hs as (Hd & Hc & Hb). unfold get_or_create_active_segment. apply keeps_bind; [apply keeps_find|]. intros [id|]; [apply keeps_ret|].
  apply keeps_bind; [apply keeps_outcome|intros layout]. apply keeps_bind; [by apply keeps_on_files|intros _].
  apply keeps_bind; [by apply keeps_on_kv, Hm|intros _]. apply keeps_bind; [by apply keeps_modify|intros _].
  apply keeps_bind; [by apply keeps_modify|intros _]. apply keeps_ret.
Qed.
Lemma keeps_ensure id b : keeps f (ensure_segment_columns (Arr := Arr) id b).
Proof.
  unfold ensure_segment_columns. apply keeps_bind; [apply keeps_reads|]. intros [meta|]; [|apply keeps_throw].
  destruct (columns meta); [|apply keeps_ret]. apply keeps_bind; [by apply keeps_on_kv, Hm|intros _]. apply keeps_modify. intros. apply Hs.
Qed.
Lemma keeps_data layout full : keeps f (write_data_columns picker layout full).
Proof.
  apply keeps_iter. intros c. apply keeps_bind; [apply keeps_outcome|]. intros a. apply keeps_on_files. intros. apply Hs.
Qed.
End blind.

(** ** The records of an insert *)

(** The lookup record of a key names the position. *)
Definition looked_up (m : gmap bytes bytes) (pk : bytes) (id : string) (g row : Z) : Prop :=
  ∃ v, m !! pk_lookup_key pk = Some v ∧ decode v = Ok (id, g, row, pk_index_key id g pk).
(** [m'] is [m] with both records of the key, by segment and by key. *)
Definition indexed (m m' : gmap bytes bytes) (pk : bytes) (id : string) (g row : Z) : Prop :=
  ∃ v lv, m' = <[pk_lookup_key pk := lv]> (<[pk_index_key id g pk := v]> m) ∧
    decode v = Ok (id, g, row) ∧ decode lv = Ok (id, g, row, pk_index_key id g pk).

Lemma indexed_looked_up m m' pk id g row : indexed m m' pk id g row → looked_up m' pk id g row.
Proof. intros (v & lv & -> & _ & Hd). exists lv. by rewrite lookup_insert_eq. Qed.

Lemma put_index_returns pk id g row s u s' :
  wt_returns (on_kv (λ kv, put_pk_index_double kv pk id g row)) s u s' → indexed (pk_records s) (pk_records s') pk id g row.
Proof.
  unfold wt_returns, on_kv. destruct (put_pk_index_double _ _ _ _ _) as [kv r] eqn:E. intros [= <- ->]. destruct u.
  apply put_pk_index_abs in E as (v & lv & Ev & Elv & Hk). exists v, lv. specialize (Hk CF_PK_IDX).
  rewrite bool_decide_true in Hk by done. split; [exact Hk|]. split; by apply decode_encode.
Qed.
Lemma put_index_rows pk id g row j : kv_keeps (λ s, row_counter s j) (λ kv, put_pk_index_double kv pk id g row).
Proof.
  intros s. unfold row_counter. f_equal. cbn. f_equal. unfold put_pk_index_double. destruct (codec_err _) as [v|]; [|done].
  destruct (codec_err _) as [lv|]; [|done]. rewrite kv_write_batch_spec. by rewrite andb_false_r.
Qed.

(** The position that a call takes: the next row of the segment. *)
Definition next_row s (id : string) : Z := wrap32 (sat_i64 (row_counter s id + 1) - 1).

Lemma allocate_position_returns table s pos s1 :
  wt_returns (allocate_position data_dir fpp fresh_id now table) s pos s1 →
  ∃ s0, wt_returns (get_or_create_active_segment data_dir fpp fresh_id now table) s (pr_seg_id pos) s0 ∧
    pr_row_offset pos = next_row s (pr_seg_id pos) ∧ pr_granule_id pos = next_row s (pr_seg_id pos) `div` insert_GRANULE_SIZE ∧
    row_counter s1 (pr_seg_id pos) = sat_i64 (row_counter s (pr_seg_id pos) + 1) ∧
    pk_records s1 = pk_records s ∧ wd_log s1 = wd_log s ∧ pending_cdc_entries (wd_db s1) = pending_cdc_entries (wd_db s).
Proof.
  unfold allocate_position. intros Hr. apply wt_returns_bind in Hr as (id & s0 & Hg & Hr). apply wt_returns_bind in Hr as (n & s2 & Hn & Hr).
  apply wt_returns_ret in Hr as [-> ->]. cbn. exists s0. split; [exact Hg|].
  assert (∀ T (f : DB → T), store_part f → meta_blind f → f s0 = f s) as Hk by (intros; by eapply keeps_get_or_create).
  unfold wt_returns, on_kv in Hn. destruct (kv_atomic_increment _ _ _ _) as [kv r] eqn:E. injection Hn as <- ->.
  pose proof (kv_increment_ok _ _ _ _ _ _ E) as (Hv & bs & Hbs & Hkv).
  unfold next_row. rewrite <- (Hk _ (λ s, row_counter s id)) by auto. fold (row_counter s0 id) in Hv. rewrite <- Hv.
  split_and!; [done|done| |rewrite <- (Hk _ pk_records) by auto; unfold pk_records; cbn; by rewrite Hkv| |].
  - unfold row_counter. cbn. by rewrite Hkv, bool_decide_true, lookup_insert_eq.
  - rewrite <- (Hk _ wd_log) by auto. done.
  - rewrite <- (Hk _ (λ s, pending_cdc_entries (wd_db s))) by auto. done.
Qed.

(** Everything up to the log, read off the state before it. *)
Lemma insert_rows_returns table pk cols t s plan layout full s1 :
  wt_returns (insert_rows data_dir picker fpp fresh_id now table pk cols t) s (plan, layout, full) s1 →
  ∃ batch s0, columns_to_batch cols = Ok batch ∧ append_visibility_columns batch t NOT_DELETED = Done full ∧
    wt_returns (get_or_create_active_segment data_dir fpp fresh_id now table) s (plan_seg_id plan) s0 ∧
    plan_table plan = table ∧ plan_pk plan = pk ∧ plan_txn_id plan = t ∧
    plan_row_offset plan = next_row s (plan_seg_id plan) ∧ plan_granule_id plan = plan_row_offset plan `div` insert_GRANULE_SIZE ∧
    row_counter s1 (plan_seg_id plan) = sat_i64 (row_counter s (plan_seg_id plan) + 1) ∧
    indexed (pk_records s) (pk_records s1) pk (plan_seg_id plan) (plan_granule_id plan) (plan_row_offset plan) ∧
    wd_log s1 = wd_log s ∧ pending_cdc_entries (wd_db s1) = pending_cdc_entries (wd_db s).
Proof.
  intros Hr. unfold insert_rows in Hr. apply wt_returns_bind in Hr as (batch & sa & Hb & Hr).
  apply wt_returns_lift, io_returns_outcome in Hb as [[= Hb] ->].
  apply wt_returns_bind in Hr as (pos & sb & Hp & Hr). apply allocate_position_returns in Hp as (s0 & Hg & Hrow & Hgr & Hrc & Hpk & Hlog & Hpd).
  apply wt_returns_bind in Hr as (u1 & sc & H1' & Hr). apply wt_returns_bind in Hr as (lay & sd & H2' & Hr).
  apply wt_returns_bind in Hr as (fl & se & H3' & Hr). apply wt_returns_bind in Hr as (u4 & sf & H4' & Hr).
  apply wt_returns_bind in Hr as (u5 & sg & H5' & Hr). apply wt_returns_bind in Hr as (u6 & sh & H6' & Hr).
  apply wt_returns_bind in Hr as (u7 & si & H7' & Hr). apply wt_returns_bind in Hr as (u8 & sj & H8' & Hr).
  apply wt_returns_ret in Hr as [[= -> -> ->] ->]. cbn [plan_table plan_pk plan_txn_id plan_seg_id plan_row_offset plan_granule_id].
  assert (append_visibility_columns batch t NOT_DELETED = Done fl) as Hfull.
  { destruct (append_visibility_columns _ _ _); [|discriminate H3']. by apply wt_returns_ret in H3' as [-> _]. }
  assert (∀ T (f : DB → T), store_part f → meta_blind f → f sg = f sb) as Hbefore.
  { intros T f Hs Hm. rewrite (keeps_on_files f _ (proj1 Hs) _ _ _ H5'), (keeps_data f Hs _ _ _ _ _ H4'), (keeps_outcome f _ _ _ _ H3').
    by rewrite (keeps_outcome f _ _ _ _ H2'), (keeps_ensure f Hs Hm _ _ _ _ _ H1'). }
  assert (∀ T (f : DB → T), store_part f → meta_blind f → f sj = f sh) as Hafter.
  { intros T f Hs Hm. by rewrite (keeps_bloom f Hs _ _ _ _ _ H8'), (keeps_stats f Hm _ _ _ _ _ _ _ _ H7'). }
  exists batch, s0. split_and!; [done|done|done|done|done|done|done|by rewrite Hgr, Hrow| | | |].
  - rewrite (Hafter _ (λ s, row_counter s _)) by auto. rewrite (keeps_on_kv _ _ (put_index_rows _ _ _ _ _) _ _ _ H6').
    by rewrite (Hbefore _ (λ s, row_counter s _)) by auto.
  - rewrite (Hafter _ pk_records), <- Hpk, <- (Hbefore _ pk_records) by auto. by eapply put_index_returns.
  - rewrite (Hafter _ wd_log) by auto. rewrite (keeps_on_kv _ _ (kv_keeps_log _) _ _ _ H6'). by rewrite (Hbefore _ wd_log) by auto.
  - rewrite (Hafter _ (λ s, pending_cdc_entries (wd_db s))) by auto. rewrite (keeps_on_kv _ _ (kv_keeps_pending _) _ _ _ H6').
    by rewrite (Hbefore _ (λ s, pending_cdc_entries (wd_db s))) by auto.
Qed.

(** The rollback deletes the record by segment, when the store lets it, and counts the
    row out; it always returns. *)
Lemma rollback_returns plan s :
  let idx := pk_index_key (plan_seg_id plan) (plan_granule_id plan) (plan_pk plan) in
  ∃ s', rollback_with_plan plan s = Some (s', Done (Ok tt)) ∧
    wd_kv s' = (increment_row_count (kv_delete (wd_kv s) CF_PK_IDX idx).1 (plan_table plan) (-1)).1 ∧
    pk_records s' = if is_ok (kv_delete (wd_kv s) CF_PK_IDX idx).2 then delete idx (pk_records s) else pk_records s.
Proof.
  intros idx. unfold rollback_with_plan, wt_bind, wt_try, on_kv. fold idx.
  pose proof (kv_delete_spec (wd_kv s) CF_PK_IDX idx CF_PK_IDX) as Hk. destruct (kv_delete _ _ _) as [kv r]. cbn.
  pose proof (increment_bucket kv CF_STAT (table_row_count_key (plan_table plan)) (-1) CF_PK_IDX ltac:(done)) as Hi.
  rewrite <- increment_row_count_kv in Hi. destruct (increment_row_count kv _ _) as [kv' r']. cbn in Hi.
  eexists. split; [reflexivity|]. split; [done|]. unfold pk_records. cbn. rewrite Hi. cbn in Hk. rewrite Hk. by rewrite andb_true_r.
Qed.
End write_proofs.

(** * Theorems *)

Section theorems.
Context `{HashIter} `{KVEngineLaws KV} `{!KVCounterLaws KV} `{!Codec Z} `{!Codec (Z * Z)} `{!Codec (string * Z * Z)}
  `{!CodecLaws (string * Z * Z)} `{!Codec (string * Z * Z * bytes)} `{!CodecLaws (string * Z * Z * bytes)}
  `{!Codec SegmentMeta} `{!Codec TableStats} `{!Codec ZoneMapStats}
  `{WalLog W} `{CdcWal C} `{BoundedCache M CacheEntry} `{BloomLib B}
  `{Arrow Arr} `{Batches Arr} `{!VortexLib Arr} `{!Codec ColumnEncoding} `{Crc32} `{!ArrowIpc Arr}.
Context (data_dir : string) (picker : Arr → Result (Vx Arr * EncodingScheme)) (fpp : f64) (fresh_id : string) (now : Z).
Abbreviation DB := (WriteDb KV W C M B).
Implicit Types s : DB.

(** C18: What an insert leaves.  An insert that returns used the given transaction or
    the next one of the counter; it took the next row of the table's active segment,
    which is found or created, and advanced that counter by one; the index has gained
    exactly the two records of the key, by segment and by key, both with that position;
    the log has accepted the record of the batch with that position; and one change
    entry with the after-image is staged for the transaction, nothing else. *)
Theorem insert_indexes_row table pk cols e s t s' :
  wt_returns (insert data_dir picker fpp fresh_id now table pk cols e) s t s' →
  zlen pk = 8 ∧ t = default (txn_counter (wd_db s)) e ∧
  ∃ s0 id s1 batch full names data after,
    wt_returns (allocate_txn e) s t s0 ∧ wt_returns (get_or_create_active_segment data_dir fpp fresh_id now table) s0 id s1 ∧
    columns_to_batch cols = Ok batch ∧ append_visibility_columns batch t NOT_DELETED = Done full ∧
    batch_to_wal_bytes full = Ok (names, data) ∧ after_image (data_columns full) = Done after ∧
    let row := next_row s id in let g := row `div` insert_GRANULE_SIZE in
    row_counter s' id = sat_i64 (row_counter s id + 1) ∧
    indexed (pk_records s) (pk_records s') pk id g row ∧
    append_durable (wd_log s) OInsert t (PInsert table pk names data [] id g row) = Some (wd_log s', Ok tt) ∧
    pending_cdc_entries (wd_db s') =
      <[t := default [] (pending_cdc_entries (wd_db s) !! t) ++ [insert_entry now table pk id [] after CdcInsert t]]> (pending_cdc_entries (wd_db s)).
Proof.
  intros Hr. unfold insert in Hr. apply wt_returns_bind in Hr as (t' & s0 & Ht & Hr).
  assert (t' = default (txn_counter (wd_db s)) e ∧ wd_kv s0 = wd_kv s ∧ wd_log s0 = wd_log s ∧
    pending_cdc_entries (wd_db s0) = pending_cdc_entries (wd_db s)) as (Et & Ekv & Elog & Epend).
  { destruct e as [id|]; cbn in Ht; [by apply wt_returns_ret in Ht as [-> ->]|].
    unfold wt_returns, next_txn_id in Ht. destruct (txn_counter (wd_db s) =? u64_max); [done|]. by injection Ht as <- <-. }
  assert (pk_records s0 = pk_records s ∧ ∀ j, row_counter s0 j = row_counter s j) as [Epk Erow] by (unfold pk_records, row_counter; by rewrite Ekv).
  apply wt_returns_bind in Hr as ([[plan layout] full] & s1 & Hrows & Hr).
  apply insert_rows_returns in Hrows as (batch & s01 & Hb & Hf & Hg & Htab & Hpk & Htx & Hrow & Hgr & Hrc & Hidx & Hl1 & Hp1). unfold insert_log in Hr.
  apply wt_returns_bind in Hr as ([names data] & s1' & Hw & Hr). apply wt_returns_lift, io_returns_outcome in Hw as [[= Hw] ->].
  apply wt_returns_bind in Hr as (pk8 & s2 & Hp & Hr). apply wt_returns_lift, io_returns_outcome in Hp as [Hp ->].
  unfold pk_array in Hp. destruct (Z.eqb_spec (zlen pk) 8) as [Hlen|]; [|done]. injection Hp as <-. split; [done|].
  apply wt_returns_bind in Hr as (wr & s2 & Hlog & Hr). unfold wt_returns, wt_try in Hlog.
  destruct (log_durable OInsert t' _ s1) as [[s2' [wr'|]]|] eqn:El; simplify_eq/=. destruct wr as [[]|err].
  2:{ apply wt_returns_bind in Hr as (? & ? & _ & Hr). discriminate Hr. }
  apply wt_returns_bind in Hr as (after & s3 & Ha & Hr). destruct (after_image _) as [af|] eqn:Eaf; [|discriminate Ha].
  apply wt_returns_ret in Ha as [-> ->]. apply wt_returns_bind in Hr as (u & s3 & Hm & Hr).
  apply wt_returns_lift, io_returns_modify in Hm. apply wt_returns_bind in Hr as (u' & s4 & Hz & Hr).
  apply wt_returns_ret in Hr as [-> ->]. split; [done|].
  unfold log_durable in El. change (db_wal (wd_db s1)) with (wd_log s1) in El. rewrite Hl1, Elog in El.
  destruct (append_durable (wd_log s) _ _ _) as [[w r]|] eqn:Ea; [|done]. injection El as <- ->.
  exists s0, (plan_seg_id plan), s01, batch, full, names, data, af. unfold next_row in *. rewrite Erow in Hrow, Hrc. rewrite Hgr, Hrow in *.
  assert (∀ T (f : DB → T), store_part f → f s4 = f s3) as Hk by (intros T f Hs; by rewrite (keeps_on_files f _ (proj1 Hs) _ _ _ Hz)).
  split_and!; try done.
  - rewrite (Hk _ (λ s, row_counter s (plan_seg_id plan))) by done. subst s3. exact Hrc.
  - rewrite (Hk _ pk_records) by done. subst s3. rewrite <- Epk. exact Hidx.
  - rewrite (Hk _ wd_log) by done. subst s3. exact Ea.
  - rewrite (Hk _ (λ s, pending_cdc_entries (wd_db s))) by done. subst s3. cbn. by rewrite Hp1, Epend.
Qed.

(** When the key does not have eight bytes, an insert that has written its
    files and records returns an error without undoing them: the key stays in the
    index. *)
Theorem insert_bad_key_leaves_index table pk cols t s plan layout full s1 :
  wt_returns (insert_rows data_dir picker fpp fresh_id now table pk cols t) s (plan, layout, full) s1 →
  zlen pk ≠ 8 →
  (∃ e, insert data_dir picker fpp fresh_id now table pk cols (Some t) s = Some (s1, Done (Err e))) ∧
  indexed (pk_records s) (pk_records s1) pk (plan_seg_id plan) (plan_granule_id plan) (plan_row_offset plan).
Proof.
  intros Hrows Hlen. split; [|by apply insert_rows_returns in Hrows as (? & ? & Hrows); apply Hrows].
  unfold insert, allocate_txn, wt_bind at 1. cbn [wt_ret wt_lift io_ret]. unfold wt_bind at 1. rewrite Hrows.
  unfold insert_log, pk_array. rewrite (proj2 (Z.eqb_neq _ _)) by done.
  unfold wt_bind, pure_outcome, wt_lift, io_outcome. destruct (batch_to_wal_bytes full); eauto.
Qed.

(** C19: When the log refuses the record, the insert returns that error after a rollback
    that deletes the index record by segment, where the store lets it, and counts the
    row out of the table, but leaves the record by key: the index is the one before
    without any record of the key for the segment, with the lookup record of the
    position that was not inserted. *)
Theorem insert_log_failure_leaves_lookup table pk cols t s plan layout full s1 names data s2 e :
  wt_returns (insert_rows data_dir picker fpp fresh_id now table pk cols t) s (plan, layout, full) s1 →
  zlen pk = 8 → batch_to_wal_bytes full = Ok (names, data) →
  log_durable OInsert t (PInsert table pk names data [] (plan_seg_id plan) (plan_granule_id plan) (plan_row_offset plan)) s1
    = Some (s2, Done (Err e)) →
  let idx := pk_index_key (plan_seg_id plan) (plan_granule_id plan) pk in
  ∃ s', insert data_dir picker fpp fresh_id now table pk cols (Some t) s = Some (s', Done (Err e)) ∧
    wd_kv s' = (increment_row_count (kv_delete (wd_kv s2) CF_PK_IDX idx).1 table (-1)).1 ∧
    looked_up (pk_records s') pk (plan_seg_id plan) (plan_granule_id plan) (plan_row_offset plan) ∧
    (is_ok (kv_delete (wd_kv s2) CF_PK_IDX idx).2 = true →
     ∃ lv, pk_records s' = <[pk_lookup_key pk := lv]> (delete idx (pk_records s))).
Proof.
  intros Hrows Hlen Hb Hlog idx. pose proof Hrows as Hrows'.
  apply insert_rows_returns in Hrows' as (_ & _ & _ & _ & _ & Htab & Hpk & _ & _ & _ & _ & (v & lv & Hidx & _ & Hd) & _).
  destruct (rollback_returns plan s2) as (s' & Hr & Hkv & Hpks). rewrite Hpk in Hkv, Hpks. fold idx in Hkv, Hpks. exists s'. split.
  { unfold insert, allocate_txn, wt_bind at 1. cbn [wt_ret wt_lift io_ret]. unfold wt_bind at 1. rewrite Hrows.
    unfold insert_log, pk_array. rewrite Hlen, Hb. unfold wt_bind at 1 2 3. cbn [pure_outcome wt_lift io_outcome fst snd].
    unfold wt_try. cbn [Z.eqb Pos.eqb]. change (8 =? 8) with true. cbv iota. cbn. rewrite Hlog.
    unfold wt_bind, wt_throw, wt_lift, io_throw. by rewrite Hr. }
  assert (pk_records s2 = pk_records s1) as Hk.
  { revert Hlog. unfold log_durable. destruct (append_durable _ _ _ _) as [[w x]|]; [|done]. by intros [= <- _]. }
  assert (idx ≠ pk_lookup_key pk) as Hne by apply pk_keys_differ.
  rewrite Hk, Hidx in Hpks. fold idx in Hpks. split_and!; [by rewrite Htab in Hkv| |].
  - exists lv. split; [|done]. rewrite Hpks. destruct (is_ok _); [rewrite lookup_delete_ne by done|]; apply lookup_insert_eq.
  - intros Hok. exists lv. rewrite Hpks, Hok, delete_insert_ne by done. by rewrite delete_insert_eq.
Qed.
End theorems.

(** ** Column files *)

Section column_files.
Context `{ArrowLaws Arr} `{!Batches Arr} `{!BatchesLaws Arr} `{!VortexLib Arr} `{!VortexLaws Arr} `{CodecLaws ColumnEncoding}
  `{!ArrowIpc Arr}.
Context (picker : Arr → Result (Vx Arr * EncodingScheme)).

Lemma write_column_slots layout name a d d' :
  lossless (Some picker) → arr_len a = 1 → col_path layout name ≠ encoding_path (col_path layout name) →
  io_returns (write_column_data_final picker layout name [a]) d tt d' →
  ∃ (r : VortexReader Arr) (c : Arr), io_returns (VortexReader_open (col_path layout name)) (new_disk (disk_files d')) r (new_disk (disk_files d')) ∧
    read_all_batches r = [{| rb_fields := [{| f_name := "value"; f_type := arr_type c; f_nullable := true |}];
                             rb_columns := [c]; rb_rows := arr_len c |}] ∧ slots c = slots a.
Proof.
  intros Hl Ha Hne Hr. unfold write_column_data_final in Hr. rewrite Ha in Hr. cbn in Hr.
  apply io_returns_bind in Hr as (b & d1 & Hb & Hr). apply io_returns_lift in Hb as [Hb ->].
  rewrite (try_new_ok _ _ 1) in Hb; [|done|by repeat constructor]. injection Hb as <-.
  apply io_returns_bind in Hr as (meta & d2 & Hf & Hr). apply io_returns_ret in Hr as [_ ->].
  set (w := vw_write _ _) in Hf.
  destruct (finish_returns w d meta d2 ltac:(done) ltac:(done) Hf) as (v & sc & bs & mb & Hc & Hw & _ & Hfs).
  destruct (open_written (col_path layout name) v bs (new_disk (disk_files d2))) as (c & Hs & Ho);
    [done|cbn; change (vw_path w) with (col_path layout name) in Hfs; by rewrite Hfs, lookup_insert_ne, lookup_insert_eq|done|].
  eexists _, c. split; [exact Ho|]. cbn. split; [done|]. rewrite Hs.
  rewrite (compress_adaptive_slots w v sc Hl Hc). cbn. unfold first_slots. cbn. apply app_nil_r.
Qed.
End column_files.

(** Writing the value of a new row replaces the file of its column: the file
    then holds that one row, and no value can be read at any other offset. *)
Theorem column_write_replaces `{ArrowLaws Arr} `{!Batches Arr} `{!BatchesLaws Arr} `{!VortexLib Arr} `{!VortexLaws Arr}
    `{CodecLaws ColumnEncoding} `{!ArrowIpc Arr} (picker : Arr → Result (Vx Arr * EncodingScheme)) layout name a d d' :
  lossless (Some picker) → arr_len a = 1 → col_path layout name ≠ encoding_path (col_path layout name) →
  io_returns (write_column_data_final picker layout name [a]) d tt d' →
  ∃ (r : VortexReader Arr) (c : Arr), io_returns (VortexReader_open (col_path layout name)) (new_disk (disk_files d')) r (new_disk (disk_files d')) ∧
    (read_all_batches r ≫= first_slots) = slots a ∧ slots c = slots a ∧
    ∀ row, 1 ≤ row → before_value name row 0 (read_all_batches r) = Done (Ok None).
Proof.
  intros Hl Ha Hne Hr. destruct (write_column_slots picker layout name a d d' Hl Ha Hne Hr) as (r & c & Ho & Hb & Hs).
  assert (arr_len c = 1) as Hc by (by rewrite <- zlen_slots, Hs, zlen_slots).
  exists r, c. rewrite Hb. split_and!; [done|cbn; by rewrite app_nil_r|done|].
  intros row Hrow. cbn [before_value rb_rows]. rewrite Hc. change (wrap32 (0 + wrap32 1)) with 1.
  rewrite (proj2 (Z.ltb_ge row 1)) by done. by rewrite andb_false_r.
Qed.

(** ** Replay *)

Section replay_proofs.
Context `{KVEngine KV} `{!Codec (string * Z * Z)} `{!Codec (string * Z * Z * bytes)} `{!Codec (list (bytes * Z * Z))}
  `{Arrow Arr} `{Batches Arr} `{!VortexLib Arr} `{!Codec ColumnEncoding} `{Crc32} `{!ArrowIpc Arr}.
Context (data_dir : string) (picker : Arr → Result (Vx Arr * EncodingScheme)).

Lemma touches_bind_returns {E A B'} ps (m : io E A) (k : A → io E B') :
  touches ps m → (∀ d a d', io_returns m d a d' → touches ps (k a)) → touches ps (io_bind m k).
Proof.
  intros Hm Hk d. unfold io_bind. specialize (Hm d). destruct (m d) as [d1 [[a|e]|]] eqn:Ed; [|done..].
  specialize (Hk d a d1 Ed d1). destruct (k a d1) as [d2 o]. intros p Hp. by rewrite Hk, Hm.
Qed.

Lemma flush_pending_path (w w' : VortexWriter Arr) n d d' :
  io_returns (flush_pending w) d (w', n) d' → vw_path w' = vw_path w.
Proof.
  unfold flush_pending, flush_to_disk. intros Hr. repeat (case_match; io_inv); by simplify_eq.
Qed.

Lemma finish_touches (w : VortexWriter Arr) : touches [vw_path w; encoding_path (vw_path w)] (vw_finish w).
Proof.
  unfold vw_finish. apply touches_bind_returns.
  - unfold flush_pending, flush_to_disk, append_vortex_bytes_sync, append_encoding_meta_sync. io_touches.
  - intros d [w' n] d' Hp%flush_pending_path. rewrite <- Hp. unfold write_vortex_bytes_sync, save_encoding_meta_sync. io_touches.
Qed.

(** The contents of a file that no run changes. *)
Definition file_kept {A} (p : string) (m : st (KV * Disk) RockDuckError A) : Prop :=
  ∀ s, disk_files (m s).1.2 !! p = disk_files s.2 !! p.

Lemma kept_bind {A A'} p (m : st (KV * Disk) RockDuckError A) (k : A → st (KV * Disk) RockDuckError A') :
  file_kept p m → (∀ a, file_kept p (k a)) → file_kept p (io_bind m k).
Proof.
  intros Hm Hk s. unfold io_bind. specialize (Hm s). destruct (m s) as [s1 [[a|e]|]]; [|done..].
  by rewrite (Hk a s1).
Qed.
Lemma kept_files {A} ps p (m : io RockDuckError A) : touches ps m → p ∉ ps → file_kept p (r_files (KV := KV) m).
Proof.
  intros Hm Hp [kv d]. unfold r_files, io_on. specialize (Hm d). cbn. destruct (m d) as [d' o]. by apply Hm.
Qed.
Lemma kept_layout id p : file_kept p (replay_layout data_dir id).
Proof. intros s. unfold replay_layout. by destruct (SegmentLayout_new data_dir id). Qed.
Lemma kept_lift {A} p (r : Result A) : file_kept p (io_lift r).
Proof. by intros s. Qed.
Lemma kept_kv p g : file_kept p (r_kv g).
Proof. intros [kv d]. unfold r_kv. cbn. by destruct (g kv). Qed.

Lemma write_column_touches layout name data :
  touches [col_path layout name; encoding_path (col_path layout name)] (write_column_data_final picker layout name data).
Proof.
  unfold write_column_data_final. destruct data as [|a data]; [auto with rd|]. destruct (arr_len a =? 0); [auto with rd|].
  apply touches_bind; [auto with rd|intros b]. apply touches_bind; [|auto with rd].
  match goal with |- touches _ (vw_finish ?w) => exact (finish_touches w) end.
Qed.

Lemma kept_columns layout names arrays p :
  Forall (λ n, p ≠ col_path layout n ∧ p ≠ encoding_path (col_path layout n)) names →
  file_kept p (replay_columns picker layout names arrays).
Proof.
  intros Hn. revert arrays. induction Hn as [|n names [Hp He] _ IH]; intros [|a arrays]; cbn [replay_columns]; try by intros s.
  apply kept_bind; [|intros _; apply IH]. eapply kept_files; [apply write_column_touches|set_solver].
Qed.

(** An encoding sidecar is never the vis file. *)
Lemma vis_path_not_sidecar layout p : vis_path layout ≠ encoding_path p.
Proof.
  intros E. apply (f_equal str_last) in E. unfold encoding_path in E.
  rewrite (with_extension_last _ _ (Ascii.ascii_of_nat 103)) in E by done.
  unfold vis_path, path_join in E. cbn [is_absolute] in E.
  assert (∀ a, str_last (a +:+ "__vis.vortex") = Some (Ascii.ascii_of_nat 120)) as Hx by (intros; by apply str_last_app).
  assert (∀ a, str_last (a +:+ "/" +:+ "__vis.vortex") = Some (Ascii.ascii_of_nat 120)) as Hy by (intros; by apply str_last_app).
  rewrite bool_decide_false in E by done. repeat case_bool_decide; rewrite ?Hx, ?Hy in E; done.
Qed.
End replay_proofs.

(** Replaying an insert or the new row of an update as the write path logs it,
    with a name for every column of the batch, writes nothing to the vis file of
    the segment: the creator of the row is not restored. *)
Theorem replay_row_skips_vis `{KVEngine KV} `{!Codec (string * Z * Z)} `{!Codec (string * Z * Z * bytes)}
    `{Arrow Arr} `{Batches Arr} `{!VortexLib Arr} `{!Codec ColumnEncoding} `{!ArrowIpc Arr}
    data_dir (picker : Arr → Result (Vx Arr * EncodingScheme)) table pk names wal_batch id offset (s : KV * Disk) layout (batch : RecordBatch Arr) :
  SegmentLayout_new data_dir id = Done layout →
  ipc_stream_to_batch wal_batch = Ok batch → length names = length (rb_columns batch) →
  Forall (λ n, vis_path layout ≠ col_path layout n) names →
  disk_files (replay_row data_dir picker table pk names wal_batch id offset s).1.2 !! vis_path layout
    = disk_files s.2 !! vis_path layout.
Proof.
  intros Hl Hb Hlen Hn. revert s. change (file_kept (KV := KV) (vis_path layout) (replay_row data_dir picker table pk names wal_batch id offset)).
  unfold replay_row, replay_layout. rewrite Hl, Hb. intros s. unfold io_bind at 1. cbn [r_outcome io_ret].
  unfold io_bind at 1. cbn [io_lift]. rewrite Hlen, drop_all. revert s.
  apply kept_bind; [apply kept_columns|intros _; apply kept_bind; [by intros s|intros _; apply kept_kv]].
  eapply Forall_impl; [exact Hn|]. cbn. intros n Hne. split; [done|apply vis_path_not_sidecar].
Qed.

(** The record by key holds a value of three fields. *)
Definition three_fields `{Codec (string * Z * Z)} (pk : bytes) (m : gmap bytes bytes) : Prop :=
  ∃ (x : string * Z * Z) v, encode x = Ok v ∧ m !! pk_lookup_key pk = Some v.

Lemma compaction_ops_three `{Codec (string * Z * Z)} old new entries ops pk m :
  compaction_ops old new entries = Ok ops →
  pk ∈ entries.*1.*1 ∨ three_fields pk m → three_fields pk (kv_apply ops m).
Proof.
  revert ops m. induction entries as [|[[k g] row] entries IH]; intros ops m; cbn [compaction_ops].
  { intros [= <-] [Hin|Hm]; [by apply elem_of_nil in Hin|done]. }
  destruct (encode (new, g, row)) as [v|] eqn:E; cbn; [|done].
  destruct (compaction_ops old new entries) as [ops'|] eqn:Ec; cbn; [|done]. intros [= <-] Hm.
  apply (IH ops' _ eq_refl).
  destruct (decide (pk_lookup_key pk = pk_lookup_key k)) as [Heq|Hne].
  - right. exists (new, g, row), v. split; [done|]. rewrite Heq, lookup_delete_ne by apply pk_keys_differ. apply lookup_insert_eq.
  - destruct Hm as [[->|Hin]%elem_of_cons|(x & w & Hx & Hw)]; [done|by left|]. right. exists x, w. split; [done|].
    rewrite lookup_delete_ne by apply pk_keys_differ. by rewrite lookup_insert_ne.
Qed.

(** Replaying the record of a compaction stores three fields under the key
    that lookups decode as four, so no key of the compacted segment is found
    afterwards: every lookup that reaches the store ends with a decoding error. *)
Theorem replay_compaction_breaks_lookup `{KVEngineLaws KV} `{!Codec (string * Z * Z)} `{!Codec (string * Z * Z * bytes)}
    `{!Codec (list (bytes * Z * Z))} `{Arrow Arr} `{Batches Arr} `{!VortexLib Arr} `{!Codec ColumnEncoding} `{Crc32} `{!ArrowIpc Arr}
    data_dir (picker : Arr → Result (Vx Arr * EncodingScheme)) t old new data entries (s s' : KV * Disk) pk r :
  (∀ (x : string * Z * Z) v, encode x = Ok v → ∃ e, decode (A := string * Z * Z * bytes) v = Err e) →
  decode data = Ok entries → pk ∈ entries.*1.*1 →
  io_returns (replay_apply data_dir picker {| op_type := OCompaction; op_txn_id := t; payload := PCompaction old new data true |}) s tt s' →
  get_pk_index_by_pk s'.1 pk ≠ Ok r.
Proof.
  intros Hshort Hd Hpk Hr. unfold replay_apply in Hr. cbn [payload negb] in Hr. rewrite Hd in Hr.
  apply io_returns_bind in Hr as (es & s1 & He & Hr). apply io_returns_lift in He as [[= <-] ->].
  apply io_returns_bind in Hr as (ops & s1 & Ho & Hr). apply io_returns_lift in Ho as [Ho ->].
  apply io_returns_bind in Hr as (u & s1 & Hw & Ha).
  assert (kv_abs s'.1 CF_PK_IDX = kv_abs s1.1 CF_PK_IDX) as Hk.
  { revert Ha. unfold io_returns, r_kv, write_alias, put_segment_alias.
    match goal with |- context [kv_put ?kv ?b ?k ?v] => pose proof (kv_put_spec kv b k v CF_PK_IDX) as Hp; destruct (kv_put kv b k v) as [kv' x] end.
    rewrite andb_false_r in Hp. by intros [= <- _]. }
  assert (three_fields pk (kv_abs s1.1 CF_PK_IDX)) as (x & v & Hx & Hv).
  { destruct ops as [|op ops].
    { apply io_returns_ret in Hw as [_ ->]. apply (compaction_ops_three old new entries []); auto. }
    revert Hw. unfold io_returns, r_kv. pose proof (kv_write_batch_spec s.1 CF_PK_IDX (op :: ops) CF_PK_IDX) as Hb.
    destruct (kv_write_batch _ _ _) as [kv x]. intros [= <- ->]. cbn in Hb |- *. rewrite Hb.
    apply (compaction_ops_three old new entries (op :: ops)); auto. }
  unfold get_pk_index_by_pk. destruct (kv_get s'.1 CF_PK_IDX (pk_lookup_key pk)) as [o|] eqn:Eg; cbn; [|done].
  apply kv_get_spec in Eg. rewrite Hk, Hv in Eg. subst o. by destruct (Hshort _ _ Hx) as [e ->].
Qed.

(** * Witnesses *)

#[export] Instance list_bloom : BloomLib (list bytes) := { bf_with_false_pos _ _ := []; bf_insert b pk := pk :: b }.
#[export] Instance TableStats_eq_dec : EqDecision TableStats.
Proof. solve_decision. Defined.

(** Whether a call returned a value or an error. *)
Definition returned {S A} (m : wt S A) (s : S) : option bool :=
  match m s with Some (_, Done r) => Some (is_ok r) | _ => None end.
Lemma returned_err {S A} (m : wt S A) s : returned m s = Some false → ∃ s' e, m s = Some (s', Done (Err e)).
Proof. unfold returned. destruct (m s) as [[s' [[]|]]|]; try done. eauto. Qed.

Section witnesses.
Definition demo_row_fields : list Field := [{| f_name := "v"; f_type := Int64; f_nullable := true |}].
Definition demo_full : RecordBatch ListArray :=
  {| rb_fields := demo_row_fields ++ visibility_schema;
     rb_columns := [int_array [Some 5]; int_array [Some 3]; int_array [Some (-1)]]; rb_rows := 1 |}.
Definition demo_val : RecordBatch ListArray :=
  {| rb_fields := [{| f_name := "val"; f_type := Int64; f_nullable := true |}]; rb_columns := [int_array [Some 5]]; rb_rows := 1 |}.
Definition demo_seg : SegmentMeta := SegmentMeta_new 7 "seg_1" "t" [].
Definition demo_stats (t : Z) : TableStats :=
  {| ts_table_name := "t"; ts_row_count := 0; ts_segment_count := 0; ts_total_size_bytes := 0; ts_last_updated_txn := t |}.
#[local] Instance w_z : Codec Z := countable_codec Z.
#[local] Instance w_zz : Codec (Z * Z) := countable_codec (Z * Z).
#[local] Instance w_3 : Codec (string * Z * Z) := pk_codec3.
#[local] Instance w_3_laws : CodecLaws (string * Z * Z) := countable_codec_laws _.
#[local] Instance w_4 : Codec (string * Z * Z * bytes) := pk_codec4.
#[local] Instance w_4_laws : CodecLaws (string * Z * Z * bytes) := countable_codec_laws _.
#[local] Instance w_meta : Codec SegmentMeta :=
  table_codec [demo_seg; set_columns demo_seg [ColumnDef_new "v" Meta.Int64] true].
#[local] Instance w_stats : Codec TableStats := table_codec [demo_stats 3].
#[local] Instance w_zone : Codec ZoneMapStats := {| encode _ := Err (CEncode "none"); decode _ := Err (CDecode "none") |}.
#[local] Instance w_enc : Codec ColumnEncoding := sample_encoding_codec.
#[local] Instance w_ipc : ArrowIpc ListArray := table_ipc [demo_full; demo_val].
#[local] Existing Instance sample_crc.

Definition demo_picker (a : ListArray) : Result (Vx ListArray * EncodingScheme) := Ok (a, BtrBlocks).
(** A log that accepts everything, and one whose flushes fail. *)
Definition demo_write_db (fails : list bool) : WriteDb MemKV MemLog (list CdcOp) (MapCache CacheEntry) (list bytes) :=
  {| wd_db := {| db_kv := mem_empty; db_mvcc := VisibilityManager_new; txn_counter := 3;
                 db_ckpt := {| ck_disk := new_disk ∅; next_id := 0; ck_wal := Wal.open (demo_log fails) demo_sync_config [] |};
                 cached_snapshot := None; cdc_log_buffer := CdcLogBuffer_new 4; cdc_wal := None;
                 pending_cdc_entries := ∅; last_checkpoint_txn := 0 |};
     wd_cache := SegmentMetaCache_new 4; wd_blooms := BoundedBloomFilterCache_new 4 |}.
Definition demo_pk : bytes := [1; 2; 3; 4; 5; 6; 7; 8].
Definition demo_cols : gmap string ListArray := {["v" := int_array [Some 5]]}.
Abbreviation demo_insert := (insert "data" demo_picker (f64_of_Z 0) "1" 7 "t" demo_pk demo_cols).

Lemma insert_indexes_row_witness : ∃ s',
  wt_returns (demo_insert None) (demo_write_db []) 3 s' ∧ indexed (pk_records (demo_write_db [])) (pk_records s') demo_pk "seg_1" 0 0 ∧
  row_counter s' "seg_1" = 1.
Proof.
  assert (snd <$> demo_insert None (demo_write_db []) = Some (Done (Ok 3))) as Hr by (vm_compute; reflexivity).
  apply fmap_Some in Hr as ([s' o] & E & Ho). cbn in Ho. subst o.
  destruct (insert_indexes_row "data" demo_picker (f64_of_Z 0) "1" 7 "t" demo_pk demo_cols None _ 3 s' E)
    as (_ & _ & s0 & id & s1 & _ & _ & _ & _ & _ & Ha & Hg & _ & _ & _ & _ & Hc & Hi & _).
  assert (id = "seg_1") as -> by (vm_compute in Ha; injection Ha as <-; vm_compute in Hg; by injection Hg as _ <-).
  exists s'. split_and!; [exact E| |rewrite Hc; vm_compute; reflexivity].
  revert Hi. replace (next_row (demo_write_db []) "seg_1") with 0 by (vm_compute; reflexivity). by intros Hi.
Defined.

Definition demo_plan : InsertRollbackPlan :=
  {| plan_table := "t"; plan_pk := demo_pk; plan_seg_id := "seg_1"; plan_granule_id := 0; plan_row_offset := 0; plan_txn_id := 3 |}.
Definition demo_prepared : WriteDb MemKV MemLog (list CdcOp) (MapCache CacheEntry) (list bytes) :=
  match insert_rows "data" demo_picker (f64_of_Z 0) "1" 7 "t" demo_pk demo_cols 3 (demo_write_db [true]) with
  | Some (s, _) => s
  | None => demo_write_db []
  end.
Definition demo_names : list string := ["v"; CREATED_TXN_COL; DELETED_TXN_COL].

Lemma insert_log_failure_leaves_lookup_witness : ∃ s' e lv,
  demo_insert (Some 3) (demo_write_db [true]) = Some (s', Done (Err e)) ∧ looked_up (pk_records s') demo_pk "seg_1" 0 0 ∧
  pk_records s' = <[pk_lookup_key demo_pk := lv]> (delete (pk_index_key "seg_1" 0 demo_pk) (pk_records (demo_write_db [true]))).
Proof.
  assert (returned (log_durable OInsert 3 (PInsert "t" demo_pk demo_names [83; 0] [] "seg_1" 0 0)) demo_prepared = Some false)
    as Hl by (vm_compute; reflexivity).
  apply returned_err in Hl as (s2 & e & Hlog).
  destruct (insert_log_failure_leaves_lookup "data" demo_picker (f64_of_Z 0) "1" 7 "t" demo_pk demo_cols 3 (demo_write_db [true])
    demo_plan {| seg_dir := "data/segments/seg_1" |} demo_full demo_prepared demo_names [83; 0] s2 e) as (s' & Hi & _ & Hk & Hd);
    [vm_compute; reflexivity|reflexivity|vm_compute; reflexivity|exact Hlog|].
  destruct Hd as [lv Hd]; [vm_compute in Hlog; injection Hlog as <- _; vm_compute; reflexivity|].
  exists s', e, lv. split_and!; [exact Hi|exact Hk|exact Hd].
Defined.
End witnesses.
