(* ===== verification/AccessTracker.v ===== *)
(** The tracker of scan accesses (compaction/access_tracker.rs): granule
    counters per segment, the smoothed hot and overlap scores, the index of
    least recently used segments beside the map it evicts from, and the choice
    of the segments to rewrite. *)

From stdpp Require Import base gmap strings list sorting.
From Stdlib Require Import Floats.SpecFloat.
From S2P Require Import Prelude.

Local Open Scope Z_scope.

Definition DEFAULT_GRANULE_SIZE : Z := 8192.
Definition DEFAULT_HOT_GRANULE_ACCESS_COUNT : Z := 3.
Definition DEFAULT_HOT_SCORE_THRESHOLD : f64 := f64_lit 3 10.
Definition DEFAULT_OVERLAP_THRESHOLD : f64 := f64_lit 3 10.
Definition DEFAULT_MAX_TRACKED_SEGMENTS : Z := 1000.
Definition DEFAULT_MAX_SCAN_RANGES_PER_SEG : Z := 64.

Record Config := {
  granule_size : Z;
  hot_granule_access_count : Z;
  hot_score_decay : f64;
  hot_score_threshold : f64;
  overlap_threshold : f64;
  max_tracked_segments : Z;
  max_scan_ranges_per_seg : Z;
  overlap_decay : f64
}.
Definition config_default : Config := {|
  granule_size := DEFAULT_GRANULE_SIZE;
  hot_granule_access_count := DEFAULT_HOT_GRANULE_ACCESS_COUNT;
  hot_score_decay := f64_lit 875 1000;
  hot_score_threshold := DEFAULT_HOT_SCORE_THRESHOLD;
  overlap_threshold := DEFAULT_OVERLAP_THRESHOLD;
  max_tracked_segments := DEFAULT_MAX_TRACKED_SEGMENTS;
  max_scan_ranges_per_seg := DEFAULT_MAX_SCAN_RANGES_PER_SEG;
  overlap_decay := f64_lit 9 10
|}.

Record ScanRange := { sr_start_key : bytes; sr_end_key : bytes }.

(** [ScanRange::overlaps]; slices of bytes compare lexicographically. *)
Definition overlaps (a b : ScanRange) : bool :=
  if negb (ltb (sr_start_key a) (sr_end_key a)) || negb (ltb (sr_start_key b) (sr_end_key b))
  then false
  else ltb (sr_start_key a) (sr_end_key b) && ltb (sr_start_key b) (sr_end_key a).

Record SegmentState := {
  ss_granule_map : btree Z Z;
  ss_hot_score : f64;
  ss_scan_ranges : list ScanRange;
  ss_overlap_score : f64;
  ss_last_update_ms : Z
}.
Definition segment_state_default : SegmentState := {|
  ss_granule_map := [];
  ss_hot_score := S754_zero false;
  ss_scan_ranges := [];
  ss_overlap_score := S754_zero false;
  ss_last_update_ms := 0
|}.

Record TrackerStats := {
  ts_total_access_calls : Z;
  ts_total_select_calls : Z;
  ts_segments_tracked : Z;
  ts_candidates_found : Z
}.
Definition tracker_stats_default : TrackerStats := {|
  ts_total_access_calls := 0; ts_total_select_calls := 0; ts_segments_tracked := 0; ts_candidates_found := 0
|}.

Record AccessTracker := {
  at_config : Config;
  at_segments : gmap string SegmentState;
  at_lru_index : btree (Z * string) string;
  at_recent_global_scans : list ScanRange;
  at_stats : TrackerStats
}.

Definition with_config (c : Config) : AccessTracker := {|
  at_config := c; at_segments := ∅; at_lru_index := []; at_recent_global_scans := [];
  at_stats := tracker_stats_default
|}.
Definition access_tracker_new : AccessTracker := with_config config_default.

(** * Recording *)

(** The eviction at capacity: the first entry of the index and its segment. *)
Definition evict_lru (c : Config) (segments : gmap string SegmentState) (lru : btree (Z * string) string) :
  gmap string SegmentState * btree (Z * string) string :=
  if max_tracked_segments c <=? Z.of_nat (size segments) then
    match lru with
    | [] => (segments, lru)
    | (_, lru_key) :: lru' => (delete lru_key segments, lru')
    end
  else (segments, lru).

(** The entry's old key leaves the index and the new one enters it. *)
Definition lru_touch (lru : btree (Z * string) string) (seg_id : string) (last now_ms : Z) :
  btree (Z * string) string :=
  let lru := if 0 <? last then bt_remove (last, seg_id) lru else lru in
  bt_insert (now_ms, seg_id) seg_id lru.

(** [c.saturating_add(1)] on [u16] *)
Definition saturating_inc16 (c : Z) : Z := Z.min (c + 1) 65535.
Definition bump_granule (m : btree Z Z) (g : Z) : btree Z Z :=
  bt_insert g (match bt_get g m with Some c => saturating_inc16 c | None => 1 end) m.
(** [for g in start_g..=end_g] *)
Definition bump_granules (start_g end_g : Z) (m : btree Z Z) : btree Z Z :=
  for_each (seqZ start_g (end_g - start_g + 1)) m bump_granule.

Definition next_hot_score (c : Config) (hot : f64) (start_g end_g : Z) : f64 :=
  let granule_count := f64_of_Z (wrap32 (wrap32 (end_g - start_g) + 1)) in
  let hot_increment := f64_min (f64_mul granule_count (f64_lit 1 10)) (f64_of_Z 1) in
  f64_min
    (f64_add (f64_mul hot (hot_score_decay c))
             (f64_mul hot_increment (f64_sub (f64_of_Z 1) (hot_score_decay c))))
    (f64_of_Z 1).

Definition start_granule (c : Config) (start_row : Z) : Z := start_row / granule_size c.
(** [(start_row + row_count - 1) / granule_size] on [u32] *)
Definition end_granule (c : Config) (start_row row_count : Z) : Z :=
  wrap32 (wrap32 (start_row + row_count) - 1) / granule_size c.

Definition mark_access (t : AccessTracker) (seg_id : string) (start_row row_count now_ms : Z) : AccessTracker :=
  if (row_count =? 0) || bool_decide (seg_id = EmptyString) then t else
  let c := at_config t in
  let start_g := start_granule c start_row in
  let end_g := end_granule c start_row row_count in
  let '(segments, lru) := evict_lru c (at_segments t) (at_lru_index t) in
  let state := default segment_state_default (segments !! seg_id) in
  let segments := <[seg_id := {|
    ss_granule_map := bump_granules start_g end_g (ss_granule_map state);
    ss_hot_score := next_hot_score c (ss_hot_score state) start_g end_g;
    ss_scan_ranges := ss_scan_ranges state;
    ss_overlap_score := ss_overlap_score state;
    ss_last_update_ms := now_ms |}]> segments in
  {| at_config := c;
     at_segments := segments;
     at_lru_index := lru_touch lru seg_id (ss_last_update_ms state) now_ms;
     at_recent_global_scans := at_recent_global_scans t;
     at_stats := {|
       ts_total_access_calls := wrap64 (ts_total_access_calls (at_stats t) + 1);
       ts_total_select_calls := ts_total_select_calls (at_stats t);
       ts_segments_tracked := Z.of_nat (size segments);
       ts_candidates_found := ts_candidates_found (at_stats t) |} |}.

(** [pop_front] when [max] entries are held, then [push_back] *)
Definition push_bounded {A} (max : Z) (x : A) (q : list A) : list A :=
  (if max <=? zlen q then drop 1 q else q) ++ [x].

Definition next_overlap_score (c : Config) (score : f64) (ranges : list ScanRange) : f64 :=
  match last ranges with
  | Some l =>
      let overlap_count := zlen (filter (λ r, overlaps r l = true) ranges) in
      let ratio := f64_div (f64_of_Z overlap_count) (f64_of_Z (zlen ranges)) in
      f64_add (f64_mul score (overlap_decay c)) (f64_mul ratio (f64_sub (f64_of_Z 1) (overlap_decay c)))
  | None => score
  end.

Definition record_scan_range (t : AccessTracker) (seg_id : string) (range : ScanRange) (now_ms : Z) : AccessTracker :=
  let c := at_config t in
  let state := default segment_state_default (at_segments t !! seg_id) in
  let ranges := push_bounded (max_scan_ranges_per_seg c) range (ss_scan_ranges state) in
  {| at_config := c;
     at_segments := <[seg_id := {|
       ss_granule_map := ss_granule_map state;
       ss_hot_score := ss_hot_score state;
       ss_scan_ranges := ranges;
       ss_overlap_score := next_overlap_score c (ss_overlap_score state) ranges;
       ss_last_update_ms := now_ms |}]> (at_segments t);
     at_lru_index := lru_touch (at_lru_index t) seg_id (ss_last_update_ms state) now_ms;
     at_recent_global_scans := push_bounded 256 range (at_recent_global_scans t);
     at_stats := at_stats t |}.

Definition set_scan_range (t : AccessTracker) (seg_id : string) (start_key end_key : bytes) (now_ms : Z) : AccessTracker :=
  record_scan_range t seg_id {| sr_start_key := start_key; sr_end_key := end_key |} now_ms.

Definition forget_segment (t : AccessTracker) (seg_id : string) : AccessTracker :=
  {| at_config := at_config t;
     at_segments := delete seg_id (at_segments t);
     at_lru_index := match at_segments t !! seg_id with
                     | Some s => bt_remove (ss_last_update_ms s, seg_id) (at_lru_index t)
                     | None => at_lru_index t
                     end;
     at_recent_global_scans := at_recent_global_scans t;
     at_stats := at_stats t |}.

Definition tracker_clear (t : AccessTracker) : AccessTracker :=
  {| at_config := at_config t; at_segments := ∅; at_lru_index := []; at_recent_global_scans := [];
     at_stats := at_stats t |}.

(** * Reading *)

Definition hot_score (t : AccessTracker) (seg_id : string) : f64 :=
  match at_segments t !! seg_id with Some s => ss_hot_score s | None => S754_zero false end.
Definition overlap_score (t : AccessTracker) (seg_id : string) : f64 :=
  match at_segments t !! seg_id with Some s => ss_overlap_score s | None => S754_zero false end.

Definition is_candidate (c : Config) (s : SegmentState) : bool :=
  f64_ltb (overlap_threshold c) (ss_overlap_score s) && f64_ltb (hot_score_threshold c) (ss_hot_score s).
Definition should_range_reduce (t : AccessTracker) (seg_id : string) : bool :=
  match at_segments t !! seg_id with Some s => is_candidate (at_config t) s | None => false end.

Definition combined_score (s : SegmentState) : f64 :=
  f64_add (f64_mul (ss_hot_score s) (f64_lit 6 10)) (f64_mul (ss_overlap_score s) (f64_lit 4 10)).
Definition priority_score (t : AccessTracker) (seg_id : string) : f64 :=
  match at_segments t !! seg_id with Some s => combined_score s | None => S754_zero false end.

(** [b.1.partial_cmp(&a.1).unwrap_or(Equal)] is not [Greater] *)
Definition score_le (a b : string * f64) : bool :=
  match SFcompare b.2 a.2 with Some Gt => false | _ => true end.

Definition tracked_count (t : AccessTracker) : Z := Z.of_nat (size (at_segments t)).
Definition granule_map (t : AccessTracker) (seg_id : string) : btree Z Z :=
  match at_segments t !! seg_id with Some s => ss_granule_map s | None => [] end.

Section select.
Context `{HI : HashIter}.

Definition candidates (t : AccessTracker) : list (string * f64) :=
  (λ e, (e.1, combined_score e.2)) <$>
    filter (λ e, is_candidate (at_config t) e.2 = true) (hash_iter (at_segments t)).

Definition select_targets (t : AccessTracker) (max_count : Z) : AccessTracker * list (string * f64) :=
  let cs := take (Z.to_nat max_count) (sort_by score_le (candidates t)) in
  ({| at_config := at_config t;
      at_segments := at_segments t;
      at_lru_index := at_lru_index t;
      at_recent_global_scans := at_recent_global_scans t;
      at_stats := {|
        ts_total_access_calls := ts_total_access_calls (at_stats t);
        ts_total_select_calls := wrap64 (ts_total_select_calls (at_stats t) + 1);
        ts_segments_tracked := ts_segments_tracked (at_stats t);
        ts_candidates_found := zlen cs |} |}, cs).

Definition drain_state (t : AccessTracker) : list (string * (f64 * f64)) :=
  (λ e, (e.1, (ss_hot_score e.2, ss_overlap_score e.2))) <$> hash_iter (at_segments t).
End select.

(** * The index of least recently used segments *)

(** The index has one key per tracked segment, made of its last update. *)
Record lru_rep (segments : gmap string SegmentState) (lru : btree (Z * string) string) : Prop := {
  lr_sorted : bt_sorted lru;
  lr_get : ∀ ms id id', bt_get (ms, id) lru = Some id' ↔
             id' = id ∧ ss_last_update_ms <$> segments !! id = Some ms;
  lr_pos : map_Forall (λ _ s, 0 < ss_last_update_ms s) segments
}.

Lemma lru_rep_empty : lru_rep ∅ [].
Proof.
  split; [constructor| |apply map_Forall_empty]. intros ms id id'. rewrite lookup_empty. naive_solver.
Qed.

Lemma cmp_pair_eq (x y : Z * string) : match cmp x y with Eq => true | _ => false end = bool_decide (x = y).
Proof.
  case_bool_decide as Hx; [subst; by rewrite cmp_refl|].
  destruct (cmp x y) eqn:E; [by apply cmp_eq in E|done|done].
Qed.

(** Removing the segment's key from both keeps them in step. *)
Lemma lru_rep_delete segs lru id s : lru_rep segs lru → segs !! id = Some s →
  lru_rep (delete id segs) (bt_remove (ss_last_update_ms s, id) lru).
Proof.
  intros [Hs Hg Hp] Hid. split; [by apply bt_remove_sorted| |by apply map_Forall_delete].
  intros ms i id'. rewrite bt_get_remove by done. pose proof (cmp_pair_eq (ms, i) (ss_last_update_ms s, id)) as E.
  destruct (decide (i = id)) as [->|Hne].
  - rewrite lookup_delete_eq; cbn. case_bool_decide; destruct (cmp (ms, id) _); try done; try (split; [done|naive_solver]).
    + rewrite Hg, Hid; cbn. naive_solver.
    + rewrite Hg, Hid; cbn. naive_solver.
  - rewrite lookup_delete_ne by done. case_bool_decide; [naive_solver|].
    destruct (cmp (ms, i) _); [done|apply Hg|apply Hg].
Qed.

Lemma lru_rep_delete_none segs lru id : segs !! id = None → lru_rep segs lru → lru_rep (delete id segs) lru.
Proof. intros Hid. by rewrite delete_id. Qed.

(** Entering a segment that has no key. *)
Lemma lru_rep_insert segs lru id s : lru_rep segs lru → segs !! id = None → 0 < ss_last_update_ms s →
  lru_rep (<[id := s]> segs) (bt_insert (ss_last_update_ms s, id) id lru).
Proof.
  intros [Hs Hg Hp] Hid Hpos. split; [by apply bt_insert_sorted| |by apply map_Forall_insert_2].
  intros ms i id'. rewrite bt_get_insert by done. pose proof (cmp_pair_eq (ms, i) (ss_last_update_ms s, id)) as E.
  destruct (decide (i = id)) as [->|Hne].
  - rewrite lookup_insert_eq; cbn. case_bool_decide; destruct (cmp (ms, id) _); try done.
    + naive_solver.
    + rewrite Hg, Hid. naive_solver.
    + rewrite Hg, Hid. naive_solver.
  - rewrite lookup_insert_ne by done. case_bool_decide; [naive_solver|].
    destruct (cmp (ms, i) _); [done|apply Hg|apply Hg].
Qed.

Lemma lru_touch_rep segs lru id s : lru_rep segs lru → 0 < ss_last_update_ms s →
  lru_rep (<[id := s]> segs)
    (lru_touch lru id (ss_last_update_ms (default segment_state_default (segs !! id))) (ss_last_update_ms s)).
Proof.
  intros Hr Hpos. unfold lru_touch. destruct (segs !! id) as [s0|] eqn:Hid; cbn.
  - pose proof (lr_pos _ _ Hr _ _ Hid) as Hp0. cbn in Hp0. rewrite (proj2 (Z.ltb_lt _ _) Hp0), <- insert_delete_eq.
    apply lru_rep_insert; [by apply lru_rep_delete|apply lookup_delete_eq|done].
  - by apply lru_rep_insert.
Qed.

(** The first key of the index names the segment that was updated longest ago. *)
Lemma lru_first segs k id lru : lru_rep segs ((k, id) :: lru) →
  ∃ s, segs !! id = Some s ∧ k = (ss_last_update_ms s, id) ∧
       lru = bt_remove k ((k, id) :: lru) ∧
       ∀ i si, segs !! i = Some si → ss_last_update_ms s ≤ ss_last_update_ms si.
Proof.
  intros [Hs Hg Hp]. destruct k as [ms i0].
  destruct (proj1 (Hg ms i0 id)) as [-> Hl]; [cbn; by rewrite cmp_refl|].
  apply fmap_Some in Hl as (s & Hid & ->). exists s. split_and!; [done|done|cbn; by rewrite cmp_refl|].
  intros i si Hi. destruct (decide (i = i0)) as [->|Hne]; [by simplify_eq|].
  assert (((ss_last_update_ms si, i), i) ∈ lru) as Hin.
  { assert (bt_get (ss_last_update_ms si, i) (((ss_last_update_ms s, i0), i0) :: lru) = Some i) as G.
    { apply Hg. by rewrite Hi. }
    apply elem_of_bt_get in G; [|done]. apply elem_of_cons in G as [[=]|G]; [naive_solver|done]. }
  inversion Hs as [|? ? ? Hlt _]; subst. rewrite Forall_forall in Hlt. apply Hlt in Hin.
  unfold cmp, prod_cmp in Hin; cbn in Hin. unfold cmp, Z_cmp in Hin.
  destruct (Z.compare_spec (ss_last_update_ms s) (ss_last_update_ms si)); [lia|lia|done].
Qed.

Lemma evict_lru_rep c segs lru : lru_rep segs lru → lru_rep (evict_lru c segs lru).1 (evict_lru c segs lru).2.
Proof.
  intros Hr. unfold evict_lru. zcase; [|done]. destruct lru as [|[k id] lru]; [done|]. cbn.
  destruct (lru_first _ _ _ _ Hr) as (s & Hid & -> & Hl & _). rewrite Hl. by apply lru_rep_delete.
Qed.

(** At capacity the segment updated longest ago goes, and only that one. *)
Lemma evict_lru_oldest c segs lru : lru_rep segs lru → max_tracked_segments c ≤ Z.of_nat (size segs) → segs ≠ ∅ →
  ∃ v sv, segs !! v = Some sv ∧ (evict_lru c segs lru).1 = delete v segs ∧
          ∀ i si, segs !! i = Some si → ss_last_update_ms sv ≤ ss_last_update_ms si.
Proof.
  intros Hr Hc Hne. unfold evict_lru. rewrite (proj2 (Z.leb_le _ _) Hc). destruct lru as [|[k id] lru].
  - exfalso. apply Hne, map_empty. intros i. destruct (segs !! i) as [s|] eqn:Hi; [|done].
    assert (bt_get (ss_last_update_ms s, i) [] = Some i) as [=]. apply (lr_get _ _ Hr). by rewrite Hi.
  - destruct (lru_first _ _ _ _ Hr) as (s & Hid & -> & _ & Hmin). by exists id, s.
Qed.

(** * Granule counters *)

Definition granule_after (s e : Z) (m : btree Z Z) (g : Z) : option Z :=
  if (s <=? g) && (g <=? e) then Some (Z.min (default 0 (bt_get g m) + 1) 65535) else bt_get g m.

Lemma bump_granule_get m g g' : bt_sorted m →
  bt_get g' (bump_granule m g) = granule_after g g m g'.
Proof.
  intros Hs. unfold bump_granule, granule_after. rewrite bt_get_insert by done.
  destruct (cmp g' g) eqn:E.
  - apply cmp_eq in E as ->. rewrite Z.leb_refl; cbn. unfold saturating_inc16. by destruct (bt_get g m).
  - apply cmp_lt_ne in E. by destruct (g <=? g') eqn:?, (g' <=? g) eqn:?; cbn; [lia|..].
  - apply cmp_gt_lt, cmp_lt_ne in E. by destruct (g <=? g') eqn:?, (g' <=? g) eqn:?; cbn; [lia|..].
Qed.

Lemma bump_granules_sorted s e m : bt_sorted m → bt_sorted (bump_granules s e m).
Proof. intros Hm. unfold bump_granules. apply for_each_inv; [done|]. intros; by apply bt_insert_sorted. Qed.

Lemma bump_granules_get s e m g : bt_sorted m → bt_get g (bump_granules s e m) = granule_after s e m g.
Proof.
  intros Hm. unfold bump_granules. remember (e - s + 1) as n eqn:Hn.
  assert (Z.to_nat n = Z.to_nat (e - s + 1)) as Hk by lia. clear Hn. revert s m Hm Hk.
  induction (Z.to_nat n) as [|k IH] eqn:Ek in n |- *; intros s m Hm Hk.
  - rewrite seqZ_nil by lia. cbn. unfold granule_after. destruct (_ <=? _) eqn:?, (g <=? e) eqn:?; try done; lia.
  - rewrite seqZ_cons by lia. cbn. change (foldl bump_granule ?a ?l) with (for_each l a bump_granule).
    rewrite (IH (Z.pred n)); [|lia|by apply bt_insert_sorted|lia]. unfold granule_after at 1.
    rewrite !bump_granule_get by done. unfold granule_after.
    destruct (Z.succ s <=? g) eqn:?, (g <=? e) eqn:?, (s <=? g) eqn:?, (g <=? s) eqn:?; try done; exfalso; unfold Z.succ in *; lia.
Qed.

(** The granules of the rows of an access: the code's bounds are those rows'. *)
Lemma granule_range_rows c start_row row_count g :
  0 < granule_size c → is_u32 start_row → 0 < row_count → start_row + row_count ≤ 2 ^ 32 →
  (start_granule c start_row ≤ g ∧ g ≤ end_granule c start_row row_count) ↔
  ∃ r, start_row ≤ r < start_row + row_count ∧ r / granule_size c = g.
Proof.
  intros Hgs [Hs _] Hrc Hle. unfold start_granule, end_granule.
  assert (wrap32 (wrap32 (start_row + row_count) - 1) = start_row + row_count - 1) as ->.
  { unfold wrap32. destruct (decide (start_row + row_count = 2 ^ 32)) as [->|Hne].
    - reflexivity.
    - rewrite (Z.mod_small (start_row + row_count)), Z.mod_small by lia. lia. }
  set (gs := granule_size c) in *. set (last := start_row + row_count - 1) in *. split.
  - intros [H1 H2]. destruct (decide (g = start_row / gs)) as [->|Hne].
    + exists start_row. lia.
    + exists (g * gs). rewrite Z.div_mul by lia. split; [|done].
      assert (start_row < gs * (start_row / gs) + gs) by (pose proof (Z.mul_succ_div_gt start_row gs Hgs); lia).
      assert (gs * (last / gs) ≤ last) by (apply Z.mul_div_le; lia).
      assert (gs * (start_row / gs + 1) ≤ gs * g) by (apply Z.mul_le_mono_nonneg_l; lia).
      assert (gs * g ≤ gs * (last / gs)) by (apply Z.mul_le_mono_nonneg_l; lia). lia.
  - intros (r & Hr & <-). split; apply Z.div_le_mono; lia.
Qed.

(** * Scores *)

Definition at_most_one (x : f64) : Prop := SFleb x (f64_of_Z 1) = true.

Lemma f64_min_le x y : y ≠ S754_nan → SFleb (f64_min x y) y = true.
Proof.
  intros Hy. assert (SFleb y y = true) as Hyy.
  { unfold SFleb. by rewrite SFcompare_rank, cmp_refl by done. }
  assert (x = S754_nan ∨ x ≠ S754_nan) as [->|Hx] by (destruct x; auto); [done|].
  assert (f64_min x y = if SFltb y x then y else x) as -> by (by destruct x, y).
  unfold SFltb. rewrite SFcompare_rank, (cmp_opp (f64_rank y)) by done.
  destruct (cmp (f64_rank x) (f64_rank y)) eqn:E; cbn; [..|exact Hyy]; unfold SFleb;
    by rewrite SFcompare_rank, E.
Qed.

Lemma next_hot_score_bound c hot s e : at_most_one (next_hot_score c hot s e).
Proof. apply f64_min_le. discriminate. Qed.

(** * Reachable trackers *)

Section reach.
Context `{HI : HashIter}.

Inductive tracker_step : AccessTracker → AccessTracker → Prop :=
  | step_mark t seg_id start_row row_count now_ms :
      0 < now_ms → tracker_step t (mark_access t seg_id start_row row_count now_ms)
  | step_record t seg_id range now_ms :
      0 < now_ms → tracker_step t (record_scan_range t seg_id range now_ms)
  | step_forget t seg_id : tracker_step t (forget_segment t seg_id)
  | step_clear t : tracker_step t (tracker_clear t)
  | step_select t max_count : tracker_step t (select_targets t max_count).1.

Definition segment_ok (s : SegmentState) : Prop :=
  bt_sorted (ss_granule_map s) ∧ at_most_one (ss_hot_score s).

Record tracker_ok (t : AccessTracker) : Prop := {
  to_lru : lru_rep (at_segments t) (at_lru_index t);
  to_segments : map_Forall (λ _ s, segment_ok s) (at_segments t)
}.

Lemma segment_ok_default : segment_ok segment_state_default.
Proof. split; [constructor|reflexivity]. Qed.

Lemma segment_ok_lookup (segs : gmap string SegmentState) id : map_Forall (λ _ s, segment_ok s) segs →
  segment_ok (default segment_state_default (segs !! id)).
Proof. intros Hs. destruct (segs !! id) eqn:E; [by apply Hs in E|apply segment_ok_default]. Qed.

Lemma evict_lru_Forall (P : SegmentState → Prop) c segs lru :
  map_Forall (λ _ s, P s) segs → map_Forall (λ _ s, P s) (evict_lru c segs lru).1.
Proof.
  intros Hs. unfold evict_lru. destruct (_ <=? _), lru as [|[k id] lru]; try done. by apply map_Forall_delete.
Qed.

Lemma mark_access_ok t seg_id start_row row_count now_ms : 0 < now_ms →
  tracker_ok t → tracker_ok (mark_access t seg_id start_row row_count now_ms).
Proof.
  intros Hnow [Hl Hs]. unfold mark_access. destruct (_ || _); [done|].
  pose proof (evict_lru_rep (at_config t) _ _ Hl) as Hl'.
  pose proof (evict_lru_Forall _ (at_config t) _ (at_lru_index t) Hs) as Hs'.
  destruct (evict_lru _ _ _) as [segs lru]; cbn in Hl', Hs'.
  pose proof (segment_ok_lookup _ seg_id Hs') as [Hg _]. split; cbn.
  - by apply (lru_touch_rep segs lru seg_id {| ss_last_update_ms := now_ms |}).
  - apply map_Forall_insert_2; [|done]. split; cbn; [by apply bump_granules_sorted|apply next_hot_score_bound].
Qed.

Lemma record_scan_range_ok t seg_id range now_ms : 0 < now_ms →
  tracker_ok t → tracker_ok (record_scan_range t seg_id range now_ms).
Proof.
  intros Hnow [Hl Hs]. pose proof (segment_ok_lookup _ seg_id Hs) as [Hg Hh]. split; cbn.
  - by apply (lru_touch_rep _ _ seg_id {| ss_last_update_ms := now_ms |}).
  - by apply map_Forall_insert_2.
Qed.

Lemma forget_segment_ok t seg_id : tracker_ok t → tracker_ok (forget_segment t seg_id).
Proof.
  intros [Hl Hs]. split; cbn; [|by apply map_Forall_delete].
  destruct (at_segments t !! seg_id) eqn:E; [by apply lru_rep_delete|by apply lru_rep_delete_none].
Qed.

Lemma tracker_clear_ok t : tracker_ok (tracker_clear t).
Proof. split; cbn; [apply lru_rep_empty|apply map_Forall_empty]. Qed.

Lemma tracker_step_ok t t' : tracker_step t t' → tracker_ok t → tracker_ok t'.
Proof.
  destruct 1; eauto using mark_access_ok, record_scan_range_ok, forget_segment_ok, tracker_clear_ok.
  intros [Hl Hs]. by split.
Qed.
End reach.

Section tracker_theorems.
Context `{HI : HashIter}.

Definition tracker_reach (c : Config) : AccessTracker → Prop := rtc tracker_step (with_config c).

Lemma tracker_reach_ok c t : tracker_reach c t → tracker_ok t.
Proof.
  intros Hr. apply (rtc_ind_r (R := tracker_step) tracker_ok (with_config c)); [apply (tracker_clear_ok (with_config c))|..|done].
  intros; by eapply tracker_step_ok.
Qed.

Lemma tracker_reach_config c t : tracker_reach c t → at_config t = c.
Proof.
  intros Hr. apply (rtc_ind_r (R := tracker_step) (λ t, at_config t = c) (with_config c)); [done|..|done].
  intros t1 t2 _ Hstep <-. destruct Hstep; try done. unfold mark_access.
  destruct (_ || _); [done|]. by destruct (evict_lru _ _ _).
Qed.

(** Whatever sequence of accesses, scan ranges, removals, clears and
    selections a tracker has seen (with a clock above zero), its index of least
    recently used segments holds exactly one key per tracked segment, the time
    of its last update with its name; and every hot score is at most one, also
    with a decay factor that is not a number. *)
Theorem tracker_index_exact c t : tracker_reach c t →
  bt_sorted (at_lru_index t) ∧
  (∀ ms id, bt_get (ms, id) (at_lru_index t) = Some id ↔
            ∃ s, at_segments t !! id = Some s ∧ ss_last_update_ms s = ms) ∧
  zlen (at_lru_index t) = tracked_count t ∧
  (∀ id, at_most_one (hot_score t id)).
Proof.
  intros Hr%tracker_reach_ok. destruct Hr as [[Hs Hg Hp] Hsegs].
  assert (∀ ms id, bt_get (ms, id) (at_lru_index t) = Some id ↔
            ∃ s, at_segments t !! id = Some s ∧ ss_last_update_ms s = ms) as Hget.
  { intros ms id. rewrite Hg, fmap_Some. naive_solver. }
  split_and!; [done|done| |].
  - unfold zlen, tracked_count. f_equal. rewrite <- size_dom, <- (length_fmap snd).
    assert (NoDup (at_lru_index t).*2) as Hnd.
    { apply NoDup_fmap_2_strong; [|by eapply NoDup_fmap_1, bt_sorted_NoDup_fst].
      intros [[m1 i1] j1] [[m2 i2] j2] H1%elem_of_bt_get%Hg H2%elem_of_bt_get%Hg ?; [|done..]. naive_solver. }
    rewrite <- (size_list_to_set (C := gset string)) by done. f_equal. apply set_eq. intros id.
    rewrite elem_of_list_to_set, list_elem_of_fmap, elem_of_dom. split.
    + intros ([[ms i] j] & -> & Hin%elem_of_bt_get%Hg); [|done]. destruct Hin as [-> Hl].
      apply fmap_Some in Hl as (s & Hi & _). by exists s.
    + intros [s Hi]. exists ((ss_last_update_ms s, id), id). split; [done|].
      apply elem_of_bt_get; [done|]. apply Hg. by rewrite Hi.
  - intros id. unfold hot_score. destruct (at_segments t !! id) as [s|] eqn:E; [|reflexivity]. by apply Hsegs in E as [].
Qed.

(** The state a segment has when its access is counted. *)
Lemma mark_access_lookup t seg_id start_row row_count now_ms : row_count ≠ 0 → seg_id ≠ EmptyString →
  granule_map (mark_access t seg_id start_row row_count now_ms) seg_id =
  bump_granules (start_granule (at_config t) start_row) (end_granule (at_config t) start_row row_count)
    (ss_granule_map (default segment_state_default ((evict_lru (at_config t) (at_segments t) (at_lru_index t)).1 !! seg_id))).
Proof.
  intros Hr Hid. unfold mark_access. rewrite (proj2 (Z.eqb_neq _ _) Hr), bool_decide_eq_false_2 by done. cbn.
  destruct (evict_lru _ _ _) as [segs lru]. unfold granule_map; cbn. by rewrite lookup_insert_eq.
Qed.

(** Below capacity, an access to [row_count] rows from [start_row] counts
    once, up to the limit of the counter, for every granule that holds one of
    those rows, and changes no other granule: the two bounds computed in [u32]
    are those of the rows whenever the rows lie below [2^32]. *)
Theorem mark_access_granules c t seg_id start_row row_count now_ms g :
  tracker_reach c t → 0 < granule_size c → tracked_count t < max_tracked_segments c →
  seg_id ≠ EmptyString → is_u32 start_row → 0 < row_count → start_row + row_count ≤ 2 ^ 32 →
  let before := bt_get g (granule_map t seg_id) in
  let after := bt_get g (granule_map (mark_access t seg_id start_row row_count now_ms) seg_id) in
  ((∃ r, start_row ≤ r < start_row + row_count ∧ r / granule_size c = g) →
     after = Some (Z.min (default 0 before + 1) 65535)) ∧
  (¬ (∃ r, start_row ≤ r < start_row + row_count ∧ r / granule_size c = g) → after = before).
Proof.
  intros Hr Hgs Hcap Hid Hs Hrc Hle before after. unfold before, after.
  pose proof (tracker_reach_config _ _ Hr) as Hc. apply tracker_reach_ok in Hr as [_ Hsegs].
  rewrite mark_access_lookup by (done || lia). rewrite Hc. unfold evict_lru, tracked_count in *.
  rewrite (proj2 (Z.leb_gt _ _) Hcap). cbn.
  assert (granule_map t seg_id = ss_granule_map (default segment_state_default (at_segments t !! seg_id))) as ->.
  { unfold granule_map. by destruct (at_segments t !! seg_id). }
  rewrite bump_granules_get by apply segment_ok_lookup, Hsegs. unfold granule_after.
  rewrite <- granule_range_rows by done.
  destruct (Z.leb_spec (start_granule c start_row) g), (Z.leb_spec g (end_granule c start_row row_count)); cbn;
    split; intros; (done || lia).
Qed.

(** At capacity an access first drops the tracked segment updated longest
    ago, also when the accessed segment is tracked already and no room is
    needed; when that segment is the accessed one its counters start again. *)
Theorem mark_access_evicts_oldest c t seg_id start_row row_count now_ms :
  tracker_reach c t → max_tracked_segments c ≤ tracked_count t → at_segments t ≠ ∅ →
  row_count ≠ 0 → seg_id ≠ EmptyString →
  let t' := mark_access t seg_id start_row row_count now_ms in
  ∃ v sv, at_segments t !! v = Some sv ∧
    (∀ i si, at_segments t !! i = Some si → ss_last_update_ms sv ≤ ss_last_update_ms si) ∧
    dom (at_segments t') = {[seg_id]} ∪ (dom (at_segments t) ∖ {[v]}) ∧
    (v = seg_id → granule_map t' seg_id =
       bump_granules (start_granule c start_row) (end_granule c start_row row_count) []).
Proof.
  intros Hr Hcap Hne Hrc Hid t'. unfold t'. pose proof (tracker_reach_config _ _ Hr) as Hc. apply tracker_reach_ok in Hr as [Hl _].
  destruct (evict_lru_oldest (at_config t) _ _ Hl) as (v & sv & Hv & He & Hmin); [by rewrite Hc|done|].
  exists v, sv. split_and!; [done|done| |].
  - unfold mark_access. rewrite (proj2 (Z.eqb_neq _ _) Hrc), bool_decide_eq_false_2 by done. cbn.
    destruct (evict_lru _ _ _) as [segs lru]; cbn in *. subst segs. by rewrite dom_insert_L, dom_delete_L.
  - intros ->. rewrite mark_access_lookup by done. by rewrite He, lookup_delete_eq, Hc.
Qed.
End tracker_theorems.

(** * Selection *)

Section selection.
Context `{HI : HashIter}.

(** The comparison as a total preorder: the keys in descending order. *)
Definition rank_ge (a b : string * f64) : bool :=
  match cmp (f64_rank b.2) (f64_rank a.2) with Gt => false | _ => true end.

Lemma rank_ge_total a b : rank_ge a b = true ∨ rank_ge b a = true.
Proof.
  unfold rank_ge. rewrite (cmp_opp (f64_rank a.2)). destruct (cmp (f64_rank b.2) (f64_rank a.2)); cbn; auto.
Qed.

Lemma rank_ge_trans a b c : rank_ge a b = true → rank_ge b c = true → rank_ge a c = true.
Proof.
  unfold rank_ge. intros H1 H2. destruct (cmp (f64_rank c.2) (f64_rank a.2)) eqn:E; [done|done|].
  destruct (cmp (f64_rank b.2) (f64_rank a.2)) eqn:E1, (cmp (f64_rank c.2) (f64_rank b.2)) eqn:E2; try done.
  - apply cmp_eq in E1, E2. rewrite E2, E1, cmp_refl in E. done.
  - apply cmp_eq in E1. rewrite E1 in E2. congruence.
  - apply cmp_eq in E2. rewrite E2 in E. congruence.
  - rewrite (cmp_lt_trans _ _ _ E2 E1) in E. done.
Qed.

Lemma score_le_rank a b : a.2 ≠ S754_nan → b.2 ≠ S754_nan → score_le a b = rank_ge a b.
Proof. intros. unfold score_le, rank_ge. rewrite SFcompare_rank by done. by destruct (cmp _ _). Qed.

Lemma elem_of_candidates t id x : (id, x) ∈ candidates t ↔
  should_range_reduce t id = true ∧ x = priority_score t id.
Proof.
  unfold candidates, should_range_reduce, priority_score. rewrite list_elem_of_fmap. split.
  - intros ([i s] & [= -> ->] & [Hc Hi%elem_of_hash_iter]%list_elem_of_filter). cbn in *. by rewrite Hi.
  - destruct (at_segments t !! id) as [s|] eqn:E; [|naive_solver]. intros [Hc ->]. exists (id, s).
    rewrite list_elem_of_filter, elem_of_hash_iter. auto.
Qed.

Lemma candidates_sorted t : Forall (λ e, e.2 ≠ S754_nan) (candidates t) →
  StronglySorted (λ a b, rank_ge a b = true) (sort_by score_le (candidates t)).
Proof.
  intros Hn. rewrite (sort_by_ext score_le rank_ge (λ e, e.2 ≠ S754_nan)); [|intros; by apply score_le_rank|done].
  apply sort_by_sorted; [apply rank_ge_total|apply rank_ge_trans].
Qed.

Lemma StronglySorted_take_drop {A} (R : A → A → Prop) n l :
  StronglySorted R l → ∀ x y, x ∈ take n l → y ∈ drop n l → R x y.
Proof.
  intros Hs. rewrite <- (take_drop n l) in Hs at 1. intros x y Hx Hy.
  by eapply StronglySorted_app_1_elem_of.
Qed.

(** The selection returns at most [max_count] segments, each one with its
    combined score and above both thresholds, in descending order of score; a
    segment above the thresholds that is left out scores no more than any
    returned one, whatever the iteration order of the map. *)
Theorem select_targets_best t max_count : 0 ≤ max_count →
  (∀ id, should_range_reduce t id = true → priority_score t id ≠ S754_nan) →
  let res := (select_targets t max_count).2 in
  zlen res ≤ max_count ∧
  (∀ id x, (id, x) ∈ res → should_range_reduce t id = true ∧ x = priority_score t id) ∧
  StronglySorted (λ a b, SFleb b.2 a.2 = true) res ∧
  (∀ id, should_range_reduce t id = true → id ∉ res.*1 →
     zlen res = max_count ∧ ∀ e, e ∈ res → SFleb (priority_score t id) e.2 = true).
Proof.
  intros Hm Hn res. unfold res, select_targets; cbn. set (l := sort_by score_le (candidates t)).
  assert (Forall (λ e, e.2 ≠ S754_nan) (candidates t)) as Hnn.
  { apply Forall_forall. intros [id x] [Hc ->]%elem_of_candidates. by apply Hn. }
  pose proof (candidates_sorted t Hnn) as Hs. fold l in Hs.
  assert (∀ e, e ∈ l ↔ e ∈ candidates t) as Hl by (intros; unfold l; by rewrite sort_by_perm).
  assert (∀ a b, a ∈ l → b ∈ l → rank_ge a b = true → SFleb b.2 a.2 = true) as Hle.
  { rewrite Forall_forall in Hnn. intros a b Ha%Hl%Hnn Hb%Hl%Hnn. unfold rank_ge, SFleb. rewrite SFcompare_rank by done.
    by destruct (cmp _ _). }
  assert (∀ e, e ∈ take (Z.to_nat max_count) l → e ∈ l) as Htk by (intros e He; by eapply elem_of_take in He as (? & ? & _); eapply list_elem_of_lookup_2).
  split_and!.
  - rewrite zlen_take. lia.
  - intros id x Hin%Htk%Hl. by apply elem_of_candidates.
  - assert (StronglySorted (λ a b, rank_ge a b = true) (take (Z.to_nat max_count) l)) as Hst.
    { rewrite <- (take_drop (Z.to_nat max_count) l) in Hs. by eapply StronglySorted_app_1_l. }
    clear -Hst Hle Htk. induction Hst as [|a l' Hs IH Ha]; constructor.
    + apply IH. intros e He. apply Htk. by right.
    + rewrite Forall_forall in *. intros b Hb. apply Hle; [apply Htk; by left|apply Htk; by right|by apply Ha].
  - intros id Hc Hnin. assert ((id, priority_score t id) ∈ l) as Hin by (by apply Hl, elem_of_candidates).
    assert ((id, priority_score t id) ∈ drop (Z.to_nat max_count) l) as Hd.
    { rewrite <- (take_drop (Z.to_nat max_count) l) in Hin. apply elem_of_app in Hin as [Hin|Hin]; [|done].
      exfalso. apply Hnin, list_elem_of_fmap. by exists (id, priority_score t id). }
    split.
    + rewrite zlen_take. assert (Z.to_nat max_count < length l)%nat; [|unfold zlen; lia].
      destruct (decide (Z.to_nat max_count < length l)%nat) as [|Hge]; [done|].
      rewrite drop_ge in Hd by lia. by apply elem_of_nil in Hd.
    + intros e He. apply (Hle e (id, priority_score t id)); [by apply Htk|done|].
      by eapply (StronglySorted_take_drop (λ a b, rank_ge a b = true)).
Qed.
End selection.

(** * Bounds *)

Section tracker_bounds.
Context `{HI : HashIter}.

(** An access keeps the number of tracked segments within the configured
    bound; recording a scan range has no such check, so from every tracker a
    scan range of a new segment leads to one more tracked segment. *)
Theorem tracked_bound c t : tracker_reach c t → 1 ≤ max_tracked_segments c →
  (∀ seg_id start_row row_count now_ms, tracked_count t ≤ max_tracked_segments c →
     tracked_count (mark_access t seg_id start_row row_count now_ms) ≤ max_tracked_segments c) ∧
  (∃ seg_id, ∀ range now_ms, tracked_count (record_scan_range t seg_id range now_ms) = tracked_count t + 1).
Proof.
  intros Hr Hmax. pose proof (tracker_reach_config _ _ Hr) as Hc. apply tracker_reach_ok in Hr as [Hl _].
  unfold tracked_count. split.
  - intros seg_id start_row row_count now_ms Hle. unfold mark_access. destruct (_ || _); [done|].
    assert (Z.of_nat (size (evict_lru (at_config t) (at_segments t) (at_lru_index t)).1) < max_tracked_segments c) as He.
    { destruct (decide (max_tracked_segments c ≤ Z.of_nat (size (at_segments t)))) as [Hge|].
      - destruct (evict_lru_oldest (at_config t) _ _ Hl) as (v & sv & Hv & -> & _); [by rewrite Hc| |].
        + intros E. rewrite E, map_size_empty in Hge. lia.
        + rewrite map_size_delete, Hv; cbn. lia.
      - unfold evict_lru. rewrite Hc, (proj2 (Z.leb_gt _ _)) by lia. cbn. lia. }
    destruct (evict_lru _ _ _) as [segs lru]; cbn in *. rewrite map_size_insert. destruct (segs !! seg_id); cbn; lia.
  - exists (fresh (dom (at_segments t))). intros range now_ms. cbn. rewrite map_size_insert.
    rewrite (proj1 (not_elem_of_dom _ _) (is_fresh (dom (at_segments t)))). cbn. lia.
Qed.
End tracker_bounds.

(** * Concrete runs *)

Definition demo_config : Config := {|
  granule_size := 10; hot_granule_access_count := 3; hot_score_decay := f64_lit 875 1000;
  hot_score_threshold := f64_lit 1 1000; overlap_threshold := f64_lit 1 1000;
  max_tracked_segments := 2; max_scan_ranges_per_seg := 2; overlap_decay := f64_lit 9 10
|}.
Definition demo_range : ScanRange := {| sr_start_key := [1]; sr_end_key := [9] |}.
Definition demo_tracker : AccessTracker :=
  mark_access (mark_access (with_config demo_config) "a" 5 10 100) "b" 0 1 200.
Definition demo_hot : AccessTracker := record_scan_range demo_tracker "a" demo_range 300.

Lemma demo_tracker_reach : tracker_reach demo_config demo_tracker.
Proof.
  eapply rtc_l; [by apply (step_mark _ "a" 5 10 100)|].
  eapply rtc_l; [by apply (step_mark _ "b" 0 1 200)|]. apply rtc_refl.
Defined.

(** Two rows ranges of "a" are one granule apart; the two granules are counted. *)
Example demo_granules : granule_map demo_tracker "a" = [(0, 1); (1, 1)].
Proof. vm_compute. reflexivity. Qed.

Lemma tracker_index_exact_witness :
  tracker_reach demo_config demo_tracker ∧ zlen (at_lru_index demo_tracker) = 2.
Proof.
  split; [exact demo_tracker_reach|].
  destruct (tracker_index_exact demo_config demo_tracker demo_tracker_reach) as (_ & _ & -> & _).
  vm_compute. reflexivity.
Defined.

Lemma mark_access_granules_witness :
  bt_get 1 (granule_map (mark_access (with_config demo_config) "a" 5 10 100) "a") = Some 1.
Proof.
  destruct (mark_access_granules demo_config (with_config demo_config) "a" 5 10 100 1) as [H1 _];
    [apply rtc_refl|reflexivity|reflexivity|done|by vm_compute|reflexivity|by vm_compute|].
  rewrite H1; [reflexivity|]. exists 10. split; [lia|reflexivity].
Defined.

(** "b" was updated last, yet marking it drops "a". *)
Lemma mark_access_evicts_oldest_witness :
  ∃ v, v = "a"%string ∧ dom (at_segments (mark_access demo_tracker "b" 0 1 300)) = {["b"%string]} ∪ (dom (at_segments demo_tracker) ∖ {[v]}).
Proof.
  destruct (mark_access_evicts_oldest demo_config demo_tracker "b" 0 1 300) as (v & sv & Hv & Hmin & Hd & _);
    [exact demo_tracker_reach|by vm_compute|by vm_compute|done|done|].
  exists v. split; [|exact Hd].
  destruct (decide (v = "a"%string)) as [|Hne]; [done|]. exfalso.
  destruct (decide (v = "b"%string)) as [->|Hne'].
  - destruct (at_segments demo_tracker !! "a"%string) as [sa|] eqn:Ea; [|by vm_compute in Ea].
    specialize (Hmin _ _ Ea). vm_compute in Ea, Hv. simplify_eq.
  - assert (dom (at_segments demo_tracker) = {["a"; "b"]}) as Hdom by (vm_compute; reflexivity).
    apply elem_of_dom_2 in Hv. rewrite Hdom in Hv. set_solver.
Defined.

Lemma select_targets_best_witness :
  (select_targets demo_hot 5).2 = [("a"%string, priority_score demo_hot "a")] ∧ zlen (select_targets demo_hot 5).2 ≤ 5.
Proof.
  split; [by vm_compute|].
  destruct (select_targets_best demo_hot 5) as [H _]; [lia| |exact H].
  intros id. unfold should_range_reduce, priority_score. destruct (at_segments demo_hot !! id) as [s|] eqn:E; [|done].
  intros _. assert (forallb (λ e, match combined_score e.2 with S754_nan => false | _ => true end)
    (map_to_list (at_segments demo_hot)) = true) as Hf by (vm_compute; reflexivity).
  rewrite forallb_forall in Hf. apply elem_of_map_to_list, list_elem_of_In, Hf in E. cbn in E. by destruct (combined_score s).
Defined.

Lemma tracked_bound_witness :
  tracked_count (mark_access demo_tracker "c" 0 1 300) ≤ 2 ∧
  tracked_count (record_scan_range demo_tracker "c" demo_range 300) = 3.
Proof.
  split; [|by vm_compute].
  destruct (tracked_bound demo_config demo_tracker) as [H _]; [exact demo_tracker_reach|by vm_compute|].
  apply H. by vm_compute.
Defined.

(** With a clock at zero the old key stays: the next eviction drops a segment
    that was accessed last. *)
Example zero_clock_stale_key :
  let t := mark_access (mark_access (with_config demo_config) "a" 0 1 0) "a" 0 1 100 in
  (at_lru_index t).*1 = [(0, "a"%string); (100, "a"%string)] ∧ tracked_count t = 1.
Proof. vm_compute. split; reflexivity. Qed.

(** Rows that reach past [2^32] wrap: no granule is counted, and the hot score
    rises as if every granule had been read. *)
Example wrapped_rows_count_nothing :
  let t := mark_access (with_config demo_config) "a" 4294967295 2 100 in
  granule_map t "a" = [] ∧ hot_score t "a" = f64_mul (f64_of_Z 1) (f64_sub (f64_of_Z 1) (f64_lit 875 1000)).
Proof. vm_compute. split; reflexivity. Qed.
