(* ===== verification/Compaction.v ===== *)
(** Compaction's phases and task queue: the three-phase state machine of
    compaction/phase.rs and the scheduler of compaction/scheduler.rs over a
    priority queue.  The queue ([std::collections::BinaryHeap]) is an interface
    with its documented contract, so the theorems hold for every order of equal
    priorities. *)

From stdpp Require Import base gmap strings list sorting.
From Stdlib Require Import Floats.SpecFloat.
From S2P Require Import Prelude Kv FlushEngine AccessTracker.

Local Open Scope Z_scope.

(** * Phases *)

Inductive CompactionPhase :=
  | Idle
  | Prepare (new_seg_id : string) (old_seg_ids : list string)
  | Commit (new_seg_id : string) (old_seg_ids : list string)
  | Cleanup (new_seg_id : string) (old_seg_ids : list string).

#[export] Instance CompactionPhase_eq_dec : EqDecision CompactionPhase.
Proof. solve_decision. Defined.

Definition phase_is_idle (p : CompactionPhase) : bool := match p with Idle => true | _ => false end.
Definition phase_name (p : CompactionPhase) : string :=
  match p with
  | Idle => "Idle"
  | Prepare _ _ => "Prepare"
  | Commit _ _ => "Commit"
  | Cleanup _ _ => "Cleanup"
  end.

Record CompactionState := { cst_txn_id : Z; cst_phase : CompactionPhase; cst_start_time : Z }.
(** The lock guards each call: the machine is its content. *)
Abbreviation CompactionPhaseMachine := (option CompactionState).

(** The text of a string in [{:?}] form. *)
Class StrDebug := str_debug : string → string.

Section phase_machine.
Context `{StrDebug}.
Implicit Type m : CompactionPhaseMachine.

Definition strs_debug (xs : list string) : string :=
  "[" +:+ String.concat ", " (str_debug <$> xs) +:+ "]".
Definition phase_debug (p : CompactionPhase) : string :=
  match p with
  | Idle => "Idle"
  | Prepare n o | Commit n o | Cleanup n o =>
      phase_name p +:+ " { new_seg_id: " +:+ str_debug n +:+ ", old_seg_ids: " +:+ strs_debug o +:+ " }"
  end.

Definition compaction_state_new (now : Z) (txn_id : Z) (phase : CompactionPhase) : CompactionState :=
  {| cst_txn_id := txn_id; cst_phase := phase; cst_start_time := now |}.

Definition machine_new : CompactionPhaseMachine := None.
Definition machine_is_idle m : bool :=
  match m with None => true | Some s => phase_is_idle (cst_phase s) end.
Definition current_phase m : option CompactionPhase := cst_phase <$> m.

Definition begin_compaction (now : Z) m (txn_id : Z) (new_seg_id : string) (old_seg_ids : list string) :
  CompactionPhaseMachine * Result CompactionPhase :=
  if negb (machine_is_idle m) then (m, Err (ECompaction "Compaction already in progress")) else
  let s := compaction_state_new now txn_id (Prepare new_seg_id old_seg_ids) in
  (Some s, Ok (cst_phase s)).

Definition set_phase (s : CompactionState) (p : CompactionPhase) : CompactionState :=
  {| cst_txn_id := cst_txn_id s; cst_phase := p; cst_start_time := cst_start_time s |}.

Definition commit_phase m : CompactionPhaseMachine * Result CompactionPhase :=
  match m with
  | None => (m, Err (ECompaction "No compaction in progress"))
  | Some s =>
      match cst_phase s with
      | Prepare n o => (Some (set_phase s (Commit n o)), Ok (Commit n o))
      | p => (m, Err (ECompaction ("Cannot commit from phase " +:+ phase_debug p)))
      end
  end.

(** The middle component is the calls of [on_cleanup], in order. *)
Definition cleanup_phase_with_callback m : CompactionPhaseMachine * list string * Result CompactionPhase :=
  match m with
  | None => (m, [], Err (ECompaction "No compaction in progress"))
  | Some s =>
      match cst_phase s with
      | Commit n o => (Some (set_phase s (Cleanup n o)), o, Ok (Cleanup n o))
      | p => (m, [], Err (ECompaction ("Cannot cleanup from phase " +:+ phase_debug p)))
      end
  end.

(** The callback that does nothing. *)
Definition cleanup_phase m : CompactionPhaseMachine * Result CompactionPhase :=
  let '(m', _, r) := cleanup_phase_with_callback m in (m', r).

Definition finish m : CompactionPhaseMachine * Result unit := (None, Ok tt).

Definition phase_serialize `{Codec CompactionPhase} (p : CompactionPhase) : Result bytes := codec_err (encode p).
Definition phase_deserialize `{Codec CompactionPhase} (data : bytes) : option CompactionPhase :=
  match decode data with Ok p => Some p | Err _ => None end.
Definition state_serialize `{Codec CompactionState} (s : CompactionState) : Result bytes := codec_err (encode s).
Definition state_deserialize `{Codec CompactionState} (data : bytes) : option CompactionState :=
  match decode data with Ok s => Some s | Err _ => None end.

Definition restore_from_db `{Codec CompactionState} m (data : bytes) : CompactionPhaseMachine :=
  match state_deserialize data with
  | Some s => if phase_is_idle (cst_phase s) then m else Some s
  | None => m
  end.

(** ** Traces of calls *)

Context `{!Codec CompactionState}.

(** Every public operation that changes the machine. *)
Inductive PhaseOp :=
  | DoBegin (now txn_id : Z) (new_seg_id : string) (old_seg_ids : list string)
  | DoCommit
  | DoCleanup
  | DoFinish
  | DoRestore (data : bytes).

(** What a call did: began or advanced a compaction, put a stored one in its place,
    or was refused (an ignored restore included) and changed nothing. *)
Inductive PhaseEvent :=
  | Began (txn_id : Z) (new_seg_id : string) (old_seg_ids : list string)
  | Committed (new_seg_id : string) (old_seg_ids : list string)
  | Cleaned (removed : list string)
  | Finished
  | Restored (p : CompactionPhase)
  | Refused.

Definition phase_do m (op : PhaseOp) : CompactionPhaseMachine * PhaseEvent :=
  match op with
  | DoBegin now txn n o =>
      let '(m', r) := begin_compaction now m txn n o in
      (m', match r with Ok _ => Began txn n o | Err _ => Refused end)
  | DoCommit =>
      let '(m', r) := commit_phase m in
      (m', match r with Ok (Commit n o) => Committed n o | _ => Refused end)
  | DoCleanup =>
      let '(m', calls, r) := cleanup_phase_with_callback m in
      (m', match r with Ok _ => Cleaned calls | Err _ => Refused end)
  | DoFinish => ((finish m).1, Finished)
  | DoRestore data =>
      (restore_from_db m data,
       match state_deserialize data with
       | Some s => if phase_is_idle (cst_phase s) then Refused else Restored (cst_phase s)
       | None => Refused
       end)
  end.

Inductive phase_trace : list PhaseEvent → CompactionPhaseMachine → Prop :=
  | trace_new : phase_trace [] machine_new
  | trace_do evs m op : phase_trace evs m → phase_trace (evs ++ [(phase_do m op).2]) (phase_do m op).1.

(** The last event that was not a refusal, with the events before it. *)
Definition last_event (evs : list PhaseEvent) (Q : list PhaseEvent → PhaseEvent → Prop) : Prop :=
  ∃ p1 e p2, evs = p1 ++ e :: p2 ∧ Forall (eq Refused) p2 ∧ Q p1 e.

Definition prepared (n : string) (o : list string) (evs : list PhaseEvent) : Prop :=
  last_event evs (λ _ e, e = Restored (Prepare n o) ∨ ∃ txn, e = Began txn n o).
Definition committed (n : string) (o : list string) (evs : list PhaseEvent) : Prop :=
  last_event evs (λ p1 e, e = Restored (Commit n o) ∨ e = Committed n o ∧ prepared n o p1).
Definition cleaned (n : string) (o : list string) (evs : list PhaseEvent) : Prop :=
  last_event evs (λ p1 e, e = Restored (Cleanup n o) ∨ e = Cleaned o ∧ committed n o p1).
(** What led to a phase. *)
Definition phase_history (evs : list PhaseEvent) (p : CompactionPhase) : Prop :=
  match p with
  | Idle => False
  | Prepare n o => prepared n o evs
  | Commit n o => committed n o evs
  | Cleanup n o => cleaned n o evs
  end.

Lemma last_event_refused evs Q : last_event evs Q → last_event (evs ++ [Refused]) Q.
Proof.
  intros (p1 & e & p2 & -> & H2 & HQ). exists p1, e, (p2 ++ [Refused]).
  split_and!; [by rewrite <- app_assoc|apply Forall_app; auto|done].
Qed.
Lemma last_event_now evs e (Q : list PhaseEvent → PhaseEvent → Prop) : Q evs e → last_event (evs ++ [e]) Q.
Proof. intros HQ. by exists evs, e, []. Qed.

Lemma phase_history_refused evs p : phase_history evs p → phase_history (evs ++ [Refused]) p.
Proof. destruct p; [done|apply last_event_refused..]. Qed.
Lemma phase_history_restored evs p : phase_is_idle p = false → phase_history (evs ++ [Restored p]) p.
Proof. destruct p; [done|intros _; apply last_event_now; by left..]. Qed.

Lemma phase_trace_history evs m : phase_trace evs m → ∀ s, m = Some s → phase_history evs (cst_phase s).
Proof.
  induction 1 as [|evs m op _ IH]; [done|]. destruct op as [now txn n o| | | |data]; cbn.
  - unfold begin_compaction. destruct (machine_is_idle m) eqn:Ei; cbn.
    + intros s [= <-]. cbn. apply last_event_now. right. by exists txn.
    + intros s Hs. by apply phase_history_refused, IH.
  - unfold commit_phase. destruct m as [[txn p st]|]; [|done].
    specialize (IH _ eq_refl). destruct p as [|n o|n o|n o]; cbn; intros s [= <-];
      [done|try exact (phase_history_refused _ _ IH)..]. apply last_event_now. by right.
  - unfold cleanup_phase_with_callback. destruct m as [[txn p st]|]; [|done].
    specialize (IH _ eq_refl). destruct p as [|n o|n o|n o]; cbn; intros s [= <-];
      [done|try exact (phase_history_refused _ _ IH)..]. apply last_event_now. by right.
  - done.
  - unfold restore_from_db. destruct (state_deserialize data) as [s'|]; [destruct (phase_is_idle (cst_phase s')) eqn:Ei|].
    + intros s Hs. by apply phase_history_refused, IH.
    + intros s [= <-]. by apply phase_history_restored.
    + intros s Hs. by apply phase_history_refused, IH.
Qed.

(** C28: the files of old segments are only handed to the cleanup callback after a
    commit.  In every run of the phase machine's operations, the restore of a stored
    state included, the cleanup hands out [removed] only when a compaction of exactly
    those segments was committed, after it was begun or restored as prepared, or was
    restored as committed, with nothing but refused calls in between: no finish, no
    second begin, no other restore.  A second cleanup is refused. *)
Theorem cleanup_follows_commit evs m removed :
  phase_trace evs m → (phase_do m DoCleanup).2 = Cleaned removed →
  ∃ n, ((∃ p1 e p2 p3, evs = p1 ++ e :: p2 ++ Committed n removed :: p3 ∧
           Forall (eq Refused) p2 ∧ Forall (eq Refused) p3 ∧
           (e = Restored (Prepare n removed) ∨ ∃ txn, e = Began txn n removed)) ∨
        (∃ p1 p2, evs = p1 ++ Restored (Commit n removed) :: p2 ∧ Forall (eq Refused) p2)) ∧
    current_phase m = Some (Commit n removed) ∧
    current_phase (phase_do m DoCleanup).1 = Some (Cleanup n removed) ∧
    (phase_do (phase_do m DoCleanup).1 DoCleanup).2 = Refused.
Proof.
  intros Ht Hd. cbn in *. unfold cleanup_phase_with_callback in *. destruct m as [[txn p st]|]; [|done].
  pose proof (phase_trace_history _ _ Ht _ eq_refl) as Hh. destruct p as [|n o|n o|n o]; cbn in *; try done.
  injection Hd as <-. exists n. split; [|done].
  destruct Hh as (q & e & p3 & -> & H3 & [->|[-> (p1 & e' & p2 & -> & H2 & He)]]).
  - right. by exists q, p3.
  - left. exists p1, e', p2, p3. split_and!; [by rewrite <- app_assoc|done..].
Qed.

(** A machine that is given back what was stored of a running compaction is
    in the stored state, and data that does not decode or says idle changes
    nothing. *)
Theorem restore_roundtrip `{!CodecLaws CompactionState} m s b :
  state_serialize s = Ok b →
  restore_from_db m b = (if phase_is_idle (cst_phase s) then m else Some s) ∧
  (∀ data e, decode (A := CompactionState) data = Err e → restore_from_db m data = m).
Proof.
  intros Hs. unfold state_serialize, codec_err in Hs. destruct (encode s) as [b'|] eqn:E; [|done].
  injection Hs as ->. unfold restore_from_db, state_deserialize. split.
  - by rewrite (decode_encode _ _ E).
  - intros data e ->. done.
Qed.
End phase_machine.

(** * Tasks *)

Inductive CompactionStrategy := PdtMerge | QueryDriven | SmallFileMerge.
Inductive RewriteBudget := HardGate | HeuristicPriority | EvidenceDriven.
Inductive ActionAuthority := Executable | DemotedScaffold | TruthPlanePrivileged.

#[export] Instance RewriteBudget_eq_dec : EqDecision RewriteBudget.
Proof. solve_decision. Defined.

Definition budget (a : RewriteAction) : RewriteBudget :=
  match a with
  | RPdtMerge => HardGate
  | RSmallFileMerge => HeuristicPriority
  | RQueryDriven => EvidenceDriven
  | RFlushL1ToL2 => HardGate
  | RCompactL2ToL3 => HeuristicPriority
  | RGuardMerge => HeuristicPriority
  | RMetadataEvidenceRefresh => EvidenceDriven
  | RCheckpointPrivilege => HardGate
  end.

Definition authority (a : RewriteAction) : ActionAuthority :=
  match a with
  | RPdtMerge | RSmallFileMerge => Executable
  | RQueryDriven | RFlushL1ToL2 | RCompactL2ToL3 | RGuardMerge | RMetadataEvidenceRefresh => DemotedScaffold
  | RCheckpointPrivilege => TruthPlanePrivileged
  end.
Definition is_executor_authoritative (a : RewriteAction) : bool :=
  match authority a with Executable => true | _ => false end.
Definition truth_plane_privileged (a : RewriteAction) : bool :=
  match a with RCheckpointPrivilege => true | _ => false end.

Definition action_of_strategy (s : CompactionStrategy) : RewriteAction :=
  match s with
  | PdtMerge => RPdtMerge
  | QueryDriven => RQueryDriven
  | SmallFileMerge => RSmallFileMerge
  end.

Definition checkpoint_privilege : MaintenanceTask :=
  {| mt_action := RCheckpointPrivilege; mt_seg_id := None; mt_size_bytes := 0 |}.
Definition is_truth_plane_privileged (t : MaintenanceTask) : bool := truth_plane_privileged (mt_action t).

(** [priority] is a [NotNan<f64>]: a double with [not_nan] as its invariant. *)
Record CompactionTask := {
  ct_seg_id : string;
  ct_priority : f64;
  ct_strategy : CompactionStrategy;
  ct_maintenance : MaintenanceTask;
  ct_created_at : Z;
  ct_size_bytes : Z
}.
Definition not_nan (x : f64) : Prop := x ≠ S754_nan.

(** [NotNan::new(priority).expect(..)] panics on a NaN. *)
Definition compaction_task_new (now : Z) (seg_id : string) (priority : f64) (strategy : CompactionStrategy)
    (size_bytes : Z) : outcome CompactionTask :=
  match priority with
  | S754_nan => Panic
  | _ => Done {|
      ct_seg_id := seg_id;
      ct_priority := priority;
      ct_strategy := strategy;
      ct_maintenance := {| mt_action := action_of_strategy strategy; mt_seg_id := Some seg_id; mt_size_bytes := size_bytes |};
      ct_created_at := now;
      ct_size_bytes := size_bytes |}
  end.

(** The [debug_assert!] on the size is not in a release build. *)
Definition query_driven (now : Z) (seg_id : string) (priority : f64) (size_bytes : Z) : outcome CompactionTask :=
  compaction_task_new now seg_id priority QueryDriven size_bytes.

Definition estimated_io_bytes (t : CompactionTask) : Z := Z.min (ct_size_bytes t) (64 * 1024 * 1024).

(** [Ord for CompactionTask]: the priorities, which are never NaN. *)
Definition task_cmp (a b : CompactionTask) : comparison :=
  match SFcompare (ct_priority a) (ct_priority b) with Some c => c | None => Eq end.
(** [PartialEq for CompactionTask] *)
Definition task_eqb (a b : CompactionTask) : bool :=
  bool_decide (ct_seg_id a = ct_seg_id b) && (ct_created_at a =? ct_created_at b).

(** * The priority queue *)

(** [Ord] of the items of a queue, and the items on which it is a total order. *)
Class Prioritized (A : Type) := { prio_cmp : A → A → comparison; prio_ok : A → Prop }.
(** [BinaryHeap<A>]; the items are those of [into_vec]. *)
Class BinaryHeap (A H : Type) := {
  heap_items : H → list A;
  heap_new : H;
  heap_push : A → H → H;
  heap_pop : H → option (A * H);
  heap_peek : H → option A
}.
(** [pop] and [peek] give a greatest item, in the order of [Ord], when there is
    one; which of several is not specified. *)
Class BinaryHeapLaws (A H : Type) `{Prioritized A} `{BinaryHeap A H} := {
  heap_items_new : heap_items heap_new = [];
  heap_items_push : ∀ t h, heap_items (heap_push t h) ≡ₚ t :: heap_items h;
  heap_pop_none : ∀ h, heap_pop h = None ↔ heap_items h = [];
  heap_pop_perm : ∀ h t h', heap_pop h = Some (t, h') → heap_items h ≡ₚ t :: heap_items h';
  heap_pop_max : ∀ h t h', heap_pop h = Some (t, h') → Forall prio_ok (heap_items h) →
    ∀ u, u ∈ heap_items h → prio_cmp u t ≠ Gt;
  heap_peek_none : ∀ h, heap_peek h = None ↔ heap_items h = [];
  heap_peek_max : ∀ h t, heap_peek h = Some t → Forall prio_ok (heap_items h) →
    t ∈ heap_items h ∧ ∀ u, u ∈ heap_items h → prio_cmp u t ≠ Gt
}.
#[global] Hint Mode Prioritized ! : typeclass_instances.
#[global] Hint Mode BinaryHeap - ! : typeclass_instances.
#[global] Hint Mode BinaryHeapLaws - ! - - : typeclass_instances.

#[export] Instance task_prioritized : Prioritized CompactionTask := {|
  prio_cmp := task_cmp; prio_ok := λ u, not_nan (ct_priority u) |}.

Record CompactionScheduler (H : Type) := {
  sch_heap : H;
  (** The tracker behind the shared handle; its other holders act on it between
      the calls of the scheduler. *)
  sch_access_tracker : option AccessTracker
}.
Arguments sch_heap {H} _.
Arguments sch_access_tracker {H} _.
Arguments Build_CompactionScheduler {H} _ _.

Section scheduler.
Context `{BinaryHeap CompactionTask H}.
Implicit Type s : CompactionScheduler H.

Definition scheduler_new : CompactionScheduler H := Build_CompactionScheduler heap_new None.
Definition with_access_tracker (t : AccessTracker) : CompactionScheduler H := Build_CompactionScheduler heap_new (Some t).
Definition set_heap s (h : H) : CompactionScheduler H := Build_CompactionScheduler h (sch_access_tracker s).

Definition enqueue s (task : CompactionTask) : CompactionScheduler H :=
  if ct_size_bytes task =? 0 then s else set_heap s (heap_push task (sch_heap s)).

(** The condition under which the loop of [dequeue] returns. *)
Definition serves (task : CompactionTask) : bool :=
  is_truth_plane_privileged (ct_maintenance task) ||
  negb (bool_decide (budget (mt_action (ct_maintenance task)) = EvidenceDriven)) ||
  (0 <? ct_size_bytes task).

(** The [while let] loop; [None] when the fuel is used up. *)
Fixpoint dequeue_loop (fuel : nat) (h : H) : option (H * option CompactionTask) :=
  match fuel with
  | O => None
  | S fuel =>
      match heap_pop h with
      | Some (task, h') => if serves task then Some (h', Some task) else dequeue_loop fuel h'
      | None => Some (h, None)
      end
  end.
(** One round per item and the round that finds the heap empty. *)
Definition dequeue_fuel (h : H) : nat := S (length (heap_items h)).
Definition dequeue s : option (CompactionScheduler H * option CompactionTask) :=
  '(h, r) ← dequeue_loop (dequeue_fuel (sch_heap s)) (sch_heap s); Some (set_heap s h, r).

Definition peek s : option CompactionTask := heap_peek (sch_heap s).
Definition scheduler_len s : Z := zlen (heap_items (sch_heap s)).
Definition scheduler_is_empty s : bool := scheduler_len s =? 0.
Definition scheduler_clear s : CompactionScheduler H := set_heap s heap_new.

Fixpoint collect_tasks (now : Z) (cs : list (string * f64)) : outcome (list CompactionTask) :=
  match cs with
  | [] => Done []
  | (seg_id, score) :: cs' =>
      match query_driven now seg_id score 0 with
      | Done t => match collect_tasks now cs' with Done ts => Done (t :: ts) | Panic => Panic end
      | Panic => Panic
      end
  end.

Definition scheduler_select_targets `{HashIter} (now : Z) s (max_count : Z) :
  CompactionScheduler H * outcome (list CompactionTask) :=
  match sch_access_tracker s with
  | None => (s, Done [])
  | Some tr =>
      let '(tr', cs) := select_targets tr max_count in
      (Build_CompactionScheduler (sch_heap s) (Some tr'), collect_tasks now cs)
  end.

Definition record_access (now : Z) s (seg_id : string) (start_row row_count : Z) : CompactionScheduler H :=
  Build_CompactionScheduler (sch_heap s) ((λ tr, mark_access tr seg_id start_row row_count now) <$> sch_access_tracker s).
Definition scheduler_record_scan_range (now : Z) s (seg_id : string) (start_key end_key : bytes) : CompactionScheduler H :=
  Build_CompactionScheduler (sch_heap s) ((λ tr, set_scan_range tr seg_id start_key end_key now) <$> sch_access_tracker s).
Definition scheduler_hot_score s (seg_id : string) : f64 :=
  match sch_access_tracker s with Some tr => hot_score tr seg_id | None => S754_zero false end.
Definition scheduler_overlap_score s (seg_id : string) : f64 :=
  match sch_access_tracker s with Some tr => overlap_score tr seg_id | None => S754_zero false end.
Definition scheduler_should_range_reduce s (seg_id : string) : bool :=
  match sch_access_tracker s with Some tr => should_range_reduce tr seg_id | None => false end.

(** ** Well-formed schedulers *)

(** A task as the type system admits it. *)
Definition task_ok (t : CompactionTask) : Prop := not_nan (ct_priority t) ∧ is_u64 (ct_size_bytes t).
(** What the queue holds: tasks that can be served. *)
Definition pending_ok (t : CompactionTask) : Prop := not_nan (ct_priority t) ∧ 0 < ct_size_bytes t.
Definition scheduler_ok s : Prop := Forall pending_ok (heap_items (sch_heap s)).

Lemma pending_serves t : pending_ok t → serves t = true.
Proof. intros [_ Hs]. unfold serves. rewrite (proj2 (Z.ltb_lt _ _) Hs). by rewrite orb_true_r. Qed.

Lemma task_cmp_rank a b : not_nan (ct_priority a) → not_nan (ct_priority b) →
  task_cmp a b = cmp (f64_rank (ct_priority a)) (f64_rank (ct_priority b)).
Proof. intros. unfold task_cmp. by rewrite SFcompare_rank. Qed.

Lemma task_cmp_refl t : not_nan (ct_priority t) → task_cmp t t = Eq.
Proof. intros. rewrite task_cmp_rank by done. apply cmp_refl. Qed.

Lemma task_cmp_not_gt a b : not_nan (ct_priority a) → not_nan (ct_priority b) → task_cmp a b ≠ Gt → task_cmp b a ≠ Lt.
Proof. intros. rewrite !task_cmp_rank in * by done. by rewrite <- cmp_gt_lt. Qed.
End scheduler.

Section scheduler_theorems.
Context `{BH : BinaryHeap CompactionTask H} {BL : BinaryHeapLaws CompactionTask H}.
Implicit Types (s : CompactionScheduler H) (h : H).

Lemma dequeue_loop_total fuel h : (length (heap_items h) < fuel)%nat → is_Some (dequeue_loop fuel h).
Proof.
  revert h. induction fuel as [|fuel IH]; intros h Hf; [lia|]. cbn.
  destruct (heap_pop h) as [[t h']|] eqn:E; [|done]. destruct (serves t); [done|].
  apply IH. apply heap_pop_perm, Permutation_length in E. cbn in E. lia.
Qed.

Lemma dequeue_total s : is_Some (dequeue s).
Proof.
  unfold dequeue. destruct (dequeue_loop_total (dequeue_fuel (sch_heap s)) (sch_heap s)) as [[h r] ->];
    [unfold dequeue_fuel; lia|done].
Qed.

(** The first round serves: a queue of well-formed tasks has nothing to skip. *)
Lemma dequeue_pop s : scheduler_ok s →
  dequeue s = match heap_pop (sch_heap s) with
              | Some (t, h) => Some (set_heap s h, Some t)
              | None => Some (s, None)
              end.
Proof.
  intros Hs. unfold dequeue, dequeue_fuel. cbn. destruct (heap_pop (sch_heap s)) as [[t h]|] eqn:E; cbn.
  - unfold scheduler_ok in Hs. rewrite (heap_pop_perm _ _ _ E) in Hs. apply Forall_cons in Hs as [Ht _].
    by rewrite (pending_serves _ Ht).
  - by destruct s.
Qed.

Lemma enqueue_ok s t : task_ok t → scheduler_ok s → scheduler_ok (enqueue s t).
Proof.
  intros [Hn [Hz _]] Hs. unfold enqueue. destruct (Z.eqb_spec (ct_size_bytes t) 0); [done|].
  unfold scheduler_ok; cbn. rewrite heap_items_push. constructor; [split; [done|lia]|done].
Qed.

Lemma dequeue_ok s s' r : scheduler_ok s → dequeue s = Some (s', r) → scheduler_ok s'.
Proof.
  intros Hs. rewrite dequeue_pop by done. destruct (heap_pop (sch_heap s)) as [[t h]|] eqn:E; intros [= <- _]; [|done].
  unfold scheduler_ok in *. rewrite (heap_pop_perm _ _ _ E) in Hs. by apply Forall_cons in Hs as [_ ?].
Qed.

Lemma scheduler_ok_nan s : scheduler_ok s → Forall (λ u, not_nan (ct_priority u)) (heap_items (sch_heap s)).
Proof. intros Hs. eapply Forall_impl; [exact Hs|]. by intros t []. Qed.

Lemma dequeue_some s t s' : scheduler_ok s → dequeue s = Some (s', Some t) →
  heap_items (sch_heap s) ≡ₚ t :: heap_items (sch_heap s') ∧
  ∀ u, u ∈ heap_items (sch_heap s) → task_cmp u t ≠ Gt.
Proof.
  intros Hs. rewrite dequeue_pop by done. destruct (heap_pop (sch_heap s)) as [[t' h]|] eqn:E; intros [= <- ->]; cbn.
  split; [by apply heap_pop_perm|exact (heap_pop_max _ _ _ E (scheduler_ok_nan _ Hs))].
Qed.

Lemma dequeue_none s s' : scheduler_ok s → dequeue s = Some (s', None) → s' = s ∧ heap_items (sch_heap s) = [].
Proof.
  intros Hs. rewrite dequeue_pop by done. destruct (heap_pop (sch_heap s)) as [[t' h]|] eqn:E; intros [= <-].
  split; [done|by apply heap_pop_none].
Qed.

(** ** Runs *)

Inductive SchedOp := OpEnqueue (t : CompactionTask) | OpDequeue.

(** The scheduler after the calls, with the served tasks in order. *)
Fixpoint run (ops : list SchedOp) s : option (CompactionScheduler H * list CompactionTask) :=
  match ops with
  | [] => Some (s, [])
  | OpEnqueue t :: ops => run ops (enqueue s t)
  | OpDequeue :: ops =>
      '(s', r) ← dequeue s; '(s'', served) ← run ops s'; Some (s'', option_list r ++ served)
  end.

Definition op_ok (op : SchedOp) : Prop := match op with OpEnqueue t => task_ok t | OpDequeue => True end.
Definition is_dequeue (op : SchedOp) : bool := match op with OpDequeue => true | _ => false end.
Definition dequeues (ops : list SchedOp) : nat := length (filter (λ op, is_dequeue op = true) ops).
Definition enqueued (ops : list SchedOp) : list CompactionTask :=
  omap (λ op, match op with OpEnqueue t => Some t | OpDequeue => None end) ops.
(** The tasks that may be served before [t] or are [t]. *)
Definition not_below (t : CompactionTask) (l : list CompactionTask) : nat :=
  length (filter (λ u, task_cmp u t ≠ Lt) l).

Lemma not_below_perm t l l' : l ≡ₚ l' → not_below t l = not_below t l'.
Proof. intros Hp. unfold not_below. by rewrite Hp. Qed.

Lemma not_below_cons t u l :
  not_below t (u :: l) = ((if decide (task_cmp u t ≠ Lt) then 1 else 0) + not_below t l)%nat.
Proof. unfold not_below. rewrite filter_cons. by case_decide. Qed.

#[local] Arguments dequeue {_ _} _ : simpl never.
#[local] Arguments enqueue {_ _} _ _ : simpl never.

Lemma run_total ops s : is_Some (run ops s).
Proof.
  revert s. induction ops as [|[t|] ops IH]; intros s; cbn; [done|apply IH|].
  destruct (dequeue_total s) as [[s' r] ->]. cbn. by destruct (IH s') as [[s'' served] ->].
Qed.

(** C27: The wait of a pending task is bounded.  In any run of calls that add
    and take tasks, once as many takes were made as there are tasks that are
    not below it, pending at the start or added on the way, the task has been
    served; the run always returns. *)
Theorem pending_task_served ops s t :
  scheduler_ok s → Forall op_ok ops → t ∈ heap_items (sch_heap s) →
  (not_below t (heap_items (sch_heap s)) + not_below t (enqueued ops) ≤ dequeues ops)%nat →
  ∃ s' served, run ops s = Some (s', served) ∧ t ∈ served.
Proof.
  intros Hs Hops. revert s Hs. induction Hops as [|op ops Hop _ IH]; intros s Hs Hin Hle.
  - exfalso. assert (0 < not_below t (heap_items (sch_heap s)))%nat; [|cbn in Hle; lia].
    unfold scheduler_ok in Hs. rewrite Forall_forall in Hs. destruct (Hs _ Hin) as [Hn _].
    unfold not_below. assert (t ∈ filter (λ u, task_cmp u t ≠ Lt) (heap_items (sch_heap s))) as Hf.
    { apply list_elem_of_filter. by rewrite task_cmp_refl. }
    destruct (filter _ _); [by apply elem_of_nil in Hf|cbn; lia].
  - destruct op as [u|]; cbn.
    + change (enqueued (OpEnqueue u :: ops)) with (u :: enqueued ops) in Hle.
      change (dequeues (OpEnqueue u :: ops)) with (dequeues ops) in Hle. rewrite not_below_cons in Hle.
      apply IH; [by apply enqueue_ok|..]; unfold enqueue; destruct (ct_size_bytes u =? 0); cbn; try done.
      * rewrite heap_items_push. by right.
      * lia.
      * rewrite (not_below_perm _ _ _ (heap_items_push u (sch_heap s))), not_below_cons. lia.
    + destruct (dequeue_total s) as [[s1 r] Hd]. rewrite Hd. cbn. pose proof (dequeue_ok _ _ _ Hs Hd) as Hs1.
      destruct r as [v|]; [|by apply dequeue_none in Hd as [_ Hnil]; [|done]; rewrite Hnil in Hin; apply elem_of_nil in Hin].
      destruct (dequeue_some _ _ _ Hs Hd) as [Hp Hmax].
      destruct (run_total ops s1) as [[s2 served] Hr]. rewrite Hr. cbn. exists s2, (v :: served). split; [done|].
      pose proof Hin as Hin'. rewrite Hp in Hin'. apply elem_of_cons in Hin' as [->|Hin']; [by left|]. right.
      destruct (IH s1 Hs1 Hin') as (s3 & served' & Hr' & Ht); [|by simplify_eq].
      unfold scheduler_ok in Hs. rewrite Forall_forall in Hs.
      assert (task_cmp v t ≠ Lt) as Hvt.
      { apply task_cmp_not_gt; [by apply Hs|apply Hs; rewrite Hp; by left|by apply Hmax]. }
      rewrite (not_below_perm _ _ _ Hp), not_below_cons, decide_True in Hle by done.
      change (enqueued (OpDequeue :: ops)) with (enqueued ops) in Hle.
      change (dequeues (OpDequeue :: ops)) with (S (dequeues ops)) in Hle. lia.
Qed.

(** Taking a task gives one of the highest priority among the pending ones
    and leaves the others; nothing is given exactly when nothing is pending.
    The loop that skips tasks it cannot serve always ends, and has nothing to
    skip. *)
Theorem dequeue_serves_max s : scheduler_ok s →
  ∃ s' r, dequeue s = Some (s', r) ∧ scheduler_ok s' ∧
  match r with
  | Some t => heap_items (sch_heap s) ≡ₚ t :: heap_items (sch_heap s') ∧ 0 < ct_size_bytes t ∧
              ∀ u, u ∈ heap_items (sch_heap s) → SFleb (ct_priority u) (ct_priority t) = true
  | None => s' = s ∧ scheduler_is_empty s = true
  end.
Proof.
  intros Hs. destruct (dequeue_total s) as [[s' r] Hd]. exists s', r. split; [done|].
  split; [by eapply dequeue_ok|]. destruct r as [t|].
  - destruct (dequeue_some _ _ _ Hs Hd) as [Hp Hmax]. split; [done|].
    unfold scheduler_ok in Hs. rewrite Forall_forall in Hs. assert (t ∈ heap_items (sch_heap s)) as Ht by (rewrite Hp; by left).
    split; [by apply Hs|]. intros u Hu. specialize (Hmax u Hu). unfold task_cmp in Hmax. unfold SFleb.
    rewrite SFcompare_rank in * by (by apply Hs). by destruct (cmp _ _).
  - apply dequeue_none in Hd as [-> Hnil]; [|done]. split; [done|].
    unfold scheduler_is_empty, scheduler_len. by rewrite Hnil.
Qed.

(** A task that the access tracker's selection produces is never taken:
    each one has size zero, so putting it into the queue changes nothing. *)
Theorem selected_targets_dropped `{HashIter} now s max_count ts t :
  (scheduler_select_targets now s max_count).2 = Done ts → t ∈ ts →
  ct_strategy t = QueryDriven ∧ ∀ s', enqueue s' t = s'.
Proof.
  unfold scheduler_select_targets. destruct (sch_access_tracker s) as [tr|]; [|by intros [= <-] ?%elem_of_nil].
  destruct (select_targets tr max_count) as [tr' cs]; cbn. revert ts.
  induction cs as [|[id x] cs IH]; cbn; intros ts; [by intros [= <-] ?%elem_of_nil|].
  unfold query_driven, compaction_task_new.
  destruct x; cbn; try done; destruct (collect_tasks now cs) as [ts'|]; try done; intros [= <-] [->|Hin]%elem_of_cons;
    try done; by eapply IH.
Qed.
End scheduler_theorems.

(** * A queue that keeps its items in a list *)

(** The order by a rank. *)
Class PrioritizedLaws (A : Type) `{Prioritized A} := {
  prio_rank : A → Z * (Z * (Z * Z));
  prio_cmp_rank : ∀ a b, prio_ok a → prio_ok b → prio_cmp a b = cmp (prio_rank a) (prio_rank b)
}.
#[global] Hint Mode PrioritizedLaws ! - : typeclass_instances.

#[export] Instance task_prioritized_laws : PrioritizedLaws CompactionTask.
Proof.
  exists (λ t, (0, f64_rank (ct_priority t))). intros a b Ha Hb. cbn [prio_cmp task_prioritized].
  rewrite task_cmp_rank by done. reflexivity.
Defined.

Section list_heap.
Context `{PrioritizedLaws A}.

Fixpoint list_pop (l : list A) : option (A * list A) :=
  match l with
  | [] => None
  | t :: l' =>
      match list_pop l' with
      | None => Some (t, [])
      | Some (m, r) => match prio_cmp t m with Lt => Some (m, t :: r) | _ => Some (t, l') end
      end
  end.
#[export] Instance list_heap : BinaryHeap A (list A) := {
  heap_items := λ l, l;
  heap_new := [];
  heap_push := λ t l, t :: l;
  heap_pop := list_pop;
  heap_peek := λ l, fst <$> list_pop l
}.

Lemma list_pop_none l : list_pop l = None ↔ l = [].
Proof.
  destruct l as [|t l]; [done|]. cbn. destruct (list_pop l) as [[m r]|]; [|done]. by destruct (prio_cmp t m).
Qed.

Lemma list_pop_perm l t l' : list_pop l = Some (t, l') → l ≡ₚ t :: l'.
Proof.
  revert t l'. induction l as [|u l IH]; intros t l'; cbn; [done|]. destruct (list_pop l) as [[m r]|] eqn:E.
  - destruct (prio_cmp u m); intros [= <- <-]; try done. rewrite (IH _ _ eq_refl). constructor.
  - intros [= <- <-]. apply list_pop_none in E as ->. done.
Qed.

Lemma prio_cmp_refl (t : A) : prio_ok t → prio_cmp t t = Eq.
Proof. intros. rewrite prio_cmp_rank by done. apply cmp_refl. Qed.

Lemma list_pop_max l t l' : list_pop l = Some (t, l') → Forall prio_ok l → ∀ u, u ∈ l → prio_cmp u t ≠ Gt.
Proof.
  revert t l'. induction l as [|v l IH]; intros t l'; cbn; [done|]. intros Hp [Hv Hl]%Forall_cons u Hu.
  destruct (list_pop l) as [[m r]|] eqn:E.
  - assert (prio_ok m) as Hm.
    { pose proof Hl as Hl'. rewrite (list_pop_perm _ _ _ E) in Hl'. by apply Forall_cons in Hl' as []. }
    specialize (IH _ _ eq_refl Hl). destruct (prio_cmp v m) eqn:Ec; injection Hp as <- <-;
      apply elem_of_cons in Hu as [->|Hu]; try (by rewrite prio_cmp_refl); try (by apply IH); try congruence.
    + assert (prio_ok u) by (rewrite Forall_forall in Hl; by apply Hl). specialize (IH _ Hu).
      rewrite prio_cmp_rank in * by done. apply cmp_eq in Ec. by rewrite Ec.
    + assert (prio_ok u) by (rewrite Forall_forall in Hl; by apply Hl). specialize (IH _ Hu).
      rewrite prio_cmp_rank in * by done. apply cmp_gt_lt in Ec. intros Hgt%cmp_gt_lt. apply IH, cmp_gt_lt.
      eapply cmp_lt_trans; eauto.
  - injection Hp as <- <-. apply list_pop_none in E as ->. apply elem_of_cons in Hu as [->|?%elem_of_nil]; [|done].
    by rewrite prio_cmp_refl.
Qed.

#[export] Instance list_heap_laws : BinaryHeapLaws A (list A).
Proof.
  split; cbn; [done|done|apply list_pop_none|apply list_pop_perm|apply list_pop_max|..].
  - intros h. rewrite fmap_None. apply list_pop_none.
  - intros h t ([t' h'] & Hp & ->)%fmap_Some Hn. split; [rewrite (list_pop_perm _ _ _ Hp); by left|by eapply list_pop_max].
Qed.
End list_heap.

(** * Concrete runs *)

#[local] Instance demo_str_debug : StrDebug := λ s, s.
(** A codec of states that knows one state. *)
Definition demo_state : CompactionState := {| cst_txn_id := 1; cst_phase := Commit "new" ["a"]; cst_start_time := 5 |}.
#[export] Instance CompactionState_eq_dec : EqDecision CompactionState.
Proof. solve_decision. Defined.
#[local] Instance demo_state_codec : Codec CompactionState := {
  encode s := if decide (s = demo_state) then Ok [1] else Err (CEncode "unknown");
  decode b := if decide (b = [1]) then Ok demo_state else Err (CDecode "unknown")
}.
#[local] Instance demo_state_codec_laws : CodecLaws CompactionState.
Proof. intros s b. unfold encode, decode; cbn. case_decide; [|done]. intros [= <-]. by subst. Qed.

Definition demo_begun : CompactionPhaseMachine := (phase_do machine_new (DoBegin 5 1 "new" ["a"; "b"])).1.
Definition demo_committed : CompactionPhaseMachine := (phase_do demo_begun DoCommit).1.

Lemma demo_trace : phase_trace [Refused; Began 1 "new" ["a"; "b"]; Refused; Committed "new" ["a"; "b"]] demo_committed.
Proof.
  apply (trace_do [Refused; Began 1 "new" ["a"; "b"]; Refused] demo_begun DoCommit).
  change Refused with (phase_do demo_begun (DoRestore [2])).2 at 2. change demo_begun with (phase_do demo_begun (DoRestore [2])).1 at 2.
  apply (trace_do [Refused; Began 1 "new" ["a"; "b"]]).
  apply (trace_do [Refused] machine_new (DoBegin 5 1 "new" ["a"; "b"])).
  apply (trace_do [] machine_new DoCleanup). constructor.
Defined.
Lemma demo_trace_restored : phase_trace [Restored (Commit "new" ["a"])] (Some demo_state).
Proof. change (phase_trace ([] ++ [(phase_do machine_new (DoRestore [1])).2]) (phase_do machine_new (DoRestore [1])).1). do 2 constructor. Defined.

Lemma cleanup_follows_commit_witness :
  (phase_do demo_committed DoCleanup).2 = Cleaned ["a"; "b"] ∧
  (phase_do (phase_do demo_committed DoCleanup).1 DoCleanup).2 = Refused ∧
  (phase_do (Some demo_state) DoCleanup).2 = Cleaned ["a"] ∧
  (phase_do (phase_do (Some demo_state) DoCleanup).1 DoCleanup).2 = Refused.
Proof.
  destruct (cleanup_follows_commit _ _ ["a"; "b"] demo_trace eq_refl) as (n & _ & _ & _ & Hr).
  destruct (cleanup_follows_commit _ _ ["a"] demo_trace_restored eq_refl) as (n' & _ & _ & _ & Hr').
  split_and!; [reflexivity|exact Hr|reflexivity|exact Hr'].
Defined.

Lemma restore_roundtrip_witness : state_serialize demo_state = Ok [1] ∧ restore_from_db None [1] = Some demo_state.
Proof. split; [reflexivity|]. exact (proj1 (restore_roundtrip None demo_state [1] eq_refl)). Defined.

(** Ending a compaction that was only prepared is accepted. *)
Example finish_from_prepare : (phase_do demo_begun DoFinish).2 = Finished ∧ machine_is_idle (phase_do demo_begun DoFinish).1 = true.
Proof. split; reflexivity. Qed.

Definition demo_task (id : string) (p size : Z) : CompactionTask := {|
  ct_seg_id := id; ct_priority := f64_of_Z p; ct_strategy := PdtMerge;
  ct_maintenance := {| mt_action := RPdtMerge; mt_seg_id := Some id; mt_size_bytes := size |};
  ct_created_at := 0; ct_size_bytes := size |}.
Definition demo_scheduler : CompactionScheduler (list CompactionTask) :=
  enqueue (enqueue scheduler_new (demo_task "low" 1 10)) (demo_task "high" 9 10).

Lemma demo_task_ok id p size : is_u64 size → f64_of_Z p ≠ S754_nan → task_ok (demo_task id p size).
Proof. by split. Qed.

Lemma demo_scheduler_ok : scheduler_ok demo_scheduler.
Proof. repeat apply enqueue_ok; try (by apply demo_task_ok); constructor. Defined.

(** "low" waits for "high" and for one more task that overtakes it. *)
Definition demo_ops : list SchedOp := [OpDequeue; OpEnqueue (demo_task "mid" 5 10); OpDequeue; OpDequeue].

Lemma pending_task_served_witness :
  ∃ s' served, run demo_ops demo_scheduler = Some (s', served) ∧ demo_task "low" 1 10 ∈ served.
Proof.
  apply (pending_task_served demo_ops demo_scheduler (demo_task "low" 1 10)).
  - exact demo_scheduler_ok.
  - repeat constructor; discriminate.
  - right; left.
  - vm_compute. lia.
Defined.

Lemma dequeue_serves_max_witness :
  ∃ s' r, dequeue demo_scheduler = Some (s', r) ∧ r = Some (demo_task "high" 9 10).
Proof.
  destruct (dequeue_serves_max demo_scheduler demo_scheduler_ok) as (s' & r & Hd & _).
  exists s', r. split; [exact Hd|]. vm_compute in Hd. by injection Hd as <- <-.
Defined.

Lemma selected_targets_dropped_witness :
  ∃ t, (scheduler_select_targets 7 (with_access_tracker (H := list CompactionTask) demo_hot) 5).2 = Done [t] ∧
       enqueue demo_scheduler t = demo_scheduler.
Proof.
  destruct ((scheduler_select_targets 7 (with_access_tracker (H := list CompactionTask) demo_hot) 5).2) as [ts|] eqn:E;
    [|by vm_compute in E].
  assert (∃ t, ts = [t]) as [t ->] by (vm_compute in E; injection E as <-; by eexists).
  exists t. split; [done|]. eapply (selected_targets_dropped 7 _ 5 [t] t E). by left.
Defined.
