(* ===== verification/PdtMerge.v ===== *)
(** The rewrite of segments (compaction/pdt_merge.rs): one segment without its
    dead rows, and the merge of several.  Files go through the disk of Disk.v,
    columns through Vortex.v; the id generator and the clock are arguments, and
    the progress callback, which only reports, is left out. *)

From stdpp Require Import base gmap strings list pretty.
From Stdlib Require Import Floats.SpecFloat.
From S2P Require Import Prelude Kv Visibility Arrow ShadowColumns Bloom Disk Vortex SegMeta.

Local Open Scope Z_scope.
Local Open Scope rd_scope.

Record PdtMergeConfig := {
  min_del_ratio : f64;
  target_granule_rows : Z;
  parallel_io : bool;
  parallelism : Z
}.
Definition pdt_merge_config_default (num_cpus : Z) : PdtMergeConfig :=
  {| min_del_ratio := f64_lit 5 100; target_granule_rows := 1024 * 1024; parallel_io := true; parallelism := num_cpus |}.

Record MergeStats := {
  rows_read : Z;
  rows_written : Z;
  rows_dropped : Z;
  bytes_read : Z;
  bytes_written : Z;
  granules_created : Z
}.
Definition merge_stats_default : MergeStats :=
  {| rows_read := 0; rows_written := 0; rows_dropped := 0; bytes_read := 0; bytes_written := 0; granules_created := 0 |}.

(** A directory is there when a file is below it. *)
Definition fs_dir_exists {E} (dir : string) : io E bool :=
  io_gets (λ d, bool_decide (files_below dir (disk_files d) ≠ [])).
(** [fs::metadata(..).len()] *)
Definition fs_len (p : string) : io IoError Z :=
  fs_op (λ _ fs, fs) (λ fs, (fs, match fs !! p with Some bs => Ok (zlen bs) | None => Err no_such_file end)).

Record PerColWriter (Arr : Type) := {
  pc_col_name : string;
  pc_path : string;
  pc_batches : list (RecordBatch Arr)
}.
Arguments pc_col_name {Arr} _.
Arguments pc_path {Arr} _.
Arguments pc_batches {Arr} _.
Arguments Build_PerColWriter {Arr} _ _ _.

Section rewrite.
Context `{HashIter} `{BloomEnv} `{!Codec SbbFilter} `{!Codec GranuleBloomFilterManager}.
Context `{Arrow Arr} `{!Batches Arr} `{!VortexLib Arr} `{!Codec ColumnEncoding}.
(** The text of a double in [{}] form. *)
Context (f64_text : f64 → string).
Abbreviation batch := (RecordBatch Arr).

Definition pc_finish (w : PerColWriter Arr) : io RockDuckError unit :=
  if bool_decide (length (pc_batches w) = 0%nat) then io_ret tt else
  _ <-! vw_finish (foldl vw_write (VortexWriter_create (pc_path w) (pc_col_name w)) (pc_batches w));
  io_ret tt.

(** ** Reading the old segment *)

Definition del_ratio_exceeded (c : PdtMergeConfig) (total_rows alive : Z) : bool :=
  if total_rows =? 0 then false
  else SFleb (min_del_ratio c) (f64_div (f64_of_Z (saturating_sub total_rows alive)) (f64_of_Z total_rows)).

(** The batches of a file, none when it is missing or does not open. *)
Definition batches_of (p : string) : io RockDuckError (list batch) :=
  there <-! fs_exists p;
  if there : bool then
    r <-! io_ok (VortexReader_open p);
    io_ret (match r with Some r => read_all_batches r | None => [] end)
  else io_ret [].

Fixpoint read_columns (l : SegmentLayout) (cds : list ColumnDef) : io RockDuckError (list (string * list batch)) :=
  match cds with
  | [] => io_ret []
  | cd :: cds' =>
      bs <-! batches_of (col_path l (cd_name cd));
      rest <-! read_columns l cds';
      io_ret (if bool_decide (length bs = 0%nat) then rest else (cd_name cd, bs) :: rest)
  end.

(** ** Which rows live *)

(** [batch.column(i)] panics out of range. *)
Definition column_at (b : batch) (i : nat) : outcome Arr :=
  match rb_columns b !! i with Some a => Done a | None => Panic end.
(** [as_primitive::<Int64Type>().value(i)] panics on another type and out of range. *)
Definition prim_value (a : Arr) (i : Z) : outcome Z :=
  if bool_decide (arr_type a = Int64) && (0 <=? i) && (i <? arr_len a) then Done (value_i64 a i) else Panic.

Definition overlay_visible (c d_raw : Z) : bool :=
  SegmentOverlay_is_row_visible compaction_overlay_filter.1 compaction_overlay_filter.2 (as_u64 c) (row_deleter (as_u64 d_raw)).

Definition row_alive (old_vis : option batch) (row_i : Z) : outcome bool :=
  match old_vis with
  | Some vis_batch =>
      if ShadowColumns.has_visibility_columns (rb_fields vis_batch) then
        '(_, deleted_arr) ← extract_visibility_columns vis_batch;
        d_raw ← prim_value deleted_arr row_i;
        c_arr ← column_at vis_batch 0;
        c ← prim_value c_arr row_i;
        mret (overlay_visible c d_raw)
      else mret true
  | None => mret true
  end.

Definition alive_mask (old_vis : option batch) (batch_n : Z) : outcome (list bool) :=
  mapM (row_alive old_vis) (seqZ 0 batch_n).

Definition kept_rows (mask : list bool) : list Z := mask_filter mask (seqZ 0 (zlen mask)).

(** The created and deleted values of the rows that stay. *)
Definition kept_visibility (old_vis : option batch) (mask : list bool) : outcome (list Z * list Z) :=
  match old_vis with
  | Some vis_batch =>
      c_arr ← column_at vis_batch 0;
      d_arr ← column_at vis_batch 1;
      cs ← mapM (prim_value c_arr) (kept_rows mask);
      ds ← mapM (prim_value d_arr) (kept_rows mask);
      mret (cs, ds)
  | None => mret ((λ _, 0) <$> kept_rows mask, (λ _, as_i64 NOT_DELETED) <$> kept_rows mask)
  end.

Definition new_vis_batch (cs ds : list Z) : Result batch :=
  map_err (λ e, ECompaction ("vis batch create: " +:+ e)) (try_new visibility_schema [int64_array cs; int64_array ds]).

(** ** One segment *)

Record CompactAcc := {
  ca_vis : list batch;
  ca_writers : option (list (PerColWriter Arr));
  ca_blooms : list (string * GranuleBloomFilterManager)
}.

Definition rows_at (col_data : list (string * list batch)) (batch_idx : nat) : Z :=
  match col_data with
  | (_, bs) :: _ => match bs !! batch_idx with Some b => rb_rows b | None => 0 end
  | [] => 0
  end.

(** [writers[col_idx]] panics when one push was not enough to reach it. *)
Definition push_filtered (new_dir : string) (col_idx : nat) (name : string) (filtered : batch)
    (ws : option (list (PerColWriter Arr))) : outcome (option (list (PerColWriter Arr))) :=
  let ws := default [] ws in
  let ws := if (length ws <=? col_idx)%nat
            then ws ++ [Build_PerColWriter name (path_join new_dir (name +:+ ".vortex")) []] else ws in
  match ws !! col_idx with
  | Some w => Done (Some (<[col_idx := Build_PerColWriter (pc_col_name w) (pc_path w) (pc_batches w ++ [filtered])]> ws))
  | None => Panic
  end.

Fixpoint build_blooms (name : string) (granule : Z) (a : Arr) (ms : list (string * GranuleBloomFilterManager)) :
    outcome (list (string * GranuleBloomFilterManager)) :=
  match ms with
  | [] => mret []
  | (n, m) :: ms' =>
      m' ← (if bool_decide (n = name) then build_for_granule_from_array m granule 0 a else mret m);
      rest ← build_blooms name granule a ms';
      mret ((n, m') :: rest)
  end.

Definition compact_column (new_dir : string) (batch_idx : nat) (mask : list bool) (acc : CompactAcc) (col_idx : nat)
    (name : string) (bs : list batch) : outcome CompactAcc :=
  match bs !! batch_idx with
  | None => mret acc
  | Some b =>
      match filter_record_batch b mask with
      | Err _ => mret acc
      | Ok filtered =>
          if 0 <? rb_rows filtered then
            blooms ← (if (col_idx =? 0)%nat
                      then a ← column_at filtered 0; build_blooms name (wrap32 (Z.of_nat batch_idx)) a (ca_blooms acc)
                      else mret (ca_blooms acc));
            ws ← push_filtered new_dir col_idx name filtered (ca_writers acc);
            mret {| ca_vis := ca_vis acc; ca_writers := ws; ca_blooms := blooms |}
          else mret acc
      end
  end.

Fixpoint compact_columns (new_dir : string) (batch_idx : nat) (mask : list bool) (acc : CompactAcc) (col_idx : nat)
    (cols : list (string * list batch)) : outcome CompactAcc :=
  match cols with
  | [] => mret acc
  | (name, bs) :: cols' =>
      acc ← compact_column new_dir batch_idx mask acc col_idx name bs;
      compact_columns new_dir batch_idx mask acc (S col_idx) cols'
  end.

(** One round of the loop over the batch indices. *)
Definition compact_batch (new_dir : string) (old_vis : list batch) (col_data : list (string * list batch))
    (acc : CompactAcc) (batch_idx : nat) : outcome (Result CompactAcc) :=
  let batch_n := rows_at col_data batch_idx in
  if batch_n =? 0 then mret (Ok acc) else
  mask ← alive_mask (old_vis !! batch_idx) batch_n;
  if forallb negb mask then mret (Ok acc) else
  '(cs, ds) ← kept_visibility (old_vis !! batch_idx) mask;
  match new_vis_batch cs ds with
  | Err e => mret (Err e)
  | Ok vb =>
      acc ← compact_columns new_dir batch_idx mask
              {| ca_vis := ca_vis acc ++ [vb]; ca_writers := ca_writers acc; ca_blooms := ca_blooms acc |} 0 col_data;
      mret (Ok acc)
  end.

Fixpoint compact_batches (new_dir : string) (old_vis : list batch) (col_data : list (string * list batch))
    (acc : CompactAcc) (idxs : list nat) : outcome (Result CompactAcc) :=
  match idxs with
  | [] => mret (Ok acc)
  | i :: idxs' =>
      r ← compact_batch new_dir old_vis col_data acc i;
      match r with
      | Ok acc' => compact_batches new_dir old_vis col_data acc' idxs'
      | Err e => mret (Err e)
      end
  end.

Definition max_batches (col_data : list (string * list batch)) : nat := foldr (λ e n, length e.2 `max` n)%nat 0%nat col_data.

(** ** Writing the new segment *)

Definition bf_err (name new_id : string) (e : RockDuckError) : RockDuckError :=
  EIo OtherKind ("compaction: failed to save bloom filter for column '" +:+ name +:+ "' in seg " +:+ new_id +:+ ": " +:+ error_display e).

(** [GranuleBloomFilterManager::save]: the bytes into a temporary file that is
    renamed; whether the directory can be synced does not matter.  Opening the
    temporary file and writing it are one operation of the disk. *)
Definition bloom_save (m : GranuleBloomFilterManager) (dir p : string) : io RockDuckError unit :=
  match save_bytes m with
  | Panic => io_panic
  | Done (_, Err e) => io_throw e
  | Done (_, Ok None) => io_ret tt
  | Done (_, Ok (Some data)) =>
      _ <-! io_map_err err_io (fs_create_dir_all dir);
      _ <-! io_map_err (λ e, EIo OtherKind ("write bloom filter tmp: " +:+ io_text e)) (fs_write (p +:+ ".tmp") data);
      _ <-! io_map_err (λ e, EIo OtherKind ("fsync bloom filter tmp: " +:+ io_text e)) (fs_sync (p +:+ ".tmp"));
      _ <-! io_map_err (λ e, EIo OtherKind ("rename bloom filter: " +:+ io_text e)) (fs_rename (p +:+ ".tmp") p);
      _ <-! io_ok (fs_sync dir);
      io_ret tt
  end.

Definition save_blooms (new_dir new_id : string) (ms : list (string * GranuleBloomFilterManager)) : io RockDuckError unit :=
  io_iter (λ '(name, m),
    if bm_is_empty m then io_ret tt
    else io_map_err (bf_err name new_id) (bloom_save m new_dir (path_join new_dir (name +:+ "._bf.bin")))) ms.

Definition write_vis (l : SegmentLayout) (vis : list batch) : io RockDuckError unit :=
  if bool_decide (length vis = 0%nat) then io_ret tt else
  _ <-! vw_finish (foldl vw_write (VortexWriter_create (vis_path l) "__vis") vis); io_ret tt.

Definition sync_segment_dir (what dir : string) : io RockDuckError unit :=
  r <-! io_ok (fs_open_dir dir);
  match r with
  | Some _ => io_map_err (λ e, EWrite (what +:+ " dir fsync " +:+ dir +:+ ": " +:+ io_text e)) (fs_sync dir)
  | None => io_ret tt
  end.

Fixpoint sum_file_sizes (dir : string) (names : list string) : io RockDuckError Z :=
  match names with
  | [] => io_ret 0
  | n :: names' =>
      let p := path_join dir (n +:+ ".vortex") in
      there <-! fs_exists p;
      sz <-! (if there : bool then r <-! io_ok (fs_len p); io_ret (default 0 r) else io_ret 0);
      rest <-! sum_file_sizes dir names';
      io_ret (wrap64 (sz + rest))
  end.

(** The metadata of the new segment. *)
Definition compacted_meta (now : Z) (new_id : string) (old : SegmentMeta) (bytes_written : Z) : SegmentMeta :=
  {| seg_id := new_id; table_id := table_id old; status := Frozen; seg_type := seg_type old;
     columns := columns old; min_key := min_key old; max_key := max_key old;
     row_count := alive_row_count old; alive_row_count := alive_row_count old; del_ratio := f64_of_Z 0;
     size_bytes := bytes_written; created_txn := created_txn old; updated_txn := updated_txn old;
     updated_at := now; file_paths := []; granules := granules old;
     SegMeta.has_visibility_columns := true; delta_file_id := None; delta_row_count := 0; delta_l1_bytes := 0 |}.

Definition compact_stats (old : SegmentMeta) (bytes_written : Z) : MergeStats :=
  {| rows_read := row_count old;
     rows_written := alive_row_count old;
     rows_dropped := saturating_sub (row_count old) (alive_row_count old);
     bytes_read := 0; bytes_written := bytes_written; granules_created := 1 |}.

Definition layout_of (data_dir id : string) : io RockDuckError SegmentLayout :=
  match SegmentLayout_new data_dir id with Done l => io_ret l | Panic => io_panic end.

(** What the loop over the batches produced is written out, and the sizes summed. *)
Definition write_compacted_files (l : SegmentLayout) (new_id : string) (old : SegmentMeta) (acc : CompactAcc) : io RockDuckError Z :=
  _ <-! io_iter pc_finish (default [] (ca_writers acc));
  _ <-! save_blooms (seg_dir l) new_id (ca_blooms acc);
  _ <-! write_vis l (ca_vis acc);
  _ <-! sync_segment_dir "pdt merge" (seg_dir l);
  sum_file_sizes (seg_dir l) (cd_name <$> columns old).

Definition initial_acc (new_id : string) (alive : Z) (col_data : list (string * list batch)) : CompactAcc :=
  {| ca_vis := []; ca_writers := None;
     ca_blooms := (λ e, (e.1, GranuleBloomFilterManager_new new_id e.1 alive)) <$> col_data |}.

Definition compact_segment (uuid : string) (now : Z) (data_dir old_id : string) (old : SegmentMeta) (config : PdtMergeConfig) :
    io RockDuckError (SegmentMeta * MergeStats) :=
  old_layout <-! layout_of data_dir old_id;
  there <-! fs_dir_exists (seg_dir old_layout);
  if negb there then io_throw (ECompaction ("Segment directory not found: " +:+ seg_dir old_layout)) else
  if negb (del_ratio_exceeded config (row_count old) (alive_row_count old))
  then io_throw (ECompaction ("del_ratio < threshold " +:+ f64_text (min_del_ratio config))) else
  let new_id := old_id +:+ "_c" +:+ uuid in
  new_layout <-! layout_of data_dir new_id;
  _ <-! io_map_err err_io (fs_create_dir_all (seg_dir new_layout));
  old_vis <-! batches_of (vis_path old_layout);
  col_data <-! read_columns old_layout (columns old);
  if bool_decide (length col_data = 0%nat) then io_throw (ECompaction "No column data found") else
  acc <-! io_outcome (compact_batches (seg_dir new_layout) old_vis col_data
                        (initial_acc new_id (alive_row_count old) col_data) (seq 0 (max_batches col_data)));
  bytes <-! write_compacted_files new_layout new_id old acc;
  io_ret (compacted_meta now new_id old bytes, compact_stats old bytes).

(** ** Several segments *)

Record SegmentReaders := { sr_vis : list batch; sr_cols : list (string * list batch) }.

Fixpoint read_merge_columns (l : SegmentLayout) (cds : list ColumnDef) : io RockDuckError (list (string * list batch)) :=
  match cds with
  | [] => io_ret []
  | cd :: cds' =>
      there <-! fs_exists (col_path l (cd_name cd));
      r <-! (if there : bool then io_ok (VortexReader_open (col_path l (cd_name cd))) else io_ret None);
      rest <-! read_merge_columns l cds';
      io_ret (match r with Some r => (cd_name cd, read_all_batches r) :: rest | None => rest end)
  end.

Fixpoint read_segments (data_dir : string) (segs : list (string * SegmentMeta)) : io RockDuckError (list SegmentReaders) :=
  match segs with
  | [] => io_ret []
  | (id, m) :: segs' =>
      l <-! layout_of data_dir id;
      vis <-! batches_of (vis_path l);
      cols <-! read_merge_columns l (columns m);
      rest <-! read_segments data_dir segs';
      io_ret ({| sr_vis := vis; sr_cols := cols |} :: rest)
  end.

(** The first loop: every directory is there, and the totals. *)
Fixpoint check_segments (data_dir : string) (segs : list (string * SegmentMeta)) : io RockDuckError unit :=
  match segs with
  | [] => io_ret tt
  | (id, m) :: segs' =>
      l <-! layout_of data_dir id;
      there <-! fs_dir_exists (seg_dir l);
      if negb there then io_throw (ECompaction ("Segment directory not found: " +:+ seg_dir l))
      else check_segments data_dir segs'
  end.
Definition dead_rows (m : SegmentMeta) : Z := saturating_sub (row_count m) (alive_row_count m).

(** The alive rows of one segment at a batch index, as flags. *)
Definition segment_alive (batch_idx : nat) (s : SegmentReaders) : outcome (list bool) :=
  alive_mask (sr_vis s !! batch_idx) (rows_at (sr_cols s) batch_idx).

(** One round of the visibility pass. *)
Definition merge_visibility (batch_idx : nat) (segs : list SegmentReaders) : outcome (Result (option batch)) :=
  masks ← mapM (segment_alive batch_idx) segs;
  if forallb negb (mjoin masks) then mret (Ok None) else
  vals ← mapM (λ '(s, mask),
                 if forallb negb mask then mret ([], []) else
                 match sr_vis s !! batch_idx with
                 | Some vb =>
                     c_arr ← column_at vb 0; d_arr ← column_at vb 1;
                     cs ← mapM (prim_value c_arr) (kept_rows mask);
                     ds ← mapM (prim_value d_arr) (kept_rows mask);
                     mret (cs, ds)
                 | None => mret ((λ _, 0) <$> kept_rows mask, (λ _, as_i64 NOT_DELETED) <$> kept_rows mask)
                 end) (zip segs masks);
  mret (b <-? new_vis_batch (mjoin vals.*1) (mjoin vals.*2); Ok (Some b)).

Fixpoint merge_vis_batches (idxs : list nat) (segs : list SegmentReaders) : outcome (Result (list batch)) :=
  match idxs with
  | [] => mret (Ok [])
  | i :: idxs' =>
      r ← merge_visibility i segs;
      match r with
      | Err e => mret (Err e)
      | Ok o =>
          rest ← merge_vis_batches idxs' segs;
          mret (bs <-? rest; Ok (option_list o ++ bs))
      end
  end.

(** The flags of the column pass: the two columns are taken once per batch. *)
Definition column_mask (batch_idx : nat) (s : SegmentReaders) : outcome (list bool) :=
  vis ← match sr_vis s !! batch_idx with
        | Some vb => if ShadowColumns.has_visibility_columns (rb_fields vb)
                     then cd ← extract_visibility_columns vb; mret (Some cd) else mret None
        | None => mret None
        end;
  mapM (λ i, match vis with
             | Some (c_arr, d_arr) => d ← prim_value d_arr i; c ← prim_value c_arr i; mret (overlay_visible c d)
             | None => mret true
             end) (seqZ 0 (rows_at (sr_cols s) batch_idx)).

(** The batches of one column at one index: each segment's batch through the
    flags of all segments. *)
Definition filtered_batches (batch_idx : nat) (mask : list bool) (name : string) (segs : list SegmentReaders) : list batch :=
  omap (λ s,
    e ← list_find (λ e, e.1 = name) (sr_cols s);
    b ← e.2.2 !! batch_idx;
    if 0 <? rb_rows b then
      match filter_record_batch b mask with
      | Ok f => if 0 <? rb_rows f then Some f else None
      | Err _ => None
      end
    else None) segs.

(** The column pass: what each column's writer holds in the end. *)
Fixpoint merge_column_batches (idxs : list nat) (names : list string) (segs : list SegmentReaders) :
    outcome (list (list batch)) :=
  match idxs with
  | [] => mret ((λ _, []) <$> names)
  | i :: idxs' =>
      masks ← mapM (column_mask i) segs;
      rest ← merge_column_batches idxs' names segs;
      let mask := mjoin masks in
      mret (if forallb negb mask then rest
            else zip_with (λ n later, filtered_batches i mask n segs ++ later) names rest)
  end.

Definition merged_meta (now : Z) (new_id : string) (first : SegmentMeta) (metas : list SegmentMeta) (total_rows total_alive bytes : Z) :
    SegmentMeta :=
  {| seg_id := new_id; table_id := table_id first; status := Frozen; seg_type := seg_type first;
     columns := columns first; min_key := min_key first; max_key := max_key first;
     row_count := total_alive; alive_row_count := total_alive;
     del_ratio := if 0 <? total_rows
                  then f64_div (f64_of_Z (wrap64 (total_rows - total_alive))) (f64_of_Z total_rows) else f64_of_Z 0;
     size_bytes := bytes;
     created_txn := match metas with [] => 0 | m :: ms => foldl Z.min (created_txn m) (created_txn <$> ms) end;
     updated_txn := match metas with [] => 0 | m :: ms => foldl Z.max (updated_txn m) (updated_txn <$> ms) end;
     updated_at := now; file_paths := []; granules := granules first;
     SegMeta.has_visibility_columns := true; delta_file_id := None; delta_row_count := 0; delta_l1_bytes := 0 |}.

Definition multiway_merge (uuid : string) (now : Z) (data_dir : string) (ids : list string) (metas : list SegmentMeta)
    (config : PdtMergeConfig) : io RockDuckError (SegmentMeta * MergeStats) :=
  match ids, metas with
  | [], _ => io_throw (ECompaction "No segments to merge")
  | [id], m :: _ => compact_segment uuid now data_dir id m config
  | [_], [] => io_panic
  | _, _ =>
      let segs := zip ids metas in
      _ <-! check_segments data_dir segs;
      let total_rows := sum_u64 (row_count <$> segs.*2) in
      let total_alive := sum_u64 (alive_row_count <$> segs.*2) in
      match metas with
      | [] => io_throw (ECompaction ("No segments to merge (attempted " +:+ pretty (length ids) +:+ " segments)"))
      | first :: _ =>
          readers <-! read_segments data_dir segs;
          let n := foldr (λ s k, max_batches (sr_cols s) `max` k)%nat 0%nat readers in
          if (n =? 0)%nat then io_throw (ECompaction "No column data found across segments") else
          let new_id := "merge_" +:+ default "" (head ids) +:+ "_" +:+ uuid in
          l <-! layout_of data_dir new_id;
          _ <-! io_map_err err_io (fs_create_dir_all (seg_dir l));
          let names := cd_name <$> columns first in
          vis <-! io_outcome (merge_vis_batches (seq 0 n) readers);
          _ <-! write_vis l vis;
          cols <-! io_outcome (c ← merge_column_batches (seq 0 n) names readers; mret (Ok c));
          _ <-! io_iter pc_finish
                  (zip_with (λ nm bs, Build_PerColWriter nm (path_join (seg_dir l) (nm +:+ ".vortex")) bs) names cols);
          _ <-! sync_segment_dir "multiway_merge" (seg_dir l);
          bytes <-! sum_file_sizes (seg_dir l) names;
          io_ret (merged_meta now new_id first metas total_rows total_alive bytes,
                  {| rows_read := total_rows;
                     rows_written := sum_u64 (rb_rows <$> mjoin cols);
                     rows_dropped := sum_u64 (dead_rows <$> segs.*2);
                     bytes_read := 0; bytes_written := bytes; granules_created := 1 |})
      end
  end.
End rewrite.

(** * Which rows a rewrite keeps *)

Section alive.
Context `{Arrow Arr}.
Abbreviation batch := (RecordBatch Arr).

(** Under the overlay of the rewrite no row is visible. *)
Lemma overlay_visible_false c d : overlay_visible c d = false.
Proof. apply compaction_overlay_hides_all. Qed.

(** What the rows of a batch are taken for: all alive without the two columns,
    all dead with them. *)
Definition batch_alive (old_vis : option batch) : bool :=
  match old_vis with Some vb => negb (ShadowColumns.has_visibility_columns (rb_fields vb)) | None => true end.

Lemma row_alive_batch old_vis i b : row_alive old_vis i = Done b → b = batch_alive old_vis.
Proof.
  unfold row_alive, batch_alive. destruct old_vis as [vb|]; [|by intros [= <-]].
  destruct (ShadowColumns.has_visibility_columns _); [|by intros [= <-]].
  destruct (extract_visibility_columns vb) as [[c d]|]; cbn; [|done].
  destruct (prim_value d i); cbn; [|done]. destruct (column_at vb 0) as [c'|]; cbn; [|done].
  destruct (prim_value c' i); cbn; [|done]. rewrite overlay_visible_false. by intros [= <-].
Qed.

Lemma mapM_Done {A B} (f : A → outcome B) l k : mapM f l = Done k → Forall2 (λ x y, f x = Done y) l k.
Proof.
  revert k. induction l as [|x l IH]; intros k; cbn; [by intros [= <-]|].
  destruct (f x) as [y|] eqn:E; cbn; [|done]. destruct (mapM f l) as [ys|]; cbn; [|done].
  intros [= <-]. by constructor; [|apply IH].
Qed.

Lemma mapM_const {A B} (f : A → outcome B) l k b : mapM f l = Done k → (∀ x y, f x = Done y → y = b) →
  k = replicate (length l) b.
Proof.
  intros Hm%mapM_Done Hf. induction Hm as [|x y l k Hx _ IH]; [done|]. cbn. f_equal; [by eapply Hf|done].
Qed.

Lemma alive_mask_uniform old_vis n mask : alive_mask old_vis n = Done mask →
  mask = replicate (Z.to_nat n) (batch_alive old_vis).
Proof.
  intros Hm%(mapM_const _ _ _ (batch_alive old_vis)); [by rewrite length_seqZ in Hm|apply row_alive_batch].
Qed.

Lemma alive_mask_none n : alive_mask (Arr := Arr) None n = Done (replicate (Z.to_nat n) true).
Proof.
  unfold alive_mask. rewrite <- (length_seqZ 0 n). induction (seqZ 0 n) as [|i l IH]; [done|]. cbn. cbn in IH. by rewrite IH.
Qed.

Lemma mask_filter_true {A} (l : list A) : mask_filter (replicate (length l) true) l = l.
Proof. induction l; cbn; [done|]. by f_equal. Qed.

Lemma forallb_negb_true n : (0 < n)%nat → forallb negb (replicate n true) = false.
Proof. by destruct n; [lia|]. Qed.
Lemma forallb_negb_false n : forallb negb (replicate n false) = true.
Proof. by induction n. Qed.
End alive.

Section lost_rows.
Context `{HashIter} `{BloomEnv} `{!Codec SbbFilter} `{!Codec GranuleBloomFilterManager}.
Context `{Arrow Arr} `{!Batches Arr} `{!VortexLib Arr} `{!Codec ColumnEncoding}.
Abbreviation batch := (RecordBatch Arr).

(** A batch whose visibility columns are there is skipped as a whole. *)
Lemma compact_batch_skips new_dir old_vis (col_data : list (string * list batch)) acc i r :
  compact_batch new_dir old_vis col_data acc i = Done r →
  rows_at col_data i = 0 ∨ batch_alive (old_vis !! i) = false → r = Ok acc.
Proof.
  unfold compact_batch. destruct (Z.eqb_spec (rows_at col_data i) 0) as [|Hn]; [by intros [= <-]|].
  intros Hr [?|Ha]; [done|]. destruct (alive_mask (old_vis !! i) (rows_at col_data i)) as [mask|] eqn:Hm; [|done].
  cbn in Hr. apply alive_mask_uniform in Hm as ->. rewrite Ha, forallb_negb_false in Hr. by injection Hr as <-.
Qed.

Lemma compact_batches_skip new_dir old_vis (col_data : list (string * list batch)) acc idxs r :
  (∀ i, i ∈ idxs → rows_at col_data i = 0 ∨ batch_alive (old_vis !! i) = false) →
  compact_batches new_dir old_vis col_data acc idxs = Done r → r = Ok acc.
Proof.
  intros Hi. induction idxs as [|i idxs IH]; cbn; [by intros [= <-]|].
  destruct (compact_batch new_dir old_vis col_data acc i) as [r1|] eqn:E; cbn; [|done].
  apply compact_batch_skips in E as ->; [|apply Hi; by left]. apply IH. intros j Hj. apply Hi. by right.
Qed.

(** ** On a disk without faults *)

Lemma layout_of_ok data_dir id l d : SegmentLayout_new data_dir id = Done l →
  layout_of data_dir id d = (d, Done (Ok l)).
Proof. intros Hl. unfold layout_of. by rewrite Hl. Qed.

Lemma sync_dir_ok what dir fs : sync_segment_dir what dir (new_disk fs) = (new_disk fs, Done (Ok tt)).
Proof. done. Qed.

Lemma sum_file_sizes_ok dir names fs : ∃ n, sum_file_sizes dir names (new_disk fs) = (new_disk fs, Done (Ok n)).
Proof.
  induction names as [|x names [n IH]]; cbn; [by eexists|]. unfold io_bind, fs_exists, io_gets, fs_len, fs_op, io_ok. cbn.
  case_bool_decide as Hp; cbn.
  - destruct (fs !! path_join dir (x +:+ ".vortex")) as [bs|]; [|by destruct Hp]. cbn.
    change (Build_Disk fs []) with (new_disk fs). rewrite IH. by eexists.
  - rewrite IH. by eexists.
Qed.

Lemma initial_blooms_not_saved dir new_id alive (col_data : list (string * list batch)) d :
  save_blooms dir new_id (ca_blooms (initial_acc new_id alive col_data)) d = (d, Done (Ok tt)).
Proof. induction col_data as [|e col_data IH]; [done|]. exact IH. Qed.

(** ** Dead batches *)

(** A visibility batch for [n] rows. *)
Definition vis_batch_ok (n : Z) (vb : batch) : Prop :=
  rb_fields vb = visibility_schema ∧ batch_wf vb ∧ n ≤ rb_rows vb.

Lemma row_alive_vis n vb i : vis_batch_ok n vb → 0 ≤ i < n → row_alive (Some vb) i = Done false.
Proof.
  intros (Hf & Hwf & Hn) Hi. unfold batch_wf in Hwf. rewrite Hf in Hwf.
  apply Forall2_cons_inv_l in Hwf as (c & cs & (Hc & Hct & _) & Hwf & Hcols).
  apply Forall2_cons_inv_l in Hwf as (d & cs' & (Hd & Hdt & _) & Hwf & ->). apply Forall2_nil_inv_l in Hwf as ->.
  assert (∀ a : Arr, arr_len a = rb_rows vb → arr_type a = Int64 → prim_value a i = Done (value_i64 a i)) as Hv.
  { intros a Hl Ht. unfold prim_value. rewrite Ht, Hl, bool_decide_eq_true_2 by done. cbn.
    by rewrite (proj2 (Z.leb_le 0 i)), (proj2 (Z.ltb_lt i _)) by lia. }
  unfold row_alive, extract_visibility_columns, column_at. rewrite Hf, Hcols. cbn.
  rewrite !Hv by done. cbn. by rewrite overlay_visible_false.
Qed.

Lemma alive_mask_vis n vb : vis_batch_ok n vb → alive_mask (Some vb) n = Done (replicate (Z.to_nat n) false).
Proof.
  intros Hvb. unfold alive_mask. rewrite <- (length_seqZ 0 n).
  assert (Forall (λ i, 0 ≤ i < n) (seqZ 0 n)) as Hr by (apply Forall_forall; intros i Hi%elem_of_seqZ; lia).
  induction Hr as [|i l Hi _ IH]; [done|]. cbn [mapM]. rewrite (row_alive_vis n) by done. cbn. by rewrite IH.
Qed.

Lemma compact_batches_dead new_dir old_vis (col_data : list (string * list batch)) acc idxs :
  (∀ i, i ∈ idxs → ∃ vb, old_vis !! i = Some vb ∧ vis_batch_ok (rows_at col_data i) vb) →
  compact_batches new_dir old_vis col_data acc idxs = Done (Ok acc).
Proof.
  intros Hi. induction idxs as [|i idxs IH]; [done|]. cbn [compact_batches].
  assert (compact_batch new_dir old_vis col_data acc i = Done (Ok acc)) as ->.
  { destruct (Hi i) as (vb & Hvb & Hok); [by left|]. unfold compact_batch. rewrite Hvb.
    destruct (_ =? 0); [done|]. rewrite (alive_mask_vis _ _ Hok). cbn. by rewrite forallb_negb_false. }
  cbn. apply IH. intros j Hj. apply Hi. by right.
Qed.
End lost_rows.

(** * Properties *)

Section rewrite_theorems.
Context `{HashIter} `{BloomEnv} `{!Codec SbbFilter} `{!Codec GranuleBloomFilterManager}.
Context `{Arrow Arr} `{!Batches Arr} `{!VortexLib Arr} `{!Codec ColumnEncoding}.
Abbreviation batch := (RecordBatch Arr).

(** C31: Rewriting a segment whose visibility file is readable and complete
    returns success and writes no file at all: the overlay of the rewrite hides
    every row, so every batch is skipped, while the new metadata and the
    statistics report the alive rows of the old segment as written. *)
Theorem compact_segment_loses_rows f64_text uuid now data_dir old_id old config fs l l' (old_vis : list batch)
    (col_data : list (string * list batch)) :
  SegmentLayout_new data_dir old_id = Done l →
  SegmentLayout_new data_dir (old_id +:+ "_c" +:+ uuid) = Done l' →
  files_below (seg_dir l) fs ≠ [] →
  del_ratio_exceeded config (row_count old) (alive_row_count old) = true →
  io_returns (batches_of (vis_path l)) (new_disk fs) old_vis (new_disk fs) →
  io_returns (read_columns l (columns old)) (new_disk fs) col_data (new_disk fs) →
  col_data ≠ [] →
  (∀ i, (i < max_batches col_data)%nat → ∃ vb, old_vis !! i = Some vb ∧ vis_batch_ok (rows_at col_data i) vb) →
  ∃ m stats, io_returns (compact_segment (Arr := Arr) f64_text uuid now data_dir old_id old config) (new_disk fs) (m, stats) (new_disk fs) ∧
    row_count m = alive_row_count old ∧ rows_written stats = alive_row_count old ∧ columns m = columns old.
Proof.
  intros Hl Hl' Hdir Hratio Hvis Hcols Hne Hok.
  destruct (sum_file_sizes_ok (seg_dir l') (cd_name <$> columns old) fs) as [n Hn].
  exists (compacted_meta now (old_id +:+ "_c" +:+ uuid) old n), (compact_stats old n). split; [|done].
  unfold io_returns, compact_segment, io_bind. rewrite (layout_of_ok _ _ _ _ Hl). cbn.
  rewrite bool_decide_eq_true_2 by done. rewrite Hratio. cbn. rewrite (layout_of_ok _ _ _ _ Hl'). cbn.
  rewrite Hvis. change (Build_Disk fs []) with (new_disk fs). rewrite Hcols.
  rewrite bool_decide_eq_false_2 by (by destruct col_data). unfold io_outcome.
  rewrite compact_batches_dead by (intros i Hi%elem_of_seq; apply Hok; lia).
  unfold write_compacted_files, io_bind. cbn [ca_writers initial_acc default io_iter io_ret ca_vis].
  rewrite initial_blooms_not_saved. unfold write_vis. cbn [ca_vis initial_acc length]. rewrite bool_decide_eq_true_2 by done. cbn [io_ret]. rewrite sync_dir_ok. by rewrite Hn.
Qed.
End rewrite_theorems.

(** * Segments without visibility data *)

Section kept_rows.
Context `{HashIter} `{BloomEnv} `{CodecLaws SbbFilter}.
Context `{ArrowLaws Arr} `{!Batches Arr} `{!BatchesLaws Arr}.
Abbreviation batch := (RecordBatch Arr).

(** A batch of [n] rows in one column. *)
Definition column_batch (n : Z) (b : batch) : Prop :=
  batch_wf b ∧ rb_rows b = n ∧ length (rb_columns b) = 1%nat.

(** The writer of a column holds the values of its first [k] batches. *)
Definition holds_first (k : nat) (w : PerColWriter Arr) (e : string * list batch) : Prop :=
  pc_col_name w = e.1 ∧ mjoin (first_slots <$> pc_batches w) = mjoin (first_slots <$> take k e.2).

Definition blooms_wf (ms : list (string * GranuleBloomFilterManager)) : Prop := Forall (λ e, bm_wf e.2) ms.

Lemma filter_all_true n (b : batch) : 0 < n → column_batch n b →
  ∃ b', filter_record_batch b (replicate (Z.to_nat n) true) = Ok b' ∧ rb_rows b' = n ∧
    (∃ c, rb_columns b' = [c]) ∧ first_slots b' = first_slots b.
Proof.
  intros Hn (Hwf & Hr & Hc). destruct (rb_columns b) as [|c [|]] eqn:Ec; [done| |done].
  destruct (filter_record_batch_ok b (replicate (Z.to_nat n) true)) as (b' & Hf & _ & Hcols); [done| |].
  { rewrite zlen_replicate; lia. }
  rewrite Ec in Hcols. apply Forall2_cons_inv_r in Hcols as (c' & cs & (Hl & _ & Hs) & Hnil & Hb').
  apply Forall2_nil_inv_r in Hnil as ->.
  assert (arr_len c = n) as Hlen.
  { unfold batch_wf in Hwf. rewrite Ec in Hwf. apply Forall2_cons_inv_r in Hwf as (f & fs & (Hcl & _) & _ & _). lia. }
  assert (slots c' = slots c) as Heq.
  { rewrite Hs. rewrite <- (mask_filter_true (slots c)) at 2. do 2 f_equal. pose proof (zlen_slots c). unfold zlen in *. lia. }
  exists b'. split_and!; [done| |by exists c'|].
  - rewrite <- Hl, <- zlen_slots, Heq, zlen_slots. done.
  - unfold first_slots. rewrite Hb', Ec. done.
Qed.

Lemma build_blooms_ok name g (a : Arr) ms : blooms_wf ms → ∃ ms', build_blooms name g a ms = Done ms' ∧ blooms_wf ms'.
Proof.
  induction 1 as [|[n m] ms Hm _ (ms' & IH & Hwf)]; cbn; [by exists []; split; [|constructor]|].
  case_bool_decide; cbn.
  - unfold build_for_granule_from_array.
    destruct (insert_all_spec m g (wrap32 rows_per_granule) (omap (pk_bytes g 0 a) (seqZ 0 (arr_len a))) Hm) as (m' & -> & Hwf' & _).
    cbn. rewrite IH. cbn. eexists. split; [done|]. by constructor.
  - rewrite IH. cbn. eexists. split; [done|]. by constructor.
Qed.

Lemma compact_column_keeps new_dir i n acc name (bs : list batch) b w prev rest :
  0 < n → bs !! i = Some b → column_batch n b → blooms_wf (ca_blooms acc) →
  (default [] (ca_writers acc) = prev ++ w :: rest ∧ holds_first i w (name, bs) ∨
   default [] (ca_writers acc) = prev ∧ rest = [] ∧ i = 0%nat) →
  ∃ acc' w', compact_column new_dir i (replicate (Z.to_nat n) true) acc (length prev) name bs = Done acc' ∧
    ca_writers acc' = Some (prev ++ w' :: rest) ∧ holds_first (S i) w' (name, bs) ∧
    ca_vis acc' = ca_vis acc ∧ blooms_wf (ca_blooms acc').
Proof.
  intros Hn Hb Hcb Hwf Hws. destruct (filter_all_true n b Hn Hcb) as (b' & Hf & Hr & (c & Hc) & Hs).
  unfold compact_column. rewrite Hb, Hf, (proj2 (Z.ltb_lt 0 (rb_rows b'))) by lia.
  assert (∃ ms, (if (length prev =? 0)%nat then a ← column_at b' 0; build_blooms name (wrap32 (Z.of_nat i)) a (ca_blooms acc)
                 else mret (ca_blooms acc)) = Done ms ∧ blooms_wf ms) as (ms & Hms & Hmwf).
  { destruct (length prev =? 0)%nat; [|by eexists]. unfold column_at. rewrite Hc. cbn. by apply build_blooms_ok. }
  rewrite Hms. cbn. unfold push_filtered.
  assert (∃ w', (if (length (default [] (ca_writers acc)) <=? length prev)%nat
            then default [] (ca_writers acc) ++ [Build_PerColWriter name (path_join new_dir (name +:+ ".vortex")) []]
            else default [] (ca_writers acc)) = prev ++ w' :: rest ∧ holds_first i w' (name, bs)) as (w' & -> & Hw').
  { destruct Hws as [[-> Hw]|(-> & -> & ->)].
    - rewrite length_app. cbn. rewrite (proj2 (Nat.leb_gt _ _)) by lia. by eexists.
    - rewrite Nat.leb_refl. eexists. by split. }
  rewrite list_lookup_middle by done. cbn. eexists _, _. split; [done|]. cbn.
  rewrite insert_app_r_alt, Nat.sub_diag by done. cbn. split; [done|]. split; [|done].
  destruct Hw' as [Hn' Hs']. split; [done|]. cbn.
  rewrite (take_S_r _ _ _ Hb), !fmap_app, !join_app, Hs'. cbn. by rewrite Hs.
Qed.

Lemma compact_columns_keep new_dir i n acc (prevc cols : list (string * list batch)) prev rest :
  0 < n → Forall (λ e, ∃ b, e.2 !! i = Some b ∧ column_batch n b) cols → blooms_wf (ca_blooms acc) →
  default [] (ca_writers acc) = prev ++ rest → Forall2 (holds_first (S i)) prev prevc →
  (Forall2 (holds_first i) rest cols ∨ rest = [] ∧ i = 0%nat) →
  ∃ acc', compact_columns new_dir i (replicate (Z.to_nat n) true) acc (length prev) cols = Done acc' ∧
    Forall2 (holds_first (S i)) (default [] (ca_writers acc')) (prevc ++ cols) ∧
    ca_vis acc' = ca_vis acc ∧ blooms_wf (ca_blooms acc').
Proof.
  intros Hn Hcols. revert acc prevc prev rest. induction Hcols as [|[name bs] cols (b & Hb & Hcb) _ IH];
    intros acc prevc prev rest Hwf Hws Hprev Hrest; cbn [compact_columns].
  - exists acc. split; [done|]. rewrite Hws. split_and!; [|done|done]. apply Forall2_app; [done|].
    destruct Hrest as [Hr|[-> _]]; [by apply Forall2_nil_inv_r in Hr as ->|constructor].
  - assert (∃ w rest', (rest = w :: rest' ∧ holds_first i w (name, bs) ∧ Forall2 (holds_first i) rest' cols) ∨
       (rest = [] ∧ rest' = [] ∧ i = 0%nat)) as (w & rest' & Hcase).
    { destruct Hrest as [Hr|[-> ->]].
      - apply Forall2_cons_inv_r in Hr as (w & rest' & Hw & Hr & ->). exists w, rest'. by left.
      - exists (Build_PerColWriter name "" []), []. by right. }
    destruct (compact_column_keeps new_dir i n acc name bs b w prev rest' Hn Hb Hcb Hwf) as (acc1 & w1 & -> & Hw1 & Hh & Hv1 & Hb1).
    { destruct Hcase as [(-> & Hw & _)|(-> & -> & ->)]; [by left|right]. by rewrite app_nil_r in Hws. }
    cbn. destruct (IH acc1 (prevc ++ [(name, bs)]) (prev ++ [w1]) rest') as (acc2 & Hc2 & Hf2 & Hv2 & Hb2).
    + done.
    + rewrite Hw1. cbn. by rewrite <- app_assoc.
    + apply Forall2_app; [done|]. constructor; [done|constructor].
    + destruct Hcase as [(_ & _ & Hr)|(_ & -> & ->)]; [by left|by right].
    + rewrite length_app, Nat.add_1_r in Hc2. rewrite Hc2. exists acc2. split; [done|].
      rewrite <- app_assoc in Hf2. by rewrite Hv2, Hv1.
Qed.

Lemma new_vis_batch_ok cs ds : zlen cs = zlen ds → ∃ b, new_vis_batch (Arr := Arr) cs ds = Ok b.
Proof.
  intros Hl. unfold new_vis_batch. rewrite (try_new_ok _ _ (zlen cs)); [by eexists|done|].
  constructor; [apply int64_array_fits|]. constructor; [|constructor]. rewrite Hl. apply int64_array_fits.
Qed.

(** Columns of the same non-empty batch sizes. *)
Definition aligned (sizes : list Z) (col_data : list (string * list batch)) : Prop :=
  Forall (λ n, 0 < n) sizes ∧ Forall (λ e, Forall2 column_batch sizes e.2) col_data.

Lemma aligned_at sizes col_data i n : aligned sizes col_data → sizes !! i = Some n →
  0 < n ∧ Forall (λ e, ∃ b, e.2 !! i = Some b ∧ column_batch n b) col_data.
Proof.
  intros [Hp Ha] Hi. split; [rewrite Forall_forall in Hp; by eapply Hp, list_elem_of_lookup_2|].
  eapply Forall_impl; [exact Ha|]. intros e He. by apply (Forall2_lookup_l _ _ _ _ _ He).
Qed.

Lemma compact_batch_keeps new_dir sizes col_data acc i n : aligned sizes col_data → col_data ≠ [] →
  sizes !! i = Some n → blooms_wf (ca_blooms acc) →
  (Forall2 (holds_first i) (default [] (ca_writers acc)) col_data ∨ default [] (ca_writers acc) = [] ∧ i = 0%nat) →
  ∃ acc', compact_batch new_dir [] col_data acc i = Done (Ok acc') ∧
    Forall2 (holds_first (S i)) (default [] (ca_writers acc')) col_data ∧ blooms_wf (ca_blooms acc').
Proof.
  intros Ha Hne Hi Hwf Hws. destruct (aligned_at _ _ _ _ Ha Hi) as [Hn Hcols]. unfold compact_batch.
  assert (rows_at col_data i = n) as ->.
  { destruct col_data as [|[nm bs] col_data]; [done|]. cbn. apply Forall_cons in Hcols as [(b & Hb & _ & Hr & _) _].
    cbn in Hb. by rewrite Hb. }
  rewrite (proj2 (Z.eqb_neq n 0)) by lia. change ([] !! i) with (@None batch). rewrite alive_mask_none. cbn.
  rewrite forallb_negb_true by lia.
  destruct (new_vis_batch_ok ((λ _, 0) <$> kept_rows (replicate (Z.to_nat n) true))
              ((λ _, as_i64 NOT_DELETED) <$> kept_rows (replicate (Z.to_nat n) true))) as [vb ->].
  { unfold zlen. by rewrite !length_fmap. }
  set (acc1 := {| ca_vis := ca_vis acc ++ [vb]; ca_writers := ca_writers acc; ca_blooms := ca_blooms acc |}).
  destruct (compact_columns_keep new_dir i n acc1 [] col_data [] (default [] (ca_writers acc))) as (acc2 & Hc & Hf & _ & Hb);
    try done.
  cbn in Hc. rewrite Hc. cbn. by exists acc2.
Qed.

Lemma compact_batches_keep new_dir sizes col_data acc k : aligned sizes col_data → col_data ≠ [] → (k ≤ length sizes)%nat →
  blooms_wf (ca_blooms acc) → default [] (ca_writers acc) = [] → (0 < k)%nat →
  ∃ acc', compact_batches new_dir [] col_data acc (seq 0 k) = Done (Ok acc') ∧
    Forall2 (holds_first k) (default [] (ca_writers acc')) col_data.
Proof.
  intros Ha Hne Hk Hwf Hws Hpos.
  assert (∀ j i acc, (i + j ≤ length sizes)%nat → blooms_wf (ca_blooms acc) →
    (Forall2 (holds_first i) (default [] (ca_writers acc)) col_data ∨ default [] (ca_writers acc) = [] ∧ i = 0%nat) →
    (0 < j)%nat → ∃ acc', compact_batches new_dir [] col_data acc (seq i j) = Done (Ok acc') ∧
      Forall2 (holds_first (i + j)) (default [] (ca_writers acc')) col_data) as Hgen; [|by apply (Hgen k 0%nat acc); auto].
  clear acc k Hk Hwf Hws Hpos. induction j as [|j IH]; intros i acc Hl Hwf Hws Hpos; [lia|]. cbn.
  destruct (lookup_lt_is_Some_2 sizes i) as [n Hi]; [lia|].
  destruct (compact_batch_keeps new_dir sizes col_data acc i n Ha Hne Hi Hwf Hws) as (acc1 & -> & Hf1 & Hwf1). cbn.
  destruct (decide (j = 0%nat)) as [->|Hj].
  - exists acc1. split; [done|]. by rewrite Nat.add_1_r.
  - destruct (IH (S i) acc1) as (acc2 & -> & Hf2); [lia|done|by left|lia|]. exists acc2. split; [done|].
    by rewrite Nat.add_succ_r.
Qed.
End kept_rows.

Section kept_theorems.
Context `{HashIter} `{BloomEnv} `{CodecLaws SbbFilter}.
Context `{ArrowLaws Arr} `{!Batches Arr} `{!BatchesLaws Arr}.
Abbreviation batch := (RecordBatch Arr).

Lemma max_batches_aligned sizes (col_data : list (string * list batch)) : aligned sizes col_data → col_data ≠ [] →
  max_batches col_data = length sizes.
Proof.
  intros [_ Ha] Hne. unfold max_batches. destruct Ha as [|e l He Hl]; [done|]. clear Hne. cbn.
  rewrite <- (Forall2_length _ _ _ He). induction Hl as [|e' l He' _ IH]; cbn; [lia|].
  rewrite <- (Forall2_length _ _ _ He'). lia.
Qed.

(** Without visibility data a rewrite keeps every row.  From columns with
    the same non-empty batches it returns, and each column's writer holds the
    values of the old column in order, the rows that the metadata counts as
    deleted included. *)
Theorem compact_keeps_all_rows new_dir new_id alive sizes (col_data : list (string * list batch)) :
  aligned sizes col_data → col_data ≠ [] → sizes ≠ [] →
  ∃ acc ws, compact_batches new_dir [] col_data (initial_acc new_id alive col_data) (seq 0 (max_batches col_data)) = Done (Ok acc) ∧
    ca_writers acc = Some ws ∧
    Forall2 (λ w e, pc_col_name w = e.1 ∧ mjoin (first_slots <$> pc_batches w) = mjoin (first_slots <$> e.2)) ws col_data.
Proof.
  intros Ha Hne Hs. rewrite (max_batches_aligned _ _ Ha Hne).
  destruct (compact_batches_keep new_dir sizes col_data (initial_acc new_id alive col_data) (length sizes))
    as (acc & Hc & Hf); [done|done|lia| |done|destruct sizes; [done|cbn; lia]|].
  { apply Forall_fmap, Forall_true. intros e. split; apply map_Forall_empty. }
  rewrite Hc. destruct (ca_writers acc) as [ws|] eqn:Ew.
  - exists acc, ws. split_and!; [done|done|]. destruct Ha as [_ Ha]. cbn in Hf. clear -Hf Ha. induction Hf as [|w e ws l [Hn Hv] _ IH]; constructor.
    + split; [done|]. apply Forall_cons in Ha as [He _]. by rewrite take_ge in Hv by (by rewrite (Forall2_length _ _ _ He)).
    + apply IH. by apply Forall_cons in Ha as [_ ?].
  - cbn in Hf. apply Forall2_nil_inv_l in Hf. done.
Qed.

(** A visibility file in the column format reads back as batches of one
    column, and the rewrite then takes its second column: it panics at the first
    such batch that has rows. *)
Theorem one_column_visibility_panics new_dir old_vis (col_data : list (string * list batch)) acc i vb c :
  old_vis !! i = Some vb → rb_columns vb = [c] → length (rb_fields vb) = 1%nat → 0 < rows_at col_data i →
  compact_batch new_dir old_vis col_data acc i = Panic.
Proof.
  intros Hvb Hc Hf Hn. unfold compact_batch. rewrite (proj2 (Z.eqb_neq _ 0)) by lia. rewrite Hvb.
  assert (alive_mask (Some vb) (rows_at col_data i) = Done (replicate (Z.to_nat (rows_at col_data i)) true)) as ->.
  { assert (∀ j, row_alive (Some vb) j = Done true) as Hj.
    { intros j. unfold row_alive. by destruct (rb_fields vb) as [|f [|]]. }
    unfold alive_mask. rewrite <- (length_seqZ 0 (rows_at col_data i)). induction (seqZ 0 _) as [|j l IH]; [done|].
    cbn [mapM]. rewrite Hj. cbn. by rewrite IH. }
  cbn. rewrite forallb_negb_true by lia. unfold column_at. by rewrite Hc.
Qed.

(** ** Several segments *)

Lemma column_mask_length i (s : SegmentReaders (Arr := Arr)) mask : column_mask i s = Done mask →
  length mask = Z.to_nat (rows_at (sr_cols s) i).
Proof.
  unfold column_mask. destruct (match sr_vis s !! i with Some _ => _ | None => _ end) as [v|]; [|done]. cbn.
  intros Hm%mapM_Done%Forall2_length. by rewrite length_seqZ in Hm.
Qed.

(** The rows of all segments at a batch index. *)
Definition total_rows_at (i : nat) (segs : list (SegmentReaders (Arr := Arr))) : nat :=
  sum_list ((λ s, Z.to_nat (rows_at (sr_cols s) i)) <$> segs).

Lemma column_masks_length i (segs : list (SegmentReaders (Arr := Arr))) masks : mapM (column_mask i) segs = Done masks →
  length (mjoin masks) = total_rows_at i segs.
Proof.
  intros Hm%mapM_Done. induction Hm as [|s m segs masks Hs _ IH]; [done|].
  change (mjoin (m :: masks)) with (m ++ mjoin masks). by rewrite length_app, IH, (column_mask_length _ _ _ Hs).
Qed.

(** Every batch of every segment is shorter than those of all segments together. *)
Definition overlapping (i : nat) (segs : list (SegmentReaders (Arr := Arr))) : Prop :=
  ∀ s e b, s ∈ segs → e ∈ sr_cols s → e.2 !! i = Some b →
    batch_wf b ∧ rb_columns b ≠ [] ∧ rb_rows b < Z.of_nat (total_rows_at i segs).

Lemma filtered_batches_empty i mask name (segs : list (SegmentReaders (Arr := Arr))) :
  overlapping i segs → length mask = total_rows_at i segs → filtered_batches i mask name segs = [].
Proof.
  intros Ho Hm. unfold filtered_batches.
  enough (∀ s, s ∈ segs → (e ← list_find (λ e, e.1 = name) (sr_cols s); b ← e.2.2 !! i;
    if 0 <? rb_rows b then match filter_record_batch b mask with
                           | Ok f => if 0 <? rb_rows f then Some f else None
                           | Err _ => None end else None) = None) as Hnone.
  { clear Ho Hm. induction segs as [|s segs IH]; [done|]. cbn. rewrite Hnone by (by left).
    apply IH. intros s' Hs'. apply Hnone. by right. }
  intros s Hs.
  destruct (list_find _ (sr_cols s)) as [[k e]|] eqn:Ef; [|done]. cbn.
  destruct (e.2 !! i) as [b|] eqn:Eb; [|done]. cbn. destruct (0 <? rb_rows b); [|done].
  apply list_find_Some in Ef as (Hk%list_elem_of_lookup_2 & _).
  destruct (Ho s e b Hs Hk Eb) as (Hwf & Hne & Hlt).
  destruct (filter_record_batch_long b mask Hwf Hne) as [err ->]; [unfold zlen; lia|done].
Qed.

Lemma merge_column_batches_empty idxs names (segs : list (SegmentReaders (Arr := Arr))) cols :
  (∀ i, i ∈ idxs → overlapping i segs) → merge_column_batches idxs names segs = Done cols →
  cols = (λ _, []) <$> names.
Proof.
  intros Ho. revert cols. induction idxs as [|i idxs IH]; intros cols; cbn; [by intros [= <-]|].
  destruct (mapM (column_mask i) segs) as [masks|] eqn:Em; cbn; [|done].
  destruct (merge_column_batches idxs names segs) as [rest|] eqn:Er; cbn; [|done].
  rewrite (IH (λ j Hj, Ho j (list_elem_of_further _ _ _ Hj)) rest eq_refl). destruct (forallb negb (mjoin masks)); intros [= <-]; [done|].
  apply column_masks_length in Em. clear IH Er rest. induction names as [|n names IHn]; [done|]. cbn. f_equal; [|done].
  rewrite (filtered_batches_empty i); [done|apply Ho; by left|done].
Qed.
End kept_theorems.

Section merge_theorems.
Context `{HashIter} `{BloomEnv} `{!Codec SbbFilter} `{!Codec GranuleBloomFilterManager}.
Context `{ArrowLaws Arr} `{!Batches Arr} `{!BatchesLaws Arr} `{!VortexLib Arr} `{!Codec ColumnEncoding}.

Lemma check_segments_disk data_dir segs d u d' : io_returns (check_segments data_dir segs) d u d' → d' = d.
Proof.
  revert d. induction segs as [|[id m] segs IH]; intros d; cbn; [by intros [_ ->]%io_returns_ret|].
  intros (l & d1 & Hl & Hr)%io_returns_bind. unfold layout_of in Hl.
  destruct (SegmentLayout_new data_dir id); [apply io_returns_ret in Hl as [_ ->]|done].
  apply io_returns_bind in Hr as (b & d2 & [-> ->]%io_returns_gets & Hr).
  destruct (negb _); [done|]. by apply IH.
Qed.

(** A merge of two or more segments writes no column data.  The flags of all
    segments are applied to each segment's batch, which is shorter, and the
    filter's error is ignored; the new metadata still counts the alive rows of
    all segments. *)
Theorem multiway_merge_drops_columns f64_text uuid now data_dir ids metas config fs
    (readers : list (SegmentReaders (Arr := Arr))) m stats d' :
  (2 ≤ length ids)%nat →
  io_returns (read_segments data_dir (zip ids metas)) (new_disk fs) readers (new_disk fs) →
  (∀ i, overlapping i readers) →
  io_returns (multiway_merge (Arr := Arr) f64_text uuid now data_dir ids metas config) (new_disk fs) (m, stats) d' →
  rows_written stats = 0 ∧ row_count m = sum_u64 (alive_row_count <$> (zip ids metas).*2).
Proof.
  intros Hids Hread Ho. unfold multiway_merge. destruct ids as [|id1 [|id2 ids]]; [cbn in Hids; lia..|].
  intros (u & d1 & ->%check_segments_disk & Hr)%io_returns_bind.
  destruct metas as [|first metas]; [done|].
  apply io_returns_bind in Hr as (rs & d2 & Hrs & Hr). unfold io_returns in Hrs, Hread. rewrite Hread in Hrs.
  injection Hrs as <- <-. destruct (_ =? 0)%nat; [done|].
  apply io_returns_bind in Hr as (l & d3 & _ & Hr). apply io_returns_bind in Hr as (u1 & d4 & _ & Hr).
  apply io_returns_bind in Hr as (vis & d5 & _ & Hr). apply io_returns_bind in Hr as (u2 & d6 & _ & Hr).
  apply io_returns_bind in Hr as (cols & d7 & Hc & Hr). apply io_returns_outcome in Hc as [Hc _].
  destruct (merge_column_batches _ _ readers) as [cs|] eqn:Em; [|done]. injection Hc as ->.
  apply merge_column_batches_empty in Em as ->; [|intros; apply Ho].
  apply io_returns_bind in Hr as (u3 & d8 & _ & Hr). apply io_returns_bind in Hr as (u4 & d9 & _ & Hr).
  apply io_returns_bind in Hr as (n & d10 & _ & Hr). apply io_returns_ret in Hr as [[= -> ->] _]. split; [|done].
  unfold rows_written. replace (mjoin ((λ _ : string, []) <$> (cd_name <$> columns first))) with (@nil (RecordBatch Arr)); [done|].
  induction (cd_name <$> columns first) as [|x xs IH]; [done|]. exact IH.
Qed.
End merge_theorems.

(** * Concrete runs *)

Section merge_witnesses.
#[local] Existing Instance sample_env.
#[local] Existing Instance sample_encoding_codec.
#[local] Instance demo_sbb_codec : Codec SbbFilter := countable_codec SbbFilter.
#[local] Instance demo_sbb_laws : CodecLaws SbbFilter := countable_codec_laws SbbFilter.
#[local] Instance demo_manager_codec : Codec GranuleBloomFilterManager := countable_codec GranuleBloomFilterManager.

Definition demo_text (_ : f64) : string := "0.05".
Definition demo_pdt_config : PdtMergeConfig := pdt_merge_config_default 1.
Definition demo_old (id : string) (rows alive : Z) : SegmentMeta :=
  set_del_stats (SegmentMeta_new 7 id "t" [ColumnDef_new "v" Meta.Int64]) rows alive (f64_of_Z 0).

(** Two rows, the second one deleted by transaction 9, in an IPC file. *)
Definition demo_ipc_vis : RecordBatch ListArray :=
  {| rb_fields := visibility_schema; rb_columns := [int_array [Some 5; Some 5]; int_array [Some (-1); Some 9]]; rb_rows := 2 |}.
Definition demo_ipc_lib : VortexLib ListArray := {|
  Vx := ListArray;
  vx_from_arrow := @vx_from_arrow _ ListArray_vortex; vx_compress := @vx_compress _ ListArray_vortex;
  vx_chunked := @vx_chunked _ ListArray_vortex; vx_write := @vx_write _ ListArray_vortex;
  vx_read := @vx_read _ ListArray_vortex; vx_to_arrow := @vx_to_arrow _ ListArray_vortex;
  ipc_file := λ _, Ok (visibility_schema, [Ok demo_ipc_vis]);
  mem_size := @mem_size _ ListArray_vortex
|}.
Definition demo_fs : gmap string bytes :=
  {[ "d/segments/s/v.vortex" := VTXF ++ [1; 10; 1; 20]; "d/segments/s/__vis.vortex" := [0] ]}.
Definition demo_values (zs : list Z) : RecordBatch ListArray :=
  {| rb_fields := [{| f_name := "value"; f_type := Int64; f_nullable := true |}];
     rb_columns := [int_array (Some <$> zs)]; rb_rows := zlen zs |}.

Lemma compact_segment_loses_rows_witness :
  ∃ m stats, io_returns (compact_segment (VortexLib0 := demo_ipc_lib) demo_text "u" 1 "d" "s" (demo_old "s" 2 1) demo_pdt_config)
    (new_disk demo_fs) (m, stats) (new_disk demo_fs) ∧ row_count m = 1 ∧ rows_written stats = 1 ∧ columns m = [ColumnDef_new "v" Meta.Int64].
Proof.
  apply (compact_segment_loses_rows (VortexLib0 := demo_ipc_lib) demo_text "u" 1 "d" "s" (demo_old "s" 2 1) demo_pdt_config demo_fs
    {| seg_dir := "d/segments/s" |} {| seg_dir := "d/segments/s_cu" |} [demo_ipc_vis] [("v"%string, [demo_values [10; 20]])]);
    [reflexivity|reflexivity|by vm_compute|reflexivity|vm_compute; reflexivity|vm_compute; reflexivity|done|].
  intros i Hi. assert (i = 0%nat) as -> by (cbn in Hi; lia). exists demo_ipc_vis. split; [done|].
  split_and!; [done| |by vm_compute]. repeat constructor; cbn; try done; intros _; rewrite slots_la; cbn; set_solver.
Defined.

Lemma compact_keeps_all_rows_witness :
  ∃ acc ws, compact_batches "d/segments/s_cu" [] [("v"%string, [demo_values [10; 20]; demo_values [30]])]
      (initial_acc "s_cu" 1 [("v"%string, [demo_values [10; 20]; demo_values [30]])]) (seq 0 2) = Done (Ok acc) ∧
    ca_writers acc = Some ws ∧
    Forall2 (λ w e, pc_col_name w = e.1 ∧ mjoin (first_slots <$> pc_batches w) = mjoin (first_slots <$> e.2)) ws
      [("v"%string, [demo_values [10; 20]; demo_values [30]])].
Proof.
  apply (compact_keeps_all_rows (Arr := ListArray) "d/segments/s_cu" "s_cu" 1 [2; 1]
    [("v"%string, [demo_values [10; 20]; demo_values [30]])]); [|done|done].
  assert (∀ zs, column_batch (zlen zs) (demo_values zs)) as Hc.
  { intros zs. split_and!; [|done|done]. constructor; [|constructor]. split_and!; [|done|done]. cbn. unfold zlen. by rewrite !length_fmap. }
  split; [by repeat constructor|]. constructor; [|constructor]. constructor; [apply (Hc [10; 20])|]. constructor; [apply (Hc [30])|constructor].
Defined.

Lemma one_column_visibility_panics_witness :
  compact_batch "d/segments/s_cu" [demo_values [5; 5]] [("v"%string, [demo_values [10; 20]])]
    (initial_acc "s_cu" 1 [("v"%string, [demo_values [10; 20]])]) 0 = Panic.
Proof.
  by apply (one_column_visibility_panics (Arr := ListArray) "d/segments/s_cu" [demo_values [5; 5]] [("v"%string, [demo_values [10; 20]])] _ 0
    (demo_values [5; 5]) (int_array [Some 5; Some 5])).
Defined.

Definition demo_two_fs : gmap string bytes :=
  {[ "d/segments/a/v.vortex" := VTXF ++ [1; 10; 1; 20]; "d/segments/b/v.vortex" := VTXF ++ [1; 30] ]}.
Definition demo_readers : list (SegmentReaders (Arr := ListArray)) :=
  [ {| sr_vis := []; sr_cols := [("v"%string, [demo_values [10; 20]])] |};
    {| sr_vis := []; sr_cols := [("v"%string, [demo_values [30]])] |} ].
Definition demo_merge : io RockDuckError (SegmentMeta * MergeStats) :=
  multiway_merge (Arr := ListArray) demo_text "u" 1 "d" ["a"; "b"] [demo_old "a" 2 1; demo_old "b" 1 1] demo_pdt_config.

Lemma multiway_merge_drops_columns_witness :
  ∃ m stats d', io_returns demo_merge (new_disk demo_two_fs) (m, stats) d' ∧ rows_written stats = 0 ∧ row_count m = 2 ∧
    disk_files d' !! "d/segments/merge_a_u/v.vortex" = None.
Proof.
  destruct (demo_merge (new_disk demo_two_fs)) as [d' [[[m stats]|]|]] eqn:E; [|by vm_compute in E|by vm_compute in E].
  exists m, stats, d'. split; [done|].
  destruct (multiway_merge_drops_columns (Arr := ListArray) demo_text "u" 1 "d" ["a"; "b"] [demo_old "a" 2 1; demo_old "b" 1 1]
    demo_pdt_config demo_two_fs demo_readers m stats d') as [H1 H2]; [done|vm_compute; reflexivity| |exact E|].
  - intros i s e b Hs He Hb.
    assert (∀ zs, batch_wf (demo_values zs)) as Hwf.
    { intros zs. constructor; [|constructor]. split_and!; [|done|done]. cbn. unfold zlen. by rewrite !length_fmap. }
    assert (total_rows_at 0 demo_readers = 3%nat) as Ht by (vm_compute; reflexivity).
    assert (i = 0%nat ∧ (b = demo_values [10; 20] ∨ b = demo_values [30])) as [-> Hv].
    { apply elem_of_cons in Hs as [->|Hs]; [|apply list_elem_of_singleton in Hs as ->];
        apply list_elem_of_singleton in He as ->; destruct i as [|i]; try discriminate Hb; injection Hb as <-; auto. }
    rewrite Ht. destruct Hv as [->| ->]; (split_and!; [apply Hwf|discriminate|reflexivity]).
  - split; [done|]. split; [rewrite H2; vm_compute; reflexivity|].
    vm_compute in E. by injection E as <- _ _.
Defined.
End merge_witnesses.
