(* ===== verification/TimeTravel.v ===== *)
(** Historical reads (query/time_travel_impl.rs) with the cell values of
    read/row_value.rs and read/point_get.rs: the version index that is built from
    a segment's files, the read of one row as of a transaction, and the scan of
    a table as of a transaction. *)

From stdpp Require Import base gmap strings list pretty.
From S2P Require Import Prelude Kv Visibility Arrow ShadowColumns PkIndex Disk Vortex SegMeta PdtMerge.

Local Open Scope Z_scope.
Local Open Scope rd_scope.

(** * Cell values *)

Inductive RowValue := RNull | REmpty | RValue (v : bytes).
#[export] Instance RowValue_eq_dec : EqDecision RowValue.
Proof. solve_decision. Defined.

Definition row_as_bytes (v : RowValue) : option bytes := match v with RValue b => Some b | _ => None end.
Definition row_is_null (v : RowValue) : bool := match v with RNull => true | _ => false end.
Definition to_storage_bytes (v : RowValue) : bytes := match v with RValue b => b | _ => [] end.

(** A sequence: an empty one is told from a null. *)
Definition row_of_bytes (b : bytes) : RowValue := match b with [] => REmpty | _ => RValue b end.

(** The bytes of a fixed-width integer type. *)
Definition byte_width (t : DataType) : option nat :=
  match t with
  | Int8 | UInt8 => Some 1%nat
  | Int16 | UInt16 => Some 2%nat
  | Int32 | UInt32 => Some 4%nat
  | Int64 | UInt64 => Some 8%nat
  | _ => None
  end.

(** The type switch; a type it does not know reads as null. *)
Definition extract_row_bytes {Arr} `{Arrow Arr} (col : Arr) (row_idx : Z) : RowValue :=
  let known := match arr_type col with
               | Int8 | Int16 | Int32 | Int64 | UInt8 | UInt16 | UInt32 | UInt64
               | Float32 | Float64 | Utf8 | LargeUtf8 | Binary | LargeBinary | Boolean => true
               | _ => false
               end in
  if negb known then RNull else
  if arr_is_null col row_idx then RNull else
  match arr_type col, arr_value col row_idx with
  | Float32, VFloat bits => RValue (to_le_bytes 4 bits)
  | Float64, VFloat bits => RValue (to_le_bytes 8 bits)
  | (Utf8 | LargeUtf8), VStr s => row_of_bytes (as_bytes s)
  | (Binary | LargeBinary), VBin b => row_of_bytes b
  | Boolean, VBool b => RValue [if b then 1 else 0]
  | t, VInt z => match byte_width t with Some w => RValue (to_le_bytes w z) | None => RNull end
  | _, _ => RNull
  end.

(** * Keys of the version index *)

Definition VERSION_IDX_PREFIX : bytes := as_bytes "version_idx:".
Definition CF_VERSIONS : string := "versions".

Record VersionEntry := {
  ve_txn_id : Z;
  ve_value : bytes;
  ve_created_txn : Z;
  ve_deleted_txn : option Z
}.

Definition hex_digit (d : Z) : Z := if d <? 10 then 48 + d else 87 + d.
(** [{:0wx}] of a number of at most [w] digits *)
Fixpoint hex_padded (w : nat) (z : Z) : bytes :=
  match w with
  | O => []
  | S w' => hex_padded w' (z `div` 16) ++ [hex_digit (z `mod` 16)]
  end.

Definition build_row_prefix (table id : string) (row_offset : Z) : bytes :=
  VERSION_IDX_PREFIX ++ as_bytes table ++ [colon] ++ as_bytes id ++ [colon] ++ hex_padded 10 row_offset ++ [colon].
Definition build_version_key (table id : string) (row_offset txn_id : Z) : bytes :=
  VERSION_IDX_PREFIX ++ as_bytes table ++ [colon] ++ as_bytes id ++ [colon] ++ hex_padded 10 row_offset ++ [colon]
    ++ hex_padded 16 txn_id.

(** [u64::from_str_radix(.., 16)] *)
Definition hex_value (b : Z) : option Z :=
  if in_range 48 57 b then Some (b - 48) else
  if in_range 97 102 b then Some (b - 87) else
  if in_range 65 70 b then Some (b - 55) else None.
Fixpoint hex_digits (acc : Z) (bs : bytes) : option Z :=
  match bs with
  | [] => Some acc
  | b :: bs' =>
      d ← hex_value b;
      if u64_max <? 16 * acc + d then None else hex_digits (16 * acc + d) bs'
  end.
Definition from_str_radix16 (s : string) : option Z :=
  match as_bytes s with
  | [] => None
  | b :: bs => if b =? 43 then match bs with [] => None | _ => hex_digits 0 bs end else hex_digits 0 (b :: bs)
  end.

(** What follows the last colon. *)
Fixpoint after_last_colon (bs : bytes) : option bytes :=
  match bs with
  | [] => None
  | b :: bs' => match after_last_colon bs' with
                | Some r => Some r
                | None => if b =? colon then Some bs' else None
                end
  end.
Definition extract_txn_from_key (key : bytes) : option Z :=
  txn_bytes ← after_last_colon key;
  txn_str ← from_utf8 txn_bytes;
  from_str_radix16 txn_str.

(** * Historical visibility *)

Record HistoricalVisibility := { hv_created_txn : Z; hv_deleted_txn : option Z }.

Definition projection_context_from_map (target_txn : Z) (cts : gmap Z Z) : VisibilityContext :=
  VisibilityContext_historical target_txn cts.
Definition projection_context (target_txn : Z) (committed : gset Z) (cts : gmap Z Z) : VisibilityContext :=
  projection_context_from_map target_txn (filter (λ e, e.1 ∈ committed) cts).
Definition is_visible_at (v : HistoricalVisibility) (f : VisibilityManager) (c : VisibilityContext) : bool :=
  is_row_visible f (ctx_snapshot_id c) (hv_created_txn v) (hv_deleted_txn v) (ctx_active_txns c) (ctx_commit_ts_map c).

Definition segment_enumeration_error (source : string) (e : RockDuckError) : RockDuckError :=
  EInternal ("historical segment enumeration failed in " +:+ source +:+ ": " +:+ error_display e).
Definition malformed_version_index_error (source detail : string) : RockDuckError :=
  EInternal ("historical version index malformed in " +:+ source +:+ ": " +:+ detail).
Definition committed_history_unavailable_error (source : string) (e : RockDuckError) : RockDuckError :=
  EInternal ("historical commit authority unavailable in " +:+ source +:+ ": " +:+ error_display e).

(** The message of a postcard error. *)
Definition codec_text (e : CodecError) : string := match e with CEncode m => m | CDecode m => m end.

Record TimeTravelReader := {
  ttr_committed_txns : gset Z;
  ttr_commit_ts_map : gmap Z Z;
  ttr_historical_filter : VisibilityManager
}.

Inductive SegLoadResult (Arr : Type) :=
  | SegOk (bs : list (RecordBatch Arr))
  | NotVisible
  | LoadFailed (msg : string).
Arguments SegOk {Arr} bs.
Arguments NotVisible {Arr}.
Arguments LoadFailed {Arr} msg.

Record TimeTravelScanner := {
  tts_historical_filter : VisibilityManager;
  tts_target_txn : Z;
  tts_segments : list SegmentMeta;
  tts_committed_txns : gset Z;
  tts_commit_ts_map : gmap Z Z
}.

Definition CHUNK_SIZE : Z := 10000.
Definition BATCH_KV_SIZE : Z := 500.

Section time_travel.
Context `{KVEngine KV} `{!Codec (Z * Z)} `{!Codec VersionEntry} `{!Codec SegmentMeta}.
Context `{!Codec (string * Z * Z)} `{!Codec (string * Z * Z * bytes)}.
Context `{Arrow Arr} `{!Batches Arr} `{!VortexLib Arr} `{!Codec ColumnEncoding}.
Context (data_dir : string).
Abbreviation batch := (RecordBatch Arr).
(** The store and the disk. *)
Abbreviation R := (KV * Disk)%type.

Definition tt_files {A} (m : io RockDuckError A) : st R RockDuckError A := io_on snd (λ s d, (s.1, d)) m.
Definition tt_kv {A} (f : KV → KV * Result A) : st R RockDuckError A := λ s,
  let '(kv, r) := f s.1 in ((kv, s.2), Done r).
Definition tt_read {A} (f : KV → Result A) : st R RockDuckError A := λ s, (s, Done (f s.1)).

(** ** Building the index *)

(** The first pass: the rows of the columns into the chunk buffer. *)
Record ChunkState := { ck_buf : list bytes; ck_filled : Z; ck_row : Z }.

Definition chunk_put (s : ChunkState) (bs : bytes) : ChunkState :=
  let buf_idx := ck_filled s `mod` CHUNK_SIZE in
  let buf := if zlen (ck_buf s) <=? buf_idx then ck_buf s ++ [[]] else ck_buf s in
  {| ck_buf := alter (λ b, b ++ bs) (Z.to_nat buf_idx) buf; ck_filled := ck_filled s + 1; ck_row := ck_row s + 1 |}.

Definition chunk_row (total_rows : Z) (a : Arr) (s : ChunkState) (local_row : Z) : ChunkState :=
  if total_rows <=? ck_row s then s else chunk_put s (to_storage_bytes (extract_row_bytes a local_row)).
Definition chunk_batch (total_rows : Z) (s : ChunkState) (b : batch) : ChunkState :=
  match rb_columns b with
  | [] => s
  | a :: _ => foldl (chunk_row total_rows a) s (seqZ 0 (rb_rows b))
  end.

Definition open_batches (what path : string) : io RockDuckError (list batch) :=
  io_map_err (λ e, EInternal (what +:+ ": " +:+ error_display e)) (r <-! VortexReader_open path; io_ret (read_all_batches r)).

Fixpoint chunk_columns (dir : string) (total_rows : Z) (names : list string) (s : ChunkState) : io RockDuckError ChunkState :=
  match names with
  | [] => io_ret s
  | n :: names' =>
      let p := path_join dir (n +:+ ".vortex") in
      there <-! fs_exists p;
      if negb there then chunk_columns dir total_rows names' s else
      bs <-! open_batches ("open column " +:+ n) p;
      chunk_columns dir total_rows names' (foldl (chunk_batch total_rows) s bs)
  end.

(** The second pass: the entries in order. *)
Definition version_of (buf : list bytes) (global_row created deleted_raw : Z) : VersionEntry :=
  {| ve_txn_id := created;
     ve_value := default [] (buf !! Z.to_nat (global_row `mod` CHUNK_SIZE));
     ve_created_txn := created;
     ve_deleted_txn := row_deleter deleted_raw |}.

Definition flush_kv_batch (kv : KV) (entries : list (bytes * bytes)) : KV * Result unit :=
  match entries with
  | [] => (kv, Ok tt)
  | _ => kv_write_batch kv CF_VERSIONS ((λ e, KPut e.1 e.2) <$> entries)
  end.

(** [kv_batch.push(e)], flushed when it is full. *)
Definition push_entry (kv : KV) (kv_batch : list (bytes * bytes)) (e : bytes * bytes) : KV * Result (list (bytes * bytes)) :=
  let kv_batch := kv_batch ++ [e] in
  if BATCH_KV_SIZE <=? zlen kv_batch then
    match flush_kv_batch kv kv_batch with
    | (kv', Ok _) => (kv', Ok [])
    | (kv', Err er) => (kv', Err er)
    end
  else (kv, Ok kv_batch).

(** The rows of one visibility batch. *)
Fixpoint write_rows (table id : string) (buf : list bytes) (total_rows : Z) (created_arr deleted_arr : Arr) (rows : list Z)
    (kv : KV) (kv_batch : list (bytes * bytes)) (global_row : Z) : KV * Result (list (bytes * bytes) * Z) :=
  match rows with
  | [] => (kv, Ok (kv_batch, global_row))
  | local_row :: rows' =>
      if total_rows <=? global_row then (kv, Ok (kv_batch, global_row)) else
      let created := value_u64 created_arr local_row in
      let v := version_of buf global_row created (value_u64 deleted_arr local_row) in
      match encode v with
      | Err e => (kv, Err (EInternal ("serialize version entry: " +:+ codec_text e)))
      | Ok value =>
          match push_entry kv kv_batch (build_version_key table id (wrap32 global_row) created, value) with
          | (kv', Ok kv_batch') => write_rows table id buf total_rows created_arr deleted_arr rows' kv' kv_batch' (global_row + 1)
          | (kv', Err e) => (kv', Err e)
          end
      end
  end.

Definition is_int64 (a : Arr) : bool := bool_decide (arr_type a = Int64).

(** The second pass; batches of fewer than two columns are passed over. *)
Fixpoint write_versions (table id : string) (buf : list bytes) (total_rows : Z) (vis : list batch)
    (kv : KV) (kv_batch : list (bytes * bytes)) (global_row : Z) : KV * Result (list (bytes * bytes)) :=
  match vis with
  | [] => (kv, Ok kv_batch)
  | b :: vis' =>
      match vis_columns (rb_columns b) with
      | None => write_versions table id buf total_rows vis' kv kv_batch global_row
      | Some (_, c, d) =>
          if negb (is_int64 c) then (kv, Err (EInternal "__vis created_txn column is not Int64")) else
          if negb (is_int64 d) then (kv, Err (EInternal "__vis deleted_txn column is not Int64")) else
          match write_rows table id buf total_rows c d (seqZ 0 (rb_rows b)) kv kv_batch global_row with
          | (kv', Ok (kv_batch', n)) => write_versions table id buf total_rows vis' kv' kv_batch' n
          | (kv', Err e) => (kv', Err e)
          end
      end
  end.

Definition initial_chunk (total_rows : Z) : ChunkState :=
  {| ck_buf := replicate (Z.to_nat (Z.min CHUNK_SIZE total_rows)) []; ck_filled := 0; ck_row := 0 |}.

Definition build_segment_version_index (table id : string) (column_names : list string) : st R RockDuckError unit :=
  let dir := segment_dir data_dir id in
  there <-! tt_files (fs_dir_exists dir);
  if negb there then io_ret tt else
  vis_there <-! tt_files (fs_exists (path_join dir "__vis.vortex"));
  if negb vis_there then io_ret tt else
  vis <-! tt_files (open_batches "open vis.vortex" (path_join dir "__vis.vortex"));
  let total_rows := foldr (λ b n, rb_rows b + n) 0 vis in
  if bool_decide (length vis = 0%nat) then io_ret tt else
  if total_rows =? 0 then io_ret tt else
  s <-! tt_files (chunk_columns dir total_rows column_names (initial_chunk total_rows));
  tt_kv (λ kv,
    match write_versions table id (ck_buf s) total_rows vis kv [] 0 with
    | (kv', Ok kv_batch) => flush_kv_batch kv' kv_batch
    | (kv', Err e) => (kv', Err e)
    end).

(** ** Reading one row *)

Definition time_travel_reader_new (kv : KV) : Result TimeTravelReader :=
  commit_map <-? map_err (committed_history_unavailable_error "TimeTravelReader::new") (get_committed_txns kv);
  Ok {| ttr_committed_txns := dom commit_map; ttr_commit_ts_map := commit_map; ttr_historical_filter := VisibilityManager_new |}.

Definition ensure_segment_index_built (table id : string) (column_names : list string) : st R RockDuckError unit :=
  let check_prefix := VERSION_IDX_PREFIX ++ as_bytes table ++ [colon] ++ as_bytes id ++ [colon] in
  l <-! tt_read (λ kv, map_err (λ e, malformed_version_index_error "TimeTravelReader::ensure_segment_index_built" (error_display e))
                         (kv_prefix kv CF_VERSIONS check_prefix));
  match l with
  | _ :: _ => io_ret tt
  | [] => build_segment_version_index table id column_names
  end.

(** The loop over the versions of a row. *)
Fixpoint best_version (r : TimeTravelReader) (id : string) (target_txn : Z) (l : list (bytes * bytes))
    (best : option (Z * VersionEntry)) : Result (option (Z * VersionEntry)) :=
  match l with
  | [] => Ok best
  | (key, value) :: l' =>
      match extract_txn_from_key key with
      | None => Err (malformed_version_index_error "TimeTravelReader::as_of_read" ("invalid version-index key for segment " +:+ id))
      | Some index_txn_id =>
          if target_txn <? index_txn_id then best_version r id target_txn l' best else
          version <-? map_err (λ e, malformed_version_index_error "TimeTravelReader::as_of_read"
                                 ("deserialize version entry for segment " +:+ id +:+ ": " +:+ codec_text e)) (decode value);
          let context := projection_context target_txn (ttr_committed_txns r) (ttr_commit_ts_map r) in
          if is_visible_at {| hv_created_txn := ve_created_txn version; hv_deleted_txn := ve_deleted_txn version |}
               (ttr_historical_filter r) context
          then best_version r id target_txn l'
                 (match best with
                  | Some (cur, _) => if index_txn_id <=? cur then best else Some (index_txn_id, version)
                  | None => Some (index_txn_id, version)
                  end)
          else best_version r id target_txn l' best
      end
  end.

Definition as_of_read (r : TimeTravelReader) (table : string) (pk : bytes) (target_txn : Z) : st R RockDuckError (option bytes) :=
  entry <-! tt_read (λ kv, get_pk_index_by_pk kv pk);
  match entry with
  | None => io_ret None
  | Some (id, _, row_offset) =>
      m <-! tt_read (λ kv, get_segment_meta kv id);
      match m with
      | None => io_throw (malformed_version_index_error "TimeTravelReader::as_of_read" ("missing segment metadata for " +:+ id))
      | Some meta =>
          _ <-! ensure_segment_index_built table id (cd_name <$> columns meta);
          l <-! tt_read (λ kv, kv_prefix kv CF_VERSIONS (build_row_prefix table id row_offset));
          best <-! io_lift (best_version r id target_txn l None);
          io_ret ((λ b, ve_value b.2) <$> best)
      end
  end.

(** ** Scanning a table *)

Definition tt_collect_segments (kv : KV) (table : string) (target_txn : Z) : Result (list SegmentMeta) :=
  metas <-? map_err (committed_history_unavailable_error "TimeTravelScanner::new") (list_segment_metas kv);
  Ok (filter (λ m, table_id m = table ∧ created_txn m ≤ target_txn) metas).

Definition time_travel_scanner_new (kv : KV) (table : string) (target_txn : Z) : Result TimeTravelScanner :=
  segments <-? tt_collect_segments kv table target_txn;
  commit_map <-? map_err (committed_history_unavailable_error "TimeTravelScanner::new") (get_committed_txns kv);
  Ok {| tts_historical_filter := VisibilityManager_new; tts_target_txn := target_txn; tts_segments := segments;
        tts_committed_txns := dom (filter (λ e, e.2 ≤ target_txn) commit_map); tts_commit_ts_map := commit_map |}.

(** The column files of a segment, or the text of the first that does not open. *)
Fixpoint open_columns (dir : string) (names : list string) : io RockDuckError (result string (list (list batch))) :=
  match names with
  | [] => io_ret (Ok [])
  | n :: names' =>
      let p := path_join dir (n +:+ ".vortex") in
      r <-! io_try (VortexReader_open p);
      match r with
      | Err e => io_ret (Err ("open column batch " +:+ p +:+ ": " +:+ error_display e))
      | Ok rd =>
          rest <-! open_columns dir names';
          io_ret (x <-? rest; Ok (read_all_batches rd :: x))
      end
  end.
Fixpoint present_columns (dir : string) (names : list string) : io RockDuckError (list string) :=
  match names with
  | [] => io_ret []
  | n :: names' =>
      there <-! fs_exists (path_join dir (n +:+ ".vortex"));
      rest <-! present_columns dir names';
      io_ret (if there : bool then n :: rest else rest)
  end.

(** The flags of one batch. *)
Definition historical_mask (sc : TimeTravelScanner) (c d : Arr) (n : Z) : list bool :=
  let cts := filter (λ e : Z * Z, e.2 ≤ tts_target_txn sc) (tts_commit_ts_map sc) in
  let context := projection_context_from_map (tts_target_txn sc) cts in
  (λ i, is_visible_at {| hv_created_txn := value_u64 c i; hv_deleted_txn := row_deleter (value_u64 d i) |}
          (tts_historical_filter sc) context) <$> seqZ 0 n.

(** One round of the loop over the batch indices; [Ok None] adds nothing. *)
Definition load_batch (sc : TimeTravelScanner) (id : string) (cols : list (list batch)) (vis : list batch) (batch_idx : nat) :
    outcome (result string (option batch)) :=
  cfs ← mapM (λ b : batch, match rb_columns b, rb_fields b with c :: _, f :: _ => Done (c, f) | _, _ => Panic end)
          (omap (λ bs : list batch, bs !! batch_idx) cols);
  match cfs with
  | [] => mret (Ok None)
  | (first, _) :: _ =>
      match vis !! batch_idx with
      | None => mret (Ok None)
      | Some vb =>
          if (rb_rows vb =? 0) || (arr_len first =? 0) then mret (Ok None) else
          match vis_columns (rb_columns vb) with
          | None => mret (Ok None)
          | Some (_, c, d) =>
              let at_ := " for segment " +:+ id +:+ " batch " +:+ pretty batch_idx in
              if negb (is_int64 c) then mret (Err ("visibility created_txn column has unexpected type" +:+ at_)) else
              if negb (is_int64 d) then mret (Err ("visibility deleted_txn column has unexpected type" +:+ at_)) else
              let mask := historical_mask sc c d (Z.min (rb_rows vb) (arr_len first)) in
              mret (match try_new cfs.*2 cfs.*1 with
                    | Err e => Err ("build historical record batch" +:+ at_ +:+ ": " +:+ e)
                    | Ok full =>
                        match filter_record_batch full mask with
                        | Ok f => Ok (if 0 <? rb_rows f then Some f else None)
                        | Err e => Err ("filter historical record batch" +:+ at_ +:+ ": " +:+ e)
                        end
                    end)
          end
      end
  end.

Fixpoint load_segment_batches (sc : TimeTravelScanner) (id : string) (cols : list (list batch)) (vis : list batch) (idxs : list nat) :
    outcome (result string (list batch)) :=
  match idxs with
  | [] => mret (Ok [])
  | i :: idxs' =>
      r ← load_batch sc id cols vis i;
      match r with
      | Err e => mret (Err e)
      | Ok o => rest ← load_segment_batches sc id cols vis idxs'; mret (x <-? rest; Ok (option_list o ++ x))
      end
  end.

Definition min_length (cols : list (list batch)) : nat :=
  match cols with [] => 0%nat | c :: cols' => foldl (λ n c, n `min` length c)%nat (length c) cols' end.

Definition load_segment_at_txn (sc : TimeTravelScanner) (meta : SegmentMeta) : io RockDuckError (SegLoadResult Arr) :=
  let dir := segment_dir data_dir (seg_id meta) in
  there <-! fs_dir_exists dir;
  if negb there then io_ret NotVisible else
  names <-! present_columns dir (cd_name <$> columns meta);
  if bool_decide (length names = 0%nat) then io_ret NotVisible else
  cols <-! open_columns dir names;
  match cols with
  | Err e => io_ret (LoadFailed e)
  | Ok cols =>
      vis_there <-! fs_exists (path_join dir "__vis.vortex");
      if negb vis_there then io_ret NotVisible else
      vis <-! io_try (VortexReader_open (path_join dir "__vis.vortex"));
      match vis with
      | Err e => io_ret (LoadFailed ("open visibility reader for " +:+ seg_id meta +:+ ": " +:+ error_display e))
      | Ok rd =>
          if bool_decide (length (read_all_batches rd) = 0%nat) then io_ret NotVisible else
          if (min_length cols =? 0)%nat then io_ret NotVisible else
          out <-! io_outcome (r ← load_segment_batches sc (seg_id meta) cols (read_all_batches rd) (seq 0 (min_length cols)); mret (Ok r));
          io_ret (match out with
                  | Err e => LoadFailed e
                  | Ok [] => NotVisible
                  | Ok bs => SegOk bs
                  end)
      end
  end.

Fixpoint scan_segments (sc : TimeTravelScanner) (metas : list SegmentMeta) : io RockDuckError (list batch) :=
  match metas with
  | [] => io_ret []
  | m :: metas' =>
      r <-! load_segment_at_txn sc m;
      rest <-! scan_segments sc metas';
      io_ret (match r with SegOk bs => filter (λ b, 0 < rb_rows b) bs | _ => [] end ++ rest)
  end.
Definition tt_scan (sc : TimeTravelScanner) : io RockDuckError (list batch) := scan_segments sc (tts_segments sc).
End time_travel.

(** * Lemmas *)

(** ** Keys *)

Lemma hex_digits_app acc xs ys : hex_digits acc (xs ++ ys) = hex_digits acc xs ≫= λ a, hex_digits a ys.
Proof.
  revert acc. induction xs as [|b xs IH]; intros acc; cbn [hex_digits app]; [done|].
  destruct (hex_value b) as [d|]; cbn; [|done]. destruct (u64_max <? 16 * acc + d); cbn; [done|]. apply IH.
Qed.

Lemma hex_digit_value d : 0 ≤ d < 16 → hex_value (hex_digit d) = Some d.
Proof.
  intros Hd. unfold hex_value, hex_digit, in_range.
  destruct (d <? 10) eqn:?; repeat case_match; try (f_equal; lia); lia.
Qed.

Lemma hex_padded_chars w z : Forall (λ b, 48 ≤ b < 58 ∨ 97 ≤ b < 103) (hex_padded w z).
Proof.
  revert z. induction w as [|w IH]; intros z; cbn; [constructor|]. apply Forall_app. split; [apply IH|].
  constructor; [|constructor]. unfold hex_digit. pose proof (Z.mod_pos_bound z 16). case_match; lia.
Qed.

Lemma hex_padded_length w z : length (hex_padded w z) = w.
Proof. revert z. induction w as [|w IH]; intros z; cbn; [done|]. rewrite length_app, IH. simpl. lia. Qed.

Lemma hex_padded_value (w : nat) z : 0 ≤ z < 16 ^ Z.of_nat w → z ≤ u64_max → hex_digits 0 (hex_padded w z) = Some z.
Proof.
  revert z. induction w as [|w IH]; intros z Hz Hm; cbn [hex_padded].
  { rewrite Z.pow_0_r in Hz. cbn. f_equal. lia. }
  rewrite Nat2Z.inj_succ, Z.pow_succ_r in Hz by lia.
  rewrite hex_digits_app, IH by (repeat split; try apply Z.div_pos; try apply Z.div_lt_upper_bound; try apply Z.div_le_upper_bound; lia).
  cbn. rewrite hex_digit_value by (apply Z.mod_pos_bound; lia). cbn.
  rewrite <- Z.div_mod by lia. destruct (u64_max <? z) eqn:?; [lia|done].
Qed.

Lemma after_last_colon_app p q : colon ∉ q → after_last_colon (p ++ colon :: q) = Some q.
Proof.
  intros Hq. induction p as [|b p IH]; cbn [after_last_colon app].
  - enough (after_last_colon q = None) as -> by done. clear -Hq. induction q as [|b q IH]; [done|].
    apply not_elem_of_cons in Hq as [Hb Hq]. cbn. rewrite IH by done. case_match; [lia|done].
  - by rewrite IH.
Qed.

Lemma from_str_radix16_padded (w : nat) z s :
  (0 < w)%nat → 0 ≤ z < 16 ^ Z.of_nat w → z ≤ u64_max → as_bytes s = hex_padded w z → from_str_radix16 s = Some z.
Proof.
  intros Hw Hz Hm Es. unfold from_str_radix16. rewrite Es. pose proof (hex_padded_chars w z) as Hc.
  pose proof (hex_padded_value w z Hz Hm) as Hv. destruct (hex_padded w z) as [|b bs] eqn:E.
  { apply (f_equal length) in E. rewrite hex_padded_length in E. simpl in E. lia. }
  apply Forall_cons in Hc as [Hb _]. destruct (b =? 43) eqn:?; [lia|done].
Qed.

Lemma build_version_key_prefix table id row txn :
  build_version_key table id row txn = build_row_prefix table id row ++ hex_padded 16 txn.
Proof. unfold build_version_key, build_row_prefix. by rewrite <- !(assoc_L (++)). Qed.

Lemma extract_txn_version_key table id row txn :
  is_u64 txn → extract_txn_from_key (build_version_key table id row txn) = Some txn.
Proof.
  intros Ht. assert (Hc : Forall (λ b, 48 ≤ b < 58 ∨ 97 ≤ b < 103) (hex_padded 16 txn)) by apply hex_padded_chars.
  unfold extract_txn_from_key.
  replace (build_version_key table id row txn) with
    ((VERSION_IDX_PREFIX ++ as_bytes table ++ [colon] ++ as_bytes id ++ [colon] ++ hex_padded 10 row) ++ colon :: hex_padded 16 txn)
    by (unfold build_version_key; by rewrite <- !app_assoc).
  rewrite after_last_colon_app.
  2:{ intros [Hin|Hin]%(proj1 (Forall_forall _ _) Hc); revert Hin; unfold colon; lia. }
  cbn [mbind option_bind]. destruct (from_utf8_ascii (hex_padded 16 txn)) as (s & -> & Es).
  { eapply Forall_impl; [done|]. intros; simpl in *; lia. }
  cbn. unfold is_u64, u64_max in *. apply (from_str_radix16_padded 16); [lia|change (16 ^ Z.of_nat 16) with (2 ^ 64); lia| |done].
  unfold u64_max. lia.
Qed.

(** The transaction of a version-index key can be read back from it, for
    any table, segment and row, whatever the names contain. *)
Theorem version_key_roundtrip table id row txn :
  is_u64 txn → extract_txn_from_key (build_version_key table id row txn) = Some txn.
Proof. apply extract_txn_version_key. Qed.

Lemma version_key_roundtrip_witness :
  extract_txn_from_key (build_version_key "a:b" "seg:1" 7 255) = Some 255.
Proof. apply version_key_roundtrip. unfold is_u64. vm_compute. intuition congruence. Defined.

(** ** The rule of a historical read *)

Lemma projection_context_all t (cts : gmap Z Z) : projection_context t (dom cts) cts = projection_context_from_map t cts.
Proof.
  unfold projection_context. f_equal. apply map_filter_id. intros i x Hi. cbn. by apply elem_of_dom_2 in Hi.
Qed.

Lemma historical_visible v f t cts :
  is_visible_at v f (projection_context_from_map t cts) = true ↔ row_visible t (hv_created_txn v) (hv_deleted_txn v) ∅ cts.
Proof. apply is_row_visible_iff. Qed.

Lemma committed_at_filter t (cts : gmap Z Z) x :
  committed_at t (filter (λ e, e.2 ≤ t) cts) x ↔ committed_at t cts x.
Proof.
  unfold committed_at. split; intros (ts & H & Hle); exists ts; (split; [|done]);
    [by apply map_lookup_filter_Some in H as [H _]|by apply map_lookup_filter_Some].
Qed.

Lemma historical_filter v f t cts :
  is_visible_at v f (projection_context_from_map t (filter (λ e, e.2 ≤ t) cts)) =
  is_visible_at v f (projection_context_from_map t cts).
Proof.
  apply eq_true_iff_eq. rewrite !historical_visible. unfold row_visible.
  setoid_rewrite committed_at_filter. done.
Qed.

Section historical.
Context `{KVEngine KV} `{!Codec (Z * Z)} `{!Codec SegmentMeta} `{Arrow Arr}.

(** The two historical read paths decide alike: for a reader and a scanner
    made from the same store, the scanner's flag of a row is the reader's answer
    for a version with the row's transactions, and both are the visibility rule
    over the committed history as of the target. *)
Theorem historical_paths_agree (kv : KV) table t r sc (c d : Arr) n :
  time_travel_reader_new kv = Ok r → time_travel_scanner_new kv table t = Ok sc →
  ∀ i, 0 ≤ i < n →
  let v := {| hv_created_txn := value_u64 c i; hv_deleted_txn := row_deleter (value_u64 d i) |} in
  let flag := is_visible_at v (ttr_historical_filter r) (projection_context t (ttr_committed_txns r) (ttr_commit_ts_map r)) in
  historical_mask sc c d n !! Z.to_nat i = Some flag ∧
  (flag = true ↔ row_visible t (value_u64 c i) (row_deleter (value_u64 d i)) ∅ (ttr_commit_ts_map r)).
Proof.
  unfold time_travel_reader_new, time_travel_scanner_new. intros Hr Hs i Hi.
  destruct (get_committed_txns kv) as [cts|e]; cbn in Hr; [|done]. simplify_eq.
  destruct (tt_collect_segments kv table t); cbn in Hs; [|done]. simplify_eq. cbn.
  rewrite projection_context_all. split; [|apply historical_visible].
  unfold historical_mask. cbn. rewrite list_lookup_fmap.
  rewrite lookup_seqZ_lt by lia. cbn. by rewrite historical_filter, Z.add_0_l, Z2Nat.id by lia.
Qed.
End historical.

(** ** The index of a segment *)

Section index.
Context `{KVEngineLaws KV} `{!Codec VersionEntry} `{!CodecLaws VersionEntry} `{Arrow Arr}.
Abbreviation batch := (RecordBatch Arr).

(** The stored transactions of the rows, over the batches that have them. *)
Definition batch_rows (b : batch) : list (Z * Z) :=
  match vis_columns (rb_columns b) with
  | None => []
  | Some (_, c, d) => (λ i, (value_u64 c i, value_u64 d i)) <$> seqZ 0 (rb_rows b)
  end.
Definition vis_rows (vis : list batch) : list (Z * Z) := concat (batch_rows <$> vis).

(** One entry per row, from row [g] on. *)
Fixpoint put_versions (table id : string) (buf : list bytes) (g : Z) (rows : list (Z * Z)) (m : gmap bytes bytes)
    : option (gmap bytes bytes) :=
  match rows with
  | [] => Some m
  | (c, d) :: rows' =>
      match encode (version_of buf g c d) with
      | Ok v => put_versions table id buf (g + 1) rows' (<[build_version_key table id (wrap32 g) c := v]> m)
      | Err _ => None
      end
  end.

(** What a store holds once the pending entries are written. *)
Definition pending (kv : KV) (kvb : list (bytes * bytes)) : gmap bytes bytes :=
  kv_apply ((λ e, KPut e.1 e.2) <$> kvb) (kv_abs kv CF_VERSIONS).

Lemma flush_pending kv kvb kv' : flush_kv_batch kv kvb = (kv', Ok tt) → kv_abs kv' CF_VERSIONS = pending kv kvb.
Proof.
  unfold flush_kv_batch. destruct kvb as [|e kvb]; [by intros [= <-]|]. intros Hw.
  pose proof (kv_write_batch_spec kv CF_VERSIONS ((λ e, KPut e.1 e.2) <$> (e :: kvb)) CF_VERSIONS) as Hs.
  rewrite Hw in Hs. rewrite bool_decide_true in Hs by done. exact Hs.
Qed.

Lemma push_pending kv kvb e kv' kvb' :
  push_entry kv kvb e = (kv', Ok kvb') → pending kv' kvb' = <[e.1 := e.2]> (pending kv kvb).
Proof.
  assert (Hp : pending kv (kvb ++ [e]) = <[e.1 := e.2]> (pending kv kvb)).
  { unfold pending, kv_apply. by rewrite fmap_app, foldl_app. }
  unfold push_entry. case_match; [|by intros [= <- <-]].
  destruct (flush_kv_batch kv (kvb ++ [e])) as [kv1 [[]|]] eqn:Hf; intros [= <- <-].
  unfold pending at 1. cbn. by rewrite (flush_pending _ _ _ Hf).
Qed.

Lemma write_rows_pending table id buf total (c d : Arr) rows kv kvb g kv' kvb' g' :
  g + zlen rows ≤ total →
  write_rows table id buf total c d rows kv kvb g = (kv', Ok (kvb', g')) →
  g' = g + zlen rows ∧
  put_versions table id buf g ((λ i, (value_u64 c i, value_u64 d i)) <$> rows) (pending kv kvb) = Some (pending kv' kvb').
Proof.
  revert kv kvb g. induction rows as [|i rows IH]; intros kv kvb g Hg; cbn [write_rows fmap list_fmap put_versions].
  { intros [= <- <- <-]. split; [unfold zlen; simpl; lia|done]. }
  unfold zlen in *. simpl length in *. destruct (total <=? g) eqn:?; [lia|].
  destruct (encode (version_of buf g _ _)) as [v|]; [|done].
  destruct (push_entry _ _ _) as [kv1 [kvb1|]] eqn:Hp; [|done]. intros Hw.
  apply IH in Hw as [-> Hw]; [|lia]. rewrite (push_pending _ _ _ _ _ Hp) in Hw. split; [lia|exact Hw].
Qed.

Lemma put_versions_app table id buf g xs ys m :
  put_versions table id buf g (xs ++ ys) m =
  put_versions table id buf g xs m ≫= put_versions table id buf (g + zlen xs) ys.
Proof.
  revert g m. induction xs as [|[c d] xs IH]; intros g m; cbn [put_versions app].
  { unfold zlen. cbn. by rewrite Z.add_0_r. }
  destruct (encode _); [|done]. rewrite IH. do 2 f_equal. unfold zlen. simpl length. lia.
Qed.

Lemma write_versions_pending table id buf total (vis : list batch) kv kvb g kv' kvb' :
  g + zlen (vis_rows vis) ≤ total → Forall (λ b, 0 ≤ rb_rows b) vis →
  write_versions table id buf total vis kv kvb g = (kv', Ok kvb') →
  put_versions table id buf g (vis_rows vis) (pending kv kvb) = Some (pending kv' kvb').
Proof.
  intros Hg Hn. revert kv kvb g Hg. induction Hn as [|b vis Hb _ IH]; intros kv kvb g Hg; cbn [write_versions].
  { by intros [= <- <-]. }
  unfold vis_rows in *. cbn [fmap list_fmap concat] in *. unfold batch_rows at 1. unfold batch_rows at 1 in Hg.
  destruct (vis_columns (rb_columns b)) as [[[? c] d]|]; [|by apply IH].
  destruct (negb (is_int64 c)); [done|]. destruct (negb (is_int64 d)); [done|].
  assert (Hl : zlen (seqZ 0 (rb_rows b)) = rb_rows b) by (unfold zlen; rewrite length_seqZ; lia).
  assert (Hl' : zlen ((λ i, (value_u64 c i, value_u64 d i)) <$> seqZ 0 (rb_rows b)) = rb_rows b)
    by (unfold zlen in *; by rewrite length_fmap).
  unfold zlen in Hg, Hl, Hl'. rewrite length_app in Hg.
  destruct (write_rows _ _ _ _ _ _ _ _ _ _) as [kv1 [[kvb1 g1]|]] eqn:Hw; [|done].
  apply write_rows_pending in Hw as [-> Hw]; [|unfold zlen; lia]. intros Hv.
  apply IH in Hv; [|unfold zlen; lia]. rewrite put_versions_app, Hw. cbn. unfold zlen in *. rewrite Hl'. by rewrite Hl in Hv.
Qed.

(** *** What the index holds *)

Lemma version_key_row table id r j c :
  is_u32 r → is_u32 j → build_row_prefix table id r `prefix_of` build_version_key table id j c → r = j.
Proof.
  intros Hr Hj [k Hk]. rewrite build_version_key_prefix in Hk. unfold build_row_prefix in Hk.
  rewrite <- !app_assoc in Hk. do 5 apply app_inv_head in Hk.
  apply app_inj_1 in Hk as [Hk _]; [|by rewrite !hex_padded_length].
  apply (f_equal (hex_digits 0)) in Hk. unfold is_u32, u32_max, u64_max in *.
  rewrite !hex_padded_value in Hk by (change (16 ^ Z.of_nat 10) with (2 ^ 40); unfold u64_max; lia). congruence.
Qed.

Lemma put_versions_other table id buf g rows m m' k :
  put_versions table id buf g rows m = Some m' →
  (∀ i c d, rows !! i = Some (c, d) → k ≠ build_version_key table id (wrap32 (g + Z.of_nat i)) c) → m' !! k = m !! k.
Proof.
  revert g m. induction rows as [|[c d] rows IH]; intros g m; cbn [put_versions]; [by intros [= ->]|].
  destruct (encode _) as [v|]; [|done]. intros Hp Hk. rewrite (IH _ _ Hp).
  - apply lookup_insert_ne. intros <-. apply (Hk 0%nat c d); [done|]. do 2 f_equal. lia.
  - intros i c' d' Hi ->. apply (Hk (S i) c' d' Hi). do 2 f_equal. lia.
Qed.

Lemma put_versions_at table id buf g rows m m' i c d :
  put_versions table id buf g rows m = Some m' → rows !! i = Some (c, d) → 0 ≤ g → g + zlen rows ≤ 2 ^ 32 →
  ∃ v, encode (version_of buf (g + Z.of_nat i) c d) = Ok v ∧
       m' !! build_version_key table id (g + Z.of_nat i) c = Some v.
Proof.
  revert g m i. induction rows as [|[c0 d0] rows IH]; intros g m i; cbn [put_versions]; [done|].
  unfold zlen in *. simpl length. destruct (encode (version_of buf g c0 d0)) as [v|] eqn:Ev; [|done].
  intros Hp Hi Hg Hlen. destruct i as [|i]; cbn in Hi.
  - simplify_eq. rewrite Z.add_0_r. exists v. split; [done|].
    assert (Hw : wrap32 g = g) by (unfold wrap32; apply Z.mod_small; lia). rewrite Hw in Hp.
    rewrite (put_versions_other _ _ _ _ _ _ _ _ Hp); [apply lookup_insert_eq|].
    intros j c' d' Hj He. apply lookup_lt_Some in Hj.
    assert (g = wrap32 (g + 1 + Z.of_nat j)) as Hne.
    { apply (version_key_row table id _ _ c'); [unfold is_u32, u32_max; lia| |].
      - unfold is_u32, u32_max, wrap32. pose proof (Z.mod_pos_bound (g + 1 + Z.of_nat j) (2 ^ 32)). lia.
      - rewrite <- He, build_version_key_prefix. by eexists. }
    unfold wrap32 in Hne. rewrite Z.mod_small in Hne; lia.
  - destruct (IH _ _ i Hp Hi) as (v' & Hv & Hm); [lia|lia|].
    replace (g + 1 + Z.of_nat i) with (g + Z.of_nat (S i)) in * by lia. by exists v'.
Qed.

(** The versions of a row: exactly one. *)
Lemma row_versions table id buf rows (kv kv' : KV) i c d l :
  kv_prefix kv CF_VERSIONS (VERSION_IDX_PREFIX ++ as_bytes table ++ [colon] ++ as_bytes id ++ [colon]) = Ok [] →
  put_versions table id buf 0 rows (kv_abs kv CF_VERSIONS) = Some (kv_abs kv' CF_VERSIONS) →
  rows !! i = Some (c, d) → zlen rows ≤ 2 ^ 32 →
  kv_prefix kv' CF_VERSIONS (build_row_prefix table id (Z.of_nat i)) = Ok l →
  ∃ v, encode (version_of buf (Z.of_nat i) c d) = Ok v ∧ l = [(build_version_key table id (Z.of_nat i) c, v)].
Proof.
  intros Hnone Hput Hi Hlen Hl. apply kv_prefix_spec in Hnone, Hl.
  destruct (put_versions_at _ _ _ _ _ _ _ _ _ _ Hput Hi) as (v & Hv & Hm); [lia..|]. rewrite Z.add_0_l in Hv, Hm.
  exists v. split; [done|]. apply Permutation_singleton_r. rewrite Hl. apply NoDup_Permutation.
  { apply NoDup_filter, NoDup_map_to_list. }
  { apply NoDup_singleton. }
  intros [k w]. rewrite list_elem_of_filter, elem_of_map_to_list, list_elem_of_singleton. cbn [fst snd]. split.
  2:{ intros [= -> ->]. split; [rewrite build_version_key_prefix; by eexists|done]. }
  intros [Hpre Hk]. destruct (decide (k = build_version_key table id (Z.of_nat i) c)) as [->|Hne]; [by rewrite Hm in Hk; simplify_eq|].
  exfalso. assert (Hold : kv_abs kv CF_VERSIONS !! k = Some w).
  { rewrite <- Hk. symmetry. apply (put_versions_other _ _ _ _ _ _ _ _ Hput).
    intros j c' d' Hj ->. pose proof (lookup_lt_Some _ _ _ Hj) as Hjl. pose proof (lookup_lt_Some _ _ _ Hi) as Hil.
    unfold zlen in Hlen. rewrite Z.add_0_l in *. unfold wrap32 in *. rewrite Z.mod_small in * by lia.
    apply version_key_row in Hpre; [|unfold is_u32, u32_max; lia..]. apply Nat2Z.inj in Hpre as ->. by simplify_eq. }
  assert ((k, w) ∈ @nil (bytes * bytes)) as Hin; [|by inversion Hin].
  rewrite Hnone, list_elem_of_filter, elem_of_map_to_list. cbn [fst snd]. split; [|done].
  destruct Hpre as [q ->]. unfold build_row_prefix. eexists. rewrite <- !app_assoc. reflexivity.
Qed.

(** C26: a historical read of an indexed row answers by its transactions.  For a segment that had no
    entry in the version index, once the entries of its visibility batches are
    written the versions that the reader finds for a row are that row's one, and
    the read at a target answers with its buffered bytes exactly when the row's
    stored transactions are visible at the target, otherwise with nothing. *)
Theorem indexed_read_exact table id buf total (vis : list batch) (kv kv1 kv2 : KV) kvb r i c d t l :
  kv_prefix kv CF_VERSIONS (VERSION_IDX_PREFIX ++ as_bytes table ++ [colon] ++ as_bytes id ++ [colon]) = Ok [] →
  Forall (λ b, 0 ≤ rb_rows b) vis → zlen (vis_rows vis) ≤ total → zlen (vis_rows vis) ≤ 2 ^ 32 →
  write_versions table id buf total vis kv [] 0 = (kv1, Ok kvb) → flush_kv_batch kv1 kvb = (kv2, Ok tt) →
  vis_rows vis !! i = Some (c, d) → is_u64 c →
  kv_prefix kv2 CF_VERSIONS (build_row_prefix table id (Z.of_nat i)) = Ok l →
  let visible := is_visible_at {| hv_created_txn := c; hv_deleted_txn := row_deleter d |} (ttr_historical_filter r)
                   (projection_context t (ttr_committed_txns r) (ttr_commit_ts_map r)) in
  best_version r id t l None = Ok (if visible then Some (c, version_of buf (Z.of_nat i) c d) else None).
Proof.
  intros Hnone Hn Htot Hlen Hw Hf Hi Hc Hl visible.
  apply write_versions_pending in Hw; [|lia|done]. rewrite <- (flush_pending _ _ _ Hf) in Hw.
  destruct (row_versions _ _ _ _ _ _ _ _ _ _ Hnone Hw Hi Hlen Hl) as (v & Hv & ->).
  cbn [best_version]. rewrite extract_txn_version_key by done. rewrite (decode_encode _ _ Hv). cbn -[is_visible_at projection_context].
  change (is_visible_at _ _ _) with visible.
  destruct (t <? c) eqn:Ht; [|by destruct visible].
  enough (visible = false) as -> by done. apply not_true_is_false. subst visible. unfold projection_context.
  rewrite historical_visible. intros [Hle _]. cbn in Hle. lia.
Qed.
End index.

(** ** The bytes of a version *)

Section chunk.
Context `{Arrow Arr}.
Abbreviation batch := (RecordBatch Arr).

Definition batch_bytes (b : batch) : list bytes :=
  match rb_columns b with
  | [] => []
  | a :: _ => (λ i, to_storage_bytes (extract_row_bytes a i)) <$> seqZ 0 (rb_rows b)
  end.
(** The cells of a column, in row order. *)
Definition column_cells (bs : list batch) : list bytes := concat (batch_bytes <$> bs).

Definition chunk_step (total : Z) (s : ChunkState) (bs : bytes) : ChunkState :=
  if total <=? ck_row s then s else chunk_put s bs.

Lemma chunk_batch_step total s b : chunk_batch total s b = foldl (chunk_step total) s (batch_bytes b).
Proof. unfold chunk_batch, batch_bytes. destruct (rb_columns b) as [|a ?]; [done|]. by rewrite foldl_fmap. Qed.

Lemma chunk_column_step total s bs : foldl (chunk_batch total) s bs = foldl (chunk_step total) s (column_cells bs).
Proof.
  revert s. induction bs as [|b bs IH]; intros s; cbn; [done|]. by rewrite foldl_app, <- chunk_batch_step, IH.
Qed.

Lemma chunk_columns_step total s cols :
  foldl (foldl (chunk_batch total)) s cols = foldl (chunk_step total) s (concat (column_cells <$> cols)).
Proof.
  revert s. induction cols as [|c cols IH]; intros s; cbn; [done|]. by rewrite foldl_app, <- chunk_column_step, IH.
Qed.

(** The cells that share the buffer slot [k]. *)
Definition ring_bytes (k : Z) (xs : list bytes) : bytes :=
  concat (imap (λ j x, if Z.of_nat j `mod` CHUNK_SIZE =? k then x else []) xs).

Definition chunk_ok (total : Z) (xs : list bytes) (s : ChunkState) : Prop :=
  ck_row s = zlen xs ∧ ck_filled s = zlen xs ∧ zlen (ck_buf s) = Z.min CHUNK_SIZE total ∧
  ∀ k : nat, Z.of_nat k < Z.min CHUNK_SIZE total → ck_buf s !! k = Some (ring_bytes (Z.of_nat k) xs).

Lemma ring_bytes_snoc k xs x :
  ring_bytes k (xs ++ [x]) = ring_bytes k xs ++ (if zlen xs `mod` CHUNK_SIZE =? k then x else []).
Proof. unfold ring_bytes. rewrite imap_app, concat_app. cbn. by rewrite app_nil_r, Nat.add_0_r. Qed.

Lemma chunk_put_ok total xs s x : zlen xs < total → chunk_ok total xs s → chunk_ok total (xs ++ [x]) (chunk_put s x).
Proof.
  intros Hlt (Hr & Hf & Hl & Hk). unfold chunk_put. rewrite Hf, Hr.
  pose proof (Z.mod_pos_bound (zlen xs) CHUNK_SIZE). pose proof (Z.mod_le (zlen xs) CHUNK_SIZE).
  assert (0 < CHUNK_SIZE) by done. assert (0 ≤ zlen xs) by (unfold zlen; lia).
  destruct (zlen (ck_buf s) <=? zlen xs `mod` CHUNK_SIZE) eqn:?; [lia|].
  assert (zlen (xs ++ [x]) = zlen xs + 1) as El by (unfold zlen; rewrite length_app; simpl; lia).
  split_and!; cbn [ck_row ck_filled ck_buf]; [lia..|unfold zlen in *; by rewrite length_alter|].
  intros k Hkl. specialize (Hk k Hkl). rewrite ring_bytes_snoc.
  destruct (decide (Z.to_nat (zlen xs `mod` CHUNK_SIZE) = k)) as [<-|Hne].
  - rewrite list_lookup_alter_eq, Hk. cbn. rewrite !Z2Nat.id by lia. by rewrite Z.eqb_refl.
  - rewrite list_lookup_alter_ne, Hk by done. destruct (_ =? _) eqn:?; [lia|]. by rewrite app_nil_r.
Qed.

Lemma chunk_steps_ok total xs ys s :
  chunk_ok total xs s → zlen xs ≤ total →
  chunk_ok total (take (Z.to_nat total) (xs ++ ys)) (foldl (chunk_step total) s ys).
Proof.
  revert xs s. induction ys as [|y ys IH]; intros xs s Hs Hle; cbn [foldl].
  { rewrite app_nil_r, take_ge by (unfold zlen in Hle; lia). done. }
  unfold chunk_step at 2. destruct Hs as (Hr & Hs'). destruct (total <=? ck_row s) eqn:Ht.
  - assert (length xs = Z.to_nat total) as El by (unfold zlen in *; lia).
    specialize (IH xs s (conj Hr Hs') Hle). rewrite take_app_le in * by lia. exact IH.
  - rewrite (cons_middle y), (assoc_L (++)). apply IH; [apply chunk_put_ok; [lia|by split]|].
    unfold zlen in *. rewrite length_app. simpl. lia.
Qed.

Lemma initial_chunk_ok total : 0 ≤ total → chunk_ok total [] (initial_chunk total).
Proof.
  intros Ht. assert (0 < CHUNK_SIZE) by done. split_and!; [done..| |].
  - unfold zlen. cbn [initial_chunk ck_buf]. rewrite length_replicate. lia.
  - intros k Hk. cbn [initial_chunk ck_buf]. rewrite lookup_replicate_2 by lia. done.
Qed.

Lemma version_value_slot total (cols : list (list batch)) r c d :
  0 ≤ r < total →
  ve_value (version_of (ck_buf (foldl (foldl (chunk_batch total)) (initial_chunk total) cols)) r c d) =
  ring_bytes (r `mod` CHUNK_SIZE) (take (Z.to_nat total) (concat (column_cells <$> cols))).
Proof.
  intros Hr. rewrite chunk_columns_step. cbn [ve_value version_of].
  destruct (chunk_steps_ok total [] (concat (column_cells <$> cols)) (initial_chunk total)) as (_ & _ & _ & Hk);
    [apply initial_chunk_ok; lia|unfold zlen; simpl; lia|].
  assert (0 < CHUNK_SIZE) by done.
  pose proof (Z.mod_pos_bound r CHUNK_SIZE). pose proof (Z.mod_le r CHUNK_SIZE).
  rewrite Hk by lia. cbn. by rewrite Z2Nat.id by lia.
Qed.

(** The exact bytes of a version.  The first pass writes into slot
    [r mod CHUNK_SIZE] every cell of the first [total] cells, over the columns
    one after the other, whose position is [r] modulo the size of the buffer. *)
Theorem version_value_ring total (cols : list (list batch)) r c d :
  0 ≤ r < total →
  ve_value (version_of (ck_buf (foldl (foldl (chunk_batch total)) (initial_chunk total) cols)) r c d) =
  ring_bytes (r `mod` CHUNK_SIZE) (take (Z.to_nat total) (concat (column_cells <$> cols))).
Proof. apply version_value_slot. Qed.

Lemma ring_bytes_short (xs : list bytes) k :
  zlen xs ≤ CHUNK_SIZE → ring_bytes (Z.of_nat k) xs = default [] (xs !! k).
Proof.
  induction xs as [|x xs IH] using rev_ind; intros Hl; [done|].
  assert (zlen (xs ++ [x]) = zlen xs + 1) as El by (unfold zlen; rewrite length_app; simpl; lia).
  rewrite ring_bytes_snoc, Z.mod_small, IH by (unfold zlen in *; lia). unfold zlen.
  destruct (decide (k = length xs)) as [->|].
  - rewrite Z.eqb_refl, (lookup_ge_None_2 xs), lookup_app_r, Nat.sub_diag by lia. done.
  - destruct (_ =? _) eqn:?; [lia|]. rewrite app_nil_r. destruct (decide (k < length xs)%nat).
    + by rewrite lookup_app_l.
    + rewrite (lookup_ge_None_2 xs), (lookup_ge_None_2 (xs ++ _)) by (rewrite ?length_app; simpl; lia). done.
Qed.

(** A version holds one column.  In a segment of at most [CHUNK_SIZE] rows
    whose first column file has all the rows, the bytes of a version are that
    column's cell alone, whatever the other columns hold: the row counter of the
    first pass is not started again for the next column. *)
Theorem version_value_first_column total col (cols : list (list batch)) r c d :
  0 ≤ r < total → total ≤ CHUNK_SIZE → zlen (column_cells col) = total →
  ve_value (version_of (ck_buf (foldl (foldl (chunk_batch total)) (initial_chunk total) (col :: cols))) r c d) =
  default [] (column_cells col !! Z.to_nat r).
Proof.
  intros Hr Ht Hc. rewrite version_value_slot by lia. unfold zlen in Hc. cbn [fmap list_fmap concat].
  rewrite take_app_length', Z.mod_small by lia. rewrite <- (Z2Nat.id r) at 1 by lia.
  apply ring_bytes_short. unfold zlen. lia.
Qed.
End chunk.

(** * Witnesses *)

Section witnesses.
Definition demo_entries : list VersionEntry :=
  [ {| ve_txn_id := 5; ve_value := to_le_bytes 8 10; ve_created_txn := 5; ve_deleted_txn := None |};
    {| ve_txn_id := 5; ve_value := to_le_bytes 8 20; ve_created_txn := 5; ve_deleted_txn := Some 9 |} ].
#[local] Instance VersionEntry_eq_dec : EqDecision VersionEntry.
Proof. solve_decision. Defined.
#[local] Instance demo_entry_codec : Codec VersionEntry := table_codec demo_entries.
#[local] Instance demo_entry_laws : CodecLaws VersionEntry := table_codec_laws demo_entries.
#[local] Instance demo_meta_codec : Codec SegmentMeta :=
  {| encode _ := Err (CEncode "none"); decode _ := Err (CDecode "none") |}.

(** Two rows of transaction 5, the second one deleted by transaction 9. *)
Definition demo_vis : RecordBatch ListArray :=
  {| rb_fields := visibility_schema; rb_columns := [int_array [Some 5; Some 5]; int_array [Some (-1); Some 9]]; rb_rows := 2 |}.
Definition demo_col (zs : list Z) : list (RecordBatch ListArray) :=
  [{| rb_fields := []; rb_columns := [int_array (Some <$> zs)]; rb_rows := zlen zs |}].
Definition demo_reader : TimeTravelReader :=
  {| ttr_committed_txns := {[5; 9]}; ttr_commit_ts_map := {[5 := 6; 9 := 9]}; ttr_historical_filter := VisibilityManager_new |}.
Definition demo_buf : list bytes := to_le_bytes 8 <$> [10; 20].

Definition demo_history : MemKV :=
  (kv_write_batch mem_empty CF_MVCC [KPut (KEY_COMMITTED_TXN_HISTORY ++ to_le_bytes 8 5) (to_le_bytes 8 5 ++ to_le_bytes 8 6)]).1.

(** The second row at transaction 8, before its deletion, and at 9. *)
Lemma indexed_read_exact_witness :
  ∃ l, best_version demo_reader "s" 8 l None = Ok (Some (5, version_of demo_buf 1 5 9)) ∧
       best_version demo_reader "s" 9 l None = Ok None.
Proof.
  destruct (write_versions "t" "s" demo_buf 2 [demo_vis] mem_empty [] 0) as [kv1 [kvb|]] eqn:Ew; [|by vm_compute in Ew].
  destruct (flush_kv_batch kv1 kvb) as [kv2 [[]|]] eqn:Ef.
  2:{ exfalso. vm_compute in Ew. injection Ew as <- <-. by vm_compute in Ef. }
  destruct (kv_prefix kv2 CF_VERSIONS (build_row_prefix "t" "s" 1)) as [l|] eqn:El; [|done]. exists l.
  assert (Hr := λ t, indexed_read_exact "t" "s" demo_buf 2 [demo_vis] mem_empty kv1 kv2 kvb demo_reader 1 5 9 t l).
  split.
  - rewrite (Hr 8); [vm_compute; reflexivity|reflexivity|by repeat constructor|done|done|exact Ew|exact Ef|reflexivity| |exact El].
    unfold is_u64, u64_max. lia.
  - rewrite (Hr 9); [vm_compute; reflexivity|reflexivity|by repeat constructor|done|done|exact Ew|exact Ef|reflexivity| |exact El].
    unfold is_u64, u64_max. lia.
Defined.

Lemma version_value_ring_witness :
  ve_value (version_of (ck_buf (foldl (foldl (chunk_batch 2)) (initial_chunk 2) [demo_col [10; 20]; demo_col [30; 40]])) 1 5 9) =
  ring_bytes 1 (take 2 (concat (column_cells <$> [demo_col [10; 20]; demo_col [30; 40]]))).
Proof. apply (version_value_ring 2 [demo_col [10; 20]; demo_col [30; 40]] 1 5 9). lia. Defined.

(** The second column does not reach the version. *)
Lemma version_value_first_column_witness :
  ve_value (version_of (ck_buf (foldl (foldl (chunk_batch 2)) (initial_chunk 2) [demo_col [10; 20]; demo_col [30; 40]])) 1 5 9) =
  to_le_bytes 8 20.
Proof.
  rewrite (version_value_first_column 2 (demo_col [10; 20]) [demo_col [30; 40]] 1 5 9);
    [vm_compute; reflexivity|lia|done|reflexivity].
Defined.

Lemma historical_paths_agree_witness :
  ∃ r sc, time_travel_reader_new demo_history = Ok r ∧ time_travel_scanner_new demo_history "t" 7 = Ok sc ∧
    historical_mask sc (int_array [Some 5; Some 5]) (int_array [Some (-1); Some 9]) 2 !! 1%nat = Some true.
Proof.
  destruct (time_travel_reader_new demo_history) as [r|] eqn:Er; [|by vm_compute in Er].
  destruct (time_travel_scanner_new demo_history "t" 7) as [sc|] eqn:Es; [|by vm_compute in Es].
  exists r, sc. split_and!; [done..|].
  rewrite (proj1 (historical_paths_agree demo_history "t" 7 r sc (int_array [Some 5; Some 5]) (int_array [Some (-1); Some 9]) 2
    Er Es 1 ltac:(lia))). vm_compute in Er. injection Er as <-. vm_compute. reflexivity.
Defined.

(** Past [CHUNK_SIZE] rows a version holds two rows' cells. *)
Example large_segment_mixes_rows :
  ring_bytes 0 (replicate 10000 [1] ++ [[2]]) = [1; 2].
Proof. vm_compute. reflexivity. Qed.
End witnesses.
