(* ===== verification/AsOf.v ===== *)
(** The [AS OF TxnId] clause of a query (query/time_travel.rs): its text is taken
    out of the SQL and its number read.  The definitions are the code's on ASCII
    text; the upper-casing of other letters can move byte positions. *)

From stdpp Require Import base gmap strings list.
From S2P Require Import Prelude Filter Checkpoint TimeTravel.

Local Open Scope Z_scope.
Local Open Scope rd_scope.

Definition is_ascii (bs : bytes) : Prop := Forall (λ b, 0 ≤ b < 128) bs.

Definition upper_byte (b : Z) : Z := if in_range 97 122 b then b - 32 else b.
Definition is_digit_byte (b : Z) : bool := in_range 48 57 b.
Definition is_hex_byte (b : Z) : bool := in_range 48 57 b || in_range 97 102 b || in_range 65 70 b.
(** [c.is_ascii_alphanumeric() || c == '_'] *)
Definition is_word_byte (b : Z) : bool :=
  in_range 48 57 b || in_range 97 122 b || in_range 65 90 b || (b =? 95).

(** [str::find] *)
Fixpoint find_sub (needle hay : bytes) : option nat :=
  if bool_decide (needle `prefix_of` hay) then Some 0%nat else
  match hay with
  | [] => None
  | _ :: hay' => S <$> find_sub needle hay'
  end.
(** The bytes before the first that fails [p], and after. *)
Fixpoint span_bytes (p : Z → bool) (bs : bytes) : bytes * bytes :=
  match bs with
  | [] => ([], [])
  | b :: bs' => if p b then let '(x, y) := span_bytes p bs' in (b :: x, y) else ([], bs)
  end.

Definition AS_OF : bytes := as_bytes "AS OF TXNID".
Definition has_hex_prefix (bs : bytes) : bool :=
  bool_decide (as_bytes "0x" `prefix_of` bs) || bool_decide (as_bytes "0X" `prefix_of` bs).

(** The number's text and its length: in the hexadecimal branch as many bytes as
    the text ends with hexadecimal digits. *)
Definition number_length (remaining : bytes) : nat :=
  if has_hex_prefix remaining then
    let hex := drop 2 remaining in
    (2 + length (span_bytes is_hex_byte (rev hex)).1)%nat
  else length (span_bytes is_digit_byte remaining).1.

Definition as_of_number (num_str : bytes) : result string Z :=
  if has_hex_prefix num_str then
    match from_str_radix16 (string_of_bytes (drop 2 num_str)) with
    | Some n => Ok n
    | None => Err ("invalid AS OF TxnId hex literal: " +:+ string_of_bytes num_str)
    end
  else map_err (λ _, "invalid AS OF TxnId literal: " +:+ string_of_bytes num_str) (parse_u64 (string_of_bytes num_str)).

Definition trim_bytes (bs : bytes) : bytes := trim_end (trim_start bs).

(** The query without its clause. *)
Definition strip_clause (before after_num : bytes) : bytes :=
  let before := trim_bytes before in
  let after_num := trim_bytes after_num in
  if bool_decide (before = []) then after_num else
  if bool_decide (after_num = []) then before else
  if bool_decide (head after_num ∈ [Some 59; Some 44; Some 41]) then before ++ after_num
  else before ++ [32] ++ after_num.

Definition starts_word (bs : bytes) : bool := match bs with b :: _ => is_word_byte b | [] => false end.

Definition parse_time_travel (sql : bytes) : result string (bytes * option Z) :=
  match find_sub AS_OF (upper_byte <$> sql) with
  | None => Ok (sql, None)
  | Some as_of_pos =>
      let before_as_of := take as_of_pos sql in
      if starts_word (rev before_as_of)
      then Err "malformed AS OF TxnId clause: missing token boundary before AS OF" else
      let remaining := (span_bytes is_ws1 (drop (as_of_pos + length AS_OF) sql)).2 in
      if bool_decide (remaining = []) then Err "malformed AS OF TxnId clause: missing transaction id" else
      let n := number_length remaining in
      let num_str := take n remaining in
      if bool_decide (num_str = []) then Err "malformed AS OF TxnId clause: missing transaction id" else
      txn_id <-? as_of_number num_str;
      let after_num := drop n remaining in
      if starts_word after_num then Err "malformed AS OF TxnId clause: invalid trailing token" else
      Ok (strip_clause before_as_of after_num, Some txn_id)
  end.

(** * Lemmas *)

Lemma find_sub_app needle xs ys p : find_sub needle xs = Some p → find_sub needle (xs ++ ys) = Some p.
Proof.
  revert p. induction xs as [|x xs IH]; intros p; cbn [find_sub app].
  - case_bool_decide as Hp; [|done]. intros [= <-]. apply prefix_nil_inv in Hp as ->. destruct ys; cbn; by rewrite bool_decide_true by apply prefix_nil.
  - case_bool_decide as Hp.
    + intros [= <-]. rewrite bool_decide_true; [done|]. change (x :: xs ++ ys) with ((x :: xs) ++ ys). by apply prefix_app_r.
    + destruct (find_sub needle xs) as [q|] eqn:E; cbn; [|done]. intros [= <-].
      assert (Hl : (length needle ≤ length xs)%nat).
      { clear -E. revert q E. induction xs as [|x xs IH]; intros q; cbn [find_sub]; case_bool_decide as Hp; try done.
        - intros _. by apply prefix_length in Hp.
        - intros _. by apply prefix_length in Hp.
        - destruct (find_sub needle xs); cbn; [|done]. intros _. specialize (IH _ eq_refl). simpl. lia. }
      rewrite bool_decide_false; [by rewrite (IH _ eq_refl)|].
      intros [k Hk]. apply Hp. change (x :: xs ++ ys) with ((x :: xs) ++ ys) in Hk.
      exists (drop (length needle) (x :: xs)).
      rewrite <- (take_drop (length needle) (x :: xs)) at 1. f_equal.
      apply (f_equal (take (length needle))) in Hk. rewrite take_app_length, take_app_le in Hk by (simpl; lia). done.
Qed.

Lemma span_bytes_app p xs ys :
  Forall (λ b, p b = true) xs → (∀ b, head ys = Some b → p b = false) → span_bytes p (xs ++ ys) = (xs, ys).
Proof.
  induction 1 as [|x xs Hx _ IH]; intros Hy; cbn [span_bytes app].
  - destruct ys as [|y ys]; [done|]. cbn. by rewrite (Hy y).
  - by rewrite Hx, IH.
Qed.

Lemma span_bytes_none p ys : (∀ b, head ys = Some b → p b = false) → span_bytes p ys = ([], ys).
Proof. apply (span_bytes_app p []). constructor. Qed.

(** A clause is found when no earlier text reads like one. *)
Definition clause_at (before clause : bytes) : Prop :=
  upper_byte <$> clause = AS_OF ∧ find_sub AS_OF (upper_byte <$> before ++ clause) = Some (length before).

(** The text up to the number, for a clause in its place. *)
Lemma parse_at_number before clause ws rest :
  clause_at before clause → starts_word (rev before) = false → Forall (λ b, is_ws1 b = true) ws →
  (∀ b, head rest = Some b → is_ws1 b = false) → rest ≠ [] → take (number_length rest) rest ≠ [] →
  parse_time_travel (before ++ clause ++ ws ++ rest) =
  (txn_id <-? as_of_number (take (number_length rest) rest);
   if starts_word (drop (number_length rest) rest) then Err "malformed AS OF TxnId clause: invalid trailing token"
   else Ok (strip_clause before (drop (number_length rest) rest), Some txn_id)).
Proof.
  intros [Hc Hf] Hb Hws Hr Hne Hn. unfold parse_time_travel.
  assert (Hl : length clause = length AS_OF) by (rewrite <- Hc; by rewrite length_fmap).
  rewrite (assoc_L (++) before), fmap_app, (find_sub_app _ _ _ _ Hf), <- (assoc_L (++)), take_app_length, Hb.
  rewrite <- Hl, drop_app, drop_ge by lia. replace (length before + length clause - length before)%nat with (length clause) by lia.
  rewrite drop_app_length, app_nil_l, (span_bytes_app _ _ _ Hws Hr). cbn [snd].
  rewrite !bool_decide_false by done. done.
Qed.

Lemma digits_no_hex xs after :
  Forall (λ b, 48 ≤ b ≤ 57) xs → xs ≠ [] → starts_word after = false → has_hex_prefix (xs ++ after) = false.
Proof.
  intros Hd Hne Ha. unfold has_hex_prefix. apply orb_false_iff.
  assert (∀ x, x = 120 ∨ x = 88 → ¬ [48; x] `prefix_of` xs ++ after) as Hp.
  { intros x Hx [k Hk]. destruct xs as [|a [|b xs]]; [done|..]; rewrite ?Forall_cons in Hd; cbn in Hk.
    - destruct after as [|c after]; [done|]. simplify_eq. destruct Hx as [->| ->]; done.
    - simplify_eq. lia. }
  split; apply bool_decide_false; apply Hp; auto.
Qed.

Lemma decimal_bytes z : 0 ≤ z → Forall (λ b, 48 ≤ b ≤ 57) (as_bytes (decimal z)) ∧ as_bytes (decimal z) ≠ [].
Proof.
  intros Hz. split; [by apply digit_bytes, decimal_digits|].
  pose proof (dec_go_cons 20 z "" ltac:(by right)) as Hne. change (dec_go 20 z "") with (decimal z) in Hne.
  by destruct (decimal z).
Qed.

(** A decimal clause is read and taken out.  In a query whose clause stands
    alone, in any letter case, the number written in decimal is the transaction
    returned, and the rest of the text is what lies around the clause. *)
Theorem as_of_decimal_roundtrip before clause ws id after :
  clause_at before clause → starts_word (rev before) = false → Forall (λ b, is_ws1 b = true) ws →
  is_u64 id → starts_word after = false →
  parse_time_travel (before ++ clause ++ ws ++ as_bytes (decimal id) ++ after) = Ok (strip_clause before after, Some id).
Proof.
  intros Hc Hb Hws Hid Ha. destruct (decimal_bytes id) as [Hd Hne]; [unfold is_u64 in Hid; lia|].
  assert (Hn : number_length (as_bytes (decimal id) ++ after) = length (as_bytes (decimal id))).
  { unfold number_length. rewrite digits_no_hex by done. rewrite span_bytes_app; [done| |].
    - eapply Forall_impl; [done|]. unfold is_digit_byte, in_range. intros; simpl in *; lia.
    - intros b Eb. destruct after as [|c after]; [done|]. cbn in Eb. simplify_eq. cbn in Ha.
      revert Ha. unfold is_word_byte, is_digit_byte. by destruct (in_range 48 57 b). }
  rewrite parse_at_number; try done; rewrite ?Hn, ?take_app_length, ?drop_app_length.
  - unfold as_of_number. pose proof (digits_no_hex _ [] Hd Hne eq_refl) as Hx. rewrite app_nil_r in Hx.
    rewrite Hx, string_of_as_bytes, (parse_decimal id Hid). cbn. by rewrite Ha.
  - destruct (as_bytes (decimal id)) as [|d ds]; [done|]. intros b [= <-]. apply Forall_cons in Hd as [Hd _].
    unfold is_ws1, in_range. lia.
  - by destruct (as_bytes (decimal id)).
  - done.
Qed.

Lemma hex_padded_hex w z : Forall (λ b, is_hex_byte b = true) (hex_padded w z).
Proof.
  eapply Forall_impl; [apply hex_padded_chars|]. cbn. intros b Hb. unfold is_hex_byte, in_range. lia.
Qed.

(** A hexadecimal clause is read at the end of the text only.  Written last
    it gives its number; before any text that ends with something else than a
    hexadecimal digit it is refused, although the number is well formed. *)
Theorem as_of_hex_only_last before clause ws id after b :
  clause_at before clause → starts_word (rev before) = false → Forall (λ b, is_ws1 b = true) ws → is_u64 id →
  is_hex_byte b = false →
  parse_time_travel (before ++ clause ++ ws ++ as_bytes "0x" ++ hex_padded 16 id) = Ok (strip_clause before [], Some id) ∧
  parse_time_travel (before ++ clause ++ ws ++ as_bytes "0x" ++ hex_padded 16 id ++ after ++ [b]) =
    Err "invalid AS OF TxnId hex literal: 0x".
Proof.
  intros Hc Hb Hws Hid Hx.
  assert (Hp : ∀ xs, has_hex_prefix (as_bytes "0x" ++ xs) = true).
  { intros xs. unfold has_hex_prefix. by rewrite bool_decide_true by (by eexists). }
  assert (Hn : ∀ xs, number_length (as_bytes "0x" ++ xs) = (2 + length (span_bytes is_hex_byte (rev xs)).1)%nat).
  { intros xs. unfold number_length. by rewrite Hp. }
  assert (Hw : ∀ xs b, head (as_bytes "0x" ++ xs) = Some b → is_ws1 b = false) by (by intros xs b' [= <-]).
  split.
  - assert (Hl : number_length (as_bytes "0x" ++ hex_padded 16 id) = length (as_bytes "0x" ++ hex_padded 16 id)).
    { rewrite Hn. rewrite <- (app_nil_r (rev _)), span_bytes_app; [|by apply Forall_rev, hex_padded_hex|done].
      cbn [fst]. by rewrite length_rev, length_app. }
    rewrite parse_at_number; try done; rewrite ?Hl, ?firstn_all, ?drop_all; try done; [|by apply Hw].
    unfold as_of_number. rewrite Hp. destruct (from_utf8_ascii (hex_padded 16 id)) as (s & Hs & Es).
    { eapply Forall_impl; [apply hex_padded_chars|]. intros; simpl in *; lia. }
    change (drop 2 (as_bytes "0x" ++ hex_padded 16 id)) with (hex_padded 16 id).
    rewrite <- Es, string_of_as_bytes, (from_str_radix16_padded 16 id s); [done|lia| |unfold is_u64 in Hid; lia|done].
    unfold is_u64, u64_max in Hid. change (16 ^ Z.of_nat 16) with (2 ^ 64). lia.
  - assert (Hl : number_length (as_bytes "0x" ++ hex_padded 16 id ++ after ++ [b]) = 2%nat).
    { rewrite Hn, (assoc_L (++)), rev_app_distr, span_bytes_none; [done|]. by intros b' [= <-]. }
    rewrite parse_at_number; try done; rewrite ?Hl; try done. by apply Hw.
Qed.

(** * Witnesses *)

Lemma as_of_decimal_roundtrip_witness :
  parse_time_travel (as_bytes "SELECT * FROM t As Of TxnId 12 WHERE x") = Ok (as_bytes "SELECT * FROM t WHERE x", Some 12).
Proof.
  apply (as_of_decimal_roundtrip (as_bytes "SELECT * FROM t ") (as_bytes "As Of TxnId") (as_bytes " ") 12 (as_bytes " WHERE x"));
    [by split; vm_compute|done|by repeat constructor|by unfold is_u64, u64_max; lia|done].
Defined.

Lemma as_of_hex_only_last_witness :
  parse_time_travel (as_bytes "t AS OF TxnId 0x000000000000001f") = Ok (as_bytes "t", Some 31) ∧
  parse_time_travel (as_bytes "t AS OF TxnId 0x000000000000001f WHERE x") = Err "invalid AS OF TxnId hex literal: 0x".
Proof.
  apply (as_of_hex_only_last (as_bytes "t ") (as_bytes "AS OF TxnId") (as_bytes " ") 31 (as_bytes " WHERE ") 120);
    [by split; vm_compute|done|by repeat constructor|by unfold is_u64, u64_max; lia|done].
Defined.
