(* ===== verification/PointGet.v ===== *)
(** Point reads (read/point_get.rs) and the read contracts they assert
    (metadata/projection.rs): the current row of a primary key, and its row as
    of a transaction. *)

From stdpp Require Import base gmap strings list pretty sorting.
From S2P Require Import Prelude Kv Visibility Roaring Arrow DeltaTypes DeltaMerge Wal MemStore Frozen LayerStack ShadowColumns TxnManager PkIndex Disk Vortex VisFile SegMeta BloomCache ZoneMap WalUtils Cdc Checkpoint Db Insert TimeTravel.

Local Open Scope Z_scope.
Local Open Scope rd_scope.

(** * Read contracts (metadata/projection.rs) *)

Inductive ContractEnforcement := Advisory | Blocking.
Definition blocks_regressions (e : ContractEnforcement) : bool := match e with Blocking => true | Advisory => false end.
Inductive ProjectionSurface := SurfPointGet | SurfHistoricalPointGet | SurfTimeTravelScanner | SurfVtab.
Inductive SidecarClass := CoreRead | SanctionedSidecar.

Record ProjectionContract := {
  pc_surface : ProjectionSurface;
  pc_visibility : VisibilityProjection;
  pc_sidecar_class : SidecarClass;
  pc_evidence_hook : string;
  pc_enforcement : ContractEnforcement
}.

Definition assert_blocking_governance (c : ProjectionContract) : outcome unit :=
  if negb (blocks_regressions (pc_enforcement c)) then Panic else
  if bool_decide (pc_evidence_hook c = "") then Panic else Done tt.

Definition contract_point_get : ProjectionContract := {|
  pc_surface := SurfPointGet; pc_visibility := Online; pc_sidecar_class := CoreRead;
  pc_evidence_hook := "point_get direct read path currently has no routing evidence hook"; pc_enforcement := Blocking |}.
Definition contract_historical_point_get : ProjectionContract := {|
  pc_surface := SurfHistoricalPointGet; pc_visibility := Historical; pc_sidecar_class := CoreRead;
  pc_evidence_hook := "historical point_get uses historical visibility projection without router evidence";
  pc_enforcement := Blocking |}.
Definition contract_time_travel_scanner : ProjectionContract := {|
  pc_surface := SurfTimeTravelScanner; pc_visibility := Historical; pc_sidecar_class := CoreRead;
  pc_evidence_hook := "TimeTravelScanner uses historical projection; evidence remains local to time-travel surfaces";
  pc_enforcement := Blocking |}.
Definition contract_vtab : ProjectionContract := {|
  pc_surface := SurfVtab; pc_visibility := Vtab; pc_sidecar_class := SanctionedSidecar;
  pc_evidence_hook := "DuckDB VTab is a sanctioned sidecar and bypasses router evidence by design";
  pc_enforcement := Blocking |}.

(** * Point reads *)

Abbreviation Row := (gmap string RowValue).

(** The database with its delta layers, and the state of the router, which the
    historical read informs. *)
Record ReadDb (KV W C D Rt : Type) := {
  rd_db : RockDuck KV W C;
  rd_delta : DeltaLayerStack W D;
  rd_router : option Rt
}.
Arguments rd_db {KV W C D Rt} _. Arguments rd_delta {KV W C D Rt} _. Arguments rd_router {KV W C D Rt} _.

Section point_get.
Context `{HashIter} `{KVEngine KV} `{!Codec Z} `{!Codec (Z * Z)} `{!Codec (string * Z * Z)} `{!Codec (string * Z * Z * bytes)}
  `{!Codec SegmentMeta} `{!Codec VersionEntry} `{WalLog W} `{CdcWal C} `{DeltaDisk D} `{Roaring B}
  `{Arrow Arr} `{!Batches Arr} `{!VortexLib Arr} `{!Codec ColumnEncoding} `{Crc32}.
(** The directory, and what the router keeps of an observation. *)
Context {Rt : Type} (data_dir : string) (observe_sidecar_evidence : DeltaLayerStack W D → string → ProjectionContract → Rt → Rt).
Abbreviation DB := (ReadDb KV W C D Rt).
Abbreviation rt := (st DB RockDuckError).
Implicit Types s : DB.

Definition rd_set_db s db : DB := {| rd_db := db; rd_delta := rd_delta s; rd_router := rd_router s |}.
Definition rd_kv s : KV := db_kv (rd_db s).
Definition rd_disk s : Disk := ck_disk (db_ckpt (rd_db s)).
Definition rd_set_disk s (d : Disk) : DB :=
  rd_set_db s (set_ckpt (rd_db s) {| ck_disk := d; next_id := next_id (db_ckpt (rd_db s)); ck_wal := db_wal (rd_db s) |}).
Definition rd_files {A} (m : io RockDuckError A) : rt A := io_on rd_disk rd_set_disk m.
Definition rd_reads {A} (f : KV → Result A) : rt A := λ s, (s, Done (f (rd_kv s))).
Definition rd_outcome {A} (o : outcome A) : rt A := match o with Done a => io_ret a | Panic => io_panic end.
(** [db.snapshot()] *)
Definition rd_snapshot : rt TxnSnapshot := λ s,
  let '(db, snap) := db_snapshot (rd_db s) in (rd_set_db s db, Done (Ok snap)).
(** [db.delta_layer.query(..)] *)
Definition rd_query (id : string) (sid : TxnId) (cts : gmap TxnId Z) (active : gset TxnId) : rt (list DeltaCell) := λ s,
  let '(stk, o) := query_all (Arr := Arr) (B := B) (rd_delta s) id sid cts active in
  ({| rd_db := rd_db s; rd_delta := stk; rd_router := rd_router s |}, o).
(** A computation of the time-travel reader. *)
Definition rd_history {A} (m : st (KV * Disk) RockDuckError A) : rt A :=
  io_on (λ s, (rd_kv s, rd_disk s)) (λ s p, rd_set_disk (rd_set_db s (set_kv (rd_db s) p.1)) p.2) m.

(** A row the deltavis file lists; a file that does not read lists none. *)
Definition in_deltavis (layout : SegmentLayout) (row : Z) : rt bool :=
  there <-! rd_files (fs_exists (layout_deltavis_path layout));
  if negb there then io_ret false else
  entries <-! rd_files (io_ok (read_deltavis (vis_path layout)));
  io_ret (match entries with Some es => bool_decide (row ∈ es.*1) | None => false end).

(** The visibility batch of a row: [None] when the file does not have the row,
    [Some None] when the batch has no visibility columns. *)
Definition vis_entry (layout : SegmentLayout) (row : Z) : rt (option (option (Z * option Z))) :=
  there <-! rd_files (fs_exists (vis_path layout));
  if negb there then io_ret None else
  rd <-! rd_files (io_ok (VortexReader_open (Arr := Arr) (vis_path layout)));
  match rd ≫= λ r, read_batch_at r row with
  | None => io_ret None
  | Some (b, local_idx) =>
      if negb (ShadowColumns.has_visibility_columns (rb_fields b)) then io_ret (Some None) else
      '(c, d) <-! rd_outcome (extract_visibility_columns b);
      if negb (both_int64 c d) then io_panic else
      io_ret (Some (Some (value_u64 c local_idx, row_deleter (value_u64 d local_idx))))
  end.

(** The stored cells of a row; a column file that is missing, does not open or
    does not reach the row adds none. *)
Fixpoint read_cells (layout : SegmentLayout) (row : Z) (names : list string) (row_data : Row) : rt Row :=
  match names with
  | [] => io_ret row_data
  | n :: names' =>
      there <-! rd_files (fs_exists (col_path layout n));
      if negb there then read_cells layout row names' row_data else
      rd <-! rd_files (io_ok (VortexReader_open (Arr := Arr) (col_path layout n)));
      match rd ≫= λ r, read_batch_at r row with
      | None => read_cells layout row names' row_data
      | Some (b, local_idx) =>
          match rb_columns b with
          | [] => io_panic
          | a :: _ => read_cells layout row names' (<[n := extract_row_bytes a local_idx]> row_data)
          end
      end
  end.

(** The loop over the deltas. *)
Definition apply_delta (row : Z) (row_data : Row) (d : DeltaCell) : Row :=
  if negb (row_offset d =? row) then row_data else
  match after d with
  | Some a => if bool_decide (column d = "") then row_data else <[column d := row_of_bytes a]> row_data
  | None => row_data
  end.
Definition apply_row_deltas (row : Z) (row_data : Row) (deltas : list DeltaCell) : Row := foldl (apply_delta row) row_data deltas.

Definition get (pk : bytes) : rt (option Row) :=
  _ <-! rd_outcome (assert_blocking_governance contract_point_get);
  entry <-! rd_reads (λ kv, get_pk_index_by_pk kv pk);
  match entry with
  | None => io_ret None
  | Some (id, _, row) =>
      layout <-! rd_outcome (SegmentLayout_new data_dir id);
      gone <-! in_deltavis layout row;
      if gone : bool then io_ret None else
      vis <-! vis_entry layout row;
      hidden <-! match vis with
                 | Some (Some (c, d)) => snap <-! rd_snapshot; s <-! io_gets rd_db; io_ret (negb (is_visible (db_mvcc s) snap c d))
                 | _ => io_ret false
                 end;
      if hidden : bool then io_ret None else
      m <-! rd_reads (λ kv, get_segment_meta kv id);
      match m with
      | None => io_ret None
      | Some meta =>
          if bool_decide (columns meta = []) then io_ret None else
          row_data <-! read_cells layout row (cd_name <$> columns meta) ∅;
          snap <-! rd_snapshot;
          deltas <-! io_map_err (λ e, EQuery ("Delta layer query failed for seg " +:+ id +:+ ": " +:+ error_display e))
                       (rd_query id (snapshot_id snap) (snap_commit_ts_map snap) (snap_active_txns snap));
          io_ret (Some (apply_row_deltas row row_data deltas))
      end
  end.

(** The read from the files, when the version index has no answer. *)
Definition get_as_of_files (pk : bytes) (target_txn : Z) : rt (option Row) :=
  entry <-! rd_reads (λ kv, get_pk_index_by_pk kv pk);
  match entry with
  | None => io_ret None
  | Some (id, _, row) =>
      m <-! rd_reads (λ kv, get_segment_meta kv id);
      match m with
      | None => io_ret None
      | Some meta =>
          if bool_decide (columns meta = []) then io_ret None else
          layout <-! rd_outcome (SegmentLayout_new data_dir id);
          gone <-! in_deltavis layout row;
          if gone : bool then io_ret None else
          committed <-! rd_reads get_committed_txns;
          let historical := filter (λ e, e.2 ≤ target_txn) committed in
          vis <-! vis_entry layout row;
          s <-! io_gets rd_db;
          let hidden := match vis with
            | Some (Some (c, d)) =>
                negb (is_visible_at {| hv_created_txn := c; hv_deleted_txn := d |} (db_mvcc s)
                        (projection_context target_txn (dom historical) committed))
            | _ => false
            end in
          if hidden then io_ret None else
          row_data <-! read_cells layout row (cd_name <$> columns meta) ∅;
          match vis with
          | None => io_ret None
          | Some _ =>
              deltas <-! rd_query id target_txn historical ∅;
              io_ret (Some (apply_row_deltas row row_data deltas))
          end
      end
  end.

Definition get_as_of (table : string) (pk : bytes) (target_txn : Z) : rt (option Row) :=
  _ <-! rd_outcome (assert_blocking_governance contract_historical_point_get);
  _ <-! io_modify (λ s, {| rd_db := rd_db s; rd_delta := rd_delta s;
          rd_router := observe_sidecar_evidence (rd_delta s) table contract_historical_point_get <$> rd_router s |});
  reader <-! rd_reads time_travel_reader_new;
  v <-! rd_history (as_of_read (Arr := Arr) data_dir reader table pk target_txn);
  match v with
  | Some value => io_ret (Some {[ "value"%string := RValue value ]})
  | None => get_as_of_files pk target_txn
  end.
End point_get.

(** * The deltas of a row *)

Lemma apply_delta_other row base d col :
  (row_offset d, column d) ≠ (row, col) → apply_delta row base d !! col = base !! col.
Proof.
  intros Hne. unfold apply_delta. destruct (Z.eqb_spec (row_offset d) row) as [E|]; cbn [negb]; [|done].
  destruct (after d); [|done]. case_bool_decide; [done|]. apply lookup_insert_ne. congruence.
Qed.

Lemma apply_row_deltas_other row base ds col :
  Forall (λ d, (row_offset d, column d) ≠ (row, col)) ds → apply_row_deltas row base ds !! col = base !! col.
Proof.
  intros Hd. revert base. induction Hd as [|d ds Hd _ IH]; intros base; [done|].
  unfold apply_row_deltas in *. cbn. by rewrite IH, apply_delta_other.
Qed.

Lemma apply_row_deltas_at row base ds1 d ds2 :
  Forall (λ x, (row_offset x, column x) ≠ (row_offset d, column d)) ds1 →
  Forall (λ x, (row_offset x, column x) ≠ (row_offset d, column d)) ds2 →
  row_offset d = row → column d ≠ "" →
  apply_row_deltas row base (ds1 ++ d :: ds2) !! column d =
  match after d with Some a => Some (row_of_bytes a) | None => base !! column d end.
Proof.
  intros H1 H2 <- Hc. unfold apply_row_deltas. rewrite foldl_app. cbn [foldl].
  fold (apply_row_deltas (row_offset d) base ds1).
  fold (apply_row_deltas (row_offset d) (apply_delta (row_offset d) (apply_row_deltas (row_offset d) base ds1) d) ds2).
  rewrite apply_row_deltas_other by done. unfold apply_delta. rewrite Z.eqb_refl. cbn [negb].
  destruct (after d); [|by apply apply_row_deltas_other]. rewrite bool_decide_false by done. apply lookup_insert_eq.
Qed.

(** What the merged deltas of a segment make of a stored row. *)
Definition is_newest (cells : list DeltaCell) (row : Z) (col : string) (w : option DeltaCell) : Prop :=
  match w with
  | Some c => c ∈ cells ∧ row_offset c = row ∧ column c = col ∧
              ∀ c', c' ∈ cells → row_offset c' = row → column c' = col → txn_id c' ≤ txn_id c
  | None => ∀ c', c' ∈ cells → row_offset c' = row → column c' ≠ col
  end.

Lemma overlay_newest seg layers sid cts active row base col :
  Forall (λ c, DeltaTypes.seg_id c = seg) (concat layers) → col ≠ "" →
  ∃ w, is_newest (visible_cells layers sid cts active) row col w ∧
    apply_row_deltas row base (k_way_merge layers sid cts active) !! col =
    match w ≫= after with Some a => Some (row_of_bytes a) | None => base !! col end.
Proof.
  intros Hseg Hcol. set (vs := visible_cells layers sid cts active).
  assert (Hv : ∀ c, c ∈ vs → DeltaTypes.seg_id c = seg).
  { intros c [_ Hc]%list_elem_of_filter. by eapply Forall_forall in Hseg. }
  destruct (k_way_merge_values layers sid cts active) as [_ Hs].
  assert (Hin : ∀ c, c ∈ k_way_merge layers sid cts active →
            c ∈ vs ∧ ∀ c', c' ∈ vs → cell_key c' = cell_key c → txn_id c' ≤ txn_id c).
  { intros c Hc%elem_of_merge. destruct (dedup_inv_foldl vs) as [_ He Hm]. destruct (He _ _ _ Hc) as (_ & _ & Hcv). split; [done|].
    intros c' Hc' Ek. destruct (Hm _ Hc') as (e & Hg & Hle). rewrite Ek in Hg. unfold vs in Hg. rewrite Hc in Hg. by simplify_eq. }
  destruct (decide (Exists (λ c, (row_offset c, column c) = (row, col)) (k_way_merge layers sid cts active))) as [Hex|Hno].
  - apply Exists_exists in Hex as (c & Hc & [= Hr Hcc]). destruct (Hin c Hc) as [Hcv Hmax].
    exists (Some c). split.
    { split_and!; [done..|]. intros c' Hc' Hr' Hcc'. apply Hmax; [done|]. unfold cell_key. rewrite !Hv by done. congruence. }
    apply list_elem_of_split in Hc as (l1 & l2 & El). rewrite El in Hs, Hin |- *. rewrite <- Hcc. cbn [mbind option_bind].
    assert (Hne : ∀ x, x ∈ vs → DeltaMerge.key_lt x c ∨ DeltaMerge.key_lt c x → (row_offset x, column x) ≠ (row_offset c, column c)).
    { intros x Hx Hlt [= E1 E2]. unfold DeltaMerge.key_lt, cell_key in Hlt. rewrite E1, E2, (Hv x Hx), (Hv c Hcv) in Hlt.
      rewrite (proj2 (cmp_eq _ _) eq_refl) in Hlt. by destruct Hlt. }
    apply apply_row_deltas_at; [| |done|congruence].
    + apply Forall_forall. intros x Hx. apply Hne; [apply Hin; set_solver|]. left.
      clear -Hs Hx. induction l1 as [|y l1 IH]; [by apply elem_of_nil in Hx|]. cbn in Hs. apply StronglySorted_inv in Hs as [Hs Hf].
      apply elem_of_cons in Hx as [->|Hx]; [|by apply IH]. eapply Forall_forall in Hf; [done|set_solver].
    + apply Forall_forall. intros x Hx. apply Hne; [apply Hin; set_solver|]. right.
      apply StronglySorted_app_1_r in Hs. apply StronglySorted_inv in Hs as [_ Hf]. by eapply Forall_forall in Hf.
  - exists None. split.
    + intros c' Hc' Hr' Hcc'. apply Hno. destruct (dedup_inv_foldl vs) as [_ He Hm]. destruct (Hm _ Hc') as (e & Hg & _).
      destruct (He _ _ _ Hg) as (Ek & _ & Hev). apply Exists_exists. exists e. split.
      * apply elem_of_merge. by rewrite <- Ek.
      * unfold cell_key in Ek. congruence.
    + cbn. apply apply_row_deltas_other. apply Forall_forall. intros x Hx Hxe. apply Hno, Exists_exists. by exists x.
Qed.

(** * Point reads of the current state *)

Section get_proofs.
Context `{HashIter} `{KVEngine KV} `{!Codec Z} `{!Codec (Z * Z)} `{!Codec (string * Z * Z)} `{!Codec (string * Z * Z * bytes)}
  `{!Codec SegmentMeta} `{!Codec VersionEntry} `{WalLog W} `{CdcWal C} `{DeltaDisk D} `{Roaring B}
  `{Arrow Arr} `{!Batches Arr} `{!VortexLib Arr} `{!Codec ColumnEncoding} `{Crc32}.
Context {Rt : Type} (data_dir : string).
Abbreviation DB := (ReadDb KV W C D Rt).
Implicit Types s : DB.

(** What a step on the files keeps: the store, the delta layers and every part of
    the database but the disk; a snapshot keeps the next one. *)
Definition session_of s : KV * VisibilityManager * TxnSnapshot * DeltaLayerStack W D :=
  (rd_kv s, db_mvcc (rd_db s), (db_snapshot (rd_db s)).2, rd_delta s).
Definition frames {A} (m : st DB RockDuckError A) : Prop := ∀ s, session_of (m s).1 = session_of s.

Lemma frames_bind {A A'} (m : st DB RockDuckError A) (k : A → st DB RockDuckError A') :
  frames m → (∀ a, frames (k a)) → frames (io_bind m k).
Proof.
  intros Hm Hk s. unfold io_bind. specialize (Hm s). destruct (m s) as [s1 [[a|e]|]]; cbn in *; [|done..]. by rewrite Hk.
Qed.
Lemma frames_ret {A} (a : A) : frames (io_ret a).
Proof. done. Qed.
Lemma frames_panic {A} : frames (A := A) io_panic.
Proof. done. Qed.
Lemma frames_outcome {A} (o : outcome A) : frames (rd_outcome o).
Proof. by destruct o. Qed.
Lemma frames_files {A} (m : io RockDuckError A) : frames (rd_files m).
Proof.
  intros s. unfold rd_files, io_on. destruct (m _). unfold session_of, db_snapshot, cached_or. cbn.
  by destruct (cached_snapshot (rd_db s)).
Qed.
Lemma frames_reads {A} (f : KV → Result A) : frames (rd_reads f).
Proof. done. Qed.
Lemma frames_snapshot : frames rd_snapshot.
Proof.
  intros s. unfold rd_snapshot, db_snapshot, cached_or, session_of, rd_kv. destruct (cached_snapshot (rd_db s)) eqn:E; cbn.
  - unfold db_snapshot, cached_or. by rewrite E.
  - unfold db_snapshot, cached_or. by rewrite E.
Qed.
Hint Resolve frames_bind frames_ret frames_panic frames_outcome frames_files frames_reads frames_snapshot : core.

Lemma frames_in_deltavis layout row : frames (in_deltavis layout row).
Proof. unfold in_deltavis. apply frames_bind; [auto|]. intros [|]; cbn; auto. Qed.
Lemma frames_vis_entry layout row : frames (vis_entry (Arr := Arr) layout row).
Proof.
  unfold vis_entry. apply frames_bind; [auto|]. intros [|]; cbn [negb]; [|auto]. apply frames_bind; [auto|]. intros rd.
  destruct (rd ≫= _) as [[b i]|]; [|auto]. case_match; [auto|]. apply frames_bind; [auto|]. intros [c d]. case_match; auto.
Qed.
Lemma frames_read_cells layout row names base : frames (read_cells (Arr := Arr) layout row names base).
Proof.
  revert base. induction names as [|n names IH]; intros base; cbn [read_cells]; [auto|].
  apply frames_bind; [auto|]. intros [|]; cbn [negb]; [|auto]. apply frames_bind; [auto|]. intros rd.
  destruct (rd ≫= _) as [[b i]|]; [|auto]. destruct (rb_columns b); auto.
Qed.
Hint Resolve frames_in_deltavis frames_vis_entry frames_read_cells : core.

Lemma frames_returns {A} (m : st DB RockDuckError A) s a s' : frames m → io_returns m s a s' → session_of s' = session_of s.
Proof. intros Hm Hr. specialize (Hm s). by rewrite Hr in Hm. Qed.

Lemma snapshot_returns s snap s' : io_returns rd_snapshot s snap s' → snap = (db_snapshot (rd_db s)).2 ∧ session_of s' = session_of s.
Proof.
  intros Hr. split; [|exact (frames_returns _ _ _ _ frames_snapshot Hr)]. unfold io_returns, rd_snapshot in Hr. destruct (db_snapshot (rd_db s)). by simplify_eq.
Qed.

(** The cells that the three layers hold for a segment. *)
Definition segment_layers (stk : DeltaLayerStack W D) (id : string) (sid : TxnId) (layers : list (list DeltaCell)) : Prop :=
  ∃ l2d l3d, l2_get_visible (l2 stk) id sid = Ok l2d ∧
    frozen_get_visible (Arr := Arr) (B := B) (l3 stk) id = Done (Ok l3d) ∧
    layers = [(get_visible (l1 stk) id sid).2; l2d; l3d].

Lemma query_returns s id sid cts active ds s' :
  io_returns (rd_query (Arr := Arr) (B := B) id sid cts active) s ds s' →
  ∃ layers, segment_layers (rd_delta s) id sid layers ∧ ds = k_way_merge layers sid cts active.
Proof.
  unfold io_returns, rd_query, query_all. destruct (get_visible _ _ _) as [m l1d] eqn:E1. cbn.
  destruct (l2_get_visible _ _ _) as [l2d|] eqn:E2; [|done].
  destruct (frozen_get_visible (l3 (rd_delta s)) id) as [[l3d|]|] eqn:E3; [|done..]. intros [= <- <-].
  exists [l1d; l2d; l3d]. split; [|done]. exists l2d, l3d. by rewrite E1.
Qed.

(** The answer of the check against the visibility file. *)
Lemma hidden_returns s (vis : option (option (Z * option Z))) hidden s' :
  io_returns (match vis with
              | Some (Some (c, d)) => snap <-! rd_snapshot; x <-! io_gets rd_db; io_ret (negb (is_visible (db_mvcc x) snap c d))
              | _ => io_ret false
              end) s hidden s' →
  session_of s' = session_of s ∧ rd_disk s' = rd_disk s ∧
  (hidden = false → ∀ c d, vis = Some (Some (c, d)) → is_visible (db_mvcc (rd_db s)) (db_snapshot (rd_db s)).2 c d = true).
Proof.
  destruct vis as [[[c d]|]|]; [|by intros [= <- <-]..]. intros Hr.
  apply io_returns_bind in Hr as (snap & s1 & Hs & Hr). assert (rd_disk s1 = rd_disk s) as Hdisk.
  { unfold io_returns, rd_snapshot, db_snapshot, cached_or in Hs. destruct (cached_snapshot (rd_db s)); by injection Hs as <- _. }
  apply snapshot_returns in Hs as [-> Hf].
  apply io_returns_bind in Hr as (x & s2 & Hx & Hr). apply io_returns_gets in Hx as [-> ->].
  apply io_returns_ret in Hr as [-> ->]. split_and!; [done|done|]. intros Hh%negb_false_iff c' d' [= <- <-].
  injection Hf as _ Hm _ _. by rewrite <- Hm.
Qed.

(** The steps of a read that returns a row, each from the state that the one before
    left; the files are read one after the other, the store once. *)
Lemma get_returns pk s row s' :
  io_returns (get (Arr := Arr) (B := B) data_dir pk) s (Some row) s' →
  ∃ id g off layout vis meta base layers s1 s2 s3 s4,
    get_pk_index_by_pk (rd_kv s) pk = Ok (Some (id, g, off)) ∧ SegmentLayout_new data_dir id = Done layout ∧
    io_returns (in_deltavis layout off) s false s1 ∧
    io_returns (vis_entry (Arr := Arr) layout off) s1 vis s2 ∧ rd_disk s3 = rd_disk s2 ∧
    get_segment_meta (rd_kv s) id = Ok (Some meta) ∧ columns meta ≠ [] ∧
    io_returns (read_cells (Arr := Arr) layout off (cd_name <$> columns meta) ∅) s3 base s4 ∧
    let snap := (db_snapshot (rd_db s)).2 in
    (∀ c d, vis = Some (Some (c, d)) → is_visible (db_mvcc (rd_db s)) snap c d = true) ∧
    segment_layers (rd_delta s) id (snapshot_id snap) layers ∧
    row = apply_row_deltas off base (k_way_merge layers (snapshot_id snap) (snap_commit_ts_map snap) (snap_active_txns snap)).
Proof.
  unfold get. intros Hr. apply io_returns_bind in Hr as ([] & s1 & Hg & Hr). apply io_returns_ret in Hg as [_ ->].
  apply io_returns_bind in Hr as ([[[id g] off]|] & s1 & Hpk & Hr); [|by apply io_returns_ret in Hr as [? _]].
  unfold io_returns, rd_reads in Hpk. injection Hpk as <- Hpk.
  apply io_returns_bind in Hr as (layout & s2 & Hl & Hr).
  destruct (SegmentLayout_new data_dir id) as [lay|] eqn:El; [|discriminate Hl]. apply io_returns_ret in Hl as [-> ->].
  apply io_returns_bind in Hr as (gone & s3 & Hdv & Hr). pose proof (frames_returns _ _ _ _ (frames_in_deltavis _ _) Hdv) as F3.
  destruct gone; [by apply io_returns_ret in Hr as [? _]|].
  apply io_returns_bind in Hr as (vis & s4 & Hv & Hr). pose proof (frames_returns _ _ _ _ (frames_vis_entry _ _) Hv) as F4.
  apply io_returns_bind in Hr as (hidden & s5 & Hh & Hr). apply hidden_returns in Hh as (F5 & Hd5 & Hh).
  destruct hidden; [by apply io_returns_ret in Hr as [? _]|]. specialize (Hh eq_refl).
  apply io_returns_bind in Hr as (m & s6 & Hm & Hr). unfold io_returns, rd_reads in Hm. injection Hm as <- Hm.
  destruct m as [meta|]; [|by apply io_returns_ret in Hr as [? _]].
  case_bool_decide as Hcols; [by apply io_returns_ret in Hr as [? _]|].
  apply io_returns_bind in Hr as (base & s7 & Hc & Hr). pose proof (frames_returns _ _ _ _ (frames_read_cells _ _ _ _) Hc) as F7.
  apply io_returns_bind in Hr as (snap & s8 & Hs & Hr). apply snapshot_returns in Hs as [-> F8].
  apply io_returns_bind in Hr as (ds & s9 & Hq & Hr). apply io_returns_map_err, query_returns in Hq as (layers & Hlay & ->).
  apply io_returns_ret in Hr as [[= ->] _].
  assert (E7 : session_of s7 = session_of s) by congruence. assert (E8 : session_of s8 = session_of s) by congruence.
  assert (E4 : session_of s4 = session_of s) by congruence. assert (E5 : session_of s5 = session_of s) by congruence.
  injection E7 as _ _ E7 _. injection E8 as _ _ _ E8. injection E4 as _ E4a E4b _. injection E5 as E5 _ _ _.
  rewrite E7, E8 in Hlay. rewrite E4a, E4b in Hh. rewrite E5 in Hm. rewrite E7.
  exists id, g, off, lay, vis, meta, base, layers, s3, s4, s5, s7. by split_and!.
Qed.

(** C22: A point read is a consistent snapshot read.  A row that [get] returns is the
    one the primary-key index names; the deltavis file of its segment, read in the
    state of the call, does not list it; the creator and deleter that its visibility
    file holds for it, if any, make it visible to the session's snapshot; its base is
    read from the files of all columns of the segment's record; and each column of the
    result is the newest patch visible to that same snapshot over the three delta
    layers, or the base cell when that patch has no new value or there is none;
    provided that the layers hold patches of that segment only. *)
Theorem get_reads_snapshot pk s row s' :
  io_returns (get (Arr := Arr) (B := B) data_dir pk) s (Some row) s' →
  let snap := (db_snapshot (rd_db s)).2 in
  (∀ id g off layers, get_pk_index_by_pk (rd_kv s) pk = Ok (Some (id, g, off)) →
     segment_layers (rd_delta s) id (snapshot_id snap) layers → Forall (λ c, DeltaTypes.seg_id c = id) (concat layers)) →
  ∃ id g off layout vis meta base layers s1 s2 s3 s4,
    get_pk_index_by_pk (rd_kv s) pk = Ok (Some (id, g, off)) ∧ SegmentLayout_new data_dir id = Done layout ∧
    io_returns (in_deltavis layout off) s false s1 ∧
    io_returns (vis_entry (Arr := Arr) layout off) s1 vis s2 ∧
    (∀ c d, vis = Some (Some (c, d)) → is_visible (db_mvcc (rd_db s)) snap c d = true) ∧
    get_segment_meta (rd_kv s) id = Ok (Some meta) ∧ rd_disk s3 = rd_disk s2 ∧
    io_returns (read_cells (Arr := Arr) layout off (cd_name <$> columns meta) ∅) s3 base s4 ∧
    segment_layers (rd_delta s) id (snapshot_id snap) layers ∧
    ∀ col, col ≠ "" → ∃ w,
      is_newest (visible_cells layers (snapshot_id snap) (snap_commit_ts_map snap) (snap_active_txns snap)) off col w ∧
      row !! col = match w ≫= after with Some a => Some (row_of_bytes a) | None => base !! col end.
Proof.
  intros Hr snap Hseg.
  destruct (get_returns _ _ _ _ Hr) as (id & g & off & layout & vis & meta & base & layers & s1 & s2 & s3 & s4
    & Hpk & Hl & Hdv & Hv & Hd & Hm & _ & Hc & Hh & Hlay & ->).
  exists id, g, off, layout, vis, meta, base, layers, s1, s2, s3, s4. split_and!; [done..|].
  intros col Hcol. apply (overlay_newest id); [by apply (Hseg id g off)|done].
Qed.
End get_proofs.

(** * A row that was deleted *)

Section deleted.
Context `{HashIter} `{KVEngineLaws KV} `{!Codec Z} `{!Codec (Z * Z)} `{!Codec (string * Z * Z)} `{!Codec (string * Z * Z * bytes)}
  `{!Codec SegmentMeta} `{!Codec TableStats} `{!Codec ZoneMapStats} `{!Codec VersionEntry}
  `{WalLog W} `{CdcWal C} `{DeltaDisk D} `{Roaring B} `{BoundedCache M CacheEntry} `{BloomLib F}
  `{Arrow Arr} `{!Batches Arr} `{!VortexLib Arr} `{!Codec ColumnEncoding} `{Crc32} `{!ArrowIpc Arr}.
Context {Rt : Type} (data_dir : string) (observe : DeltaLayerStack W D → string → ProjectionContract → Rt → Rt).

Lemma lookup_gone (kv : KV) pk r : kv_abs kv CF_PK_IDX !! pk_lookup_key pk = None → get_pk_index_by_pk kv pk = Ok r → r = None.
Proof.
  intros Hn Hr. unfold get_pk_index_by_pk in Hr. destruct (kv_get _ _ _) as [o|] eqn:E; cbn in Hr; [|done].
  apply kv_get_spec in E. rewrite Hn in E. subst o. by simplify_eq.
Qed.

Lemma delete_row_gone now table pk e (s s' : WriteDb KV W C M F) :
  wt_returns (delete_row (Arr := Arr) data_dir now table pk e) s tt s' →
  kv_abs (db_kv (wd_db s')) CF_PK_IDX !! pk_lookup_key pk = None.
Proof.
  unfold delete_row. intros Hr. apply wt_returns_bind in Hr as (t & s1 & _ & Hr).
  apply wt_returns_bind in Hr as ([[id g] off] & s2 & _ & Hr).
  do 5 apply wt_returns_bind in Hr as (? & ? & _ & Hr).
  apply wt_returns_bind in Hr as ([] & s3 & Hd & Hr). unfold wt_returns, on_kv in Hd.
  destruct (delete_pk_index_double _ _ _ _) as [kv' r] eqn:Ed. injection Hd as <- ->.
  apply wt_returns_bind in Hr as (? & s4 & Hm & Hr). unfold wt_returns, modify, wt_lift, io_modify in Hm. injection Hm as <- _.
  unfold wt_returns, on_files, wt_lift, io_on in Hr. destruct (mark_visibility_deleted _ _ _ _ _) as [d o]. injection Hr as <- ->.
  cbn. pose proof (delete_pk_index_abs _ _ _ _ _ Ed CF_PK_IDX) as Hk. rewrite bool_decide_true in Hk by done.
  rewrite Hk. apply lookup_delete_eq.
Qed.

(** A deletion is not versioned for point reads.  Once [delete_row] has
    returned, before its transaction commits and whatever becomes of it, no point
    read returns the row: neither the current one nor the one as of any
    transaction, earlier ones included. *)
Theorem delete_ends_point_reads now table pk e (s s' : WriteDb KV W C M F) (r : ReadDb KV W C D Rt) :
  wt_returns (delete_row (Arr := Arr) data_dir now table pk e) s tt s' → rd_db r = wd_db s' →
  (∀ row r', io_returns (get (Arr := Arr) (B := B) data_dir pk) r row r' → row = None) ∧
  (∀ target row r', io_returns (get_as_of (Arr := Arr) (B := B) data_dir observe table pk target) r row r' → row = None).
Proof.
  intros Hd%delete_row_gone Er. split.
  - intros row r' Hr. unfold get in Hr. apply io_returns_bind in Hr as ([] & r1 & Hg & Hr). apply io_returns_ret in Hg as [_ ->].
    apply io_returns_bind in Hr as (entry & r1 & Hpk & Hr). unfold io_returns, rd_reads, rd_kv in Hpk. injection Hpk as <- Hpk.
    rewrite Er in Hpk. apply lookup_gone in Hpk as ->; [|done]. by apply io_returns_ret in Hr as [-> _].
  - intros t row r' Hr. unfold get_as_of in Hr. apply io_returns_bind in Hr as ([] & r1 & Hg & Hr). apply io_returns_ret in Hg as [_ ->].
    apply io_returns_bind in Hr as ([] & r1 & Ho & Hr). apply io_returns_modify in Ho.
    assert (rd_db r1 = wd_db s') as E1 by (by subst r1). clear Ho Er.
    apply io_returns_bind in Hr as (reader & r2 & Hn & Hr). unfold io_returns, rd_reads in Hn. injection Hn as <- _.
    apply io_returns_bind in Hr as (v & r2 & Hv & Hr). apply io_returns_on in Hv as (p & Hv & ->).
    unfold as_of_read in Hv. apply io_returns_bind in Hv as (entry & p1 & Hpk & Hv).
    unfold io_returns, tt_read in Hpk. injection Hpk as <- Hpk. cbn in Hpk. unfold rd_kv in Hpk. rewrite E1 in Hpk.
    apply lookup_gone in Hpk as ->; [|done]. apply io_returns_ret in Hv as [-> ->].
    unfold get_as_of_files in Hr. apply io_returns_bind in Hr as (entry & r3 & Hpk & Hr).
    unfold io_returns, rd_reads in Hpk. injection Hpk as <- Hpk. cbn in Hpk. unfold rd_kv in Hpk. rewrite E1 in Hpk.
    apply lookup_gone in Hpk as ->; [|done]. by apply io_returns_ret in Hr as [-> _].
Qed.
End deleted.

(** An answer of the version index has one column, named [value], with the
    bytes of the version; no patch of the delta layers is applied to it. *)
Theorem as_of_index_answer `{HashIter} `{KVEngine KV} `{!Codec Z} `{!Codec (Z * Z)} `{!Codec (string * Z * Z)} `{!Codec (string * Z * Z * bytes)}
    `{!Codec SegmentMeta} `{!Codec VersionEntry} `{WalLog W} `{CdcWal C} `{DeltaDisk D} `{Roaring B}
    `{Arrow Arr} `{!Batches Arr} `{!VortexLib Arr} `{!Codec ColumnEncoding} `{Crc32} {Rt} data_dir
    (observe : DeltaLayerStack W D → string → ProjectionContract → Rt → Rt) table pk t (s : ReadDb KV W C D Rt) reader v p :
  time_travel_reader_new (rd_kv s) = Ok reader →
  io_returns (as_of_read (Arr := Arr) data_dir reader table pk t) (rd_kv s, rd_disk s) (Some v) p →
  ∃ s', io_returns (get_as_of (Arr := Arr) (B := B) data_dir observe table pk t) s (Some {["value" := RValue v]}) s' ∧
    rd_delta s' = rd_delta s.
Proof.
  intros Hn Hr. eexists. unfold get_as_of. split.
  - apply io_returns_bind. exists tt, s. split; [done|]. apply io_returns_bind. eexists tt, _. split; [by apply io_returns_modify|].
    apply io_returns_bind. eexists reader, _. split; [unfold io_returns, rd_reads; by rewrite <- Hn|].
    apply io_returns_bind. exists (Some v). eexists. split; [apply io_returns_on; exists p; split; [exact Hr|reflexivity]|].
    by apply io_returns_ret.
  - done.
Qed.

(** * Witnesses *)

Section witnesses.
#[local] Existing Instances w_z w_zz w_3 w_4 w_meta w_zone w_enc sample_crc.
#[local] Instance w_stats' : Codec TableStats := table_codec [demo_stats 3; demo_stats 8].
(** The row before its deletion. *)
Definition demo_before (n : bool) : RecordBatch ListArray :=
  {| rb_fields := [{| f_name := "v"; f_type := Int64; f_nullable := n |}]; rb_columns := [int_array [Some 5]]; rb_rows := 1 |}.
#[local] Instance w_ipc' : ArrowIpc ListArray := table_ipc [demo_full; demo_val; demo_before true; demo_before false].
#[local] Instance w_version : Codec VersionEntry :=
  {| encode _ := Err (CEncode "none"); decode _ := Err (CDecode "none") |}.

(** A row inserted by transaction 3, and a patch of its cell by transaction 5. *)
Definition demo_inserted : WriteDb MemKV MemLog (list CdcOp) (MapCache CacheEntry) (list bytes) :=
  match insert (Arr := ListArray) "data" demo_picker (f64_of_Z 0) "1" 7 "t" demo_pk demo_cols None (demo_write_db []) with
  | Some (s, _) => s
  | None => demo_write_db []
  end.
Definition demo_patch : DeltaCell :=
  {| DeltaTypes.seg_id := "seg_1"; row_offset := 0; column := "v"; txn_id := 5; before := None; after := Some [42];
     committed := true; ts := 0 |}.
Definition demo_layers : DeltaLayerStack MemLog ListDisk :=
  {| l1 := demo_mem; l2 := {| ld_cells := [demo_patch] |}; l3 := DeltaL3Frozen_new "l3" ∅;
     l2_patch_count := 0; l3_patch_count := 0; recent_flush := []; flush_epoch := 0 |}.
(** The session's snapshot: both transactions are committed. *)
Definition demo_read_db (db : RockDuck MemKV MemLog (list CdcOp)) (stk : DeltaLayerStack MemLog ListDisk) : ReadDb MemKV MemLog (list CdcOp) ListDisk unit :=
  {| rd_db := set_cached db (Some {| snapshot_id := 9; snap_active_txns := ∅; isolation := Snapshot;
       snap_commit_ts_map := {[3 := 4; 5 := 6]} |}); rd_delta := stk; rd_router := None |}.
Abbreviation demo_get := (get (Arr := ListArray) (B := SortedBitmap) "data" demo_pk).

Lemma get_reads_snapshot_witness :
  ∃ row s' w cells, io_returns demo_get (demo_read_db (wd_db demo_inserted) demo_layers) (Some row) s' ∧
    is_newest cells 0 "v" w ∧ row !! "v" = match w ≫= after with Some a => Some (row_of_bytes a) | None => None end ∧
    row !! "v" = Some (RValue [42]).
Proof.
  destruct (demo_get (demo_read_db (wd_db demo_inserted) demo_layers)) as [s' o] eqn:E.
  assert (o = Done (Ok (Some {["v" := RValue [42]]}))) as -> by (apply (f_equal snd) in E; vm_compute in E; by rewrite <- E).
  destruct (get_reads_snapshot (Arr := ListArray) (B := SortedBitmap) "data" demo_pk _ _ s' E) as
    (id & g & off & layout & vis & meta & base & layers & ? & ? & ? & ? & Hpk & _ & _ & _ & _ & _ & _ & _ & Hl & Hcol).
  { intros id g off layers Hpk (l2d & l3d & [= <-] & [= <-] & ->). vm_compute in Hpk. injection Hpk as <- _ _.
    vm_compute. by repeat constructor. }
  destruct (Hcol "v" ltac:(done)) as (w & Hw & Hv).
  vm_compute in Hpk. injection Hpk as <- _ <-.
  exists {["v" := RValue [42]]}, s', w. eexists. split_and!; [exact E|exact Hw| |by vm_compute].
  rewrite Hv. destruct (w ≫= after) eqn:Ew; [done|]. exfalso. destruct Hl as (l2d & l3d & [= <-] & [= <-] & ->).
  destruct w as [c|]; cbn in Ew, Hw.
  - destruct Hw as [Hin _]. vm_compute in Hin. apply list_elem_of_singleton in Hin as ->. discriminate.
  - apply (Hw demo_patch); [|done|done]. vm_compute. left.
Defined.

(** A patch of another segment at the same offset replaces the cell. *)
Definition demo_foreign : DeltaLayerStack MemLog ListDisk :=
  set_l1 demo_layers (default demo_mem (fst <$> put demo_mem {| DeltaTypes.seg_id := "seg_2"; row_offset := 0; column := "v";
    txn_id := 5; before := None; after := Some [99]; committed := true; ts := 0 |} false)).
Example get_applies_foreign_patch :
  (demo_get (demo_read_db (wd_db demo_inserted) demo_foreign)).2 = Done (Ok (Some {["v" := RValue [99]]})).
Proof. vm_compute. reflexivity. Qed.

Definition demo_observe (_ : DeltaLayerStack MemLog ListDisk) (_ : string) (_ : ProjectionContract) (u : unit) : unit := u.
Lemma delete_ends_point_reads_witness :
  ∃ s', wt_returns (delete_row (Arr := ListArray) "data" 7 "t" demo_pk (Some 8)) demo_inserted tt s' ∧
    ∀ target row r', io_returns (get_as_of (Arr := ListArray) (B := SortedBitmap) "data" demo_observe "t" demo_pk target)
      {| rd_db := wd_db s'; rd_delta := demo_layers; rd_router := None |} row r' → row = None.
Proof.
  destruct (delete_row (Arr := ListArray) "data" 7 "t" demo_pk (Some 8) demo_inserted) as [[s' o]|] eqn:E.
  2:{ exfalso. apply (f_equal (λ x, match x with Some _ => true | None => false end)) in E. by vm_compute in E. }
  assert (o = Done (Ok tt)) as ->.
  { apply (f_equal (λ x, snd <$> x)) in E. vm_compute in E. by injection E as <-. }
  exists s'. split; [exact E|].
  refine (proj2 (delete_ends_point_reads (Arr := ListArray) (B := SortedBitmap) "data" demo_observe 7 "t" demo_pk (Some 8)
    demo_inserted s' {| rd_db := wd_db s'; rd_delta := demo_layers; rd_router := None |} E eq_refl)).
Defined.
End witnesses.
