(* ===== verification/ScanSegment.v ===== *)
(** The read of one segment (read/scan.rs): the column files put together into
    batches, the visibility files and deleted rows applied to them, the decoding
    of patches into columns, and the three ways a segment is executed. *)

From stdpp Require Import base gmap strings list pretty.
From S2P Require Import Prelude Kv Visibility Roaring Arrow DeltaTypes DeltaMerge DeltaApply Wal MemStore Frozen LayerStack ShadowColumns TxnManager PkIndex Bloom Filter FilterEval ZoneMap Disk Vortex VisFile SegMeta BloomCache WalUtils Cdc Checkpoint Db Insert AccessTracker TimeTravel PointGet.

Local Open Scope Z_scope.
Local Open Scope rd_scope.

(** * Values of patches *)

Definition data_type_to_arrow (dt : Meta.DataType) : Arrow.DataType :=
  match dt with
  | Meta.Int8 => Int8 | Meta.Int16 => Int16 | Meta.Int32 => Int32 | Meta.Int64 => Int64
  | Meta.UInt8 => UInt8 | Meta.UInt16 => UInt16 | Meta.UInt32 => UInt32 | Meta.UInt64 => UInt64
  | Meta.Float32 => Float32 | Meta.Float64 => Float64 | Meta.Bool => Boolean
  | Meta.Utf8 => Utf8 | Meta.LargeUtf8 => LargeUtf8 | Meta.Binary => Binary | Meta.LargeBinary => LargeBinary
  | Meta.Date32 => Date32 | Meta.Date64 => Date64
  | Meta.TimestampMicros => Timestamp "Microsecond" | Meta.TimestampMillis => Timestamp "Millisecond"
  end.

Definition expect_len (bs : bytes) (expected : Z) (name : string) : Result unit :=
  if zlen bs =? expected then Ok tt
  else Err (EInternal ("delta decode " +:+ name +:+ " expected " +:+ pretty expected +:+ " bytes, got " +:+ pretty (zlen bs))).

(** The type of the array that is built, which for dates and timestamps is the
    integer type of the same width. *)
Definition built_type (dt : Meta.DataType) : Arrow.DataType :=
  match dt with
  | Meta.Date32 => Int32
  | Meta.Date64 | Meta.TimestampMicros | Meta.TimestampMillis => Int64
  | _ => data_type_to_arrow dt
  end.

(** The decoders, one per type; of an invalid string the position is left out of
    the message. *)
Definition decode_cell (dt : Meta.DataType) (b : bytes) : Result Value :=
  let fixed (n : Z) (name : string) (mk : Z → Value) := _ <-? expect_len b n name; Ok (mk (from_le_bytes b)) in
  match dt with
  | Meta.Int8 => fixed 1 "i8" (λ z, VInt (as_signed 8 z))
  | Meta.UInt8 => fixed 1 "u8" VInt
  | Meta.Bool => fixed 1 "bool" (λ z, VBool (negb (z =? 0)))
  | Meta.Int16 => fixed 2 "i16" (λ z, VInt (as_signed 16 z))
  | Meta.UInt16 => fixed 2 "u16" VInt
  | Meta.Int32 | Meta.Date32 => fixed 4 "i32" (λ z, VInt (as_signed 32 z))
  | Meta.UInt32 => fixed 4 "u32" VInt
  | Meta.Float32 => fixed 4 "f32" VFloat
  | Meta.Int64 | Meta.Date64 | Meta.TimestampMicros | Meta.TimestampMillis => fixed 8 "i64" (λ z, VInt (as_signed 64 z))
  | Meta.UInt64 => fixed 8 "u64" VInt
  | Meta.Float64 => fixed 8 "f64" VFloat
  | Meta.Utf8 => match from_utf8 b with Some s => Ok (VStr s) | None => Err (EInternal "delta decode utf8: invalid utf-8") end
  | Meta.LargeUtf8 => match from_utf8 b with Some s => Ok (VStr s) | None => Err (EInternal "delta decode largeutf8: invalid utf-8") end
  | Meta.Binary | Meta.LargeBinary => Ok (VBin b)
  end.

Fixpoint decode_cells (dt : Meta.DataType) (values : list (option bytes)) : Result (list (option Value)) :=
  match values with
  | [] => Ok []
  | None :: vs => rest <-? decode_cells dt vs; Ok (None :: rest)
  | Some b :: vs => v <-? decode_cell dt b; rest <-? decode_cells dt vs; Ok (Some v :: rest)
  end.

Section values.
Context `{Arrow Arr} `{!Batches Arr}.

Definition build_array_from_delta_values (dt : Meta.DataType) (values : list (option bytes)) : Result Arr :=
  vs <-? decode_cells dt values; Ok (arr_build (built_type dt) vs).

(** The patches by row and column; a later one replaces an earlier one. *)
Definition delta_rows_of (deltas : list DeltaCell) : btree Z (gmap string (option bytes)) :=
  foldl (λ m d, bt_insert (row_offset d) (<[column d := after d]> (default ∅ (bt_get (row_offset d) m))) m) [] deltas.

Definition delta_column (rows : btree Z (gmap string (option bytes))) (cd : ColumnDef) : Result Arr :=
  build_array_from_delta_values (cd_data_type cd) ((λ e : Z * gmap string (option bytes), default None (e.2 !! cd_name cd)) <$> rows).

Fixpoint delta_columns (rows : btree Z (gmap string (option bytes))) (cds : list ColumnDef) : Result (list Arr) :=
  match cds with
  | [] => Ok []
  | cd :: cds' => a <-? delta_column rows cd; rest <-? delta_columns rows cds'; Ok (a :: rest)
  end.

Definition meta_field (cd : ColumnDef) : Field :=
  {| f_name := cd_name cd; f_type := data_type_to_arrow (cd_data_type cd); f_nullable := true |}.

Definition build_delta_only_batch (meta : SegmentMeta) (deltas : list DeltaCell) : Result (RecordBatch Arr) :=
  let rows := delta_rows_of deltas in
  cols <-? delta_columns rows (columns meta);
  map_err (λ e, EInternal ("Build delta-only batch: " +:+ e)) (try_new (meta_field <$> columns meta) cols).
End values.

(** * Rows a snapshot sees *)

Section visibility_filter.
Context `{Arrow Arr} `{!Batches Arr} `{VisFilter F}.
Abbreviation batch := (RecordBatch Arr).
Context (vis_filter : F) (snapshot : TxnSnapshot) (deleted_rows : gset Z).

(** A visibility batch of fewer than two columns panics; one whose columns are
    not integers shows the row. *)
Definition is_row_visible_in_vis_batch (vis_batch : batch) (row_idx : Z) : outcome bool :=
  match rb_columns vis_batch with
  | c :: d :: _ =>
      if both_int64 c d then
        Done (is_row_visible vis_filter (snapshot_id snapshot) (value_u64 c row_idx) (row_deleter (value_u64 d row_idx))
                (snap_active_txns snapshot) (snap_commit_ts_map snapshot))
      else Done true
  | _ => Panic
  end.

(** The inner loop: the visibility batches that end before the row are left
    behind.  [vis] is the list from [vis_batch_idx] on. *)
Fixpoint skip_vis (vis : list batch) (total_vis_rows row : Z) : list batch * Z :=
  match vis with
  | [] => ([], total_vis_rows)
  | b :: vis' => if total_vis_rows + rb_rows b <=? row then skip_vis vis' (total_vis_rows + rb_rows b) row else (vis, total_vis_rows)
  end.

(** One row of the data: its flag, and the cursor after it. *)
Definition row_flag (cursor : list batch * Z) (row : Z) : outcome ((list batch * Z) * bool) :=
  if bool_decide (row ∈ deleted_rows) then Done (cursor, false) else
  let '(vis, total) := skip_vis cursor.1 cursor.2 row in
  match vis with
  | [] => Done ((vis, total), true)
  | b :: _ =>
      let local_vis_idx := row - total in
      if rb_rows b <=? local_vis_idx then Done ((vis, total), true) else
      v ← is_row_visible_in_vis_batch b local_vis_idx;
      Done ((vis, total), v)
  end.

Fixpoint row_flags (cursor : list batch * Z) (rows : list Z) : outcome ((list batch * Z) * list bool) :=
  match rows with
  | [] => Done (cursor, [])
  | r :: rows' =>
      '(cursor1, v) ← row_flag cursor r;
      '(cursor2, vs) ← row_flags cursor1 rows';
      Done (cursor2, v :: vs)
  end.

Definition apply_visibility_mask (b : batch) (mask : list bool) : result VisibilityError batch :=
  if negb (zlen mask =? rb_rows b) then Err (LengthMismatch (zlen mask) (rb_rows b)) else
  map_err VisFilterFailed (filter_record_batch b mask).

Fixpoint filter_data (cursor : list batch * Z) (row : Z) (data : list batch) : outcome (Result (list batch)) :=
  match data with
  | [] => Done (Ok [])
  | b :: data' =>
      '(cursor', mask) ← row_flags cursor (seqZ row (rb_rows b));
      match apply_visibility_mask b mask with
      | Err e => Done (Err (EInternal ("visibility filter failed (batch " +:+ pretty (rb_rows b) +:+ " rows): " +:+ VisibilityError_display e)))
      | Ok f => rest ← filter_data cursor' (row + rb_rows b) data'; Done (x <-? rest; Ok (f :: x))
      end
  end.

Definition filter_batches_by_visibility_impl (vis_batches data_batches : list batch) : outcome (Result (list batch)) :=
  if bool_decide (vis_batches = []) && bool_decide (deleted_rows = ∅) then Done (Ok data_batches)
  else filter_data (vis_batches, 0) 0 data_batches.
End visibility_filter.

(** * The files of a segment *)

Section files.
Context `{Arrow Arr} `{!Batches Arr} `{!VortexLib Arr} `{!Codec ColumnEncoding} `{Crc32} `{BloomEnv} `{!Codec GranuleZoneMapIndex}.
Abbreviation batch := (RecordBatch Arr).

Definition read_visibility_batches (layout : SegmentLayout) : io RockDuckError (list batch) :=
  there <-! fs_exists (vis_path layout);
  if negb there then io_ret [] else
  io_map_err (λ e, EReadPath ("failed to read visibility batches from " +:+ vis_path layout +:+ ": " +:+ error_display e))
    (r <-! VortexReader_open (vis_path layout); io_ret (read_all_batches r)).

(** The test of [vis_batches] repeats the one of the file. *)
Definition read_deleted_rows (layout : SegmentLayout) (vis_batches : list batch) : io RockDuckError (gset Z) :=
  there <-! fs_exists (layout_deltavis_path layout);
  if bool_decide (vis_batches = []) && negb there then io_ret ∅ else
  if negb there then io_ret ∅ else
  entries <-! read_deltavis (vis_path layout);
  io_ret (list_to_set entries.*1).

(** The columns that have batches, with their fields. *)
Fixpoint open_data_columns (layout : SegmentLayout) (cds : list ColumnDef) : io RockDuckError (list (Field * list batch)) :=
  match cds with
  | [] => io_ret []
  | cd :: cds' =>
      there <-! fs_exists (col_path layout (cd_name cd));
      if negb there then open_data_columns layout cds' else
      r <-! VortexReader_open (col_path layout (cd_name cd));
      rest <-! open_data_columns layout cds';
      io_ret (match read_all_batches r with [] => rest | bs => (meta_field cd, bs) :: rest end)
  end.

Definition min_batch_count (cols : list (Field * list batch)) : nat :=
  match cols with [] => 0%nat | c :: cols' => foldl (λ n c, n `min` length c.2)%nat (length c.2) cols' end.

(** One round of the loop; a batch that a column lacks is passed over. *)
Definition aligned_batch (cols : list (Field * list batch)) (batch_idx : nat) : outcome (Result (option batch)) :=
  arrs ← mapM (λ b : batch, match rb_columns b with a :: _ => Done a | [] => Panic end)
           (omap (λ c : Field * list batch, c.2 !! batch_idx) cols);
  if (length arrs <? length cols)%nat then Done (Ok None) else
  Done (match try_new cols.*1 arrs with
        | Ok b => Ok (Some b)
        | Err e => Err (EInternal ("Build batch: " +:+ e))
        end).
Fixpoint aligned_batches (cols : list (Field * list batch)) (idxs : list nat) : outcome (Result (list batch)) :=
  match idxs with
  | [] => Done (Ok [])
  | i :: idxs' =>
      r ← aligned_batch cols i;
      match r with
      | Err e => Done (Err e)
      | Ok o => rest ← aligned_batches cols idxs'; Done (x <-? rest; Ok (option_list o ++ x))
      end
  end.

Definition read_vortex_segment (layout : SegmentLayout) (meta : SegmentMeta) : io RockDuckError (list batch) :=
  if bool_decide (columns meta = []) then io_ret [] else
  cols <-! open_data_columns layout (columns meta);
  if bool_decide (length cols = 0%nat) then io_ret [] else
  let n := min_batch_count cols in
  let misaligned := existsb (λ c : Field * list batch, negb (length c.2 =? n)%nat) cols in
  result <-! io_outcome (aligned_batches cols (seq 0 n));
  if misaligned && bool_decide (length result = 0%nat)
  then io_throw (EInternal "scan: all batches misaligned — no valid aligned batches found") else io_ret result.

(** The zone map of a column is read from its file. *)
Definition or_group_may_overlap (layout : SegmentLayout) (meta : SegmentMeta) (g : ZoneMapOrGroup) : io RockDuckError bool :=
  let names := cd_name <$> columns meta in
  if negb (bool_decide (g_column g ∈ names)) then io_ret true else
  there <-! fs_exists (block_zm_path layout (g_column g));
  if negb there then io_ret true else
  r <-! io_try (fs_read (block_zm_path layout (g_column g)));
  io_outcome (b ← evaluate_or_group_for_segment names (λ _, Some (map_err err_io r)) g; Done (Ok b)).
Fixpoint no_or_group_overlaps (layout : SegmentLayout) (meta : SegmentMeta) (gs : list ZoneMapOrGroup) : io RockDuckError bool :=
  match gs with
  | [] => io_ret true
  | g :: gs' =>
      o <-! or_group_may_overlap layout meta g;
      if o : bool then io_ret false else no_or_group_overlaps layout meta gs'
  end.
Definition skip_segment (layout : SegmentLayout) (meta : SegmentMeta) (group : option ZoneMapPredicateGroup) : io RockDuckError bool :=
  match group with
  | Some g =>
      if has_cross_column_or g || bool_decide (groups g = []) then io_ret false
      else no_or_group_overlaps layout meta (groups g)
  | None => io_ret false
  end.
End files.

(** * Executing a segment *)

Inductive SegmentExecutionTemplate := SegDeltaOnly | SegVortexOnly | SegCooperativeMerge.

Record SegmentReadStageOutput (Arr : Type) := {
  so_seg_id : string;
  so_original_index : Z;
  so_batches : list (RecordBatch Arr);
  so_base_batches : Z;
  so_delta_rows : Z;
  so_rows_after_visibility : Z;
  so_template : SegmentExecutionTemplate
}.
Arguments so_seg_id {Arr} _. Arguments so_original_index {Arr} _. Arguments so_batches {Arr} _. Arguments so_base_batches {Arr} _.
Arguments so_delta_rows {Arr} _. Arguments so_rows_after_visibility {Arr} _. Arguments so_template {Arr} _.

Definition total_rows_of {Arr} (bs : list (RecordBatch Arr)) : Z := foldr (λ b n, rb_rows b + n) 0 bs.

(** Nothing is read. *)
Definition empty_output {Arr} (meta : SegmentMeta) (index : Z) (t : SegmentExecutionTemplate) : SegmentReadStageOutput Arr :=
  {| so_seg_id := seg_id meta; so_original_index := index; so_batches := []; so_base_batches := 0; so_delta_rows := 0;
     so_rows_after_visibility := 0; so_template := t |}.

(** The database for scans: the access statistics are updated. *)
Record ScanDb (KV W C D Rt : Type) := { sd_read : ReadDb KV W C D Rt; sd_tracker : AccessTracker }.
Arguments sd_read {KV W C D Rt} _. Arguments sd_tracker {KV W C D Rt} _.

Section execute.
Context `{HashIter} `{KVEngine KV} `{!Codec Z} `{!Codec (Z * Z)} `{!Codec SegmentMeta} `{WalLog W} `{CdcWal C} `{DeltaDisk D} `{Roaring B}
  `{Arrow Arr} `{!Batches Arr} `{!VortexLib Arr} `{!Codec ColumnEncoding} `{Crc32} `{BloomEnv} `{!Codec GranuleZoneMapIndex}
  `{VisFilter F}.
(** The directory and the clock of the access statistics. *)
Context {Rt : Type} (data_dir : string) (now_ms : Z).
Abbreviation DB := (ScanDb KV W C D Rt).
Abbreviation rt := (st DB RockDuckError).
Abbreviation output := (SegmentReadStageOutput Arr).

Definition on_read {A} (m : st (ReadDb KV W C D Rt) RockDuckError A) : rt A :=
  io_on sd_read (λ s r, {| sd_read := r; sd_tracker := sd_tracker s |}) m.
Definition scan_files {A} (m : io RockDuckError A) : rt A := on_read (rd_files m).
Definition scan_deltas (id : string) (snapshot : TxnSnapshot) : rt (list DeltaCell) :=
  on_read (rd_query (Arr := Arr) (B := B) id (snapshot_id snapshot) (snap_commit_ts_map snapshot) (snap_active_txns snapshot)).
Definition touch_segment (meta : SegmentMeta) : rt unit :=
  io_modify (λ s, {| sd_read := sd_read s;
    sd_tracker := mark_access (sd_tracker s) (seg_id meta) 0 (Z.min (row_count meta) u32_max) now_ms |}).

Definition execute_delta_only_segment (meta : SegmentMeta) (snapshot : TxnSnapshot) (vis_filter : F) (original_index : Z) : rt output :=
  deltas <-! scan_deltas (seg_id meta) snapshot;
  if bool_decide (length deltas = 0%nat) then io_ret (empty_output meta original_index SegDeltaOnly) else
  batch <-! io_lift (build_delta_only_batch meta deltas);
  visible <-! io_outcome (filter_batches_by_visibility_impl vis_filter snapshot ∅ [] [batch]);
  io_ret {| so_seg_id := seg_id meta; so_original_index := original_index; so_batches := visible; so_base_batches := 0;
            so_delta_rows := zlen deltas; so_rows_after_visibility := Z.min (total_rows_of visible) (rb_rows batch);
            so_template := SegDeltaOnly |}.

Definition execute_vortex_only_segment (meta : SegmentMeta) (snapshot : TxnSnapshot) (vis_filter : F)
    (group : option ZoneMapPredicateGroup) (original_index : Z) : rt output :=
  layout <-! on_read (rd_outcome (SegmentLayout_new data_dir (seg_id meta)));
  skip <-! scan_files (skip_segment layout meta group);
  if skip : bool then io_ret (empty_output meta original_index SegVortexOnly) else
  _ <-! touch_segment meta;
  base <-! scan_files (read_vortex_segment layout meta);
  vis <-! scan_files (read_visibility_batches layout);
  deleted <-! scan_files (read_deleted_rows layout vis);
  visible <-! io_outcome (filter_batches_by_visibility_impl vis_filter snapshot deleted vis base);
  io_ret {| so_seg_id := seg_id meta; so_original_index := original_index; so_batches := visible; so_base_batches := zlen base;
            so_delta_rows := 0; so_rows_after_visibility := total_rows_of visible; so_template := SegVortexOnly |}.

(** The patches of the segment over each of its batches. *)
Fixpoint merge_base (base : list (RecordBatch Arr)) (deltas : list DeltaCell) : outcome (Result (list (RecordBatch Arr))) :=
  match base with
  | [] => Done (Ok [])
  | b :: base' =>
      r ← apply_deltas_to_batch (B := B) b deltas;
      match r with
      | Err e => Done (Err e)
      | Ok m => rest ← merge_base base' deltas; Done (x <-? rest; Ok (m :: x))
      end
  end.

Definition execute_cooperative_merge_segment (meta : SegmentMeta) (snapshot : TxnSnapshot) (vis_filter : F)
    (group : option ZoneMapPredicateGroup) (original_index : Z) : rt output :=
  layout <-! on_read (rd_outcome (SegmentLayout_new data_dir (seg_id meta)));
  skip <-! scan_files (skip_segment layout meta group);
  if skip : bool then io_ret (empty_output meta original_index SegCooperativeMerge) else
  _ <-! touch_segment meta;
  base <-! scan_files (read_vortex_segment layout meta);
  if bool_decide (length base = 0%nat) then io_ret (empty_output meta original_index SegCooperativeMerge) else
  vis <-! scan_files (read_visibility_batches layout);
  deleted <-! scan_files (read_deleted_rows layout vis);
  deltas <-! scan_deltas (seg_id meta) snapshot;
  merged <-! io_outcome (if bool_decide (length deltas = 0%nat) then Done (Ok base) else merge_base base deltas);
  visible <-! io_outcome (filter_batches_by_visibility_impl vis_filter snapshot deleted vis merged);
  io_ret {| so_seg_id := seg_id meta; so_original_index := original_index; so_batches := visible; so_base_batches := zlen base;
            so_delta_rows := zlen deltas; so_rows_after_visibility := total_rows_of visible; so_template := SegCooperativeMerge |}.

(** The counters of the local statistics are dropped. *)
Definition scan_segment_internal (meta : SegmentMeta) (snapshot : TxnSnapshot) (vis_filter : F)
    (group : option ZoneMapPredicateGroup) : rt (list (RecordBatch Arr)) :=
  o <-! execute_cooperative_merge_segment meta snapshot vis_filter group 0; io_ret (so_batches o).
End execute.

(** * The visibility filter against a reference *)

Section filter_proofs.
Context `{ArrowLaws Arr} `{!Batches Arr} `{!BatchesLaws Arr} `{VisFilter F}.
Abbreviation batch := (RecordBatch Arr).
Context (f : F) (snap : TxnSnapshot) (deleted : gset Z).

(** The stored transactions of a row, when its visibility batch has integers. *)
Definition stored_txns (vb : batch) (i : Z) : option (Z * option Z) :=
  match rb_columns vb with
  | c :: d :: _ => if both_int64 c d then Some (value_u64 c i, row_deleter (value_u64 d i)) else None
  | _ => None
  end.

(** What the filter promises for row [row] of a segment: a deleted row is hidden,
    a row without stored visibility is shown, the others follow the rule. *)
Definition row_shown (vis : list batch) (row : Z) : bool :=
  if bool_decide (row ∈ deleted) then false else
  match find_batch row 0 vis ≫= λ e, stored_txns e.1 e.2 with
  | Some (c, d) => is_row_visible f (snapshot_id snap) c d (snap_active_txns snap) (snap_commit_ts_map snap)
  | None => true
  end.

Definition has_vis_columns (vb : batch) : Prop := (2 ≤ length (rb_columns vb))%nat ∧ 0 ≤ rb_rows vb.

Lemma skip_vis_find (vis : list batch) total row vis' total' :
  skip_vis vis total row = (vis', total') →
  (∀ r, row ≤ r → find_batch r total vis = find_batch r total' vis') ∧
  (∀ b rest, vis' = b :: rest → row < total' + rb_rows b) ∧ vis' `suffix_of` vis.
Proof.
  revert total. induction vis as [|b vis IH]; intros total; cbn [skip_vis]; [by intros [= <- <-]|].
  destruct (total + rb_rows b <=? row) eqn:Hle.
  - intros (Hf & Hh & Hs)%IH. split_and!; [|done|by apply suffix_cons_r]. intros r Hr. cbn [find_batch].
    destruct (r <? total + rb_rows b) eqn:?; [lia|]. by apply Hf.
  - intros [= <- <-]. split_and!; [done| |done]. intros b' rest [= <- <-]. lia.
Qed.

(** The cursor after rows below [row] agrees with the whole list from [row] on. *)
Definition cursor_ok (vis : list batch) (cursor : list batch * Z) (row : Z) : Prop :=
  (∀ r, row ≤ r → find_batch r 0 vis = find_batch r cursor.2 cursor.1) ∧ cursor.1 `suffix_of` vis.

Lemma row_flag_ok vis cursor row :
  Forall has_vis_columns vis → cursor_ok vis cursor row →
  ∃ cursor', row_flag f snap deleted cursor row = Done (cursor', row_shown vis row) ∧ cursor_ok vis cursor' (row + 1).
Proof.
  intros Hv [Hf Hs]. unfold row_flag, row_shown. case_bool_decide.
  { exists cursor. split; [done|]. split; [|done]. intros r Hr. apply Hf. lia. }
  destruct (skip_vis cursor.1 cursor.2 row) as [vis' total'] eqn:E.
  apply skip_vis_find in E as (Hf' & Hh & Hs').
  assert (Hok : cursor_ok vis (vis', total') (row + 1)).
  { split; [|by etrans]. intros r Hr. cbn. rewrite Hf by lia. apply Hf'. lia. }
  rewrite Hf, Hf' by lia. destruct vis' as [|b rest]; [by eexists|]. specialize (Hh b rest eq_refl).
  cbn [find_batch]. destruct (row <? total' + rb_rows b) eqn:?; [|lia].
  destruct (rb_rows b <=? row - total') eqn:?; [lia|]. cbn [mbind option_bind fst snd].
  assert (has_vis_columns b) as [Hc _].
  { eapply Forall_forall in Hv; [done|]. destruct Hok as [_ [k ->]]. cbn. set_solver. }
  unfold is_row_visible_in_vis_batch, stored_txns. destruct (rb_columns b) as [|c [|d cs]]; [cbn in Hc; lia..|].
  destruct (both_int64 c d); by eexists.
Qed.

Lemma row_flags_ok vis (n : nat) cursor row :
  Forall has_vis_columns vis → cursor_ok vis cursor row →
  ∃ cursor', row_flags f snap deleted cursor (seqZ row (Z.of_nat n)) = Done (cursor', row_shown vis <$> seqZ row (Z.of_nat n)) ∧
    cursor_ok vis cursor' (row + Z.of_nat n).
Proof.
  intros Hv. revert cursor row. induction n as [|n IH]; intros cursor row Hc.
  { exists cursor. split; [done|]. by rewrite Z.add_0_r. }
  rewrite seqZ_cons by lia. cbn [row_flags fmap list_fmap].
  destruct (row_flag_ok vis cursor row Hv Hc) as (c1 & -> & Hc1). cbn [mbind outcome_bind].
  replace (Z.pred (Z.of_nat (S n))) with (Z.of_nat n) by lia. replace (Z.succ row) with (row + 1) by lia.
  destruct (IH c1 (row + 1) Hc1) as (c2 & -> & Hc2). cbn. exists c2. split; [done|].
  replace (row + Z.of_nat (S n)) with (row + 1 + Z.of_nat n) by lia. done.
Qed.

(** The batches [out] are the batches [data], from row [row] on, without the rows
    that [shown] refuses. *)
Fixpoint keeps_rows (shown : Z → bool) (row : Z) (data out : list batch) : Prop :=
  match data, out with
  | [], [] => True
  | b :: data', o :: out' =>
      rb_fields o = rb_fields b ∧
      Forall2 (λ c' c, slots c' = mask_filter (shown <$> seqZ row (rb_rows b)) (slots c)) (rb_columns o) (rb_columns b) ∧
      keeps_rows shown (row + rb_rows b) data' out'
  | _, _ => False
  end.

Definition data_ok (b : batch) : Prop := batch_wf b ∧ 0 ≤ rb_rows b.

Lemma filter_data_ok vis data cursor row :
  Forall has_vis_columns vis → Forall data_ok data → cursor_ok vis cursor row →
  ∃ out, filter_data f snap deleted cursor row data = Done (Ok out) ∧ keeps_rows (row_shown vis) row data out.
Proof.
  intros Hv Hd. revert cursor row. induction Hd as [|b data [Hwf Hb] _ IH]; intros cursor row Hc; [by exists []|].
  cbn [filter_data]. destruct (row_flags_ok vis (Z.to_nat (rb_rows b)) cursor row Hv Hc) as (c1 & Hf & Hc1).
  rewrite Z2Nat.id in Hf, Hc1 by done. rewrite Hf. cbn [mbind outcome_bind].
  assert (Hm : zlen (row_shown vis <$> seqZ row (rb_rows b)) = rb_rows b).
  { unfold zlen. rewrite length_fmap, length_seqZ. lia. }
  unfold apply_visibility_mask. rewrite Hm, Z.eqb_refl. cbn [negb].
  destruct (filter_record_batch_ok b _ Hwf Hm) as (o & -> & Ho & Hcols). cbn [map_err].
  destruct (IH c1 (row + rb_rows b) Hc1) as (out & -> & Hout). cbn. exists (o :: out). split_and!; [done|done| |done].
  eapply Forall2_impl; [done|]. intros ?? (_ & _ & Hs). exact Hs.
Qed.

Lemma mask_filter_all {A} (p : Z → bool) row (xs : list A) :
  (∀ r, p r = true) → mask_filter (p <$> seqZ row (zlen xs)) xs = xs.
Proof.
  intros Hp. revert row. induction xs as [|x xs IH]; intros row; [done|]. unfold zlen in *. simpl length.
  rewrite seqZ_cons by lia. cbn [fmap list_fmap mask_filter]. rewrite Hp. f_equal.
  replace (Z.pred (Z.of_nat (S (length xs)))) with (Z.of_nat (length xs)) by lia. apply IH.
Qed.

Lemma keeps_all shown row (data : list batch) : (∀ r, shown r = true) → Forall data_ok data → keeps_rows shown row data data.
Proof.
  intros Hs Hd. revert row. induction Hd as [|b data [Hwf Hb] _ IH]; intros row; [done|]. cbn. split_and!; [done| |apply IH].
  apply Forall_Forall2_diag, Forall_forall. intros c [i Hi]%list_elem_of_lookup_1.
  destruct (Forall2_lookup_r _ _ _ _ _ Hwf Hi) as (fd & _ & Hl & _). rewrite <- Hl, <- zlen_slots. by rewrite mask_filter_all.
Qed.

Lemma visibility_filter_ok (vis data : list batch) :
  Forall has_vis_columns vis → Forall data_ok data →
  ∃ out, filter_batches_by_visibility_impl f snap deleted vis data = Done (Ok out) ∧ keeps_rows (row_shown vis) 0 data out.
Proof.
  intros Hv Hd. unfold filter_batches_by_visibility_impl.
  destruct (bool_decide (vis = []) && bool_decide (deleted = ∅)) eqn:E.
  - apply andb_true_iff in E as [->%bool_decide_eq_true E2%bool_decide_eq_true]. exists data. split; [done|].
    apply keeps_all; [|done]. intros r. unfold row_shown. rewrite bool_decide_false by (rewrite E2; set_solver). done.
  - apply filter_data_ok; [done|done|]. by split.
Qed.
End filter_proofs.

(** C23: The scan's visibility filter is the row-by-row rule.  On well-formed data
    batches, and visibility batches with their two columns cut at any other
    boundaries, the moving cursor succeeds, and its result is the data without
    the rows that are deleted or that the visibility stored for their position in
    the segment hides; a row past the stored visibility is kept. *)
Theorem visibility_filter_exact `{ArrowLaws Arr} `{!Batches Arr} `{!BatchesLaws Arr} `{VisFilter F}
    (f : F) snap deleted (vis data : list (RecordBatch Arr)) :
  Forall has_vis_columns vis → Forall data_ok data →
  ∃ out, filter_batches_by_visibility_impl f snap deleted vis data = Done (Ok out) ∧
    keeps_rows (row_shown f snap deleted vis) 0 data out.
Proof. apply visibility_filter_ok. Qed.

(** * Putting columns together *)

Section aligned.
Context `{ArrowLaws Arr} `{!Batches Arr} `{!BatchesLaws Arr}.
Abbreviation batch := (RecordBatch Arr).

(** The columns have a batch [i], of [n] rows each, with the arrays [arrs]. *)
Definition aligned_at (cols : list (Field * list batch)) (i : nat) (n : Z) (arrs : list Arr) : Prop :=
  Forall2 (λ c a, ∃ b rest, c.2 !! i = Some b ∧ rb_columns b = a :: rest ∧ fits n c.1 a) cols arrs.

Lemma aligned_batch_ok cols i n arrs :
  cols ≠ [] → aligned_at cols i n arrs → aligned_batch cols i = Done (Ok (Some (Build_RecordBatch cols.*1 arrs n))).
Proof.
  intros Hne Ha. unfold aligned_batch.
  assert (Hm : mapM (λ b : batch, match rb_columns b with a :: _ => Done a | [] => Panic end)
                 (omap (λ c : Field * list batch, c.2 !! i) cols) = Done arrs).
  { clear Hne. induction Ha as [|c a cols arrs (b & rest & Hb & Hc & _) _ IH]; [done|]. cbn. rewrite Hb. cbn. by rewrite Hc, IH. }
  rewrite Hm. cbn [mbind outcome_bind]. rewrite (Forall2_length _ _ _ Ha).
  destruct (length arrs <? length arrs)%nat eqn:E; [apply Nat.ltb_lt in E; lia|].
  rewrite (try_new_ok _ _ n); [done| |].
  - intros ->. apply Forall2_length in Ha. by destruct cols.
  - apply Forall2_fmap_l. eapply Forall2_impl; [done|]. by intros c a (b & rest & _ & _ & Hf).
Qed.

Lemma aligned_batches_ok cols idxs :
  cols ≠ [] → Forall (λ i, ∃ n arrs, aligned_at cols i n arrs) idxs →
  ∃ out, aligned_batches cols idxs = Done (Ok out) ∧
    Forall2 (λ i b, ∀ n arrs, aligned_at cols i n arrs → b = Build_RecordBatch cols.*1 arrs n) idxs out.
Proof.
  intros Hne. induction 1 as [|i idxs (n & arrs & Ha) _ (out & Hout & Hb)]; [by exists []|].
  cbn [aligned_batches]. rewrite (aligned_batch_ok _ _ _ _ Hne Ha). cbn. rewrite Hout. cbn.
  eexists. split; [done|]. constructor; [|done]. intros n' arrs' Ha'.
  pose proof (aligned_batch_ok _ _ _ _ Hne Ha) as E1. pose proof (aligned_batch_ok _ _ _ _ Hne Ha') as E2. congruence.
Qed.
End aligned.

(** A segment's columns are put together batch by batch up to the shortest
    one.  When the columns agree on the rows of the batches they share, the
    result has exactly that many batches, each with the arrays of its position;
    further batches of longer columns are left out, and as there is always at
    least one result the error for misaligned columns is not raised. *)
Theorem columns_align_to_shortest `{ArrowLaws Arr} `{!Batches Arr} `{!BatchesLaws Arr} (cols : list (Field * list (RecordBatch Arr))) :
  cols ≠ [] → Forall (λ c, c.2 ≠ []) cols →
  (∀ i, (i < min_batch_count cols)%nat → ∃ n arrs, aligned_at cols i n arrs) →
  ∃ out, aligned_batches cols (seq 0 (min_batch_count cols)) = Done (Ok out) ∧
    length out = min_batch_count cols ∧ out ≠ [] ∧
    ∀ i n arrs, (i < min_batch_count cols)%nat → aligned_at cols i n arrs → out !! i = Some (Build_RecordBatch cols.*1 arrs n).
Proof.
  intros Hne Hb Ha. destruct (aligned_batches_ok cols (seq 0 (min_batch_count cols)) Hne) as (out & Hout & Hf).
  { apply Forall_forall. intros i Hi%elem_of_seq. apply Ha. lia. }
  exists out. pose proof (Forall2_length _ _ _ Hf) as Hl. rewrite length_seq in Hl. split_and!; [done|done| |].
  - enough (0 < min_batch_count cols)%nat by (intros ->; simpl in Hl; lia). clear -Hne Hb.
    destruct cols as [|c cols]; [done|]. cbn. apply Forall_cons in Hb as [Hc Hb].
    assert (0 < length c.2)%nat as Hn by (destruct c as [fc [|x xs]]; cbn in *; [done|lia]). revert Hn. generalize (length c.2).
    induction Hb as [|d cols Hd _ IH]; intros m Hm; [done|]. cbn [foldl]. apply IH; [done|]. destruct d as [fd [|x xs]]; [done|]. cbn [snd length]. lia.
  - intros i n arrs Hi Hai. destruct (lookup_lt_is_Some_2 out i) as [b Eb]; [lia|]. rewrite Eb. f_equal.
    destruct (Forall2_lookup_r _ _ _ _ _ Hf Eb) as (j & Hj & Hjb). apply lookup_seq in Hj as [-> _]. by apply Hjb.
Qed.

(** * Patches as columns *)

(** A segment with a date or timestamp column cannot be read from its patches:
    whatever they are, the arrays built of them have the integer type and the
    schema the date type, so the batch is refused. *)
Theorem delta_only_dates_fail `{ArrowLaws Arr} `{!Batches Arr} `{!BatchesLaws Arr} meta cd deltas :
  cd ∈ columns meta → built_type (cd_data_type cd) ≠ data_type_to_arrow (cd_data_type cd) →
  ∃ e, build_delta_only_batch (Arr := Arr) meta deltas = Err e.
Proof.
  intros Hin Hne. unfold build_delta_only_batch. destruct (delta_columns _ _) as [cols|e] eqn:Ec; cbn; [|by eexists].
  destruct (try_new _ cols) as [b|e] eqn:Et; cbn; [|by eexists]. exfalso. apply try_new_types in Et.
  assert (Ht : arr_type <$> cols = (built_type ∘ cd_data_type) <$> columns meta).
  { clear Et Hin. revert cols Ec. induction (columns meta) as [|c cds IH]; intros cols; cbn; [by intros [= <-]|].
    unfold delta_column, build_array_from_delta_values. destruct (decode_cells _ _); cbn; [|done].
    destruct (delta_columns _ cds) as [rest|]; cbn; [|done]. intros [= <-]. cbn. rewrite arr_build_type. f_equal. by apply IH. }
  rewrite Ht, <- list_fmap_compose in Et. clear -Et Hin Hne. induction Hin as [c cds|c x cds _ IH]; cbn in Et; [by simplify_eq|].
  apply IH; [done|]. congruence.
Qed.

(** The values a column type can hold. *)
Definition cell_value (dt : Meta.DataType) (v : Value) : Prop :=
  match dt, v with
  | Meta.Int8, VInt z => - 2 ^ 7 ≤ z < 2 ^ 7
  | Meta.Int16, VInt z => - 2 ^ 15 ≤ z < 2 ^ 15
  | Meta.Int32, VInt z => - 2 ^ 31 ≤ z < 2 ^ 31
  | Meta.Int64, VInt z => - 2 ^ 63 ≤ z < 2 ^ 63
  | Meta.UInt8, VInt z => 0 ≤ z < 2 ^ 8
  | Meta.UInt16, VInt z => 0 ≤ z < 2 ^ 16
  | Meta.UInt32, VInt z => 0 ≤ z < 2 ^ 32
  | Meta.UInt64, VInt z => 0 ≤ z < 2 ^ 64
  | Meta.Float32, VFloat z => 0 ≤ z < 2 ^ 32
  | Meta.Float64, VFloat z => 0 ≤ z < 2 ^ 64
  | Meta.Bool, VBool _ => True
  | (Meta.Utf8 | Meta.LargeUtf8), VStr s => utf8_valid (as_bytes s) = true
  | (Meta.Binary | Meta.LargeBinary), VBin _ => True
  | _, _ => False
  end.

(** A cell's bytes decode to the cell.  The bytes that a read takes of a cell
    of a column, and that a patch carries, decode under the column's type to the
    value they came from, for every type but dates and timestamps. *)
Theorem cell_bytes_roundtrip `{Arrow Arr} (a : Arr) i dt v :
  arr_type a = data_type_to_arrow dt → arr_is_null a i = false → arr_value a i = v → cell_value dt v →
  decode_cell dt (to_storage_bytes (extract_row_bytes a i)) = Ok v.
Proof.
  intros Ht Hn Hv Hc. unfold extract_row_bytes. rewrite Hn, Ht, Hv.
  assert (Hs : ∀ s, utf8_valid (as_bytes s) = true → from_utf8 (to_storage_bytes (row_of_bytes (as_bytes s))) = Some s).
  { intros s Hs. replace (to_storage_bytes (row_of_bytes (as_bytes s))) with (as_bytes s) by (by destruct (as_bytes s)).
    by apply from_utf8_as_bytes. }
  assert (Hb : ∀ b, to_storage_bytes (row_of_bytes b) = b) by (by intros []).
  destruct dt, v; cbn in Hc; try done; cbn [data_type_to_arrow negb byte_width to_storage_bytes decode_cell];
    rewrite ?Hs, ?Hb by done; try done.
  all: try by destruct b.
  all: unfold expect_len; rewrite zlen_to_le_bytes, from_to_le_bytes_mod;
    match goal with |- context [if ?c then _ else _] => change c with true end; cbn [result_bind].
  all: do 2 f_equal; first [exact (as_signed_mod 8 _ eq_refl Hc) | exact (as_signed_mod 16 _ eq_refl Hc)
    | exact (as_signed_mod 32 _ eq_refl Hc) | exact (as_signed_mod 64 _ eq_refl Hc) | apply Z.mod_small; exact Hc].
Qed.

(** * Paths that do not look at the delta layers *)

Section blind.
Context `{HashIter} `{KVEngine KV} `{!Codec Z} `{!Codec (Z * Z)} `{!Codec SegmentMeta} `{WalLog W} `{CdcWal C} `{DeltaDisk D}
  `{Arrow Arr} `{!Batches Arr} `{!VortexLib Arr} `{!Codec ColumnEncoding} `{Crc32} `{BloomEnv} `{!Codec GranuleZoneMapIndex}
  `{VisFilter F}.
Context {Rt : Type} (data_dir : string) (now_ms : Z).
Abbreviation DB := (ScanDb KV W C D Rt).

(** The same database over other delta layers. *)
Definition with_delta (s : DB) (stk : DeltaLayerStack W D) : DB :=
  {| sd_read := {| rd_db := rd_db (sd_read s); rd_delta := stk; rd_router := rd_router (sd_read s) |}; sd_tracker := sd_tracker s |}.
(** A computation that neither reads nor changes the layers. *)
Definition delta_blind {A} (m : st DB RockDuckError A) : Prop :=
  ∀ s stk, m (with_delta s stk) = (with_delta (m s).1 stk, (m s).2).

Lemma blind_bind {A A'} (m : st DB RockDuckError A) (k : A → st DB RockDuckError A') :
  delta_blind m → (∀ a, delta_blind (k a)) → delta_blind (io_bind m k).
Proof.
  intros Hm Hk s stk. unfold io_bind. rewrite (Hm s stk). destruct (m s) as [s1 [[a|e]|]]; cbn; [|done..]. apply Hk.
Qed.
Lemma blind_ret {A} (a : A) : delta_blind (io_ret a).
Proof. done. Qed.
Lemma blind_outcome {A} (o : outcome (Result A)) : delta_blind (io_outcome o).
Proof. done. Qed.
Lemma blind_layout id : delta_blind (on_read (rd_outcome (SegmentLayout_new data_dir id))).
Proof. intros s stk. by destruct (SegmentLayout_new data_dir id). Qed.
Lemma blind_files {A} (m : io RockDuckError A) : delta_blind (scan_files m).
Proof. intros s stk. unfold scan_files, on_read, rd_files, io_on. cbn. destruct (m _). done. Qed.
Lemma blind_touch meta : delta_blind (touch_segment now_ms meta).
Proof. done. Qed.
Hint Resolve blind_bind blind_ret blind_outcome blind_layout blind_files blind_touch : core.

Lemma vortex_only_blind meta snap (f : F) group i : delta_blind (execute_vortex_only_segment (Arr := Arr) data_dir now_ms meta snap f group i).
Proof. unfold execute_vortex_only_segment. apply blind_bind; [auto|]. intros layout. apply blind_bind; [auto|]. intros [|]; auto 20. Qed.
End blind.

(** A segment read on the column-file path ignores every patch: over any two
    states of the delta layers the answer is the same, and the layers are left as
    they are. *)
Theorem vortex_only_ignores_deltas `{HashIter} `{KVEngine KV} `{!Codec Z} `{!Codec (Z * Z)} `{!Codec SegmentMeta} `{WalLog W} `{CdcWal C} `{DeltaDisk D}
    `{Arrow Arr} `{!Batches Arr} `{!VortexLib Arr} `{!Codec ColumnEncoding} `{Crc32} `{BloomEnv} `{!Codec GranuleZoneMapIndex}
    `{VisFilter F} {Rt} data_dir now_ms meta snap (f : F) group i (s : ScanDb KV W C D Rt) stk o s' :
  io_returns (execute_vortex_only_segment (Arr := Arr) data_dir now_ms meta snap f group i) s o s' →
  io_returns (execute_vortex_only_segment (Arr := Arr) data_dir now_ms meta snap f group i) (with_delta s stk) o (with_delta s' stk).
Proof. intros Hr. unfold io_returns. rewrite vortex_only_blind, Hr. done. Qed.

(** * Witnesses *)

Section witnesses.
(** Three rows in two batches, their visibility in two others: row 1 is deleted by
    transaction 8, row 2 is listed as deleted. *)
Definition demo_data : list (RecordBatch ListArray) :=
  [ {| rb_fields := demo_row_fields; rb_columns := [int_array [Some 10]]; rb_rows := 1 |};
    {| rb_fields := demo_row_fields; rb_columns := [int_array [Some 20; Some 30]]; rb_rows := 2 |} ].
Definition demo_vis_batches : list (RecordBatch ListArray) :=
  [ {| rb_fields := visibility_schema; rb_columns := [int_array [Some 3; Some 3]; int_array [Some (-1); Some 8]]; rb_rows := 2 |};
    {| rb_fields := visibility_schema; rb_columns := [int_array [Some 3]; int_array [Some (-1)]]; rb_rows := 1 |} ].
Definition demo_snap : TxnSnapshot :=
  {| snapshot_id := 9; snap_active_txns := ∅; isolation := Snapshot; snap_commit_ts_map := {[3 := 4; 8 := 9]} |}.

Lemma demo_data_ok : Forall data_ok demo_data.
Proof.
  repeat constructor; cbn; try lia; try done; intros; rewrite slots_la; cbn; set_solver.
Qed.

Lemma visibility_filter_exact_witness :
  ∃ out, filter_batches_by_visibility_impl VisibilityManager_new demo_snap {[2]} demo_vis_batches demo_data = Done (Ok out) ∧
    keeps_rows (row_shown VisibilityManager_new demo_snap {[2]} demo_vis_batches) 0 demo_data out ∧
    row_shown VisibilityManager_new demo_snap {[2]} demo_vis_batches <$> [0; 1; 2] = [true; false; false].
Proof.
  destruct (visibility_filter_exact VisibilityManager_new demo_snap {[2]} demo_vis_batches demo_data) as (out & Ho & Hk);
    [by repeat constructor; cbn; lia|apply demo_data_ok|].
  exists out. split_and!; [exact Ho|exact Hk|vm_compute; reflexivity].
Defined.

Definition demo_value_field : Field := {| f_name := "v"; f_type := Int64; f_nullable := true |}.
Definition demo_one (z : Z) : RecordBatch ListArray :=
  {| rb_fields := [demo_value_field]; rb_columns := [int_array [Some z]]; rb_rows := 1 |}.
Lemma columns_align_to_shortest_witness :
  ∃ out, aligned_batches [(demo_value_field, [demo_one 1; demo_one 2]); (demo_value_field, [demo_one 3])] (seq 0 1) = Done (Ok out) ∧
    length out = 1%nat.
Proof.
  destruct (columns_align_to_shortest [(demo_value_field, [demo_one 1; demo_one 2]); (demo_value_field, [demo_one 3])]) as (out & Ho & Hl & _).
  - done.
  - repeat constructor; done.
  - intros i Hi. assert (i = 0%nat) as -> by (cbn in Hi; lia). exists 1, [int_array [Some 1]; int_array [Some 3]].
    repeat constructor; cbn; do 2 eexists; split_and!; try done; repeat split; try done.
  - exists out. split; [exact Ho|exact Hl].
Defined.

Lemma delta_only_dates_fail_witness :
  ∃ e, build_delta_only_batch (Arr := ListArray) (SegmentMeta_new 7 "s" "t" [ColumnDef_new "d" Meta.Date32])
    [{| DeltaTypes.seg_id := "s"; row_offset := 0; column := "d"; txn_id := 1; before := None; after := Some [1; 0; 0; 0];
        committed := true; ts := 0 |}] = Err e.
Proof. apply (delta_only_dates_fail _ (ColumnDef_new "d" Meta.Date32)); [apply list_elem_of_singleton; reflexivity|discriminate]. Defined.

Lemma cell_bytes_roundtrip_witness :
  decode_cell Meta.Int64 (to_storage_bytes (extract_row_bytes (int_array [Some (-5)]) 0)) = Ok (VInt (-5)).
Proof. apply cell_bytes_roundtrip; [reflexivity|reflexivity|reflexivity|cbn; lia]. Defined.
End witnesses.
