(* ===== verification/Scan.v ===== *)
(** Table scans (read/scan.rs): the plan of a read and its routing, the execution
    of its segments with and without a time budget, the filter stage, and the
    streaming iterator; with the evidence records of metadata/mod.rs that a plan
    hands to the router. *)

From stdpp Require Import base gmap strings list pretty sorting.
From S2P Require Import Prelude Kv Visibility Roaring Arrow DeltaTypes DeltaMerge DeltaApply Wal MemStore Frozen LayerStack ShadowColumns TxnManager PkIndex Bloom Filter FilterEval ZoneMap Disk Vortex VisFile SegMeta BloomCache WalUtils Cdc Checkpoint Db Insert AccessTracker TimeTravel PointGet ScanSegment.

Local Open Scope Z_scope.
Local Open Scope rd_scope.

(** * Types *)

Inductive ReadExecutionTemplate := DeltaOnly | VortexOnly | CooperativeMerge | HistoricalRead.
#[export] Instance ReadExecutionTemplate_eq_dec : EqDecision ReadExecutionTemplate.
Proof. solve_decision. Defined.

Inductive RouteDecision := RDeltaStoreOnly | RVortexOnly | RMerge.
#[export] Instance RouteDecision_eq_dec : EqDecision RouteDecision.
Proof. solve_decision. Defined.
(** The text of the reasons is not kept. *)
Record RoutingResult := { rr_decision : RouteDecision; rr_confidence : f64; rr_estimated_cost : f64; rr_tier : string }.

Record SliceBudget := { max_segments_per_slice : Z; max_slice_ms : Z }.
Definition is_bounded (b : SliceBudget) : bool := (0 <? max_segments_per_slice b) || (0 <? max_slice_ms b).

Record CooperativeRuntimeStats := {
  slice_budget : option SliceBudget;
  total_slices : Z;
  truncated_segment_ids : list string;
  elapsed_budget_exhausted : bool;
  max_segments_per_slice_hit : bool
}.
Record ReadExecutionStats := {
  segments_routed : Z;
  segments_scanned : Z;
  base_batches_read : Z;
  delta_rows_seen : Z;
  rows_after_visibility : Z;
  rx_filter : FilterStats;
  skipped_segment_failures : Z;
  skipped_segment_ids : list string;
  cooperative : CooperativeRuntimeStats
}.
Definition cooperative_default : CooperativeRuntimeStats :=
  {| slice_budget := None; total_slices := 0; truncated_segment_ids := []; elapsed_budget_exhausted := false;
     max_segments_per_slice_hit := false |}.
Definition stats_with (routed : Z) (budget : option SliceBudget) : ReadExecutionStats :=
  {| segments_routed := routed; segments_scanned := 0; base_batches_read := 0; delta_rows_seen := 0; rows_after_visibility := 0;
     rx_filter := {| filter_failures := 0; rows_after_filter := 0 |}; skipped_segment_failures := 0; skipped_segment_ids := [];
     cooperative := {| slice_budget := budget; total_slices := 0; truncated_segment_ids := []; elapsed_budget_exhausted := false;
                       max_segments_per_slice_hit := false |} |}.
Definition set_cooperative (st : ReadExecutionStats) (c : CooperativeRuntimeStats) : ReadExecutionStats :=
  {| segments_routed := segments_routed st; segments_scanned := segments_scanned st; base_batches_read := base_batches_read st;
     delta_rows_seen := delta_rows_seen st; rows_after_visibility := rows_after_visibility st; rx_filter := rx_filter st;
     skipped_segment_failures := skipped_segment_failures st; skipped_segment_ids := skipped_segment_ids st; cooperative := c |}.
Definition set_filter (st : ReadExecutionStats) (f : FilterStats) : ReadExecutionStats :=
  {| segments_routed := segments_routed st; segments_scanned := segments_scanned st; base_batches_read := base_batches_read st;
     delta_rows_seen := delta_rows_seen st; rows_after_visibility := rows_after_visibility st; rx_filter := f;
     skipped_segment_failures := skipped_segment_failures st; skipped_segment_ids := skipped_segment_ids st;
     cooperative := cooperative st |}.

Record ReadExecutionPlan := {
  pl_table : string;
  pl_filter : option string;
  pl_query_columns : list string;
  pl_snapshot : TxnSnapshot;
  pl_routed_segments : list SegmentMeta;
  pl_execution_segments : list SegmentMeta;
  pl_parsed_expr : option Expr;
  pl_zone_map_group : option ZoneMapPredicateGroup;
  pl_template : ReadExecutionTemplate;
  pl_routing : option RoutingResult
}.
Record RoutedExecutionPlan := {
  rp_routed_segments : list SegmentMeta;
  rp_execution_segments : list SegmentMeta;
  rp_template : ReadExecutionTemplate;
  rp_routing : option RoutingResult
}.

Record CooperativeExecutionDigest := {
  dg_budget : option SliceBudget;
  dg_slices_executed : Z;
  dg_truncated_segments : list string;
  dg_elapsed_budget_exhausted : bool;
  dg_max_segments_per_slice_hit : bool
}.
Record ExecutionOutcome := {
  oc_table : string;
  oc_query_columns : list string;
  oc_template : ReadExecutionTemplate;
  oc_chosen_path : option RouteDecision;
  oc_estimated_cost : option f64;
  oc_rows_scanned : Z;
  oc_candidate_rows : Z;
  oc_rows_after_visibility : Z;
  oc_rows_returned : Z;
  oc_filter_failures : Z;
  oc_skipped_segment_failures : Z;
  oc_skipped_segment_ids : list string;
  oc_segments_routed : Z;
  oc_segments_scanned : Z;
  oc_elapsed_ms : f64;
  oc_executed_segment_ids : list string;
  oc_cooperative_digest : option CooperativeExecutionDigest
}.

(** The part of the router's table statistics that is filled in. *)
Record RouterTableStats := { rs_row_count : Z; rs_total_bytes : Z; rs_compressed_bytes : Z }.

(** ** Evidence (metadata/mod.rs) *)

Record EvidenceSnapshot := {
  ev_table : string;
  ev_query_columns : list string;
  ev_table_stats : RouterTableStats;
  ev_routed_segment_ids : list string;
  ev_executed_segment_ids : list string;
  ev_total_segment_rows : Z;
  ev_delta_segment_count : Z;
  ev_has_zone_map_predicates : bool;
  ev_has_cross_column_or : bool;
  ev_projection_contract : option ProjectionContract
}.
Definition governance_is_complete (e : EvidenceSnapshot) : bool :=
  match ev_projection_contract e with
  | Some c => blocks_regressions (pc_enforcement c) && negb (bool_decide (pc_evidence_hook c = ""))
  | None => false
  end.
Definition assert_governance_ready (e : EvidenceSnapshot) : outcome unit :=
  match match ev_projection_contract e with Some c => assert_blocking_governance c | None => Done tt end with
  | Panic => Panic
  | Done _ => if governance_is_complete e then Done tt else Panic
  end.
(** [into_execution_evidence]: the same content once the assertion has passed. *)
Definition into_execution_evidence (e : EvidenceSnapshot) : outcome EvidenceSnapshot :=
  match assert_governance_ready e with Done _ => Done e | Panic => Panic end.

Inductive QueryKind := KPointGet | KRangeScan | KFullScan | KAggregate.
Definition QueryKind_from_filter (has_filter is_aggregate : bool) (selectivity : f64) : QueryKind :=
  if is_aggregate then KAggregate else if negb has_filter then KFullScan
  else if f64_ltb selectivity (f64_lit 1 100) then KPointGet else KRangeScan.

Record RouterParams := {
  rpm_table : string;
  rpm_columns : list string;
  rpm_kind : QueryKind;
  rpm_delta_count : Z;
  rpm_has_pending_writes : bool;
  rpm_estimated_selectivity : f64;
  rpm_stats : RouterTableStats
}.

(** What a scan calls of the router ([QueryRouter]), with the state it keeps and
    the compaction scheduler it informs. *)
Class ScanRouter (Rt KV : Type) := {
  router_route : Rt → RouterParams → Rt * RoutingResult;
  router_observe_metadata : Rt → EvidenceSnapshot → Rt;
  router_observe_route : Rt → string → list SegmentMeta → RoutingResult → EvidenceSnapshot → Rt;
  router_observe_maintenance : Rt → EvidenceSnapshot → Rt;
  router_budget : Rt → string → Z → option SliceBudget;
  router_samples_shadow : Rt → string → list string → RouteDecision → Z → Rt * bool;
  router_record_outcome : Rt → ExecutionOutcome → Rt;
  router_record_shadow : Rt → ExecutionOutcome → RouteDecision → f64 → Rt;
  router_checkpoint : Rt → KV → TxnId → Rt * KV
}.
#[global] Hint Mode ScanRouter ! - : typeclass_instances.

(** [extract_filter_columns]: each column once, in the order of the expression. *)
Fixpoint filter_columns_walk (e : Expr) (out : list string) : list string :=
  match e with
  | Comparison col _ _ => if bool_decide (col ∈ out) then out else out ++ [col]
  | And a b | Or a b => filter_columns_walk b (filter_columns_walk a out)
  | Not a => filter_columns_walk a out
  end.
Definition extract_filter_columns (e : Expr) : list string := filter_columns_walk e [].

Definition shadow_template_for_path (p : RouteDecision) : ReadExecutionTemplate :=
  match p with RDeltaStoreOnly => DeltaOnly | RVortexOnly => VortexOnly | RMerge => CooperativeMerge end.

(** [slice.chunks(n)] *)
Fixpoint chunks_go {A} (fuel n : nat) (l : list A) : list (list A) :=
  match fuel, l with
  | S fuel', _ :: _ => take n l :: chunks_go fuel' n (drop n l)
  | _, _ => []
  end.
Definition chunks {A} (n : nat) (l : list A) : list (list A) := chunks_go (length l) n l.

(** * Scans *)

Section scan.
Context `{HashIter} `{KVEngine KV} `{!Codec Z} `{!Codec (Z * Z)} `{!Codec SegmentMeta} `{!Codec TableStats} `{WalLog W} `{CdcWal C}
  `{DeltaDisk D} `{Roaring B} `{Arrow Arr} `{!ArrowCmp Arr} `{!Batches Arr} `{!VortexLib Arr} `{!Codec ColumnEncoding} `{Crc32}
  `{BloomEnv} `{!Codec GranuleZoneMapIndex} `{VisFilter F} `{ScanRouter Rt KV}.
(** The directory, the clock of the access statistics, the configured budget and
    whether shadow sampling is on; the texts of filter errors. *)
Context (data_dir : string) (now_ms : Z) (configured : SliceBudget) (shadow_on : bool)
  (filter_error_text : FilterError → string) (stage_error_text : FilterStageError → string).
Abbreviation DB := (ScanDb KV W C D Rt).
Abbreviation rt := (st DB RockDuckError).
Abbreviation output := (SegmentReadStageOutput Arr).

Definition sd_kv (s : DB) : KV := rd_kv (sd_read s).
Definition sd_reads {A} (f : KV → Result A) : rt A := on_read (rd_reads f).
Definition on_router (f : Rt → Rt) : rt unit :=
  io_modify (λ s, {| sd_read := {| rd_db := rd_db (sd_read s); rd_delta := rd_delta (sd_read s);
                                   rd_router := f <$> rd_router (sd_read s) |}; sd_tracker := sd_tracker s |}).
Definition the_router : rt (option Rt) := io_gets (λ s, rd_router (sd_read s)).

(** ** Stages of a read *)

Definition accumulate_segment_output_stats (st : ReadExecutionStats) (outputs : list output) : ReadExecutionStats :=
  let sum (f : output → Z) := foldr (λ o n, f o + n) 0 outputs in
  {| segments_routed := segments_routed st; segments_scanned := segments_scanned st + zlen outputs;
     base_batches_read := base_batches_read st + sum so_base_batches;
     delta_rows_seen := delta_rows_seen st + sum so_delta_rows;
     rows_after_visibility := rows_after_visibility st + sum so_rows_after_visibility; rx_filter := rx_filter st;
     skipped_segment_failures := skipped_segment_failures st; skipped_segment_ids := skipped_segment_ids st;
     cooperative := cooperative st |}.

Definition execute_segment (t : ReadExecutionTemplate) (plan : ReadExecutionPlan) (vis_filter : F) (meta : SegmentMeta) (i : Z) : rt output :=
  match t with
  | DeltaOnly => execute_delta_only_segment (B := B) meta (pl_snapshot plan) vis_filter i
  | VortexOnly => execute_vortex_only_segment data_dir now_ms meta (pl_snapshot plan) vis_filter (pl_zone_map_group plan) i
  | CooperativeMerge | HistoricalRead =>
      execute_cooperative_merge_segment (B := B) data_dir now_ms meta (pl_snapshot plan) vis_filter (pl_zone_map_group plan) i
  end.

(** The parallel map over segments, in the order of the list. *)
Fixpoint execute_segments (t : ReadExecutionTemplate) (plan : ReadExecutionPlan) (vis_filter : F) (i : Z) (metas : list SegmentMeta)
    : rt (list output) :=
  match metas with
  | [] => io_ret []
  | m :: metas' =>
      o <-! execute_segment t plan vis_filter m i;
      rest <-! execute_segments t plan vis_filter (i + 1) metas';
      io_ret (if bool_decide (length (so_batches o) = 0%nat) then rest else o :: rest)
  end.
Definition by_index (a b : output) : bool := so_original_index a <=? so_original_index b.

(** [elapsed k]: the milliseconds since the start when slice [k] is done. *)
Fixpoint execute_slices (t : ReadExecutionTemplate) (plan : ReadExecutionPlan) (vis_filter : F) (budget : SliceBudget) (elapsed : Z → Z)
    (max_segments : Z) (slice_idx : Z) (slices : list (list SegmentMeta)) (stats : ReadExecutionStats)
    : rt (ReadExecutionStats * list output) :=
  match slices with
  | [] => io_ret (stats, [])
  | chunk :: slices' =>
      let co := cooperative stats in
      let stats := set_cooperative stats {| slice_budget := slice_budget co; total_slices := total_slices co + 1;
        truncated_segment_ids := truncated_segment_ids co; elapsed_budget_exhausted := elapsed_budget_exhausted co;
        max_segments_per_slice_hit := max_segments_per_slice_hit co |} in
      raw <-! execute_segments t plan vis_filter (slice_idx * max_segments) chunk;
      let outs := sort_by by_index raw in
      let stats := accumulate_segment_output_stats stats outs in
      let co := cooperative stats in
      let hit := (zlen chunk =? max_segments) && (0 <? slice_idx) in
      let co := {| slice_budget := slice_budget co; total_slices := total_slices co; truncated_segment_ids := truncated_segment_ids co;
                   elapsed_budget_exhausted := elapsed_budget_exhausted co;
                   max_segments_per_slice_hit := hit || max_segments_per_slice_hit co |} in
      if (0 <? max_slice_ms budget) && (max_slice_ms budget <=? elapsed slice_idx) && negb (bool_decide (length slices' = 0%nat)) then
        io_ret (set_cooperative stats {| slice_budget := slice_budget co; total_slices := total_slices co;
                  truncated_segment_ids := seg_id <$> concat slices'; elapsed_budget_exhausted := true;
                  max_segments_per_slice_hit := max_segments_per_slice_hit co |}, outs)
      else
        r <-! execute_slices t plan vis_filter budget elapsed max_segments (slice_idx + 1) slices' (set_cooperative stats co);
        io_ret (r.1, outs ++ r.2)
  end.

Definition execute_bounded_cooperative_segment_read_stages (t : ReadExecutionTemplate) (plan : ReadExecutionPlan) (vis_filter : F)
    (stats : ReadExecutionStats) (budget : SliceBudget) (elapsed : Z → Z) : rt (ReadExecutionStats * list output) :=
  let max_segments := Z.max (max_segments_per_slice budget) 1 in
  execute_slices t plan vis_filter budget elapsed max_segments 0 (chunks (Z.to_nat max_segments) (pl_execution_segments plan)) stats.

Definition cooperative_template (t : ReadExecutionTemplate) : bool :=
  match t with CooperativeMerge | HistoricalRead => true | _ => false end.

Definition execute_segment_read_stages_with_template (t : ReadExecutionTemplate) (plan : ReadExecutionPlan) (vis_filter : F)
    (stats : ReadExecutionStats) (runtime_budget : option SliceBudget) (elapsed : Z → Z) : rt (ReadExecutionStats * list output) :=
  match runtime_budget, cooperative_template t with
  | Some budget, true => execute_bounded_cooperative_segment_read_stages t plan vis_filter stats budget elapsed
  | _, _ =>
      raw <-! execute_segments t plan vis_filter 0 (pl_execution_segments plan);
      let outs := sort_by by_index raw in
      io_ret (accumulate_segment_output_stats stats outs, outs)
  end.
Definition execute_segment_read_stages (plan : ReadExecutionPlan) (vis_filter : F) (stats : ReadExecutionStats)
    (runtime_budget : option SliceBudget) (elapsed : Z → Z) : rt (ReadExecutionStats * list output) :=
  execute_segment_read_stages_with_template (pl_template plan) plan vis_filter stats runtime_budget elapsed.

Definition filter_stage (plan : ReadExecutionPlan) (outputs : list output) (stats : ReadExecutionStats)
    : ReadExecutionStats * Result (list (RecordBatch Arr)) :=
  let '(f, r) := finalize_read_filter_stage (pl_table plan) (pl_parsed_expr plan) (so_batches <$> outputs) (rx_filter stats) in
  (set_filter stats f, map_err (λ e, EQuery (stage_error_text e)) r).

Definition build_execution_outcome (plan : ReadExecutionPlan) (stats : ReadExecutionStats) (outputs : list output) (elapsed_ms : f64)
    : ExecutionOutcome :=
  let co := cooperative stats in
  {| oc_table := pl_table plan; oc_query_columns := pl_query_columns plan; oc_template := pl_template plan;
     oc_chosen_path := rr_decision <$> pl_routing plan; oc_estimated_cost := rr_estimated_cost <$> pl_routing plan;
     oc_rows_scanned := Z.max (rows_after_visibility stats) (rows_after_filter (rx_filter stats));
     oc_candidate_rows := foldr (λ m n, row_count m + n) 0 (pl_routed_segments plan);
     oc_rows_after_visibility := rows_after_visibility stats; oc_rows_returned := rows_after_filter (rx_filter stats);
     oc_filter_failures := filter_failures (rx_filter stats); oc_skipped_segment_failures := skipped_segment_failures stats;
     oc_skipped_segment_ids := skipped_segment_ids stats; oc_segments_routed := segments_routed stats;
     oc_segments_scanned := segments_scanned stats; oc_elapsed_ms := elapsed_ms;
     oc_executed_segment_ids := so_seg_id <$> outputs;
     oc_cooperative_digest := (λ b, {| dg_budget := Some b; dg_slices_executed := total_slices co;
       dg_truncated_segments := truncated_segment_ids co; dg_elapsed_budget_exhausted := elapsed_budget_exhausted co;
       dg_max_segments_per_slice_hit := max_segments_per_slice_hit co |}) <$> slice_budget co |}.

(** ** The plan *)

Definition is_live_segment (table : string) (m : SegmentMeta) : Prop := table_id m = table ∧ status m ≠ Garbage.
#[global] Instance is_live_segment_dec table m : Decision (is_live_segment table m).
Proof. unfold is_live_segment. apply _. Defined.

Definition table_segment_ids (table : string) : rt (gset string) :=
  metas <-! sd_reads list_segment_metas;
  io_ret (list_to_set (seg_id <$> filter (is_live_segment table) metas)).
Definition build_router_table_stats (table : string) : rt RouterTableStats :=
  t <-! sd_reads (λ kv, get_or_create_table_stats kv table);
  io_ret {| rs_row_count := ts_row_count t; rs_total_bytes := ts_total_size_bytes t;
            rs_compressed_bytes := Z.max (ts_total_size_bytes t `div` 2) 1 |}.

Definition parse_filter (s : string) : Result Expr :=
  match parse s with
  | Some (Ok e) => Ok e
  | Some (Err e) => Err (EQuery (filter_error_text e))
  | None => Err (EQuery "")
  end.

Definition build_router_params (table : string) (filter : option string) : rt RouterParams :=
  stats <-! build_router_table_stats table;
  ids <-! table_segment_ids table;
  s <-! io_gets sd_read;
  let deltas := get_segment_ids_for_table (rd_delta s) ids in
  let parsed := filter ≫= λ f, match parse_filter f with Ok e => Some e | Err _ => None end in
  let selectivity := match filter with
    | Some _ => match parsed ≫= extract_predicates_grouped with
                | Some g => if has_cross_column_or g then f64_lit 1 4 else f64_lit 1 10
                | None => f64_lit 1 10
                end
    | None => f64_of_Z 1
    end in
  io_ret {| rpm_table := table; rpm_columns := match parsed with Some e => extract_filter_columns e | None => [] end;
            rpm_kind := QueryKind_from_filter (bool_decide (is_Some filter)) false selectivity;
            rpm_delta_count := zlen deltas; rpm_has_pending_writes := negb (bool_decide (deltas = []));
            rpm_estimated_selectivity := selectivity; rpm_stats := stats |}.

Fixpoint any_exists (layout : SegmentLayout) (names : list string) : io RockDuckError bool :=
  match names with
  | [] => io_ret false
  | n :: names' => there <-! fs_exists (col_path layout n); if there : bool then io_ret true else any_exists layout names'
  end.
Definition has_vortex_layout (meta : SegmentMeta) : rt bool :=
  layout <-! on_read (rd_outcome (SegmentLayout_new data_dir (seg_id meta)));
  scan_files (any_exists layout (cd_name <$> columns meta)).
Definition passes_zone_map (group : option ZoneMapPredicateGroup) (meta : SegmentMeta) : rt bool :=
  layout <-! on_read (rd_outcome (SegmentLayout_new data_dir (seg_id meta)));
  skip <-! scan_files (skip_segment layout meta group);
  io_ret (negb skip).

(** [a && b] and [a || b] with the right side evaluated on demand *)
Definition and_then (a b : rt bool) : rt bool := x <-! a; if x : bool then b else io_ret false.
Definition or_else (a b : rt bool) : rt bool := x <-! a; if x : bool then io_ret true else b.
Fixpoint filter_metas (p : SegmentMeta → rt bool) (metas : list SegmentMeta) : rt (list SegmentMeta) :=
  match metas with
  | [] => io_ret []
  | m :: metas' => keep <-! p m; rest <-! filter_metas p metas'; io_ret (if keep : bool then m :: rest else rest)
  end.

Definition route_table_segments (table : string) (filter_text : option string) (group : option ZoneMapPredicateGroup) : rt RoutedExecutionPlan :=
  metas <-! sd_reads list_segment_metas;
  let table_metas := filter (is_live_segment table) metas in
  s <-! io_gets sd_read;
  let delta_ids := get_all_segment_ids (rd_delta s) in
  router <-! the_router;
  match router with
  | None => io_ret {| rp_routed_segments := table_metas; rp_execution_segments := table_metas;
                      rp_template := CooperativeMerge; rp_routing := None |}
  | Some r =>
      params <-! build_router_params table filter_text;
      let '(r', routing) := router_route r params in
      _ <-! on_router (λ _, r');
      let in_delta (m : SegmentMeta) : rt bool := io_ret (bool_decide (seg_id m ∈ delta_ids)) in
      let no_layout (m : SegmentMeta) : rt bool := x <-! has_vortex_layout m; io_ret (negb x) in
      match rr_decision routing with
      | RDeltaStoreOnly =>
          routed <-! filter_metas (λ m, and_then (in_delta m) (no_layout m)) table_metas;
          executed <-! filter_metas (λ m, and_then (in_delta m) (no_layout m)) routed;
          io_ret {| rp_routed_segments := routed; rp_execution_segments := executed; rp_template := DeltaOnly; rp_routing := Some routing |}
      | RVortexOnly =>
          routed <-! filter_metas (λ m, and_then (passes_zone_map group m) (has_vortex_layout m)) table_metas;
          executed <-! filter_metas (λ m, and_then (has_vortex_layout m) (passes_zone_map group m)) routed;
          io_ret {| rp_routed_segments := routed; rp_execution_segments := executed; rp_template := VortexOnly; rp_routing := Some routing |}
      | RMerge =>
          routed <-! filter_metas (λ m, or_else (passes_zone_map group m) (in_delta m)) table_metas;
          io_ret {| rp_routed_segments := routed; rp_execution_segments := routed; rp_template := CooperativeMerge; rp_routing := Some routing |}
      end
  end.

Definition build_evidence_snapshot (table : string) (query_columns : list string) (routed executed : list SegmentMeta)
    (group : option ZoneMapPredicateGroup) (contract : option ProjectionContract) : rt EvidenceSnapshot :=
  stats <-! build_router_table_stats table;
  ids <-! table_segment_ids table;
  s <-! io_gets sd_read;
  io_ret {| ev_table := table; ev_query_columns := query_columns; ev_table_stats := stats;
            ev_routed_segment_ids := seg_id <$> routed; ev_executed_segment_ids := seg_id <$> executed;
            ev_total_segment_rows := foldr (λ m n, row_count m + n) 0 routed;
            ev_delta_segment_count := zlen (get_segment_ids_for_table (rd_delta s) ids);
            ev_has_zone_map_predicates := match group with Some g => negb (bool_decide (groups g = [])) | None => false end;
            ev_has_cross_column_or := match group with Some g => has_cross_column_or g | None => false end;
            ev_projection_contract := contract |}.

(** [router.observe_metadata_evidence] and what follows it in the plan. *)
Definition observe_plan (table : string) (p : RoutedExecutionPlan) (evidence : EvidenceSnapshot) : rt unit :=
  router <-! the_router;
  match router with
  | None => io_ret tt
  | Some _ =>
      _ <-! on_read (rd_outcome (assert_governance_ready evidence));
      _ <-! on_router (λ r, router_observe_metadata r evidence);
      match rp_routing p with
      | None => io_ret tt
      | Some routing =>
          ev <-! on_read (rd_outcome (into_execution_evidence evidence));
          _ <-! on_router (λ r, router_observe_route r table (rp_routed_segments p) routing ev);
          on_router (λ r, router_observe_maintenance r ev)
      end
  end.

Definition scan_snapshot : rt TxnSnapshot := on_read rd_snapshot.

Definition prepare_read_execution_plan (table : string) (filter_text : option string) (snapshot : TxnSnapshot) : rt ReadExecutionPlan :=
  current <-! scan_snapshot;
  let contract := if snapshot_id snapshot =? snapshot_id current then None else Some contract_time_travel_scanner in
  parsed <-! io_lift (match filter_text with Some f => e <-? parse_filter f; Ok (Some e) | None => Ok None end);
  let query_columns := match parsed with Some e => extract_filter_columns e | None => [] end in
  let group := parsed ≫= extract_predicates_grouped in
  p <-! route_table_segments table filter_text group;
  evidence <-! build_evidence_snapshot table query_columns (rp_routed_segments p) (rp_execution_segments p) group contract;
  _ <-! observe_plan table p evidence;
  io_ret {| pl_table := table; pl_filter := filter_text; pl_query_columns := query_columns; pl_snapshot := snapshot;
            pl_routed_segments := rp_routed_segments p; pl_execution_segments := rp_execution_segments p; pl_parsed_expr := parsed;
            pl_zone_map_group := group; pl_template := rp_template p; pl_routing := rp_routing p |}.

Definition cooperative_runtime_budget_for_plan (router : option Rt) (plan : ReadExecutionPlan) : option SliceBudget :=
  if negb (cooperative_template (pl_template plan)) then None else
  let budget := default configured (router ≫= λ r, router_budget r (pl_table plan) (zlen (pl_execution_segments plan))) in
  if is_bounded budget then Some budget else None.

(** ** Execution of a plan *)

Definition shadow_route_decision (plan : ReadExecutionPlan) : rt (option RouteDecision) :=
  router <-! the_router;
  match router, pl_routing plan with
  | Some r, Some routing =>
      if negb shadow_on then io_ret None else
      let chosen := rr_decision routing in
      let '(r', yes) := router_samples_shadow r (pl_table plan) (pl_query_columns plan) chosen (zlen (pl_routed_segments plan)) in
      _ <-! on_router (λ _, r');
      io_ret (if yes : bool then Some (match chosen with RVortexOnly => RDeltaStoreOnly | _ => RVortexOnly end) else None)
  | _, _ => io_ret None
  end.

(** The other path is run for its time only. *)
Definition measure_shadow_path (plan : ReadExecutionPlan) (vis_filter : F) (path : RouteDecision) (budget : option SliceBudget)
    (elapsed : Z → Z) : rt bool :=
  let t := shadow_template_for_path path in
  if bool_decide (t = pl_template plan) then io_ret false else
  '(st, outs) <-! execute_segment_read_stages_with_template t plan vis_filter
                    (stats_with (zlen (pl_routed_segments plan)) budget) budget elapsed;
  _ <-! io_lift (filter_stage plan outs st).2;
  io_ret true.

(** [elapsed], [elapsed'] are the clocks of the two runs, [took] and [shadow_took]
    their times in milliseconds. *)
Definition execute_read_plan (plan : ReadExecutionPlan) (vis_filter : F) (elapsed elapsed' : Z → Z) (took shadow_took : f64)
    : rt (list (RecordBatch Arr) * ReadExecutionStats) :=
  router <-! the_router;
  let budget := cooperative_runtime_budget_for_plan router plan in
  shadow <-! shadow_route_decision plan;
  '(stats, outs) <-! execute_segment_read_stages plan vis_filter (stats_with (zlen (pl_routed_segments plan)) budget) budget elapsed;
  let '(stats, r) := filter_stage plan outs stats in
  batches <-! io_lift r;
  router <-! the_router;
  match router with
  | None => io_ret (batches, stats)
  | Some _ =>
      let oc := build_execution_outcome plan stats outs took in
      _ <-! on_router (λ r, router_record_outcome r oc);
      _ <-! match shadow with
            | None => io_ret tt
            | Some path =>
                ran <-! measure_shadow_path plan vis_filter path budget elapsed';
                if ran : bool then on_router (λ r, router_record_shadow r oc path shadow_took) else io_ret tt
            end;
      _ <-! io_modify (λ s, match rd_router (sd_read s) with
              | Some r => let '(r', kv') := router_checkpoint r (sd_kv s) (committed_txn (db_mvcc (rd_db (sd_read s)))) in
                  {| sd_read := {| rd_db := set_kv (rd_db (sd_read s)) kv'; rd_delta := rd_delta (sd_read s); rd_router := Some r' |};
                     sd_tracker := sd_tracker s |}
              | None => s
              end);
      io_ret (batches, stats)
  end.

Definition scan_internal (table : string) (filter_text : option string) (snapshot : TxnSnapshot) (vis_filter : F)
    (elapsed elapsed' : Z → Z) (took shadow_took : f64) : rt (list (RecordBatch Arr)) :=
  plan <-! prepare_read_execution_plan table filter_text snapshot;
  out <-! execute_read_plan plan vis_filter elapsed elapsed' took shadow_took;
  io_ret out.1.

(** The rows that the metadata counts. *)
Definition count (table : string) : rt Z :=
  metas <-! sd_reads list_segment_metas;
  io_ret (foldr (λ m n, alive_row_count m + n) 0 (filter (is_live_segment table) metas)).
End scan.

(** [scan] and [scan_as_of] filter with the transaction manager. *)
Section entry_points.
Context `{HashIter} `{KVEngine KV} `{!Codec Z} `{!Codec (Z * Z)} `{!Codec SegmentMeta} `{!Codec TableStats} `{WalLog W} `{CdcWal C}
  `{DeltaDisk D} `{Roaring B} `{Arrow Arr} `{!ArrowCmp Arr} `{!Batches Arr} `{!VortexLib Arr} `{!Codec ColumnEncoding} `{Crc32}
  `{BloomEnv} `{!Codec GranuleZoneMapIndex} `{ScanRouter Rt KV}.
Context (data_dir : string) (now_ms : Z) (configured : SliceBudget) (shadow_on : bool)
  (filter_error_text : FilterError → string) (stage_error_text : FilterStageError → string).

Definition scan (table : string) (filter_text : option string) (elapsed elapsed' : Z → Z) (took shadow_took : f64)
    : st (ScanDb KV W C D Rt) RockDuckError (list (RecordBatch Arr)) :=
  snapshot <-! scan_snapshot;
  m <-! io_gets (λ s, db_mvcc (rd_db (sd_read s)));
  scan_internal (B := B) data_dir now_ms configured shadow_on filter_error_text stage_error_text table filter_text snapshot m
    elapsed elapsed' took shadow_took.
Definition scan_as_of (table : string) (txn : TxnId) (filter_text : option string) (elapsed elapsed' : Z → Z) (took shadow_took : f64)
    : st (ScanDb KV W C D Rt) RockDuckError (list (RecordBatch Arr)) :=
  m <-! io_gets (λ s, db_mvcc (rd_db (sd_read s)));
  scan_internal (B := B) data_dir now_ms configured shadow_on filter_error_text stage_error_text table filter_text
    (snapshot_at m txn Snapshot) m elapsed elapsed' took shadow_took.
End entry_points.

(** * The streaming iterator *)

Inductive ScanState (Arr : Type) :=
  | ScanInit
  | Scanning (segment_idx : nat) (segments : list SegmentMeta) (current_batch_results : list (RecordBatch Arr))
      (batch_offset : nat) (zone_map_group : option ZoneMapPredicateGroup)
  | ScanDone.
Arguments ScanInit {Arr}.
Arguments Scanning {Arr} segment_idx segments current_batch_results batch_offset zone_map_group.
Arguments ScanDone {Arr}.

Record ScanIterator (Arr : Type) := {
  it_table : string;
  it_as_of : option TxnId;
  it_filter_str : option string;
  it_state : ScanState Arr;
  it_snapshot : option TxnSnapshot;
  it_failures : Z;
  it_skipped : list string;
  it_precomputed : option (list SegmentMeta)
}.
Arguments it_table {Arr} _. Arguments it_as_of {Arr} _. Arguments it_filter_str {Arr} _. Arguments it_state {Arr} _.
Arguments it_snapshot {Arr} _. Arguments it_failures {Arr} _. Arguments it_skipped {Arr} _. Arguments it_precomputed {Arr} _.

Definition iterator_new {Arr} (table : string) (as_of : option TxnId) (filter_text : option string) (segments : option (list SegmentMeta))
    : ScanIterator Arr :=
  {| it_table := table; it_as_of := as_of; it_filter_str := filter_text; it_state := ScanInit; it_snapshot := None;
     it_failures := 0; it_skipped := []; it_precomputed := segments |}.
Definition set_state {Arr} (it : ScanIterator Arr) (x : ScanState Arr) : ScanIterator Arr :=
  {| it_table := it_table it; it_as_of := it_as_of it; it_filter_str := it_filter_str it; it_state := x; it_snapshot := it_snapshot it;
     it_failures := it_failures it; it_skipped := it_skipped it; it_precomputed := it_precomputed it |}.
Definition set_progress {Arr} (it : ScanIterator Arr) (x : ScanState Arr) (failures : Z) (skipped : list string) : ScanIterator Arr :=
  {| it_table := it_table it; it_as_of := it_as_of it; it_filter_str := it_filter_str it; it_state := x; it_snapshot := it_snapshot it;
     it_failures := failures; it_skipped := skipped; it_precomputed := it_precomputed it |}.

Section iterator.
Context `{HashIter} `{KVEngine KV} `{!Codec Z} `{!Codec (Z * Z)} `{!Codec SegmentMeta} `{WalLog W} `{CdcWal C}
  `{DeltaDisk D} `{Roaring B} `{Arrow Arr} `{!Batches Arr} `{!VortexLib Arr} `{!Codec ColumnEncoding} `{Crc32}
  `{BloomEnv} `{!Codec GranuleZoneMapIndex}.
Context {Rt : Type} (data_dir : string) (now_ms : Z) (filter_error_text : FilterError → string).
Abbreviation DB := (ScanDb KV W C D Rt).
Abbreviation rt := (st DB RockDuckError).
Abbreviation iter := (ScanIterator Arr).

(** One segment with the database's transaction manager as filter. *)
Definition scan_one (snapshot : TxnSnapshot) (group : option ZoneMapPredicateGroup) (meta : SegmentMeta)
    : rt (Result (list (RecordBatch Arr))) :=
  m <-! io_gets (λ s : DB, db_mvcc (rd_db (sd_read s)));
  io_try (scan_segment_internal (B := B) data_dir now_ms meta snapshot m group).

(** The loop: segments are read until one has batches; one that fails is counted
    and passed over. *)
Fixpoint advance_loop (snapshot : TxnSnapshot) (group : option ZoneMapPredicateGroup) (rest : list SegmentMeta) (idx : nat)
    (failures : Z) (skipped : list string) : rt (nat * Z * list string * list (RecordBatch Arr)) :=
  match rest with
  | [] => io_ret (idx, failures, skipped, [])
  | meta :: rest' =>
      r <-! scan_one snapshot group meta;
      match r with
      | Ok [] => advance_loop snapshot group rest' (S idx) failures skipped
      | Ok batches => io_ret (S idx, failures, skipped, batches)
      | Err _ => advance_loop snapshot group rest' (S idx) (failures + 1) (skipped ++ [seg_id meta])
      end
  end.

Definition advance_segments (it : iter) : rt iter :=
  match it_state it with
  | Scanning idx segments _ _ group =>
      match it_snapshot it with
      | None => io_panic
      | Some snapshot =>
          '(idx', failures, skipped, batches) <-! advance_loop snapshot group (drop idx segments) idx (it_failures it) (it_skipped it);
          io_ret (set_progress it
            (if (length segments <=? idx')%nat && bool_decide (length batches = 0%nat) then ScanDone
             else Scanning idx' segments batches 0 group) failures skipped)
      end
  | _ => io_ret it
  end.

(** The iterator after the call, and its error if it has one. *)
Definition ensure_init (it : iter) : rt (iter * Result unit) :=
  match it_state it with
  | ScanInit =>
      snapshot <-! (match it_as_of it with
                    | Some txn => io_gets (λ s : DB, snapshot_at (db_mvcc (rd_db (sd_read s))) txn Snapshot)
                    | None => scan_snapshot
                    end);
      metas <-! io_gets (λ s : DB, match it_precomputed it with
                                   | Some segments => Ok segments
                                   | None => l <-? list_segment_metas (sd_kv s); Ok (filter (is_live_segment (it_table it)) l)
                                   end);
      let it := {| it_table := it_table it; it_as_of := it_as_of it; it_filter_str := it_filter_str it; it_state := ScanInit;
                   it_snapshot := Some snapshot; it_failures := it_failures it; it_skipped := it_skipped it; it_precomputed := None |} in
      match metas with
      | Err e => io_ret (it, Err e)
      | Ok metas =>
          match match it_filter_str it with
                | Some f => e <-? parse_filter filter_error_text f; Ok (extract_predicates_grouped e)
                | None => Ok None
                end with
          | Err e => io_ret (it, Err e)
          | Ok group =>
              it' <-! advance_segments (set_state it (Scanning 0 metas [] 0 group));
              io_ret (it', Ok tt)
          end
      end
  | _ => io_ret (it, Ok tt)
  end.

(** The loop of [next]; two rounds are enough. *)
Fixpoint next_loop (fuel : nat) (it : iter) : rt (option (iter * option (Result (RecordBatch Arr)))) :=
  match fuel with
  | O => io_ret None
  | S fuel' =>
      match it_state it with
      | Scanning idx segments current offset group =>
          match current !! offset with
          | Some b => io_ret (Some (set_state it (Scanning idx segments current (S offset) group), Some (Ok b)))
          | None =>
              if (length segments <=? idx)%nat then io_ret (Some (set_state it ScanDone, None)) else
              it' <-! advance_segments it;
              match it_state it' with
              | ScanDone => io_ret (Some (it', None))
              | _ => next_loop fuel' it'
              end
          end
      | _ => io_ret (Some (it, None))
      end
  end.
Definition next (it : iter) : rt (option (iter * option (Result (RecordBatch Arr)))) :=
  '(it, r) <-! ensure_init it;
  match r with
  | Err e => io_ret (Some (it, Some (Err e)))
  | Ok _ => next_loop 2 it
  end.

(** A consumer that calls [next] at most [n] times: the items, and whether the
    iterator said that it has no more.  A [next] whose loop does not end within its
    fuel is neither an item nor the end. *)
Fixpoint take_items (n : nat) (it : iter) : rt (list (Result (RecordBatch Arr)) * bool) :=
  match n with
  | O => io_ret ([], false)
  | S n' =>
      r <-! next it;
      match r with
      | Some (it', Some x) => '(rest, ended) <-! take_items n' it'; io_ret (x :: rest, ended)
      | Some (_, None) => io_ret ([], true)
      | None => io_panic
      end
  end.

(** What the iterator promises: the batches of the segments one after the other,
    without the segments that fail. *)
Fixpoint drain (snapshot : TxnSnapshot) (group : option ZoneMapPredicateGroup) (metas : list SegmentMeta) : rt (list (RecordBatch Arr)) :=
  match metas with
  | [] => io_ret []
  | m :: metas' =>
      r <-! scan_one snapshot group m;
      rest <-! drain snapshot group metas';
      io_ret (match r with Ok bs => bs | Err _ => [] end ++ rest)
  end.
End iterator.

(** * Scans with a router *)

Create HintDb router.

Section router_proofs.
Context `{HashIter} `{KVEngine KV} `{!Codec Z} `{!Codec (Z * Z)} `{!Codec SegmentMeta} `{!Codec TableStats} `{WalLog W} `{CdcWal C}
  `{DeltaDisk D} `{Roaring B} `{Arrow Arr} `{!ArrowCmp Arr} `{!Batches Arr} `{!VortexLib Arr} `{!Codec ColumnEncoding} `{Crc32}
  `{BloomEnv} `{!Codec GranuleZoneMapIndex} `{ScanRouter Rt KV}.
Context (data_dir : string) (now_ms : Z) (configured : SliceBudget) (shadow_on : bool)
  (filter_error_text : FilterError → string) (stage_error_text : FilterStageError → string).
Abbreviation DB := (ScanDb KV W C D Rt).

(** A step that neither adds nor removes the router. *)
Definition keeps_router {A} (m : st DB RockDuckError A) : Prop :=
  ∀ s a s', io_returns m s a s' → is_Some (rd_router (sd_read s)) → is_Some (rd_router (sd_read s')).

Lemma kr_bind {A A'} (m : st DB RockDuckError A) (k : A → st DB RockDuckError A') :
  keeps_router m → (∀ a, keeps_router (k a)) → keeps_router (io_bind m k).
Proof. intros Hm Hk s a s' (x & s1 & Hx1 & Hx2)%io_returns_bind Hs. eapply Hk; [done|]. by eapply Hm. Qed.
Lemma kr_ret {A} (a : A) : keeps_router (io_ret a).
Proof. by intros s x s' [_ ->]%io_returns_ret. Qed.
Lemma kr_gets {A} (f : DB → A) : keeps_router (io_gets f).
Proof. by intros s x s' [_ ->]%io_returns_gets. Qed.
Lemma kr_lift {A} (r : Result A) : keeps_router (io_lift r).
Proof. by intros s x s' [_ ->]%io_returns_lift. Qed.
Lemma kr_reads {A} (f : KV → Result A) : keeps_router (sd_reads f).
Proof. intros s x s' (r & Hr & ->)%io_returns_on. unfold io_returns, rd_reads in Hr. by injection Hr as <- _. Qed.
Lemma kr_outcome {A} (o : outcome A) : keeps_router (on_read (rd_outcome o)).
Proof. intros s x s' (r & Hr & ->)%io_returns_on. destruct o; unfold io_returns, rd_outcome in Hr; [by injection Hr as <- _|done]. Qed.
Lemma kr_files {A} (m : io RockDuckError A) : keeps_router (scan_files m).
Proof. intros s x s' (r & (d & _ & ->)%io_returns_on & ->)%io_returns_on. done. Qed.
Lemma kr_router f : keeps_router (on_router f).
Proof. intros s x s' ->%io_returns_modify. cbn. intros [r ->]. by eexists. Qed.
Lemma kr_snapshot : keeps_router scan_snapshot.
Proof.
  intros s x s' (r & Hr & ->)%io_returns_on. unfold io_returns, rd_snapshot in Hr. cbn. destruct (db_snapshot _). by injection Hr as <- _.
Qed.
Hint Resolve kr_bind kr_ret kr_gets kr_lift kr_reads kr_outcome kr_files kr_router kr_snapshot : router.

Lemma kr_layout meta : keeps_router (has_vortex_layout data_dir meta).
Proof. unfold has_vortex_layout. auto with router. Qed.
Lemma kr_zone group meta : keeps_router (passes_zone_map data_dir group meta).
Proof. unfold passes_zone_map. auto 10 with router. Qed.
Lemma kr_and a b : keeps_router a → keeps_router b → keeps_router (and_then a b).
Proof. intros. apply kr_bind; [done|]. intros [|]; auto with router. Qed.
Lemma kr_or a b : keeps_router a → keeps_router b → keeps_router (or_else a b).
Proof. intros. apply kr_bind; [done|]. intros [|]; auto with router. Qed.
Lemma kr_filter p metas : (∀ m, keeps_router (p m)) → keeps_router (filter_metas p metas).
Proof. intros Hp. induction metas; cbn; auto 10 with router. Qed.
Hint Resolve kr_layout kr_zone kr_and kr_or kr_filter : router.

Lemma kr_params table f : keeps_router (build_router_params filter_error_text table f).
Proof. unfold build_router_params, build_router_table_stats, table_segment_ids. auto 20 with router. Qed.

Lemma kr_route table f group : keeps_router (route_table_segments data_dir filter_error_text table f group).
Proof.
  unfold route_table_segments. apply kr_bind; [auto with router|]. intros metas. apply kr_bind; [auto with router|]. intros s.
  apply kr_bind; [apply kr_gets|]. intros [r|]; [|auto with router]. apply kr_bind; [apply kr_params|]. intros params.
  destruct (router_route r params) as [r' routing]. apply kr_bind; [auto with router|]. intros _.
  destruct (rr_decision routing); auto 20 with router.
Qed.

Lemma kr_evidence table qc r e g c : keeps_router (build_evidence_snapshot table qc r e g c).
Proof. unfold build_evidence_snapshot, build_router_table_stats, table_segment_ids. auto 20 with router. Qed.

Lemma evidence_contract table qc routed executed g c (s : DB) ev (s' : DB) :
  io_returns (build_evidence_snapshot table qc routed executed g c) s ev s' → ev_projection_contract ev = c.
Proof.
  unfold build_evidence_snapshot. intros Hr. do 3 apply io_returns_bind in Hr as (? & ? & _ & Hr).
  by apply io_returns_ret in Hr as [-> _].
Qed.

Lemma scan_snapshot_twice (s : DB) snap (s' : DB) cur (s'' : DB) :
  io_returns scan_snapshot s snap s' → io_returns scan_snapshot s' cur s'' → cur = snap.
Proof.
  intros (r & Hx1 & ->)%io_returns_on (r2 & Hx2 & _)%io_returns_on. cbn in Hx2.
  apply snapshot_returns in Hx1 as [-> F1]. apply snapshot_returns in Hx2 as [-> _]. by injection F1 as _ _ F _.
Qed.

(** C35: A live scan cannot run with the router on.  A scan of the current state
    that returns has no router: with one, the plan hands the router evidence
    without a read contract, as it does for every scan at the current snapshot,
    and the assertion on that evidence panics. *)
Theorem live_scan_panics_with_router table f elapsed elapsed' took shadow_took (s : DB) out (s' : DB) :
  io_returns (scan (Arr := Arr) (B := B) data_dir now_ms configured shadow_on filter_error_text stage_error_text
    table f elapsed elapsed' took shadow_took) s out s' → rd_router (sd_read s) = None.
Proof.
  intros Hr. apply eq_None_not_Some. intros Hs. unfold scan in Hr.
  apply io_returns_bind in Hr as (snap & s1 & Hx1 & Hr). apply (kr_snapshot _ _ _ Hx1) in Hs.
  apply io_returns_bind in Hr as (m & s2 & Hx2 & Hr). apply io_returns_gets in Hx2 as [_ ->].
  unfold scan_internal in Hr. apply io_returns_bind in Hr as (plan & s3 & Hp & _).
  unfold prepare_read_execution_plan in Hp. apply io_returns_bind in Hp as (cur & s4 & Hx4 & Hp).
  pose proof (scan_snapshot_twice _ _ _ _ _ Hx1 Hx4) as ->. apply (kr_snapshot _ _ _ Hx4) in Hs.
  apply io_returns_bind in Hp as (parsed & s5 & Hx5 & Hp). apply (kr_lift _ _ _ _ Hx5) in Hs.
  apply io_returns_bind in Hp as (p & s6 & Hx6 & Hp). apply (kr_route _ _ _ _ _ _ Hx6) in Hs.
  apply io_returns_bind in Hp as (ev & s7 & Hx7 & Hp). pose proof (evidence_contract _ _ _ _ _ _ _ _ _ Hx7) as Hc.
  pose proof (kr_evidence _ _ _ _ _ _ _ _ _ Hx7 Hs) as [r Hrt]. rewrite Z.eqb_refl in Hc. clear Hs.
  apply io_returns_bind in Hp as (? & s8 & Hx8 & _). unfold observe_plan in Hx8.
  apply io_returns_bind in Hx8 as (router & s9 & Hx9 & Hx8). apply io_returns_gets in Hx9 as [-> ->]. rewrite Hrt in Hx8.
  apply io_returns_bind in Hx8 as (? & s9 & Hx9 & _). unfold assert_governance_ready, governance_is_complete in Hx9. by rewrite Hc in Hx9.
Qed.
End router_proofs.

(** * The time budget *)

Fixpoint chunked {A} (n : nat) (ls : list (list A)) : Prop :=
  match ls with
  | [] => True
  | l :: ls' => (ls' = [] ∨ length l = n) ∧ chunked n ls'
  end.

Lemma chunks_go_spec {A} (n : nat) fuel (l : list A) :
  (0 < n)%nat → (length l ≤ fuel)%nat → concat (chunks_go fuel n l) = l ∧ chunked n (chunks_go fuel n l) ∧ Forall (λ c, c ≠ []) (chunks_go fuel n l).
Proof.
  intros Hn. revert l. induction fuel as [|fuel IH]; intros l Hl; cbn [chunks_go].
  { destruct l; [done|simpl in Hl; lia]. }
  destruct l as [|x l]; [done|]. destruct (IH (drop n (x :: l))) as (Hc & Hk & Hne); [rewrite length_drop; simpl in *; lia|].
  split_and!; cbn [concat chunked].
  - by rewrite Hc, take_drop.
  - split; [|done]. destruct (decide (n ≤ length (x :: l))%nat) as [Hle|Hlt]; [right; by apply length_take_le|left].
    rewrite drop_ge by lia. by destruct fuel.
  - constructor; [|done]. by destruct n; [lia|].
Qed.

Section budget_proofs.
Context `{HashIter} `{KVEngine KV} `{!Codec Z} `{!Codec (Z * Z)} `{!Codec SegmentMeta} `{!Codec TableStats} `{WalLog W} `{CdcWal C}
  `{DeltaDisk D} `{Roaring B} `{Arrow Arr} `{!Batches Arr} `{!VortexLib Arr} `{!Codec ColumnEncoding} `{Crc32}
  `{BloomEnv} `{!Codec GranuleZoneMapIndex} `{VisFilter F}.
Context {Rt : Type} (data_dir : string) (now_ms : Z).
Abbreviation DB := (ScanDb KV W C D Rt).
Abbreviation output := (SegmentReadStageOutput Arr).
Abbreviation run := (execute_segments (Rt := Rt) (Arr := Arr) (B := B) data_dir now_ms).
Implicit Types (s : DB) (t : ReadExecutionTemplate) (plan : ReadExecutionPlan) (f : F).

Lemma execute_segment_index t plan f meta i s (o : output) s' :
  io_returns (execute_segment (B := B) data_dir now_ms t plan f meta i) s o s' → so_original_index o = i.
Proof.
  assert (Hd : io_returns (execute_delta_only_segment (B := B) meta (pl_snapshot plan) f i) s o s' → so_original_index o = i).
  { unfold execute_delta_only_segment. intros Hr. apply io_returns_bind in Hr as (? & ? & _ & Hr). case_bool_decide.
    - by apply io_returns_ret in Hr as [-> _].
    - do 2 apply io_returns_bind in Hr as (? & ? & _ & Hr). by apply io_returns_ret in Hr as [-> _]. }
  assert (Hv : io_returns (execute_vortex_only_segment data_dir now_ms meta (pl_snapshot plan) f (pl_zone_map_group plan) i) s o s' →
    so_original_index o = i).
  { unfold execute_vortex_only_segment. intros Hr. apply io_returns_bind in Hr as (? & ? & _ & Hr).
    apply io_returns_bind in Hr as ([] & ? & _ & Hr); [by apply io_returns_ret in Hr as [-> _]|].
    do 5 apply io_returns_bind in Hr as (? & ? & _ & Hr). by apply io_returns_ret in Hr as [-> _]. }
  assert (Hm : io_returns (execute_cooperative_merge_segment (B := B) data_dir now_ms meta (pl_snapshot plan) f (pl_zone_map_group plan) i) s o s' →
    so_original_index o = i).
  { unfold execute_cooperative_merge_segment. intros Hr. apply io_returns_bind in Hr as (? & ? & _ & Hr).
    apply io_returns_bind in Hr as ([] & ? & _ & Hr); [by apply io_returns_ret in Hr as [-> _]|].
    do 2 apply io_returns_bind in Hr as (? & ? & _ & Hr). case_bool_decide; [by apply io_returns_ret in Hr as [-> _]|].
    do 5 apply io_returns_bind in Hr as (? & ? & _ & Hr). by apply io_returns_ret in Hr as [-> _]. }
  by destruct t.
Qed.

Lemma execute_segments_sorted t plan f i metas s outs s' :
  io_returns (run t plan f i metas) s outs s' →
  StronglySorted (λ x y, by_index x y = true) outs ∧ Forall (λ o, i ≤ so_original_index o) outs.
Proof.
  revert i s outs. induction metas as [|m metas IH]; intros i s outs; cbn [execute_segments].
  { intros [-> _]%io_returns_ret. split; constructor. }
  intros (o & s1 & Ho & Hr)%io_returns_bind. apply io_returns_bind in Hr as (rest & s2 & Hrest & Hr).
  apply io_returns_ret in Hr as [-> ->]. apply IH in Hrest as [Hs Hi]. apply execute_segment_index in Ho.
  assert (Hi' : Forall (λ o, i ≤ so_original_index o) rest) by (eapply Forall_impl; [done|]; cbn; lia).
  case_bool_decide; [done|]. split; [|constructor; [lia|done]]. constructor; [done|].
  eapply Forall_impl; [exact Hi|]. unfold by_index. cbn. intros; lia.
Qed.

Lemma sort_outputs t plan f i metas s outs s' : io_returns (run t plan f i metas) s outs s' → sort_by by_index outs = outs.
Proof. intros [Hs _]%execute_segments_sorted. by apply sort_by_id. Qed.

Lemma execute_segments_app t plan f i a b s o1 s1 o2 s' :
  io_returns (run t plan f i a) s o1 s1 → io_returns (run t plan f (i + zlen a) b) s1 o2 s' →
  io_returns (run t plan f i (a ++ b)) s (o1 ++ o2) s'.
Proof.
  revert i s o1. induction a as [|m a IH]; intros i s o1; cbn [execute_segments app].
  { intros [-> ->]%io_returns_ret. unfold zlen. cbn. by rewrite Z.add_0_r. }
  intros (o & s2 & Ho & Hr)%io_returns_bind. apply io_returns_bind in Hr as (rest & s3 & Hrest & Hr).
  apply io_returns_ret in Hr as [-> ->]. intros Hb.
  apply io_returns_bind. exists o, s2. split; [done|]. apply io_returns_bind. exists (rest ++ o2), s'. split.
  - apply (IH (i + 1) s2 rest Hrest). unfold zlen in *. simpl length in Hb. replace (i + 1 + Z.of_nat (length a)) with (i + Z.of_nat (S (length a))) by lia. done.
  - apply io_returns_ret. split; [|done]. by case_bool_decide.
Qed.

(** What a run over slices has done and left. *)
Definition cut_short (st : ReadExecutionStats) (rest : list SegmentMeta) : Prop :=
  truncated_segment_ids (cooperative st) = seg_id <$> rest ∧ (elapsed_budget_exhausted (cooperative st) = true ↔ rest ≠ []).

Lemma execute_slices_prefix t plan f budget elapsed n i slices stats s st' outs s' :
  chunked (Z.to_nat n) slices → Forall (λ c, c ≠ []) slices → 0 < n → cut_short stats [] →
  io_returns (execute_slices (B := B) data_dir now_ms t plan f budget elapsed n i slices stats) s (st', outs) s' →
  ∃ did rest, concat slices = did ++ rest ∧ io_returns (run t plan f (i * n) did) s outs s' ∧ cut_short st' rest ∧
    (max_slice_ms budget ≤ 0 → rest = []).
Proof.
  intros Hch Hne Hn. revert i stats s outs Hch. induction Hne as [|chunk slices Hc Hne IH]; intros i stats s outs Hch [Ht He]; cbn [execute_slices].
  { intros [[= -> ->] ->]%io_returns_ret. exists [], []. split_and!; [done| |done|done]. by apply io_returns_ret. }
  intros (raw & s1 & Hraw & Hr)%io_returns_bind. rewrite (sort_outputs _ _ _ _ _ _ _ _ Hraw) in Hr.
  cbn in Ht, He. destruct Hch as [Hl Hch].
  destruct ((0 <? max_slice_ms budget) && _ && _) eqn:Hcut.
  - apply io_returns_ret in Hr as [[= -> ->] ->]. apply andb_true_iff in Hcut as [[Hpos _]%andb_true_iff Hrest].
    exists chunk, (concat slices). split_and!; [done|done| |intros; lia]. split; [done|]. cbn. split; [|done]. intros _.
    destruct slices as [|c' slices]; [done|]. apply Forall_cons in Hne as [Hc' _]. cbn. by destruct c'.
  - apply io_returns_bind in Hr as ([st2 outs2] & s2 & Hr2 & Hr). apply io_returns_ret in Hr as [[= -> ->] ->].
    apply IH in Hr2 as (did & rest & Hcat & Hrun & Hcs & Hz); [|done|split; cbn; [done|done]].
    exists (chunk ++ did), rest. cbn [concat]. rewrite Hcat, (assoc_L (++)). split_and!; [done| |done|done].
    destruct Hl as [->|Hl].
    + cbn in Hcat. symmetry in Hcat. apply app_nil in Hcat as [-> ->]. cbn in Hrun. apply io_returns_ret in Hrun as [-> ->].
      by rewrite !app_nil_r.
    + eapply execute_segments_app; [exact Hraw|]. unfold zlen. rewrite Hl, Z2Nat.id by lia.
      replace (i * n + n) with ((i + 1) * n) by lia. exact Hrun.
Qed.
End budget_proofs.

(** C24: A scan under a time budget answers for a prefix of the table.  The bounded
    execution that returns has read the segments of the plan up to some point
    exactly as the unbounded one would, and reports success; the segments after
    that point are missing from the answer, and their ids are only in the
    statistics.  Without a time limit no segment is left out. *)
Theorem bounded_scan_is_prefix `{HashIter} `{KVEngine KV} `{!Codec Z} `{!Codec (Z * Z)} `{!Codec SegmentMeta} `{!Codec TableStats} `{WalLog W} `{CdcWal C}
    `{DeltaDisk D} `{Roaring B} `{Arrow Arr} `{!Batches Arr} `{!VortexLib Arr} `{!Codec ColumnEncoding} `{Crc32}
    `{BloomEnv} `{!Codec GranuleZoneMapIndex} `{VisFilter F} {Rt} data_dir now_ms t plan (f : F) budget elapsed routed
    (s : ScanDb KV W C D Rt) st (outs : list (SegmentReadStageOutput Arr)) s' :
  io_returns (execute_bounded_cooperative_segment_read_stages (B := B) data_dir now_ms t plan f (stats_with routed (Some budget)) budget elapsed)
    s (st, outs) s' →
  ∃ did rest, pl_execution_segments plan = did ++ rest ∧
    io_returns (execute_segments (B := B) data_dir now_ms t plan f 0 did) s outs s' ∧
    truncated_segment_ids (cooperative st) = seg_id <$> rest ∧ (elapsed_budget_exhausted (cooperative st) = true ↔ rest ≠ []) ∧
    (max_slice_ms budget ≤ 0 → rest = []).
Proof.
  intros Hr. unfold execute_bounded_cooperative_segment_read_stages in Hr. set (n := Z.max _ 1) in Hr.
  destruct (chunks_go_spec (Z.to_nat n) (length (pl_execution_segments plan)) (pl_execution_segments plan)) as (Hcat & Hch & Hne); [lia|done|].
  apply execute_slices_prefix in Hr as (did & rest & Hc & Hrun & [Ht He] & Hz); [|done|done|lia|by split].
  unfold chunks in Hc. rewrite Hcat in Hc. exists did, rest. by split_and!.
Qed.

(** * The iterator against the list of its segments *)

Section iterator_proofs.
Context `{HashIter} `{KVEngine KV} `{!Codec Z} `{!Codec (Z * Z)} `{!Codec SegmentMeta} `{WalLog W} `{CdcWal C}
  `{DeltaDisk D} `{Roaring B} `{Arrow Arr} `{!Batches Arr} `{!VortexLib Arr} `{!Codec ColumnEncoding} `{Crc32}
  `{BloomEnv} `{!Codec GranuleZoneMapIndex}.
Context {Rt : Type} (data_dir : string) (now_ms : Z) (filter_error_text : FilterError → string).
Abbreviation DB := (ScanDb KV W C D Rt).
Abbreviation drains := (drain (Rt := Rt) (B := B) (Arr := Arr) data_dir now_ms).
Abbreviation takes := (take_items (Rt := Rt) (B := B) (Arr := Arr) data_dir now_ms filter_error_text).
Abbreviation nexts := (next (Rt := Rt) (B := B) (Arr := Arr) data_dir now_ms filter_error_text).
Abbreviation loops := (next_loop (Rt := Rt) (B := B) (Arr := Arr) data_dir now_ms).
Implicit Types (s : DB) (it : ScanIterator Arr).

Lemma advance_loop_drain snap g rest idx fl sk s bs s' :
  io_returns (drains snap g rest) s bs s' →
  ∃ k fl' sk' cur bs2 s1,
    io_returns (advance_loop (B := B) data_dir now_ms snap g rest idx fl sk) s ((idx + k)%nat, fl', sk', cur) s1 ∧
    bs = cur ++ bs2 ∧ io_returns (drains snap g (drop k rest)) s1 bs2 s' ∧ (k ≤ length rest)%nat ∧ (cur = [] → k = length rest).
Proof.
  revert idx fl sk s bs. induction rest as [|m rest IH]; intros idx fl sk s bs; cbn [drain advance_loop].
  { intros [-> ->]%io_returns_ret. exists 0%nat, fl, sk, [], [], s. rewrite Nat.add_0_r. split_and!; try done; by apply io_returns_ret. }
  intros (r & s1 & Hr1 & Hr)%io_returns_bind. apply io_returns_bind in Hr as (bs2 & s2 & Hd & Hr). apply io_returns_ret in Hr as [-> ->].
  assert (Hskip : ∀ fl1 sk1, ∃ k fl' sk' cur bs3 s3,
    io_returns (advance_loop (B := B) data_dir now_ms snap g rest (S idx) fl1 sk1) s1 ((idx + k)%nat, fl', sk', cur) s3 ∧
    bs2 = cur ++ bs3 ∧ io_returns (drains snap g (drop k (m :: rest))) s3 bs3 s2 ∧ (k ≤ S (length rest))%nat ∧ (cur = [] → k = S (length rest))).
  { intros fl1 sk1. destruct (IH (S idx) fl1 sk1 _ _ Hd) as (k & fl' & sk' & cur & bs3 & s3 & Ha & -> & Hd3 & Hk & Hc).
    exists (S k), fl', sk', cur, bs3, s3. rewrite Nat.add_succ_r. split_and!; [done|done|done|lia|]. intros Hcur. by rewrite Hc. }
  destruct r as [[|b bs1]|e].
  - destruct (Hskip fl sk) as (k & fl' & sk' & cur & bs3 & s3 & Ha & -> & Hd3 & Hk & Hc).
    exists k, fl', sk', cur, bs3, s3. split_and!; [|done|done|done|done]. apply io_returns_bind. by exists (Ok []), s1.
  - exists 1%nat, fl, sk, (b :: bs1), bs2, s1. split_and!; [|done|done|simpl; lia|done].
    apply io_returns_bind. exists (Ok (b :: bs1)), s1. split; [done|]. apply io_returns_ret. by rewrite Nat.add_1_r.
  - destruct (Hskip (fl + 1) (sk ++ [seg_id m])) as (k & fl' & sk' & cur & bs3 & s3 & Ha & -> & Hd3 & Hk & Hc).
    exists k, fl', sk', cur, bs3, s3. split_and!; [|done|done|done|done]. apply io_returns_bind. by exists (Err e), s1.
Qed.

(** An advanced iterator: finished, or at the start of batches. *)
Lemma advance_returns it idx segs cur0 off0 g snap s bs s' :
  it_state it = Scanning idx segs cur0 off0 g → it_snapshot it = Some snap → (idx ≤ length segs)%nat →
  io_returns (drains snap g (drop idx segs)) s bs s' →
  ∃ it' s1, io_returns (advance_segments (B := B) data_dir now_ms it) s it' s1 ∧ it_snapshot it' = Some snap ∧
    ((it_state it' = ScanDone ∧ bs = [] ∧ s1 = s') ∨
     ∃ idx' cur bs2, it_state it' = Scanning idx' segs cur 0 g ∧ cur ≠ [] ∧ (idx' ≤ length segs)%nat ∧ bs = cur ++ bs2 ∧
       io_returns (drains snap g (drop idx' segs)) s1 bs2 s').
Proof.
  intros Hs Hsn Hle Hd. unfold advance_segments. rewrite Hs, Hsn.
  destruct (advance_loop_drain snap g (drop idx segs) idx (it_failures it) (it_skipped it) s bs s' Hd)
    as (k & fl & sk & cur & bs2 & s1 & Ha & -> & Hd2 & Hk & Hc). rewrite length_drop in Hk, Hc. rewrite drop_drop in Hd2.
  eexists _, s1. split; [apply io_returns_bind; eexists _, s1; split; [exact Ha|by apply io_returns_ret]|]. split; [done|]. cbn.
  destruct cur as [|b cur].
  - left. specialize (Hc eq_refl). replace (length segs <=? idx + k)%nat with true by (symmetry; apply Nat.leb_le; lia).
    rewrite drop_ge in Hd2 by lia. apply io_returns_ret in Hd2 as [-> ->]. done.
  - right. rewrite andb_false_r. exists (idx + k)%nat, (b :: cur), bs2. split_and!; [done|done|lia|done|done].
Qed.

Lemma next_running it : it_state it ≠ ScanInit → nexts it = (λ s, loops 2 it s).
Proof. intros Hs. unfold next, ensure_init. destruct (it_state it); [done|done|done]. Qed.

Lemma take_step n it x it' s s1 s' xs e :
  io_returns (nexts it) s (Some (it', Some x)) s1 → io_returns (takes n it') s1 (xs, e) s' → io_returns (takes (S n) it) s (x :: xs, e) s'.
Proof.
  intros Hn Ht. cbn [take_items]. apply io_returns_bind. eexists _, s1. split; [exact Hn|]. cbn.
  apply io_returns_bind. exists (xs, e), s'. split; [done|]. by apply io_returns_ret.
Qed.
Lemma take_end n it it' s s' : io_returns (nexts it) s (Some (it', None)) s' → io_returns (takes (S n) it) s ([], true) s'.
Proof. intros Hn. cbn [take_items]. apply io_returns_bind. eexists _, s'. split; [exact Hn|]. by apply io_returns_ret. Qed.

Lemma take_scanning n it idx segs cur off g snap s bs s' :
  it_state it = Scanning idx segs cur off g → it_snapshot it = Some snap → (idx ≤ length segs)%nat →
  io_returns (drains snap g (drop idx segs)) s bs s' → (length (drop off cur) + length bs < n)%nat →
  io_returns (takes n it) s (Ok <$> drop off cur ++ bs, true) s'.
Proof.
  revert it idx cur off s bs. induction n as [|n IH]; intros it idx cur off s bs Hs Hsn Hle Hd Hn; [lia|].
  assert (Hne : it_state it ≠ ScanInit) by (by rewrite Hs). pose proof (next_running it Hne) as Hnx.
  destruct (cur !! off) as [b|] eqn:Eb.
  { rewrite (drop_S _ _ _ Eb) in Hn |- *. cbn [app fmap list_fmap]. eapply take_step.
    - unfold io_returns. rewrite Hnx. cbn [next_loop]. rewrite Hs, Eb. done.
    - apply (IH _ idx cur (S off)); [done|done|done|exact Hd|simpl in Hn; lia]. }
  apply lookup_ge_None in Eb. rewrite drop_ge in Hn |- * by done. cbn [app] in *.
  destruct (length segs <=? idx)%nat eqn:Hend.
  { apply Nat.leb_le in Hend. rewrite drop_ge in Hd by done. apply io_returns_ret in Hd as [-> ->]. cbn. eapply take_end.
    unfold io_returns. rewrite Hnx. cbn [next_loop]. rewrite Hs, (lookup_ge_None_2 cur) by done.
    replace (length segs <=? idx)%nat with true by (symmetry; by apply Nat.leb_le). done. }
  destruct (advance_returns it idx segs cur off g snap s bs s' Hs Hsn Hle Hd) as (it' & s1 & Ha & Hsn' & [(Hst & -> & ->)|(idx' & cur' & bs2 & Hst & Hcur & Hi & -> & Hd')]).
  { cbn. eapply take_end. unfold io_returns. rewrite Hnx. cbn [next_loop]. rewrite Hs, (lookup_ge_None_2 cur), Hend by done.
    unfold io_bind. rewrite Ha, Hst. done. }
  destruct cur' as [|b cur']; [done|]. rewrite <- (app_comm_cons cur' bs2 b). cbn [fmap list_fmap]. eapply take_step.
  - unfold io_returns. rewrite Hnx. cbn [next_loop]. rewrite Hs, (lookup_ge_None_2 cur), Hend by done.
    unfold io_bind. rewrite Ha, Hst. cbn. done.
  - apply (IH _ idx' (b :: cur') 1%nat _ bs2); [done|done|done|exact Hd'|]. simpl in *. rewrite length_app in Hn. rewrite drop_0. lia.
Qed.

(** The snapshot a fresh iterator reads at. *)
Definition iterator_snapshot (as_of : option TxnId) : st DB RockDuckError TxnSnapshot :=
  match as_of with
  | Some txn => io_gets (λ s : DB, snapshot_at (db_mvcc (rd_db (sd_read s))) txn Snapshot)
  | None => scan_snapshot
  end.
Definition filter_group (f : option string) : Result (option ZoneMapPredicateGroup) :=
  match f with
  | Some f => e <-? parse_filter filter_error_text f; Ok (extract_predicates_grouped e)
  | None => Ok None
  end.

Lemma take_after_init n it it' s s1 xs s' :
  io_returns (ensure_init (B := B) data_dir now_ms filter_error_text it) s (it', Ok tt) s1 → it_state it' ≠ ScanInit →
  io_returns (takes (S n) it') s1 xs s' → io_returns (takes (S n) it) s xs s'.
Proof.
  intros Hi Hs Ht. cbn [take_items] in *. unfold io_returns in *. unfold io_bind in Ht |- *.
  unfold next at 1. unfold io_bind. rewrite Hi. rewrite (next_running it' Hs) in Ht. exact Ht.
Qed.

(** C25: the iterator yields the live segments and then ends.  When the filter, if
    there is one, parses, the segment list can be read and no segment's read panics, a
    consumer of a fresh iterator without precomputed segments gets the batches of the
    table's live segments at the iterator's snapshot, segment by segment and without
    those that fail, and then the end: as many calls as there are batches and one more.
    The filter only skips segments by their zone maps; the rows of the batches are not
    filtered by it.  (With a filter that does not parse the iterator never ends:
    [iterator_repeats_error].) *)
Theorem iterator_yields_segments table as_of f l group snap s s0 bs s' n :
  io_returns (iterator_snapshot as_of) s snap s0 → list_segment_metas (sd_kv s0) = Ok l → filter_group f = Ok group →
  io_returns (drains snap group (filter (is_live_segment table) l)) s0 bs s' → (length bs < n)%nat →
  io_returns (takes n (iterator_new table as_of f None)) s (Ok <$> bs, true) s'.
Proof.
  intros Hsn Hl Hg Hd Hn. destruct n as [|n]; [lia|].
  set (metas := filter (is_live_segment table) l) in *.
  set (it0 := {| it_table := table; it_as_of := as_of; it_filter_str := f; it_state := Scanning 0 metas [] 0 group;
                 it_snapshot := Some snap; it_failures := 0; it_skipped := []; it_precomputed := None |} : ScanIterator Arr).
  destruct (advance_returns it0 0 metas [] 0 group snap s0 bs s' eq_refl eq_refl ltac:(lia) Hd) as (it' & s1 & Ha & Hsn' & Hcase).
  assert (Hi : io_returns (ensure_init (B := B) data_dir now_ms filter_error_text (iterator_new table as_of f None)) s (it', Ok tt) s1).
  { unfold ensure_init. cbn [iterator_new it_state it_as_of it_precomputed it_filter_str it_table].
    apply io_returns_bind. exists snap, s0. split; [exact Hsn|]. apply io_returns_bind. eexists _, s0. split; [by apply io_returns_gets|].
    rewrite Hl. cbn [result_bind]. unfold filter_group in Hg. rewrite Hg. apply io_returns_bind. exists it', s1. split; [exact Ha|].
    by apply io_returns_ret. }
  destruct Hcase as [(Hst & -> & ->)|(idx & cur & bs2 & Hst & Hcur & Hi' & -> & Hd')].
  - apply (take_after_init n _ _ _ _ _ _ Hi); [by rewrite Hst|]. cbn. apply (take_end n it' it').
    unfold io_returns. rewrite next_running by (by rewrite Hst). cbn [next_loop]. by rewrite Hst.
  - apply (take_after_init n _ _ _ _ _ _ Hi); [by rewrite Hst|].
    apply (take_scanning _ it' idx metas cur 0 group snap); [done|done|done|done|]. rewrite drop_0. rewrite length_app in Hn. lia.
Qed.

(** A filter that does not parse makes the iterator endless: every call
    returns the error again, so that a consumer that runs to the end of the
    iterator does not finish. *)
Theorem iterator_repeats_error f e n it s l :
  list_segment_metas (sd_kv s) = Ok l → parse_filter filter_error_text f = Err e →
  it_state it = ScanInit → it_filter_str it = Some f →
  ∃ s', io_returns (takes n it) s (replicate n (Err e), false) s'.
Proof.
  revert it s. induction n as [|n IH]; intros it s Hl Hf Hi Hfs; [by eexists|].
  assert (∃ snap s0, io_returns (iterator_snapshot (it_as_of it)) s snap s0 ∧ sd_kv s0 = sd_kv s) as (snap & s0 & Hsn & Hkv).
  { destruct (it_as_of it) as [txn|]; cbn [iterator_snapshot].
    - eexists _, s. split; [by apply io_returns_gets|done].
    - unfold scan_snapshot, on_read, io_on, io_returns, rd_snapshot. destruct (db_snapshot (rd_db (sd_read s))) as [db sn] eqn:E.
      eexists _, _. split; [reflexivity|]. cbn. unfold db_snapshot, cached_or in E. destruct (cached_snapshot _); by simplify_eq. }
  set (it1 := {| it_table := it_table it; it_as_of := it_as_of it; it_filter_str := it_filter_str it; it_state := ScanInit;
                 it_snapshot := Some snap; it_failures := it_failures it; it_skipped := it_skipped it; it_precomputed := None |} : ScanIterator Arr).
  destruct (IH it1 s0) as [s' Hs']; [by rewrite Hkv|done|done|done|].
  exists s'. cbn [replicate]. eapply take_step; [|exact Hs']. unfold next.
  apply io_returns_bind. eexists (it1, Err e), s0. split; [|by apply io_returns_ret]. unfold ensure_init. rewrite Hi.
  apply io_returns_bind. exists snap, s0. split; [exact Hsn|]. apply io_returns_bind. eexists _, s0. split; [by apply io_returns_gets|].
  rewrite Hkv, Hl. cbn [result_bind]. destruct (it_precomputed it); cbn [it_filter_str]; rewrite Hfs, Hf; cbn [result_bind]; apply io_returns_ret; (split; [unfold it1; by rewrite Hfs|done]).
Qed.
End iterator_proofs.

(** * Witnesses *)

Section witnesses.
#[local] Existing Instances w_z w_zz w_3 w_4 w_meta w_zone w_enc sample_crc w_stats' w_ipc' sample_env ListArray_cmp.
#[local] Instance w_granule : Codec GranuleZoneMapIndex := {| encode _ := Err (CEncode "none"); decode _ := Err (CDecode "none") |}.
#[local] Instance demo_router : ScanRouter unit MemKV := {
  router_route u _ := (u, {| rr_decision := RMerge; rr_confidence := f64_of_Z 1; rr_estimated_cost := f64_of_Z 1; rr_tier := "tier1_rule" |});
  router_observe_metadata u _ := u;
  router_observe_route u _ _ _ _ := u;
  router_observe_maintenance u _ := u;
  router_budget _ _ _ := None;
  router_samples_shadow u _ _ _ _ := (u, false);
  router_record_outcome u _ := u;
  router_record_shadow u _ _ _ := u;
  router_checkpoint u kv _ := (u, kv)
}.
(** The inserted row of the point reads, with the patch of its cell, no router. *)
Definition demo_scan_db : ScanDb MemKV MemLog (list CdcOp) ListDisk unit :=
  {| sd_read := demo_read_db (wd_db demo_inserted) demo_layers; sd_tracker := access_tracker_new |}.
(** The same without the visibility file of the segment. *)
Definition demo_plain_db : ScanDb MemKV MemLog (list CdcOp) ListDisk unit :=
  {| sd_read := rd_set_disk (sd_read demo_scan_db) (set_disk_files (rd_disk (sd_read demo_scan_db))
       (delete "data/segments/seg_1/__vis.vortex" (disk_files (rd_disk (sd_read demo_scan_db)))));
     sd_tracker := access_tracker_new |}.
Definition demo_budget (n ms : Z) : SliceBudget := {| max_segments_per_slice := n; max_slice_ms := ms |}.
Abbreviation demo_scan := (scan (Arr := ListArray) (B := SortedBitmap) "data" 0 (demo_budget 0 0) false (λ _, "bad filter") (λ _, "bad stage") "t" None
  (λ _, 0) (λ _, 0) (f64_of_Z 0) (f64_of_Z 0)).

(** The visibility file of an insert holds one column, so that a scan of the
    inserted row panics; without the file the scan returns the base value, and
    not the patch that the point read returns. *)
Example scan_after_insert_panics : (demo_scan demo_scan_db).2 = Panic.
Proof. vm_compute. reflexivity. Qed.
Example scan_misses_patch : ∃ b, (demo_scan demo_plain_db).2 = Done (Ok [b]) ∧ rb_columns b = [int_array [Some 5]].
Proof. eexists. split; vm_compute; reflexivity. Qed.

Lemma live_scan_panics_with_router_witness :
  ∃ out s', io_returns demo_scan demo_plain_db out s' ∧ length out = 1%nat ∧ rd_router (sd_read demo_plain_db) = None.
Proof.
  destruct (demo_scan demo_plain_db) as [s' o] eqn:E.
  destruct o as [[out|e]|]; try (exfalso; apply (f_equal snd) in E; vm_compute in E; discriminate).
  exists out, s'. split_and!; [exact E| |].
  - apply (f_equal snd) in E. vm_compute in E. by injection E as <-.
  - exact (live_scan_panics_with_router _ _ _ _ _ _ _ _ _ _ _ _ _ _ _ E).
Defined.

(** Two segments, one per slice, and a clock that runs out in the first. *)
Definition demo_meta : SegmentMeta := match list_segment_metas (sd_kv demo_plain_db) with Ok (m :: _) => m | _ => SegmentMeta_new 7 "s" "t" [] end.
Definition demo_plan : ReadExecutionPlan :=
  {| pl_table := "t"; pl_filter := None; pl_query_columns := []; pl_snapshot := demo_snap; pl_routed_segments := [demo_meta; demo_meta];
     pl_execution_segments := [demo_meta; demo_meta]; pl_parsed_expr := None; pl_zone_map_group := None;
     pl_template := CooperativeMerge; pl_routing := None |}.
Lemma bounded_scan_is_prefix_witness :
  ∃ st outs s' did rest,
    io_returns (execute_bounded_cooperative_segment_read_stages (Arr := ListArray) (B := SortedBitmap) "data" 0 CooperativeMerge demo_plan
      VisibilityManager_new (stats_with 2 (Some (demo_budget 1 25))) (demo_budget 1 25) (λ _, 30)) demo_plain_db (st, outs) s' ∧
    pl_execution_segments demo_plan = did ++ rest ∧ truncated_segment_ids (cooperative st) = seg_id <$> rest ∧ length outs = 1%nat ∧ rest ≠ [].
Proof.
  destruct (execute_bounded_cooperative_segment_read_stages (Arr := ListArray) (B := SortedBitmap) "data" 0 CooperativeMerge demo_plan
      VisibilityManager_new (stats_with 2 (Some (demo_budget 1 25))) (demo_budget 1 25) (λ _, 30) demo_plain_db) as [s' o] eqn:E.
  destruct o as [[[st outs]|e]|]; try (exfalso; apply (f_equal snd) in E; vm_compute in E; discriminate).
  destruct (bounded_scan_is_prefix _ _ _ _ _ _ _ _ _ _ _ _ E) as (did & rest & Hp & _ & Ht & He & _).
  exists st, outs, s', did, rest. apply (f_equal snd) in E as E'. vm_compute in E'. injection E' as <- <-.
  split_and!; [exact E|exact Hp|exact Ht|done|by apply He].
Defined.

Definition demo_session : TxnSnapshot :=
  {| snapshot_id := 9; snap_active_txns := ∅; isolation := Snapshot; snap_commit_ts_map := {[3 := 4; 5 := 6]} |}.
Definition demo_metas : list SegmentMeta := match list_segment_metas (sd_kv demo_plain_db) with Ok l => l | Err _ => [] end.
Abbreviation demo_drain := (drain (Arr := ListArray) (B := SortedBitmap) "data" 0 demo_session None (filter (is_live_segment "t") demo_metas)).
Lemma iterator_yields_segments_witness :
  ∃ b s', io_returns (take_items (Arr := ListArray) (B := SortedBitmap) "data" 0 (λ _, "bad filter") 5 (iterator_new "t" None None None))
    demo_plain_db ([Ok b], true) s' ∧ rb_columns b = [int_array [Some 5]].
Proof.
  assert (Es : io_returns (iterator_snapshot (Rt := unit) None) demo_plain_db demo_session demo_plain_db) by (vm_compute; reflexivity).
  assert (El : list_segment_metas (sd_kv demo_plain_db) = Ok demo_metas) by (vm_compute; reflexivity).
  destruct (demo_drain demo_plain_db) as [s' o] eqn:Ed.
  assert (∃ b, o = Done (Ok [b]) ∧ rb_columns b = [int_array [Some 5]]) as (b & -> & Hb).
  { apply (f_equal snd) in Ed. cbn [snd] in Ed. rewrite <- Ed. eexists. split; vm_compute; reflexivity. }
  exists b, s'. split; [|exact Hb].
  exact (iterator_yields_segments "data" 0 (λ _, "bad filter") "t" None None _ None _ _ _ [b] s' 5 Es El eq_refl Ed ltac:(simpl; lia)).
Defined.

Lemma iterator_repeats_error_witness :
  ∃ s', io_returns (take_items (Arr := ListArray) (B := SortedBitmap) "data" 0 (λ _, "bad filter") 3 (iterator_new "t" None (Some "v =") None))
    demo_plain_db (replicate 3 (Err (EQuery "bad filter")), false) s'.
Proof.
  destruct (list_segment_metas (sd_kv demo_plain_db)) as [l|e] eqn:El; [|exfalso; vm_compute in El; discriminate].
  refine (iterator_repeats_error "data" 0 (λ _, "bad filter") "v =" _ 3 (iterator_new "t" None (Some "v =") None) demo_plain_db l El _ eq_refl eq_refl).
  vm_compute. reflexivity.
Defined.

Lemma vortex_only_ignores_deltas_witness :
  ∃ o s', io_returns (execute_vortex_only_segment (Arr := ListArray) "data" 0 demo_meta demo_snap VisibilityManager_new None 0)
    (with_delta demo_plain_db demo_foreign) o s' ∧ so_delta_rows o = 0 ∧ length (so_batches o) = 1%nat.
Proof.
  destruct (execute_vortex_only_segment (Arr := ListArray) "data" 0 demo_meta demo_snap VisibilityManager_new None 0 demo_plain_db) as [s' o] eqn:E.
  destruct o as [[o|e]|]; try (exfalso; apply (f_equal snd) in E; vm_compute in E; discriminate).
  exists o. eexists. split_and!; [exact (vortex_only_ignores_deltas _ _ _ _ _ _ _ _ demo_foreign _ _ E)|..];
    apply (f_equal snd) in E; vm_compute in E; by injection E as <-.
Defined.
End witnesses.
