(* ===== verification/HeatTracker.v ===== *)
(** Write heat (write/heat_tracker.rs): the moving average of the writes of each
    key with its two indexes, the classification of a write batch into hot and
    cold, and the buffer of hot writes. *)

From stdpp Require Import base gmap strings list sorting.
From Stdlib Require Import Floats.SpecFloat.
From S2P Require Import Prelude.

Local Open Scope Z_scope.

#[export] Instance f64_eq_dec : EqDecision f64.
Proof. solve_decision. Defined.

(** * Data *)

Record HeatTrackerConfig := {
  hot_threshold : f64;
  cold_threshold : f64;
  decay_factor : f64;
  hot_buffer_max_bytes : Z;
  max_tracked_keys : Z
}.
Definition HeatTrackerConfig_default : HeatTrackerConfig := {|
  hot_threshold := f64_of_Z 5;
  cold_threshold := f64_of_Z 1;
  decay_factor := f64_lit 875 1000;
  hot_buffer_max_bytes := 64 * 1024 * 1024;
  max_tracked_keys := 1000000
|}.

Record HeatSample := { hs_ewma : f64; hs_update_count : Z }.

(** The key [(OrderedFloat(ewma), pk)]: a double by its place in the order. *)
Abbreviation HeatKey := ((Z * (Z * Z)) * bytes)%type.
Record Inner := {
  pk_heat : btree HeatKey HeatSample;
  pk_to_ewma : gmap bytes f64
}.
Definition Inner_default : Inner := {| pk_heat := []; pk_to_ewma := ∅ |}.

(** The [IndexMap] is the list of its entries by index. *)
Record HotBuffer := { hb_entries : list (bytes * list bytes); hb_total_bytes : Z }.
Definition HotBuffer_new : HotBuffer := {| hb_entries := []; hb_total_bytes := 0 |}.

Record WriteHeatTracker := {
  ht_config : HeatTrackerConfig;
  ht_inner : Inner;
  ht_hot_buffer : HotBuffer;
  ht_recent_cold_keys : list Z
}.
Definition heat_with_config (c : HeatTrackerConfig) : WriteHeatTracker :=
  {| ht_config := c; ht_inner := Inner_default; ht_hot_buffer := HotBuffer_new; ht_recent_cold_keys := [] |}.
Definition heat_new : WriteHeatTracker := heat_with_config HeatTrackerConfig_default.

Definition set_inner (t : WriteHeatTracker) (i : Inner) : WriteHeatTracker :=
  {| ht_config := ht_config t; ht_inner := i; ht_hot_buffer := ht_hot_buffer t; ht_recent_cold_keys := ht_recent_cold_keys t |}.
Definition set_hot_buffer (t : WriteHeatTracker) (b : HotBuffer) : WriteHeatTracker :=
  {| ht_config := ht_config t; ht_inner := ht_inner t; ht_hot_buffer := b; ht_recent_cold_keys := ht_recent_cold_keys t |}.

(** * The hot buffer *)

Fixpoint values_bytes (vs : list bytes) : Z := match vs with [] => 0 | v :: vs' => zlen v + values_bytes vs' end.

(** [swap_remove_index(0)]: the last entry takes the place of the first. *)
Definition swap_remove_first {A} (l : list A) : option (A * list A) :=
  match l with
  | [] => None
  | x :: rest => Some (x, match last rest with Some y => y :: removelast rest | None => [] end)
  end.

(** The [while] loop: a round removes an entry or is the last. *)
Fixpoint hb_evict (fuel : nat) (b : HotBuffer) (entry_bytes max_bytes : Z) : HotBuffer :=
  if negb (max_bytes <? hb_total_bytes b + entry_bytes) then b else
  match fuel with
  | O => b
  | S fuel' =>
      match swap_remove_first (hb_entries b) with
      | Some ((k, vs), es) =>
          hb_evict fuel' {| hb_entries := es; hb_total_bytes := hb_total_bytes b - zlen k - values_bytes vs |} entry_bytes max_bytes
      | None => b
      end
  end.

(** [entries.entry(key).or_default().push(value)] *)
Fixpoint entry_push (key value : bytes) (es : list (bytes * list bytes)) : list (bytes * list bytes) :=
  match es with
  | [] => [(key, [value])]
  | (k, vs) :: es' => if bool_decide (k = key) then (k, vs ++ [value]) :: es' else (k, vs) :: entry_push key value es'
  end.

Definition hb_add (b : HotBuffer) (key value : bytes) (max_bytes : Z) : HotBuffer :=
  let entry_bytes := zlen key + zlen value in
  if max_bytes <? entry_bytes then b else
  let b := hb_evict (length (hb_entries b)) b entry_bytes max_bytes in
  {| hb_entries := entry_push key value (hb_entries b); hb_total_bytes := hb_total_bytes b + entry_bytes |}.

(** * The tracker *)

Definition next_ewma (c : HeatTrackerConfig) (old : option f64) : f64 :=
  match old with
  | Some e => f64_add (f64_mul e (decay_factor c)) (f64_sub (f64_of_Z 1) (decay_factor c))
  | None => f64_sub (f64_of_Z 1) (decay_factor c)
  end.

(** The least entry leaves a full map. *)
Definition evict_coldest (c : HeatTrackerConfig) (i : Inner) : Inner :=
  if max_tracked_keys c <=? zlen (pk_heat i) then
    match pk_heat i with
    | (k, _) :: rest => {| pk_heat := rest; pk_to_ewma := delete k.2 (pk_to_ewma i) |}
    | [] => i
    end
  else i.

Definition record_update (t : WriteHeatTracker) (pk : bytes) : WriteHeatTracker :=
  let c := ht_config t in
  let i := evict_coldest c (ht_inner t) in
  let old_ewma := pk_to_ewma i !! pk in
  let update_count :=
    match old_ewma with
    | Some e => match bt_get (f64_rank e, pk) (pk_heat i) with Some s => hs_update_count s | None => 0 end
    | None => 0
    end in
  let new_ewma := next_ewma c old_ewma in
  let heat := match old_ewma with Some old => bt_remove (f64_rank old, pk) (pk_heat i) | None => pk_heat i end in
  set_inner t {| pk_heat := bt_insert (f64_rank new_ewma, pk) {| hs_ewma := new_ewma; hs_update_count := wrap32 (update_count + 1) |} heat;
                 pk_to_ewma := <[pk := new_ewma]> (pk_to_ewma i) |}.

Definition heat_score (t : WriteHeatTracker) (pk : bytes) : f64 := default (S754_zero false) (pk_to_ewma (ht_inner t) !! pk).
Definition is_hot (t : WriteHeatTracker) (pk : bytes) : bool := SFleb (hot_threshold (ht_config t)) (heat_score t pk).
Definition is_cold (t : WriteHeatTracker) (pk : bytes) : bool := SFleb (heat_score t pk) (cold_threshold (ht_config t)).

(** FNV-1a over 64 bits. *)
Definition simple_hash (data : bytes) : Z :=
  foldl (λ h b, wrap64 (Z.lxor h b * 1099511628211)) 14695981039346656037 data.

Definition record_cold_key (t : WriteHeatTracker) (pk : bytes) : WriteHeatTracker :=
  let recent := ht_recent_cold_keys t in
  let recent := if 1024 <=? zlen recent then tail recent else recent in
  {| ht_config := ht_config t; ht_inner := ht_inner t; ht_hot_buffer := ht_hot_buffer t;
     ht_recent_cold_keys := recent ++ [simple_hash pk] |}.

(** The first pass: the indices of hot and cold entries, and of the unknown ones. *)
Fixpoint classify_pass (t : WriteHeatTracker) (idx : nat) (entries : list (bytes * Z)) : list nat * list nat * list nat :=
  match entries with
  | [] => ([], [], [])
  | (pk, _) :: entries' =>
      let '(hot, cold, unknown) := classify_pass t (S idx) entries' in
      match pk_to_ewma (ht_inner t) !! pk with
      | Some e => if SFleb (hot_threshold (ht_config t)) e then (idx :: hot, cold, unknown) else (hot, idx :: cold, unknown)
      | None => (hot, idx :: cold, idx :: unknown)
      end
  end.
Definition classify_batch (t : WriteHeatTracker) (entries : list (bytes * Z)) : WriteHeatTracker * (list nat * list nat) :=
  let '(hot, cold, unknown) := classify_pass t 0 entries in
  (foldl (λ t idx, match entries !! idx with Some e => record_cold_key t e.1 | None => t end) t unknown, (hot, cold)).

Definition buffer_hot_write (t : WriteHeatTracker) (pk value : bytes) : WriteHeatTracker :=
  set_hot_buffer t (hb_add (ht_hot_buffer t) pk value (hot_buffer_max_bytes (ht_config t))).
Definition should_flush_hot (t : WriteHeatTracker) : bool :=
  hot_buffer_max_bytes (ht_config t) <=? hb_total_bytes (ht_hot_buffer t).
Definition drain_hot_buffer (t : WriteHeatTracker) : WriteHeatTracker * gmap bytes (list bytes) :=
  (set_hot_buffer t HotBuffer_new, list_to_map (hb_entries (ht_hot_buffer t))).

Definition hot_key_count (t : WriteHeatTracker) : Z :=
  zlen (List.filter (λ e : HeatKey * HeatSample, SFleb (hot_threshold (ht_config t)) (hs_ewma e.2)) (pk_heat (ht_inner t))).
Definition tracked_key_count (t : WriteHeatTracker) : Z := zlen (pk_heat (ht_inner t)).

Definition f64_clamp (x lo hi : f64) : f64 := if f64_ltb x lo then lo else if f64_ltb hi x then hi else x.
Definition estimated_mbps (t : WriteHeatTracker) : f64 :=
  match pk_heat (ht_inner t) with
  | [] => f64_of_Z 10
  | heat =>
      let total_ewma := foldl (λ s e, f64_add s (hs_ewma e)) (S754_zero false) (heat.*2) in
      f64_clamp (f64_mul (f64_div total_ewma (f64_of_Z (zlen heat))) (f64_of_Z 20)) (f64_of_Z 1) (f64_of_Z 1000)
  end.

(** [clear] leaves [pk_to_ewma] as it is. *)
Definition heat_clear (t : WriteHeatTracker) : WriteHeatTracker :=
  {| ht_config := ht_config t; ht_inner := {| pk_heat := []; pk_to_ewma := pk_to_ewma (ht_inner t) |};
     ht_hot_buffer := HotBuffer_new; ht_recent_cold_keys := [] |}.

Definition find_heat_key (pk : bytes) (m : btree HeatKey HeatSample) : option HeatKey :=
  fst <$> List.find (λ e : HeatKey * HeatSample, bool_decide (e.1.2 = pk)) m.
Definition forget_key (t : WriteHeatTracker) (pk : bytes) : WriteHeatTracker :=
  let i := ht_inner t in
  let heat := match find_heat_key pk (pk_heat i) with Some k => bt_remove k (pk_heat i) | None => pk_heat i end in
  set_inner t {| pk_heat := heat; pk_to_ewma := delete pk (pk_to_ewma i) |}.

(** * Runs *)

Inductive HeatOp :=
  | HRecord (pk : bytes)
  | HClassify (entries : list (bytes * Z))
  | HBuffer (pk value : bytes)
  | HDrain
  | HForget (pk : bytes)
  | HClear.
Definition heat_do (t : WriteHeatTracker) (op : HeatOp) : WriteHeatTracker :=
  match op with
  | HRecord pk => record_update t pk
  | HClassify entries => (classify_batch t entries).1
  | HBuffer pk value => buffer_hot_write t pk value
  | HDrain => (drain_hot_buffer t).1
  | HForget pk => forget_key t pk
  | HClear => heat_clear t
  end.
Inductive heat_reachable (c : HeatTrackerConfig) (ok : HeatOp → Prop) : WriteHeatTracker → Prop :=
  | heat_start : heat_reachable c ok (heat_with_config c)
  | heat_step t op : heat_reachable c ok t → ok op → heat_reachable c ok (heat_do t op).

Lemma classify_inner t entries : ht_inner (classify_batch t entries).1 = ht_inner t ∧ ht_config (classify_batch t entries).1 = ht_config t.
Proof.
  unfold classify_batch. destruct (classify_pass t 0 entries) as [[hot cold] unknown]. cbn. revert t.
  induction unknown as [|i l IH]; intros t; cbn; [done|].
  destruct (entries !! i); cbn; rewrite ?(proj1 (IH _)), ?(proj2 (IH _)); done.
Qed.

Lemma heat_do_config t op : ht_config (heat_do t op) = ht_config t.
Proof. destruct op; try done. apply classify_inner. Qed.
Lemma reachable_config c ok t : heat_reachable c ok t → ht_config t = c.
Proof. induction 1; [done|]. by rewrite heat_do_config. Qed.

(** * The two indexes *)

(** The ordered map holds each key of the lookup map once, under its average. *)
Record heat_ok (c : HeatTrackerConfig) (i : Inner) : Prop := {
  heat_sorted : bt_sorted (pk_heat i);
  heat_indexed : ∀ k s, (k, s) ∈ pk_heat i → k.1 = f64_rank (hs_ewma s) ∧ pk_to_ewma i !! k.2 = Some (hs_ewma s);
  heat_listed : ∀ pk e, pk_to_ewma i !! pk = Some e → ∃ s, ((f64_rank e, pk), s) ∈ pk_heat i;
  heat_bounded : zlen (pk_heat i) ≤ Z.max 1 (max_tracked_keys c)
}.

Lemma heat_key_unique c i k s k' s' : heat_ok c i → (k, s) ∈ pk_heat i → (k', s') ∈ pk_heat i → k.2 = k'.2 → k = k' ∧ s = s'.
Proof.
  intros Hi Hk Hk' E. destruct (heat_indexed _ _ Hi _ _ Hk) as [H1 H2], (heat_indexed _ _ Hi _ _ Hk') as [H1' H2'].
  rewrite E, H2' in H2. injection H2 as H2. assert (k = k') as ->.
  { destruct k as [r p], k' as [r' p']. cbn in *. by rewrite H1, H1', E, H2. }
  split; [done|].
  apply elem_of_bt_get in Hk; [|apply Hi]. apply elem_of_bt_get in Hk'; [|apply Hi]. congruence.
Qed.

Lemma bt_remove_elem (m : btree HeatKey HeatSample) k k' s : bt_sorted m → (k', s) ∈ bt_remove k m ↔ (k', s) ∈ m ∧ k' ≠ k.
Proof.
  intros Hs. rewrite !elem_of_bt_get by auto using bt_remove_sorted. rewrite bt_get_remove by done.
  destruct (cmp k' k) eqn:E.
  - apply cmp_eq in E as ->. naive_solver.
  - apply cmp_lt_ne in E. naive_solver.
  - apply cmp_gt_lt, cmp_lt_ne in E. naive_solver.
Qed.
Lemma bt_insert_elem (m : btree HeatKey HeatSample) k a k' s : bt_sorted m → (k', s) ∈ bt_insert k a m ↔ (k' = k ∧ s = a) ∨ (k' ≠ k ∧ (k', s) ∈ m).
Proof.
  intros Hs. rewrite !elem_of_bt_get by first [exact Hs | by apply bt_insert_sorted]. destruct (decide (k' = k)) as [->|Hn].
  - rewrite bt_get_insert_eq by done. naive_solver.
  - rewrite bt_get_insert_ne by done. naive_solver.
Qed.
Lemma bt_remove_length {K A} `{CmpLaws K} (k : K) (m : btree K A) : bt_sorted m →
  zlen (bt_remove k m) = zlen m - (match bt_get k m with Some _ => 1 | None => 0 end).
Proof.
  induction 1 as [|k' a m Hl Hm IH]; [done|]. cbn [bt_remove bt_get]. destruct (cmp k k'); rewrite ?zlen_cons; try lia.
Qed.
Lemma bt_insert_length {K A} `{CmpLaws K} (k : K) (a : A) (m : btree K A) : zlen (bt_insert k a m) ≤ zlen m + 1.
Proof. induction m as [|[k' a'] m IH]; cbn [bt_insert]; [done|]. destruct (cmp k k'); rewrite ?zlen_cons; lia. Qed.

(** A removal from both indexes. *)
Lemma heat_ok_remove c i k s : heat_ok c i → (k, s) ∈ pk_heat i →
  heat_ok c {| pk_heat := bt_remove k (pk_heat i); pk_to_ewma := delete k.2 (pk_to_ewma i) |}.
Proof.
  intros Hi Hk. pose proof (heat_sorted _ _ Hi) as Hs. split; cbn.
  - by apply bt_remove_sorted.
  - intros k' s' [Hin Hne]%bt_remove_elem; [|done]. destruct (heat_indexed _ _ Hi _ _ Hin) as [Hr Hl]. split; [done|].
    rewrite lookup_delete_ne; [done|]. intros E. apply Hne. symmetry. by eapply (heat_key_unique _ _ k s k' s').
  - intros pk e [Hne Hl]%lookup_delete_Some. destruct (heat_listed _ _ Hi _ _ Hl) as [s' Hin].
    exists s'. apply bt_remove_elem; [done|]. split; [done|]. by intros <-.
  - rewrite bt_remove_length by done. pose proof (heat_bounded _ _ Hi). destruct (bt_get k (pk_heat i)); lia.
Qed.

Lemma evict_coldest_ok c i : heat_ok c i →
  heat_ok c (evict_coldest c i) ∧ zlen (pk_heat (evict_coldest c i)) + 1 ≤ Z.max 1 (max_tracked_keys c).
Proof.
  intros Hi. unfold evict_coldest. destruct (Z.leb_spec (max_tracked_keys c) (zlen (pk_heat i))); [|split; [done|lia]].
  destruct (pk_heat i) as [|[k s] rest] eqn:E; [split; [done|rewrite E; unfold zlen; cbn; lia]|].
  pose proof (heat_ok_remove c i k s Hi) as Hr. rewrite E in Hr. cbn [bt_remove] in Hr. rewrite cmp_refl in Hr. split; [apply Hr; left|].
  cbn. pose proof (heat_bounded _ _ Hi) as Hb. rewrite E, zlen_cons in Hb. lia.
Qed.

Lemma record_update_ok c t pk : ht_config t = c → heat_ok c (ht_inner t) → heat_ok c (ht_inner (record_update t pk)).
Proof.
  intros <- Hi. destruct (evict_coldest_ok _ _ Hi) as [He Hb]. unfold record_update. cbn [set_inner ht_inner].
  set (i := evict_coldest _ _) in *. set (e' := next_ewma _ _). set (smp := {| hs_ewma := e'; hs_update_count := _ |}).
  assert (heat_ok (ht_config t) {| pk_heat := match pk_to_ewma i !! pk with Some old => bt_remove (f64_rank old, pk) (pk_heat i) | None => pk_heat i end;
    pk_to_ewma := delete pk (pk_to_ewma i) |} ∧ zlen (match pk_to_ewma i !! pk with Some old => bt_remove (f64_rank old, pk) (pk_heat i) | None => pk_heat i end)
      ≤ zlen (pk_heat i)) as [Hr Hl].
  { destruct (pk_to_ewma i !! pk) as [old|] eqn:E.
    - destruct (heat_listed _ _ He _ _ E) as [s Hin]. split; [exact (heat_ok_remove _ _ _ _ He Hin)|].
      rewrite bt_remove_length by apply He. destruct (bt_get _ _); lia.
    - rewrite (delete_id _ _ E). by destruct i. }
  set (heat := match pk_to_ewma i !! pk with Some old => bt_remove (f64_rank old, pk) (pk_heat i) | None => pk_heat i end) in *. clearbody heat. split; cbn.
  - apply bt_insert_sorted, Hr.
  - intros k s [[-> ->]|[Hne Hin]]%bt_insert_elem; [cbn; by rewrite lookup_insert_eq| |apply Hr].
    destruct (heat_indexed _ _ Hr _ _ Hin) as [Hk Hm]. cbn in Hm. apply lookup_delete_Some in Hm as [Hp Hm]. split; [done|].
    by rewrite lookup_insert_ne.
  - intros pk' e. destruct (decide (pk' = pk)) as [->|Hn].
    + rewrite lookup_insert_eq. intros [= <-]. exists smp. apply bt_insert_elem; [apply Hr|by left].
    + rewrite lookup_insert_ne by done. intros Hm. destruct (heat_listed _ _ Hr pk' e) as [s Hin]; [cbn; by rewrite lookup_delete_ne|].
      exists s. apply bt_insert_elem; [apply Hr|]. right. split; [congruence|done].
  - pose proof (bt_insert_length (f64_rank e', pk) smp heat). lia.
Qed.

Lemma find_heat_key_spec c i pk : heat_ok c i →
  match find_heat_key pk (pk_heat i) with
  | Some k => k.2 = pk ∧ ∃ s, (k, s) ∈ pk_heat i
  | None => pk_to_ewma i !! pk = None
  end.
Proof.
  intros Hi. unfold find_heat_key. destruct (List.find _ _) as [[k s]|] eqn:E; cbn.
  - apply List.find_some in E as [Hin Hk]. apply bool_decide_eq_true in Hk. split; [done|]. exists s. by apply list_elem_of_In.
  - apply eq_None_not_Some. intros [e He]. destruct (heat_listed _ _ Hi _ _ He) as [s Hin]. apply list_elem_of_In in Hin.
    pose proof (List.find_none _ _ E _ Hin) as Hn. cbn in Hn. by apply bool_decide_eq_false in Hn.
Qed.
Lemma forget_key_ok c t pk : heat_ok c (ht_inner t) → heat_ok c (ht_inner (forget_key t pk)).
Proof.
  intros Hi. unfold forget_key. cbn [set_inner ht_inner]. pose proof (find_heat_key_spec c _ pk Hi) as Hf.
  destruct (find_heat_key pk (pk_heat (ht_inner t))) as [k|].
  - destruct Hf as [<- [s Hs]]. by apply (heat_ok_remove _ _ _ s).
  - rewrite (delete_id _ _ Hf). by destruct (ht_inner t).
Qed.

(** C34: The heat tracker's two indexes describe the same keys.  After every run of
    writes, classifications, buffered writes, drains and forgotten keys the
    ordered map holds each key that has an average exactly once and under that
    average, it holds no other key, and it is within the configured bound (a bound of
    0 still lets one key in); so the entry that a full tracker drops is one of least
    average. *)
Theorem heat_index_exact c t :
  heat_reachable c (λ op, op ≠ HClear) t →
  (∀ pk e, pk_to_ewma (ht_inner t) !! pk = Some e ↔ ∃ n, ((f64_rank e, pk), {| hs_ewma := e; hs_update_count := n |}) ∈ pk_heat (ht_inner t)) ∧
  tracked_key_count t = Z.of_nat (size (pk_to_ewma (ht_inner t))) ∧ tracked_key_count t ≤ Z.max 1 (max_tracked_keys c) ∧
  (∀ k s rest, pk_heat (ht_inner t) = (k, s) :: rest → ∀ pk e, pk_to_ewma (ht_inner t) !! pk = Some e → cmp (f64_rank e) (f64_rank (hs_ewma s)) ≠ Lt).
Proof.
  intros Hr. assert (heat_ok c (ht_inner t)) as Hi.
  { induction Hr as [|t op Hr IH Hop].
    - split; cbn; [apply bt_sorted_nil|by intros ?? ?%elem_of_nil|done|unfold zlen; cbn; lia].
    - destruct op; cbn [heat_do]; try done.
      + apply record_update_ok; [by eapply reachable_config|done].
      + by rewrite (proj1 (classify_inner _ _)).
      + by apply forget_key_ok. }
  assert (∀ pk e, pk_to_ewma (ht_inner t) !! pk = Some e ↔ ∃ n, ((f64_rank e, pk), {| hs_ewma := e; hs_update_count := n |}) ∈ pk_heat (ht_inner t)) as Hex.
  { intros pk e. split.
    - intros He. destruct (heat_listed _ _ Hi _ _ He) as [[e' n] Hin]. destruct (heat_indexed _ _ Hi _ _ Hin) as [_ Hm]. cbn in Hm.
      exists n. congruence.
    - intros [n Hin]. by destruct (heat_indexed _ _ Hi _ _ Hin). }
  split_and!; [exact Hex| |apply Hi|].
  - unfold tracked_key_count, zlen. f_equal. rewrite <- length_map_to_list.
    rewrite <- (length_fmap (λ e : HeatKey * HeatSample, e.1.2) (pk_heat (ht_inner t))).
    rewrite <- (length_fmap fst (map_to_list (pk_to_ewma (ht_inner t)))). apply Permutation_length, NoDup_Permutation.
    + apply (NoDup_fmap_2_strong). 2:{ eapply NoDup_fmap_1, bt_sorted_NoDup_fst, Hi. }
      intros [k s] [k' s'] H1 H2 E. cbn in E. by destruct (heat_key_unique _ _ _ _ _ _ Hi H1 H2 E) as [-> ->].
    + apply NoDup_fst_map_to_list.
    + intros pk. rewrite !list_elem_of_fmap. split.
      * intros ([k s] & -> & Hin). exists (k.2, hs_ewma s). split; [done|]. apply elem_of_map_to_list. by apply (heat_indexed _ _ Hi k s).
      * intros ([pk' e] & -> & Hin). apply elem_of_map_to_list in Hin. destruct (heat_listed _ _ Hi _ _ Hin) as [s Hs]. by exists ((f64_rank e, pk'), s).
  - intros k s rest E pk e He. destruct (heat_listed _ _ Hi _ _ He) as [s' Hin]. pose proof (heat_sorted _ _ Hi) as Hs. rewrite E in Hs, Hin.
    assert (Hk : k.1 = f64_rank (hs_ewma s)) by (apply (heat_indexed _ _ Hi k s); rewrite E; left). rewrite <- Hk.
    apply elem_of_cons in Hin as [[= <- _]|Hin]; cbn; [by rewrite cmp_refl|].
    inversion Hs as [|? ? ? Hall _]; subst. rewrite Forall_forall in Hall. apply Hall in Hin. destruct k as [r p]. cbn [fst] in *. clear Hk Hs Hall E.
    change (match cmp r (f64_rank e) with Eq => cmp p pk | c => c end = Lt) in Hin.
    intros Hlt. rewrite (cmp_opp (f64_rank e)) in Hlt. by destruct (cmp r (f64_rank e)).
Qed.

(** * The default thresholds *)

(** The averages a key can have: the value after each number of writes, up to the
    one that no longer changes. *)
Fixpoint ewma_orbit (n : nat) (e : f64) : list f64 :=
  match n with
  | O => [e]
  | S n' => e :: ewma_orbit n' (next_ewma HeatTrackerConfig_default (Some e))
  end.
Definition default_orbit : list f64 := ewma_orbit 400 (next_ewma HeatTrackerConfig_default None).

Lemma default_orbit_closed : Forall (λ e, next_ewma HeatTrackerConfig_default (Some e) ∈ default_orbit) default_orbit.
Proof. rewrite <- (bool_decide_spec (Forall _ _)). vm_compute. exact I. Qed.
Lemma default_orbit_cool : Forall (λ e, SFleb e (f64_of_Z 1) = true ∧ SFleb (f64_of_Z 5) e = false) default_orbit.
Proof. rewrite <- (bool_decide_spec (Forall _ _)). vm_compute. exact I. Qed.

Lemma default_orbit_start : next_ewma HeatTrackerConfig_default None ∈ default_orbit.
Proof. left. Qed.
#[local] Opaque default_orbit next_ewma.

(** With the default configuration no key is ever hot.  The average of a key
    never rises above one, whatever is written and however often, and a key is
    hot from five on: every batch is classified as cold, and every key is cold. *)
Theorem default_config_never_hot t entries pk :
  heat_reachable HeatTrackerConfig_default (λ _, True) t →
  is_hot t pk = false ∧ is_cold t pk = true ∧ (classify_batch t entries).2 = ([], seq 0 (length entries)).
Proof.
  intros Hr. assert (∀ pk e, pk_to_ewma (ht_inner t) !! pk = Some e → e ∈ default_orbit) as Ho.
  { clear pk entries. induction Hr as [|t op Hr IH _]; [by cbn|]. pose proof (reachable_config _ _ _ Hr) as Hc.
    destruct op as [pk|entries|pk v| |pk|]; cbn [heat_do].
    - cbn [record_update set_inner ht_inner pk_to_ewma]. rewrite Hc. intros pk' e.
      assert (∀ p e, pk_to_ewma (evict_coldest HeatTrackerConfig_default (ht_inner t)) !! p = Some e → e ∈ default_orbit) as He.
      { intros p e0. unfold evict_coldest. destruct (_ <=? _); [|apply IH]. destruct (pk_heat _) as [|[k ?] ?]; [apply IH|].
        cbn. intros [_ ?]%lookup_delete_Some. by eapply IH. }
      intros [[<- <-]|[_ Hp]]%lookup_insert_Some; [|by eapply He].
      destruct (pk_to_ewma _ !! pk) as [old|] eqn:E; [|apply default_orbit_start]. apply He in E. pose proof default_orbit_closed as Hcl.
      rewrite Forall_forall in Hcl. by apply Hcl.
    - by rewrite (proj1 (classify_inner _ _)).
    - exact IH.
    - exact IH.
    - cbn. intros p e [_ ?]%lookup_delete_Some. by eapply IH.
    - exact IH. }
  pose proof default_orbit_cool as Hcool. rewrite Forall_forall in Hcool. pose proof (reachable_config _ _ _ Hr) as Hc.
  unfold is_hot, is_cold, heat_score. rewrite Hc. split_and!.
  - destruct (_ !! pk) as [e|] eqn:E; [|done]. by apply Hcool, (Ho pk).
  - destruct (_ !! pk) as [e|] eqn:E; [|done]. by apply Hcool, (Ho pk).
  - unfold classify_batch. assert (∀ n, ∃ u, classify_pass t n entries = ([], seq n (length entries), u)) as Hp.
    { clear pk. induction entries as [|[pk z] entries IH]; intros n; [by exists []|]. cbn. destruct (IH (S n)) as [u ->].
      destruct (_ !! pk) as [e|] eqn:E; [|by eexists]. rewrite Hc. change (hot_threshold HeatTrackerConfig_default) with (f64_of_Z 5). rewrite (proj2 (Hcool e (Ho pk e E))). by eexists. }
    destruct (Hp 0%nat) as [u ->]. done.
Qed.
#[local] Transparent default_orbit next_ewma.

(** * The hot buffer *)

Fixpoint buffered_bytes (es : list (bytes * list bytes)) : Z :=
  match es with [] => 0 | (k, vs) :: es' => zlen k + values_bytes vs + buffered_bytes es' end.

Lemma values_bytes_nonneg vs : 0 ≤ values_bytes vs.
Proof. induction vs as [|v vs IH]; cbn; [lia|]. pose proof (zlen_nonneg v). lia. Qed.
Lemma values_bytes_app vs ws : values_bytes (vs ++ ws) = values_bytes vs + values_bytes ws.
Proof. induction vs as [|v vs IH]; cbn; lia. Qed.
Lemma buffered_bytes_nonneg es : 0 ≤ buffered_bytes es.
Proof. induction es as [|[k vs] es IH]; cbn; [lia|]. pose proof (zlen_nonneg k). pose proof (values_bytes_nonneg vs). lia. Qed.
Lemma buffered_bytes_perm es es' : es ≡ₚ es' → buffered_bytes es = buffered_bytes es'.
Proof. induction 1 as [|[]| [] []|]; cbn; lia. Qed.

Lemma swap_remove_first_perm {A} (l : list A) x l' : swap_remove_first l = Some (x, l') → l ≡ₚ x :: l'.
Proof.
  destruct l as [|y l]; [done|]. intros [= <- <-]. constructor.
  destruct (last l) as [z|] eqn:E; [|by apply last_None in E as ->].
  apply last_Some in E as [l0 ->]. rewrite removelast_last, Permutation_app_comm. done.
Qed.

Lemma entry_push_bytes key value es : buffered_bytes (entry_push key value es) =
  buffered_bytes es + zlen value + (if bool_decide (key ∈ es.*1) then 0 else zlen key).
Proof.
  induction es as [|[k vs] es IH]; cbn; [rewrite bool_decide_false by set_solver; lia|]. destruct (decide (k = key)) as [->|Hk].
  - rewrite (bool_decide_true (key = key)) by done. cbn. rewrite values_bytes_app, bool_decide_true by left. cbn. lia.
  - rewrite (bool_decide_false (k = key)) by done. cbn. rewrite IH. destruct (decide (key ∈ es.*1)) as [Hin|Hn].
    + rewrite !bool_decide_true by (done || by right). lia.
    + rewrite !bool_decide_false; [lia| |done]. intros [->|?]%elem_of_cons; done.
Qed.

(** The counter is never below the bytes that are held, so that no subtraction of
    the eviction underflows. *)
Definition buffer_ok (max_bytes : Z) (b : HotBuffer) : Prop :=
  buffered_bytes (hb_entries b) ≤ hb_total_bytes b ∧ buffered_bytes (hb_entries b) ≤ max_bytes ∧ NoDup (hb_entries b).*1.

Lemma hb_evict_spec fuel b n max_bytes : (length (hb_entries b) ≤ fuel)%nat → buffer_ok max_bytes b → n ≤ max_bytes →
  buffer_ok max_bytes (hb_evict fuel b n max_bytes) ∧ buffered_bytes (hb_entries (hb_evict fuel b n max_bytes)) + n ≤ max_bytes ∧
  (hb_entries (hb_evict fuel b n max_bytes) ⊆+ hb_entries b).
Proof.
  intros Hf Hb Hn. revert b Hf Hb. induction fuel as [|fuel IH]; intros b Hf Hb; cbn [hb_evict];
    (destruct (Z.ltb_spec max_bytes (hb_total_bytes b + n)) as [Hlt|Hle]; cbn [negb]; [|split_and!; [done|destruct Hb; lia|done]]).
  { destruct (hb_entries b) eqn:E; [|cbn in Hf; lia]. split_and!; [done|cbn; lia|done]. }
  destruct (swap_remove_first (hb_entries b)) as [[[k vs] es]|] eqn:E.
  2:{ destruct (hb_entries b) eqn:E'; [|done]. split_and!; [done|cbn; lia|done]. }
  apply swap_remove_first_perm in E. destruct Hb as (Ht & Hm & Hd). pose proof (buffered_bytes_perm _ _ E) as Hp. cbn in Hp.
  rewrite (Permutation_length E) in Hf. cbn in Hf. rewrite E in Hd. cbn in Hd. apply NoDup_cons in Hd as [_ Hd].
  pose proof (zlen_nonneg k). pose proof (values_bytes_nonneg vs).
  destruct (IH {| hb_entries := es; hb_total_bytes := hb_total_bytes b - zlen k - values_bytes vs |}) as (H1 & H2 & H3); cbn.
  - lia.
  - split_and!; cbn; [lia|lia|done].
  - split_and!; [done|done|]. etrans; [exact H3|]. cbn. rewrite E. by apply submseteq_cons.
Qed.

Lemma entry_push_keys key value es k : k ∈ (entry_push key value es).*1 ↔ k = key ∨ k ∈ es.*1.
Proof.
  induction es as [|[k' vs] es IH]; cbn; [set_solver|]. case_bool_decide as Hk; cbn; rewrite !elem_of_cons; [subst; tauto|]. rewrite IH. tauto.
Qed.
Lemma entry_push_nodup key value es : NoDup es.*1 → NoDup (entry_push key value es).*1.
Proof.
  induction es as [|[k' vs] es IH]; cbn; intros Hd; [apply NoDup_singleton|]. apply NoDup_cons in Hd as [Hn Hd].
  case_bool_decide as Hk; cbn; constructor; [done|done| |by apply IH]. rewrite entry_push_keys. by intros [->|?].
Qed.

(** The buffer of hot writes stays within its limit.  An entry that fits is in
    the buffer after the call, behind the values its key still had; the bytes
    held never exceed the limit, and the counter is never below them. *)
Theorem hot_buffer_bounded b key value max_bytes :
  buffer_ok max_bytes b → zlen key + zlen value ≤ max_bytes →
  buffer_ok max_bytes (hb_add b key value max_bytes) ∧
  ∃ vs, (key, vs ++ [value]) ∈ hb_entries (hb_add b key value max_bytes) ∧ (vs = [] ∨ (key, vs) ∈ hb_entries b).
Proof.
  intros Hb Hn. unfold hb_add. destruct (Z.ltb_spec max_bytes (zlen key + zlen value)); [lia|].
  destruct (hb_evict_spec (length (hb_entries b)) b (zlen key + zlen value) max_bytes) as ((H1 & H2 & H3) & H4 & H5); [lia|done|done|].
  set (b' := hb_evict _ _ _ _) in *. clearbody b'. cbn. pose proof (zlen_nonneg key). pose proof (zlen_nonneg value). split.
  - split_and!; cbn; [| |by apply entry_push_nodup]; rewrite entry_push_bytes; case_bool_decide; lia.
  - assert (∃ vs, (key, vs ++ [value]) ∈ entry_push key value (hb_entries b') ∧ (vs = [] ∨ (key, vs) ∈ hb_entries b')) as (vs & Hin & Hvs).
    { clear. induction (hb_entries b') as [|[k vs] es IH]; cbn; [exists []; split; [left|by left]|]. case_bool_decide as Hk.
      - subst k. exists vs. split; [left|right; left].
      - destruct IH as (ws & H1 & H2). exists ws. split; [by right|]. destruct H2; [by left|right; by right]. }
    exists vs. split; [done|]. destruct Hvs as [?|?]; [by left|right]. by eapply elem_of_submseteq.
Qed.

(** * Witnesses *)

Definition heat_demo_config : HeatTrackerConfig := {|
  hot_threshold := f64_lit 3 10; cold_threshold := f64_lit 2 10; decay_factor := f64_lit 1 2; hot_buffer_max_bytes := 10; max_tracked_keys := 2 |}.

Lemma updates_reachable c ok t pks : (∀ pk, ok (HRecord pk)) → heat_reachable c ok t → heat_reachable c ok (foldl record_update t pks).
Proof. intros Hok. revert t. induction pks as [|pk pks IH]; intros t Ht; [done|]. apply IH. by apply (heat_step c ok t (HRecord pk)). Qed.

(** Three keys in a tracker for two: the one written once is dropped. *)
Definition heat_demo : WriteHeatTracker :=
  foldl record_update (heat_with_config heat_demo_config) [[1]; [1]; [2]; [3]].
Lemma heat_index_exact_witness :
  tracked_key_count heat_demo = 2 ∧ pk_to_ewma (ht_inner heat_demo) !! [2] = None ∧ is_hot heat_demo [1] = true ∧
  (∀ pk e, pk_to_ewma (ht_inner heat_demo) !! pk = Some e ↔
    ∃ n, ((f64_rank e, pk), {| hs_ewma := e; hs_update_count := n |}) ∈ pk_heat (ht_inner heat_demo)).
Proof.
  split; [vm_compute; reflexivity|]. split; [vm_compute; reflexivity|]. split; [vm_compute; reflexivity|].
  refine (proj1 (heat_index_exact heat_demo_config heat_demo _)). apply updates_reachable; [discriminate|constructor].
Defined.

(** After [clear] the lookup map still knows the key, the ordered map does not. *)
Example clear_leaves_averages :
  tracked_key_count (heat_clear heat_demo) = 0 ∧ is_hot (heat_clear heat_demo) [1] = true.
Proof. vm_compute. done. Qed.

Definition heat_many : WriteHeatTracker := foldl record_update heat_new (replicate 20 [7]).
Lemma default_config_never_hot_witness : is_hot heat_many [7] = false ∧ tracked_key_count heat_many = 1.
Proof.
  split; [|vm_compute; reflexivity]. refine (proj1 (default_config_never_hot heat_many [] [7] _)).
  apply updates_reachable; [done|constructor].
Defined.

Definition buffer_demo (keys : list bytes) : HotBuffer := foldl (λ b k, hb_add b k [9] 6) HotBuffer_new keys.
Lemma hot_buffer_bounded_witness :
  buffer_ok 6 (hb_add (buffer_demo [[1]; [2]; [3]]) [4] [9; 9; 9] 6).
Proof. apply (hot_buffer_bounded (buffer_demo [[1]; [2]; [3]]) [4] [9; 9; 9] 6); [|by vm_compute]. vm_compute. split_and!; [done|done|]. by apply (bool_decide_unpack _). Defined.
(** Eviction takes the first entry and moves the last to its place: of the keys 1, 2 and 3 the oldest and the
    newest leave.  A key with several values is counted once per value and taken off once. *)
Example eviction_order :
  (hb_entries (hb_add (buffer_demo [[1]; [2]; [3]]) [4] [9; 9; 9] 6)).*1 = [[2]; [4]].
Proof. vm_compute. reflexivity. Qed.
Example counter_drifts :
  let b := buffer_demo [[1]; [1]; [1]; [2]] in (hb_entries b, hb_total_bytes b) = ([([2], [[9]])], 4) ∧ buffered_bytes (hb_entries b) = 2.
Proof. vm_compute. done. Qed.
