(* ===== verification/QueryFeedback.v ===== *)
(** Query feedback per segment (query/feedback.rs): the hit and miss counters that
    the adaptive compaction scheduler reads.  The shared handle is its content. *)

From stdpp Require Import base gmap strings list.
From Stdlib Require Import Floats.SpecFloat.
From S2P Require Import Prelude HeatTracker.

Local Open Scope Z_scope.

Record QueryFeedback := {
  fb_seg_id : string;
  fb_hit_count : Z;
  fb_miss_count : Z;
  fb_last_access : Z;
  fb_query_count : Z
}.

Definition hit_ratio (f : QueryFeedback) : f64 :=
  let total := fb_hit_count f + fb_miss_count f in
  if total =? 0 then f64_of_Z 1 else f64_div (f64_of_Z (fb_hit_count f)) (f64_of_Z total).
Definition fb_staleness_penalty (f : QueryFeedback) : f64 := f64_sub (f64_of_Z 1) (hit_ratio f).
Definition fb_prune_hit_ratio (f : QueryFeedback) : f64 := hit_ratio f.

(** [QueryFeedbackCollector]: the content of its lock. *)
Abbreviation Feedback := (gmap string QueryFeedback).

Section collector.
Implicit Type d : Feedback.

Definition feedback_entry d (seg_id : string) : QueryFeedback :=
  default {| fb_seg_id := seg_id; fb_hit_count := 0; fb_miss_count := 0; fb_last_access := 0; fb_query_count := 0 |} (d !! seg_id).

Definition record_hit d (seg_id : string) (timestamp : Z) : Feedback :=
  let f := feedback_entry d seg_id in
  <[seg_id := {| fb_seg_id := fb_seg_id f; fb_hit_count := fb_hit_count f + 1; fb_miss_count := fb_miss_count f;
                 fb_last_access := timestamp; fb_query_count := fb_query_count f + 1 |}]> d.
Definition record_miss d (seg_id : string) (timestamp : Z) : Feedback :=
  let f := feedback_entry d seg_id in
  <[seg_id := {| fb_seg_id := fb_seg_id f; fb_hit_count := fb_hit_count f; fb_miss_count := fb_miss_count f + 1;
                 fb_last_access := timestamp; fb_query_count := fb_query_count f + 1 |}]> d.

Definition alias_feedback d (old_seg_id new_seg_id : string) (timestamp : Z) : Feedback :=
  let seeded := default {| fb_seg_id := old_seg_id; fb_hit_count := 0; fb_miss_count := 0; fb_last_access := timestamp;
                           fb_query_count := 0 |} (d !! old_seg_id) in
  <[new_seg_id := {| fb_seg_id := new_seg_id; fb_hit_count := fb_hit_count seeded; fb_miss_count := fb_miss_count seeded;
                     fb_last_access := timestamp; fb_query_count := 0 |}]> d.

Definition get_all_stats `{HashIter} d : list (string * QueryFeedback) := hash_iter d.
Definition get_all_feedback `{HashIter} d : list QueryFeedback := (hash_iter d).*2.

Definition staleness_penalty d (seg_id : string) : f64 :=
  match d !! seg_id with Some f => fb_staleness_penalty f | None => f64_of_Z 0 end.
Definition prune_hit_ratio d (seg_id : string) : f64 :=
  match d !! seg_id with Some f => fb_prune_hit_ratio f | None => f64_of_Z 1 end.

Definition feedback_clear d : Feedback := ∅.
Definition prune_for_segments d (alive : gset string) : Feedback := filter (λ e, e.1 ∈ alive) d.
Definition prune_stale d (now_txn max_age : Z) : Feedback :=
  filter (λ e, saturating_sub now_txn (fb_last_access e.2) < max_age) d.
Definition feedback_len d : Z := Z.of_nat (size d).
Definition feedback_is_empty d : bool := feedback_len d =? 0.

(** The selectivity that one segment stands for. *)
Definition segment_selectivity (f : QueryFeedback) : f64 :=
  let ratio := if 0 <? fb_query_count f then f64_div (f64_of_Z (fb_hit_count f)) (f64_of_Z (fb_query_count f)) else f64_lit 5 10 in
  f64_clamp (f64_mul ratio (f64_lit 5 10)) (f64_lit 1 10000) (f64_of_Z 1).
Definition avg_selectivity `{HashIter} d : f64 :=
  if bool_decide (d = ∅) then f64_lit 1 100 else
  f64_div (foldl (λ s f, f64_add s (segment_selectivity f)) (S754_zero false) (get_all_feedback d)) (f64_of_Z (feedback_len d)).
End collector.

(** * Runs *)

Inductive FeedbackOp :=
  | FHit (seg_id : string) (now : Z)
  | FMiss (seg_id : string) (now : Z)
  | FAlias (old_seg_id new_seg_id : string) (now : Z)
  | FPruneSegments (alive : gset string)
  | FPruneStale (now max_age : Z)
  | FClear.
Definition feedback_do (d : Feedback) (op : FeedbackOp) : Feedback :=
  match op with
  | FHit s t => record_hit d s t
  | FMiss s t => record_miss d s t
  | FAlias o n t => alias_feedback d o n t
  | FPruneSegments alive => prune_for_segments d alive
  | FPruneStale now age => prune_stale d now age
  | FClear => feedback_clear d
  end.
Inductive feedback_reachable : Feedback → Prop :=
  | feedback_start : feedback_reachable ∅
  | feedback_step d op : feedback_reachable d → feedback_reachable (feedback_do d op).

(** An entry is under its own id, its counters are natural numbers, and it has seen
    at most as many queries as hits and misses: as many unless it was seeded. *)
Definition entry_ok (seg_id : string) (f : QueryFeedback) : Prop :=
  fb_seg_id f = seg_id ∧ 0 ≤ fb_hit_count f ∧ 0 ≤ fb_miss_count f ∧ 0 ≤ fb_query_count f ≤ fb_hit_count f + fb_miss_count f.

Lemma feedback_entry_ok d s : map_Forall entry_ok d → entry_ok s (feedback_entry d s).
Proof. intros Hd. unfold feedback_entry. destruct (d !! s) as [f|] eqn:E; [by apply (Hd s f)|]. by split_and!. Qed.

Lemma feedback_reachable_ok d : feedback_reachable d → map_Forall entry_ok d.
Proof.
  induction 1 as [|d op _ IH]; [apply map_Forall_empty|]. destruct op as [s t|s t|o n t|alive|now age|]; cbn [feedback_do].
  - apply map_Forall_insert_2; [|done]. destruct (feedback_entry_ok d s IH) as (? & ? & ? & ?). split_and!; cbn; first [done|lia].
  - apply map_Forall_insert_2; [|done]. destruct (feedback_entry_ok d s IH) as (? & ? & ? & ?). split_and!; cbn; first [done|lia].
  - apply map_Forall_insert_2; [|done]. unfold entry_ok. cbn. destruct (d !! o) as [f|] eqn:E; cbn; [|by split_and!].
    destruct (IH o f E) as (? & ? & ? & ?). split_and!; first [done|lia].
  - intros k f [Hk _]%map_lookup_filter_Some. by apply IH.
  - intros k f [Hk _]%map_lookup_filter_Some. by apply IH.
  - apply map_Forall_empty.
Qed.
