(* ===== verification/Ecotune.v ===== *)
(** The choice of a compaction policy for a workload (compaction/ecotune.rs): the
    closed form for the number of runs, the cache of decisions and the levels of
    segments by age. *)

From stdpp Require Import base gmap strings list.
From Stdlib Require Import Floats.SpecFloat.
From S2P Require Import Prelude HeatTracker.

Local Open Scope Z_scope.

(** * Workloads and policies *)

(** [WorkloadProfile] of this file; the flush engine has another one. *)
Record EcoProfile := {
  rq_ratio : f64;
  write_speed_mbps : f64;
  ep_avg_selectivity : f64;
  point_query_ratio : f64
}.
Definition EcoProfile_default : EcoProfile :=
  {| rq_ratio := f64_lit 5 10; write_speed_mbps := f64_of_Z 10; ep_avg_selectivity := f64_lit 1 100; point_query_ratio := f64_lit 5 10 |}.

Definition is_write_heavy (p : EcoProfile) : bool := f64_ltb (rq_ratio p) (f64_lit 3 10).
Definition is_read_heavy (p : EcoProfile) : bool := f64_ltb (f64_lit 7 10) (rq_ratio p).

(** [x as u8]: truncation toward zero, saturating. *)
Definition f64_as_u8 (x : f64) : Z :=
  match x with
  | S754_finite false m e => Z.min (Z.shiftl (Z.pos m) e) 255
  | S754_infinity false => 255
  | _ => 0
  end.
Abbreviation CacheKey := (Z * Z * Z * Z)%type.
Definition quarter (x : f64) : Z := Z.min (f64_as_u8 (f64_mul x (f64_of_Z 4))) 3.
Definition cache_key (p : EcoProfile) : CacheKey :=
  let ws := if f64_ltb (write_speed_mbps p) (f64_of_Z 10) then 0
            else if f64_ltb (write_speed_mbps p) (f64_of_Z 100) then 1 else 2 in
  (quarter (rq_ratio p), quarter (ep_avg_selectivity p), quarter (point_query_ratio p), ws).

Inductive EcoPolicy := EcoTiering | EcoLeveling | EcoHybrid (top_ratio main_ratio : f64).
#[export] Instance EcoPolicy_eq_dec : EqDecision EcoPolicy.
Proof. solve_decision. Defined.
Definition policy_name (p : EcoPolicy) : string :=
  match p with
  | EcoTiering => "Tiering (write-optimized)"
  | EcoLeveling => "Leveling (read-optimized)"
  | EcoHybrid _ _ => "Hybrid (balanced)"
  end.

Inductive LogicalLevel := LevelTop | LevelMain | LevelLast.
Definition level_from_txn (created_txn now_txn : Z) : LogicalLevel :=
  let age := saturating_sub now_txn created_txn in
  if age <? 1000 then LevelTop else if age <? 100000 then LevelMain else LevelLast.
Definition cost_weight (l : LogicalLevel) : f64 :=
  match l with LevelTop => f64_of_Z 1 | LevelMain => f64_of_Z 2 | LevelLast => f64_of_Z 3 end.

Record EcoTuneConfig := {
  dp_timeout_ms : Z;
  read_cost_per_level : f64;
  write_cost : f64;
  level_size_ratio : f64;
  top_size_ratio : f64;
  enable_cache : bool
}.
Definition EcoTuneConfig_default : EcoTuneConfig :=
  {| dp_timeout_ms := 10; read_cost_per_level := f64_of_Z 1; write_cost := f64_of_Z 1; level_size_ratio := f64_of_Z 10;
     top_size_ratio := f64_of_Z 2; enable_cache := true |}.

(** * The cache of decisions *)

(** The values with their positions, and the keys in the order of insertion; the
    field [order] of the source is never used. *)
Record LRUCache (K V : Type) `{Countable K} := {
  lru_map : gmap K (V * Z);
  lru_positions : list K;
  lru_max_size : Z;
  lru_next_pos : Z
}.
Arguments lru_map {K V _ _} _. Arguments lru_positions {K V _ _} _. Arguments lru_max_size {K V _ _} _. Arguments lru_next_pos {K V _ _} _.
Arguments Build_LRUCache {K V _ _} _ _ _ _.

Section lru.
Context `{Countable K} {V : Type}.
Implicit Type c : LRUCache K V.

Definition lru_new (max_size : Z) : LRUCache K V := Build_LRUCache ∅ [] max_size 0.
Definition lru_get c (k : K) : option V := fst <$> lru_map c !! k.
(** A key that is present keeps its value. *)
Definition lru_put c (k : K) (v : V) : LRUCache K V :=
  match lru_map c !! k with
  | Some (v0, _) => Build_LRUCache (<[k := (v0, lru_next_pos c)]> (lru_map c)) (lru_positions c) (lru_max_size c) (lru_next_pos c + 1)
  | None =>
      let '(m, ps) :=
        if lru_max_size c <=? Z.of_nat (size (lru_map c)) then
          match lru_positions c with
          | oldest :: ps => (delete oldest (lru_map c), ps)
          | [] => (lru_map c, [])
          end
        else (lru_map c, lru_positions c) in
      Build_LRUCache (<[k := (v, lru_next_pos c)]> m) (ps ++ [k]) (lru_max_size c) (lru_next_pos c + 1)
  end.

(** The list of keys is the domain of the map, in the order of insertion. *)
Record lru_ok c : Prop := {
  lru_nodup : NoDup (lru_positions c);
  lru_dom : ∀ k, k ∈ lru_positions c ↔ is_Some (lru_map c !! k);
  lru_bounded : Z.of_nat (size (lru_map c)) ≤ Z.max 1 (lru_max_size c)
}.

Lemma lru_new_ok n : lru_ok (lru_new n).
Proof. split; cbn; [constructor| |rewrite map_size_empty; lia]. intros k. rewrite lookup_empty. split; [by intros ?%elem_of_nil|by intros []]. Qed.

Lemma lru_put_ok c k v : lru_ok c → lru_ok (lru_put c k v).
Proof.
  intros [Hn Hd Hb]. unfold lru_put. destruct (lru_map c !! k) as [[v0 p]|] eqn:E.
  { split; cbn; [done| |by rewrite map_size_insert_Some by done]. intros k'. rewrite Hd. destruct (decide (k' = k)) as [->|Hk].
    - rewrite lookup_insert_eq, E. naive_solver.
    - by rewrite lookup_insert_ne by done. }
  assert (Hk : k ∉ lru_positions c) by (rewrite Hd, E; by intros []).
  destruct (Z.leb_spec (lru_max_size c) (Z.of_nat (size (lru_map c)))) as [Hle|Hlt].
  - destruct (lru_positions c) as [|o ps] eqn:Ep.
    + assert (lru_map c = ∅) as Hm by (apply map_empty; intros k'; apply eq_None_not_Some; rewrite <- Hd; apply not_elem_of_nil).
      split; cbn; rewrite ?Hm; [apply NoDup_singleton| |rewrite insert_empty, map_size_singleton; lia]. intros k'.
      rewrite list_elem_of_singleton. destruct (decide (k' = k)) as [->|]; [rewrite lookup_insert_eq; naive_solver|].
      rewrite lookup_insert_ne, lookup_empty by done. split; [done|by intros []].
    + apply NoDup_cons in Hn as [Ho Hn]. apply not_elem_of_cons in Hk as [Hko Hk]. pose proof (proj1 (Hd o) ltac:(left)) as [x Hx].
      assert (Hdel : delete o (lru_map c) !! k = None) by (by rewrite lookup_delete_ne by done).
      split; cbn.
      * apply NoDup_app. split_and!; [done| |apply NoDup_singleton]. intros k' Hin ->%list_elem_of_singleton. done.
      * intros k'. rewrite elem_of_app, list_elem_of_singleton. destruct (decide (k' = k)) as [->|Hne]; [rewrite lookup_insert_eq; naive_solver|].
        rewrite lookup_insert_ne by done. destruct (decide (k' = o)) as [->|Hno]; [rewrite lookup_delete_eq; naive_solver|].
        rewrite lookup_delete_ne by done. rewrite <- Hd, elem_of_cons. naive_solver.
      * rewrite map_size_insert_None, map_size_delete_Some by (try done; by eexists). assert (size (lru_map c) ≠ 0%nat) by (intros E0%map_size_empty_inv; by rewrite E0 in Hx). lia.
  - split; cbn.
    + apply NoDup_app. split_and!; [done| |apply NoDup_singleton]. intros k' Hin ->%list_elem_of_singleton. done.
    + intros k'. rewrite elem_of_app, list_elem_of_singleton, Hd. destruct (decide (k' = k)) as [->|Hne]; [rewrite lookup_insert_eq; naive_solver|].
      rewrite lookup_insert_ne by done. naive_solver.
    + rewrite map_size_insert_None by done. lia.
Qed.

(** What is found after an insertion: the old value of a present key, the new
    value of an absent one, and nothing that was not there. *)
Lemma lru_get_put c k v k' w : lru_get (lru_put c k v) k' = Some w → lru_get c k' = Some w ∨ (k' = k ∧ w = v ∧ lru_get c k = None).
Proof.
  unfold lru_get, lru_put. destruct (lru_map c !! k) as [[v0 p]|] eqn:E; cbn.
  - destruct (decide (k' = k)) as [->|]; [rewrite lookup_insert_eq, E; naive_solver|rewrite lookup_insert_ne by done; naive_solver].
  - destruct (if _ <=? _ then _ else _) as [m ps] eqn:Em. cbn.
    destruct (decide (k' = k)) as [->|]; [rewrite lookup_insert_eq; naive_solver|rewrite lookup_insert_ne by done]. left.
    destruct (_ <=? _); [|by simplify_eq]. destruct (lru_positions c) as [|o ps']; simplify_eq; [done|].
    destruct (decide (k' = o)) as [->|]; [by rewrite lookup_delete_eq in *|by rewrite lookup_delete_ne in * by done].
Qed.
End lru.

(** * The selector *)

Record EcoTune := { eco_config : EcoTuneConfig; decision_cache : LRUCache CacheKey EcoPolicy; last_profile : option EcoProfile }.
Definition EcoTune_new (c : EcoTuneConfig) : EcoTune := {| eco_config := c; decision_cache := lru_new 64; last_profile := None |}.

Definition ecotune_select (c : EcoTuneConfig) (p : EcoProfile) : EcoPolicy :=
  let rq := f64_clamp (rq_ratio p) (f64_lit 1 100) (f64_lit 99 100) in
  let b := level_size_ratio c in
  let t_opt := f64_div b (f64_add (f64_of_Z 1) (f64_mul b rq)) in
  if SFleb (f64_mul b (f64_lit 5 10)) t_opt then EcoTiering
  else if SFleb t_opt (f64_mul b (f64_lit 15 100)) then EcoLeveling
  else EcoHybrid (f64_div (top_size_ratio c) (f64_add (f64_of_Z 1) (top_size_ratio c))) (f64_clamp (f64_div t_opt b) (f64_of_Z 0) (f64_of_Z 1)).

Definition profile_changed (last : option EcoProfile) (p : EcoProfile) : bool :=
  match last with
  | Some q => f64_ltb (f64_lit 1 10) (SFabs (f64_sub (rq_ratio q) (rq_ratio p))) ||
              f64_ltb (f64_of_Z 5) (SFabs (f64_sub (write_speed_mbps q) (write_speed_mbps p)))
  | None => true
  end.

(** Both branches of the cache test look the key up; a poisoned lock is not modelled. *)
Definition select_policy (t : EcoTune) (p : EcoProfile) : EcoTune * EcoPolicy :=
  let key := cache_key p in
  let changed := profile_changed (last_profile t) p in
  let cached := if enable_cache (eco_config t) then lru_get (decision_cache t) key else None in
  match (if negb changed then cached else None) with
  | Some policy => (t, policy)
  | None =>
      match (if changed then cached else None) with
      | Some policy => (t, policy)
      | None =>
          let policy := ecotune_select (eco_config t) p in
          ({| eco_config := eco_config t; decision_cache := lru_put (decision_cache t) key policy; last_profile := Some p |}, policy)
      end
  end.

(** [x.round()]: half away from zero. *)
Definition f64_round (x : f64) : f64 :=
  match x with
  | S754_finite s m e =>
      if 0 <=? e then x else
      let k := (2 * Z.pos m + Z.shiftl 1 (- e)) / Z.shiftl 2 (- e) in
      if k =? 0 then S754_zero s else binary_normalize 53 1024 (if s then - k else k) 0 s
  | _ => x
  end.
Definition main_level_tiering_ratio (c : EcoTuneConfig) (p : EcoProfile) : f64 :=
  let b := level_size_ratio c in
  let rq := f64_clamp (rq_ratio p) (f64_of_Z 0) (f64_of_Z 1) in
  let t := f64_min (f64_max (f64_round (f64_div b (f64_add (f64_of_Z 1) (f64_mul b rq)))) (f64_of_Z 1)) b in
  f64_div t b.
Definition prefer_read_optimized (p : EcoProfile) : bool := is_read_heavy p || f64_ltb (ep_avg_selectivity p) (f64_lit 1 1000).
Definition prefer_write_optimized (p : EcoProfile) : bool := is_write_heavy p && f64_ltb (f64_of_Z 100) (write_speed_mbps p).

(** * Decisions are cached per bucket of workloads *)

Inductive eco_reachable (c : EcoTuneConfig) : EcoTune → Prop :=
  | eco_start : eco_reachable c (EcoTune_new c)
  | eco_step t p : eco_reachable c t → eco_reachable c (select_policy t p).1.

Lemma eco_reachable_config c t : eco_reachable c t → eco_config t = c.
Proof. induction 1 as [|t p _ IH]; [done|]. unfold select_policy. by repeat case_match. Qed.

Lemma select_policy_cases t p : let '(t', policy) := select_policy t p in
  (t' = t ∧ lru_get (decision_cache t) (cache_key p) = Some policy) ∨
  (decision_cache t' = lru_put (decision_cache t) (cache_key p) policy ∧ policy = ecotune_select (eco_config t) p ∧
   (enable_cache (eco_config t) = true → lru_get (decision_cache t) (cache_key p) = None)).
Proof.
  unfold select_policy. destruct (profile_changed (last_profile t) p), (enable_cache (eco_config t)); cbn;
    destruct (lru_get (decision_cache t) (cache_key p)) eqn:E; try (by left); right; by split_and!.
Qed.

(** A policy that the selector returns is the one that the formula gives for
    some workload of the same bucket: the one asked about, or an earlier one whose
    decision is still in the cache.  The cache never holds more than 64 decisions
    and its list of keys is the domain of its map. *)
Theorem policy_of_bucket c t p :
  eco_reachable c t →
  lru_ok (decision_cache t) ∧ lru_max_size (decision_cache t) = 64 ∧
  ∃ q, cache_key q = cache_key p ∧ (select_policy t p).2 = ecotune_select c q.
Proof.
  intros Hr. assert (lru_ok (decision_cache t) ∧ lru_max_size (decision_cache t) = 64 ∧
    ∀ k v, lru_get (decision_cache t) k = Some v → ∃ q, cache_key q = k ∧ v = ecotune_select c q) as (Ho & Hm & Hq).
  { clear p. induction Hr as [|t p Hr (Ho & Hm & Hq)]; [split_and!; [apply lru_new_ok|done|done]|].
    pose proof (select_policy_cases t p) as Hc. pose proof (eco_reachable_config _ _ Hr) as Hcfg. destruct (select_policy t p) as [t' policy]. cbn.
    destruct Hc as [[-> _]|(-> & -> & _)]; [done|]. rewrite Hcfg. split_and!; [by apply lru_put_ok| |].
    - unfold lru_put. destruct (lru_map _ !! _) as [[]|]; [done|]. by destruct (if _ <=? _ then _ else _).
    - intros k v [Hg|(-> & -> & _)]%lru_get_put; [by apply Hq|by exists p]. }
  split_and!; [done|done|]. pose proof (select_policy_cases t p) as Hc. destruct (select_policy t p) as [t' policy]. cbn.
  destruct Hc as [[_ Hg]|(_ & -> & _)]; [destruct (Hq _ _ Hg) as (q & ? & ?); by exists q|].
  exists p. by rewrite (eco_reachable_config _ _ Hr).
Qed.

(** A workload of few range queries and one of many more share a bucket: the second gets the policy of the first. *)
Definition eco_profile (n : Z) : EcoProfile :=
  {| rq_ratio := f64_lit n 100; write_speed_mbps := f64_of_Z 50; ep_avg_selectivity := f64_lit 1 10; point_query_ratio := f64_lit 2 10 |}.
Lemma policy_of_bucket_witness :
  let t := (select_policy (EcoTune_new EcoTuneConfig_default) (eco_profile 2)).1 in
  (∃ q, cache_key q = cache_key (eco_profile 24) ∧ (select_policy t (eco_profile 24)).2 = ecotune_select EcoTuneConfig_default q) ∧
  (select_policy t (eco_profile 24)).2 = EcoTiering ∧ ecotune_select EcoTuneConfig_default (eco_profile 24) ≠ EcoTiering.
Proof.
  split; [|split; [vm_compute; reflexivity|apply (bool_decide_eq_false_1 _); vm_compute; reflexivity]].
  refine (proj2 (proj2 (policy_of_bucket EcoTuneConfig_default _ (eco_profile 24) _))). apply eco_step, eco_start.
Defined.
