(* ===== verification/Adaptive.v ===== *)
(** The adaptive compaction scheduler (compaction/adaptive.rs): typed debt flags and
    the action, class and budget they stand for, the evidence and outcomes kept per
    segment, the hill climbing of the weights and its rollback, and the workload
    profile for the policy selector. *)

From stdpp Require Import base gmap strings list.
From Stdlib Require Import Floats.SpecFloat.
From S2P Require Import Prelude SegMeta FlushEngine Compaction PdtMerge Scan HeatTracker QueryFeedback Ecotune.

Local Open Scope Z_scope.

(** [log2] and [powi], whose rounding the language leaves open. *)
Class FloatMath := { f64_log2 : f64 → f64; f64_powi : f64 → Z → f64 }.

(** * Data *)

Record CompactionWeights := { del_coef : f64; size_coef : f64; age_coef : f64; stale_coef : f64; miss_coef : f64 }.
Definition CompactionWeights_default : CompactionWeights :=
  {| del_coef := f64_of_Z 10; size_coef := f64_lit 3 10; age_coef := f64_lit 2 10; stale_coef := f64_of_Z 5; miss_coef := f64_of_Z 3 |}.
Definition set_stale_coef (w : CompactionWeights) (x : f64) : CompactionWeights :=
  {| del_coef := del_coef w; size_coef := size_coef w; age_coef := age_coef w; stale_coef := x; miss_coef := miss_coef w |}.
Definition set_miss_coef (w : CompactionWeights) (x : f64) : CompactionWeights :=
  {| del_coef := del_coef w; size_coef := size_coef w; age_coef := age_coef w; stale_coef := stale_coef w; miss_coef := x |}.

(** [DebtFlags]: the bits of a byte. *)
Abbreviation DebtFlags := Z.
Definition HIGH_DELETE_RATIO : DebtFlags := Z.shiftl 1 0.
Definition STALE_ZONE_MAP : DebtFlags := Z.shiftl 1 1.
Definition PRUNE_MISS_HIGH : DebtFlags := Z.shiftl 1 2.
Definition SMALL_FILE : DebtFlags := Z.shiftl 1 3.
Definition COLD_ACCESS : DebtFlags := Z.shiftl 1 4.
Definition flags_contains (flags f : DebtFlags) : bool := Z.land flags f =? f.
Definition flags_intersects (flags f : DebtFlags) : bool := negb (Z.land flags f =? 0).

Inductive DebtSignalClass := Direct | Heuristic | EvidenceSignal.
Definition permits_rewrite (c : DebtSignalClass) (b : RewriteBudget) : bool :=
  match c with
  | Direct => true
  | Heuristic => match b with HeuristicPriority => true | _ => false end
  | EvidenceSignal => match b with EvidenceDriven => true | _ => false end
  end.

Record MaintenanceEvidenceSnapshot := {
  me_seg_id : string;
  me_table : string;
  me_query_columns : list string;
  me_total_segment_rows : Z;
  me_delta_segment_count : Z;
  me_has_zone_map_predicates : bool;
  me_has_cross_column_or : bool;
  me_table_row_count : Z;
  me_total_bytes : Z;
  me_compressed_bytes : Z
}.
(** [From<&EvidenceSnapshot>]; the execution evidence has the same fields. *)
Definition maintenance_evidence (e : EvidenceSnapshot) : MaintenanceEvidenceSnapshot :=
  {| me_seg_id := ""; me_table := ev_table e; me_query_columns := ev_query_columns e;
     me_total_segment_rows := ev_total_segment_rows e; me_delta_segment_count := ev_delta_segment_count e;
     me_has_zone_map_predicates := ev_has_zone_map_predicates e; me_has_cross_column_or := ev_has_cross_column_or e;
     me_table_row_count := rs_row_count (ev_table_stats e); me_total_bytes := rs_total_bytes (ev_table_stats e);
     me_compressed_bytes := rs_compressed_bytes (ev_table_stats e) |}.
Definition set_evidence_seg (e : MaintenanceEvidenceSnapshot) (id : string) : MaintenanceEvidenceSnapshot :=
  {| me_seg_id := id; me_table := me_table e; me_query_columns := me_query_columns e;
     me_total_segment_rows := me_total_segment_rows e; me_delta_segment_count := me_delta_segment_count e;
     me_has_zone_map_predicates := me_has_zone_map_predicates e; me_has_cross_column_or := me_has_cross_column_or e;
     me_table_row_count := me_table_row_count e; me_total_bytes := me_total_bytes e; me_compressed_bytes := me_compressed_bytes e |}.
Definition compressed_bytes_ratio (e : MaintenanceEvidenceSnapshot) : f64 :=
  if me_total_bytes e =? 0 then f64_of_Z 1
  else f64_clamp (f64_div (f64_of_Z (me_compressed_bytes e)) (f64_of_Z (me_total_bytes e))) (f64_of_Z 0) (f64_of_Z 1).

Inductive QualitySignalKind := ProxyBootstrap | MeasuredDeleteResolution.
Record DebtResolutionOutcome := {
  do_resolved_flags : DebtFlags;
  delete_debt_remaining_ratio : f64;
  do_rows_read : Z;
  do_rows_written : Z;
  do_rows_dropped : Z;
  source_seg_id : option string;
  quality_signal_kind : QualitySignalKind
}.
Definition outcome_from_merge_stats (id : string) (st : MergeStats) : DebtResolutionOutcome :=
  let remaining_ratio := if rows_read st =? 0 then f64_of_Z 1
    else f64_sub (f64_of_Z 1) (f64_div (f64_of_Z (rows_dropped st)) (f64_of_Z (rows_read st))) in
  {| do_resolved_flags := HIGH_DELETE_RATIO; delete_debt_remaining_ratio := f64_clamp remaining_ratio (f64_of_Z 0) (f64_of_Z 1);
     do_rows_read := rows_read st; do_rows_written := rows_written st; do_rows_dropped := rows_dropped st;
     source_seg_id := Some id; quality_signal_kind := MeasuredDeleteResolution |}.
Definition is_measured (o : DebtResolutionOutcome) : bool :=
  match quality_signal_kind o with MeasuredDeleteResolution => true | ProxyBootstrap => false end.

Record AdaptiveCompactionScheduler := {
  weights : CompactionWeights;
  ad_feedback : Feedback;
  ad_evidence : gmap string MaintenanceEvidenceSnapshot;
  write_heat_tracker : WriteHeatTracker;
  prev_weights : CompactionWeights;
  step_size : f64;
  min_query_count : Z;
  adjustment_interval : Z;
  call_count : Z;
  prev_hit_ratio : f64;
  last_compaction_outcomes : gmap string DebtResolutionOutcome
}.
Definition adaptive_new : AdaptiveCompactionScheduler := {|
  weights := CompactionWeights_default; ad_feedback := ∅; ad_evidence := ∅; write_heat_tracker := heat_new;
  prev_weights := CompactionWeights_default; step_size := f64_lit 5 10; min_query_count := 5; adjustment_interval := 10;
  call_count := 0; prev_hit_ratio := f64_lit 5 10; last_compaction_outcomes := ∅ |}.

Definition set_feedback (s : AdaptiveCompactionScheduler) (d : Feedback) : AdaptiveCompactionScheduler := {|
  weights := weights s; ad_feedback := d; ad_evidence := ad_evidence s; write_heat_tracker := write_heat_tracker s;
  prev_weights := prev_weights s; step_size := step_size s; min_query_count := min_query_count s;
  adjustment_interval := adjustment_interval s; call_count := call_count s; prev_hit_ratio := prev_hit_ratio s;
  last_compaction_outcomes := last_compaction_outcomes s |}.
Definition set_evidence (s : AdaptiveCompactionScheduler) (e : gmap string MaintenanceEvidenceSnapshot) : AdaptiveCompactionScheduler := {|
  weights := weights s; ad_feedback := ad_feedback s; ad_evidence := e; write_heat_tracker := write_heat_tracker s;
  prev_weights := prev_weights s; step_size := step_size s; min_query_count := min_query_count s;
  adjustment_interval := adjustment_interval s; call_count := call_count s; prev_hit_ratio := prev_hit_ratio s;
  last_compaction_outcomes := last_compaction_outcomes s |}.

Section adaptive.
Implicit Types (s : AdaptiveCompactionScheduler) (meta : SegmentMeta).

(** * Evidence *)

Definition observe_metadata_evidence s (e : EvidenceSnapshot) : AdaptiveCompactionScheduler :=
  let snapshot := maintenance_evidence e in
  set_evidence s (foldl (λ m id, <[id := set_evidence_seg snapshot id]> m) (ad_evidence s) (ev_executed_segment_ids e)).
Definition evidence_for_segment s (id : string) : option MaintenanceEvidenceSnapshot := ad_evidence s !! id.

(** * Debt *)

Definition size_mb meta : f64 := f64_div (f64_of_Z (size_bytes meta)) (f64_of_Z (1024 * 1024)).
Definition small_file meta : bool := f64_ltb (size_mb meta) (f64_of_Z 1).
Definition over_half (x : f64) : bool := f64_ltb (f64_lit 5 10) x.

Definition classify_debt s meta : DebtFlags :=
  let flags := if over_half (del_ratio meta) then HIGH_DELETE_RATIO else 0 in
  let flags := if over_half (staleness_penalty (ad_feedback s) (seg_id meta)) then Z.lor flags STALE_ZONE_MAP else flags in
  let miss_ratio := f64_sub (f64_of_Z 1) (prune_hit_ratio (ad_feedback s) (seg_id meta)) in
  let flags := if over_half miss_ratio then Z.lor flags PRUNE_MISS_HIGH else flags in
  if small_file meta then Z.lor flags SMALL_FILE else flags.

Definition debt_signal_class (flags : DebtFlags) : DebtSignalClass :=
  if flags_contains flags HIGH_DELETE_RATIO then Direct
  else if flags_intersects flags (Z.lor STALE_ZONE_MAP PRUNE_MISS_HIGH) then EvidenceSignal else Heuristic.

Definition rewrite_budget_for_segment s meta (action : RewriteAction) : RewriteBudget :=
  if truth_plane_privileged action then HardGate else
  if permits_rewrite (debt_signal_class (classify_debt s meta)) (budget action) then budget action else HeuristicPriority.

Definition maintenance_action_for_segment s meta : option RewriteAction :=
  let flags := classify_debt s meta in
  if flags_contains flags HIGH_DELETE_RATIO then Some RPdtMerge
  else if flags_contains flags PRUNE_MISS_HIGH then Some RQueryDriven
  else if flags_contains flags STALE_ZONE_MAP then Some RMetadataEvidenceRefresh
  else if flags_contains flags SMALL_FILE then Some RSmallFileMerge else None.

Definition last_compaction_outcome s (id : string) : option DebtResolutionOutcome := last_compaction_outcomes s !! id.
Definition measured_post_compaction_outcome s (id : string) : option DebtResolutionOutcome :=
  match last_compaction_outcome s id with Some o => if is_measured o then Some o else None | None => None end.

Record MaintenanceLedgerRow := {
  lr_seg_id : string;
  lr_debt_flags : DebtFlags;
  lr_debt_signal_class : DebtSignalClass;
  lr_action : option RewriteAction;
  lr_action_budget : option RewriteBudget;
  lr_action_authority : option ActionAuthority;
  lr_executor_authoritative : bool;
  lr_del_ratio : f64;
  lr_staleness_penalty : f64;
  lr_prune_miss_ratio : f64;
  lr_small_file : bool;
  lr_evidence : option MaintenanceEvidenceSnapshot;
  lr_last_outcome : option DebtResolutionOutcome;
  lr_last_outcome_measured : bool;
  lr_feedback_seeded_from : option string;
  lr_feedback_query_count : Z
}.
Definition maintenance_ledger_row s meta : MaintenanceLedgerRow :=
  let flags := classify_debt s meta in
  let action := maintenance_action_for_segment s meta in
  let last_outcome := last_compaction_outcome s (seg_id meta) in
  {| lr_seg_id := seg_id meta; lr_debt_flags := flags; lr_debt_signal_class := debt_signal_class flags; lr_action := action;
     lr_action_budget := rewrite_budget_for_segment s meta <$> action; lr_action_authority := authority <$> action;
     lr_executor_authoritative := match action with Some a => is_executor_authoritative a | None => false end;
     lr_del_ratio := del_ratio meta; lr_staleness_penalty := staleness_penalty (ad_feedback s) (seg_id meta);
     lr_prune_miss_ratio := f64_sub (f64_of_Z 1) (prune_hit_ratio (ad_feedback s) (seg_id meta)); lr_small_file := small_file meta;
     lr_evidence := evidence_for_segment s (seg_id meta); lr_last_outcome := last_outcome;
     lr_last_outcome_measured := match last_outcome with Some o => is_measured o | None => false end;
     lr_feedback_seeded_from := last_outcome ≫= source_seg_id;
     lr_feedback_query_count := match ad_feedback s !! seg_id meta with Some f => fb_query_count f | None => 0 end |}.
Definition maintenance_ledger s (metas : list SegmentMeta) : list MaintenanceLedgerRow := maintenance_ledger_row s <$> metas.

Record MaintenanceGovernanceRow := {
  gr_seg_id : string;
  gr_action : option RewriteAction;
  gr_action_budget : option RewriteBudget;
  gr_action_authority : option ActionAuthority;
  gr_executor_authoritative : bool;
  gr_feedback_seeded_from : option string;
  gr_has_last_outcome : bool;
  gr_last_outcome_measured : bool
}.
Definition governance_row s meta : MaintenanceGovernanceRow :=
  let row := maintenance_ledger_row s meta in
  {| gr_seg_id := lr_seg_id row; gr_action := lr_action row; gr_action_budget := lr_action_budget row;
     gr_action_authority := lr_action_authority row; gr_executor_authoritative := lr_executor_authoritative row;
     gr_feedback_seeded_from := lr_feedback_seeded_from row;
     gr_has_last_outcome := match lr_last_outcome row with Some _ => true | None => false end;
     gr_last_outcome_measured := lr_last_outcome_measured row |}.
Definition maintenance_governance_snapshot s (metas : list SegmentMeta) : list MaintenanceGovernanceRow := governance_row s <$> metas.

(** * Outcomes and weights *)

Definition observe_maintenance_feedback_seed s (old_seg_id new_seg_id : string) (timestamp : Z) : AdaptiveCompactionScheduler :=
  set_feedback s (alias_feedback (ad_feedback s) old_seg_id new_seg_id timestamp).

Definition record_compaction_outcome s (id : string) (o : DebtResolutionOutcome) : AdaptiveCompactionScheduler :=
  let signal := delete_debt_remaining_ratio o in
  let bounded_signal := if SFleb (prev_hit_ratio s) signal then prev_hit_ratio s else signal in
  let delta := f64_sub bounded_signal (prev_hit_ratio s) in
  let roll_back := negb (f64_ltb (f64_lit 5 100) delta) && f64_ltb delta (SFopp (f64_lit 5 100)) in
  {| weights := if roll_back then prev_weights s else weights s; ad_feedback := ad_feedback s; ad_evidence := ad_evidence s;
     write_heat_tracker := write_heat_tracker s; prev_weights := prev_weights s;
     step_size := if roll_back then f64_max (f64_mul (step_size s) (f64_lit 5 10)) (f64_lit 5 100) else step_size s;
     min_query_count := min_query_count s; adjustment_interval := adjustment_interval s; call_count := call_count s;
     prev_hit_ratio := bounded_signal; last_compaction_outcomes := <[id := o]> (last_compaction_outcomes s) |}.
Definition record_compaction_result s (id : string) (post_compaction_signal : f64) : AdaptiveCompactionScheduler :=
  record_compaction_outcome s id
    {| do_resolved_flags := HIGH_DELETE_RATIO; delete_debt_remaining_ratio := f64_clamp post_compaction_signal (f64_of_Z 0) (f64_of_Z 1);
       do_rows_read := 0; do_rows_written := 0; do_rows_dropped := 0; source_seg_id := Some id; quality_signal_kind := ProxyBootstrap |}.

(** The loop over one segment's feedback: the weights, and whether they were saved. *)
Definition adjust_stale (step : f64) (w : CompactionWeights) (f : QueryFeedback) : CompactionWeights :=
  if over_half (fb_staleness_penalty f) then
    let x := f64_add (stale_coef w) step in if SFleb x (f64_of_Z 20) then set_stale_coef w x else w
  else if f64_ltb (fb_staleness_penalty f) (f64_lit 1 10) && (20 <? fb_query_count f) then
    let x := f64_sub (stale_coef w) (f64_mul step (f64_lit 5 10)) in if SFleb (f64_of_Z 1) x then set_stale_coef w x else w
  else w.
Definition adjust_miss (step : f64) (w : CompactionWeights) (f : QueryFeedback) : CompactionWeights :=
  if over_half (f64_sub (f64_of_Z 1) (fb_prune_hit_ratio f)) && (10 <? fb_query_count f) then
    let x := f64_add (miss_coef w) step in if SFleb x (f64_of_Z 10) then set_miss_coef w x else w
  else w.
Definition adjust_weights (step : f64) (min_queries : Z) (stats : list (string * QueryFeedback)) (w : CompactionWeights) : CompactionWeights :=
  foldl (λ w e, if fb_query_count e.2 <? min_queries then w else adjust_miss step (adjust_stale step w e.2) e.2) w stats.
Definition adjust `{HashIter} s : AdaptiveCompactionScheduler :=
  let calls := call_count s + 1 in
  let stats := get_all_stats (ad_feedback s) in
  let runs := (calls mod adjustment_interval s =? 0) && negb (bool_decide (stats = [])) in
  let any_change := existsb (λ e : string * QueryFeedback, negb (fb_query_count e.2 <? min_query_count s)) stats in
  {| weights := if runs then adjust_weights (step_size s) (min_query_count s) stats (weights s) else weights s;
     ad_feedback := ad_feedback s; ad_evidence := ad_evidence s; write_heat_tracker := write_heat_tracker s;
     prev_weights := if runs && any_change then weights s else prev_weights s;
     step_size := step_size s; min_query_count := min_query_count s; adjustment_interval := adjustment_interval s; call_count := calls;
     prev_hit_ratio := prev_hit_ratio s; last_compaction_outcomes := last_compaction_outcomes s |}.

(** * Priorities *)

Definition evidence_bonus (e : MaintenanceEvidenceSnapshot) : f64 :=
  let compression_signal := f64_sub (f64_of_Z 1) (compressed_bytes_ratio e) in
  let zone_map_signal := if me_has_zone_map_predicates e && negb (me_has_cross_column_or e) then f64_lit 5 10 else f64_of_Z 0 in
  let delta_signal := f64_min (f64_div (f64_of_Z (me_delta_segment_count e)) (f64_of_Z 10)) (f64_of_Z 1) in
  f64_add (f64_add compression_signal zone_map_signal) delta_signal.

(** [now - meta.created_txn] wraps in a release build. *)
Definition calculate_priority `{FloatMath} s meta (now : Z) : f64 :=
  let age_hours := if 0 <? created_txn meta then f64_div (f64_of_Z (wrap64 (now - created_txn meta))) (f64_of_Z 3600) else f64_of_Z 1 in
  let del_score := f64_mul (f64_powi (del_ratio meta) 2) (del_coef (weights s)) in
  let size_score := f64_mul (f64_log2 (f64_max (size_mb meta) (f64_of_Z 1))) (size_coef (weights s)) in
  let age_score := f64_mul (f64_log2 age_hours) (age_coef (weights s)) in
  let stale_penalty := f64_mul (staleness_penalty (ad_feedback s) (seg_id meta)) (stale_coef (weights s)) in
  let miss_penalty := f64_mul (f64_sub (f64_of_Z 1) (prune_hit_ratio (ad_feedback s) (seg_id meta))) (miss_coef (weights s)) in
  let bonus := match evidence_for_segment s (seg_id meta) with Some e => evidence_bonus e | None => f64_of_Z 0 end in
  f64_add (f64_add (f64_add (f64_add (f64_add del_score size_score) age_score) stale_penalty) miss_penalty) bonus.

(** * The workload *)

Definition collect_workload_profile `{HashIter} s : EcoProfile :=
  let stats := get_all_stats (ad_feedback s) in
  if bool_decide (stats = []) then EcoProfile_default else
  let rq_count := zlen (List.filter (λ e : string * QueryFeedback, 0 <? fb_query_count e.2) stats) in
  let selectivity := avg_selectivity (ad_feedback s) in
  {| rq_ratio := f64_clamp (f64_div (f64_of_Z rq_count) (f64_of_Z (zlen stats))) (f64_of_Z 0) (f64_of_Z 1);
     write_speed_mbps := estimated_mbps (write_heat_tracker s); ep_avg_selectivity := selectivity;
     point_query_ratio := if f64_ltb selectivity (f64_lit 1 10000) then f64_lit 8 10 else f64_lit 2 10 |}.
End adaptive.

(** * Which action a segment's debt stands for *)

(** The miss ratio and the staleness penalty are the same number. *)
Lemma miss_is_staleness d id : f64_sub (f64_of_Z 1) (prune_hit_ratio d id) = staleness_penalty d id.
Proof. unfold prune_hit_ratio, staleness_penalty. by destruct (d !! id). Qed.

(** The flags by three questions: the delete ratio, the misses and the size. *)
Lemma classify_debt_cases s meta : classify_debt s meta =
  (if over_half (del_ratio meta) then 1 else 0) + (if over_half (staleness_penalty (ad_feedback s) (seg_id meta)) then 6 else 0) +
  (if small_file meta then 8 else 0).
Proof. unfold classify_debt. rewrite miss_is_staleness. by destruct (over_half (del_ratio meta)), (over_half (staleness_penalty _ _)), (small_file meta). Qed.

(** The action of a segment, as a decision tree. *)
Definition debt_action (deleted missed small : bool) : option RewriteAction :=
  if deleted then Some RPdtMerge else if missed then Some RQueryDriven else if small then Some RSmallFileMerge else None.

Lemma maintenance_action_eq s meta : maintenance_action_for_segment s meta =
  debt_action (over_half (del_ratio meta)) (over_half (staleness_penalty (ad_feedback s) (seg_id meta))) (small_file meta).
Proof.
  unfold maintenance_action_for_segment. rewrite classify_debt_cases.
  by destruct (over_half (del_ratio meta)), (over_half (staleness_penalty _ _)), (small_file meta).
Qed.
Lemma rewrite_budget_eq s meta a : maintenance_action_for_segment s meta = Some a → rewrite_budget_for_segment s meta a = budget a.
Proof.
  rewrite maintenance_action_eq. unfold rewrite_budget_for_segment. rewrite classify_debt_cases.
  destruct (over_half (del_ratio meta)), (over_half (staleness_penalty _ _)), (small_file meta); by intros [= <-].
Qed.

(** The action of a segment's debt.  More than half of the rows deleted asks for
    a merge, else more misses than hits for a query-driven rewrite, else a file
    below one MiB for a small-file merge; the budget of the action is always the
    action's own, and only the two merges may be executed.  A stale zone map and a
    high miss ratio are the same condition, so that the refresh of metadata, which
    is tested after the misses, is never chosen. *)
Theorem debt_action_exact s meta :
  maintenance_action_for_segment s meta =
    debt_action (over_half (del_ratio meta)) (over_half (staleness_penalty (ad_feedback s) (seg_id meta))) (small_file meta) ∧
  maintenance_action_for_segment s meta ≠ Some RMetadataEvidenceRefresh ∧
  lr_action_budget (maintenance_ledger_row s meta) = budget <$> maintenance_action_for_segment s meta ∧
  (lr_executor_authoritative (maintenance_ledger_row s meta) = true ↔
    maintenance_action_for_segment s meta = Some RPdtMerge ∨ maintenance_action_for_segment s meta = Some RSmallFileMerge).
Proof.
  pose proof (maintenance_action_eq s meta) as Ha. split; [exact Ha|]. split_and!.
  - rewrite Ha. unfold debt_action. by repeat case_match.
  - cbn. destruct (maintenance_action_for_segment s meta) as [a|] eqn:E; [|done]. cbn. f_equal. by apply rewrite_budget_eq.
  - cbn. rewrite Ha. unfold debt_action. repeat case_match; naive_solver.
Qed.

(** * The signal of finished compactions *)

(** The hit ratio that the scheduler remembers never rises: a finished
    compaction either leaves it as it is or lowers it, so that an improvement is
    never seen.  Once it is zero, which the first compaction that drops all
    rows it reads makes it, no later outcome changes the weights or the step. *)
Theorem hit_ratio_never_rises s id o :
  prev_hit_ratio s ≠ S754_nan → delete_debt_remaining_ratio o ≠ S754_nan →
  SFleb (prev_hit_ratio (record_compaction_outcome s id o)) (prev_hit_ratio s) = true ∧
  (∀ sg, prev_hit_ratio s = S754_zero sg → SFleb (f64_of_Z 0) (delete_debt_remaining_ratio o) = true →
    let s' := record_compaction_outcome s id o in
    weights s' = weights s ∧ step_size s' = step_size s ∧ prev_hit_ratio s' = prev_hit_ratio s).
Proof.
  intros Hp Ho. split.
  - cbn. destruct (SFleb (prev_hit_ratio s) (delete_debt_remaining_ratio o)) eqn:E.
    + unfold SFleb. rewrite SFcompare_rank by done. by rewrite cmp_refl.
    + unfold SFleb in *. rewrite SFcompare_rank in * by done. rewrite cmp_opp.
      destruct (cmp (f64_rank (prev_hit_ratio s)) _); done.
  - intros sg Hz Hs. assert (SFleb (prev_hit_ratio s) (delete_debt_remaining_ratio o) = true) as Hle.
    { rewrite Hz. destruct (delete_debt_remaining_ratio o) as [| [] | |[]]; try done; by destruct sg. }
    cbn. rewrite Hle, Hz. assert (f64_sub (S754_zero sg) (S754_zero sg) = S754_zero false) as -> by (by destruct sg).
    split_and!; by vm_compute.
Qed.

(** * Witnesses *)

Definition demo_stats_of (read dropped : Z) : MergeStats :=
  {| rows_read := read; rows_written := read - dropped; rows_dropped := dropped; bytes_read := 0; bytes_written := 0; granules_created := 1 |}.
(** A compaction that drops nine rows of ten: the ratio falls and the weights are rolled back as after a degradation. *)
Lemma hit_ratio_never_rises_witness :
  let o := outcome_from_merge_stats "s" (demo_stats_of 10 9) in
  SFleb (prev_hit_ratio (record_compaction_outcome adaptive_new "n" o)) (prev_hit_ratio adaptive_new) = true ∧
  step_size (record_compaction_outcome adaptive_new "n" o) = f64_lit 25 100.
Proof.
  split; [|vm_compute; reflexivity].
  refine (proj1 (hit_ratio_never_rises adaptive_new "n" (outcome_from_merge_stats "s" (demo_stats_of 10 9)) _ _));
    apply (bool_decide_eq_false_1 _); vm_compute; reflexivity.
Defined.
