(* ===== verification/IoScheduler.v ===== *)
(** The I/O scheduler of background compactions (compaction/io_scheduler.rs): the load
    monitor, the token bucket, the three priority queues with the retry queue, the
    rounds of the worker thread, and the admission of maintenance tasks. *)

From stdpp Require Import base gmap strings list sorting.
From Stdlib Require Import Floats.SpecFloat.
From S2P Require Import Prelude SegMeta FlushEngine AccessTracker Compaction PdtMerge HeatTracker QueryFeedback Ecotune Adaptive.

Local Open Scope Z_scope.

(** * Configuration and priorities *)

Record IOSchedulerConfig := {
  total_bandwidth_mbps : Z;
  foreground_reserved_ratio : f64;
  min_lowlevel_bandwidth_mbps : Z;
  token_bucket_capacity_mb : Z;
  refill_rate_mb_per_ms : Z;
  monitor_interval_ms : Z;
  low_load_watermark : f64;
  worker_poll_interval_ms : Z
}.
Definition IOSchedulerConfig_default : IOSchedulerConfig := {|
  total_bandwidth_mbps := 1000; foreground_reserved_ratio := f64_lit 3 10; min_lowlevel_bandwidth_mbps := 50;
  token_bucket_capacity_mb := 256; refill_rate_mb_per_ms := 1; monitor_interval_ms := 10; low_load_watermark := f64_lit 3 10;
  worker_poll_interval_ms := 50 |}.

Inductive CompactionPriority := PFlush | PLowLevel | PHighLevel.
Definition priority_ordinal (p : CompactionPriority) : Z := match p with PFlush => 0 | PLowLevel => 1 | PHighLevel => 2 end.
Definition from_segment_age (created_txn now_txn : Z) : CompactionPriority :=
  let age := saturating_sub now_txn created_txn in
  if age <? 10 then PFlush else if age <? 10000 then PLowLevel else PHighLevel.
Definition io_cost_factor (p : CompactionPriority) : f64 :=
  match p with PFlush => f64_lit 1 10 | PLowLevel => f64_lit 5 10 | PHighLevel => f64_of_Z 1 end.

Record SchedulableTask := { st_task : CompactionTask; st_priority : CompactionPriority }.
(** [f64::total_cmp] on doubles that are not NaN: the zeros are apart. *)
Definition total_rank (x : f64) : Z * (Z * Z) := match x with S754_zero true => (0, (-1, 0)) | _ => f64_rank x end.
(** [Ord for SchedulableTask] *)
Definition schedulable_cmp (a b : SchedulableTask) : comparison :=
  match Z.compare (priority_ordinal (st_priority a)) (priority_ordinal (st_priority b)) with
  | Eq => cmp (total_rank (ct_priority (st_task a))) (total_rank (ct_priority (st_task b)))
  | c => CompOpp c
  end.
#[export] Instance schedulable_prioritized : Prioritized SchedulableTask := {|
  prio_cmp := schedulable_cmp; prio_ok := λ t, not_nan (ct_priority (st_task t)) |}.
#[export] Instance schedulable_prioritized_laws : PrioritizedLaws SchedulableTask.
Proof.
  exists (λ t, (- priority_ordinal (st_priority t), total_rank (ct_priority (st_task t)))). intros [ta pa] [tb pb] _ _.
  cbn [prio_cmp schedulable_prioritized]. unfold schedulable_cmp. cbn [st_priority st_task]. by destruct pa, pb.
Defined.

(** * The load monitor *)

Record SystemLoadMonitor := { recent_foreground_mbps : list f64; last_sample : Z }.
Definition monitor_new (now : Z) : SystemLoadMonitor := {| recent_foreground_mbps := []; last_sample := now |}.
Definition monitor_record (m : SystemLoadMonitor) (mbps : f64) (now : Z) : SystemLoadMonitor :=
  let samples := recent_foreground_mbps m ++ [mbps] in
  {| recent_foreground_mbps := if 100 <? zlen samples then tail samples else samples; last_sample := now |}.
Definition monitor_current_load (c : IOSchedulerConfig) (m : SystemLoadMonitor) : f64 :=
  match last (recent_foreground_mbps m) with
  | None => f64_of_Z 0
  | Some latest => f64_min (f64_div latest (f64_of_Z (total_bandwidth_mbps c))) (f64_of_Z 1)
  end.
Definition monitor_average_load (c : IOSchedulerConfig) (m : SystemLoadMonitor) : f64 :=
  match recent_foreground_mbps m with
  | [] => f64_of_Z 0
  | samples =>
      let sum := foldl f64_add (S754_zero false) samples in
      f64_min (f64_div (f64_div sum (f64_of_Z (zlen samples))) (f64_of_Z (total_bandwidth_mbps c))) (f64_of_Z 1)
  end.
Definition monitor_is_low_load (c : IOSchedulerConfig) (m : SystemLoadMonitor) : bool :=
  f64_ltb (monitor_current_load c m) (low_load_watermark c).
Definition available_internal_bandwidth (c : IOSchedulerConfig) (m : SystemLoadMonitor) : Z :=
  let foreground_used := default (f64_of_Z 0) (last (recent_foreground_mbps m)) in
  let total := f64_of_Z (total_bandwidth_mbps c) in
  let reserved := f64_mul total (foreground_reserved_ratio c) in
  f64_as_u64 (f64_max (f64_sub (f64_sub total foreground_used) reserved) (f64_of_Z (min_lowlevel_bandwidth_mbps c))).

(** * The token bucket *)

(** Instants are nanoseconds of a monotonic clock. *)
Definition elapsed_ms (since now : Z) : Z := Z.max 0 (now - since) / 1000000.
Definition saturating_mul64 (a b : Z) : Z := Z.min (a * b) u64_max.

Record TokenBucket := { tokens_bytes : Z; capacity_bytes : Z; last_refill : Z; refill_rate_bytes_per_ms : Z }.
Definition bucket_new (capacity_mb refill_mb_per_ms now : Z) : TokenBucket :=
  let capacity := wrap64 (capacity_mb * 1024 * 1024) in
  {| tokens_bytes := capacity; capacity_bytes := capacity; last_refill := now;
     refill_rate_bytes_per_ms := wrap64 (refill_mb_per_ms * 1024 * 1024) |}.

(** The tokens after [elapsed] milliseconds. *)
Definition refilled (b : TokenBucket) (elapsed : Z) : Z :=
  Z.min (saturating_add64 (tokens_bytes b) (saturating_mul64 elapsed (refill_rate_bytes_per_ms b))) (capacity_bytes b).
(** The clock is read for the elapsed time, and again ([now']) when the bucket is refilled. *)
Definition refill (b : TokenBucket) (now now' : Z) : TokenBucket :=
  let elapsed := elapsed_ms (last_refill b) now in
  if 0 <? elapsed then {| tokens_bytes := refilled b elapsed; capacity_bytes := capacity_bytes b; last_refill := now';
                          refill_rate_bytes_per_ms := refill_rate_bytes_per_ms b |} else b.
Definition try_acquire (b : TokenBucket) (n now now' : Z) : TokenBucket * bool :=
  let b := refill b now now' in
  if n <=? tokens_bytes b then
    ({| tokens_bytes := tokens_bytes b - n; capacity_bytes := capacity_bytes b; last_refill := last_refill b;
        refill_rate_bytes_per_ms := refill_rate_bytes_per_ms b |}, true)
  else (b, false).
Definition available (b : TokenBucket) (now : Z) : Z :=
  let elapsed := elapsed_ms (last_refill b) now in if 0 <? elapsed then refilled b elapsed else tokens_bytes b.

(** * The scheduler *)

(** [CompactionExecutor]: with the calls of the compaction callback it makes. *)
Abbreviation Callbacks := (list (string * DebtResolutionOutcome)).
Class CompactionExecutor (X : Type) := {
  execute_pdt_merge : X → string → X * Callbacks * Result MergeStats;
  execute_small_file_merge : X → list string → X * Callbacks * Result MergeStats;
  execute_query_driven : X → string → X * Callbacks * Result bool
}.
#[global] Hint Mode CompactionExecutor ! : typeclass_instances.

Record IOSchedulerStats := { tasks_enqueued : Z; tasks_completed : Z; tasks_preempted : Z; stat_current_load : Z }.

Record CompactionIOScheduler (H X : Type) := {
  io_config : IOSchedulerConfig;
  io_monitor : SystemLoadMonitor;
  token_bucket : TokenBucket;
  p0_queue : H;
  p1_queue : H;
  p2_queue : H;
  current_task : option SchedulableTask;
  io_running : bool;
  io_compactor : option X;
  io_adaptive : option AdaptiveCompactionScheduler;
  io_ecotune : option EcoTune;
  io_stats : IOSchedulerStats;
  delay_retry_queue : list SchedulableTask
}.
Arguments io_config {H X} _. Arguments io_monitor {H X} _. Arguments token_bucket {H X} _. Arguments p0_queue {H X} _.
Arguments p1_queue {H X} _. Arguments p2_queue {H X} _. Arguments current_task {H X} _. Arguments io_running {H X} _.
Arguments io_compactor {H X} _. Arguments io_adaptive {H X} _. Arguments io_ecotune {H X} _. Arguments io_stats {H X} _.
Arguments delay_retry_queue {H X} _. Arguments Build_CompactionIOScheduler {H X}.

Section io_scheduler.
Context `{HI : HashIter} `{BH : BinaryHeap SchedulableTask H} `{CE : CompactionExecutor X}.
Abbreviation sched := (CompactionIOScheduler H X).
Implicit Type s : sched.

(** The callback is wired when both the executor and the adaptive scheduler are given. *)
Definition io_new (c : IOSchedulerConfig) (ad : option AdaptiveCompactionScheduler) (x : option X) (eco : option EcoTune) (now : Z) : sched :=
  Build_CompactionIOScheduler c (monitor_new now) (bucket_new (token_bucket_capacity_mb c) (refill_rate_mb_per_ms c) now)
    heap_new heap_new heap_new None false x ad eco {| tasks_enqueued := 0; tasks_completed := 0; tasks_preempted := 0; stat_current_load := 0 |} [].
Definition with_compactor (c : IOSchedulerConfig) (ad : AdaptiveCompactionScheduler) (x : X) (now : Z) : sched :=
  io_new c (Some ad) (Some x) (Some (EcoTune_new EcoTuneConfig_default)) now.

Definition set_queues s (q0 q1 q2 : H) : sched :=
  Build_CompactionIOScheduler (io_config s) (io_monitor s) (token_bucket s) q0 q1 q2 (current_task s) (io_running s) (io_compactor s)
    (io_adaptive s) (io_ecotune s) (io_stats s) (delay_retry_queue s).
Definition set_ecotune s (e : option EcoTune) : sched :=
  Build_CompactionIOScheduler (io_config s) (io_monitor s) (token_bucket s) (p0_queue s) (p1_queue s) (p2_queue s) (current_task s) (io_running s)
    (io_compactor s) (io_adaptive s) e (io_stats s) (delay_retry_queue s).
Definition set_delay s (d : list SchedulableTask) : sched :=
  Build_CompactionIOScheduler (io_config s) (io_monitor s) (token_bucket s) (p0_queue s) (p1_queue s) (p2_queue s) (current_task s) (io_running s)
    (io_compactor s) (io_adaptive s) (io_ecotune s) (io_stats s) d.
Definition set_bucket s (b : TokenBucket) : sched :=
  Build_CompactionIOScheduler (io_config s) (io_monitor s) b (p0_queue s) (p1_queue s) (p2_queue s) (current_task s) (io_running s)
    (io_compactor s) (io_adaptive s) (io_ecotune s) (io_stats s) (delay_retry_queue s).
Definition set_stats s (st : IOSchedulerStats) : sched :=
  Build_CompactionIOScheduler (io_config s) (io_monitor s) (token_bucket s) (p0_queue s) (p1_queue s) (p2_queue s) (current_task s) (io_running s)
    (io_compactor s) (io_adaptive s) (io_ecotune s) st (delay_retry_queue s).
Definition set_executed s (x : X) (ad : option AdaptiveCompactionScheduler) : sched :=
  Build_CompactionIOScheduler (io_config s) (io_monitor s) (token_bucket s) (p0_queue s) (p1_queue s) (p2_queue s) (current_task s) (io_running s)
    (Some x) ad (io_ecotune s) (io_stats s) (delay_retry_queue s).
Definition set_running s (r : bool) : sched :=
  Build_CompactionIOScheduler (io_config s) (io_monitor s) (token_bucket s) (p0_queue s) (p1_queue s) (p2_queue s) (current_task s) r
    (io_compactor s) (io_adaptive s) (io_ecotune s) (io_stats s) (delay_retry_queue s).

(** ** Admission *)

Definition io_enqueue s (task : CompactionTask) (p : CompactionPriority) : sched :=
  if bool_decide (budget (mt_action (ct_maintenance task)) = EvidenceDriven) && (ct_size_bytes task =? 0) then s else
  let t := {| st_task := task; st_priority := p |} in
  let st := io_stats s in
  let s := set_stats s {| tasks_enqueued := tasks_enqueued st + 1; tasks_completed := tasks_completed st;
                          tasks_preempted := tasks_preempted st; stat_current_load := stat_current_load st |} in
  match p with
  | PFlush => set_queues s (heap_push t (p0_queue s)) (p1_queue s) (p2_queue s)
  | PLowLevel => set_queues s (p0_queue s) (heap_push t (p1_queue s)) (p2_queue s)
  | PHighLevel => set_queues s (p0_queue s) (p1_queue s) (heap_push t (p2_queue s))
  end.
Definition enqueue_with_age s (task : CompactionTask) (created_txn now_txn : Z) : sched := io_enqueue s task (from_segment_age created_txn now_txn).
Definition enqueue_default s (task : CompactionTask) : sched := io_enqueue s task PLowLevel.

(** [None] is the panic on a priority that is not a number. *)
Definition enqueue_with_maintenance s (now : Z) (meta : SegmentMeta) (task_priority : f64) (p : CompactionPriority) : option (sched * bool) :=
  match io_adaptive s with
  | None => Some (s, false)
  | Some ad =>
      match maintenance_action_for_segment ad meta with
      | None => Some (s, false)
      | Some action =>
          if negb (is_executor_authoritative action) then Some (s, false) else
          let strategy := match action, rewrite_budget_for_segment ad meta action with
                          | RPdtMerge, HardGate => Some Compaction.PdtMerge
                          | RSmallFileMerge, HeuristicPriority => Some SmallFileMerge
                          | RQueryDriven, EvidenceDriven => if 0 <? size_bytes meta then Some QueryDriven else None
                          | _, _ => None
                          end in
          match strategy with
          | None => Some (s, false)
          | Some st =>
              match compaction_task_new now (seg_id meta) task_priority st (size_bytes meta) with
              | Panic => None
              | Done task => Some (io_enqueue s task p, true)
              end
          end
      end
  end.

(** ** Load *)

Definition io_record_foreground_load s (mbps : f64) (now : Z) : sched :=
  let m := monitor_record (io_monitor s) mbps now in
  let st := io_stats s in
  Build_CompactionIOScheduler (io_config s) m (token_bucket s) (p0_queue s) (p1_queue s) (p2_queue s) (current_task s) (io_running s)
    (io_compactor s) (io_adaptive s) (io_ecotune s)
    {| tasks_enqueued := tasks_enqueued st; tasks_completed := tasks_completed st; tasks_preempted := tasks_preempted st;
       stat_current_load := f64_as_u64 (f64_mul (monitor_current_load (io_config s) m) (f64_of_Z 100)) |} (delay_retry_queue s).

(** ** Selection *)

(** The policy, the tiering ratio and the refill rate go to the log only;
    [set_refill_rate] does nothing. *)
Definition observe_ecotune_policy s : sched * option EcoProfile :=
  match io_ecotune s, io_adaptive s with
  | Some eco, Some ad =>
      let profile := collect_workload_profile ad in
      (set_ecotune s (Some (select_policy eco profile).1), Some profile)
  | _, _ => (s, None)
  end.

Definition queue_is_empty (h : H) : bool := match heap_peek h with None => true | Some _ => false end.
Definition pop_p0 s : option (SchedulableTask * sched) := '(t, h) ← heap_pop (p0_queue s); Some (t, set_queues s h (p1_queue s) (p2_queue s)).
Definition pop_p1 s : option (SchedulableTask * sched) := '(t, h) ← heap_pop (p1_queue s); Some (t, set_queues s (p0_queue s) h (p2_queue s)).
Definition pop_p2 s : option (SchedulableTask * sched) := '(t, h) ← heap_pop (p2_queue s); Some (t, set_queues s (p0_queue s) (p1_queue s) h).
Fixpoint first_pop (pops : list (sched → option (SchedulableTask * sched))) s : sched * option SchedulableTask :=
  match pops with
  | [] => (s, None)
  | pop :: pops' => match pop s with Some (t, s') => (s', Some t) | None => first_pop pops' s end
  end.
Definition select_next s : sched * option SchedulableTask :=
  if queue_is_empty (p0_queue s) && queue_is_empty (p1_queue s) && queue_is_empty (p2_queue s) then (s, None) else
  let '(s, profile) := observe_ecotune_policy s in
  let prefer_read := match profile with Some p => prefer_read_optimized p | None => false end in
  first_pop (if prefer_read : bool then [pop_p0; pop_p2; pop_p1] else [pop_p0; pop_p1; pop_p2]) s.

Definition pending_count s : Z := zlen (heap_items (p0_queue s)) + zlen (heap_items (p1_queue s)) + zlen (heap_items (p2_queue s)).
Definition io_is_empty s : bool := pending_count s =? 0.
Definition can_preempt_current s (incoming : SchedulableTask) : bool :=
  match current_task s with
  | Some current => priority_ordinal (st_priority incoming) <? priority_ordinal (st_priority current)
  | None => false
  end.

(** ** Execution *)

(** The closure that the constructor hands to the executor. *)
Definition compaction_callback (now_ms : Z) (ad : AdaptiveCompactionScheduler) (new_seg_id : string) (o : DebtResolutionOutcome) : AdaptiveCompactionScheduler :=
  let ad := match source_seg_id o with
            | Some old => observe_maintenance_feedback_seed ad old new_seg_id now_ms
            | None => set_feedback ad (record_hit (ad_feedback ad) new_seg_id now_ms)
            end in
  record_compaction_outcome ad new_seg_id o.
Definition run_callbacks (now_ms : Z) (ad : option AdaptiveCompactionScheduler) (cbs : Callbacks) : option AdaptiveCompactionScheduler :=
  (λ ad, foldl (λ ad cb, compaction_callback now_ms ad cb.1 cb.2) ad cbs) <$> ad.

(** Whether work was executed.  The [debug_assert!] of the last branch is compiled out
    of a release build. *)
Definition run_action (x : X) (task : CompactionTask) : X * Callbacks * bool :=
  match mt_action (ct_maintenance task) with
  | RPdtMerge => let '(x, cbs, r) := execute_pdt_merge x (ct_seg_id task) in (x, cbs, is_ok r)
  | RSmallFileMerge => let '(x, cbs, r) := execute_small_file_merge x [ct_seg_id task] in (x, cbs, is_ok r)
  | RQueryDriven =>
      if ct_size_bytes task =? 0 then (x, [], false) else
      let '(x, cbs, r) := execute_query_driven x (ct_seg_id task) in (x, cbs, match r with Ok b => b | Err _ => false end)
  | _ => (x, [], false)
  end.
Definition execute_task s (now_ms : Z) (t : SchedulableTask) : sched :=
  match io_compactor s with
  | None => s
  | Some x =>
      let '(x, cbs, executed) := run_action x (st_task t) in
      let s := set_executed s x (run_callbacks now_ms (io_adaptive s) cbs) in
      if executed : bool then
        let st := io_stats s in
        set_stats s {| tasks_enqueued := tasks_enqueued st; tasks_completed := tasks_completed st + 1;
                       tasks_preempted := tasks_preempted st; stat_current_load := stat_current_load st |}
      else s
  end.

(** ** The worker *)

(** [Ran]: the task got its budget and was given to [execute_task], whatever that did. *)
Inductive WorkerEvent := Ran (t : SchedulableTask) | Delayed (t : SchedulableTask) | Waited.

(** One round of the loop at the clock readings [now] and [now']. *)
Definition worker_step s (now now' now_ms : Z) : sched * WorkerEvent :=
  let '(s, next) := match delay_retry_queue s with
                    | t :: rest => (set_delay s rest, Some t)
                    | [] => select_next s
                    end in
  match next with
  | None => (s, Waited)
  | Some t =>
      let '(b, got) := try_acquire (token_bucket s) (estimated_io_bytes (st_task t)) now now' in
      let s := set_bucket s b in
      if got : bool then (execute_task s now_ms t, Ran t)
      else (set_delay s (delay_retry_queue s ++ [t]), Delayed t)
  end.

(** [running] stays set when the thread cannot be spawned. *)
Definition io_start s (spawns : bool) (why : string) : sched * Result unit :=
  if io_running s then (s, Ok tt) else
  (set_running s true, if spawns then Ok tt else Err (EInternal ("failed to spawn compaction worker thread: " +:+ why))).
Definition io_stop s : sched := set_running s false.
End io_scheduler.

(** [acquire]: rounds of [try_acquire] until the deadline; [None] when the clock
    readings are used up. *)
Fixpoint acquire (b : TokenBucket) (n deadline : Z) (readings : list (Z * Z * Z)) : option (TokenBucket * bool) :=
  match readings with
  | [] => None
  | (now, now', check) :: readings' =>
      let '(b, got) := try_acquire b n now now' in
      if got : bool then Some (b, true) else if deadline <=? check then Some (b, false) else acquire b n deadline readings'
  end.

(** * The rate of the token bucket *)

Record bucket_ok (b : TokenBucket) : Prop := {
  bucket_tokens : 0 ≤ tokens_bytes b ≤ capacity_bytes b;
  bucket_capacity : capacity_bytes b ≤ u64_max;
  bucket_rate : 0 ≤ refill_rate_bytes_per_ms b
}.

Lemma refilled_bounds b e : bucket_ok b → 0 ≤ e →
  tokens_bytes b ≤ refilled b e ≤ Z.min (tokens_bytes b + e * refill_rate_bytes_per_ms b) (capacity_bytes b).
Proof.
  intros [? ? ?] He. unfold refilled, saturating_add64, saturating_mul64. pose proof (Z.mul_nonneg_nonneg e (refill_rate_bytes_per_ms b)).
  destruct (Z.leb_spec (tokens_bytes b + Z.min (e * refill_rate_bytes_per_ms b) u64_max) u64_max); lia.
Qed.

Lemma refill_ok b now now' : bucket_ok b → last_refill b ≤ now ≤ now' →
  bucket_ok (refill b now now') ∧ capacity_bytes (refill b now now') = capacity_bytes b ∧
  refill_rate_bytes_per_ms (refill b now now') = refill_rate_bytes_per_ms b ∧ last_refill b ≤ last_refill (refill b now now') ≤ now' ∧
  1000000 * tokens_bytes (refill b now now') ≤
    1000000 * tokens_bytes b + refill_rate_bytes_per_ms b * (last_refill (refill b now now') - last_refill b).
Proof.
  intros Hb Ht. unfold refill. destruct (Z.ltb_spec 0 (elapsed_ms (last_refill b) now)) as [He|He]; [|split_and!; [done|done|done|lia..]].
  pose proof (refilled_bounds b _ Hb (Z.lt_le_incl _ _ He)) as Hr. destruct Hb as [? ? ?]. cbn. split_and!; [split; cbn; lia|done|done|lia|lia|].
  assert (1000000 * elapsed_ms (last_refill b) now ≤ now' - last_refill b) by (unfold elapsed_ms; rewrite Z.max_r by lia; pose proof (Z.mul_div_le (now - last_refill b) 1000000); lia).
  nia.
Qed.

(** Acquisitions one after the other, with the bytes that were granted. *)
Fixpoint acquire_all (b : TokenBucket) (calls : list (Z * (Z * Z))) : TokenBucket * Z :=
  match calls with
  | [] => (b, 0)
  | (n, (now, now')) :: calls' =>
      let '(b, got) := try_acquire b n now now' in
      let '(b, granted) := acquire_all b calls' in
      (b, (if got then n else 0) + granted)
  end.
(** The clock does not go back, and ends at [t1]. *)
Fixpoint clock_runs (t0 : Z) (calls : list (Z * (Z * Z))) (t1 : Z) : Prop :=
  match calls with
  | [] => t0 ≤ t1
  | (n, (now, now')) :: calls' => 0 ≤ n ∧ t0 ≤ now ≤ now' ∧ clock_runs now' calls' t1
  end.

Lemma acquire_all_bound b calls t0 t1 : bucket_ok b → last_refill b ≤ t0 → clock_runs t0 calls t1 →
  let '(b', granted) := acquire_all b calls in
  bucket_ok b' ∧ last_refill b' ≤ t1 ∧
  1000000 * (granted + tokens_bytes b') ≤ 1000000 * tokens_bytes b + refill_rate_bytes_per_ms b * (last_refill b' - last_refill b) ∧
  refill_rate_bytes_per_ms b' = refill_rate_bytes_per_ms b.
Proof.
  revert b t0. induction calls as [|[n [now now']] calls IH]; intros b t0 Hb Hl Hc; cbn in *; [split_and!; [done|lia|lia|done]|].
  destruct Hc as (Hn & Ht & Hc). unfold try_acquire. destruct (refill_ok b now now' Hb) as (Hr & Hcap & Hrate & Hlast & Htok); [lia|].
  set (r := refill b now now') in *. clearbody r. destruct (Z.leb_spec n (tokens_bytes r)) as [Hle|Hgt].
  - specialize (IH {| tokens_bytes := tokens_bytes r - n; capacity_bytes := capacity_bytes r; last_refill := last_refill r;
      refill_rate_bytes_per_ms := refill_rate_bytes_per_ms r |} now'). destruct (acquire_all _ calls) as [b' g]. cbn in IH.
    destruct IH as (H1 & H2 & H3 & H4); [destruct Hr; split; cbn; lia|lia|done|]. split_and!; [done|done|nia|congruence].
  - specialize (IH r now'). destruct (acquire_all _ calls) as [b' g]. destruct IH as (H1 & H2 & H3 & H4); [done|lia|done|].
    split_and!; [done|done|nia|congruence].
Qed.

Lemma try_acquire_capacity b n now now' : capacity_bytes (try_acquire b n now now').1 = capacity_bytes b.
Proof. unfold try_acquire, refill. destruct (_ <? _), (_ <=? _); done. Qed.
Lemma acquire_all_capacity b calls : capacity_bytes (acquire_all b calls).1 = capacity_bytes b.
Proof.
  revert b. induction calls as [|[n [now now']] calls IH]; intros b; [done|]. cbn.
  pose proof (try_acquire_capacity b n now now') as Hc. destruct (try_acquire b n now now') as [b1 got]. cbn in Hc.
  specialize (IH b1). destruct (acquire_all b1 calls). cbn in *. congruence.
Qed.

(** C33: the token bucket keeps its rate.  Over any run of acquisitions on a clock that
    does not go back, from a bucket whose tokens are within its capacity, the bytes that are granted, with the tokens that are left, are at
    most the tokens at the start and the refill rate times the milliseconds since the
    last refill; the tokens never exceed the capacity, which does not change. *)
Theorem token_bucket_rate b calls t1 :
  bucket_ok b → clock_runs (last_refill b) calls t1 →
  let granted := (acquire_all b calls).2 in
  let b' := (acquire_all b calls).1 in
  1000000 * (granted + tokens_bytes b') ≤ 1000000 * tokens_bytes b + refill_rate_bytes_per_ms b * (t1 - last_refill b) ∧
  0 ≤ tokens_bytes b' ≤ capacity_bytes b' ∧ capacity_bytes b' = capacity_bytes b ∧ refill_rate_bytes_per_ms b' = refill_rate_bytes_per_ms b.
Proof.
  intros Hb Hc. pose proof (acquire_all_bound b calls _ t1 Hb (Z.le_refl _) Hc) as Ha. pose proof (acquire_all_capacity b calls) as Hcap.
  destruct (acquire_all b calls) as [b' g]. cbn in *. destruct Ha as (Hb' & Hl & Hg & Hr).
  split_and!; [|by apply Hb'|by apply Hb'|done|done]. destruct Hb, Hb'. nia.
Qed.

(** A bucket that holds the largest task and was refilled for it grants it. *)
Definition max_io_bytes : Z := 64 * 1024 * 1024.
Lemma try_acquire_full b n now now' : bucket_ok b → n ≤ max_io_bytes → max_io_bytes ≤ capacity_bytes b →
  max_io_bytes ≤ elapsed_ms (last_refill b) now * refill_rate_bytes_per_ms b →
  (try_acquire b n now now').2 = true ∧ last_refill (try_acquire b n now now').1 = now'.
Proof.
  intros [? ? ?] Hn Hcap He. unfold try_acquire, refill.
  assert (0 < elapsed_ms (last_refill b) now) as Hpos.
  { destruct (Z.lt_ge_cases 0 (elapsed_ms (last_refill b) now)) as [|Hle]; [done|]. exfalso. unfold max_io_bytes in *. nia. }
  rewrite (proj2 (Z.ltb_lt _ _) Hpos). cbn.
  assert (n ≤ refilled b (elapsed_ms (last_refill b) now)) as Hr.
  { unfold refilled, saturating_add64, saturating_mul64, max_io_bytes, u64_max in *.
    destruct (Z.leb_spec (tokens_bytes b + Z.min (elapsed_ms (last_refill b) now * refill_rate_bytes_per_ms b) 18446744073709551615) 18446744073709551615); lia. }
  by rewrite (proj2 (Z.leb_le _ _) Hr).
Qed.
Lemma try_acquire_ok b n now now' : bucket_ok b → 0 ≤ n → last_refill b ≤ now ≤ now' →
  bucket_ok (try_acquire b n now now').1 ∧ capacity_bytes (try_acquire b n now now').1 = capacity_bytes b ∧
  refill_rate_bytes_per_ms (try_acquire b n now now').1 = refill_rate_bytes_per_ms b.
Proof.
  intros Hb Hn Ht. destruct (refill_ok b now now' Hb Ht) as (Hr & Hcap & Hrate & _). unfold try_acquire.
  destruct (Z.leb_spec n (tokens_bytes (refill b now now'))); [|done]. cbn. split_and!; [|done|done]. destruct Hr. split; cbn; lia.
Qed.
Lemma try_acquire_tokens b n now now' : 0 ≤ n →
  tokens_bytes (try_acquire b n now now').1 ≤ Z.max (tokens_bytes b) (capacity_bytes b) ∧
  ((try_acquire b n now now').2 = true → n ≤ Z.max (tokens_bytes b) (capacity_bytes b)).
Proof.
  intros Hn. unfold try_acquire, refill, refilled. destruct (0 <? _); cbn;
    match goal with |- context [?a <=? ?b] => destruct (Z.leb_spec a b); cbn end; split; try done; lia.
Qed.

(** * Selection and the worker *)

Section io_theorems.
Context `{HI : HashIter} `{BH : BinaryHeap SchedulableTask H} {BL : BinaryHeapLaws SchedulableTask H} `{CE : CompactionExecutor X}.
Abbreviation sched := (CompactionIOScheduler H X).
Implicit Types (s : sched) (t u : SchedulableTask).

Definition queued s : list SchedulableTask := heap_items (p0_queue s) ++ heap_items (p1_queue s) ++ heap_items (p2_queue s).
Definition in_class (p : CompactionPriority) (h : H) : Prop :=
  Forall (λ t, st_priority t = p ∧ not_nan (ct_priority (st_task t)) ∧ 0 ≤ ct_size_bytes (st_task t)) (heap_items h).
(** Each queue holds the tasks of its class. *)
Definition queues_ok s : Prop := in_class PFlush (p0_queue s) ∧ in_class PLowLevel (p1_queue s) ∧ in_class PHighLevel (p2_queue s).

Lemma queue_is_empty_true (h : H) : queue_is_empty h = true ↔ heap_items h = [].
Proof. unfold queue_is_empty. rewrite <- heap_peek_none. by destruct (heap_peek h). Qed.

Lemma in_class_pop p (h : H) t h' : in_class p h → heap_pop h = Some (t, h') →
  heap_items h ≡ₚ t :: heap_items h' ∧ st_priority t = p ∧ in_class p h' ∧ 0 ≤ ct_size_bytes (st_task t) ∧
  ∀ u, u ∈ heap_items h → prio_cmp u t ≠ Gt.
Proof.
  intros Hc Hp. pose proof (heap_pop_perm _ _ _ Hp) as Hperm. unfold in_class in *.
  assert (∀ u, u ∈ heap_items h → prio_cmp u t ≠ Gt).
  { apply (heap_pop_max _ _ _ Hp). eapply Forall_impl; [exact Hc|]. intros u (_ & ? & _). done. }
  rewrite Hperm in Hc. apply Forall_cons in Hc as [(? & ? & ?) ?]. done.
Qed.

(** Tasks of different classes compare by class. *)
Lemma class_cmp u t : priority_ordinal (st_priority t) < priority_ordinal (st_priority u) → prio_cmp u t ≠ Gt.
Proof. destruct u as [u []], t as [t []]; cbn; intros; try lia; done. Qed.

Lemma observe_keeps s : queued (observe_ecotune_policy s).1 = queued s ∧ delay_retry_queue (observe_ecotune_policy s).1 = delay_retry_queue s ∧
  token_bucket (observe_ecotune_policy s).1 = token_bucket s ∧ p0_queue (observe_ecotune_policy s).1 = p0_queue s ∧
  p1_queue (observe_ecotune_policy s).1 = p1_queue s ∧ p2_queue (observe_ecotune_policy s).1 = p2_queue s.
Proof. unfold observe_ecotune_policy. by destruct (io_ecotune s), (io_adaptive s). Qed.

(** Whether the high-level queue goes before the low-level one. *)
Definition prefers_read s : bool :=
  match (observe_ecotune_policy s).2 with Some p => prefer_read_optimized p | None => false end.

Lemma first_pop_spec s (pref : bool) : queues_ok s → queued s ≠ [] →
  let '(s', r) := first_pop (if pref then [pop_p0; pop_p2; pop_p1] else [pop_p0; pop_p1; pop_p2]) s in
  queues_ok s' ∧ delay_retry_queue s' = delay_retry_queue s ∧ token_bucket s' = token_bucket s ∧
  ∃ t, r = Some t ∧ queued s ≡ₚ t :: queued s' ∧ 0 ≤ ct_size_bytes (st_task t) ∧
      (∀ u, u ∈ queued s → st_priority u = PFlush → prio_cmp u t ≠ Gt) ∧
      (pref = false → ∀ u, u ∈ queued s → prio_cmp u t ≠ Gt).
Proof.
  intros (H0 & H1 & H2) Hne.
  assert (Hnil : ∀ h : H, heap_pop h = None → heap_items h = []) by (intros h; apply heap_pop_none).
  assert (Hmem : ∀ u, u ∈ queued s → (u ∈ heap_items (p0_queue s) ∨ u ∈ heap_items (p1_queue s) ∨ u ∈ heap_items (p2_queue s))).
  { intros u. unfold queued. by rewrite !elem_of_app. }
  assert (Hcl : ∀ p (h : H) u, in_class p h → u ∈ heap_items h → st_priority u = p).
  { intros p h u Hin Hu. unfold in_class in Hin. rewrite Forall_forall in Hin. by apply Hin. }
  destruct (heap_pop (p0_queue s)) as [[t h]|] eqn:Ep0.
  { destruct (in_class_pop _ _ _ _ H0 Ep0) as (Hp & Ht & Hh & Hsz & Hmax).
    assert (first_pop (if pref then [pop_p0; pop_p2; pop_p1] else [pop_p0; pop_p1; pop_p2]) s = (set_queues s h (p1_queue s) (p2_queue s), Some t)) as ->
      by (destruct pref; cbn; unfold pop_p0; by rewrite Ep0).
    assert (∀ u, u ∈ queued s → prio_cmp u t ≠ Gt) as Hall.
    { intros u [Hu|[Hu|Hu]]%Hmem; [by apply Hmax| |]; apply class_cmp; rewrite Ht; first [rewrite (Hcl _ _ _ H1 Hu)|rewrite (Hcl _ _ _ H2 Hu)]; cbn; lia. }
    (split_and!; [done..|]). exists t. (split_and!; [done| |done|by intros; apply Hall|by intros; apply Hall]). unfold queued. cbn. by rewrite Hp. }
  apply Hnil in Ep0 as Hi0. destruct (heap_pop (p1_queue s)) as [[t1 h1]|] eqn:Ep1, (heap_pop (p2_queue s)) as [[t2 h2]|] eqn:Ep2.
  - destruct (in_class_pop _ _ _ _ H1 Ep1) as (Hp1 & Ht1 & Hh1 & Hsz1 & Hmax1). destruct (in_class_pop _ _ _ _ H2 Ep2) as (Hp2 & Ht2 & Hh2 & Hsz2 & Hmax2).
    destruct pref; cbn; unfold pop_p0, pop_p1, pop_p2; rewrite Ep0, ?Ep1, ?Ep2; cbn; (split_and!; [done..|]); eexists; (split_and!; [done| |done|..]); try done; unfold queued; cbn; rewrite ?Hi0; cbn.
    + rewrite Hp2. by rewrite <- Permutation_middle.
    + intros u Hu Hf. exfalso. apply elem_of_app in Hu as [Hu|Hu]; [rewrite (Hcl _ _ _ H1 Hu) in Hf|rewrite (Hcl _ _ _ H2 Hu) in Hf]; done.
    + by rewrite Hp1.
    + intros u Hu Hf. exfalso. apply elem_of_app in Hu as [Hu|Hu]; [rewrite (Hcl _ _ _ H1 Hu) in Hf|rewrite (Hcl _ _ _ H2 Hu) in Hf]; done.
    + intros _ u [Hu|Hu]%elem_of_app; [by apply Hmax1|]. apply class_cmp. rewrite Ht1, (Hcl _ _ _ H2 Hu). cbn. lia.
  - destruct (in_class_pop _ _ _ _ H1 Ep1) as (Hp1 & Ht1 & Hh1 & Hsz1 & Hmax1). apply Hnil in Ep2 as Hi2.
    destruct pref; cbn; unfold pop_p0, pop_p1, pop_p2; rewrite Ep0, ?Ep1, ?Ep2; cbn; rewrite ?Ep1; cbn; (split_and!; [done..|]); eexists; (split_and!; [done| |done|..]); try done; unfold queued; cbn;
      rewrite ?Hi0, ?Hi2, ?app_nil_r; cbn; rewrite ?Hp1; try done; intros; by apply Hmax1.
  - destruct (in_class_pop _ _ _ _ H2 Ep2) as (Hp2 & Ht2 & Hh2 & Hsz2 & Hmax2). apply Hnil in Ep1 as Hi1.
    destruct pref; cbn; unfold pop_p0, pop_p1, pop_p2; rewrite Ep0, ?Ep1, ?Ep2; cbn; rewrite ?Ep2; cbn; (split_and!; [done..|]); eexists; (split_and!; [done| |done|..]); try done; unfold queued; cbn;
      rewrite ?Hi0, ?Hi1; cbn; rewrite ?Hp2; try done; intros; by apply Hmax2.
  - exfalso. apply Hnil in Ep1, Ep2. apply Hne. unfold queued. by rewrite Hi0, Ep1, Ep2.
Qed.

Lemma select_next_spec s : queues_ok s →
  let '(s', r) := select_next s in
  queues_ok s' ∧ delay_retry_queue s' = delay_retry_queue s ∧ token_bucket s' = token_bucket s ∧
  match r with
  | None => queued s = [] ∧ s' = s
  | Some t => queued s ≡ₚ t :: queued s' ∧ 0 ≤ ct_size_bytes (st_task t) ∧
      (∀ u, u ∈ queued s → st_priority u = PFlush → prio_cmp u t ≠ Gt) ∧
      (prefers_read s = false → ∀ u, u ∈ queued s → prio_cmp u t ≠ Gt)
  end.
Proof.
  intros Hq. unfold select_next. destruct (queue_is_empty (p0_queue s) && _ && _) eqn:Ee.
  { apply andb_true_iff in Ee as [[E0 E1]%andb_true_iff E2]. apply queue_is_empty_true in E0, E1, E2.
    split_and!; try done. unfold queued. by rewrite E0, E1, E2. }
  assert (queued s ≠ []) as Hne.
  { unfold queued. intros [E0 [E1 E2]%app_nil]%app_nil. apply queue_is_empty_true in E0, E1, E2. by rewrite E0, E1, E2 in Ee. }
  destruct (observe_keeps s) as (Eq & Ed & Eb & E0 & E1 & E2). unfold prefers_read.
  destruct (observe_ecotune_policy s) as [s1 profile]. cbn in *.
  pose proof (first_pop_spec s1 (match profile with Some p => prefer_read_optimized p | None => false end)) as Hf.
  unfold queues_ok in *. rewrite E0, E1, E2, Eq, Ed, Eb in Hf. specialize (Hf Hq Hne).
  destruct (first_pop _ s1) as [s' r]. destruct Hf as (H1 & H2 & H3 & t & -> & H4 & H5 & H6 & H7). destruct H1 as (? & ? & ?). by split_and!.
Qed.

(** The queue hands out the most urgent task.  It returns a task exactly when
    one is queued and takes that task out of its queue and no other; no queued
    flush is more urgent than it, and unless the workload is read-heavy no
    queued task at all is. *)
Theorem select_next_most_urgent s :
  queues_ok s →
  let '(s', r) := select_next s in
  match r with
  | None => queued s = [] ∧ s' = s
  | Some t => queued s ≡ₚ t :: queued s' ∧ (∀ u, u ∈ queued s → st_priority u = PFlush → prio_cmp u t ≠ Gt) ∧
      (prefers_read s = false → ∀ u, u ∈ queued s → prio_cmp u t ≠ Gt)
  end.
Proof.
  intros Hq. pose proof (select_next_spec s Hq) as Hs. destruct (select_next s) as [s' [t|]]; destruct Hs as (_ & _ & _ & Hr); [|done].
  by destruct Hr as (? & _ & ? & ?).
Qed.

Lemma io_enqueue_ok s task p : not_nan (ct_priority task) → 0 ≤ ct_size_bytes task → queues_ok s → queues_ok (io_enqueue s task p).
Proof.
  intros Hn Hz (H0 & H1 & H2). unfold io_enqueue. destruct (bool_decide _ && _); [done|].
  destruct p; split_and!; cbn; try done; unfold in_class; rewrite heap_items_push; by constructor.
Qed.

Lemma execute_task_keeps s ms t : queued (execute_task s ms t) = queued s ∧ delay_retry_queue (execute_task s ms t) = delay_retry_queue s ∧
  token_bucket (execute_task s ms t) = token_bucket s ∧ (queues_ok s → queues_ok (execute_task s ms t)).
Proof.
  unfold execute_task. destruct (io_compactor s) as [x|]; [|done]. destruct (run_action x (st_task t)) as [[x' cbs] []]; done.
Qed.

(** ** Draining *)

Definition waiting s : list SchedulableTask := delay_retry_queue s ++ queued s.
Definition delay_ok s : Prop := Forall (λ t, 0 ≤ ct_size_bytes (st_task t)) (delay_retry_queue s).
(** Clock readings that leave [gap] milliseconds between the rounds. *)
Fixpoint paced (gap t0 : Z) (ticks : list (Z * Z * Z)) : Prop :=
  match ticks with
  | [] => True
  | (now, now', _) :: ticks' => t0 + gap * 1000000 ≤ now ≤ now' ∧ paced gap now' ticks'
  end.
Fixpoint run_worker s (ticks : list (Z * Z * Z)) : sched * list WorkerEvent :=
  match ticks with
  | [] => (s, [])
  | (now, now', ms) :: ticks' =>
      let '(s, e) := worker_step s now now' ms in
      let '(s, es) := run_worker s ticks' in (s, e :: es)
  end.

(** ** What running a task does *)

(** The call of the executor that a task asks for, with the callbacks it made and
    whether it counts as completed.  A query-driven task without a size asks for none,
    nor does an action that has no executor. *)
Inductive performs : X → CompactionTask → X → Callbacks → bool → Prop :=
  | performs_pdt x task x' cbs r : mt_action (ct_maintenance task) = RPdtMerge →
      execute_pdt_merge x (ct_seg_id task) = (x', cbs, r) → performs x task x' cbs (is_ok r)
  | performs_small x task x' cbs r : mt_action (ct_maintenance task) = RSmallFileMerge →
      execute_small_file_merge x [ct_seg_id task] = (x', cbs, r) → performs x task x' cbs (is_ok r)
  | performs_query x task x' cbs r : mt_action (ct_maintenance task) = RQueryDriven → ct_size_bytes task ≠ 0 →
      execute_query_driven x (ct_seg_id task) = (x', cbs, r) → performs x task x' cbs (match r with Ok b => b | Err _ => false end)
  | performs_unsized x task : mt_action (ct_maintenance task) = RQueryDriven → ct_size_bytes task = 0 → performs x task x [] false
  | performs_none x task : mt_action (ct_maintenance task) ∉ [RPdtMerge; RSmallFileMerge; RQueryDriven] → performs x task x [] false.

(** Tasks performed one after the other, each at its clock reading: the executor, the
    adaptive scheduler that its callbacks feed, and the number completed. *)
Inductive performed : X → option AdaptiveCompactionScheduler → list (SchedulableTask * Z) → X → option AdaptiveCompactionScheduler → Z → Prop :=
  | performed_nil x ad : performed x ad [] x ad 0
  | performed_cons x ad t ms x1 cbs (done : bool) rest x' ad' k : performs x (st_task t) x1 cbs done →
      performed x1 (run_callbacks ms ad cbs) rest x' ad' k → performed x ad ((t, ms) :: rest) x' ad' ((if done then 1 else 0) + k).

(** What running the tasks leaves of [s]: with an executor, the calls the tasks ask
    for; without one, nothing is executed and nothing counted. *)
Definition ran_tasks s (ts : list (SchedulableTask * Z)) s' : Prop :=
  match io_compactor s with
  | Some x => ∃ x' k, io_compactor s' = Some x' ∧ performed x (io_adaptive s) ts x' (io_adaptive s') k ∧
      tasks_completed (io_stats s') = tasks_completed (io_stats s) + k
  | None => io_compactor s' = None ∧ io_adaptive s' = io_adaptive s ∧ io_stats s' = io_stats s
  end.

Lemma run_action_performs x task : let '(x', cbs, done) := run_action x task in performs x task x' cbs done.
Proof.
  unfold run_action. destruct (mt_action (ct_maintenance task)) eqn:Ea; try (apply performs_none; rewrite Ea; set_solver).
  - destruct (execute_pdt_merge x _) as [[x' cbs] r] eqn:E. by eapply performs_pdt.
  - destruct (execute_small_file_merge x _) as [[x' cbs] r] eqn:E. by eapply performs_small.
  - destruct (Z.eqb_spec (ct_size_bytes task) 0); [by apply performs_unsized|].
    destruct (execute_query_driven x _) as [[x' cbs] r] eqn:E. by eapply performs_query.
Qed.

(** The parts of the state that only the execution changes. *)
Definition same_work s s' : Prop := io_compactor s' = io_compactor s ∧ io_adaptive s' = io_adaptive s ∧ io_stats s' = io_stats s.

Lemma execute_task_work s ms t x : io_compactor s = Some x →
  ∃ x' cbs d, performs x (st_task t) x' cbs d ∧ io_compactor (execute_task s ms t) = Some x' ∧
    io_adaptive (execute_task s ms t) = run_callbacks ms (io_adaptive s) cbs ∧
    tasks_completed (io_stats (execute_task s ms t)) = tasks_completed (io_stats s) + (if d : bool then 1 else 0).
Proof.
  intros Hx. unfold execute_task. rewrite Hx. pose proof (run_action_performs x (st_task t)) as Hp.
  destruct (run_action x (st_task t)) as [[x' cbs] d]. exists x', cbs, d. destruct d; cbn; split_and!; (done || lia).
Qed.

Lemma ran_cons s s1 t ms ts s' : same_work s s1 → ran_tasks (execute_task s1 ms t) ts s' → ran_tasks s ((t, ms) :: ts) s'.
Proof.
  intros (Ex & Ead & Est). unfold ran_tasks at 2. rewrite <- Ex. destruct (io_compactor s1) as [x|] eqn:Ex1.
  - destruct (execute_task_work s1 ms t x Ex1) as (x1 & cbs & d & Hp & Hx & Had & Hc). unfold ran_tasks. rewrite Hx, Had, Hc, Ead, Est.
    intros (x' & k & Hx' & Hper & Hk). eexists x', _. split_and!; [done|by eapply performed_cons|lia].
  - unfold ran_tasks, execute_task. rewrite !Ex1. intros (H1 & H2 & H3). split_and!; congruence.
Qed.
Lemma ran_nil s : ran_tasks s [] s.
Proof. unfold ran_tasks. destruct (io_compactor s) as [x|]; [|done]. exists x, 0. split_and!; [done|constructor|lia]. Qed.

Lemma select_next_work s : same_work s (select_next s).1.
Proof.
  unfold select_next. destruct (_ && _ && _); [done|].
  assert (same_work s (observe_ecotune_policy s).1) as Ho by (unfold observe_ecotune_policy; by destruct (io_ecotune s), (io_adaptive s)).
  destruct (observe_ecotune_policy s) as [s1 p]. cbn in Ho.
  destruct (match p with Some p => prefer_read_optimized p | None => false end); cbn; unfold pop_p0, pop_p1, pop_p2;
    destruct (heap_pop (p0_queue s1)) as [[]|], (heap_pop (p1_queue s1)) as [[]|], (heap_pop (p2_queue s1)) as [[]|]; exact Ho.
Qed.

Lemma io_bytes_bounds t : 0 ≤ ct_size_bytes (st_task t) → 0 ≤ estimated_io_bytes (st_task t) ≤ max_io_bytes.
Proof. unfold estimated_io_bytes, max_io_bytes. lia. Qed.

Lemma worker_step_runs s now now' ms gap : queues_ok s → delay_ok s → bucket_ok (token_bucket s) → max_io_bytes ≤ capacity_bytes (token_bucket s) →
  max_io_bytes ≤ gap * refill_rate_bytes_per_ms (token_bucket s) → last_refill (token_bucket s) + gap * 1000000 ≤ now ≤ now' → waiting s ≠ [] →
  let '(s', e) := worker_step s now now' ms in
  ∃ t s1, e = Ran t ∧ s' = execute_task s1 ms t ∧ same_work s s1 ∧ waiting s ≡ₚ t :: waiting s' ∧ queues_ok s' ∧ delay_ok s' ∧ bucket_ok (token_bucket s') ∧ last_refill (token_bucket s') = now' ∧
    capacity_bytes (token_bucket s') = capacity_bytes (token_bucket s) ∧ refill_rate_bytes_per_ms (token_bucket s') = refill_rate_bytes_per_ms (token_bucket s).
Proof.
  intros Hq Hd Hb Hcap Hgap Ht Hl. unfold worker_step.
  assert (0 < gap) as Hg by (destruct Hb; unfold max_io_bytes in *; nia).
  assert (∃ s1 t, (match delay_retry_queue s with t :: rest => (set_delay s rest, Some t) | [] => select_next s end) = (s1, Some t) ∧
    waiting s ≡ₚ t :: waiting s1 ∧ queues_ok s1 ∧ delay_ok s1 ∧ token_bucket s1 = token_bucket s ∧ 0 ≤ ct_size_bytes (st_task t) ∧ same_work s s1)
    as (s1 & t & -> & Hp & Hq1 & Hd1 & Hb1 & Hz & Hw).
  { unfold delay_ok, waiting in *. destruct (delay_retry_queue s) as [|t rest] eqn:Ed.
    - pose proof (select_next_spec s Hq) as Hs. pose proof (select_next_work s) as Hw. destruct (select_next s) as [s1 [t|]]; destruct Hs as (H1 & H2 & H3 & Hr).
      + destruct Hr as (Hperm & Hz & _). exists s1, t. rewrite H2, Ed. split_and!; done.
      + destruct Hr as [Hr _]. by rewrite Hr in Hl.
    - apply Forall_cons in Hd as [Hz Hd]. exists (set_delay s rest), t. split_and!; done. }
  destruct (io_bytes_bounds t Hz) as [Hn0 Hn1]. rewrite <- Hb1 in *.
  destruct (try_acquire_full (token_bucket s1) (estimated_io_bytes (st_task t)) now now') as [Hgot Hlast]; try done.
  { assert (gap ≤ elapsed_ms (last_refill (token_bucket s1)) now) by (unfold elapsed_ms; rewrite Z.max_r by lia; apply Z.div_le_lower_bound; lia).
    destruct Hb. nia. }
  destruct (try_acquire_ok (token_bucket s1) (estimated_io_bytes (st_task t)) now now') as (Hok & Hcap' & Hrate'); [done|lia|lia|].
  destruct (try_acquire _ _ _ _) as [b got]. cbn in *. subst got. exists t, (set_bucket s1 b).
  destruct (execute_task_keeps (set_bucket s1 b) ms t) as (Eq & Ed & Eb & Ek).
  split_and!; [done|done|done| |by apply Ek|unfold delay_ok; by rewrite Ed|by rewrite Eb..]. unfold waiting. by rewrite Ed, Eq.
Qed.

(** C32: the worker drains its queues.  When the bucket can hold the largest task
    and its rounds are far enough apart to refill it, as many rounds as there are
    tasks, queued or waiting for a retry, take every one of them out once.  With an
    executor each of them makes the one call that its action asks for, in the order in
    which they were taken, the callbacks of these calls reach the adaptive scheduler,
    and the completed tasks are counted; a query-driven task without a size and an
    action that has no executor are dropped.  Without an executor all of them are
    dropped, and neither the counters nor the adaptive scheduler change. *)
Theorem worker_drains_queues s gap ticks :
  queues_ok s → delay_ok s → bucket_ok (token_bucket s) → max_io_bytes ≤ capacity_bytes (token_bucket s) →
  max_io_bytes ≤ gap * refill_rate_bytes_per_ms (token_bucket s) → paced gap (last_refill (token_bucket s)) ticks →
  length ticks = length (waiting s) →
  ∃ ts, (run_worker s ticks).2 = Ran <$> ts ∧ ts ≡ₚ waiting s ∧ waiting (run_worker s ticks).1 = [] ∧
    ran_tasks s (zip ts (ticks.*2)) (run_worker s ticks).1.
Proof.
  revert s. induction ticks as [|[[now now'] ms] ticks IH]; intros s Hq Hd Hb Hcap Hgap Hp Hlen; cbn in *.
  { symmetry in Hlen. apply nil_length_inv in Hlen. exists []. rewrite Hlen. split_and!; [done..|]. cbn. apply ran_nil. }
  destruct Hp as [Ht Hp]. pose proof (worker_step_runs s now now' ms gap Hq Hd Hb Hcap Hgap Ht) as Hs.
  destruct (worker_step s now now' ms) as [s' e].
  destruct Hs as (t & s1 & -> & Hex & Hw & Hperm & Hq' & Hd' & Hb' & Hl' & Hc' & Hr'); [by destruct (waiting s)|].
  destruct (IH s') as (ts & He & Hts & Hnil & Hran); [done|done|done|by rewrite Hc'|by rewrite Hr'|by rewrite Hl'|apply Permutation_length in Hperm; cbn in Hperm; lia|].
  destruct (run_worker s' ticks) as [s'' es]. cbn in *. exists (t :: ts). rewrite He. split_and!; [done|by rewrite Hts|done|].
  cbn. apply (ran_cons s s1); [done|]. by rewrite <- Hex.
Qed.

(** ** A task that the bucket cannot hold *)

Inductive IoOp := OpTick (now now' now_ms : Z) | OpAdd (task : CompactionTask) (p : CompactionPriority).
Fixpoint io_run s (ops : list IoOp) : sched * list WorkerEvent :=
  match ops with
  | [] => (s, [])
  | OpAdd task p :: ops' => io_run (io_enqueue s task p) ops'
  | OpTick now now' ms :: ops' =>
      let '(s, e) := worker_step s now now' ms in
      let '(s, es) := io_run s ops' in (s, e :: es)
  end.

Lemma io_enqueue_keeps s task p : delay_retry_queue (io_enqueue s task p) = delay_retry_queue s ∧ token_bucket (io_enqueue s task p) = token_bucket s.
Proof. unfold io_enqueue. destruct (bool_decide _ && _); [done|]. by destruct p. Qed.

(** A round with waiting tasks takes the first of them. *)
Lemma worker_retries s now now' ms : delay_ok s → delay_retry_queue s ≠ [] →
  ∃ d rest s' e, worker_step s now now' ms = (s', e) ∧ delay_retry_queue s = d :: rest ∧
    capacity_bytes (token_bucket s') = capacity_bytes (token_bucket s) ∧
    tokens_bytes (token_bucket s') ≤ Z.max (tokens_bytes (token_bucket s)) (capacity_bytes (token_bucket s)) ∧
    ((e = Ran d ∧ estimated_io_bytes (st_task d) ≤ Z.max (tokens_bytes (token_bucket s)) (capacity_bytes (token_bucket s)) ∧ delay_retry_queue s' = rest) ∨
     (e = Delayed d ∧ delay_retry_queue s' = rest ++ [d])).
Proof.
  intros Hd Hne. unfold worker_step, delay_ok in *. destruct (delay_retry_queue s) as [|d rest] eqn:Ed; [done|].
  apply Forall_cons in Hd as [Hz _]. destruct (io_bytes_bounds d Hz) as [Hn _]. exists d, rest.
  change (token_bucket (set_delay s rest)) with (token_bucket s).
  pose proof (try_acquire_capacity (token_bucket s) (estimated_io_bytes (st_task d)) now now') as Hcap.
  pose proof (try_acquire_tokens (token_bucket s) (estimated_io_bytes (st_task d)) now now' Hn) as [Ht1 Ht2].
  destruct (try_acquire _ _ _ _) as [b got]. cbn in Hcap, Ht1, Ht2. destruct got.
  - destruct (execute_task_keeps (set_bucket (set_delay s rest) b) ms d) as (_ & E1 & E2 & _).
    eexists _, _. split_and!; [done|done|by rewrite E2|by rewrite E2|]. left. split_and!; [done|by apply Ht2|done].
  - eexists _, _. split_and!; [done|done|done|done|]. by right.
Qed.

(** A task that the bucket cannot hold stops the scheduler.  Once it waits for
    a retry it is retried for ever, and the retries come before the queues: from
    then on no queued task is run, not even a flush, only tasks that were waiting
    for a retry as well. *)
Theorem oversized_task_blocks_queues s t ops :
  t ∈ delay_retry_queue s → capacity_bytes (token_bucket s) < estimated_io_bytes (st_task t) →
  tokens_bytes (token_bucket s) ≤ capacity_bytes (token_bucket s) → delay_ok s →
  t ∈ delay_retry_queue (io_run s ops).1 ∧
  ∀ u, Ran u ∈ (io_run s ops).2 → u ∈ delay_retry_queue s.
Proof.
  revert s. induction ops as [|[now now' ms|task p] ops IH]; intros s Ht Hc Hb Hd; cbn [io_run].
  - split; [done|]. by intros u ?%elem_of_nil.
  - destruct (worker_retries s now now' ms) as (d & rest & s' & e & -> & Ed & Hcap & Htok & Hcase); [done|by intros E; rewrite E in Ht; apply elem_of_nil in Ht|].
    unfold delay_ok in *. rewrite Ed in *.
    assert (t ∈ delay_retry_queue s' ∧ Forall (λ t, 0 ≤ ct_size_bytes (st_task t)) (delay_retry_queue s') ∧
      (∀ u, u ∈ delay_retry_queue s' → u ∈ d :: rest) ∧ ∀ u, e = Ran u → u ∈ d :: rest) as (Ht' & Hd' & Hsub & Hev).
    { apply Forall_cons in Hd as [Hd0 Hd]. destruct Hcase as [(-> & Hle & ->)|(-> & ->)].
      - apply elem_of_cons in Ht as [->|Ht]; [lia|]. split_and!; [done|done|by right|intros u [= ->]; left].
      - split_and!; [apply elem_of_app; apply elem_of_cons in Ht as [->|?]; [right; left|by left]| | |done].
        + apply Forall_app. by split; [|constructor].
        + intros u [?| ->%list_elem_of_singleton]%elem_of_app; [by right|left]. }
    destruct (IH s') as [H1 H2]; [done|by rewrite Hcap|rewrite Hcap; lia|done|]. destruct (io_run s' ops) as [s'' es]. cbn in *. split; [done|].
    intros u [Hu|Hu]%elem_of_cons; [by apply Hev|by apply Hsub, H2].
  - destruct (io_enqueue_keeps s task p) as [Ed Eb]. unfold delay_ok in *. rewrite <- Ed in Ht, Hd |- *. rewrite <- Eb in Hc, Hb. by apply IH.
Qed.

(** ** Admission *)

Lemma io_enqueue_queued s task p : budget (mt_action (ct_maintenance task)) ≠ EvidenceDriven →
  queued (io_enqueue s task p) ≡ₚ {| st_task := task; st_priority := p |} :: queued s.
Proof.
  intros Hb. unfold io_enqueue. rewrite bool_decide_false by done. cbn [andb]. unfold queued.
  destruct p; cbn [set_queues set_stats p0_queue p1_queue p2_queue]; rewrite heap_items_push; cbn; solve_Permutation.
Qed.

(** What the gate lets through: a merge of a segment that is mostly deleted, or of a
    small file that its queries do not miss. *)
Definition admitted (ad : AdaptiveCompactionScheduler) (meta : SegmentMeta) : bool :=
  over_half (del_ratio meta) || (negb (over_half (staleness_penalty (ad_feedback ad) (seg_id meta))) && small_file meta).

Lemma enqueue_with_maintenance_cases s now meta pr p : not_nan pr →
  match io_adaptive s with
  | Some ad =>
      if admitted ad meta then
        ∃ task, enqueue_with_maintenance s now meta pr p = Some (io_enqueue s task p, true) ∧ ct_seg_id task = seg_id meta ∧
          ct_size_bytes task = size_bytes meta ∧ budget (mt_action (ct_maintenance task)) ≠ EvidenceDriven ∧
          mt_action (ct_maintenance task) = (if over_half (del_ratio meta) then RPdtMerge else RSmallFileMerge)
      else enqueue_with_maintenance s now meta pr p = Some (s, false)
  | None => enqueue_with_maintenance s now meta pr p = Some (s, false)
  end.
Proof.
  intros Hn. unfold enqueue_with_maintenance, admitted. destruct (io_adaptive s) as [ad|]; [|done].
  pose proof (maintenance_action_eq ad meta) as Ha. destruct (maintenance_action_for_segment ad meta) as [a|] eqn:E.
  - pose proof (rewrite_budget_eq _ _ _ E) as Hb. unfold debt_action in Ha.
    destruct (over_half (del_ratio meta)), (over_half (staleness_penalty _ _)), (small_file meta); try discriminate Ha; injection Ha as ->; cbn -[rewrite_budget_for_segment compaction_task_new]; try done;
      rewrite Hb; cbn -[compaction_task_new]; unfold compaction_task_new; destruct pr; try done; eexists; split_and!; done.
  - unfold debt_action in Ha. by destruct (over_half (del_ratio meta)), (over_half (staleness_penalty _ _)), (small_file meta).
Qed.

(** The gate of maintenance tasks.  A segment is queued exactly when an adaptive
    scheduler is there and either more than half of its rows are deleted or the
    file is below one MiB and no stale zone map is reported; the task is then in the
    queue with the segment's size, and otherwise nothing changes. *)
Theorem maintenance_admission_exact s now meta pr p :
  not_nan pr →
  ∃ s' r, enqueue_with_maintenance s now meta pr p = Some (s', r) ∧
    (r = true ↔ ∃ ad, io_adaptive s = Some ad ∧ admitted ad meta = true) ∧ (r = false → s' = s) ∧
    (r = true → ∃ task, queued s' ≡ₚ {| st_task := task; st_priority := p |} :: queued s ∧ ct_seg_id task = seg_id meta ∧
      ct_size_bytes task = size_bytes meta ∧ mt_action (ct_maintenance task) = (if over_half (del_ratio meta) then RPdtMerge else RSmallFileMerge)).
Proof.
  intros Hn. pose proof (enqueue_with_maintenance_cases s now meta pr p Hn) as Hc. destruct (io_adaptive s) as [ad|].
  - destruct (admitted ad meta) eqn:Ea.
    + destruct Hc as (task & -> & H1 & H2 & H3 & H4). eexists _, true. split_and!; [done|naive_solver|done|].
      intros _. exists task. split_and!; [by apply io_enqueue_queued|done..].
    + rewrite Hc. eexists _, false. split_and!; [done|naive_solver|done|done].
  - rewrite Hc. eexists _, false. split_and!; [done|naive_solver|done|done].
Qed.

(** No task is ever marked as the current one, so that nothing is preempted. *)
Inductive io_reachable : sched → Prop :=
  | io_fresh c ad x eco now : io_reachable (io_new c ad x eco now)
  | io_added s task p : io_reachable s → io_reachable (io_enqueue s task p)
  | io_worked s now now' ms : io_reachable s → io_reachable (worker_step s now now' ms).1
  | io_loaded s mbps now : io_reachable s → io_reachable (io_record_foreground_load s mbps now)
  | io_started s b w : io_reachable s → io_reachable (io_start s b w).1
  | io_stopped s : io_reachable s → io_reachable (io_stop s).
Lemma first_pop_current pops s : Forall (λ pop, ∀ s t s', pop s = Some (t, s') → current_task s' = current_task s) pops →
  current_task (first_pop pops s).1 = current_task s.
Proof.
  induction 1 as [|pop pops Hp _ IH]; [done|]. cbn. destruct (pop s) as [[t s']|] eqn:E; [by apply (Hp _ _ _ E)|done].
Qed.
Lemma select_next_current s : current_task (select_next s).1 = current_task s.
Proof.
  assert (∀ b : bool, Forall (λ pop : sched → option (SchedulableTask * sched), ∀ s t s', pop s = Some (t, s') → current_task s' = current_task s)
    (if b then [pop_p0; pop_p2; pop_p1] else [pop_p0; pop_p1; pop_p2])) as Hp.
  { intros []; repeat constructor; intros s0 t s1; unfold pop_p0, pop_p1, pop_p2; destruct (heap_pop _) as [[]|]; try done; by intros [= _ <-]. }
  unfold select_next. destruct (_ && _ && _); [done|].
  assert (current_task (observe_ecotune_policy s).1 = current_task s) as <- by (unfold observe_ecotune_policy; by destruct (io_ecotune s), (io_adaptive s)).
  destruct (observe_ecotune_policy s) as [s1 profile]. cbn. apply first_pop_current, Hp.
Qed.
Lemma io_never_preempts s t : io_reachable s → current_task s = None ∧ can_preempt_current s t = false.
Proof.
  intros Hr. assert (current_task s = None) as Hn; [|split; [done|]; unfold can_preempt_current; by rewrite Hn].
  induction Hr as [c ad x eco now|s task p _ IH|s now now' ms _ IH|s mbps now _ IH|s b w _ IH|s _ IH]; try done.
  - unfold io_enqueue. destruct (bool_decide _ && _); [done|]. by destruct p.
  - unfold worker_step. assert (current_task (match delay_retry_queue s with u :: rest => (set_delay s rest, Some u) | [] => select_next s end).1 = None) as Hs.
    { destruct (delay_retry_queue s); [by rewrite select_next_current|done]. }
    destruct (match delay_retry_queue s with u :: rest => _ | [] => _ end) as [s1 [u|]]; [|done]. cbn in Hs.
    destruct (try_acquire _ _ _ _) as [b []]; [|done]. cbn. unfold execute_task. cbn. destruct (io_compactor s1); [|done].
    destruct (run_action _ _) as [[? ?] []]; done.
  - unfold io_start. by destruct (io_running s).
Qed.
End io_theorems.

(** * Witnesses *)

Definition demo_io_task (id : string) (p size : Z) : CompactionTask := demo_task id p size.
#[local] Instance demo_executor : CompactionExecutor (list string) := {
  execute_pdt_merge x id := (x ++ [id], [(id +:+ "_new", outcome_from_merge_stats id (demo_stats_of 10 5))], Ok (demo_stats_of 10 5));
  execute_small_file_merge x ids := (x ++ ids, [], Ok merge_stats_default);
  execute_query_driven x _ := (x, [], Ok false)
}.
Abbreviation demo_sched := (CompactionIOScheduler (list SchedulableTask) (list string)).
Definition demo_io (capacity : Z) : demo_sched :=
  let c := {| total_bandwidth_mbps := 1000; foreground_reserved_ratio := f64_lit 3 10; min_lowlevel_bandwidth_mbps := 50;
              token_bucket_capacity_mb := capacity; refill_rate_mb_per_ms := 1; monitor_interval_ms := 10; low_load_watermark := f64_lit 3 10;
              worker_poll_interval_ms := 50 |} in
  io_new c (Some adaptive_new) (Some []) None 0.
(** A high-level task, a low-level one and a flush. *)
Definition demo_filled (capacity : Z) : demo_sched :=
  io_enqueue (io_enqueue (io_enqueue (demo_io capacity) (demo_task "old" 3 (100 * 1024 * 1024)) PHighLevel)
    (demo_task "mid" 2 1000) PLowLevel) (demo_task "new" 1 1000) PFlush.
Lemma demo_filled_ok c : queues_ok (demo_filled c).
Proof. unfold demo_filled. repeat apply io_enqueue_ok; try done. split_and!; constructor. Defined.
Definition demo_tick (k : Z) : Z * Z * Z := (k * 100000000, k * 100000000, k).

(** A bucket with half of its tokens. *)
Definition demo_half : TokenBucket :=
  {| tokens_bytes := 524288; capacity_bytes := 1048576; last_refill := 0; refill_rate_bytes_per_ms := 1048576 |}.
Definition demo_calls : list (Z * (Z * Z)) := [(1048576, (500, 600)); (524288, (700000, 700000)); (1048576, (2000000, 2000100))].
Lemma token_bucket_rate_witness :
  1000000 * ((acquire_all demo_half demo_calls).2 + tokens_bytes (acquire_all demo_half demo_calls).1)
    ≤ 1000000 * 524288 + 1048576 * 2000100 ∧ (acquire_all demo_half demo_calls).2 = 1572864.
Proof.
  split; [|vm_compute; reflexivity]. refine (proj1 (token_bucket_rate demo_half demo_calls 2000100 _ _)).
  - split; [split|..]; vm_compute; discriminate.
  - cbn. lia.
Defined.

Lemma select_next_most_urgent_witness :
  ∃ s' t, select_next (demo_filled 256) = (s', Some t) ∧ st_task t = demo_task "new" 1 1000 ∧
    queued (demo_filled 256) ≡ₚ t :: queued s'.
Proof.
  pose proof (select_next_most_urgent (demo_filled 256) (demo_filled_ok 256)) as Hs.
  destruct (select_next (demo_filled 256)) as [s' r] eqn:E. assert (r = Some {| st_task := demo_task "new" 1 1000; st_priority := PFlush |}) as ->.
  { apply (f_equal snd) in E. vm_compute in E. by rewrite <- E. }
  exists s'. eexists. split_and!; [reflexivity|reflexivity|exact (proj1 Hs)].
Defined.

Abbreviation demo_drained := (run_worker (demo_filled 256) (demo_tick <$> [1; 2; 3])).
(** The executor was called for the flush, the low-level task and the high-level one. *)
Lemma demo_drained_result : io_compactor demo_drained.1 = Some ["new"; "mid"; "old"] ∧ tasks_completed (io_stats demo_drained.1) = 3.
Proof. split; vm_compute; reflexivity. Qed.
Lemma worker_drains_queues_witness :
  ∃ ts, demo_drained.2 = Ran <$> ts ∧ length ts = 3%nat ∧ waiting demo_drained.1 = [] ∧
    ran_tasks (demo_filled 256) (zip ts ((demo_tick <$> [1; 2; 3]).*2)) demo_drained.1 ∧ io_compactor demo_drained.1 = Some ["new"; "mid"; "old"].
Proof.
  destruct (worker_drains_queues (demo_filled 256) 64 (demo_tick <$> [1; 2; 3])) as (ts & H1 & H2 & H3 & H4).
  - apply demo_filled_ok.
  - constructor.
  - split; [split|..]; vm_compute; discriminate.
  - vm_compute. discriminate.
  - vm_compute. discriminate.
  - vm_compute. repeat split; discriminate.
  - reflexivity.
  - exists ts. split; [exact H1|]. split; [by rewrite H2|]. split; [exact H3|]. split; [exact H4|exact (proj1 demo_drained_result)].
Defined.

(** A bucket of 32 MiB: the task of 64 MiB waits, and the flush that comes after it is never run. *)
Definition demo_stuck : demo_sched :=
  io_enqueue (worker_step (io_enqueue (demo_io 32) (demo_task "old" 3 (100 * 1024 * 1024)) PHighLevel) 0 0 0).1 (demo_task "new" 1 1000) PFlush.
Definition demo_ticks : list IoOp := [OpTick 100000000 100000000 1; OpTick 200000000 200000000 2; OpTick 300000000 300000000 3].
Lemma oversized_task_blocks_queues_witness :
  (∀ u, Ran u ∈ (io_run demo_stuck demo_ticks).2 → u ∈ delay_retry_queue demo_stuck) ∧
  (io_run demo_stuck demo_ticks).2 = replicate 3 (Delayed {| st_task := demo_task "old" 3 (100 * 1024 * 1024); st_priority := PHighLevel |}) ∧
  length (queued (io_run demo_stuck demo_ticks).1) = 1%nat.
Proof.
  split; [|split; vm_compute; reflexivity].
  refine (proj2 (oversized_task_blocks_queues demo_stuck {| st_task := demo_task "old" 3 (100 * 1024 * 1024); st_priority := PHighLevel |} demo_ticks _ _ _ _)).
  - vm_compute. left.
  - vm_compute. reflexivity.
  - vm_compute. discriminate.
  - vm_compute. repeat constructor; discriminate.
Defined.

Definition demo_io_meta (ratio : f64) (size : Z) : SegmentMeta :=
  {| seg_id := "s"; table_id := "t"; status := Active; seg_type := TDelta; columns := []; min_key := []; max_key := []; row_count := 10;
     alive_row_count := 5; del_ratio := ratio; size_bytes := size; created_txn := 1; updated_txn := 1; updated_at := 0; file_paths := [];
     granules := []; has_visibility_columns := true; delta_file_id := None; delta_row_count := 0; delta_l1_bytes := 0 |}.
Lemma maintenance_admission_exact_witness :
  ∃ s' r, enqueue_with_maintenance (demo_io 256) 0 (demo_io_meta (f64_lit 4 10) (2 * 1024 * 1024)) (f64_of_Z 1) PLowLevel = Some (s', r) ∧ r = false ∧ s' = demo_io 256.
Proof.
  destruct (maintenance_admission_exact (demo_io 256) 0 (demo_io_meta (f64_lit 4 10) (2 * 1024 * 1024)) (f64_of_Z 1) PLowLevel) as (s' & r & He & Hr & Hs & _).
  - apply (bool_decide_eq_false_1 _). vm_compute. reflexivity.
  - assert (r = false) as ->.
    { destruct r; [|done]. destruct (proj1 Hr eq_refl) as (ad & [= <-] & Ha). vm_compute in Ha. discriminate. }
    exists s', false. split_and!; [exact He|reflexivity|by apply Hs].
Defined.
