(* ===== verification/NonBlocking.v ===== *)
(** Background compaction of a segment (compaction/nonblocking.rs): the trigger with
    its admission, the run that rewrites a segment, logs it and moves its keys, and
    the executor that the I/O scheduler calls. *)

From stdpp Require Import base gmap strings list pretty.
From S2P Require Import Prelude Kv Arrow Bloom Wal Disk Vortex VisFile SegMeta FlushEngine PkIndex BloomCache WalUtils Cdc Checkpoint Db Insert AccessTracker Compaction PdtMerge TimeTravel HeatTracker QueryFeedback Ecotune Adaptive IoScheduler.

Local Open Scope Z_scope.
Local Open Scope rd_scope.

(** * Data *)

Inductive CompactionStatus := StatusIdle | StatusRunning | StatusPaused | StatusError.
(** The progress is written once, as zero. *)
Record SegmentMergeState := { ms_old_seg_id : string; ms_new_seg_id : string; ms_started_at : Z; ms_progress : f64; ms_status : CompactionStatus }.
Definition SegmentMergeState_new (now_secs : Z) (old_seg_id new_seg_id : string) : SegmentMergeState :=
  {| ms_old_seg_id := old_seg_id; ms_new_seg_id := new_seg_id; ms_started_at := now_secs; ms_progress := f64_of_Z 0; ms_status := StatusRunning |}.

Record NonBlockingConfig := { num_threads : Z; del_ratio_threshold : f64; check_interval_ms : Z; max_concurrent_merges : Z }.
Definition NonBlockingConfig_default : NonBlockingConfig :=
  {| num_threads := 2; del_ratio_threshold := f64_lit 1 10; check_interval_ms := 60000; max_concurrent_merges := 4 |}.

(** The compactor over its database [DB]; the callback's calls are returned. *)
Record NonBlockingCompactor (DB S : Type) := {
  nb_docdb : DB;
  nb_config : NonBlockingConfig;
  nb_merging : gmap string SegmentMergeState;
  nb_io_scheduler : option S;
  nb_access_tracker : option AccessTracker;
  nb_has_callback : bool
}.
Arguments nb_docdb {DB S} _. Arguments nb_config {DB S} _. Arguments nb_merging {DB S} _. Arguments nb_io_scheduler {DB S} _.
Arguments nb_access_tracker {DB S} _. Arguments nb_has_callback {DB S} _. Arguments Build_NonBlockingCompactor {DB S}.

Definition nb_new {DB S} (db : DB) (c : NonBlockingConfig) (io : option S) (tr : option AccessTracker) : NonBlockingCompactor DB S :=
  Build_NonBlockingCompactor db c ∅ io tr false.
Definition set_compaction_callback {DB S} (n : NonBlockingCompactor DB S) (some : bool) : NonBlockingCompactor DB S :=
  Build_NonBlockingCompactor (nb_docdb n) (nb_config n) (nb_merging n) (nb_io_scheduler n) (nb_access_tracker n) some.
Definition set_merging {DB S} (n : NonBlockingCompactor DB S) (m : gmap string SegmentMergeState) : NonBlockingCompactor DB S :=
  Build_NonBlockingCompactor (nb_docdb n) (nb_config n) m (nb_io_scheduler n) (nb_access_tracker n) (nb_has_callback n).
Definition set_docdb {DB S} (n : NonBlockingCompactor DB S) (db : DB) : NonBlockingCompactor DB S :=
  Build_NonBlockingCompactor db (nb_config n) (nb_merging n) (nb_io_scheduler n) (nb_access_tracker n) (nb_has_callback n).
Definition set_io {DB S} (n : NonBlockingCompactor DB S) (io : S) : NonBlockingCompactor DB S :=
  Build_NonBlockingCompactor (nb_docdb n) (nb_config n) (nb_merging n) (Some io) (nb_access_tracker n) (nb_has_callback n).
Definition is_compacting {DB S} (n : NonBlockingCompactor DB S) (id : string) : bool := bool_decide (is_Some (nb_merging n !! id)).
Definition get_merge_state {DB S} (n : NonBlockingCompactor DB S) (id : string) : option SegmentMergeState := nb_merging n !! id.
Definition list_merging `{HashIter} {DB S} (n : NonBlockingCompactor DB S) : list string := (hash_iter (nb_merging n)).*1.
(** [Drop] *)
Definition nb_drop {DB S} (n : NonBlockingCompactor DB S) : NonBlockingCompactor DB S := set_merging n ∅.

Section nonblocking.
Context `{HashIter} `{KVEngine KV} `{!Codec Z} `{!Codec (Z * Z)} `{!Codec (string * Z * Z)} `{!Codec (string * Z * Z * bytes)}
  `{!Codec (list (bytes * Z * Z))} `{!Codec SegmentMeta} `{!Codec TableStats} `{!Codec VersionEntry}
  `{WalLog W} `{CdcWal C} `{BoundedCache M CacheEntry} {B : Type}
  `{Arrow Arr} `{!Batches Arr} `{!VortexLib Arr} `{!Codec ColumnEncoding} `{Crc32}
  `{BloomEnv} `{!Codec SbbFilter} `{!Codec GranuleBloomFilterManager}
  `{BinaryHeap SchedulableTask Q} {X : Type}.
(** The directory, [kv.flush()], the texts of doubles and of a panic. *)
Context (data_dir : string) (kv_flush : KV → Result unit) (f64_text : f64 → string) (panic_text : string).
Abbreviation DB := (WriteDb KV W C M B).
Abbreviation NB := (NonBlockingCompactor DB (CompactionIOScheduler Q X)).

(** * One run *)

(** A computation over the store and the files. *)
Definition on_store {A} (m : st (KV * Disk) RockDuckError A) : wt DB A :=
  wt_lift (io_on (λ s : DB, (wd_kv s, wd_disk s)) (λ s r, set_disk (set_db s (set_kv (wd_db s) r.1)) r.2) m).

Definition pk_entries_of (l : list SkiplistEntry) : list (bytes * Z * Z) :=
  (λ e, (entry_pk e, entry_granule_id e, entry_row_offset e)) <$> l.

(** From the log record on. *)
Definition apply_compaction (id : string) (new_meta : SegmentMeta) (entries : list (bytes * Z * Z)) : wt DB unit :=
  ops <-* wt_lift (io_lift (compaction_ops id (seg_id new_meta) entries));
  _ <-* (match ops with [] => wt_ret tt | _ => on_kv (λ kv, kv_write_batch kv CF_PK_IDX ops) end);
  _ <-* on_kv (λ kv, write_alias kv id (seg_id new_meta));
  _ <-* on_kv (λ kv, put_segment_meta kv new_meta);
  _ <-* on_store (build_segment_version_index (Arr := Arr) data_dir (table_id new_meta) (seg_id new_meta) (cd_name <$> columns new_meta));
  _ <-* kv_reads kv_flush;
  modify (λ s : DB, set_cache s (smc_invalidate (smc_invalidate (wd_cache s) id) (seg_id new_meta))).

(** [uuid] and [now] are read by the rewrite. *)
Definition run_compaction (uuid : string) (now : Z) (id : string) (config : NonBlockingConfig) : wt DB (SegmentMeta * MergeStats) :=
  m <-* kv_reads (λ kv : KV, get_segment_meta kv id);
  match m with
  | None => wt_throw (ECompaction ("Segment " +:+ id +:+ " not found in KV"))
  | Some meta =>
      if row_count meta =? 0 then wt_ret (meta, merge_stats_default) else
      let dead_rows := saturating_sub (row_count meta) (alive_row_count meta) in
      if f64_ltb (f64_div (f64_of_Z dead_rows) (f64_of_Z (row_count meta))) (del_ratio_threshold config)
      then wt_ret (meta, merge_stats_default) else
      let pdt_config := {| min_del_ratio := del_ratio_threshold config; target_granule_rows := 1024 * 1024; parallel_io := true;
                           parallelism := num_threads config |} in
      out <-* on_files (compact_segment (Arr := Arr) f64_text uuid now data_dir id meta pdt_config);
      old_entries <-* kv_reads (λ kv : KV, list_skiplist_entries kv id);
      let entries := pk_entries_of old_entries in
      data <-* wt_lift (io_lift (codec_err (encode entries)));
      _ <-* log_durable OCompaction 0 (PCompaction id (seg_id out.1) data true);
      _ <-* apply_compaction id out.1 entries;
      wt_ret out
  end.

(** * The trigger *)

(** The state after the call and its result; the fresh id is only recorded. *)
Definition trigger (now now_secs : Z) (fresh_id id : string) (n : NB) : option (NB * Result unit) :=
  if is_compacting n id then Some (n, Ok tt) else
  match get_segment_meta (wd_kv (nb_docdb n)) id with
  | Err e => Some (n, Err e)
  | Ok m =>
      if match m with Some meta => f64_ltb (del_ratio meta) (del_ratio_threshold (nb_config n)) | None => false end then Some (n, Ok tt) else
      let rejected n why := Some (set_merging n (delete id (nb_merging n)), Err (ECompaction ("segment " +:+ id +:+ why))) in
      let n := set_merging n (<[id := SegmentMergeState_new now_secs id fresh_id]> (nb_merging n)) in
      match nb_io_scheduler n with
      | None => rejected n " cannot be dispatched: no I/O scheduler is configured"
      | Some io =>
          (** The transaction id is taken also when it is not used. *)
          let '(db, next_txn) := next_txn_id (wd_db (nb_docdb n)) in
          let n := set_docdb n (set_db (nb_docdb n) db) in
          match m with
          | None => rejected n " metadata unavailable before typed maintenance admission"
          | Some meta =>
              let priority := match next_txn with Ok t => from_segment_age (created_txn meta) t | Err _ => PLowLevel end in
              match enqueue_with_maintenance io now meta (f64_of_Z 1) priority with
              | None => None
              | Some (io, true) => Some (set_io n io, Ok tt)
              | Some (io, false) => rejected (set_io n io) " rejected by typed maintenance admission"
              end
          end
      end
  end.
Fixpoint trigger_batch (now now_secs : Z) (fresh_id : string) (ids : list string) (n : NB) : option (NB * Result unit) :=
  match ids with
  | [] => Some (n, Ok tt)
  | id :: ids' =>
      match trigger now now_secs fresh_id id n with
      | Some (n, Ok _) => trigger_batch now now_secs fresh_id ids' n
      | r => r
      end
  end.

(** * The executor *)

(** The panic of a run is caught; the entry in [merging] goes on every path. *)
Definition nb_execute_pdt_merge (uuid : string) (now : Z) (id : string) (n : NB) : option (NB * Callbacks * Result MergeStats) :=
  match run_compaction uuid now id (nb_config n) (nb_docdb n) with
  | None => None
  | Some (db, r) =>
      let n := set_merging (set_docdb n db) (delete id (nb_merging n)) in
      match r with
      | Done (Ok (new_meta, stats)) =>
          Some (n, if nb_has_callback n then [(seg_id new_meta, outcome_from_merge_stats id stats)] else [], Ok stats)
      | Done (Err e) => Some (n, [], Err e)
      | Panic => Some (n, [], Err (ECompaction ("Compaction panicked for seg " +:+ id +:+ panic_text)))
      end
  end.

Definition add_stats (a b : MergeStats) : MergeStats :=
  {| rows_read := rows_read a + rows_read b; rows_written := rows_written a + rows_written b; rows_dropped := rows_dropped a + rows_dropped b;
     bytes_read := bytes_read a + bytes_read b; bytes_written := bytes_written a + bytes_written b;
     granules_created := granules_created a + granules_created b |}.
(** A merge that fails is passed over. *)
Fixpoint nb_small_file_merge_loop (uuid : string) (now : Z) (ids : list string) (n : NB) (total : MergeStats) : option (NB * Callbacks * MergeStats) :=
  match ids with
  | [] => Some (n, [], total)
  | id :: ids' =>
      '(n, cbs, r) ← nb_execute_pdt_merge uuid now id n;
      '(n, cbs', total) ← nb_small_file_merge_loop uuid now ids' n (match r with Ok st => add_stats total st | Err _ => total end);
      Some (n, cbs ++ cbs', total)
  end.
Definition nb_execute_small_file_merge (uuid : string) (now : Z) (ids : list string) (n : NB) : option (NB * Callbacks * Result MergeStats) :=
  '(n, cbs, total) ← nb_small_file_merge_loop uuid now ids n merge_stats_default; Some (n, cbs, Ok total).

(** Nothing is rewritten in either case. *)
Definition nb_execute_query_driven (id : string) (n : NB) : Result bool :=
  match nb_access_tracker n with
  | None => Ok false
  | Some tracker => if negb (should_range_reduce tracker id) then Ok false else Ok false
  end.
End nonblocking.

(** * Proofs *)

Lemma find_byte_found l1 l2 b : ∃ i, find_byte (l1 ++ b :: l2) b = Some i ∧ (i ≤ length l1)%nat.
Proof.
  induction l1 as [|x l1 (i & IH & Hi)]; cbn; [rewrite Z.eqb_refl; eauto with lia|].
  destruct (x =? b); [eauto with lia|]. rewrite IH. exists (S i). split; [done|lia].
Qed.
(** Every key of the index parses, also for a segment name with separators. *)
Lemma parse_pk_index_key_total seg g pk : parse_pk_index_key (pk_index_key seg g pk) ≠ None.
Proof.
  unfold parse_pk_index_key. rewrite bool_decide_true by (by eexists). cbn [negb].
  change (drop 7 (pk_index_key seg g pk)) with (as_bytes seg ++ colon :: (to_le_bytes 4 g ++ [colon] ++ pk)).
  destruct (find_byte_found (as_bytes seg) (to_le_bytes 4 g ++ [colon] ++ pk) colon) as (i & -> & Hi). cbn [mbind option_bind].
  rewrite (proj2 (Z.ltb_ge _ _)); [done|].
  unfold zlen. rewrite length_drop, length_app. cbn [length]. rewrite length_app, to_le_bytes_length. lia.
Qed.
Lemma collect_entries_decode `{!Codec (string * Z * Z * bytes)} l es k v :
  collect_entries l = Ok es → (k, v) ∈ l → parse_pk_index_key k ≠ None → ∃ x, decode (A := string * Z * Z * bytes) v = Ok x.
Proof.
  revert es. induction l as [|[k' v'] l IH]; intros es; cbn; [intros _ []%elem_of_nil|].
  destruct (parse_pk_index_key k') as [[[? ?] pk]|] eqn:Ep.
  - destruct (decode v') as [x|] eqn:Ed; cbn; [|done]. destruct (collect_entries l) as [r|]; cbn; [|done].
    intros _ [[= -> ->]|Hin]%elem_of_cons Hp; eauto.
  - intros Hc [[= -> ->]|Hin]%elem_of_cons Hp; [done|eauto].
Qed.
(** Listing the keys of a segment fails once one of granule 0 is there. *)
Lemma list_entries_fails `{KVEngineLaws KV} `{!Codec (string * Z * Z)} `{!Codec (string * Z * Z * bytes)} (kv : KV) id pk (x : string * Z * Z) v es :
  (∀ (x : string * Z * Z) v, encode x = Ok v → ∃ e, decode (A := string * Z * Z * bytes) v = Err e) →
  kv_abs kv CF_PK_IDX !! pk_index_key id 0 pk = Some v → encode x = Ok v → list_skiplist_entries kv id ≠ Ok es.
Proof.
  intros Hshort Hk Hx. unfold list_skiplist_entries. destruct (kv_prefix _ _ _) as [l|] eqn:El; cbn; [|done]. intros Hc.
  apply kv_prefix_spec in El. destruct (Hshort _ _ Hx) as [e He].
  destruct (collect_entries_decode l es (pk_index_key id 0 pk) v Hc) as [y Hy]; [|by apply parse_pk_index_key_total|congruence].
  rewrite El. apply list_elem_of_filter. split; [|by apply elem_of_map_to_list].
  do 3 apply prefix_app. by eexists.
Qed.

Section nonblocking_proofs.
Context `{HashIter} `{KVEngineLaws KV} `{!Codec Z} `{!Codec (Z * Z)} `{!Codec (string * Z * Z)} `{!Codec (string * Z * Z * bytes)}
  `{!Codec (list (bytes * Z * Z))} `{!Codec SegmentMeta} `{!Codec TableStats} `{!Codec VersionEntry}
  `{WalLog W} `{CdcWal C} `{BoundedCache M CacheEntry} {B : Type}
  `{Arrow Arr} `{!Batches Arr} `{!VortexLib Arr} `{!Codec ColumnEncoding} `{Crc32}
  `{BloomEnv} `{!Codec SbbFilter} `{!Codec GranuleBloomFilterManager}
  `{!BinaryHeap SchedulableTask Q} `{!BinaryHeapLaws SchedulableTask Q} {X : Type}.
Context (data_dir : string) (kv_flush : KV → Result unit) (f64_text : f64 → string) (panic_text : string).
Abbreviation DB := (WriteDb KV W C M B).
Abbreviation NB := (NonBlockingCompactor DB (CompactionIOScheduler Q X)).
Implicit Types (s : DB) (n : NB).

(** C29: A segment with a key of granule 0 is never compacted.  The run lists the
    segment's keys with the four-field format of the lookup records while the index
    stores three fields, so a run that returns is one that found nothing to do: the
    database is as it was and the metadata returned is the old one. *)
Theorem segment_with_keys_never_compacted s s' uuid now id config pk (x : string * Z * Z) v out :
  (∀ (x : string * Z * Z) v, encode x = Ok v → ∃ e, decode (A := string * Z * Z * bytes) v = Err e) →
  kv_abs (wd_kv s) CF_PK_IDX !! pk_index_key id 0 pk = Some v → encode x = Ok v →
  wt_returns (run_compaction (Arr := Arr) data_dir kv_flush f64_text uuid now id config) s out s' →
  s' = s ∧ get_segment_meta (wd_kv s) id = Ok (Some out.1) ∧ out.2 = merge_stats_default.
Proof.
  intros Hshort Hk Hx Hr. unfold run_compaction in Hr. apply wt_returns_bind in Hr as (m & s1 & Hm & Hr).
  unfold wt_returns, kv_reads in Hm. injection Hm as <- Hm. destruct m as [meta|]; [|discriminate Hr].
  destruct (row_count meta =? 0); [by apply wt_returns_ret in Hr as [-> ->]|].
  destruct (f64_ltb _ _); [by apply wt_returns_ret in Hr as [-> ->]|]. exfalso.
  apply wt_returns_bind in Hr as (o & s1 & Ho & Hr). apply wt_returns_lift, io_returns_on in Ho as (d & _ & ->).
  apply wt_returns_bind in Hr as (es & s2 & He & _). unfold wt_returns, kv_reads in He. injection He as _ He.
  by apply (list_entries_fails _ _ _ _ _ _ Hshort Hk Hx) in He.
Qed.

Lemma execute_pdt_merge_merging uuid now id n n' cbs r :
  nb_execute_pdt_merge (Arr := Arr) data_dir kv_flush f64_text panic_text uuid now id n = Some (n', cbs, r) →
  nb_merging n' = delete id (nb_merging n) ∧
  ∃ out, run_compaction (Arr := Arr) data_dir kv_flush f64_text uuid now id (nb_config n) (nb_docdb n) = Some (nb_docdb n', out) ∧
    (is_ok r = true ↔ ∃ x, out = Done (Ok x)).
Proof.
  unfold nb_execute_pdt_merge. destruct (run_compaction _ _ _ _ _ _ _ _) as [[db o]|]; [|done]. intros Ho.
  assert (nb_merging n' = delete id (nb_merging n) ∧ nb_docdb n' = db ∧ (is_ok r = true ↔ ∃ x, o = Done (Ok x))) as (Hm & <- & Hr).
  { destruct o as [[[new_meta stats]|e]|]; injection Ho as <- _ <-; cbn; naive_solver. }
  split; [done|]. by exists o.
Qed.

(** The compactor's threshold on the deleted share of a segment. *)
Definition below_threshold n (meta : SegmentMeta) : bool := f64_ltb (del_ratio meta) (del_ratio_threshold (nb_config n)).
(** The scheduler's gate. *)
Definition lets_through (io : CompactionIOScheduler Q X) (meta : SegmentMeta) : Prop :=
  ∃ ad, io_adaptive io = Some ad ∧ admitted ad meta = true.

(** What a trigger leaves and why: nothing changed, or the segment marked and its
    task queued; after an error the marks as they were. *)
Definition trigger_post (now_secs : Z) (fresh_id id : string) n n' (r : Result unit) : Prop :=
  let found := get_segment_meta (wd_kv (nb_docdb n)) id in
  match r with
  | Ok _ =>
      (n' = n ∧ (is_compacting n id = true ∨ ∃ meta, found = Ok (Some meta) ∧ below_threshold n meta = true)) ∨
      (is_compacting n id = false ∧ nb_merging n' = <[id := SegmentMergeState_new now_secs id fresh_id]> (nb_merging n) ∧
       ∃ io io' meta task, nb_io_scheduler n = Some io ∧ nb_io_scheduler n' = Some io' ∧ found = Ok (Some meta) ∧
         below_threshold n meta = false ∧ lets_through io meta ∧
         queued io' ≡ₚ task :: queued io ∧ ct_seg_id (st_task task) = seg_id meta ∧ ct_size_bytes (st_task task) = size_bytes meta)
  | Err _ => is_compacting n id = false ∧ nb_merging n' = nb_merging n ∧ nb_io_scheduler n' = nb_io_scheduler n ∧
      (is_ok found = false ∨ nb_io_scheduler n = None ∨ found = Ok None ∨
       ∃ io meta, nb_io_scheduler n = Some io ∧ found = Ok (Some meta) ∧ ¬ lets_through io meta) ∧
      ∀ meta, found = Ok (Some meta) → below_threshold n meta = false
  end.

Lemma enqueue_gate io now meta p :
  (∃ io' task, enqueue_with_maintenance io now meta (f64_of_Z 1) p = Some (io', true) ∧ lets_through io meta ∧
     queued io' ≡ₚ task :: queued io ∧ ct_seg_id (st_task task) = seg_id meta ∧ ct_size_bytes (st_task task) = size_bytes meta) ∨
  (enqueue_with_maintenance io now meta (f64_of_Z 1) p = Some (io, false) ∧ ¬ lets_through io meta).
Proof.
  pose proof (enqueue_with_maintenance_cases io now meta (f64_of_Z 1) p) as Hc. unfold lets_through.
  specialize (Hc ltac:(done)). destruct (io_adaptive io) as [ad|]; [destruct (admitted ad meta) eqn:Ea|].
  - left. destruct Hc as (task & -> & Hs & Hz & Hb & _). eexists _, _. split_and!; [done|by exists ad|by apply io_enqueue_queued|done|done].
  - right. split; [done|]. intros (ad' & [= <-] & ?). congruence.
  - right. split; [done|]. by intros (ad' & ? & _).
Qed.

Lemma trigger_marks now now_secs fresh_id id n :
  ∃ n' r, trigger now now_secs fresh_id id n = Some (n', r) ∧ nb_config n' = nb_config n ∧ trigger_post now_secs fresh_id id n n' r.
Proof.
  unfold trigger. destruct (is_compacting n id) eqn:Ec; [eexists _, _; split_and!; [done|done|left; auto]|].
  pose proof Ec as Ei%bool_decide_eq_false%eq_None_not_Some. unfold trigger_post. rewrite Ec.
  assert (∀ st, delete id (<[id:=st]> (nb_merging n)) = nb_merging n) as Hd by (intros; by rewrite delete_insert_id).
  destruct (get_segment_meta _ id) as [m|e]; [|eexists _, _; split_and!; [done..|naive_solver]].
  destruct (match m with Some meta => _ | None => false end) eqn:Eb.
  { destruct m as [meta|]; [|done]. eexists _, _. split_and!; [done|done|]. left. split; [done|]. right. by exists meta. }
  cbn -[f64_of_Z]. destruct (nb_io_scheduler n) as [io|] eqn:Es; [|eexists _, _; split_and!; [done|done|cbn; naive_solver]].
  destruct (next_txn_id _) as [db t]. destruct m as [meta|]; [|eexists _, _; split_and!; [done|done|cbn; naive_solver]].
  destruct (enqueue_gate io now meta match t with Ok t => from_segment_age (created_txn meta) t | Err _ => PLowLevel end)
    as [(io' & task & -> & Hl & Hq)|[-> Hl]]; eexists _, _; (split_and!; [done|done|]); cbn.
  - right. split_and!; [done|done|]. exists io, io', meta, task. by destruct Hq as (? & ? & ?).
  - split_and!; [done|done|done| |naive_solver]. do 3 right. by exists io, meta.
Qed.

(** C30: the marks of the segments under merge.  A trigger always returns.  It returns
    [Ok] with nothing changed exactly when the segment is already under merge or its
    deleted share is below the threshold; it returns [Ok] with the segment marked, and
    one task of this segment and its size added to the scheduler's queues, when the
    scheduler's gate lets the segment through; otherwise, because the metadata cannot be
    read or is missing, there is no scheduler or the gate refuses, it fails and leaves
    the marks and the scheduler as they were.  A merge of the segment that ends is the
    run of the compaction over the database the trigger left, also when that failed or
    panicked, and takes this segment's mark away: the marks of all other segments are
    those from before the trigger. *)
Theorem merging_marks_exact now now_secs fresh_id id n :
  ∃ n' r, trigger now now_secs fresh_id id n = Some (n', r) ∧ trigger_post now_secs fresh_id id n n' r ∧
  ∀ uuid now' n'' cbs r', nb_execute_pdt_merge (Arr := Arr) data_dir kv_flush f64_text panic_text uuid now' id n' = Some (n'', cbs, r') →
    is_compacting n'' id = false ∧ (∀ j, j ≠ id → get_merge_state n'' j = get_merge_state n j) ∧
    ∃ out, run_compaction (Arr := Arr) data_dir kv_flush f64_text uuid now' id (nb_config n) (nb_docdb n') = Some (nb_docdb n'', out) ∧
      (is_ok r' = true ↔ ∃ x, out = Done (Ok x)).
Proof.
  destruct (trigger_marks now now_secs fresh_id id n) as (n' & r & Ht & <- & Hs). exists n', r. split_and!; [done|done|].
  intros uuid now' n'' cbs r' [Hm Hrun]%execute_pdt_merge_merging. split_and!; [| |exact Hrun]; unfold is_compacting, get_merge_state; rewrite Hm.
  - rewrite lookup_delete_eq. by apply bool_decide_eq_false, is_Some_None.
  - intros j Hj. rewrite lookup_delete_ne by done.
    destruct r; [destruct Hs as [[-> _]|(_ & -> & _)]|destruct Hs as (_ & -> & _)]; [done|by rewrite lookup_insert_ne|done].
Qed.

(** The executor answers a small-file task with [Ok] whatever its merges did. *)
Lemma small_file_merge_always_ok uuid now ids n r n' cbs :
  nb_execute_small_file_merge (Arr := Arr) data_dir kv_flush f64_text panic_text uuid now ids n = Some (n', cbs, r) → is_ok r = true.
Proof. unfold nb_execute_small_file_merge. destruct (nb_small_file_merge_loop _ _ _ _ _ _ _ _ _) as [[[]]|]; [|done]. by intros [= _ _ <-]. Qed.
End nonblocking_proofs.

(** * Witnesses *)

Section witnesses.
(** Four fields carry a tag that three fields lack. *)
Definition tagged_codec4 : Codec (string * Z * Z * bytes) :=
  {| encode x := Ok (2 :: pos_bits (countable.encode x));
     decode b := match b with
                 | 2 :: b' => match countable.decode (bits_pos b') with Some x => Ok x | None => Err (CDecode "code") end
                 | _ => Err (CDecode "tag")
                 end |}.
Lemma tagged_codec4_short (x : string * Z * Z) v :
  @encode _ pk_codec3 x = Ok v → ∃ e, @decode _ tagged_codec4 v = Err e.
Proof. intros [= <-]. destruct (countable.encode x); cbn; eauto. Defined.

Definition demo_dead (id : string) (rows alive : Z) (ratio : f64) : SegmentMeta :=
  set_del_stats (SegmentMeta_new 7 id "t" [ColumnDef_new "v" Meta.Int64]) rows alive ratio.
#[local] Instance w_z : Codec Z := countable_codec Z.
#[local] Instance w_zz : Codec (Z * Z) := countable_codec (Z * Z).
#[local] Instance w_3 : Codec (string * Z * Z) := pk_codec3.
#[local] Instance w_4 : Codec (string * Z * Z * bytes) := tagged_codec4.
#[local] Instance w_es : Codec (list (bytes * Z * Z)) := countable_codec _.
#[local] Instance w_meta : Codec SegmentMeta :=
  table_codec [demo_dead "s" 20 19 (f64_lit 5 100); demo_io_meta (f64_lit 4 10) (2 * 1024 * 1024); demo_dead "s" 20 4 (f64_lit 8 10)].
#[local] Instance w_stats : Codec TableStats := table_codec [demo_stats 3].
#[local] Instance w_version : Codec VersionEntry := {| encode _ := Err (CEncode "none"); decode _ := Err (CDecode "none") |}.
#[local] Instance w_sbb : Codec SbbFilter := {| encode _ := Err (CEncode "none"); decode _ := Err (CDecode "none") |}.
#[local] Instance w_gbm : Codec GranuleBloomFilterManager := {| encode _ := Err (CEncode "none"); decode _ := Err (CDecode "none") |}.
#[local] Instance w_enc : Codec ColumnEncoding := sample_encoding_codec.
#[local] Existing Instance sample_crc.
#[local] Existing Instance sample_env.
#[local] Existing Instance demo_ipc_lib.

(** A segment with one key of granule 0 in the store. *)
Definition demo_nb_db (meta : SegmentMeta) : WriteDb MemKV MemLog (list CdcOp) (MapCache CacheEntry) (list bytes) :=
  let s := demo_write_db [] in
  let kv := (put_pk_index_double (put_segment_meta mem_empty meta).1 demo_pk "s" 0 0).1 in
  set_disk (set_db s (set_kv (wd_db s) kv)) (new_disk demo_fs).
Abbreviation demo_run := (run_compaction (Arr := ListArray) "d" (λ _, Ok tt) demo_text "u" 1 "s" NonBlockingConfig_default).

(** One deleted row in twenty: the run has nothing to do. *)
Lemma segment_with_keys_never_compacted_witness :
  ∃ s' out, wt_returns demo_run (demo_nb_db (demo_dead "s" 20 19 (f64_lit 5 100))) out s' ∧ s' = demo_nb_db (demo_dead "s" 20 19 (f64_lit 5 100)).
Proof.
  assert (returned demo_run (demo_nb_db (demo_dead "s" 20 19 (f64_lit 5 100))) = Some true) as Hr by (vm_compute; reflexivity).
  unfold returned in Hr. destruct (demo_run _) as [[s' [[out|]|]]|] eqn:E; try done. exists s', out. split; [exact E|].
  eapply (segment_with_keys_never_compacted "d" (λ _, Ok tt) demo_text _ s' "u" 1 "s" NonBlockingConfig_default demo_pk ("s"%string, 0, 0) _ out);
    [exact tagged_codec4_short|vm_compute; reflexivity|reflexivity|exact E].
Defined.
(** Sixteen in twenty: the run rewrites the files and then fails on the keys. *)
Example dead_segment_fails : returned demo_run (demo_nb_db (demo_dead "s" 20 4 (f64_lit 8 10))) = Some false.
Proof. vm_compute. reflexivity. Qed.

Definition demo_compactor (meta : SegmentMeta) : NonBlockingCompactor (WriteDb MemKV MemLog (list CdcOp) (MapCache CacheEntry) (list bytes)) demo_sched :=
  nb_new (demo_nb_db meta) NonBlockingConfig_default (Some (demo_io 256)) None.
Definition demo_triggered (meta : SegmentMeta) := trigger 0 0 "f" "s" (demo_compactor meta).

(** A segment with most of its rows deleted is queued and marked; the merge that
    then fails takes the mark away. *)
Lemma merging_marks_exact_witness :
  ∃ n' n'' cbs r, demo_triggered (demo_dead "s" 20 4 (f64_lit 8 10)) = Some (n', Ok tt) ∧ is_compacting n' "s" = true ∧
    nb_execute_pdt_merge (Arr := ListArray) "d" (λ _, Ok tt) demo_text "" "u" 1 "s" n' = Some (n'', cbs, r) ∧ is_compacting n'' "s" = false.
Proof.
  destruct (merging_marks_exact (Arr := ListArray) "d" (λ _, Ok tt) demo_text "" 0 0 "f" "s" (demo_compactor (demo_dead "s" 20 4 (f64_lit 8 10))))
    as (n' & r0 & E & _ & Hx).
  assert ((λ p, (is_compacting p.1 "s", p.2)) <$> demo_triggered (demo_dead "s" 20 4 (f64_lit 8 10)) = Some (true, Ok tt)) as Ht by (vm_compute; reflexivity).
  unfold demo_triggered in Ht |- *. rewrite E in Ht |- *. cbn in Ht. injection Ht as Hc ->.
  destruct (nb_execute_pdt_merge (Arr := ListArray) "d" (λ _, Ok tt) demo_text "" "u" 1 "s" n') as [[[n'' cbs] r]|] eqn:Ex.
  - exists n', n'', cbs, r. split_and!; [done|done|done|]. exact (proj1 (Hx "u" 1 n'' cbs r Ex)).
  - exfalso. clear Hx. vm_compute in E. injection E as <-. vm_compute in Ex. discriminate.
Defined.
(** Four in ten is over the compactor's threshold and under the gate's: the
    trigger answers with an error, and a transaction id is gone. *)
Example trigger_rejected_by_gate :
  (λ p, (is_ok p.2, is_compacting p.1 "s", txn_counter (wd_db (nb_docdb p.1)))) <$>
    demo_triggered (demo_io_meta (f64_lit 4 10) (2 * 1024 * 1024)) = Some (false, false, 4).
Proof. vm_compute. reflexivity. Qed.
End witnesses.
