(* ===== verification/RouteCost.v ===== *)
(** The parts of the query router that decide without feedback (query/routing/): its
    configuration, the rules (tier1.rs), the cost model (cost.rs), the plan encoder
    (plan_encoder.rs) and the linear model (ml.rs). *)

From stdpp Require Import base gmap strings list pretty.
From S2P Require Import Prelude Disk SegMeta Scan HeatTracker Ecotune Adaptive.
From Stdlib Require Import SpecFloat.

Local Open Scope Z_scope.

(** * Floats *)

Definition f64_leb (x y : f64) : bool := SFleb x y.
Definition f64_eqb (x y : f64) : bool := SFeqb x y.
Definition f64_abs (x : f64) : f64 := SFabs x.
Definition f64_sqrt (x : f64) : f64 := SFsqrt 53 1024 x.
Definition is_nan (x : f64) : bool := bool_decide (x = S754_nan).
(** [iter().sum::<f64>()] and the mean *)
Definition f64_sum (l : list f64) : f64 := foldl f64_add (S754_zero false) l.
Definition f64_mean (l : list f64) : f64 := f64_div (f64_sum l) (f64_of_Z (zlen l)).

(** An [f32] is an IEEE 754 binary32 datum. *)
Abbreviation f32 := spec_float.
Definition f32_add (x y : f32) : f32 := SFadd 24 128 x y.
Definition f32_sub (x y : f32) : f32 := SFsub 24 128 x y.
Definition f32_mul (x y : f32) : f32 := SFmul 24 128 x y.
Definition f32_div (x y : f32) : f32 := SFdiv 24 128 x y.
Definition f32_of_Z (z : Z) : f32 := binary_normalize 24 128 z 0 false.
Definition f32_lit (n d : Z) : f32 := f32_div (f32_of_Z n) (f32_of_Z d).
Definition round_to (prec emax : Z) (x : spec_float) : spec_float :=
  match x with S754_finite s m e => binary_normalize prec emax (if s then Z.neg m else Z.pos m) e s | _ => x end.
(** [x as f32] and [x as f64] *)
Definition f64_as_f32 (x : f64) : f32 := round_to 24 128 x.
Definition f32_as_f64 (x : f32) : f64 := round_to 53 1024 x.
(** [f32::from_le_bytes] and [is_finite] *)
Definition f32_from_bits (n : Z) : f32 :=
  let s := Z.testbit n 31 in
  let e := Z.land (Z.shiftr n 23) 255 in
  let m := Z.land n (2 ^ 23 - 1) in
  if e =? 255 then (if m =? 0 then S754_infinity s else S754_nan)
  else if e =? 0 then (if m =? 0 then S754_zero s else S754_finite s (Z.to_pos m) (-149))
  else S754_finite s (Z.to_pos (m + 2 ^ 23)) (e - 150).
Definition is_finite (x : f32) : bool := match x with S754_zero _ | S754_finite _ _ _ => true | _ => false end.

(** [log10] and [ln_1p], whose rounding the language leaves open. *)
Class FloatLogs := { f64_log10 : f64 → f64; f64_ln_1p : f64 → f64 }.

(** * Configuration (config.rs) *)

Record MlRoutingPromotionGate := {
  live_authority_enabled : bool;
  min_measured_samples : Z;
  min_shadow_agreement_ratio : f64;
  max_disagreement_ratio : f64;
  shadow_sample_window : Z
}.
Definition MlRoutingPromotionGate_default : MlRoutingPromotionGate :=
  {| live_authority_enabled := false; min_measured_samples := 32; min_shadow_agreement_ratio := f64_lit 80 100;
     max_disagreement_ratio := f64_lit 20 100; shadow_sample_window := 500 |}.
Inductive ShadowTimingPolicy := PolicyDisabled | SyntheticEstimate | BoundedDualPathPolicy.
Definition policy_is_measured (p : ShadowTimingPolicy) : bool := match p with BoundedDualPathPolicy => true | _ => false end.
Definition policy_is_authoritative (p : ShadowTimingPolicy) : bool := false.

(** The configuration without the rollout switches of exports and sinks, which no
    decision reads; the checkpoint interval and the inference timeout are not read
    either. *)
Record RouterConfig := {
  point_selectivity_thresh : f64;
  full_scan_selectivity_thresh : f64;
  delta_overload_thresh : Z;
  aggregate_selectivity_thresh : f64;
  cfg_cpu_cost_per_row : f64;
  cfg_io_cost_per_byte : f64;
  cfg_delta_lookup_cost : f64;
  cfg_merge_overhead_factor : f64;
  cfg_columnar_compression_ratio : f64;
  ml_enabled : bool;
  ml_confidence_thresh : f64;
  ml_inference_timeout_ms : Z;
  ml_weight_path : string;
  ml_promotion_gate : MlRoutingPromotionGate;
  selectivity_window_size : Z;
  cost_feedback_weight : f64;
  checkpoint_interval_secs : Z;
  max_feedback_entries : Z;
  shadow_sample_rate : f64;
  shadow_timing_policy : ShadowTimingPolicy;
  cooperative_runtime_default : SliceBudget;
  ml_export_threshold : Z
}.
Definition RouterConfig_default : RouterConfig := {|
  point_selectivity_thresh := f64_lit 1 100; full_scan_selectivity_thresh := f64_lit 10 100; delta_overload_thresh := 100;
  aggregate_selectivity_thresh := f64_lit 10 100; cfg_cpu_cost_per_row := f64_of_Z 1; cfg_io_cost_per_byte := f64_lit 1 1000;
  cfg_delta_lookup_cost := f64_of_Z 10; cfg_merge_overhead_factor := f64_lit 15 10; cfg_columnar_compression_ratio := f64_lit 5 10;
  ml_enabled := false; ml_confidence_thresh := f64_lit 7 10; ml_inference_timeout_ms := 5; ml_weight_path := "assets/tree_cnn_weights.bin";
  ml_promotion_gate := MlRoutingPromotionGate_default; selectivity_window_size := 1000; cost_feedback_weight := f64_lit 3 10;
  checkpoint_interval_secs := 300; max_feedback_entries := 10000; shadow_sample_rate := f64_lit 5 100;
  shadow_timing_policy := BoundedDualPathPolicy; cooperative_runtime_default := {| max_segments_per_slice := 8; max_slice_ms := 25 |};
  ml_export_threshold := 1000
|}.

(** * Rules (tier1.rs) *)

#[export] Instance QueryKind_eq_dec : EqDecision QueryKind.
Proof. solve_decision. Defined.

Definition tier1_decide (params : RouterParams) (cfg : RouterConfig) : option RouteDecision :=
  let sel := rpm_estimated_selectivity params in
  if bool_decide (rpm_kind params = KPointGet) then Some RDeltaStoreOnly
  else if negb (rpm_has_pending_writes params) && (rpm_delta_count params =? 0) then Some RVortexOnly
  else if f64_ltb sel (point_selectivity_thresh cfg) then Some RDeltaStoreOnly
  else if f64_ltb (full_scan_selectivity_thresh cfg) sel then Some RVortexOnly
  else if bool_decide (rpm_kind params = KAggregate) && f64_ltb (aggregate_selectivity_thresh cfg) sel then Some RVortexOnly
  else if delta_overload_thresh cfg <? rpm_delta_count params then Some RMerge
  else None.

(** * Cost model (cost.rs, mod.rs) *)

Definition avg_row_bytes (st : RouterTableStats) : f64 :=
  if rs_row_count st =? 0 then f64_of_Z 16 else f64_div (f64_of_Z (rs_total_bytes st)) (f64_of_Z (rs_row_count st)).
Definition stats_compression_ratio (st : RouterTableStats) : f64 :=
  if rs_total_bytes st =? 0 then f64_lit 5 10 else f64_div (f64_of_Z (rs_compressed_bytes st)) (f64_of_Z (rs_total_bytes st)).
Definition estimated_scanned_rows (st : RouterTableStats) (selectivity : f64) : Z :=
  let sel := if is_nan selectivity then f64_lit 1 10 else f64_clamp selectivity (f64_of_Z 0) (f64_of_Z 1) in
  f64_as_u64 (f64_mul (f64_of_Z (rs_row_count st)) sel).

(** The checkpoint has the same fields ([to_checkpoint] copies them). *)
Record CostParams := {
  cpu_cost_per_row : f64;
  io_cost_per_byte : f64;
  delta_lookup_cost : f64;
  merge_overhead_factor : f64;
  columnar_compression_ratio : f64;
  error_history : list f64;
  max_history : Z
}.
Definition cost_from_config (cfg : RouterConfig) : CostParams :=
  {| cpu_cost_per_row := cfg_cpu_cost_per_row cfg; io_cost_per_byte := cfg_io_cost_per_byte cfg; delta_lookup_cost := cfg_delta_lookup_cost cfg;
     merge_overhead_factor := cfg_merge_overhead_factor cfg; columnar_compression_ratio := cfg_columnar_compression_ratio cfg;
     error_history := []; max_history := 500 |}.

Definition cpu_min : f64 := f64_lit 1 1000.
Definition cpu_max : f64 := f64_of_Z 100.
Definition cost_update (p : CostParams) (estimated actual : f64) (rows : Z) : CostParams :=
  if (rows =? 0) || f64_leb estimated (f64_of_Z 0) then p else
  let error := f64_sub actual estimated in
  let history := error_history p ++ [f64_div error estimated] in
  let history := if max_history p <? zlen history then drop (length history / 2) history else history in
  let avg_error := f64_mean history in
  let learning_rate := f64_div (f64_lit 1 1000) (f64_sqrt (f64_add (f64_of_Z 1) (f64_mul (f64_of_Z rows) (f64_lit 1 1000000)))) in
  let adjustment := f64_mul avg_error learning_rate in
  let io_weight := f64_lit 1 10000 in
  {| cpu_cost_per_row := f64_clamp (f64_mul (cpu_cost_per_row p) (f64_add (f64_of_Z 1) adjustment)) cpu_min cpu_max;
     io_cost_per_byte := io_cost_per_byte p; delta_lookup_cost := delta_lookup_cost p; merge_overhead_factor := merge_overhead_factor p;
     columnar_compression_ratio :=
       if f64_ltb (f64_of_Z 0) error then f64_min (f64_add (columnar_compression_ratio p) io_weight) (f64_of_Z 1)
       else f64_max (f64_sub (columnar_compression_ratio p) io_weight) (f64_lit 1 10);
     error_history := history; max_history := max_history p |}.
Definition reset_history (p : CostParams) : CostParams :=
  {| cpu_cost_per_row := cpu_cost_per_row p; io_cost_per_byte := io_cost_per_byte p; delta_lookup_cost := delta_lookup_cost p;
     merge_overhead_factor := merge_overhead_factor p; columnar_compression_ratio := columnar_compression_ratio p;
     error_history := []; max_history := max_history p |}.
Definition blend (estimated observed weight : f64) : f64 :=
  f64_add (f64_mul estimated (f64_sub (f64_of_Z 1) weight)) (f64_mul observed weight).
Definition apply_checkpoint (c : CostParams) : CostParams :=
  {| cpu_cost_per_row := f64_clamp (cpu_cost_per_row c) cpu_min cpu_max; io_cost_per_byte := io_cost_per_byte c;
     delta_lookup_cost := delta_lookup_cost c; merge_overhead_factor := merge_overhead_factor c;
     columnar_compression_ratio := f64_clamp (columnar_compression_ratio c) (f64_lit 1 10) (f64_of_Z 1);
     error_history := error_history c; max_history := Z.max (max_history c) 1 |}.

Definition cpu_cost (rows : Z) (cpu_per_row : f64) : f64 := f64_mul (f64_of_Z rows) cpu_per_row.
Definition io_cost (rows : Z) (bytes_per_row io_per_byte : f64) : f64 := f64_mul (f64_mul (f64_of_Z rows) bytes_per_row) io_per_byte.
Definition delta_scan_cost (rows : Z) (st : RouterTableStats) (p : CostParams) : f64 :=
  f64_add (cpu_cost rows (cpu_cost_per_row p)) (io_cost rows (avg_row_bytes st) (io_cost_per_byte p)).
Definition vortex_scan_cost (rows : Z) (st : RouterTableStats) (p : CostParams) : f64 :=
  f64_add (cpu_cost rows (f64_mul (cpu_cost_per_row p) (f64_lit 15 10)))
          (io_cost rows (f64_mul (avg_row_bytes st) (columnar_compression_ratio p)) (io_cost_per_byte p)).
Definition merge_cost (delta_count vortex_rows : Z) (st : RouterTableStats) (p : CostParams) : f64 :=
  f64_add (f64_mul (f64_of_Z delta_count) (delta_lookup_cost p)) (f64_mul (vortex_scan_cost vortex_rows st p) (merge_overhead_factor p)).
Definition argmin_path (delta_cost vortex_cost merge_cost : f64) : RouteDecision * f64 :=
  if f64_leb delta_cost vortex_cost && f64_leb delta_cost merge_cost then (RDeltaStoreOnly, delta_cost)
  else if f64_leb vortex_cost merge_cost then (RVortexOnly, vortex_cost)
  else (RMerge, merge_cost).

(** * Features (ml.rs, plan_encoder.rs) *)

Definition FEATURE_DIM : nat := 25.
Definition OP_TYPE_COUNT : nat := 20.
(** The kinds the encoder produces, of the twenty of [OpType], with their numbers. *)
Definition op_type_index (k : QueryKind) : nat :=
  match k with KFullScan => 0 | KPointGet => 1 | KRangeScan => 2 | KAggregate => 4 end.
Definition encode_op_type (idx : nat) : list f32 :=
  if (idx <? OP_TYPE_COUNT)%nat then <[idx := f32_of_Z 1]> (replicate OP_TYPE_COUNT (S754_zero false)) else replicate OP_TYPE_COUNT (S754_zero false).
Definition unit_f32 (x : f64) : f32 := f64_as_f32 (f64_clamp x (f64_of_Z 0) (f64_of_Z 1)).
Section features.
Context `{FloatMath} `{FloatLogs}.
Definition log_scale (n max : Z) : f32 := unit_f32 (f64_div (f64_log2 (f64_add (f64_of_Z n) (f64_of_Z 1))) (f64_log2 (f64_of_Z max))).
Definition features_from_query (op : nat) (selectivity : f64) (row_count num_filters num_columns delta_count : Z) : list f32 :=
  encode_op_type op ++
  [unit_f32 selectivity; unit_f32 (f64_div (f64_log10 (f64_add (f64_of_Z row_count) (f64_of_Z 1))) (f64_of_Z 9));
   log_scale num_filters 20; log_scale num_columns 64; log_scale delta_count 1024].
Definition count_filters_from_selectivity (sel : f64) : Z :=
  if f64_leb (f64_lit 9 10) sel then 0 else if f64_leb (f64_lit 5 10) sel then 1 else if f64_leb (f64_lit 1 10) sel then 2
  else if f64_leb (f64_lit 1 100) sel then 3 else if f64_leb (f64_lit 1 1000) sel then 4 else 5.
Definition encode_plan (params : RouterParams) : list f32 :=
  features_from_query (op_type_index (rpm_kind params)) (rpm_estimated_selectivity params) (rs_row_count (rpm_stats params))
    (count_filters_from_selectivity (rpm_estimated_selectivity params)) (zlen (rpm_columns params)) (rpm_delta_count params).
End features.
(** [from_slice]: cut or padded with zeros. *)
Definition features_from_slice (values : list f32) : list f32 := resize FEATURE_DIM (S754_zero false) values.
Definition encode_aggregate (nodes : list (list f32)) : list f32 :=
  let sum := foldl (zip_with f32_add) (replicate 25 (S754_zero false)) nodes in
  match nodes with [] => sum | _ => (λ v, f32_div v (f32_of_Z (zlen nodes))) <$> sum end.

(** * The linear model (ml.rs) *)

Record MlRoutingResult := { delta_score : f32; vortex_score : f32; merge_score : f32; routing_path : RouteDecision; ml_confidence : f32 }.
Record TreeCnnRouter := {
  tc_enabled : bool;
  tc_disabled_reason : option string;
  delta_weights : list f32; delta_bias : f32;
  vortex_weights : list f32; vortex_bias : f32;
  merge_weights : list f32; merge_bias : f32
}.

(** One weight after the other; the first that is not finite ends the load. *)
Fixpoint read_f32s (n : nat) (offset : Z) (data : bytes) : result string (list f32) :=
  match n with
  | O => Ok []
  | S n' =>
      let v := f32_from_bits (from_le_bytes (take 4 data)) in
      if is_finite v then match read_f32s n' (offset + 4) (drop 4 data) with Ok vs => Ok (v :: vs) | Err e => Err e end
      else Err ("non-finite weight at byte offset " +:+ pretty offset)
  end.
Definition load_weights (data : bytes) : result string (list f32) :=
  if zlen data =? 312 then read_f32s 78 0 data
  else Err ("expected exactly 312 bytes / 78 little-endian f32s, got " +:+ pretty (zlen data) +:+ " bytes").
Definition untrained (reason : string) : TreeCnnRouter :=
  let z := replicate FEATURE_DIM (S754_zero false) in
  {| tc_enabled := false; tc_disabled_reason := Some reason; delta_weights := z; delta_bias := f32_lit 1 2; vortex_weights := z;
     vortex_bias := f32_lit 1 2; merge_weights := z; merge_bias := f32_of_Z 0 |}.
(** [file] is what reading the weight file answers. *)
Definition TreeCnnRouter_new (cfg : RouterConfig) (file : result string bytes) : TreeCnnRouter :=
  if negb (ml_enabled cfg) then untrained "ml routing disabled by config" else
  match match file with Ok data => load_weights data | Err e => Err e end with
  | Ok ws =>
      let z := S754_zero false in
      {| tc_enabled := true; tc_disabled_reason := None; delta_weights := take 25 ws; delta_bias := nth 25 ws z;
         vortex_weights := take 25 (drop 26 ws); vortex_bias := nth 51 ws z; merge_weights := take 25 (drop 52 ws); merge_bias := nth 77 ws z |}
  | Err e => untrained ("failed to load ML routing weights from " +:+ ml_weight_path cfg +:+ ": " +:+ e)
  end.

Definition f32_max := f64_max.
Definition f32_min := f64_min.
Definition score_head (feat ws : list f32) (bias : f32) : f32 := f32_add (foldl f32_add (S754_zero false) (zip_with f32_mul feat ws)) bias.
Definition spread (d v m : f32) : f32 := f32_sub (f32_max (f32_max d v) m) (f32_min (f32_min d v) m).
Definition choose_path (d v m confidence : f32) : RouteDecision :=
  if SFltb d m && SFltb v m && SFltb (f32_lit 1 10) confidence then RMerge
  else if SFltb d v then RDeltaStoreOnly else RVortexOnly.
Definition predict (r : TreeCnnRouter) (feat : list f32) : MlRoutingResult :=
  let '(d, v, m) := if tc_enabled r
    then (score_head feat (delta_weights r) (delta_bias r), score_head feat (vortex_weights r) (vortex_bias r), score_head feat (merge_weights r) (merge_bias r))
    else (f32_lit 1 2, f32_lit 1 2, f32_of_Z 0) in
  let sum := f32_add (f32_add d v) m in
  let confidence := if SFltb (f32_of_Z 0) sum then f32_div (spread d v m) sum else f32_of_Z 0 in
  {| delta_score := d; vortex_score := v; merge_score := m; routing_path := choose_path d v m confidence; ml_confidence := confidence |}.
(** The confidence that [route] computes anew for its record. *)
Definition shadow_confidence (r : MlRoutingResult) : f32 :=
  let d := delta_score r in let v := vortex_score r in let m := merge_score r in
  let z := f32_of_Z 0 in
  if negb (SFltb z d || SFltb z v || SFltb z m) then z else
  let sum := f32_add (f32_add d v) m in
  if SFleb sum z then z else f32_div (spread d v m) sum.
