(* ===== verification/Routing.v ===== *)
(** The query router with its feedback (query/routing/): the selectivity tracker and the
    execution history (feedback.rs), the statistical tier (tier2.rs), the router that
    cascades the tiers, records what was executed and checkpoints it (mod.rs), and
    the interface through which a scan calls it. *)

From stdpp Require Import base gmap strings list pretty.
From S2P Require Import Prelude Kv Disk SegMeta Scan HeatTracker Ecotune Adaptive RouteCost.
From Stdlib Require Import SpecFloat Ascii.

Local Open Scope Z_scope.

(** * Selectivity (feedback.rs) *)

Record SlidingWindow := { sw_sum : f64; sw_count : Z; sw_values : list f64; sw_max_size : Z }.
Definition window_new (max_size : Z) : SlidingWindow := {| sw_sum := f64_of_Z 0; sw_count := 0; sw_values := []; sw_max_size := max_size |}.
Definition window_push (w : SlidingWindow) (x : f64) : SlidingWindow :=
  let '(sum, count, values) :=
    match sw_values w with
    | old :: rest => if sw_max_size w <=? zlen (sw_values w) then (f64_sub (sw_sum w) old, sw_count w - 1, rest) else (sw_sum w, sw_count w, sw_values w)
    | [] => (sw_sum w, sw_count w, [])
    end in
  {| sw_sum := f64_add sum x; sw_count := count + 1; sw_values := values ++ [x]; sw_max_size := sw_max_size w |}.
Definition window_mean (w : SlidingWindow) : f64 :=
  if sw_count w =? 0 then f64_lit 1 10 else f64_div (sw_sum w) (f64_of_Z (sw_count w)).

Record SelectivityTracker := {
  st_columns : gmap (string * string) SlidingWindow;
  st_joints : gmap (string * string * string) SlidingWindow;
  st_max_size : Z;
  default_selectivity : f64
}.
Definition tracker_new (max_size : Z) : SelectivityTracker :=
  {| st_columns := ∅; st_joints := ∅; st_max_size := max_size; default_selectivity := f64_lit 1 10 |}.
Definition tracker_default : SelectivityTracker := tracker_new 1000.
Definition observed_selectivity (actual_rows total_rows : Z) : f64 :=
  f64_clamp (f64_div (f64_of_Z actual_rows) (f64_of_Z total_rows)) (f64_of_Z 0) (f64_of_Z 1).
(** [entry(key).or_insert_with(..)] then [push] *)
Definition push_at {K} `{Countable K} (k : K) (max_size : Z) (x : f64) (m : gmap K SlidingWindow) : gmap K SlidingWindow :=
  <[k := window_push (default (window_new max_size) (m !! k)) x]> m.
Definition tracker_observe (t : SelectivityTracker) (table column : string) (actual_rows total_rows : Z) : SelectivityTracker :=
  if total_rows =? 0 then t else
  {| st_columns := push_at (table, column) (st_max_size t) (observed_selectivity actual_rows total_rows) (st_columns t);
     st_joints := st_joints t; st_max_size := st_max_size t; default_selectivity := default_selectivity t |}.
Definition observe_joint (t : SelectivityTracker) (table col1 col2 : string) (actual_rows total_rows : Z) : SelectivityTracker :=
  if total_rows =? 0 then t else
  {| st_columns := st_columns t;
     st_joints := push_at (table, col1, col2) (st_max_size t) (observed_selectivity actual_rows total_rows) (st_joints t);
     st_max_size := st_max_size t; default_selectivity := default_selectivity t |}.
Definition tracker_estimate (t : SelectivityTracker) (table column : string) : f64 :=
  match st_columns t !! (table, column) with Some w => window_mean w | None => default_selectivity t end.
Definition tracker_sample_count (t : SelectivityTracker) (table column : string) : Z :=
  match st_columns t !! (table, column) with Some w => sw_count w | None => 0 end.
Definition estimate_joint (t : SelectivityTracker) (table col1 col2 : string) : f64 :=
  match st_joints t !! (table, col1, col2) with Some w => window_mean w | None => default_selectivity t end.
Definition estimates_for_table (t : SelectivityTracker) (table : string) : gmap string f64 :=
  list_to_map ((λ e : (string * string) * SlidingWindow, (e.1.2, window_mean e.2)) <$>
    filter (λ e : (string * string) * SlidingWindow, e.1.1 = table) (map_to_list (st_columns t))).
Definition prune_for_tables (t : SelectivityTracker) (alive : gset string) : SelectivityTracker :=
  {| st_columns := filter (λ e : (string * string) * SlidingWindow, e.1.1 ∈ alive) (st_columns t);
     st_joints := filter (λ e : (string * string * string) * SlidingWindow, e.1.1.1 ∈ alive) (st_joints t);
     st_max_size := st_max_size t; default_selectivity := default_selectivity t |}.

(** * Execution history *)

Record ExecutionRecord := {
  er_table : string;
  er_chosen_path : RouteDecision;
  er_elapsed_ms : f64;
  er_estimated_cost : f64;
  er_rows_scanned : Z;
  er_candidate_rows : Z;
  er_rows_returned : Z;
  er_segments_routed : Z;
  er_segments_scanned : Z;
  er_template : option string;
  er_executed_segment_ids : list string;
  er_alternative_path : option RouteDecision;
  er_alternative_elapsed_ms : option f64;
  er_is_shadow_timing : bool;
  er_is_measured_dual_path : bool
}.
Abbreviation records := (gmap string (list ExecutionRecord)).
Record ExecutionHistory := { authoritative_records : records; proxy_records : records; max_per_table : Z }.
Definition history_new (max_per_table : Z) : ExecutionHistory :=
  {| authoritative_records := ∅; proxy_records := ∅; max_per_table := max_per_table |}.
(** [derive(Default)]: the limit is zero. *)
Definition history_default : ExecutionHistory := history_new 0.
(** [drain(0..overflow)] *)
Definition keep_last {A} (max : Z) (l : list A) : list A := if max <? zlen l then drop (Z.to_nat (zlen l - max)) l else l.
Definition push_record (m : records) (max : Z) (rec : ExecutionRecord) : records :=
  <[er_table rec := keep_last max (default [] (m !! er_table rec) ++ [rec])]> m.
Definition is_proxy (rec : ExecutionRecord) : bool := er_is_shadow_timing rec || bool_decide (is_Some (er_alternative_path rec)).
Definition history_record (h : ExecutionHistory) (rec : ExecutionRecord) : ExecutionHistory :=
  if is_proxy rec
  then {| authoritative_records := authoritative_records h; proxy_records := push_record (proxy_records h) (max_per_table h) rec; max_per_table := max_per_table h |}
  else {| authoritative_records := push_record (authoritative_records h) (max_per_table h) rec; proxy_records := proxy_records h; max_per_table := max_per_table h |}.

Definition recent_times (h : ExecutionHistory) (table : string) (path : RouteDecision) : list f64 :=
  er_elapsed_ms <$> filter (λ r, er_chosen_path r = path ∧ er_is_shadow_timing r = false ∧ er_alternative_path r = None)
    (default [] (authoritative_records h !! table)).
Definition measured_execution_count (h : ExecutionHistory) (table : string) : Z :=
  zlen (filter (λ r, er_executed_segment_ids r ≠ [] ∧ er_is_shadow_timing r = false) (default [] (authoritative_records h !! table))).

Inductive EvidenceQuality := Measured | BoundedDualPath | Proxy | Synthetic.
Definition allows_cost_blend (q : EvidenceQuality) : bool := match q with Measured | BoundedDualPath => true | _ => false end.
Record MeasuredCostSample := { mc_avg_elapsed_ms : f64; mc_sample_count : Z; mc_quality : EvidenceQuality }.
Definition sample_of (l : list ExecutionRecord) (q : EvidenceQuality) : MeasuredCostSample :=
  {| mc_avg_elapsed_ms := f64_mean (er_elapsed_ms <$> l); mc_sample_count := zlen l; mc_quality := q |}.
Definition measured_cost_sample (h : ExecutionHistory) (table : string) (path : RouteDecision) : option MeasuredCostSample :=
  let proxy := default [] (proxy_records h !! table) in
  let authoritative_matches := filter (λ r, er_chosen_path r = path) (default [] (authoritative_records h !! table)) in
  let bounded_dual_path := filter (λ r, er_chosen_path r = path ∧ er_is_shadow_timing r = true ∧ er_is_measured_dual_path r = true) proxy in
  let proxy_regret := filter (λ r, er_chosen_path r = path ∧ er_is_shadow_timing r = false ∧ is_Some (er_alternative_path r) ∧
                                   er_is_measured_dual_path r = false) proxy in
  match authoritative_matches, bounded_dual_path, proxy_regret with
  | _ :: _, _, _ => Some (sample_of authoritative_matches Measured)
  | [], _ :: _, _ => Some (sample_of bounded_dual_path BoundedDualPath)
  | [], [], [] => None
  | [], [], _ :: _ => Some (sample_of proxy_regret Synthetic)
  end.
Definition avg_time (h : ExecutionHistory) (table : string) (path : RouteDecision) : option f64 :=
  mc_avg_elapsed_ms <$> measured_cost_sample h table path.

(** * The feedback state *)

Record ShadowTimingSample := {
  sh_table : string;
  sh_chosen_path : RouteDecision;
  sh_shadow_path : RouteDecision;
  sh_chosen_elapsed_ms : f64;
  sh_shadow_elapsed_ms : f64;
  sh_rows_scanned : Z;
  sh_candidate_rows : Z;
  sh_rows_returned : Z;
  sh_segments_routed : Z;
  sh_segments_scanned : Z;
  sh_template : option string;
  sh_policy : ShadowTimingPolicy
}.
Record MlShadowEvaluationSample := {
  ms_table : string;
  ms_tier2_decision : RouteDecision;
  ms_ml_decision : RouteDecision;
  ms_ml_confidence : f64;
  agreed_with_tier2 : bool;
  observed_at_epoch_ms : Z
}.
Record MlPromotionSnapshot := {
  shadow_samples : list MlShadowEvaluationSample;
  measured_training_sample_count : Z;
  export_batches_persisted : Z
}.
(** [MlSample], and in an export [MlExportSample]: the features are copied. *)
Record MlSample := { ml_features : list f32; delta_actual_ms : f64; vortex_actual_ms : f64 }.
Abbreviation MlExportBatch := (list MlSample).
Record MlCollector := { mlc_samples : list MlSample; mlc_max_samples : Z }.
Definition collector_new (max : Z) : MlCollector := {| mlc_samples := []; mlc_max_samples := max |}.
Definition collector_record (c : MlCollector) (s : MlSample) : MlCollector :=
  let kept := if mlc_max_samples c <=? zlen (mlc_samples c) then drop (length (mlc_samples c) / 2) (mlc_samples c) else mlc_samples c in
  {| mlc_samples := kept ++ [s]; mlc_max_samples := mlc_max_samples c |}.
Definition from_export_batches (batches : list MlExportBatch) (max : Z) : MlCollector :=
  foldl (λ c s, collector_record c {| ml_features := features_from_slice (ml_features s); delta_actual_ms := delta_actual_ms s;
                                      vortex_actual_ms := vortex_actual_ms s |}) (collector_new max) (concat batches).

(** [CooperativeRuntimeSnapshot] has the fields of the digest of an execution. The
    digests of sidecars, exports, replays, sinks and of the governance are not read
    by any decision and are not kept. *)
Record FeedbackState := {
  fb_selectivity : SelectivityTracker;
  fb_execution : ExecutionHistory;
  fb_shadow_timings : list ShadowTimingSample;
  fb_ml_collector : MlCollector;
  fb_last_evidence : gmap string EvidenceSnapshot;
  fb_cooperative_runtime : gmap string CooperativeExecutionDigest;
  fb_cost_params_checkpoint : option CostParams;
  fb_durable_ml_exports : list MlExportBatch;
  fb_ml_promotion : MlPromotionSnapshot
}.
Definition promotion_default : MlPromotionSnapshot :=
  {| shadow_samples := []; measured_training_sample_count := 0; export_batches_persisted := 0 |}.
Definition feedback_with (t : SelectivityTracker) (h : ExecutionHistory) : FeedbackState :=
  {| fb_selectivity := t; fb_execution := h; fb_shadow_timings := []; fb_ml_collector := collector_new 10000; fb_last_evidence := ∅;
     fb_cooperative_runtime := ∅; fb_cost_params_checkpoint := None; fb_durable_ml_exports := []; fb_ml_promotion := promotion_default |}.
Definition feedback_default : FeedbackState := feedback_with tracker_default history_default.
Definition feedback_new (window_size max_execution_records : Z) : FeedbackState :=
  feedback_with (tracker_new window_size) (history_new max_execution_records).

Implicit Types f : FeedbackState.
Definition set_selectivity f t : FeedbackState :=
  {| fb_selectivity := t; fb_execution := fb_execution f; fb_shadow_timings := fb_shadow_timings f; fb_ml_collector := fb_ml_collector f;
     fb_last_evidence := fb_last_evidence f; fb_cooperative_runtime := fb_cooperative_runtime f;
     fb_cost_params_checkpoint := fb_cost_params_checkpoint f; fb_durable_ml_exports := fb_durable_ml_exports f; fb_ml_promotion := fb_ml_promotion f |}.
Definition set_execution f h : FeedbackState :=
  {| fb_selectivity := fb_selectivity f; fb_execution := h; fb_shadow_timings := fb_shadow_timings f; fb_ml_collector := fb_ml_collector f;
     fb_last_evidence := fb_last_evidence f; fb_cooperative_runtime := fb_cooperative_runtime f;
     fb_cost_params_checkpoint := fb_cost_params_checkpoint f; fb_durable_ml_exports := fb_durable_ml_exports f; fb_ml_promotion := fb_ml_promotion f |}.
Definition set_observed f (shadow : list ShadowTimingSample) (ev : gmap string EvidenceSnapshot) (co : gmap string CooperativeExecutionDigest) : FeedbackState :=
  {| fb_selectivity := fb_selectivity f; fb_execution := fb_execution f; fb_shadow_timings := shadow; fb_ml_collector := fb_ml_collector f;
     fb_last_evidence := ev; fb_cooperative_runtime := co; fb_cost_params_checkpoint := fb_cost_params_checkpoint f;
     fb_durable_ml_exports := fb_durable_ml_exports f; fb_ml_promotion := fb_ml_promotion f |}.
Definition set_ml f (c : MlCollector) (exports : list MlExportBatch) (p : MlPromotionSnapshot) : FeedbackState :=
  {| fb_selectivity := fb_selectivity f; fb_execution := fb_execution f; fb_shadow_timings := fb_shadow_timings f; fb_ml_collector := c;
     fb_last_evidence := fb_last_evidence f; fb_cooperative_runtime := fb_cooperative_runtime f;
     fb_cost_params_checkpoint := fb_cost_params_checkpoint f; fb_durable_ml_exports := exports; fb_ml_promotion := p |}.
Definition set_cost_params_checkpoint f (c : CostParams) : FeedbackState :=
  {| fb_selectivity := fb_selectivity f; fb_execution := fb_execution f; fb_shadow_timings := fb_shadow_timings f; fb_ml_collector := fb_ml_collector f;
     fb_last_evidence := fb_last_evidence f; fb_cooperative_runtime := fb_cooperative_runtime f;
     fb_cost_params_checkpoint := Some c; fb_durable_ml_exports := fb_durable_ml_exports f; fb_ml_promotion := fb_ml_promotion f |}.

Definition observe_selectivity f (table : string) (columns : list string) (actual_rows total_rows : Z) : FeedbackState :=
  if total_rows =? 0 then f else
  let t := foldl (λ t col, tracker_observe t table col actual_rows total_rows) (fb_selectivity f) columns in
  set_selectivity f (match columns with c1 :: c2 :: _ => observe_joint t table c1 c2 actual_rows total_rows | _ => t end).

(** A record with the counters that an aggregate has. *)
Definition plain_record (table : string) (path : RouteDecision) (elapsed_ms estimated_cost : f64) (rows_scanned rows_returned : Z)
    (alternative : option (RouteDecision * f64)) : ExecutionRecord :=
  {| er_table := table; er_chosen_path := path; er_elapsed_ms := elapsed_ms; er_estimated_cost := estimated_cost; er_rows_scanned := rows_scanned;
     er_candidate_rows := rows_scanned; er_rows_returned := rows_returned; er_segments_routed := 0; er_segments_scanned := 0; er_template := None;
     er_executed_segment_ids := []; er_alternative_path := fst <$> alternative; er_alternative_elapsed_ms := snd <$> alternative;
     er_is_shadow_timing := false; er_is_measured_dual_path := false |}.
Definition record_execution_aggregate f table path elapsed_ms estimated_cost rows_scanned rows_returned : FeedbackState :=
  set_execution f (history_record (fb_execution f) (plain_record table path elapsed_ms estimated_cost rows_scanned rows_returned None)).
Definition record_regret_sample f table chosen_path elapsed_ms alternative_path alternative_elapsed_ms : FeedbackState :=
  set_execution f (history_record (fb_execution f)
    (plain_record table chosen_path elapsed_ms (f64_of_Z 0) 0 0 (Some (alternative_path, alternative_elapsed_ms)))).
(** [format!("{:?}", template)] *)
Definition template_text (t : ReadExecutionTemplate) : string :=
  match t with DeltaOnly => "DeltaOnly" | VortexOnly => "VortexOnly" | CooperativeMerge => "CooperativeMerge" | HistoricalRead => "HistoricalRead" end.
Definition outcome_record (o : ExecutionOutcome) (path : RouteDecision) : ExecutionRecord :=
  {| er_table := oc_table o; er_chosen_path := path; er_elapsed_ms := oc_elapsed_ms o; er_estimated_cost := default (f64_of_Z 0) (oc_estimated_cost o);
     er_rows_scanned := oc_rows_scanned o; er_candidate_rows := oc_candidate_rows o; er_rows_returned := oc_rows_returned o;
     er_segments_routed := oc_segments_routed o; er_segments_scanned := oc_segments_scanned o; er_template := Some (template_text (oc_template o));
     er_executed_segment_ids := oc_executed_segment_ids o; er_alternative_path := None; er_alternative_elapsed_ms := None;
     er_is_shadow_timing := false; er_is_measured_dual_path := false |}.
Definition fb_record_execution_outcome f (o : ExecutionOutcome) (path : RouteDecision) : FeedbackState :=
  set_execution f (history_record (fb_execution f) (outcome_record o path)).
Definition selection_record (table : string) (path : RouteDecision) (estimated_cost : f64) (rows segments : Z) (ev : EvidenceSnapshot) : ExecutionRecord :=
  {| er_table := table; er_chosen_path := path; er_elapsed_ms := f64_of_Z 0; er_estimated_cost := estimated_cost; er_rows_scanned := rows;
     er_candidate_rows := rows; er_rows_returned := 0; er_segments_routed := segments; er_segments_scanned := 0;
     er_template := Some "route-selection"%string; er_executed_segment_ids := ev_executed_segment_ids ev; er_alternative_path := None;
     er_alternative_elapsed_ms := None; er_is_shadow_timing := false; er_is_measured_dual_path := false |}.
Definition fb_observe_route_selection f table path estimated_cost rows segments (ev : EvidenceSnapshot) : FeedbackState :=
  let f := set_execution f (history_record (fb_execution f) (selection_record table path estimated_cost rows segments ev)) in
  set_observed f (fb_shadow_timings f) (<[table := ev]> (fb_last_evidence f)) (fb_cooperative_runtime f).
Definition shadow_record (s : ShadowTimingSample) : ExecutionRecord :=
  {| er_table := sh_table s; er_chosen_path := sh_shadow_path s; er_elapsed_ms := sh_shadow_elapsed_ms s; er_estimated_cost := f64_of_Z 0;
     er_rows_scanned := sh_rows_scanned s; er_candidate_rows := sh_candidate_rows s; er_rows_returned := sh_rows_returned s;
     er_segments_routed := sh_segments_routed s; er_segments_scanned := sh_segments_scanned s; er_template := sh_template s;
     er_executed_segment_ids := []; er_alternative_path := Some (sh_chosen_path s); er_alternative_elapsed_ms := Some (sh_chosen_elapsed_ms s);
     er_is_shadow_timing := true; er_is_measured_dual_path := policy_is_measured (sh_policy s) |}.
(** The assertion cannot fail: no policy is authoritative. *)
Definition fb_record_shadow_timing f (s : ShadowTimingSample) : FeedbackState :=
  if bool_decide (sh_shadow_path s = sh_chosen_path s) then f else
  let f := set_execution f (history_record (fb_execution f) (shadow_record s)) in
  set_observed f (fb_shadow_timings f ++ [s]) (fb_last_evidence f) (fb_cooperative_runtime f).
Definition sampled_from_outcome (o : ExecutionOutcome) (shadow_path : RouteDecision) (shadow_ms : f64) (p : ShadowTimingPolicy) : option ShadowTimingSample :=
  chosen ← oc_chosen_path o;
  Some {| sh_table := oc_table o; sh_chosen_path := chosen; sh_shadow_path := shadow_path; sh_chosen_elapsed_ms := oc_elapsed_ms o;
          sh_shadow_elapsed_ms := shadow_ms; sh_rows_scanned := oc_rows_scanned o; sh_candidate_rows := oc_candidate_rows o;
          sh_rows_returned := oc_rows_returned o; sh_segments_routed := oc_segments_routed o; sh_segments_scanned := oc_segments_scanned o;
          sh_template := Some (template_text (oc_template o)); sh_policy := p |}.
Definition record_ml_sample f (features : list f32) (delta_ms vortex_ms : f64) : FeedbackState :=
  set_ml f (collector_record (fb_ml_collector f) {| ml_features := features; delta_actual_ms := delta_ms; vortex_actual_ms := vortex_ms |})
    (fb_durable_ml_exports f) (fb_ml_promotion f).
Definition record_cooperative_runtime f (table : string) (d : CooperativeExecutionDigest) : FeedbackState :=
  set_observed f (fb_shadow_timings f) (fb_last_evidence f) (<[table := d]> (fb_cooperative_runtime f)).
Definition record_ml_shadow_evaluation f (s : MlShadowEvaluationSample) (max_samples : Z) : FeedbackState :=
  let p := fb_ml_promotion f in
  set_ml f (fb_ml_collector f) (fb_durable_ml_exports f)
    {| shadow_samples := keep_last max_samples (shadow_samples p ++ [s]); measured_training_sample_count := measured_training_sample_count p;
       export_batches_persisted := export_batches_persisted p |}.
Definition set_measured_count f (n : Z) : FeedbackState :=
  let p := fb_ml_promotion f in
  set_ml f (fb_ml_collector f) (fb_durable_ml_exports f)
    {| shadow_samples := shadow_samples p; measured_training_sample_count := n; export_batches_persisted := export_batches_persisted p |}.
Definition ml_shadow_agreement_ratio f : option f64 :=
  let l := shadow_samples (fb_ml_promotion f) in
  match l with [] => None | _ => Some (f64_div (f64_of_Z (zlen (filter (λ s, agreed_with_tier2 s = true) l))) (f64_of_Z (zlen l))) end.

(** * The statistical tier (tier2.rs) *)

Definition MIN_MEASURED_EXECUTION_SAMPLES : Z := 3.
Definition MIN_SELECTIVITY_SAMPLES : Z := 5.

Definition column_estimate (params : RouterParams) (t : SelectivityTracker) (col : string) : option f64 :=
  let est := tracker_estimate t (rpm_table params) col in
  if negb (f64_eqb est (f64_lit 1 10)) && (MIN_SELECTIVITY_SAMPLES <=? tracker_sample_count t (rpm_table params) col) then Some est else None.
Definition get_selectivity (params : RouterParams) (t : SelectivityTracker) : f64 :=
  let result :=
    match omap (column_estimate params t) (rpm_columns params) with
    | [] => rpm_estimated_selectivity params
    | l => f64_div (f64_add (f64_mean l) (rpm_estimated_selectivity params)) (f64_of_Z 2)
    end in
  if is_nan result || f64_leb result (f64_of_Z 0) then f64_lit 1 10 else result.

(** Enough samples of a quality that may be blended. *)
Definition blendable (s : MeasuredCostSample) : bool := (MIN_MEASURED_EXECUTION_SAMPLES <=? mc_sample_count s) && allows_cost_blend (mc_quality s).
Definition blend_cost (estimated : f64) (observed : option MeasuredCostSample) (weight : f64) : f64 :=
  match observed with
  | Some s => if blendable s then blend estimated (mc_avg_elapsed_ms s) weight else estimated
  | None => estimated
  end.
Definition relative_gap (a b : f64) : f64 := f64_div (f64_abs (f64_sub a b)) (f64_add (f64_add a b) (f64_lit 1 1000000)).
Definition compute_confidence (params : RouterParams) (sel : f64) (t : SelectivityTracker) (measured_execution_count : Z)
    (delta_cost vortex_cost : f64) (delta_actual vortex_actual : option MeasuredCostSample) : f64 :=
  let n_obs := zlen (filter (λ col, MIN_SELECTIVITY_SAMPLES <= tracker_sample_count t (rpm_table params) col) (rpm_columns params)) in
  let c := f64_lit 25 100 in
  let c := if 0 <? n_obs then f64_add c (f64_min (f64_mul (f64_of_Z n_obs) (f64_lit 5 100)) (f64_lit 15 100)) else c in
  let c := if MIN_MEASURED_EXECUTION_SAMPLES <=? measured_execution_count then f64_add c (f64_lit 15 100) else c in
  let both := match delta_actual, vortex_actual with
              | Some d, Some v => if blendable d && blendable v then Some (d, v) else None
              | _, _ => None
              end in
  let c := match both with
           | Some (d, v) =>
               let c := if f64_ltb (f64_lit 5 10) (relative_gap delta_cost vortex_cost) then f64_add c (f64_lit 15 100) else c in
               if f64_ltb (f64_lit 3 10) (relative_gap (mc_avg_elapsed_ms d) (mc_avg_elapsed_ms v)) then f64_add c (f64_lit 15 100) else c
           | None => c
           end in
  let c := if negb (f64_leb (f64_lit 1 100) sel && f64_leb sel (f64_lit 5 10)) && (0 <? n_obs) then f64_add c (f64_lit 1 10) else c in
  f64_clamp c (f64_of_Z 0) (f64_of_Z 1).

(** The costs of the three paths that the decision compares. *)
Definition tier2_costs (params : RouterParams) (cfg : RouterConfig) f (cost : CostParams) : f64 * f64 * f64 :=
  let rows := estimated_scanned_rows (rpm_stats params) (get_selectivity params (fb_selectivity f)) in
  let weight := cost_feedback_weight cfg in
  let observed path := measured_cost_sample (fb_execution f) (rpm_table params) path in
  (blend_cost (delta_scan_cost rows (rpm_stats params) cost) (observed RDeltaStoreOnly) weight,
   blend_cost (vortex_scan_cost rows (rpm_stats params) cost) (observed RVortexOnly) weight,
   merge_cost (rpm_delta_count params) rows (rpm_stats params) cost).
Definition tier2_decide (params : RouterParams) (cfg : RouterConfig) f (cost : CostParams) : RoutingResult :=
  let sel := get_selectivity params (fb_selectivity f) in
  let rows := estimated_scanned_rows (rpm_stats params) sel in
  let '(delta_final, vortex_final, merge_val) := tier2_costs params cfg f cost in
  let '(decision, min_cost) := argmin_path delta_final vortex_final merge_val in
  {| rr_decision := decision;
     rr_confidence := compute_confidence params sel (fb_selectivity f) (measured_execution_count (fb_execution f) (rpm_table params))
       (delta_scan_cost rows (rpm_stats params) cost) (vortex_scan_cost rows (rpm_stats params) cost)
       (measured_cost_sample (fb_execution f) (rpm_table params) RDeltaStoreOnly)
       (measured_cost_sample (fb_execution f) (rpm_table params) RVortexOnly);
     rr_estimated_cost := min_cost; rr_tier := "tier2_cost" |}.

(** * The router (mod.rs) *)

Inductive MlRoutingMode := MlDisabled | AdvisoryShadow | LiveAuthority.
Record CheckpointHotspotStats := { hs_calls : Z; hs_writes : Z; hs_skips : Z }.
Record QueryRouter := {
  qr_config : RouterConfig;
  qr_cost_params : CostParams;
  qr_ml : option TreeCnnRouter;
  qr_feedback : FeedbackState;
  qr_dirty : bool;
  qr_stats : CheckpointHotspotStats;
  qr_last_ml_export : list MlSample;
  qr_shadow_epoch : Z
}.
Implicit Types r : QueryRouter.
Definition router_with (cfg : RouterConfig) (cost : CostParams) (ml : option TreeCnnRouter) f : QueryRouter :=
  {| qr_config := cfg; qr_cost_params := cost; qr_ml := ml; qr_feedback := f; qr_dirty := false;
     qr_stats := {| hs_calls := 0; hs_writes := 0; hs_skips := 0 |}; qr_last_ml_export := []; qr_shadow_epoch := 0 |}.
Definition set_fb r f (dirty : bool) : QueryRouter :=
  {| qr_config := qr_config r; qr_cost_params := qr_cost_params r; qr_ml := qr_ml r; qr_feedback := f; qr_dirty := dirty;
     qr_stats := qr_stats r; qr_last_ml_export := qr_last_ml_export r; qr_shadow_epoch := qr_shadow_epoch r |}.
Definition set_cost r (c : CostParams) : QueryRouter :=
  {| qr_config := qr_config r; qr_cost_params := c; qr_ml := qr_ml r; qr_feedback := qr_feedback r; qr_dirty := true;
     qr_stats := qr_stats r; qr_last_ml_export := qr_last_ml_export r; qr_shadow_epoch := qr_shadow_epoch r |}.
Definition set_epoch r (e : Z) : QueryRouter :=
  {| qr_config := qr_config r; qr_cost_params := qr_cost_params r; qr_ml := qr_ml r; qr_feedback := qr_feedback r; qr_dirty := qr_dirty r;
     qr_stats := qr_stats r; qr_last_ml_export := qr_last_ml_export r; qr_shadow_epoch := e |}.
Definition set_hotspots r (st : CheckpointHotspotStats) : QueryRouter :=
  {| qr_config := qr_config r; qr_cost_params := qr_cost_params r; qr_ml := qr_ml r; qr_feedback := qr_feedback r; qr_dirty := qr_dirty r;
     qr_stats := st; qr_last_ml_export := qr_last_ml_export r; qr_shadow_epoch := qr_shadow_epoch r |}.
Definition set_last_export r (l : list MlSample) : QueryRouter :=
  {| qr_config := qr_config r; qr_cost_params := qr_cost_params r; qr_ml := qr_ml r; qr_feedback := qr_feedback r; qr_dirty := qr_dirty r;
     qr_stats := qr_stats r; qr_last_ml_export := l; qr_shadow_epoch := qr_shadow_epoch r |}.

Definition ml_routing_mode r : MlRoutingMode :=
  if negb (ml_enabled (qr_config r)) then MlDisabled
  else if live_authority_enabled (ml_promotion_gate (qr_config r)) then LiveAuthority else AdvisoryShadow.

Definition cooperative_runtime_budget r (table : string) (routed_segments : Z) : option SliceBudget :=
  last ← fb_cooperative_runtime (qr_feedback r) !! table;
  budget ← dg_budget last;
  let observed := zlen (dg_truncated_segments last) in
  let route_size := Z.max routed_segments 1 in
  let capped := if dg_max_segments_per_slice_hit last then Z.min (Z.max (max_segments_per_slice budget) 1) route_size
                else Z.min (Z.max (max_segments_per_slice budget) (Z.min route_size 4)) route_size in
  let bounded_ms := if dg_elapsed_budget_exhausted last then Z.max (max_slice_ms budget) 1
                    else Z.min (Z.min (2 * Z.max (max_slice_ms budget) 1) u64_max) 250 in
  let adaptive := if observed =? 0 then capped else Z.min capped (Z.max observed 1) in
  Some {| max_segments_per_slice := Z.max adaptive 1; max_slice_ms := Z.max bounded_ms 1 |}.

(** [DefaultHasher] over the query and the epoch *)
Class ShadowHash := shadow_hash : string → list string → RouteDecision → Z → Z → Z.
Definition shadow_threshold (rate : f64) : Z := f64_as_u64 (f64_round (f64_mul (f64_clamp rate (f64_of_Z 0) (f64_of_Z 1)) (f64_of_Z 10000))).
Definition should_sample_shadow_timing `{ShadowHash} r (table : string) (columns : list string) (path : RouteDecision) (routed : Z) : QueryRouter * bool :=
  let threshold := shadow_threshold (shadow_sample_rate (qr_config r)) in
  if threshold =? 0 then (r, false) else
  let epoch := qr_shadow_epoch r in
  (set_epoch r (wrap64 (epoch + 1)), shadow_hash table columns path routed epoch `mod` 10000 <? threshold).

Definition live_override_decision (ml : TreeCnnRouter) (gate : MlRoutingPromotionGate) f (res : MlRoutingResult) : option (RouteDecision * f64) :=
  if negb (tc_enabled ml) || negb (live_authority_enabled gate) then None else
  if measured_training_sample_count (fb_ml_promotion f) <? min_measured_samples gate then None else
  agreement ← ml_shadow_agreement_ratio f;
  let disagreement := f64_sub (f64_of_Z 1) agreement in
  if f64_ltb agreement (min_shadow_agreement_ratio gate) || f64_ltb (max_disagreement_ratio gate) disagreement then None
  else Some (routing_path res, f32_as_f64 (ml_confidence res)).

Section router.
Context `{FloatMath} `{FloatLogs}.

(** [now_ms] is the clock of the recorded evaluation. *)
Definition route (now_ms : Z) r (params : RouterParams) : QueryRouter * RoutingResult :=
  let cfg := qr_config r in
  match tier1_decide params cfg with
  | Some d => (r, {| rr_decision := d; rr_confidence := f64_of_Z 1; rr_estimated_cost := f64_of_Z 0; rr_tier := "tier1_rule" |})
  | None =>
      let tier2 := tier2_decide params cfg (qr_feedback r) (qr_cost_params r) in
      if f64_ltb (f64_lit 85 100) (rr_confidence tier2) then (r, tier2) else
      match qr_ml r with
      | None => (r, tier2)
      | Some ml =>
          if negb (ml_enabled cfg) then (r, tier2) else
          let res := predict ml (encode_plan params) in
          let f := record_ml_shadow_evaluation (qr_feedback r)
            {| ms_table := rpm_table params; ms_tier2_decision := rr_decision tier2; ms_ml_decision := routing_path res;
               ms_ml_confidence := f32_as_f64 (shadow_confidence res); agreed_with_tier2 := bool_decide (routing_path res = rr_decision tier2);
               observed_at_epoch_ms := now_ms |} (Z.max (shadow_sample_window (ml_promotion_gate cfg)) 1) in
          let r := set_fb r f (qr_dirty r) in
          match live_override_decision ml (ml_promotion_gate cfg) f res with
          | Some (path, confidence) =>
              if f64_leb (ml_confidence_thresh cfg) confidence
              then (r, {| rr_decision := path; rr_confidence := confidence; rr_estimated_cost := rr_estimated_cost tier2; rr_tier := "tier3_ml_live_authority" |})
              else (r, tier2)
          | None => (r, tier2)
          end
      end
  end.

Definition observe_route_selection r (table : string) (routed : list SegmentMeta) (routing : RoutingResult) (ev : EvidenceSnapshot) : QueryRouter :=
  set_fb r (fb_observe_route_selection (qr_feedback r) table (rr_decision routing) (rr_estimated_cost routing)
    (sum_u64 (row_count <$> routed)) (zlen routed) ev) true.

Definition record_regret_feedback r table chosen elapsed_ms alternative alternative_ms : QueryRouter :=
  set_fb r (record_regret_sample (qr_feedback r) table chosen elapsed_ms alternative alternative_ms) true.
Definition router_record_shadow_timing r (s : ShadowTimingSample) : QueryRouter := set_fb r (fb_record_shadow_timing (qr_feedback r) s) true.
Definition update_cost_params r (estimated actual : f64) (rows : Z) : QueryRouter := set_cost r (cost_update (qr_cost_params r) estimated actual rows).
Definition record_ml_feedback r (features : list f32) (delta_ms vortex_ms : option f64) : QueryRouter :=
  match delta_ms, vortex_ms with
  | Some dm, Some vm =>
      let f := record_ml_sample (qr_feedback r) features dm vm in
      set_fb r (set_measured_count f (zlen (mlc_samples (fb_ml_collector f)))) true
  | _, _ => set_fb r (qr_feedback r) true
  end.

(** The path a run is compared with, for regret and for the model. *)
Definition regret_path (p : RouteDecision) : RouteDecision := match p with RVortexOnly => RDeltaStoreOnly | _ => RVortexOnly end.
Definition record_regret r (table : string) (chosen : RouteDecision) (elapsed_ms : f64) : QueryRouter :=
  match avg_time (fb_execution (qr_feedback r)) table (regret_path chosen) with
  | Some alt_ms => record_regret_feedback r table chosen elapsed_ms (regret_path chosen) alt_ms
  | None => r
  end.
Definition outcome_features (o : ExecutionOutcome) : list f32 :=
  encode_plan {| rpm_table := oc_table o; rpm_columns := oc_query_columns o; rpm_kind := KFullScan;
    rpm_delta_count := zlen (oc_executed_segment_ids o); rpm_has_pending_writes := false;
    rpm_estimated_selectivity := if oc_candidate_rows o =? 0 then f64_of_Z 0 else f64_div (f64_of_Z (oc_rows_returned o)) (f64_of_Z (oc_candidate_rows o));
    rpm_stats := {| rs_row_count := Z.max (oc_candidate_rows o) (oc_rows_scanned o); rs_total_bytes := 0; rs_compressed_bytes := 0 |} |}.
Definition record_ml_outcome r (o : ExecutionOutcome) (chosen : RouteDecision) : QueryRouter :=
  let avg p := avg_time (fb_execution (qr_feedback r)) (oc_table o) p in
  match chosen with
  | RVortexOnly => record_ml_feedback r (outcome_features o) (avg RDeltaStoreOnly) (Some (oc_elapsed_ms o))
  | RDeltaStoreOnly => record_ml_feedback r (outcome_features o) (Some (oc_elapsed_ms o)) (avg RVortexOnly)
  | RMerge => r
  end.
Definition record_execution_outcome r (o : ExecutionOutcome) : QueryRouter :=
  match oc_chosen_path o with
  | None => r
  | Some chosen =>
      let f := observe_selectivity (qr_feedback r) (oc_table o) (oc_query_columns o) (oc_rows_returned o) (Z.max (oc_candidate_rows o) (oc_rows_returned o)) in
      let r := set_fb r (fb_record_execution_outcome f o chosen) (qr_dirty r) in
      let r := record_regret r (oc_table o) chosen (oc_elapsed_ms o) in
      let r := match oc_estimated_cost o with Some c => update_cost_params r c (oc_elapsed_ms o) (Z.max (oc_rows_scanned o) 1) | None => r end in
      let r := match oc_cooperative_digest o with Some d => set_fb r (record_cooperative_runtime (qr_feedback r) (oc_table o) d) (qr_dirty r) | None => r end in
      let r := record_ml_outcome r o chosen in
      set_fb r (qr_feedback r) true
  end.
Definition record_feedback r table columns actual_rows total_rows elapsed_ms chosen : QueryRouter :=
  let f := observe_selectivity (qr_feedback r) table columns actual_rows total_rows in
  let r := set_fb r (record_execution_aggregate f table chosen elapsed_ms (f64_of_Z 0) total_rows actual_rows) (qr_dirty r) in
  let r := record_regret r table chosen elapsed_ms in
  set_fb r (qr_feedback r) true.

(** ** The checkpoint *)

Definition flush_ml_export_if_ready r : QueryRouter :=
  let f := qr_feedback r in
  let samples := mlc_samples (fb_ml_collector f) in
  if zlen samples <? ml_export_threshold (qr_config r) then r else
  match samples with
  | [] => r
  | _ =>
      let c := {| mlc_samples := []; mlc_max_samples := mlc_max_samples (fb_ml_collector f) |} in
      let f := set_ml f c (fb_durable_ml_exports f ++ [samples]) (fb_ml_promotion f) in
      set_last_export (set_fb r (set_measured_count f 0) (qr_dirty r)) samples
  end.
End router.

Record FeedbackCheckpoint := {
  cp_selectivity_columns : gmap string (list f64);
  cp_selectivity_joints : gmap string (list f64);
  cp_authoritative : records;
  cp_proxy : records;
  cp_shadow_timings : list ShadowTimingSample;
  cp_cooperative_runtime : gmap string CooperativeExecutionDigest;
  cp_cost_params : option CostParams;
  cp_durable_ml_exports : list MlExportBatch;
  cp_ml_promotion : MlPromotionSnapshot;
  cp_last_checkpoint_txn : Z
}.
Definition CF_SYS : string := "sys".
Definition CHECKPOINT_KEY : bytes := as_bytes "router_feedback_checkpoint".
Definition column_key (k : string * string) : string := k.1 +:+ ":" +:+ k.2.
Definition joint_key (k : string * string * string) : string := k.1.1 +:+ ":" +:+ k.1.2 +:+ ":" +:+ k.2.
(** The parts of [splitn]: around the first separator. *)
Fixpoint split_colon (s : string) : option (string * string) :=
  match s with
  | EmptyString => None
  | String c s' => if bool_decide (c = ":"%char) then Some (EmptyString, s') else '(a, b) ← split_colon s'; Some (String c a, b)
  end.
Definition split_joint (s : string) : option (string * string * string) := '(a, rest) ← split_colon s; '(b, c) ← split_colon rest; Some (a, b, c).

Section checkpoint.
Context `{HashIter} `{KVEngine KV} `{!Codec FeedbackCheckpoint}.

Definition serialize_windows {K} `{Countable K} (key : K → string) (m : gmap K SlidingWindow) : gmap string (list f64) :=
  foldl (λ acc e, <[key e.1 := sw_values e.2]> acc) ∅ (hash_iter m).
Definition restore_window (values : list f64) : SlidingWindow := foldl window_push (window_new 1000) values.
Definition restore_windows {K} `{Countable K} (parse : string → option K) (m : gmap string (list f64)) : gmap K SlidingWindow :=
  foldl (λ acc e, match parse e.1 with Some k => <[k := restore_window e.2]> acc | None => acc end) ∅ (hash_iter m).

Definition checkpoint_of f (committed_txn : Z) : FeedbackCheckpoint :=
  {| cp_selectivity_columns := serialize_windows column_key (st_columns (fb_selectivity f));
     cp_selectivity_joints := serialize_windows joint_key (st_joints (fb_selectivity f));
     cp_authoritative := authoritative_records (fb_execution f); cp_proxy := proxy_records (fb_execution f);
     cp_shadow_timings := fb_shadow_timings f; cp_cooperative_runtime := fb_cooperative_runtime f;
     cp_cost_params := fb_cost_params_checkpoint f; cp_durable_ml_exports := fb_durable_ml_exports f; cp_ml_promotion := fb_ml_promotion f;
     cp_last_checkpoint_txn := committed_txn |}.
Definition persist_to_kv f (kv : KV) (committed_txn : Z) : KV * Result unit :=
  match encode (checkpoint_of f committed_txn) with
  | Err _ => (kv, Err (EInternal "serialize feedback"))
  | Ok data =>
      match kv_put kv CF_SYS CHECKPOINT_KEY data with
      | (kv, Ok _) => (kv, Ok tt)
      | (kv, Err _) => (kv, Err (EWrite "persist feedback"))
      end
  end.
Definition restore_feedback (cp : FeedbackCheckpoint) : FeedbackState :=
  {| fb_selectivity := {| st_columns := restore_windows split_colon (cp_selectivity_columns cp);
                          st_joints := restore_windows split_joint (cp_selectivity_joints cp); st_max_size := 1000;
                          default_selectivity := f64_lit 1 10 |};
     fb_execution := {| authoritative_records := cp_authoritative cp; proxy_records := cp_proxy cp; max_per_table := 1000 |};
     fb_shadow_timings := cp_shadow_timings cp; fb_ml_collector := from_export_batches (cp_durable_ml_exports cp) 10000;
     fb_last_evidence := ∅; fb_cooperative_runtime := cp_cooperative_runtime cp; fb_cost_params_checkpoint := cp_cost_params cp;
     fb_durable_ml_exports := cp_durable_ml_exports cp; fb_ml_promotion := cp_ml_promotion cp |}.
(** An unreadable checkpoint and an error of the store count as none. *)
Definition load_from_kv (kv : KV) : FeedbackState :=
  match kv_get kv CF_SYS CHECKPOINT_KEY with
  | Ok (Some data) => match decode data with Ok cp => restore_feedback cp | Err _ => feedback_default end
  | _ => feedback_default
  end.

(** [file] is what reading the weight file answers. *)
Definition router_open (kv : KV) (cfg : RouterConfig) (file : result string bytes) : QueryRouter :=
  let f := load_from_kv kv in
  router_with cfg (match fb_cost_params_checkpoint f with Some c => apply_checkpoint c | None => cost_from_config cfg end)
    (if ml_enabled cfg then Some (TreeCnnRouter_new cfg file) else None) f.

Definition checkpoint_if_dirty r (kv : KV) (committed_txn : Z) : QueryRouter * KV * Result bool :=
  let st := qr_stats r in
  let called := {| hs_calls := hs_calls st + 1; hs_writes := hs_writes st; hs_skips := hs_skips st |} in
  if negb (qr_dirty r)
  then (set_hotspots r {| hs_calls := hs_calls called; hs_writes := hs_writes st; hs_skips := hs_skips st + 1 |}, kv, Ok false)
  else
    let r := set_hotspots r called in
    let r := flush_ml_export_if_ready (set_fb r (set_cost_params_checkpoint (qr_feedback r) (qr_cost_params r)) true) in
    match persist_to_kv (qr_feedback r) kv committed_txn with
    | (kv, Err e) => (r, kv, Err e)
    | (kv, Ok _) =>
        (set_hotspots (set_fb r (qr_feedback r) false) {| hs_calls := hs_calls called; hs_writes := hs_writes st + 1; hs_skips := hs_skips st |}, kv, Ok true)
    end.
End checkpoint.

(** * The router as a scan calls it *)

(** scan.rs: a shadow time is at least the logarithm of the rows. *)
Definition sample_shadow_timing `{FloatLogs} (o : ExecutionOutcome) (shadow_path : RouteDecision) (ms : f64) (p : ShadowTimingPolicy) : option ShadowTimingSample :=
  sampled_from_outcome o shadow_path (f64_max ms (f64_ln_1p (f64_of_Z (Z.max (oc_rows_scanned o) 1)))) p.

(** The router, the compaction scheduler it informs, and the clock's readings. *)
Record LiveRouter := { lv_router : QueryRouter; lv_compaction : AdaptiveCompactionScheduler; lv_clock : list Z }.
Definition on_live (l : LiveRouter) r : LiveRouter := {| lv_router := r; lv_compaction := lv_compaction l; lv_clock := lv_clock l |}.
Definition informed (l : LiveRouter) (ev : EvidenceSnapshot) : LiveRouter :=
  {| lv_router := lv_router l; lv_compaction := observe_metadata_evidence (lv_compaction l) ev; lv_clock := lv_clock l |}.
#[export] Instance live_scan_router `{HashIter} `{KVEngine KV} `{!Codec FeedbackCheckpoint} `{FloatMath} `{FloatLogs} `{ShadowHash} : ScanRouter LiveRouter KV := {
  router_route l params :=
    let '(r, res) := route (default 0 (head (lv_clock l))) (lv_router l) params in
    ({| lv_router := r; lv_compaction := lv_compaction l; lv_clock := tail (lv_clock l) |}, res);
  router_observe_metadata := informed;
  router_observe_route l table routed res ev := on_live l (observe_route_selection (lv_router l) table routed res ev);
  router_observe_maintenance := informed;
  router_budget l table n := cooperative_runtime_budget (lv_router l) table n;
  router_samples_shadow l table columns path n :=
    let '(r, b) := should_sample_shadow_timing (lv_router l) table columns path n in (on_live l r, b);
  router_record_outcome l o := on_live l (record_execution_outcome (lv_router l) o);
  router_record_shadow l o path ms :=
    match sample_shadow_timing o path ms BoundedDualPathPolicy with
    | Some s => on_live l (router_record_shadow_timing (lv_router l) s)
    | None => l
    end;
  router_checkpoint l kv t := let '(r, kv, _) := checkpoint_if_dirty (lv_router l) kv t in (on_live l r, kv)
}.

(** * Proofs *)

(** ** The router's calls *)

Inductive RouterOp :=
  | OpRoute (now_ms : Z) (params : RouterParams)
  | OpSelection (table : string) (routed : list SegmentMeta) (res : RoutingResult) (ev : EvidenceSnapshot)
  | OpOutcome (o : ExecutionOutcome)
  | OpFeedback (table : string) (columns : list string) (actual_rows total_rows : Z) (ms : f64) (chosen : RouteDecision)
  | OpShadow (s : ShadowTimingSample)
  | OpSample (table : string) (columns : list string) (path : RouteDecision) (routed : Z)
  | OpCheckpoint (committed_txn : Z).

Section router_ops.
Context `{HashIter} `{KVEngineLaws KV} `{!Codec FeedbackCheckpoint} `{FloatMath} `{FloatLogs} `{ShadowHash}.
Implicit Types kv : KV.
Definition router_do (op : RouterOp) (s : QueryRouter * KV) : QueryRouter * KV :=
  let '(r, kv) := s in
  match op with
  | OpRoute now params => ((route now r params).1, kv)
  | OpSelection table routed res ev => (observe_route_selection r table routed res ev, kv)
  | OpOutcome o => (record_execution_outcome r o, kv)
  | OpFeedback table columns a t ms p => (record_feedback r table columns a t ms p, kv)
  | OpShadow s => (router_record_shadow_timing r s, kv)
  | OpSample table columns path n => ((should_sample_shadow_timing r table columns path n).1, kv)
  | OpCheckpoint t => (checkpoint_if_dirty r kv t).1
  end.
Definition router_run (ops : list RouterOp) (s : QueryRouter * KV) : QueryRouter * KV := foldl (λ s op, router_do op s) s ops.

(** A predicate on the parts that recording changes is kept by every call when
    each way of recording keeps it. *)
Record recording_inv (P : SelectivityTracker → Prop) (Q : ExecutionHistory → Prop) : Prop := {
  inv_observe t table col a n : P t → P (tracker_observe t table col a n);
  inv_joint t table c1 c2 a n : P t → P (observe_joint t table c1 c2 a n);
  inv_record h rec : Q h → Q (history_record h rec)
}.
Definition fb_inv (P : SelectivityTracker → Prop) (Q : ExecutionHistory → Prop) f : Prop := P (fb_selectivity f) ∧ Q (fb_execution f).

Section with_inv.
Context P Q (HI : recording_inv P Q).
Lemma observe_selectivity_inv f table cols a n : fb_inv P Q f → fb_inv P Q (observe_selectivity f table cols a n).
Proof.
  intros [HP HQ]. unfold observe_selectivity. case_match; [done|]. split; [|done]. cbn.
  assert (P (foldl (λ t col, tracker_observe t table col a n) (fb_selectivity f) cols)) as Hf.
  { revert HP. generalize (fb_selectivity f). induction cols as [|c cols IH]; intros t HP; cbn; [done|]. by apply IH, (inv_observe _ _ HI). }
  destruct cols as [|c1 [|c2 cols]]; [done..|]. by apply (inv_joint _ _ HI).
Qed.
Lemma set_fb_inv r f b : fb_inv P Q f → fb_inv P Q (qr_feedback (set_fb r f b)).
Proof. done. Qed.
Lemma recorded_inv f rec : fb_inv P Q f → fb_inv P Q (set_execution f (history_record (fb_execution f) rec)).
Proof. intros [HP HQ]. split; [done|]. by apply (inv_record _ _ HI). Qed.
Lemma record_regret_inv r table chosen ms : fb_inv P Q (qr_feedback r) → fb_inv P Q (qr_feedback (record_regret r table chosen ms)).
Proof. intros Hr. unfold record_regret. case_match; [by apply recorded_inv|done]. Qed.
Lemma record_ml_feedback_inv r feat d v : fb_inv P Q (qr_feedback r) → fb_inv P Q (qr_feedback (record_ml_feedback r feat d v)).
Proof. intros Hr. unfold record_ml_feedback. by repeat case_match. Qed.
Lemma record_outcome_inv r o : fb_inv P Q (qr_feedback r) → fb_inv P Q (qr_feedback (record_execution_outcome r o)).
Proof.
  intros Hr. unfold record_execution_outcome. destruct (oc_chosen_path o) as [chosen|]; [|done].
  set (r1 := set_fb r (fb_record_execution_outcome _ o chosen) _).
  assert (fb_inv P Q (qr_feedback r1)) as Hx1 by (by apply recorded_inv, observe_selectivity_inv).
  apply (record_regret_inv _ (oc_table o) chosen (oc_elapsed_ms o)) in Hx1. revert Hx1. generalize (record_regret r1 (oc_table o) chosen (oc_elapsed_ms o)).
  intros r2 Hx2. apply set_fb_inv. unfold record_ml_outcome.
  assert (∀ r3, fb_inv P Q (qr_feedback r3) → fb_inv P Q (qr_feedback (match chosen with
    | RVortexOnly => record_ml_feedback r3 (outcome_features o) (avg_time (fb_execution (qr_feedback r3)) (oc_table o) RDeltaStoreOnly) (Some (oc_elapsed_ms o))
    | RDeltaStoreOnly => record_ml_feedback r3 (outcome_features o) (Some (oc_elapsed_ms o)) (avg_time (fb_execution (qr_feedback r3)) (oc_table o) RVortexOnly)
    | RMerge => r3 end))) as Hml by (intros r3 Hx3; destruct chosen; [by apply record_ml_feedback_inv..|done]).
  apply Hml. destruct (oc_estimated_cost o), (oc_cooperative_digest o); done.
Qed.
Lemma route_inv now r params : fb_inv P Q (qr_feedback r) → fb_inv P Q (qr_feedback (route now r params).1).
Proof. intros Hr. unfold route. by repeat case_match. Qed.
Lemma checkpoint_inv r kv t : fb_inv P Q (qr_feedback r) → fb_inv P Q (qr_feedback (checkpoint_if_dirty r kv t).1.1).
Proof.
  intros Hr. unfold checkpoint_if_dirty. destruct (negb (qr_dirty r)); [done|].
  set (r1 := set_fb (set_hotspots r _) _ true). assert (fb_inv P Q (qr_feedback (flush_ml_export_if_ready r1))) as Hx1.
  { unfold flush_ml_export_if_ready. by repeat case_match. }
  destruct (persist_to_kv _ kv t) as [kv' []]; done.
Qed.
Lemma router_run_inv ops s : fb_inv P Q (qr_feedback s.1) → fb_inv P Q (qr_feedback (router_run ops s).1).
Proof.
  revert s. induction ops as [|op ops IH]; intros [r kv] Hr; [done|]. apply IH. destruct op; cbn.
  - by apply route_inv.
  - destruct Hr. split; [done|]. by apply (inv_record _ _ HI).
  - by apply record_outcome_inv.
  - refine (record_regret_inv _ _ _ _ _). by apply recorded_inv, observe_selectivity_inv.
  - unfold fb_record_shadow_timing. case_match; [done|]. destruct Hr. split; [done|]. by apply (inv_record _ _ HI).
  - unfold should_sample_shadow_timing. by case_match.
  - pose proof (checkpoint_inv r kv committed_txn Hr) as Hc. by destruct (checkpoint_if_dirty r kv committed_txn) as [[r' kv'] ?].
Qed.
End with_inv.
End router_ops.

(** ** Histories *)

Lemma keep_last_length {A} max (l : list A) : 0 ≤ max → zlen (keep_last max l) ≤ max.
Proof. unfold keep_last. intros. destruct (Z.ltb_spec max (zlen l)); [|done]. unfold zlen in *. rewrite length_drop. lia. Qed.
Lemma keep_last_all {A} max (l : list A) : zlen l ≤ max → keep_last max l = l.
Proof. unfold keep_last. intros. by rewrite (proj2 (Z.ltb_ge _ _)). Qed.

(** Every table's records are at most [n]. *)
Definition records_le (n : Z) (m : records) : Prop := map_Forall (λ _ l, zlen l ≤ n) m.
Definition history_le (n : Z) (h : ExecutionHistory) : Prop :=
  max_per_table h = n ∧ records_le n (authoritative_records h) ∧ records_le n (proxy_records h).
Lemma push_record_le n m rec : 0 ≤ n → records_le n m → records_le n (push_record m n rec).
Proof. intros Hn Hm. apply map_Forall_insert_2; [by apply keep_last_length|done]. Qed.
Lemma history_record_le n h rec : 0 ≤ n → history_le n h → history_le n (history_record h rec).
Proof.
  intros Hn (Hmax & Ha & Hp). unfold history_record. destruct (is_proxy rec); cbn; rewrite Hmax; (split_and!; [done| |]); try done; by apply push_record_le.
Qed.
Lemma records_empty m table : records_le 0 m → default [] (m !! table) = [].
Proof.
  intros Hm. destruct (m !! table) as [l|] eqn:E; [|done]. apply Hm in E. cbn in *. destruct l; [done|]. unfold zlen in E. cbn in E. lia.
Qed.

Section router_theorems.
Context `{HashIter} `{KVEngineLaws KV} `{!Codec FeedbackCheckpoint} `{FloatMath} `{FloatLogs} `{ShadowHash}.
Implicit Types kv : KV.

(** C37: a router opened on a store without a checkpoint learns no costs from
    executions (selectivities and cost parameters are learned elsewhere).  Its history has the derived default limit of zero records per
    table, so whatever runs and shadow timings are recorded no cost sample exists,
    no execution counts as measured and the statistical tier compares the bare
    estimates, for the whole life of the process. *)
Theorem fresh_router_keeps_no_history kv cfg file ops table path :
  kv_get kv CF_SYS CHECKPOINT_KEY = Ok None →
  let r := (router_run ops (router_open kv cfg file, kv)).1 in
  measured_cost_sample (fb_execution (qr_feedback r)) table path = None ∧
  measured_execution_count (fb_execution (qr_feedback r)) table = 0 ∧
  ∀ params, let rows := estimated_scanned_rows (rpm_stats params) (get_selectivity params (fb_selectivity (qr_feedback r))) in
    tier2_costs params cfg (qr_feedback r) (qr_cost_params r) =
      (delta_scan_cost rows (rpm_stats params) (qr_cost_params r), vortex_scan_cost rows (rpm_stats params) (qr_cost_params r),
       merge_cost (rpm_delta_count params) rows (rpm_stats params) (qr_cost_params r)).
Proof.
  intros Hk r. assert (fb_inv (λ _, True) (history_le 0) (qr_feedback r)) as [_ (_ & Ha & Hp)].
  { apply router_run_inv; [split; [done|done|intros; by apply history_record_le]|]. cbn. unfold load_from_kv. rewrite Hk.
    by split; [|split_and!; [|apply map_Forall_empty..]]. }
  assert (∀ t p, measured_cost_sample (fb_execution (qr_feedback r)) t p = None) as Hn.
  { intros t p. unfold measured_cost_sample. by rewrite !records_empty. }
  split_and!; [done|unfold measured_execution_count; by rewrite records_empty|]. intros params. unfold tier2_costs. by rewrite !Hn.
Qed.

(** Choosing a path counts as running it in no time.  After three route
    selections of a path for a table without earlier records, none of them
    executed, the path has a sample of measured quality with average zero, and the
    statistical tier blends its cost with zero. *)
Theorem selections_blend_as_zero_cost r table (sel : list (list SegmentMeta * RoutingResult * EvidenceSnapshot)) path est w :
  3 ≤ max_per_table (fb_execution (qr_feedback r)) → authoritative_records (fb_execution (qr_feedback r)) !! table = None →
  length sel = 3%nat → Forall (λ x, rr_decision x.1.2 = path) sel →
  let r' := foldl (λ r x, observe_route_selection r table x.1.1 x.1.2 x.2) r sel in
  measured_cost_sample (fb_execution (qr_feedback r')) table path =
    Some {| mc_avg_elapsed_ms := f64_of_Z 0; mc_sample_count := 3; mc_quality := Measured |} ∧
  blend_cost est (measured_cost_sample (fb_execution (qr_feedback r')) table path) w = blend est (f64_of_Z 0) w.
Proof.
  intros Hmax Hnone Hlen Hall. destruct sel as [|[[m1 s1] e1] [|[[m2 s2] e2] [|[[m3 s3] e3] [|]]]]; try done. clear Hlen.
  apply Forall_cons in Hall as [E1 Hall]. apply Forall_cons in Hall as [E2 Hall]. apply Forall_cons in Hall as [E3 _]. cbn in E1, E2, E3.
  intros r'. assert (∃ a b c, authoritative_records (fb_execution (qr_feedback r')) !! table = Some [a; b; c] ∧
    er_chosen_path a = path ∧ er_chosen_path b = path ∧ er_chosen_path c = path ∧
    er_elapsed_ms a = f64_of_Z 0 ∧ er_elapsed_ms b = f64_of_Z 0 ∧ er_elapsed_ms c = f64_of_Z 0) as (a & b & c & Hl & Pa & Pb & Pc & Ta & Tb & Tc).
  { eexists _, _, _. split.
    { subst r'. cbn. unfold push_record; cbn. rewrite lookup_insert_eq. f_equal. rewrite Hnone, lookup_insert_eq. cbn.
      rewrite (keep_last_all _ [_]) by (unfold zlen; cbn; lia). rewrite lookup_insert_eq. cbn.
      rewrite (keep_last_all _ [_; _]) by (unfold zlen; cbn; lia). by rewrite keep_last_all by (unfold zlen; cbn; lia). }
    by split_and!. }
  assert (measured_cost_sample (fb_execution (qr_feedback r')) table path =
    Some {| mc_avg_elapsed_ms := f64_of_Z 0; mc_sample_count := 3; mc_quality := Measured |}) as Hs.
  { unfold measured_cost_sample. rewrite Hl. cbn [from_option id]. unfold id. rewrite !filter_cons_True, filter_nil by done. unfold sample_of.
    cbn [fmap list_fmap]. rewrite Ta, Tb, Tc. f_equal. }
  split; [exact Hs|]. by rewrite Hs.
Qed.

(** ** Decisions *)

Lemma f64_leb_rank x y : x ≠ S754_nan → y ≠ S754_nan → f64_leb x y = true ↔ cmp (f64_rank x) (f64_rank y) ≠ Gt.
Proof. intros Hx Hy. unfold f64_leb, SFleb. rewrite SFcompare_rank by done. by destruct (cmp _ _). Qed.
Lemma f64_leb_refl x : x ≠ S754_nan → f64_leb x x = true.
Proof. intros Hx. apply f64_leb_rank; [done..|]. by rewrite cmp_refl. Qed.
Lemma f64_leb_flip x y : x ≠ S754_nan → y ≠ S754_nan → f64_leb x y = false → f64_leb y x = true.
Proof.
  intros Hx Hy Hl. apply f64_leb_rank; [done..|]. intros Hg%cmp_gt_lt. assert (f64_leb x y = true) by (apply f64_leb_rank; [done..|congruence]). congruence.
Qed.
Lemma f64_leb_trans x y z : x ≠ S754_nan → y ≠ S754_nan → z ≠ S754_nan → f64_leb x y = true → f64_leb y z = true → f64_leb x z = true.
Proof.
  intros Hx Hy Hz. rewrite !f64_leb_rank by done. intros Hxy Hyz Hxz%cmp_gt_lt.
  destruct (cmp (f64_rank y) (f64_rank z)) eqn:E; [|by apply Hxy, cmp_gt_lt, (cmp_lt_trans _ (f64_rank z))|done].
  apply cmp_eq in E. rewrite <- E in Hxz. by apply Hxy, cmp_gt_lt.
Qed.
Lemma argmin_path_min d v m : d ≠ S754_nan → v ≠ S754_nan → m ≠ S754_nan →
  let '(p, c) := argmin_path d v m in
  c = match p with RDeltaStoreOnly => d | RVortexOnly => v | RMerge => m end ∧ f64_leb c d = true ∧ f64_leb c v = true ∧ f64_leb c m = true.
Proof.
  intros Hd Hv Hm. unfold argmin_path.
  destruct (f64_leb d v) eqn:Edv, (f64_leb d m) eqn:Edm, (f64_leb v m) eqn:Evm; cbn; split_and!; try done; try (by apply f64_leb_refl);
    try (by apply f64_leb_flip); try (apply (f64_leb_trans _ v); [done..| |]; solve [done | by apply f64_leb_flip]);
    try (apply (f64_leb_trans _ m); [done..| |]; solve [done | by apply f64_leb_flip]); try (apply (f64_leb_trans _ d); [done..| |]; solve [done | by apply f64_leb_flip]).
Qed.

(** The router without its model. *)
Definition without_ml r : QueryRouter :=
  {| qr_config := qr_config r; qr_cost_params := qr_cost_params r; qr_ml := None; qr_feedback := qr_feedback r; qr_dirty := qr_dirty r;
     qr_stats := qr_stats r; qr_last_ml_export := qr_last_ml_export r; qr_shadow_epoch := qr_shadow_epoch r |}.
Lemma route_without_authority now r params : ml_routing_mode r ≠ LiveAuthority → (route now r params).2 = (route now (without_ml r) params).2.
Proof.
  unfold ml_routing_mode, route. cbn. intros Hm. destruct (tier1_decide _ _); [done|]. destruct (f64_ltb _ _); [done|]. destruct (qr_ml r) as [ml|]; [|done].
  destruct (ml_enabled (qr_config r)); [|done]. cbn in *. unfold live_override_decision.
  destruct (live_authority_enabled _); [done|]. by rewrite orb_true_r.
Qed.

(** C38: what the router decides.  A query that a rule decides gets the rule's path, and
    the model is not asked: the router is unchanged.  While the model has no live
    authority, its presence changes no decision, whatever the rules and the costs; and
    then a query that no rule decides gets the decision by cost, which, when the three
    blended costs are numbers, is the path whose cost is smallest, with that cost. *)
Theorem route_takes_cheapest_path now r params :
  (∀ d, tier1_decide params (qr_config r) = Some d →
     (route now r params).1 = r ∧ rr_decision (route now r params).2 = d ∧ rr_tier (route now r params).2 = "tier1_rule") ∧
  (ml_routing_mode r ≠ LiveAuthority →
     let res := (route now r params).2 in
     res = (route now (without_ml r) params).2 ∧
     (tier1_decide params (qr_config r) = None →
        rr_tier res = "tier2_cost" ∧
        let '(d, v, m) := tier2_costs params (qr_config r) (qr_feedback r) (qr_cost_params r) in
        d ≠ S754_nan → v ≠ S754_nan → m ≠ S754_nan →
        rr_estimated_cost res = match rr_decision res with RDeltaStoreOnly => d | RVortexOnly => v | RMerge => m end ∧
        f64_leb (rr_estimated_cost res) d = true ∧ f64_leb (rr_estimated_cost res) v = true ∧ f64_leb (rr_estimated_cost res) m = true)).
Proof.
  split; [intros d Hd; unfold route; by rewrite Hd|]. intros Hm. cbv zeta. rewrite (route_without_authority now r params Hm).
  split; [done|]. intros H1'. assert ((route now (without_ml r) params).2 = tier2_decide params (qr_config r) (qr_feedback r) (qr_cost_params r)) as ->.
  { unfold route, without_ml. cbn. rewrite H1'. by case_match. }
  unfold tier2_decide. destruct (tier2_costs _ _ _ _) as [[d v] m] eqn:Ec. pose proof (argmin_path_min d v m) as Ha.
  destruct (argmin_path d v m) as [p c]. cbn. split; [done|]. intros Hd Hv Hmn. by destruct (Ha Hd Hv Hmn) as (-> & ? & ? & ?).
Qed.

(** The budget that a scan gets back from its last cooperative run names at
    least one segment and at most the routed ones, and a time of at least one
    millisecond that is at most the larger of the last one and 250; a run that used
    up its time never gets a longer one. *)
Theorem slice_budget_bounds r table routed d b b' :
  fb_cooperative_runtime (qr_feedback r) !! table = Some d → dg_budget d = Some b →
  cooperative_runtime_budget r table routed = Some b' →
  1 ≤ max_segments_per_slice b' ≤ Z.max 1 routed ∧ 1 ≤ max_slice_ms b' ≤ Z.max 250 (max_slice_ms b) ∧
  (dg_elapsed_budget_exhausted d = true → max_slice_ms b' = Z.max 1 (max_slice_ms b)) ∧
  (dg_truncated_segments d ≠ [] → max_segments_per_slice b' ≤ zlen (dg_truncated_segments d)).
Proof.
  intros Hd Hb. unfold cooperative_runtime_budget. rewrite Hd. cbn [mbind option_bind]. rewrite Hb. cbn [mbind option_bind]. intros [= <-]. cbn.
  assert (dg_truncated_segments d ≠ [] → 1 ≤ zlen (dg_truncated_segments d)) as Hl.
  { destruct (dg_truncated_segments d); [done|]. unfold zlen. cbn. lia. }
  pose proof (zlen_nonneg (dg_truncated_segments d)) as Hz. unfold u64_max.
  destruct (Z.eqb_spec (zlen (dg_truncated_segments d)) 0) as [E|E], (dg_max_segments_per_slice_hit d), (dg_elapsed_budget_exhausted d);
    split_and!; try lia; try (intros; lia); intros Hne; specialize (Hl Hne); lia.
Qed.
End router_theorems.

(** ** The checkpoint *)

Lemma NoDup_omap_inj {A B} (g : A → option B) l : NoDup l → (∀ x y b, x ∈ l → y ∈ l → g x = Some b → g y = Some b → x = y) → NoDup (omap g l).
Proof.
  induction 1 as [|x l Hx Hl IH]; intros Hg; cbn; [constructor|]. assert (NoDup (omap g l)) as Hd by (apply IH; set_solver).
  destruct (g x) as [b|] eqn:E; [|done]. constructor; [|done]. intros (y & Hy & Hyb)%list_elem_of_omap.
  assert (x = y) as -> by (apply (Hg x y b); [left|by right|done|done]). done.
Qed.

(** Entries inserted one after the other under distinct keys. *)
Definition insert_entries {K B V X} `{Countable B} (key : K → option B) (g : V → X) (acc : gmap B X) (l : list (K * V)) : gmap B X :=
  foldl (λ acc e, match key e.1 with Some k => <[k := g e.2]> acc | None => acc end) acc l.
Lemma insert_entries_lookup {K B V X} `{Countable B} (key : K → option B) (g : V → X) l acc s x : NoDup (omap key (l.*1)) →
  insert_entries key g acc l !! s = Some x ↔
    (∃ k v, (k, v) ∈ l ∧ key k = Some s ∧ x = g v) ∨ ((s ∉ omap key (l.*1)) ∧ acc !! s = Some x).
Proof.
  revert acc. induction l as [|[k v] l IH]; intros acc Hnd; cbn in Hnd |- *; [set_solver|].
  destruct (key k) as [b|] eqn:E.
  - apply NoDup_cons in Hnd as [Hb Hnd]. fold (insert_entries key g (<[b:=g v]> acc) l). rewrite (IH _ Hnd). split.
    + intros [(k' & v' & Hin & Hk & ->)|[Hs Hl]]; [left; set_solver|]. apply lookup_insert_Some in Hl as [[-> <-]|[Hne Hl]].
      * left. exists k, v. set_solver.
      * right. split; [|done]. by intros [->|Hin]%elem_of_cons.
    + intros [(k' & v' & [[= -> ->]|Hin]%elem_of_cons & Hk & ->)|[Hs Hl]].
      * right. assert (b = s) as -> by congruence. split; [done|]. apply lookup_insert_eq.
      * left. eauto.
      * apply not_elem_of_cons in Hs as [Hne Hs]. right. split; [done|]. by rewrite lookup_insert_ne.
  - fold (insert_entries key g acc l). rewrite (IH _ Hnd). split; [set_solver|].
    intros [(k' & v' & [[= -> ->]|Hin]%elem_of_cons & Hk & ->)|Hr]; [congruence|left; eauto|by right].
Qed.

Lemma split_colon_Some s a b : split_colon s = Some (a, b) → s = a +:+ ":" +:+ b.
Proof.
  revert a b. induction s as [|c s IH]; intros a b; cbn; [done|]. case_bool_decide as Hc; [intros [= <- <-]; by subst|].
  destruct (split_colon s) as [[a' b']|]; cbn; [|done]. intros [= <- <-]. cbn. by rewrite (IH a' b' eq_refl).
Qed.
Lemma split_colon_join a b : split_colon a = None → split_colon (a +:+ ":" +:+ b) = Some (a, b).
Proof.
  induction a as [|c a IH]; [done|]. change (String c a +:+ ":" +:+ b) with (String c (a +:+ ":" +:+ b)). cbn [split_colon].
  case_bool_decide; [done|]. destruct (split_colon a) as [[]|]; [done|]. intros _. by rewrite IH.
Qed.
Lemma window_push_values w l : zlen (sw_values w) + zlen l ≤ sw_max_size w → sw_values (foldl window_push w l) = sw_values w ++ l.
Proof.
  revert w. induction l as [|x l IH]; intros w Hl; cbn; [by rewrite app_nil_r|]. unfold zlen in *. cbn [length] in Hl.
  assert (sw_values (window_push w x) = sw_values w ++ [x] ∧ sw_max_size (window_push w x) = sw_max_size w) as [Ev Em].
  { unfold window_push. destruct (sw_values w) as [|y rest] eqn:E; [done|]. rewrite (proj2 (Z.leb_gt _ _)); [done|]. unfold zlen. lia. }
  rewrite IH, Ev, <- app_assoc; [done|]. rewrite Ev, Em, length_app. cbn. lia.
Qed.

Section roundtrip.
Context `{HashIter} `{KVEngineLaws KV} `{CodecLaws FeedbackCheckpoint}.
Implicit Types kv : KV.
(** Writing windows under texts and reading them back, for keys that parse back. *)
Lemma restore_serialize {K} `{Countable K} (key : K → string) (parse : string → option K) (m : gmap K SlidingWindow) :
  (∀ s k, parse s = Some k → s = key k) →
  map_Forall (λ k w, parse (key k) = Some k ∧ zlen (sw_values w) ≤ 1000) m →
  sw_values <$> restore_windows parse (serialize_windows key m) = sw_values <$> m.
Proof.
  intros Hparse Hm. assert (∀ k w, (k, w) ∈ hash_iter m → parse (key k) = Some k ∧ zlen (sw_values w) ≤ 1000) as Hk.
  { intros k w Hin%elem_of_hash_iter. by apply (Hm k w). }
  assert (∀ s vs, (serialize_windows key m !! s = Some vs) ↔ (∃ k w, m !! k = Some w ∧ s = key k ∧ vs = sw_values w)) as Hs.
  { intros s vs. change (serialize_windows key m) with (insert_entries (λ k, Some (key k)) sw_values ∅ (hash_iter m)).
    rewrite insert_entries_lookup.
    - rewrite lookup_empty. setoid_rewrite elem_of_hash_iter. naive_solver.
    - apply NoDup_omap_inj; [apply hash_iter_NoDup_fst|]. intros x y b Hx Hy [= <-] [= Hxy].
      apply list_elem_of_fmap in Hx as ([? w] & -> & Hx). apply list_elem_of_fmap in Hy as ([? w'] & -> & Hy). cbn in *.
      apply Hk in Hx as [Hx _]. apply Hk in Hy as [Hy _]. congruence. }
  apply map_eq. intros k. rewrite !lookup_fmap. apply option_eq. intros vs. rewrite !fmap_Some.
  change (restore_windows parse (serialize_windows key m)) with (insert_entries parse restore_window ∅ (hash_iter (serialize_windows key m))).
  setoid_rewrite insert_entries_lookup.
  2:{ apply NoDup_omap_inj; [apply hash_iter_NoDup_fst|]. intros s1 s2 b _ _ Hs1 Hs2. apply Hparse in Hs1, Hs2. congruence. }
  setoid_rewrite lookup_empty. setoid_rewrite elem_of_hash_iter. setoid_rewrite Hs.
  assert (∀ k' w, m !! k' = Some w → sw_values (restore_window (sw_values w)) = sw_values w) as Hw.
  { intros k' w Hin. apply Hm in Hin as [_ Hl]. unfold restore_window. rewrite window_push_values; [done|]. cbn. unfold zlen in *. cbn. lia. }
  split.
  - intros (x & [(s & vs' & (k' & w & Hin & -> & ->) & Hp & ->)|[_ ?]] & ->); [|done]. exists w.
    assert (k' = k) as -> by (apply Hm in Hin as [Hin _]; congruence). split; [done|]. by apply (Hw k).
  - intros (w & Hin & ->). exists (restore_window (sw_values w)). split; [|by rewrite (Hw k)].
    left. exists (key k), (sw_values w). split_and!; [by exists k, w|by apply Hm in Hin as [? _]|done].
Qed.

(** C36: A written checkpoint restores the router's knowledge.  When no name holds
    the separator and no window is longer than the restored limit, loading after a
    successful write gives back every column's and every pair's observations, both
    execution histories, the shadow timings, the runtime digests, the cost
    parameters and the exports; the limit per table is 1000 afterwards. *)
Theorem feedback_checkpoint_roundtrip f kv kv' t v :
  map_Forall (λ k w, split_colon k.1 = None ∧ zlen (sw_values w) ≤ 1000) (st_columns (fb_selectivity f)) →
  map_Forall (λ k w, split_colon k.1.1 = None ∧ split_colon k.1.2 = None ∧ zlen (sw_values w) ≤ 1000) (st_joints (fb_selectivity f)) →
  persist_to_kv f kv t = (kv', Ok tt) → kv_get kv' CF_SYS CHECKPOINT_KEY = Ok v →
  let f' := load_from_kv kv' in
  sw_values <$> st_columns (fb_selectivity f') = sw_values <$> st_columns (fb_selectivity f) ∧
  sw_values <$> st_joints (fb_selectivity f') = sw_values <$> st_joints (fb_selectivity f) ∧
  fb_execution f' = {| authoritative_records := authoritative_records (fb_execution f); proxy_records := proxy_records (fb_execution f); max_per_table := 1000 |} ∧
  fb_shadow_timings f' = fb_shadow_timings f ∧ fb_cooperative_runtime f' = fb_cooperative_runtime f ∧
  fb_cost_params_checkpoint f' = fb_cost_params_checkpoint f ∧ fb_durable_ml_exports f' = fb_durable_ml_exports f ∧ fb_ml_promotion f' = fb_ml_promotion f.
Proof.
  intros Hc Hj Hp Hg f'. assert (f' = restore_feedback (checkpoint_of f t)) as ->.
  { subst f'. unfold load_from_kv. rewrite Hg. unfold persist_to_kv in Hp. destruct (encode (checkpoint_of f t)) as [data|] eqn:Ee; [|done].
    pose proof (kv_put_spec kv CF_SYS CHECKPOINT_KEY data CF_SYS) as Hs. destruct (kv_put kv CF_SYS CHECKPOINT_KEY data) as [kv1 [[]|]]; [|done].
    injection Hp as <-. apply kv_get_spec in Hg. cbn [fst snd is_ok andb] in Hs. rewrite bool_decide_true in Hs by done. rewrite Hs, lookup_insert_eq in Hg. subst v. by rewrite (decode_encode _ _ Ee). }
  cbn. split_and!; try done; (apply restore_serialize; [|eapply map_Forall_impl; [eassumption|]]); cbn.
  - intros s [a b]. apply split_colon_Some.
  - intros [a b] w [Ha Hw]. split; [|done]. by apply split_colon_join.
  - intros s [[a b] c]. unfold split_joint. destruct (split_colon s) as [[a' r]|] eqn:E; cbn; [|done]. destruct (split_colon r) as [[b' c']|] eqn:E'; cbn; [|done].
    intros [= -> -> ->]. apply split_colon_Some in E, E'. by subst.
  - intros [[a b] c] w (Ha & Hb & Hw). split; [|done]. unfold split_joint, joint_key. cbn.
    rewrite (split_colon_join a (b +:+ ":" +:+ c) Ha). cbn. by rewrite (split_colon_join b c Hb).
Qed.
End roundtrip.

(** * Witnesses *)

Section witnesses.
#[local] Instance SliceBudget_dec : EqDecision SliceBudget.
Proof. solve_decision. Defined.
#[local] Instance Digest_dec : EqDecision CooperativeExecutionDigest.
Proof. solve_decision. Defined.
#[local] Instance Policy_dec : EqDecision ShadowTimingPolicy.
Proof. solve_decision. Defined.
#[local] Instance ShadowTimingSample_dec : EqDecision ShadowTimingSample.
Proof. solve_decision. Defined.
#[local] Instance ExecutionRecord_dec : EqDecision ExecutionRecord.
Proof. solve_decision. Defined.
#[local] Instance CostParams_dec : EqDecision CostParams.
Proof. solve_decision. Defined.
#[local] Instance MlSample_dec : EqDecision MlSample.
Proof. solve_decision. Defined.
#[local] Instance Evaluation_dec : EqDecision MlShadowEvaluationSample.
Proof. solve_decision. Defined.
#[local] Instance Promotion_dec : EqDecision MlPromotionSnapshot.
Proof. solve_decision. Defined.
#[local] Instance Checkpoint_dec : EqDecision FeedbackCheckpoint.
Proof. solve_decision. Defined.
#[local] Instance demo_math : FloatMath := {| f64_log2 x := x; f64_powi x _ := x |}.
#[local] Instance demo_logs : FloatLogs := {| f64_log10 x := x; f64_ln_1p x := x |}.
#[local] Instance demo_hash : ShadowHash := λ _ _ _ _ epoch, epoch.

Definition demo_params (kind : QueryKind) (deltas : Z) (sel : f64) : RouterParams :=
  {| rpm_table := "t"; rpm_columns := ["a"; "b"]; rpm_kind := kind; rpm_delta_count := deltas; rpm_has_pending_writes := true;
     rpm_estimated_selectivity := sel; rpm_stats := {| rs_row_count := 1000; rs_total_bytes := 10000; rs_compressed_bytes := 5000 |} |}.
Definition demo_run_of (path : RouteDecision) (ms : Z) : ExecutionOutcome :=
  {| oc_table := "t"; oc_query_columns := ["a"; "b"]; oc_template := CooperativeMerge; oc_chosen_path := Some path;
     oc_estimated_cost := Some (f64_of_Z 20); oc_rows_scanned := 100; oc_candidate_rows := 100; oc_rows_after_visibility := 100;
     oc_rows_returned := 5; oc_filter_failures := 0; oc_skipped_segment_failures := 0; oc_skipped_segment_ids := []; oc_segments_routed := 1;
     oc_segments_scanned := 1; oc_elapsed_ms := f64_of_Z ms; oc_executed_segment_ids := ["s"];
     oc_cooperative_digest := Some {| dg_budget := Some {| max_segments_per_slice := 8; max_slice_ms := 25 |}; dg_slices_executed := 2;
       dg_truncated_segments := ["s2"; "s3"]; dg_elapsed_budget_exhausted := true; dg_max_segments_per_slice_hit := false |} |}.
Definition learned : FeedbackState :=
  qr_feedback (record_execution_outcome (router_with RouterConfig_default (cost_from_config RouterConfig_default) None (feedback_new 1000 1000)) (demo_run_of RMerge 7)).
#[local] Instance demo_cp_codec : Codec FeedbackCheckpoint := table_codec [checkpoint_of learned 9].
#[local] Instance demo_cp_laws : CodecLaws FeedbackCheckpoint := table_codec_laws _.

(** Three runs on a fresh store leave no sample. *)
Lemma fresh_router_keeps_no_history_witness :
  let ops := OpOutcome <$> [demo_run_of RDeltaStoreOnly 5; demo_run_of RDeltaStoreOnly 6; demo_run_of RDeltaStoreOnly 7] in
  measured_cost_sample (fb_execution (qr_feedback (router_run ops (router_open mem_empty RouterConfig_default (Err ""%string), mem_empty)).1)) "t" RDeltaStoreOnly = None.
Proof.
  intros ops. refine (proj1 (fresh_router_keeps_no_history mem_empty RouterConfig_default (Err ""%string) ops "t" RDeltaStoreOnly _)). vm_compute. reflexivity.
Defined.

Definition demo_evidence : EvidenceSnapshot :=
  {| ev_table := "t"; ev_query_columns := []; ev_table_stats := {| rs_row_count := 0; rs_total_bytes := 0; rs_compressed_bytes := 0 |};
     ev_routed_segment_ids := []; ev_executed_segment_ids := []; ev_total_segment_rows := 0; ev_delta_segment_count := 0;
     ev_has_zone_map_predicates := false; ev_has_cross_column_or := false; ev_projection_contract := None |}.
Definition demo_router (h : Z) : QueryRouter :=
  router_with RouterConfig_default (cost_from_config RouterConfig_default) None (feedback_new 1000 h).
Lemma selections_blend_as_zero_cost_witness :
  let res := {| rr_decision := RDeltaStoreOnly; rr_confidence := f64_of_Z 1; rr_estimated_cost := f64_of_Z 10; rr_tier := "tier2_cost" |} in
  let r' := foldl (λ r x, observe_route_selection r "t" x.1.1 x.1.2 x.2) (demo_router 1000) (replicate 3 ([], res, demo_evidence)) in
  f64_ltb (blend_cost (f64_of_Z 10) (measured_cost_sample (fb_execution (qr_feedback r')) "t" RDeltaStoreOnly) (f64_lit 3 10)) (f64_of_Z 8) = true.
Proof.
  intros res r'. subst r'.
  rewrite (proj2 (selections_blend_as_zero_cost (demo_router 1000) "t" (replicate 3 ([], res, demo_evidence)) RDeltaStoreOnly (f64_of_Z 10) (f64_lit 3 10)
    ltac:(vm_compute; discriminate) eq_refl eq_refl ltac:(by repeat constructor))). vm_compute. reflexivity.
Defined.

Lemma route_takes_cheapest_path_witness :
  let p := demo_params KRangeScan 4 (f64_lit 5 100) in
  rr_decision (route 0 (demo_router 10) p).2 = RDeltaStoreOnly ∧
  f64_leb (rr_estimated_cost (route 0 (demo_router 10) p).2) (merge_cost 4 50 (rpm_stats p) (cost_from_config RouterConfig_default)) = true.
Proof.
  intros p. split; [vm_compute; reflexivity|].
  destruct (route_takes_cheapest_path 0 (demo_router 10) p) as [_ Hr]. destruct Hr as [_ Hr]; [by vm_compute|].
  destruct Hr as [_ Hr]; [vm_compute; reflexivity|].
  assert (tier2_costs p (qr_config (demo_router 10)) (qr_feedback (demo_router 10)) (qr_cost_params (demo_router 10)) =
    (delta_scan_cost 50 (rpm_stats p) (cost_from_config RouterConfig_default), vortex_scan_cost 50 (rpm_stats p) (cost_from_config RouterConfig_default),
     merge_cost 4 50 (rpm_stats p) (cost_from_config RouterConfig_default))) as Hc by (vm_compute; reflexivity).
  rewrite Hc in Hr. apply Hr; by vm_compute.
Defined.

Lemma slice_budget_bounds_witness :
  ∃ b, cooperative_runtime_budget (set_fb (demo_router 10) learned true) "t" 6 = Some b ∧ max_segments_per_slice b ≤ 2 ∧ max_slice_ms b = 25.
Proof.
  eexists. split; [vm_compute; reflexivity|].
  destruct (slice_budget_bounds (set_fb (demo_router 10) learned true) "t" 6
    {| dg_budget := Some {| max_segments_per_slice := 8; max_slice_ms := 25 |}; dg_slices_executed := 2;
       dg_truncated_segments := ["s2"; "s3"]; dg_elapsed_budget_exhausted := true; dg_max_segments_per_slice_hit := false |}
    {| max_segments_per_slice := 8; max_slice_ms := 25 |} {| max_segments_per_slice := 2; max_slice_ms := 25 |}) as (_ & _ & Hms & Hseg);
    [vm_compute; reflexivity|reflexivity|vm_compute; reflexivity|]. split; [by apply Hseg|exact (Hms eq_refl)].
Defined.

Lemma feedback_checkpoint_roundtrip_witness :
  let kv := (persist_to_kv learned mem_empty 9).1 in
  sw_values <$> st_joints (fb_selectivity (load_from_kv kv)) = sw_values <$> st_joints (fb_selectivity learned) ∧
  is_Some (st_joints (fb_selectivity learned) !! ("t"%string, "a"%string, "b"%string)).
Proof.
  intros kv. split; [|vm_compute; by eexists].
  destruct (persist_to_kv learned mem_empty 9) as [kv' r] eqn:Ep. assert (r = Ok tt) as -> by (vm_compute in Ep; by injection Ep as _ <-).
  destruct (kv_get kv' CF_SYS CHECKPOINT_KEY) as [v|] eqn:Eg; [|vm_compute in Ep; injection Ep as <-; by vm_compute in Eg].
  refine (proj1 (proj2 (feedback_checkpoint_roundtrip learned mem_empty kv' 9 v _ _ Ep Eg))).
  - apply (bool_decide_eq_true_1 _). vm_compute. reflexivity.
  - apply (bool_decide_eq_true_1 _). vm_compute. reflexivity.
Defined.

(** A name with the separator comes back as another one. *)
Example separator_in_name :
  let f := observe_selectivity (feedback_new 10 10) "db:t" ["a"] 1 10 in
  let f' := restore_feedback (checkpoint_of f 0) in
  tracker_sample_count (fb_selectivity f') "db:t" "a" = 0 ∧ tracker_sample_count (fb_selectivity f') "db" "t:a" = 1.
Proof. vm_compute. by split. Qed.
(** A scan of more than a tenth of the rows leaves out the deltas however many there are. *)
Example rules_skip_deltas : tier1_decide (demo_params KRangeScan 5000 (f64_lit 2 10)) RouterConfig_default = Some RVortexOnly.
Proof. vm_compute. reflexivity. Qed.
(** Of the two heads the model takes the lower, of the merge head the higher. *)
Example model_takes_lower_head :
  (choose_path (f32_of_Z 3) (f32_of_Z 1) (f32_of_Z 0) (f32_lit 1 2), choose_path (f32_of_Z 1) (f32_of_Z 2) (f32_of_Z 3) (f32_lit 1 2)) = (RVortexOnly, RMerge).
Proof. vm_compute. reflexivity. Qed.
End witnesses.
