(* ===== verification/FileHeader.v ===== *)
(** Checksummed files (codec/serialize.rs): the header in its two live formats, its
    validation, writing of a value with a header, and the two readers, of a file and
    of a mapped slice. *)

From stdpp Require Import base gmap strings list pretty.
From S2P Require Import Prelude Kv ZoneMap Disk VisFile.

Local Open Scope Z_scope.
Local Open Scope rd_scope.

(** * Format *)

Definition MAX_PAYLOAD_SIZE : Z := 256 * 1024 * 1024.
Definition MAGIC_ZONE : bytes := as_bytes "ZONE".
Definition HEADER_SIZE_V1 : nat := 28.
Definition HEADER_SIZE_V3 : nat := 36.
Definition CHECKSUM_PAYLOAD_ONLY : Z := 0.
Definition CHECKSUM_HEADER_PLUS_PAYLOAD : Z := 1.
Definition FLAG_EXTENDED_CHECKSUM : Z := 1.
Definition CURRENT_VERSION : Z := 3.

Record FileHeader := {
  magic : bytes;
  version : Z;
  flags : Z;
  checksum_type : Z;
  header_crc : Z;
  checksum : Z;
  payload_size : Z
}.

Definition is_extended_format (h : FileHeader) : bool :=
  (3 <=? version h) || ((version h =? 2) && negb (Z.land (flags h) FLAG_EXTENDED_CHECKSUM =? 0)).

(** [{:0w$x}], and [{:4?}] of an array, which pads every element *)
Definition pad (c : string) (w : nat) (s : string) : string := Nat.iter (w - String.length s) (String.append c) s.
Definition hex_padded (w : nat) (z : Z) : string := pad "0" w (hex_go 16 z "").
Definition debug_magic (m : bytes) : string := "[" +:+ String.concat ", " ((λ b, pad " " 4 (pretty b)) <$> m) +:+ "]".

Definition validate_magic (h : FileHeader) (expected : bytes) : result CodecError unit :=
  if bool_decide (magic h = expected) then Ok tt
  else Err (CDecode ("magic mismatch: expected " +:+ debug_magic expected +:+ ", got " +:+ debug_magic (magic h))).
Definition v2_error : CodecError := CDecode "v2 format is deprecated and broken — upgrade to v3".
Definition validate_version (h : FileHeader) : result CodecError unit :=
  if CURRENT_VERSION <? version h
  then Err (CDecode ("unsupported version: " +:+ pretty (version h) +:+ " (max: " +:+ pretty CURRENT_VERSION +:+ ")"))
  else if version h =? 2 then Err v2_error else Ok tt.

Definition header_only_bytes_v3 (h : FileHeader) : bytes :=
  magic h ++ to_le_bytes 4 (version h) ++ to_le_bytes 4 (flags h) ++ to_le_bytes 4 (checksum_type h) ++ to_le_bytes 8 (payload_size h).
Definition as_bytes_v1 (h : FileHeader) : bytes :=
  magic h ++ to_le_bytes 4 (version h) ++ to_le_bytes 4 (flags h) ++ to_le_bytes 8 (checksum h) ++ to_le_bytes 8 (payload_size h).
Definition as_bytes_v3 (h : FileHeader) : bytes :=
  magic h ++ to_le_bytes 4 (version h) ++ to_le_bytes 4 (flags h) ++ to_le_bytes 4 (checksum_type h) ++ to_le_bytes 4 (header_crc h) ++
  to_le_bytes 8 (checksum h) ++ to_le_bytes 8 (payload_size h).
Definition header_as_bytes (h : FileHeader) : bytes := if version h =? 1 then as_bytes_v1 h else as_bytes_v3 h.

(** [&slice[i..j]] *)
Definition slice (i j : nat) (l : bytes) : bytes := take (j - i) (drop i l).
Definition from_bytes_v1 (l : bytes) : result CodecError FileHeader :=
  if zlen l <? 28 then Err (CDecode ("v1 header too short: " +:+ pretty (zlen l) +:+ " < 28 bytes")) else
  Ok {| magic := slice 0 4 l; version := from_le_bytes (slice 4 8 l); flags := from_le_bytes (slice 8 12 l);
        checksum_type := CHECKSUM_PAYLOAD_ONLY; header_crc := 0; checksum := from_le_bytes (slice 12 20 l);
        payload_size := from_le_bytes (slice 20 28 l) |}.
Definition from_bytes_v3 (l : bytes) : result CodecError FileHeader :=
  if zlen l <? 36 then Err (CDecode ("v3 header too short: " +:+ pretty (zlen l) +:+ " < 36 bytes")) else
  Ok {| magic := slice 0 4 l; version := from_le_bytes (slice 4 8 l); flags := from_le_bytes (slice 8 12 l);
        checksum_type := from_le_bytes (slice 12 16 l); header_crc := from_le_bytes (slice 16 20 l);
        checksum := from_le_bytes (slice 20 28 l); payload_size := from_le_bytes (slice 28 36 l) |}.
Definition header_from_bytes (l : bytes) : result CodecError FileHeader :=
  if zlen l <? 8 then Err (CDecode "header too short") else
  let v := from_le_bytes (slice 4 8 l) in
  if v =? 2 then Err v2_error else if v =? 1 then from_bytes_v1 l else from_bytes_v3 l.

Section checksums.
Context `{Crc32}.
Definition compute_header_crc (h : FileHeader) : Z := crc32 0 (header_only_bytes_v3 h).
Definition validate_header_checksum (h : FileHeader) : result CodecError unit :=
  if version h =? 1 then Ok tt else if version h =? 2 then Err v2_error else
  let computed := compute_header_crc h in
  if computed =? header_crc h then Ok tt
  else Err (CDecode ("header checksum mismatch: expected " +:+ hex_padded 8 (header_crc h) +:+ ", computed " +:+ hex_padded 8 computed)).
Definition validate_checksum (h : FileHeader) (payload : bytes) : result CodecError unit :=
  let computed := crc32 0 payload in
  if computed =? checksum h then Ok tt
  else Err (CDecode ("checksum mismatch: expected " +:+ hex_padded 16 (checksum h) +:+ ", computed " +:+ hex_padded 16 computed)).
Definition validate (h : FileHeader) (expected : bytes) (payload : bytes) : result CodecError unit :=
  _ <-? validate_magic h expected; _ <-? validate_version h; _ <-? validate_header_checksum h; validate_checksum h payload.

Definition header_new_v1 (m : bytes) (size sum : Z) : FileHeader :=
  {| magic := m; version := 1; flags := 0; checksum_type := CHECKSUM_PAYLOAD_ONLY; header_crc := 0; checksum := sum; payload_size := size |}.
Definition header_new_v3 (m : bytes) (size sum : Z) : FileHeader :=
  let h crc := {| magic := m; version := CURRENT_VERSION; flags := FLAG_EXTENDED_CHECKSUM; checksum_type := CHECKSUM_HEADER_PLUS_PAYLOAD;
                  header_crc := crc; checksum := sum; payload_size := size |} in
  h (compute_header_crc (h 0)).

(** * Files *)

Definition write_to_file (h : FileHeader) (path : string) (payload : bytes) : io RockDuckError Z :=
  _ <-! io_map_err err_io (fs_write path (header_as_bytes h));
  _ <-! io_map_err err_io (fs_append path payload);
  _ <-! io_map_err err_io (fs_sync path);
  io_ret (zlen (header_as_bytes h) + zlen payload).
Definition write_with_header {T} `{Codec T} (path : string) (m : bytes) (data : T) : io RockDuckError Z :=
  payload <-! io_lift (codec_err (encode data));
  write_to_file (header_new_v3 m (zlen payload) (crc32 0 payload)) path payload.

(** [read_exact] past the end *)
Definition eof_error : RockDuckError := EIo UnexpectedEof "failed to fill whole buffer".
Definition read_exact (n : nat) (l : bytes) : Result bytes := if (length l <? n)%nat then Err eof_error else Ok (take n l).
Definition too_large (size : Z) : string :=
  "payload_size " +:+ pretty size +:+ " exceeds maximum allowed " +:+ pretty MAX_PAYLOAD_SIZE +:+ " bytes (possible OOM attack)".

(** The reader on the bytes of an open file. *)
Definition read_content (expected : bytes) (l : bytes) : Result bytes :=
  peek <-? read_exact 8 l;
  let v := from_le_bytes (slice 4 8 peek) in
  if v =? 2 then Err (ECodec "v2 format is deprecated and broken") else
  let header_size := if v =? 1 then HEADER_SIZE_V1 else HEADER_SIZE_V3 in
  rest <-? read_exact (header_size - 8) (drop 8 l);
  h <-? codec_err (header_from_bytes (peek ++ rest));
  _ <-? codec_err (validate_magic h expected);
  _ <-? codec_err (validate_version h);
  _ <-? codec_err (validate_header_checksum h);
  if MAX_PAYLOAD_SIZE <? payload_size h then Err (ECodec (too_large (payload_size h))) else
  if negb (zlen l =? Z.of_nat header_size + payload_size h) then
    Err (ECodec ("file size mismatch: header says " +:+ pretty (payload_size h) +:+ " bytes payload, but file has " +:+
                 pretty (zlen l - Z.of_nat header_size) +:+ " bytes total")) else
  payload <-? read_exact (Z.to_nat (payload_size h)) (drop header_size l);
  _ <-? codec_err (validate_checksum h payload);
  Ok payload.
Definition read_with_header (path : string) (expected : bytes) : io RockDuckError bytes :=
  l <-! io_map_err err_io (fs_read path); io_lift (read_content expected l).
Definition read_postcard {T} `{Codec T} (path : string) (expected : bytes) : io RockDuckError T :=
  payload <-! read_with_header path expected; io_lift (codec_err (decode payload)).

(** The reader of a mapped slice. *)
Definition extract_payload_from_mmap (l : bytes) (expected : bytes) : result CodecError bytes :=
  h <-? header_from_bytes l;
  _ <-? validate_magic h expected; _ <-? validate_version h; _ <-? validate_header_checksum h;
  if MAX_PAYLOAD_SIZE <? payload_size h then Err (CDecode (too_large (payload_size h))) else
  let header_size := if is_extended_format h then HEADER_SIZE_V3 else HEADER_SIZE_V1 in
  if zlen l <? Z.of_nat header_size + payload_size h then
    Err (CDecode ("mmap truncated: header says " +:+ pretty (payload_size h) +:+ " payload bytes, but mmap has " +:+
                  pretty (zlen l - Z.of_nat header_size) +:+ " bytes total")) else
  let payload := slice header_size (header_size + Z.to_nat (payload_size h)) l in
  _ <-? validate_checksum h payload;
  Ok payload.
End checksums.

(** * Proofs *)

(** A header of the given version as the writer makes it: its fields fit. *)
Definition header_ok (h : FileHeader) : Prop :=
  length (magic h) = 4%nat ∧ is_u32 (version h) ∧ is_u32 (flags h) ∧ is_u32 (checksum_type h) ∧ is_u32 (header_crc h) ∧
  is_u64 (checksum h) ∧ is_u64 (payload_size h) ∧ (version h = 1 → checksum_type h = CHECKSUM_PAYLOAD_ONLY ∧ header_crc h = 0).
Definition header_size_of (h : FileHeader) : nat := if version h =? 1 then HEADER_SIZE_V1 else HEADER_SIZE_V3.

Lemma slice_length i j l : (j ≤ length l)%nat → length (slice i j l) = (j - i)%nat.
Proof. intros. unfold slice. rewrite length_take, length_drop. lia. Qed.
Lemma slice_drop i j l : (i ≤ j)%nat → slice i j l ++ drop j l = drop i l.
Proof. intros. unfold slice. replace (drop j l) with (drop (j - i) (drop i l)); [apply take_drop|]. rewrite drop_drop. f_equal. lia. Qed.
Lemma slice_take i j n l : (j ≤ n)%nat → slice i j (take n l) = slice i j l.
Proof.
  intros. unfold slice. destruct (decide (i ≤ n)%nat); [|by replace (j - i)%nat with 0%nat by lia].
  replace n with (i + (n - i))%nat by lia. rewrite <- take_drop_commute, take_take. f_equal. lia.
Qed.
Lemma le_slice i j l : Forall is_byte l → (j ≤ length l)%nat → to_le_bytes (j - i) (from_le_bytes (slice i j l)) = slice i j l.
Proof. intros Hb Hl. rewrite <- (slice_length i j l Hl) at 1. apply to_from_le_bytes. by apply Forall_take, Forall_drop. Qed.
Lemma le_slice_bound i j l : Forall is_byte l → (j ≤ length l)%nat → 0 ≤ from_le_bytes (slice i j l) < 256 ^ Z.of_nat (j - i).
Proof. intros Hb Hl. rewrite <- (slice_length i j l Hl). apply from_le_bytes_bound. by apply Forall_take, Forall_drop. Qed.
Lemma from_to_u32 x : is_u32 x → from_le_bytes (to_le_bytes 4 x) = x.
Proof. intros Hx. apply from_to_le_bytes. unfold is_u32, u32_max in Hx. cbn. lia. Qed.
Lemma from_to_u64 x : is_u64 x → from_le_bytes (to_le_bytes 8 x) = x.
Proof. intros Hx. apply from_to_le_bytes. unfold is_u64, u64_max in Hx. cbn. lia. Qed.
Lemma le_u32 i l : Forall is_byte l → (i + 4 ≤ length l)%nat → is_u32 (from_le_bytes (slice i (i + 4) l)).
Proof. intros Hb Hl. pose proof (le_slice_bound i (i + 4) l Hb Hl) as Hx. replace (i + 4 - i)%nat with 4%nat in Hx by lia. unfold is_u32, u32_max. lia. Qed.
Lemma le_u64 i l : Forall is_byte l → (i + 8 ≤ length l)%nat → is_u64 (from_le_bytes (slice i (i + 8) l)).
Proof. intros Hb Hl. pose proof (le_slice_bound i (i + 8) l Hb Hl) as Hx. replace (i + 8 - i)%nat with 8%nat in Hx by lia. unfold is_u64, u64_max. lia. Qed.

Lemma header_bytes_length h : length (magic h) = 4%nat → length (header_as_bytes h) = header_size_of h.
Proof.
  intros Hm. unfold header_as_bytes, header_size_of, as_bytes_v1, as_bytes_v3. destruct (version h =? 1);
    rewrite !length_app, !to_le_bytes_length, Hm; done.
Qed.
Lemma header_version_bytes h rest : length (magic h) = 4%nat → slice 4 8 (header_as_bytes h ++ rest) = to_le_bytes 4 (version h).
Proof.
  intros Hm. destruct h as [[|a [|b [|c [|d [|]]]]] ? ? ? ? ? ?]; try discriminate Hm. unfold header_as_bytes. cbn [version]. by destruct (_ =? 1).
Qed.
(** Printing a header and parsing it back. *)
Lemma header_print_parse h rest : header_ok h → version h ≠ 2 → header_from_bytes (header_as_bytes h ++ rest) = Ok h.
Proof.
  intros (Hm & Hv & Hf & Ht & Hc & Hs & Hp & H1) H2. unfold header_from_bytes.
  pose proof (header_bytes_length h Hm) as Hl. assert (28 ≤ header_size_of h)%nat as Hge by (unfold header_size_of; destruct (_ =? 1); unfold HEADER_SIZE_V1, HEADER_SIZE_V3; lia).
  rewrite (proj2 (Z.ltb_ge _ _)) by (unfold zlen; rewrite length_app; lia). rewrite header_version_bytes, from_to_u32 by done.
  rewrite (proj2 (Z.eqb_neq _ _) H2). revert Hl Hge. unfold header_as_bytes, header_size_of. destruct (Z.eqb_spec (version h) 1) as [E|E]; intros Hl Hge.
  - destruct (H1 E) as [E1 E2]. unfold from_bytes_v1. rewrite (proj2 (Z.ltb_ge _ _)) by (unfold zlen; rewrite length_app, Hl; unfold HEADER_SIZE_V1, HEADER_SIZE_V3; lia).
    destruct h as [[|a [|b [|c [|d [|]]]]] v f t hc s p]; try discriminate Hm. cbn in *. subst t hc.
    f_equal. f_equal; [by apply from_to_u32|by apply from_to_u32|by apply from_to_u64|by apply from_to_u64].
  - unfold from_bytes_v3. rewrite (proj2 (Z.ltb_ge _ _)) by (unfold zlen; rewrite length_app, Hl; unfold HEADER_SIZE_V1, HEADER_SIZE_V3; lia).
    destruct h as [[|a [|b [|c [|d [|]]]]] v f t hc s p]; try discriminate Hm. cbn in *.
    f_equal. f_equal; [by apply from_to_u32..|by apply from_to_u64|by apply from_to_u64].
Qed.
(** Parsing a header and printing it back. *)
Lemma header_parse_print l h : Forall is_byte l → header_from_bytes l = Ok h →
  header_ok h ∧ version h ≠ 2 ∧ header_as_bytes h ++ drop (header_size_of h) l = l ∧ (header_size_of h ≤ length l)%nat.
Proof.
  intros Hb. unfold header_from_bytes. destruct (Z.ltb_spec (zlen l) 8) as [|H8]; [done|]. unfold zlen in H8.
  destruct (Z.eqb_spec (from_le_bytes (slice 4 8 l)) 2) as [|H2]; [done|].
  destruct (Z.eqb_spec (from_le_bytes (slice 4 8 l)) 1) as [E|E].
  - unfold from_bytes_v1. destruct (Z.ltb_spec (zlen l) 28) as [|Hl]; [done|]. unfold zlen in Hl. intros [= <-].
    unfold header_size_of, header_as_bytes, as_bytes_v1. cbn [version]. rewrite (proj2 (Z.eqb_eq _ _) E). cbn [magic version flags checksum payload_size].
    split; [|split; [done|split; [|unfold HEADER_SIZE_V1, HEADER_SIZE_V3; lia]]].
    + unfold header_ok. cbn [magic version flags checksum_type header_crc checksum payload_size]. split_and!; try done; [by rewrite slice_length by lia|apply (le_u32 4)|apply (le_u32 8)|apply (le_u64 12)|apply (le_u64 20)]; try done; lia.
    + rewrite (le_slice 4 8), (le_slice 8 12), (le_slice 12 20), (le_slice 20 28) by (done || lia).
      unfold HEADER_SIZE_V1, HEADER_SIZE_V3. rewrite <- !app_assoc, !slice_drop by lia. apply drop_0.
  - unfold from_bytes_v3. destruct (Z.ltb_spec (zlen l) 36) as [|Hl]; [done|]. unfold zlen in Hl. intros [= <-].
    unfold header_size_of, header_as_bytes, as_bytes_v3. cbn [version]. rewrite (proj2 (Z.eqb_neq _ _) E).
    cbn [magic version flags checksum_type header_crc checksum payload_size]. split; [|split; [done|split; [|unfold HEADER_SIZE_V1, HEADER_SIZE_V3; lia]]].
    + unfold header_ok. cbn [magic version flags checksum_type header_crc checksum payload_size]. split_and!; try done;
        [by rewrite slice_length by lia|apply (le_u32 4)|apply (le_u32 8)|apply (le_u32 12)|apply (le_u32 16)|apply (le_u64 20)|apply (le_u64 28)]; try done; lia.
    + rewrite (le_slice 4 8), (le_slice 8 12), (le_slice 12 16), (le_slice 16 20), (le_slice 20 28), (le_slice 28 36) by (done || lia).
      unfold HEADER_SIZE_V1, HEADER_SIZE_V3. rewrite <- !app_assoc, !slice_drop by lia. apply drop_0.
Qed.

(** What a valid file holds: a header of version 1, or of version 3 or 0 (which the code
    does not refuse) with the right header checksum, and the payload it announces. *)
Definition accepted `{Crc32} (expected : bytes) (h : FileHeader) (p : bytes) : Prop :=
  header_ok h ∧ magic h = expected ∧ (version h = 1 ∨ (version h = 0 ∨ version h = 3) ∧ header_crc h = compute_header_crc h) ∧
  checksum h = crc32 0 p ∧ payload_size h = zlen p ∧ zlen p ≤ MAX_PAYLOAD_SIZE.

Section readers.
Context `{Crc32}.
Implicit Types (h : FileHeader) (l p : bytes).

(** The checks that both readers make. *)
Definition checked expected h : result CodecError unit :=
  _ <-? validate_magic h expected; _ <-? validate_version h; validate_header_checksum h.
Lemma checked_ok expected h : is_u32 (version h) →
  checked expected h = Ok tt ↔ magic h = expected ∧ (version h = 1 ∨ (version h = 0 ∨ version h = 3) ∧ header_crc h = compute_header_crc h).
Proof.
  intros Hv. unfold checked, validate_magic, validate_version, validate_header_checksum, CURRENT_VERSION. unfold is_u32 in Hv.
  case_bool_decide as Em; cbn; [|split; [done|by intros [? _]]].
  destruct (Z.ltb_spec 3 (version h)); cbn; [split; [done|lia]|]. destruct (Z.eqb_spec (version h) 2); cbn; [split; [done|lia]|].
  destruct (Z.eqb_spec (version h) 1); [split; auto|]. destruct (Z.eqb_spec (compute_header_crc h) (header_crc h)) as [E|E].
  - split; [|done]. intros _. split; [done|]. right. split; [lia|done].
  - split; [done|]. intros [_ [?|[_ ?]]]; [lia|congruence].
Qed.
Lemma validate_checksum_ok h p : validate_checksum h p = Ok tt ↔ checksum h = crc32 0 p.
Proof. unfold validate_checksum. destruct (Z.eqb_spec (crc32 0 p) (checksum h)); split; congruence. Qed.
Lemma accepted_iff expected h p : accepted expected h p ↔
  header_ok h ∧ checked expected h = Ok tt ∧ validate_checksum h p = Ok tt ∧ payload_size h = zlen p ∧ zlen p ≤ MAX_PAYLOAD_SIZE.
Proof.
  unfold accepted. split.
  - intros (Ho & Hm & Hv & Hs & Hp & Hl). split_and!; [done| |by apply validate_checksum_ok|done|done]. apply checked_ok; [apply Ho|done].
  - intros (Ho & Hc & Hs & Hp & Hl). apply checked_ok in Hc as [Hm Hv]; [|apply Ho]. apply validate_checksum_ok in Hs. done.
Qed.
Lemma accepted_not_v2 expected h p : accepted expected h p → version h ≠ 2.
Proof. intros (_ & _ & Hv & _). lia. Qed.

(** The version that a reader peeks at is the header's. *)
Lemma header_version_from l h : Forall is_byte l → header_from_bytes l = Ok h → from_le_bytes (slice 4 8 l) = version h.
Proof.
  intros Hb (Ho & _ & Hl & _)%header_parse_print; [|done]. rewrite <- Hl, header_version_bytes by apply Ho. apply from_to_u32, Ho.
Qed.
Lemma codec_err_Ok {A} (r : result CodecError A) a : codec_err r = Ok a ↔ r = Ok a.
Proof. destruct r; cbn; split; congruence. Qed.
Lemma checked_codec expected h : checked expected h = Ok tt ↔
  codec_err (validate_magic h expected) = Ok tt ∧ codec_err (validate_version h) = Ok tt ∧ codec_err (validate_header_checksum h) = Ok tt.
Proof.
  unfold checked. rewrite !codec_err_Ok. destruct (validate_magic h expected) as [[]|], (validate_version h) as [[]|], (validate_header_checksum h) as [[]|]; cbn;
    split; try done; by intros (? & ? & ?).
Qed.
Lemma read_exact_Ok n l x : read_exact n l = Ok x ↔ (n ≤ length l)%nat ∧ x = take n l.
Proof. unfold read_exact. destruct (Nat.ltb_spec (length l) n); split; try done; [lia|by intros [= <-]|by intros [_ ->]]. Qed.

(** The bytes that a reader takes for the header. *)
Lemma read_header_bytes l hs : (8 ≤ hs)%nat → take 8 l ++ take (hs - 8) (drop 8 l) = take hs l.
Proof. intros. rewrite take_take_drop. f_equal. lia. Qed.

Lemma read_content_accepts expected l p : Forall is_byte l → read_content expected l = Ok p → ∃ h, accepted expected h p ∧ l = header_as_bytes h ++ p.
Proof.
  intros Hb. unfold read_content. destruct (read_exact 8 l) as [peek|] eqn:E1; cbn [result_bind]; [|done]. apply read_exact_Ok in E1 as [H8 ->].
  rewrite slice_take by lia. destruct (_ =? 2); [done|]. set (hs := if _ =? 1 then HEADER_SIZE_V1 else HEADER_SIZE_V3).
  destruct (read_exact (hs - 8) (drop 8 l)) as [rest|] eqn:E2; cbn [result_bind]; [|done]. apply read_exact_Ok in E2 as [Hr ->].
  assert (8 ≤ hs)%nat as Hhs by (unfold hs, HEADER_SIZE_V1, HEADER_SIZE_V3; destruct (_ =? 1); lia). rewrite length_drop in Hr.
  rewrite read_header_bytes by done. destruct (header_from_bytes (take hs l)) as [h|] eqn:Eh; cbn [codec_err map_err result_bind]; [|done].
  pose proof (header_version_from _ _ (Forall_take _ hs _ Hb) Eh) as Hv. rewrite slice_take in Hv by done.
  apply header_parse_print in Eh as (Ho & _ & Hl & _); [|by apply Forall_take].
  assert (header_size_of h = hs) as Es by (unfold header_size_of, hs; by rewrite Hv). rewrite Es, (drop_ge (take hs l)), app_nil_r in Hl by (rewrite length_take; lia).
  destruct (codec_err (validate_magic h expected)) as [[]|] eqn:C1; cbn [result_bind]; [|done].
  destruct (codec_err (validate_version h)) as [[]|] eqn:C2; cbn [result_bind]; [|done].
  destruct (codec_err (validate_header_checksum h)) as [[]|] eqn:C3; cbn [result_bind]; [|done].
  destruct (Z.ltb_spec MAX_PAYLOAD_SIZE (payload_size h)) as [|Hmax]; [done|].
  destruct (Z.eqb_spec (zlen l) (Z.of_nat hs + payload_size h)) as [Hsz|]; cbn [negb]; [|done].
  destruct (read_exact _ _) as [payload|] eqn:E3; cbn [result_bind]; [|done]. apply read_exact_Ok in E3 as [_ ->].
  destruct (validate_checksum h _) as [[]|] eqn:C4; cbn [codec_err map_err result_bind]; [|done]. intros [= <-].
  assert (0 ≤ payload_size h) as Hp by apply Ho. unfold zlen in Hsz.
  rewrite take_ge in C4 |- * by (rewrite length_drop; lia). exists h. split; [|by rewrite Hl, take_drop].
  apply accepted_iff. split_and!; [done|by apply checked_codec|done|..]; unfold zlen; rewrite length_drop; lia.
Qed.
Lemma accepted_header expected h p rest : accepted expected h p → header_from_bytes (header_as_bytes h ++ rest) = Ok h.
Proof. intros Ha. apply header_print_parse; [apply Ha|by eapply accepted_not_v2]. Qed.
Lemma accepted_read_content expected h p : accepted expected h p → read_content expected (header_as_bytes h ++ p) = Ok p.
Proof.
  intros Ha. pose proof Ha as (Ho & Hc & Hs & Hp & Hm)%accepted_iff. apply checked_codec in Hc as (C1 & C2 & C3).
  pose proof (header_bytes_length h (proj1 Ho)) as Hl.
  assert (28 ≤ header_size_of h)%nat as Hge by (unfold header_size_of, HEADER_SIZE_V1, HEADER_SIZE_V3; destruct (_ =? 1); lia).
  set (l := header_as_bytes h ++ p). assert (length l = header_size_of h + length p)%nat as Hll by (unfold l; rewrite length_app; lia).
  unfold read_content. rewrite (proj2 (read_exact_Ok 8 l (take 8 l))) by (split; [lia|done]). cbn [result_bind]. rewrite slice_take by lia.
  assert (from_le_bytes (slice 4 8 l) = version h) as Hv by (unfold l; rewrite header_version_bytes by apply Ho; apply from_to_u32, Ho).
  rewrite Hv, (proj2 (Z.eqb_neq _ _) (accepted_not_v2 _ _ _ Ha)). fold (header_size_of h).
  rewrite (proj2 (read_exact_Ok (header_size_of h - 8) (drop 8 l) _)) by (split; [rewrite length_drop; lia|done]). cbn [result_bind].
  rewrite read_header_bytes by lia. assert (take (header_size_of h) l = header_as_bytes h) as -> by (unfold l; by rewrite take_app_length').
  pose proof (accepted_header _ _ _ [] Ha) as Hh. rewrite app_nil_r in Hh. rewrite Hh. cbn [codec_err map_err result_bind].
  rewrite C1. cbn [result_bind]. rewrite C2. cbn [result_bind]. rewrite C3. cbn [result_bind]. rewrite (proj2 (Z.ltb_ge _ _)) by lia.
  rewrite (proj2 (Z.eqb_eq _ _)) by (unfold zlen in *; lia). cbn [negb].
  assert (drop (header_size_of h) l = p) as -> by (unfold l; by rewrite drop_app_length').
  rewrite (proj2 (read_exact_Ok _ p p)) by (unfold zlen in Hp; rewrite take_ge by lia; split; [lia|done]). cbn [result_bind]. rewrite Hs. done.
Qed.

(** C39: the reader of checksummed files accepts exactly the valid files.  On any
    bytes it answers with a payload just when they are a header of the expected kind,
    followed by that payload, of the announced length, within the limit and with the
    right checksum, and by nothing else, where the header is of version 1, or of version
    3 or 0 with the right header checksum.  Version 2 and every version above 3 are
    refused; version 0 is accepted because the code only refuses 2 and what is above 3,
    although versions 1 and 3 are the only ones that are written or documented. *)
Theorem read_accepts_exactly expected l p :
  Forall is_byte l → (read_content expected l = Ok p ↔ ∃ h, accepted expected h p ∧ l = header_as_bytes h ++ p).
Proof. intros Hb. split; [by apply read_content_accepts|]. intros (h & Ha & ->). by apply accepted_read_content. Qed.
End readers.

Section mapped_and_torn.
Context `{Crc32Laws}.
Implicit Types (h : FileHeader) (l p : bytes).

Lemma extended_size h : header_ok h → version h ≠ 0 → version h ≠ 2 →
  (if is_extended_format h then HEADER_SIZE_V3 else HEADER_SIZE_V1) = header_size_of h.
Proof.
  intros (_ & Hv & _) H0' H2'. unfold is_extended_format, header_size_of, is_u32 in *.
  destruct (Z.leb_spec 3 (version h)), (Z.eqb_spec (version h) 1), (Z.eqb_spec (version h) 2); cbn; lia || done.
Qed.
Lemma mmap_accepts expected l p : Forall is_byte l → from_le_bytes (slice 4 8 l) ≠ 0 →
  extract_payload_from_mmap l expected = Ok p ↔ ∃ h rest, accepted expected h p ∧ l = header_as_bytes h ++ p ++ rest.
Proof.
  intros Hb Hv0. assert (∀ h, header_from_bytes l = Ok h → accepted expected h p → header_as_bytes h ++ drop (header_size_of h) l = l →
    extract_payload_from_mmap l expected = Ok p ↔ take (length p) (drop (header_size_of h) l) = p ∧ (header_size_of h + length p ≤ length l)%nat) as Hx.
  { intros h Eh Ha Hl. pose proof Ha as (Ho & Hc & Hs & Hp & Hm)%accepted_iff. unfold extract_payload_from_mmap. rewrite Eh. cbn [result_bind].
    unfold checked in Hc. destruct (validate_magic h expected) as [[]|]; [|done]. destruct (validate_version h) as [[]|]; [|done]. cbn [result_bind] in *. rewrite Hc.
    cbn [result_bind]. rewrite (proj2 (Z.ltb_ge _ _)) by lia.
    rewrite extended_size; [|done|by rewrite <- (header_version_from _ _ Hb Eh)|by eapply accepted_not_v2].
    unfold zlen in *. destruct (Z.ltb_spec (Z.of_nat (length l)) (Z.of_nat (header_size_of h) + payload_size h)); [split; [done|lia]|].
    unfold slice. replace (_ + Z.to_nat (payload_size h) - _)%nat with (length p) by lia. split.
    - destruct (validate_checksum h (take (length p) _)) as [[]|]; cbn [result_bind]; [|done]. intros [= E]. split; [exact E|lia].
    - intros [-> _]. rewrite Hs. done. }
  split.
  - intros He. pose proof He as He'. unfold extract_payload_from_mmap in He'. destruct (header_from_bytes l) as [h|] eqn:Eh; cbn [result_bind] in He'; [|done].
    pose proof (header_version_from _ _ Hb Eh) as Hv. pose proof (header_parse_print _ _ Hb Eh) as (Ho & H2' & Hl & Hle).
    assert (checked expected h = Ok tt) as Hc.
    { unfold checked. destruct (validate_magic h expected) as [[]|]; [|done]. destruct (validate_version h) as [[]|]; [|done]. by destruct (validate_header_checksum h) as [[]|]. }
    unfold checked in Hc. destruct (validate_magic h expected) as [[]|] eqn:C1; [|done]. destruct (validate_version h) as [[]|] eqn:C2; [|done].
    cbn [result_bind] in He', Hc. rewrite Hc in He'. cbn [result_bind] in He'.
    destruct (Z.ltb_spec MAX_PAYLOAD_SIZE (payload_size h)) as [|Hmax]; [done|]. rewrite extended_size in He' by (congruence || done).
    destruct (Z.ltb_spec (zlen l) (Z.of_nat (header_size_of h) + payload_size h)) as [|Hsz]; [done|]. unfold zlen in Hsz.
    destruct (validate_checksum h _) as [[]|] eqn:C4; cbn in He'; [|done]. injection He' as <-.
    assert (0 ≤ payload_size h) as Hp by apply Ho. exists h, (drop (header_size_of h + Z.to_nat (payload_size h)) l). split.
    + apply accepted_iff. split_and!; try done; [unfold checked; by rewrite C1, C2|..]; unfold zlen; rewrite ?slice_length by lia; lia.
    + rewrite slice_drop by lia. by rewrite Hl.
  - intros (h & rest & Ha & ->). pose proof (header_bytes_length h (proj1 (proj1 Ha))) as Hl.
    apply (Hx h); [by eapply accepted_header|done|by rewrite drop_app_length'|].
    rewrite drop_app_length', take_app_length by done. split; [done|]. rewrite !length_app. lia.
Qed.

(** The reader of a mapped slice agrees with the reader of a file, up to what
    follows the payload: for every version but 0 it answers with a payload just
    when the file reader does on a prefix of the slice. *)
Theorem mapped_reader_agrees expected l p : Forall is_byte l → from_le_bytes (slice 4 8 l) ≠ 0 →
  (extract_payload_from_mmap l expected = Ok p ↔ ∃ l' rest, l = l' ++ rest ∧ read_content expected l' = Ok p).
Proof.
  intros Hb Hv. rewrite mmap_accepts by done. split.
  - intros (h & rest & Ha & ->). exists (header_as_bytes h ++ p), rest. split; [by rewrite <- app_assoc|by apply accepted_read_content].
  - intros (l' & rest & -> & Hr). apply Forall_app in Hb as [Hb _]. apply (read_content_accepts _ _ _ Hb) in Hr as (h & Ha & ->).
    exists h, rest. split; [done|by rewrite <- app_assoc].
Qed.

(** ** Written files *)

Definition written (m p : bytes) : bytes := header_as_bytes (header_new_v3 m (zlen p) (crc32 0 p)) ++ p.
Lemma header_new_v3_ok m p : length m = 4%nat → zlen p ≤ u64_max → header_ok (header_new_v3 m (zlen p) (crc32 0 p)).
Proof.
  intros Hm Hp. pose proof (crc32_range 0 p) as Hc. pose proof (zlen_nonneg p).
  unfold header_ok, header_new_v3, CURRENT_VERSION, FLAG_EXTENDED_CHECKSUM, CHECKSUM_HEADER_PLUS_PAYLOAD, compute_header_crc.
  cbn [magic version flags checksum_type header_crc checksum payload_size]. unfold is_u64, is_u32, u32_max, u64_max in *.
  split_and!; try done; try lia; apply crc32_range.
Qed.
Lemma written_accepted m p : length m = 4%nat → zlen p ≤ MAX_PAYLOAD_SIZE → accepted m (header_new_v3 m (zlen p) (crc32 0 p)) p.
Proof.
  intros Hm Hp. split_and!; try done; [apply header_new_v3_ok; [done|unfold MAX_PAYLOAD_SIZE, u64_max in *; lia]|]. right. split; [by right|done].
Qed.
Lemma is_byte_header h : Forall is_byte (magic h) → Forall is_byte (header_as_bytes h).
Proof.
  intros Hm. unfold header_as_bytes, as_bytes_v1, as_bytes_v3. destruct (_ =? 1); rewrite !Forall_app; split_and!; try done; apply to_le_bytes_bytes.
Qed.

(** C40: a torn file is never read.  Every proper prefix of a written file, whatever
    the payload, is refused by the reader, as is the file of a payload above the
    limit, which the writer accepts. *)
Theorem torn_file_refused m p n q :
  length m = 4%nat → Forall is_byte m → Forall is_byte p → zlen p ≤ u64_max →
  (n < length (written m p))%nat ∨ (n = length (written m p) ∧ MAX_PAYLOAD_SIZE < zlen p) →
  read_content m (take n (written m p)) ≠ Ok q.
Proof.
  intros Hm Hbm Hbp Hp Hn Hr. set (h0 := header_new_v3 m (zlen p) (crc32 0 p)). pose proof (header_new_v3_ok m p Hm Hp) as Ho. fold h0 in Ho.
  assert (Forall is_byte (written m p)) as Hb by (apply Forall_app; split; [by apply is_byte_header|done]).
  assert (length (written m p) = 36 + length p)%nat as Hlen by (unfold written; by rewrite length_app, header_bytes_length).
  pose proof Hr as (h & Ha & El)%read_content_accepts; [|by apply Forall_take].
  pose proof (header_bytes_length h (proj1 (proj1 Ha))) as Hl. apply (f_equal length) in El as Hll. rewrite length_take, length_app, Hl in Hll.
  assert (28 ≤ header_size_of h)%nat as Hge by (unfold header_size_of, HEADER_SIZE_V1, HEADER_SIZE_V3; destruct (_ =? 1); lia).
  assert (version h = 3) as Hv.
  { rewrite <- (from_to_u32 (version h)) by apply Ha. rewrite <- (header_version_bytes h q) by apply Ha. rewrite <- El, slice_take by lia.
    unfold written. by rewrite header_version_bytes. }
  assert (header_size_of h = 36%nat) as Es by (unfold header_size_of; by rewrite Hv). rewrite Es in Hll.
  assert (h = h0) as ->.
  { pose proof (accepted_header _ _ _ q Ha) as Eh. rewrite <- El in Eh. unfold written in Eh. fold h0 in Eh.
    rewrite take_app_ge in Eh by (rewrite header_bytes_length by apply Ho; change (header_size_of h0) with 36%nat; lia). rewrite header_print_parse in Eh by done. congruence. }
  destruct Ha as (_ & _ & _ & _ & Hsz & Hmax). cbn in Hsz. unfold zlen in *. lia.
Qed.
End mapped_and_torn.

(** Reading back what was written.  After a successful write with a header the
    reader of the same kind returns the value that was written, when its payload is
    within the limit. *)
Theorem written_value_read `{Crc32Laws} `{CodecLaws T} path m (x : T) d n d' payload :
  length m = 4%nat → encode x = Ok payload → zlen payload ≤ MAX_PAYLOAD_SIZE →
  io_returns (write_with_header path m x) d n d' →
  io_returns (read_postcard (T := T) path m) (new_disk (disk_files d')) x (new_disk (disk_files d')).
Proof.
  intros Hm Hx Hp Hw. unfold write_with_header, write_to_file in Hw. rewrite Hx in Hw.
  apply io_returns_bind in Hw as (y & d1 & Hy & Hw). apply io_returns_lift in Hy as [[= <-] ->].
  set (h := header_new_v3 m (zlen payload) (crc32 0 payload)) in *.
  assert (disk_files d' !! path = Some (written m payload)) as Hf.
  { apply io_returns_bind in Hw as (u1 & d1 & H1' & Hw). apply io_returns_bind in Hw as (u2 & d2 & H2' & Hw). apply io_returns_bind in Hw as (u3 & d3 & H3' & Hw).
    apply io_returns_ret in Hw as [_ ->]. apply io_returns_map_err, fs_write_returns in H1'. apply io_returns_map_err, fs_append_returns in H2'.
    apply io_returns_map_err, fs_sync_returns in H3'. by rewrite H3', H2', H1', lookup_insert_eq, lookup_insert_eq. }
  unfold read_postcard, read_with_header. apply io_returns_bind. exists payload, (new_disk (disk_files d')). split.
  - apply io_returns_bind. exists (written m payload), (new_disk (disk_files d')). split.
    + apply io_returns_map_err. unfold io_returns, fs_read, fs_op. cbn. by rewrite Hf.
    + apply io_returns_lift. split; [|done]. by apply accepted_read_content, written_accepted.
  - apply io_returns_lift. split; [|done]. apply codec_err_Ok. by apply decode_encode.
Qed.

(** * Witnesses *)

Section witnesses.
#[local] Existing Instance sample_crc.
#[local] Existing Instance sample_crc_laws.
Definition demo_payload : bytes := [7; 8; 9].
Definition demo_file : bytes := written MAGIC_ZONE demo_payload.
Lemma demo_file_bytes : Forall is_byte demo_file.
Proof. apply Forall_app. split; [apply is_byte_header|]; vm_compute; repeat constructor; done. Defined.

Lemma read_accepts_exactly_witness : ∃ h, accepted MAGIC_ZONE h demo_payload ∧ demo_file = header_as_bytes h ++ demo_payload.
Proof. apply (read_accepts_exactly MAGIC_ZONE demo_file demo_payload demo_file_bytes). vm_compute. reflexivity. Defined.
Lemma mapped_reader_agrees_witness : ∃ l' rest, demo_file ++ [0; 0] = l' ++ rest ∧ read_content MAGIC_ZONE l' = Ok demo_payload.
Proof.
  apply (mapped_reader_agrees MAGIC_ZONE (demo_file ++ [0; 0]) demo_payload); [|vm_compute; discriminate|vm_compute; reflexivity].
  apply Forall_app. split; [exact demo_file_bytes|]. by repeat constructor.
Defined.
Lemma torn_file_refused_witness : read_content MAGIC_ZONE (take 37 demo_file) ≠ Ok [7].
Proof.
  apply (torn_file_refused MAGIC_ZONE demo_payload 37 [7]); [reflexivity|vm_compute; repeat constructor; done..|vm_compute; discriminate|].
  left. vm_compute. lia.
Defined.
#[local] Instance demo_opt_codec : Codec (list Z) := table_codec [[1; 2]; [3]].
#[local] Instance demo_opt_laws : CodecLaws (list Z) := table_codec_laws _.
Lemma written_value_read_witness : ∃ d', io_returns (read_postcard (T := list Z) "f" MAGIC_ZONE) d' [3] d'.
Proof.
  destruct (write_with_header "f" MAGIC_ZONE [3] (new_disk ∅)) as [d' o] eqn:E.
  assert (o = Done (Ok (36 + zlen (match encode [3] with Ok b => b | Err _ => [] end)))) as -> by (vm_compute in E |- *; congruence).
  exists (new_disk (disk_files d')).
  eapply (written_value_read "f" MAGIC_ZONE [3] (new_disk ∅)); [reflexivity|reflexivity|vm_compute; discriminate|exact E].
Defined.

(** A header of version 0 has the long form for the parser and the short one for the
    mapped reader, which then takes other bytes for the payload. *)
Definition demo_v0 : FileHeader :=
  let h c s := {| magic := MAGIC_ZONE; version := 0; flags := 0; checksum_type := 0; header_crc := c; checksum := s; payload_size := 3 |} in
  h (compute_header_crc (h 0 0)) (crc32 0 demo_payload).
Example version_zero_readers_differ :
  read_content MAGIC_ZONE (header_as_bytes demo_v0 ++ demo_payload) = Ok demo_payload ∧
  is_ok (extract_payload_from_mmap (header_as_bytes demo_v0 ++ demo_payload) MAGIC_ZONE) = false.
Proof. vm_compute. by split. Qed.
End witnesses.
