(* ===== verification/MappedFiles.v ===== *)
(** Memory-mapped files (storage/): the mapped writer and reader (mmap_file.rs), the
    zone map that is read from a mapped file (granule_zone_map_mmap.rs) and the cache
    of file handles (file_manager.rs). *)

From stdpp Require Import base gmap strings list pretty.
From S2P Require Import Prelude Kv ZoneMap Disk VisFile FileHeader.

Local Open Scope Z_scope.
Local Open Scope rd_scope.

(** * Mapped files (mmap_file.rs) *)

(** A read-only mapping is the content of the file when it was opened. *)
Record MmapFile := { mf_content : bytes; mf_path : string }.
Definition mmap_open (path : string) : io RockDuckError MmapFile :=
  l <-! io_map_err err_io (fs_read path); io_ret {| mf_content := l; mf_path := path |}.
Definition out_of_bounds (offset len total : Z) : RockDuckError :=
  EInternal ("mmap slice out of bounds: offset=" +:+ pretty offset +:+ ", len=" +:+ pretty len +:+ ", mmap_len=" +:+ pretty total).
Definition slice_at (f : MmapFile) (offset len : Z) : Result bytes :=
  let e := Z.min (wrap64 (offset + len)) (zlen (mf_content f)) in
  if offset <=? e then Ok (slice (Z.to_nat offset) (Z.to_nat e) (mf_content f)) else Err (out_of_bounds offset len (zlen (mf_content f))).

(** A writer: the shared mapping is the file's content. *)
Record MmapWriter := { mw_path : string; mw_len : Z; mw_data_len : Z }.
Definition writer_create (path : string) (size : Z) : io RockDuckError MmapWriter :=
  _ <-! io_map_err err_io (fs_write path (replicate (Z.to_nat size) 0));
  io_ret {| mw_path := path; mw_len := size; mw_data_len := 0 |}.
(** [l[start..end].copy_from_slice(data)] *)
Definition overwrite (start : nat) (data l : bytes) : bytes := take start l ++ data ++ drop (start + length data) l.
Definition writer_write_at (w : MmapWriter) (offset : Z) (data : bytes) : io RockDuckError MmapWriter :=
  let e := offset + zlen data in
  if u64_max <? e then io_panic else
  if mw_len w <? e then
    io_throw (EInternal ("MmapWriter: write overflow: offset=" +:+ pretty offset +:+ ", len=" +:+ pretty (zlen data) +:+ ", mmap_len=" +:+ pretty (mw_len w)))
  else
    _ <-! io_modify (λ d, {| disk_files := alter (overwrite (Z.to_nat offset) data) (mw_path w) (disk_files d); disk_faults := disk_faults d |});
    io_ret {| mw_path := mw_path w; mw_len := mw_len w; mw_data_len := Z.max (mw_data_len w) e |}.
(** [set_len] to a smaller size *)
Definition fs_truncate (path : string) (n : Z) : io IoError unit :=
  fs_op (λ _ fs, fs) (λ fs, (alter (take (Z.to_nat n)) path fs, Ok tt)).
Definition writer_finalize (w : MmapWriter) : io RockDuckError Z :=
  _ <-! io_map_err err_io (fs_sync (mw_path w));
  _ <-! io_map_err err_io (fs_open (mw_path w));
  _ <-! io_map_err err_io (fs_truncate (mw_path w) (mw_data_len w));
  _ <-! io_map_err err_io (fs_sync (mw_path w));
  io_ret (mw_data_len w).

(** * The mapped zone map (granule_zone_map_mmap.rs) *)

Definition MAX_INLINE_BYTES : nat := 32.
(** The array's unused tail is never read. *)
Definition InlineBytes_from_slice (s : bytes) : bytes := take MAX_INLINE_BYTES s.

Record InlineGranuleStats := {
  ig_granule_id : Z;
  ig_block_size : Z;
  ig_row_count : Z;
  ig_null_count : Z;
  ig_min : option bytes;
  ig_max : option bytes
}.
Definition granule_stats_new (id block_size : Z) : InlineGranuleStats :=
  {| ig_granule_id := id; ig_block_size := block_size; ig_row_count := 0; ig_null_count := 0; ig_min := None; ig_max := None |}.
Definition update_min (g : InlineGranuleStats) (v : bytes) : InlineGranuleStats :=
  if match ig_min g with None => true | Some m => ltb v m end
  then {| ig_granule_id := ig_granule_id g; ig_block_size := ig_block_size g; ig_row_count := ig_row_count g; ig_null_count := ig_null_count g;
          ig_min := Some (InlineBytes_from_slice v); ig_max := ig_max g |}
  else g.
Definition update_max (g : InlineGranuleStats) (v : bytes) : InlineGranuleStats :=
  if match ig_max g with None => true | Some m => ltb m v end
  then {| ig_granule_id := ig_granule_id g; ig_block_size := ig_block_size g; ig_row_count := ig_row_count g; ig_null_count := ig_null_count g;
          ig_min := ig_min g; ig_max := Some (InlineBytes_from_slice v) |}
  else g.
Definition update_null_count (g : InlineGranuleStats) (n : Z) : InlineGranuleStats :=
  {| ig_granule_id := ig_granule_id g; ig_block_size := ig_block_size g; ig_row_count := ig_row_count g; ig_null_count := ig_null_count g + n;
     ig_min := ig_min g; ig_max := ig_max g |}.

Record GranuleZoneMapData := { zd_column_name : string; zd_num_granules : Z; zd_block_size : Z; zd_granules : list InlineGranuleStats }.
#[export] Instance inline_stats_eq : EqDecision InlineGranuleStats. Proof. solve_decision. Defined.
#[export] Instance zone_data_eq : EqDecision GranuleZoneMapData. Proof. solve_decision. Defined.
(** Whether the bounds of a granule exclude a range; an empty bound excludes nothing. *)
Definition granule_excludes (g : InlineGranuleStats) (pred_min pred_max : bytes) : bool :=
  match ig_max g with Some m => negb (bool_decide (m = [])) && ltb m pred_min | None => false end ||
  match ig_min g with Some m => negb (bool_decide (m = [])) && ltb pred_max m | None => false end.
Definition data_may_overlap (z : GranuleZoneMapData) (pred_min pred_max : bytes) : bool :=
  existsb (λ g, negb (granule_excludes g pred_min pred_max)) (zd_granules z).
Definition granule_may_overlap (z : GranuleZoneMapData) (idx : nat) (pred_min pred_max : bytes) : bool :=
  match zd_granules z !! idx with Some g => negb (granule_excludes g pred_min pred_max) | None => true end.
Definition total_rows (z : GranuleZoneMapData) : Z := foldr (λ g n, ig_row_count g + n) 0 (zd_granules z).
Definition zone_builder_finalize (column_name : string) (block_size : Z) (granules : list InlineGranuleStats) : GranuleZoneMapData :=
  {| zd_column_name := column_name; zd_num_granules := wrap32 (zlen granules); zd_block_size := block_size; zd_granules := granules |}.

(** [From<ZoneMapStats>], over minimum, maximum and null count of each column *)
Definition granule_of_column (i : nat) (c : option bytes * option bytes * Z) : InlineGranuleStats :=
  let g := granule_stats_new (wrap32 (Z.of_nat i)) 8192 in
  let g := match c.1.1 with Some m => update_min g m | None => g end in
  let g := match c.1.2 with Some m => update_max g m | None => g end in
  update_null_count g c.2.
Definition data_of_stats (columns : list (option bytes * option bytes * Z)) : GranuleZoneMapData :=
  zone_builder_finalize "unknown" 8192 (imap granule_of_column columns).

Section open.
Context `{Crc32} `{!Codec GranuleZoneMapData}.
Definition MmappedZoneMap_open (path : string) : io RockDuckError (MmapFile * GranuleZoneMapData) :=
  f <-! mmap_open path;
  l <-! io_lift (slice_at f 0 (zlen (mf_content f)));
  payload <-! io_lift (codec_err (extract_payload_from_mmap l MAGIC_ZONE));
  z <-! io_lift (codec_err (decode payload));
  io_ret (f, z).
End open.

(** * The cache of handles (file_manager.rs) *)

(** Handles are shared objects: [fm_heap] holds them by identity. *)
Record FileHandle := { fh_path : string; fh_ref_count : Z; fh_size : Z; fh_mmap : option MmapFile }.
Record FileManager := { fm_heap : list FileHandle; fm_handles : gmap string nat; fm_readers : gmap string MmapFile }.
Definition fm_new : FileManager := {| fm_heap := []; fm_handles := ∅; fm_readers := ∅ |}.
Definition set_count (h : FileHandle) (n : Z) : FileHandle := {| fh_path := fh_path h; fh_ref_count := n; fh_size := fh_size h; fh_mmap := fh_mmap h |}.
(** A new handle starts with one reference and is acquired once more when cached. *)
Definition fm_cache (m : FileManager) (path : string) (h : FileHandle) : FileManager * nat :=
  ({| fm_heap := fm_heap m ++ [set_count h (fh_ref_count h + 1)]; fm_handles := <[path := length (fm_heap m)]> (fm_handles m); fm_readers := fm_readers m |},
   length (fm_heap m)).
Definition fm_open (m : FileManager) (path : string) : io RockDuckError (FileManager * nat) :=
  match fm_handles m !! path with
  | Some id => io_ret (m, id)
  | None =>
      l <-! io_map_err err_io (fs_read path);
      io_ret (fm_cache m path {| fh_path := path; fh_ref_count := 1; fh_size := zlen l; fh_mmap := None |})
  end.
(** The file is mapped also when a handle is cached; that one is returned as it is. *)
Definition fm_open_mmap (m : FileManager) (path : string) : io RockDuckError (FileManager * nat) :=
  f <-! mmap_open path;
  match fm_handles m !! path with
  | Some id => io_ret (m, id)
  | None => io_ret (fm_cache m path {| fh_path := path; fh_ref_count := 1; fh_size := zlen (mf_content f); fh_mmap := Some f |})
  end.
Definition fm_open_reader (m : FileManager) (path : string) : io RockDuckError (FileManager * MmapFile) :=
  f <-! mmap_open path;
  match fm_readers m !! path with
  | Some r => io_ret (m, r)
  | None => io_ret ({| fm_heap := fm_heap m; fm_handles := fm_handles m; fm_readers := <[path := f]> (fm_readers m) |}, f)
  end.
Definition fm_close (m : FileManager) (path : string) : FileManager :=
  match fm_handles m !! path with
  | Some id => {| fm_heap := alter (λ h, set_count h (fh_ref_count h - 1)) id (fm_heap m); fm_handles := delete path (fm_handles m); fm_readers := fm_readers m |}
  | None => m
  end.
Definition fm_close_reader (m : FileManager) (path : string) : FileManager :=
  {| fm_heap := fm_heap m; fm_handles := fm_handles m; fm_readers := delete path (fm_readers m) |}.

(** * Proofs *)

(** ** Mapped writers *)

(** Chunks written one after the other from [offset] on. *)
Fixpoint write_chunks (w : MmapWriter) (offset : Z) (chunks : list bytes) : io RockDuckError MmapWriter :=
  match chunks with
  | [] => io_ret w
  | c :: cs => w <-! writer_write_at w offset c; write_chunks w (offset + zlen c) cs
  end.
Lemma overwrite_next (done data rest : bytes) : (length data ≤ length rest)%nat →
  overwrite (length done) data (done ++ rest) = (done ++ data) ++ drop (length data) rest.
Proof.
  intros Hl. unfold overwrite. rewrite take_app_length, drop_app_ge by lia. rewrite <- app_assoc. f_equal. f_equal. f_equal. lia.
Qed.
Lemma write_chunks_files chunks w d done rest : disk_files d !! mw_path w = Some (done ++ rest) → mw_data_len w = zlen done →
  mw_len w = zlen (done ++ rest) → mw_len w ≤ u64_max → zlen (concat chunks) ≤ zlen rest →
  ∃ w' d', io_returns (write_chunks w (zlen done) chunks) d w' d' ∧ mw_path w' = mw_path w ∧ mw_data_len w' = zlen (done ++ concat chunks) ∧
    disk_files d' !! mw_path w = Some ((done ++ concat chunks) ++ drop (length (concat chunks)) rest) ∧ disk_faults d' = disk_faults d.
Proof.
  revert w d done rest. induction chunks as [|c cs IH]; intros w d done rest Hf Hd Hn Hm Hl; cbn [write_chunks concat].
  - exists w, d. rewrite app_nil_r, drop_0. by split_and!.
  - cbn [concat] in Hl. unfold zlen in *. rewrite length_app in Hl, Hn.
    destruct (IH {| mw_path := mw_path w; mw_len := mw_len w; mw_data_len := Z.max (mw_data_len w) (Z.of_nat (length done) + Z.of_nat (length c)) |}
      {| disk_files := alter (overwrite (length done) c) (mw_path w) (disk_files d); disk_faults := disk_faults d |} (done ++ c) (drop (length c) rest))
      as (w' & d' & Hr & Hp & Hdl & Hfs & Hfa); cbn [mw_path mw_len mw_data_len disk_files disk_faults] in *.
    + rewrite lookup_alter_eq, Hf. cbn. f_equal. apply overwrite_next. lia.
    + rewrite length_app. lia.
    + rewrite !length_app, length_drop. lia.
    + done.
    + rewrite length_drop. lia.
    + exists w', d'. split_and!; [|done| |by rewrite Hfs, <- !app_assoc, length_app, drop_drop|done].
      * apply io_returns_bind. eexists _, _. split; [|rewrite length_app, Nat2Z.inj_add in Hr; exact Hr].
        unfold writer_write_at, zlen. rewrite !(proj2 (Z.ltb_ge _ _)) by lia. rewrite Nat2Z.id. reflexivity.
      * rewrite Hdl, !length_app. lia.
Qed.

(** Chunks written one after the other into a mapped file that is large enough are
    the content of the file once it is finished, without the unused rest, whatever
    the file held before. *)
Theorem mapped_write_roundtrip path size chunks fs :
  is_u64 size → zlen (concat chunks) ≤ size →
  ∃ w w' d1 d2 d3, io_returns (writer_create path size) (new_disk fs) w d1 ∧ io_returns (write_chunks w 0 chunks) d1 w' d2 ∧
    io_returns (writer_finalize w') d2 (zlen (concat chunks)) d3 ∧ disk_files d3 !! path = Some (concat chunks).
Proof.
  intros Hs Hl. set (w := {| mw_path := path; mw_len := size; mw_data_len := 0 |}).
  destruct (write_chunks_files chunks w (new_disk (<[path := replicate (Z.to_nat size) 0]> fs)) [] (replicate (Z.to_nat size) 0))
    as (w' & [fs2 fa2] & Hw & Hp & Hd & Hf & Hfa); cbn; [by rewrite lookup_insert_eq|done|unfold zlen, is_u64 in *; rewrite length_replicate; lia|
    unfold is_u64, u64_max in *; lia|unfold zlen, is_u64 in *; rewrite length_replicate; lia|].
  cbn in Hfa, Hf. subst fa2. eexists w, w', _, _, _. split; [reflexivity|]. split; [exact Hw|].
  unfold writer_finalize. rewrite Hp, Hd. cbn [app]. split.
  - unfold io_returns, io_bind, io_map_err, fs_sync, fs_open, fs_truncate, fs_op. cbn. rewrite Hf. cbn. reflexivity.
  - cbn. rewrite lookup_alter_eq, Hf. cbn. f_equal. unfold zlen. rewrite Nat2Z.id. apply take_app_length.
Qed.

(** ** The mapped zone map *)

Lemma ltb_take n (l : bytes) : ltb l (take n l) = false.
Proof.
  revert n. induction l as [|x l IH]; intros [|n]; cbn; try done.
  unfold ltb, cmp, list_cmp in *. cbn. rewrite cmp_refl. apply IH.
Qed.
Lemma take_ltb n (l : bytes) : (n < length l)%nat → ltb (take n l) l = true.
Proof.
  revert n. induction l as [|x l IH]; intros [|n] Hn; cbn in *; try done; try lia.
  unfold ltb, cmp, list_cmp in *. cbn. rewrite cmp_refl. apply IH. lia.
Qed.
Lemma granule_of_column_bounds i c :
  ig_min (granule_of_column i c) = InlineBytes_from_slice <$> c.1.1 ∧ ig_max (granule_of_column i c) = InlineBytes_from_slice <$> c.1.2.
Proof. destruct c as [[[mn|] [mx|]] n]; done. Qed.

(** The values that a column with these bounds may hold: its least and greatest one
    are a lower and an upper bound of them. *)
Definition column_holds (c : option bytes * option bytes * Z) (v : bytes) : Prop :=
  (∀ mn, c.1.1 = Some mn → ltb v mn = false) ∧ (∀ mx, c.1.2 = Some mx → ltb mx v = false).

Lemma granule_keeps i c v lo hi : column_holds c v → (∀ mx, c.1.2 = Some mx → (length mx ≤ MAX_INLINE_BYTES)%nat) →
  ltb v lo = false → ltb hi v = false → granule_excludes (granule_of_column i c) lo hi = false.
Proof.
  intros [Hmn Hmx] Hlen Hlo Hhi. unfold granule_excludes. destruct (granule_of_column_bounds i c) as [-> ->]. apply orb_false_iff. split.
  - destruct (c.1.2) as [mx|] eqn:E; [|done]. cbn. unfold InlineBytes_from_slice. rewrite take_ge by auto. rewrite (ltb_false_trans lo v mx) by auto. apply andb_false_r.
  - destruct (c.1.1) as [mn|] eqn:E; [|done]. cbn. rewrite (ltb_false_trans (InlineBytes_from_slice mn) mn hi); [apply andb_false_r|apply ltb_take|].
    eapply ltb_false_trans; [|exact Hhi]. auto.
Qed.

(** A mapped zone map never hides a value whose column has bounds that fit inline.
    For every value that the statistics of a column allow and every query range around
    it, neither the check of that granule nor the one of the whole file excludes it,
    when the greatest value of the column has at most 32 bytes; a least value may be
    of any length, since a prefix of it is still a lower bound. *)
Theorem mapped_zone_map_sound columns i c v lo hi :
  columns !! i = Some c → column_holds c v → (∀ mx, c.1.2 = Some mx → (length mx ≤ MAX_INLINE_BYTES)%nat) →
  ltb v lo = false → ltb hi v = false →
  granule_may_overlap (data_of_stats columns) i lo hi = true ∧ data_may_overlap (data_of_stats columns) lo hi = true.
Proof.
  intros Hi Hv Hlen Hlo Hhi. pose proof (granule_keeps i c v lo hi Hv Hlen Hlo Hhi) as Hk.
  assert (zd_granules (data_of_stats columns) !! i = Some (granule_of_column i c)) as Hg by (cbn; by rewrite list_lookup_imap, Hi).
  split; [unfold granule_may_overlap; by rewrite Hg, Hk|]. apply existsb_exists. exists (granule_of_column i c).
  split; [by apply list_elem_of_In, list_elem_of_lookup_2 with i|by rewrite Hk].
Qed.

(** A granule whose greatest value is longer than 32 bytes hides it.  The bound is
    cut to a prefix, which is smaller, so a query for exactly that value skips the
    granule. *)
Theorem mapped_long_maximum_hidden columns i c mx :
  columns !! i = Some c → c.1.2 = Some mx → (MAX_INLINE_BYTES < length mx)%nat →
  granule_may_overlap (data_of_stats columns) i mx mx = false.
Proof.
  intros Hi Hc Hl. unfold granule_may_overlap. cbn. rewrite list_lookup_imap, Hi. cbn. unfold granule_excludes.
  destruct (granule_of_column_bounds i c) as [_ ->]. rewrite Hc. cbn [fmap option_fmap option_map]. unfold InlineBytes_from_slice. rewrite (take_ltb _ _ Hl).
  destruct mx; [cbn in Hl; lia|done].
Qed.

(** ** A zone map written with a header is opened *)

Section open_written.
Context `{Crc32Laws} `{!Codec GranuleZoneMapData} `{!CodecLaws GranuleZoneMapData}.
Lemma slice_at_whole f : zlen (mf_content f) ≤ u64_max → slice_at f 0 (zlen (mf_content f)) = Ok (mf_content f).
Proof.
  intros Hl. unfold slice_at. unfold wrap64. rewrite Z.add_0_l, Z.mod_small by (unfold zlen, u64_max in *; lia). rewrite Z.min_id.
  rewrite (proj2 (Z.leb_le _ _)) by (unfold zlen; lia). f_equal. unfold slice, zlen. rewrite Nat2Z.id, drop_0, Nat.sub_0_r. by apply take_ge.
Qed.

(** The mapped zone map and the writer of headers agree.  A file that holds a
    payload under a fresh header of zone-map magic is opened as the data its payload
    decodes to. *)
Theorem mapped_zone_map_opens path fs z payload :
  encode z = Ok payload → Forall is_byte payload → zlen payload ≤ MAX_PAYLOAD_SIZE → fs !! path = Some (written MAGIC_ZONE payload) →
  ∃ f, io_returns (MmappedZoneMap_open path) (new_disk fs) (f, z) (new_disk fs).
Proof.
  intros Hz Hb Hp Hf. exists {| mf_content := written MAGIC_ZONE payload; mf_path := path |}.
  assert (length (written MAGIC_ZONE payload) = 36 + length payload)%nat as Hlen
    by (unfold written; rewrite length_app, header_bytes_length; done).
  unfold MmappedZoneMap_open. apply io_returns_bind. eexists _, (new_disk fs). split.
  { unfold mmap_open. apply io_returns_bind. exists (written MAGIC_ZONE payload), (new_disk fs). split; [|by apply io_returns_ret].
    apply io_returns_map_err. unfold io_returns, fs_read, fs_op. cbn. by rewrite Hf. }
  apply io_returns_bind. eexists _, _. split.
  { apply io_returns_lift. split; [apply slice_at_whole; cbn [mf_content]; unfold zlen, MAX_PAYLOAD_SIZE, u64_max in *; lia|done]. }
  cbn [mf_content]. apply io_returns_bind. exists payload, (new_disk fs). split.
  { apply io_returns_lift. split; [|done]. apply codec_err_Ok, mmap_accepts.
    - apply Forall_app. split; [|done]. apply is_byte_header. vm_compute. repeat constructor; done.
    - unfold written. by rewrite header_version_bytes.
    - eexists _, []. split; [by apply written_accepted|]. by rewrite app_nil_r. }
  apply io_returns_bind. exists z, (new_disk fs). split; [|by apply io_returns_ret].
  apply io_returns_lift. split; [|done]. by apply codec_err_Ok, decode_encode.
Qed.
End open_written.

(** ** The cache of handles *)

(** A call of the manager that returns; the files may change between calls. *)
Inductive fm_step : FileManager → FileManager → Prop :=
  | step_open m path d m' id d' : io_returns (fm_open m path) d (m', id) d' → fm_step m m'
  | step_open_mmap m path d m' id d' : io_returns (fm_open_mmap m path) d (m', id) d' → fm_step m m'
  | step_open_reader m path d m' r d' : io_returns (fm_open_reader m path) d (m', r) d' → fm_step m m'
  | step_close m path : fm_step m (fm_close m path)
  | step_close_reader m path : fm_step m (fm_close_reader m path).

(** A cached handle is the one of its path, with two references; any other handle has
    been closed once. *)
Definition fm_inv (m : FileManager) : Prop :=
  (∀ path id, fm_handles m !! path = Some id → ∃ h, fm_heap m !! id = Some h ∧ fh_path h = path ∧ fh_ref_count h = 2) ∧
  (∀ id h, fm_heap m !! id = Some h → fm_handles m !! fh_path h ≠ Some id → fh_ref_count h = 1).

Lemma fm_cache_inv m path h : fm_inv m → fm_handles m !! path = None → fh_path h = path → fh_ref_count h = 1 → fm_inv (fm_cache m path h).1.
Proof.
  intros [Hc Ho] Hn Hp Hr. split; cbn.
  - intros q id. destruct (decide (q = path)) as [->|Hne].
    + rewrite lookup_insert_eq. intros [= <-]. exists (set_count h (fh_ref_count h + 1)). rewrite list_lookup_middle by done. cbn. split_and!; [done|done|lia].
    + rewrite lookup_insert_ne by done. intros (h' & Hh & ?)%Hc. exists h'. split; [|done]. by apply lookup_app_l_Some.
  - intros id h' Hh Hne. apply lookup_app_Some in Hh as [Hh|[Hl Hh]].
    + apply (Ho id h' Hh). intros Hs. apply Hne. rewrite lookup_insert_ne; [done|]. intros Heq. rewrite <- Heq in Hs. congruence.
    + apply list_lookup_singleton_Some in Hh as [Hi <-]. cbn in Hne. rewrite Hp, lookup_insert_eq in Hne. exfalso. apply Hne. f_equal. lia.
Qed.
Lemma fm_close_inv m path : fm_inv m → fm_inv (fm_close m path).
Proof.
  intros [Hc Ho]. unfold fm_close. destruct (fm_handles m !! path) as [id|] eqn:E; [|by split].
  destruct (Hc _ _ E) as (h & Hh & Hp & Hr). split; cbn.
  - intros q id' [Hne Hq]%lookup_delete_Some. destruct (Hc _ _ Hq) as (h' & Hh' & Hp' & Hr'). exists h'. split; [|done].
    rewrite list_lookup_alter_ne; [done|]. intros Heq. subst id'. congruence.
  - intros id' h' Hh' Hne. destruct (decide (id' = id)) as [->|Hid].
    + rewrite list_lookup_alter_eq, Hh in Hh'. injection Hh' as <-. cbn. lia.
    + rewrite list_lookup_alter_ne in Hh' by done. apply (Ho _ _ Hh'). intros Hs. apply Hne. rewrite lookup_delete_ne; [done|]. intros Heq. rewrite <- Heq in Hs. congruence.
Qed.
Lemma fm_step_inv m m' : fm_step m m' → fm_inv m → fm_inv m'.
Proof.
  intros Hs Hi. destruct Hs as [m path d m' id d' Hr|m path d m' id d' Hr|m path d m' r d' Hr|m path|m path].
  - unfold fm_open in Hr. destruct (fm_handles m !! path) eqn:E; [apply io_returns_ret in Hr as [[= -> ->] _]; done|].
    apply io_returns_bind in Hr as (l & d1 & _ & Hr). apply io_returns_ret in Hr as [Hr _]. apply (f_equal fst) in Hr. cbn in Hr. subst m'. by apply fm_cache_inv with (h := {| fh_path := path; fh_ref_count := 1; fh_size := zlen l; fh_mmap := None |}).
  - unfold fm_open_mmap in Hr. apply io_returns_bind in Hr as (f & d1 & _ & Hr).
    destruct (fm_handles m !! path) eqn:E; [apply io_returns_ret in Hr as [[= -> ->] _]; done|].
    apply io_returns_ret in Hr as [Hr _]. apply (f_equal fst) in Hr. cbn in Hr. subst m'. by apply fm_cache_inv with (h := {| fh_path := path; fh_ref_count := 1; fh_size := zlen (mf_content f); fh_mmap := Some f |}).
  - unfold fm_open_reader in Hr. apply io_returns_bind in Hr as (f & d1 & _ & Hr).
    destruct (fm_readers m !! path); apply io_returns_ret in Hr as [[= -> ->] _]; done.
  - by apply fm_close_inv.
  - done.
Qed.

(** Reference counts of cached handles.  After any sequence of calls a cached handle
    has exactly two references however often it was opened, and closing it drops it from
    the cache while one reference is left: no count ever reaches zero. *)
Theorem handle_counts_never_zero m : rtc fm_step fm_new m →
  (∀ path id, fm_handles m !! path = Some id →
    (fh_ref_count <$> fm_heap m !! id) = Some 2 ∧
    fm_handles (fm_close m path) !! path = None ∧ (fh_ref_count <$> fm_heap (fm_close m path) !! id) = Some 1) ∧
  (∀ id h, fm_heap m !! id = Some h → fh_ref_count h = 1 ∨ fh_ref_count h = 2).
Proof.
  intros Hs. assert (fm_inv m) as [Hc Ho].
  { assert (fm_inv fm_new) as H0 by (split; [intros ??; cbn; by rewrite lookup_empty|intros ?? [=]]). induction Hs; eauto using fm_step_inv. }
  split.
  - intros path id E. destruct (Hc _ _ E) as (h & Hh & Hp & Hr). unfold fm_close. rewrite E. cbn. rewrite lookup_delete_eq, list_lookup_alter_eq, Hh. cbn.
    by rewrite Hr.
  - intros id h Hh. destruct (decide (fm_handles m !! fh_path h = Some id)) as [E|E]; [|left; by apply (Ho id)].
    destruct (Hc _ _ E) as (h' & Hh' & _ & Hr). right. congruence.
Qed.

(** * Witnesses *)

Lemma mapped_write_roundtrip_witness : ∃ w w' d1 d2 d3,
  io_returns (writer_create "s.bin" 8) (new_disk {["s.bin" := [9; 9]]}) w d1 ∧ io_returns (write_chunks w 0 [[1; 2]; []; [3]]) d1 w' d2 ∧
  io_returns (writer_finalize w') d2 3 d3 ∧ disk_files d3 !! "s.bin" = Some [1; 2; 3].
Proof. apply (mapped_write_roundtrip "s.bin" 8 [[1; 2]; []; [3]]); [unfold is_u64, u64_max; lia|vm_compute; discriminate]. Defined.

Definition demo_columns : list (option bytes * option bytes * Z) := [(Some [1], Some [5; 0], 0); (Some [1], Some (replicate 33 7), 2)].
Lemma mapped_zone_map_sound_witness :
  granule_may_overlap (data_of_stats demo_columns) 0 [4] [6] = true ∧ data_may_overlap (data_of_stats demo_columns) [4] [6] = true.
Proof.
  apply (mapped_zone_map_sound demo_columns 0 (Some [1], Some [5; 0], 0) [5]); try reflexivity.
  - split; [intros ? [= <-]|intros ? [= <-]]; reflexivity.
  - intros ? [= <-]. vm_compute. lia.
Defined.
Lemma mapped_long_maximum_hidden_witness : granule_may_overlap (data_of_stats demo_columns) 1 (replicate 33 7) (replicate 33 7) = false.
Proof. apply (mapped_long_maximum_hidden demo_columns 1 (Some [1], Some (replicate 33 7), 2)); [reflexivity|reflexivity|vm_compute; lia]. Defined.

Lemma handle_counts_never_zero_witness : ∃ m d, io_returns (fm_open fm_new "f") (new_disk {["f" := [1]]}) (m, O) d ∧
  fm_handles (fm_close m "f") !! "f" = None ∧ (fh_ref_count <$> fm_heap (fm_close m "f") !! O) = Some 1.
Proof.
  eexists _, _. split; [reflexivity|]. eapply (proj1 (handle_counts_never_zero _ _) "f" O); reflexivity.
  Unshelve. eapply rtc_once, (step_open _ "f" (new_disk {["f" := [1]]})). reflexivity.
Defined.

Section witnesses.
#[local] Existing Instance sample_crc.
#[local] Existing Instance sample_crc_laws.
#[local] Instance demo_zone_codec : Codec GranuleZoneMapData := table_codec [data_of_stats demo_columns].
#[local] Instance demo_zone_laws : CodecLaws GranuleZoneMapData := table_codec_laws _.
Lemma mapped_zone_map_opens_witness : ∃ payload f d,
  encode (data_of_stats demo_columns) = Ok payload ∧ io_returns (MmappedZoneMap_open "z") d (f, data_of_stats demo_columns) d.
Proof.
  assert (∃ b, encode (data_of_stats demo_columns) = Ok b ∧ Forall is_byte b ∧ zlen b ≤ MAX_PAYLOAD_SIZE) as (payload & E & Hb & Hl).
  { eexists. split; [vm_compute; reflexivity|]. split; [repeat constructor; done|vm_compute; discriminate]. }
  exists payload. destruct (mapped_zone_map_opens "z" {["z" := written MAGIC_ZONE payload]} (data_of_stats demo_columns) payload E Hb Hl) as (f & Hf);
    [by rewrite lookup_singleton_eq|]. by exists f, (new_disk {["z" := written MAGIC_ZONE payload]}).
Defined.
End witnesses.
